(* ===== verification/_CoqProject ===== *)
-Q . S2P
Prelude.v
Float64.v
Float32.v
Nibbles.v
Externals.v
Codec.v
Storage.v
Trie.v
TrieTree.v
TrieTheory.v
TrieMap.v
TrieValues.v
MerkleProofs.v
Types.v
Crypto.v
Blocks.v
Pow.v
Miner.v
Mempool.v
MempoolProps.v
StateDB.v
StateTheory.v
StateProps.v
StateOps.v
Receipts.v
Executor.v
ExecRefines.v
ExecSpec.v
ExecTheory.v
ExecProps.v
Scoring.v
Engine.v
EngineTheory.v
EngineProps.v
EngineTypes.v
Genesis.v
Chain.v
ChainExec.v
ChainFrame.v
ChainTheory.v
ChainInv.v
ChainExample.v
ChainProps.v
ChainReads.v
QvmMemory.v
QvmGas.v
Qvm.v
QvmTheory.v
QvmSafety.v
QvmProps.v
Bridge.v
BridgeProps.v
Ps.v
PsService.v
PsTheory.v
PsStore.v
PsProps.v
Settlement.v
SettlementTheory.v
SettlementProps.v
Wp.v
QscTokens.v
QscLexer.v
QscAst.v
QscParser.v
QscLexerTheory.v
QscParserTheory.v
QscPrecedence.v
QscCodegen.v
QscCompile.v
QscMeaning.v
QscTypeck.v
QscCompiler.v
QscTypeckTheory.v
QscCodegenTheory.v
QscProps.v
Governance.v
GovernanceProps.v
