(* ===== verification/Prelude.v ===== *)
(** * A verification of the QFC node

    The repository is a blockchain node in Rust. This library models the part
    of it that decides what the chain is: how the state is stored and hashed,
    what a transaction does to it, who may produce a block and when a block is
    final, how a node follows forks, keeps its transaction pool and restarts;
    the contract language with its compiler and virtual machine; and the
    services beside the chain: the bridge, the parameter server of distributed
    training, the settlement of its epochs, and governance.
    The models are executable functions translated from the sources under
    src/crates; the theorems are about these functions.

    ** The parts and how they interact

    - Storage.v (qfc-storage: schema.rs, batch.rs, db.rs): column families, key
      encodings, batches. RocksDB is the class [RocksDB] with its laws
      [RocksOk]; finite maps are an instance.
    - Nibbles.v, Trie.v (qfc-trie: nibbles.rs, node.rs, trie.rs, proof.rs): the
      Merkle Patricia trie with its cache and dirty nodes over the storage.
      TrieTree.v has the reference trees, TrieTheory.v the operations against
      them, TrieMap.v, TrieValues.v and MerkleProofs.v the contract of the
      trie.
    - Types.v, Receipts.v, Blocks.v (qfc-types): integers, accounts,
      transactions, receipts, blocks, votes, validators, proofs of work.
    - Crypto.v (qfc-crypto), Pow.v, Miner.v (qfc-pow): Merkle roots, addresses,
      the VRF, proof verification, difficulty, and the threads of the miner as
      an interleaving of small programs.
    - StateDB.v (qfc-state: state_db.rs): accounts, contract storage, code and
      undelegations over the tries, behind caches. StateTheory.v and
      StateProps.v specify the methods; StateOps.v is the interface that the
      executor and the chain use, with the database and plain maps as its two
      instances and the refinement between them. The maps do not say what a
      revert does when accounts were written since the last commit; for that
      case StateProps.v specifies the database itself.
    - Executor.v (qfc-executor: executor.rs): validation and execution of
      transactions, maturing undelegations, the transactions of a block.
      ExecRefines.v carries the executor from the database to plain maps;
      ExecSpec.v says, apart from the code, what every transaction type does to
      them, ExecTheory.v and ExecProps.v prove it.
    - Scoring.v, Engine.v (qfc-consensus: scoring.rs, engine.rs): the registry
      of validators, election, production and validation of blocks, votes,
      finality, slashing, checkpoints; scores and the finality test in doubles
      (Float64.v). EngineTheory.v has the rules for a block apart from the code
      that checks them; EngineProps.v, EngineTypes.v.
    - Mempool.v, MempoolProps.v (qfc-mempool): the transaction pool.
    - Genesis.v, Chain.v (qfc-chain: genesis.rs, chain.rs): genesis, restart,
      the state transition of a block, import with fork choice,
      reorganisation, finality, lookups. The chain calls the executor on a
      scratch [StateDB] over the shared database, and the engine for
      validation. ChainExec.v is about executing a block, ChainFrame.v about
      what it leaves alone, ChainTheory.v about the tables, ChainInv.v about
      one operation, ChainProps.v about the life of a node, ChainReads.v about
      walks over parents; ChainExample.v is a small network.
    - QvmMemory.v, QvmGas.v, Qvm.v (qfc-qvm: value.rs, memory.rs, gas.rs,
      executor.rs; the opcodes of qfc-qsc): the virtual machine of
      QuantumScript, which stands apart from the chain. QvmTheory.v has its
      invariant and a logic for instructions, QvmSafety.v shows that every
      instruction and the loop satisfy it, QvmProps.v has the theorems.
    - QscTokens.v, QscLexer.v, QscAst.v, QscParser.v, QscTypeck.v,
      QscCodegen.v, QscCompiler.v (qfc-qsc: lexer, ast, parser, typeck, codegen,
      lib.rs): the compiler of QuantumScript from source text to code of the
      machine. Wp.v is the program logic its theory uses: QscLexerTheory.v,
      QscParserTheory.v (progress), QscPrecedence.v (the grammar of the
      operators), QscTypeckTheory.v, QscCodegenTheory.v. QscCompile.v runs
      generated code on the machine of Qvm.v, QscMeaning.v says what expressions
      mean, QscProps.v has the theorems.
    - Bridge.v, BridgeProps.v (qfc-bridge: types.rs, validator.rs, relayer.rs):
      deposits, withdrawals and the signatures of the bridge validators.
    - Ps.v, PsService.v (qfc-ps): updates, clocks, robust aggregation in singles
      and doubles (Float32.v), shards and their store over the database of
      Storage.v, epochs. PsTheory.v, PsStore.v, PsProps.v.
    - Settlement.v (qfc-ai-coordinator: settlement.rs): what a closed epoch of
      the parameter server pays and slashes. SettlementTheory.v,
      SettlementProps.v.
    - Governance.v (qfc-ai-coordinator: treasury.rs, param_governance.rs,
      governance.rs): proposals to spend the treasury, to change parameters and
      to approve models, with votes, tallies and timelocks.
      GovernanceProps.v.

    ** Conventions

    A Rust method that returns [Result] and changes state is a function in [ST]
    (below): the state survives an error, and a panic is an outcome. Fields
    behind locks are fields of a record, and a method is one step, except in
    Miner.v, where every access to shared memory is one. Wall-clock time is an
    argument. Fixed-width integers are [Z] with the wrap-around, saturation or
    panic of the operation the source uses. Maps are [gmap]; a [BTreeMap] is
    listed in key order. Third-party code (blake3, borsh, lru, rocksdb,
    ed25519, hex, the EVM) and the Unicode tables behind [char] are parameters:
    a class of operations and, where a theorem needs them, a class of documented
    laws. [CollisionFree] is the
    ideal hash, injective; every theorem with such hypotheses is applied to
    concrete instances in a lemma that bears its name and [_witness].

    ** What the theorems show

    - Trie and state: the trie is a finite map over any sequence of operations,
      its root determines its contents and is determined by them, commits are
      durable, proofs are complete and sound; transfers are exact, a revert
      restores the last commit (and loses what was not committed).
    - Executor: on the database, a transaction that does not run the EVM does
      what its type says, is rejected without effect, or fails at the cost of
      its gas; a failure after uncommitted writes undoes, at the next commit,
      what the block did to other accounts; a transaction moves funds and
      creates none when the gas limit covers the gas, and mints otherwise;
      stakes stay under the cap; what succeeded, or failed on a committed state,
      is not accepted again; validation is exact; undelegations are paid once,
      and can overwrite one another.
    - Consensus: the finality test in doubles is exact, two final blocks share
      a third of the voters, a validator votes once per height, the election
      set is frozen, validation accepts exactly the blocks that obey the rules,
      an elected validator's block validates elsewhere, the
      counters stay in their ranges; what validation does not look at.
    - Miner and proof of work: results of every interleaving, and a race;
      difficulty stays within its bounds.
    - Pool: over every run the hash and price indices agree and the sender index
      lists only pooled transactions, all of them when none replaces another;
      what selection returns.
    - Chain: over every life of a node the served chain is one linked list from
      genesis to the head; what is final never changes; a restart finds the
      same chain; the walk of a reorganisation ends; BLOCKHASH sees the
      ancestors; what a block issues; and that executing an empty block twice
      with a matured undelegation gives two different roots.
    - QVM: every execution ends, typed and within its gas; a static call writes
      nothing; exponentiation is exact; a revert keeps its writes, and linear
      resources can be copied and leaked.
    - QSC: the tokens tile the source; every source text compiles or is rejected
      with an error; the tokens of an expression spell its tree, which nests by
      the levels of the operators and in no other way; a function that returns
      an expression over integer literals, storage variables and operators runs
      on the machine to the meaning of the expression. Also what the compiler gets wrong: assignments to storage
      swap key and value; decimal literals from 2^128 on and hexadecimal ones
      with an odd number of digits become zero; and an if on a name does not
      parse.
    - Bridge: a deposit is minted once and with a threshold of signatures; a
      withdrawal can be completed twice, with none.
    - Parameter server and settlement: with few dishonest workers the trimmed
      mean averages values that lie between honest ones; the records of an epoch
      number the steps of each worker without gaps; the store is one array; a
      settlement pays at most its pool and does not depend on the order of its
      inputs.
    - Governance: the treasury pays, and a parameter changes, only after an
      eligible proposal, timely votes with two thirds of the stake and the
      timelock, and a payment happens once; the limit on the size of a change
      can be evaded by an overflow.

    ** Fuel

    Recursions that are not structural take fuel and end in [NoFuel] or, where
    the code has an error value, say so. Trie descents take the length of the
    key plus one, which the theorems on the trie show to be enough for tries of
    keys of one length; the walk of a reorganisation takes the number of its
    tip plus two ([ChainReads.reorg_walk_ends]); BLOCKHASH lookups take the
    number of the starting block plus one ([ChainReads.blockhash_exact]);
    decimal printing takes 20 digits, enough for 64 bits; a QVM execution takes
    [QvmSafety.vm_fuel] rounds ([QvmProps.vm_execute_ends]), and its power loop
    256, one for each bit of the exponent. A loop of the lexer takes one unit
    per character left and the parser one per token left, which
    [QscProps.compile_total] shows to be enough for every source.

    ** Not modelled

    The EVM bridge (it drives the third-party revm), state pruning and
    snapshots, the peer-to-peer network and block synchronisation, the
    RPC server, the node's tasks and metrics, the QVM's just-in-time compiler,
    and cross-VM calls, the formatter, command line and language
    server of QuantumScript, the inference runtime, the training pilot and the
    watchdog: they use the components above through their methods and do not
    take part in the decisions the theorems are about. The task pool, routing,
    quotas, challenges and verification of the AI coordinator, the agent library
    of the QVM and storage rent are plain code that could be modelled and is
    not yet. I/O failures of the database are not
    modelled, nor is the depth of the call stack: a source that nests deeply
    enough can exhaust the stack of the compiler. Hash maps have no order here,
    so the order of the storage layout in the compiler's output is not
    modelled. *)

From stdpp Require Export base tactics numbers list option gmap strings sorting.
From Stdlib Require Export ZArith Lia.

Declare Scope qfc_scope.
Delimit Scope qfc_scope with qfc.
#[global] Open Scope qfc_scope.
#[global] Open Scope Z_scope.

(** ** Outcomes of Rust functions *)

(** The outcome of a call: [Ok] and [Err] are Rust's [Result]; [Panic] is an
    unwinding panic (a failed [assert!], an index out of range, an overflowing
    [primitive_types::U256] operation); [NoFuel] is a model run that stopped
    before the Rust recursion would have returned. *)
Inductive Result (E A : Type) : Type :=
| Ok (a : A)
| Err (e : E)
| Panic
| NoFuel.
Arguments Ok {E A} a.
Arguments Err {E A} e.
Arguments Panic {E A}.
Arguments NoFuel {E A}.

(** Stateful and fallible code: the state survives an error, as a Rust [&self]
    method with interior mutability keeps what it wrote before an early return. *)
Definition ST (S E A : Type) : Type := S -> Result E A * S.

Definition ret {S E A} (a : A) : ST S E A := fun s => (Ok a, s).
Definition fail {S E A} (e : E) : ST S E A := fun s => (Err e, s).
Definition panic {S E A} : ST S E A := fun s => (Panic, s).
Definition nofuel {S E A} : ST S E A := fun s => (NoFuel, s).

Definition bind {S E A B} (m : ST S E A) (k : A -> ST S E B) : ST S E B :=
  fun s =>
    match m s with
    | (Ok a, s') => k a s'
    | (Err e, s') => (Err e, s')
    | (Panic, s') => (Panic, s')
    | (NoFuel, s') => (NoFuel, s')
    end.

(** Reading and writing the state. *)
Definition gets {S E A} (f : S -> A) : ST S E A := fun s => (Ok (f s), s).
Definition modify {S E} (f : S -> S) : ST S E unit := fun s => (Ok tt, f s).

(** A pure partial function of the model, where [None] is a panic. *)
Definition or_panic {S E A} (o : option A) : ST S E A :=
  match o with Some a => ret a | None => panic end.

(** [ok_or]: an [Option] turned into an error. *)
Definition ok_or {S E A} (o : option A) (e : E) : ST S E A :=
  match o with Some a => ret a | None => fail e end.

(** [map_err] *)
Definition map_err {S E E' A} (f : E -> E') (m : ST S E A) : ST S E' A :=
  fun s =>
    match m s with
    | (Ok a, s') => (Ok a, s')
    | (Err e, s') => (Err (f e), s')
    | (Panic, s') => (Panic, s')
    | (NoFuel, s') => (NoFuel, s')
    end.

(** A result inspected with [match] instead of propagated with [?]. *)
Definition attempt {S E E' A} (m : ST S E A) : ST S E' (A + E) :=
  fun s =>
    match m s with
    | (Ok a, s') => (Ok (inl a), s')
    | (Err e, s') => (Ok (inr e), s')
    | (Panic, s') => (Panic, s')
    | (NoFuel, s') => (NoFuel, s')
    end.

Notation "'let!' x ':=' m 'in' k" := (bind m (fun x => k))
  (at level 10, x name, m at level 100, k at level 200) : qfc_scope.
Notation "'let!' ' p ':=' m 'in' k" := (bind m (fun y => match y with p => k end))
  (at level 10, p strict pattern, m at level 100, k at level 200) : qfc_scope.
Notation "m ';;' k" := (bind m (fun _ => k))
  (at level 100, k at level 200, right associativity) : qfc_scope.

(** ** Machine integers *)

(** A [w]-bit unsigned integer is a [Z] in [0, 2^w). Built with the release
    profile of Cargo.toml, [+], [-] and [*] on [u8]..[u128] wrap. *)
Definition wrap (w x : Z) : Z := x mod 2 ^ w.
Definition in_u (w x : Z) : Prop := 0 <= x < 2 ^ w.
Definition u_max (w : Z) : Z := 2 ^ w - 1.

Definition u64_add (a b : Z) : Z := wrap 64 (a + b).
Definition u64_sub (a b : Z) : Z := wrap 64 (a - b).
Definition u64_mul (a b : Z) : Z := wrap 64 (a * b).

(** [saturating_add], [saturating_sub] and [saturating_mul] of a [w]-bit integer. *)
Definition sat_add (w a b : Z) : Z := Z.min (a + b) (u_max w).
Definition sat_sub (a b : Z) : Z := Z.max 0 (a - b).
Definition sat_mul (w a b : Z) : Z := Z.min (a * b) (u_max w).

(** ** Bytes *)

(** A byte string is a list of [Z] in [0, 256). *)
Abbreviation bytes := (list Z).

Definition is_byte (b : Z) : Prop := 0 <= b < 256.
Definition bytes_ok (bs : bytes) : Prop := Forall is_byte bs.

#[export] Instance is_byte_dec b : Decision (is_byte b).
Proof. unfold is_byte. apply _. Defined.
#[export] Instance bytes_ok_dec bs : Decision (bytes_ok bs).
Proof. unfold bytes_ok. apply _. Defined.

(** Little- and big-endian encodings on [n] bytes ([to_le_bytes] and
    [to_be_bytes]) and their inverses. *)
Fixpoint to_le (n : nat) (x : Z) : bytes :=
  match n with
  | O => []
  | S n' => (x mod 256) :: to_le n' (x / 256)
  end.
Fixpoint from_le (bs : bytes) : Z :=
  match bs with
  | [] => 0
  | b :: bs' => b + 256 * from_le bs'
  end.
Definition to_be (n : nat) (x : Z) : bytes := rev (to_le n x).
Definition from_be (bs : bytes) : Z := from_le (rev bs).

(** Lexicographic comparison of byte strings (Rust's [Ord] on arrays and
    vectors, and the key order of the database). *)
Fixpoint bytes_cmp (a b : bytes) : comparison :=
  match a, b with
  | [], [] => Eq
  | [], _ :: _ => Lt
  | _ :: _, [] => Gt
  | x :: a', y :: b' =>
    match x ?= y with
    | Eq => bytes_cmp a' b'
    | c => c
    end
  end.
Definition bytes_ltb (a b : bytes) : bool :=
  match bytes_cmp a b with Lt => true | _ => false end.
Definition bytes_leb (a b : bytes) : bool :=
  match bytes_cmp a b with Gt => false | _ => true end.
Definition bytes_le (a b : bytes) : Prop := bytes_leb a b = true.

#[export] Instance bytes_le_dec a b : Decision (bytes_le a b).
Proof. unfold bytes_le. apply _. Defined.

(** Decimal digits ([Display] of the unsigned integers), prepended to [acc];
    [fuel] bounds their number (20 for [u64], 78 for [U256]). *)
Fixpoint decimal (fuel : nat) (n : Z) (acc : bytes) : bytes :=
  match fuel with
  | O => acc
  | S fuel' => if n <? 10 then (48 + n) :: acc else decimal fuel' (n / 10) ((48 + n mod 10) :: acc)
  end.

(** A [BTreeMap]: a finite map whose entries are listed in the order of the keys. *)
Definition entries_le {K V} (le : K -> K -> Prop) (x y : K * V) : Prop := le (fst x) (fst y).
#[local] Instance entries_le_dec {K V} (le : K -> K -> Prop) `{forall a b, Decision (le a b)} (x y : K * V) :
  Decision (entries_le le x y).
Proof. unfold entries_le. apply _. Defined.
#[export] Typeclasses Opaque entries_le.
Definition btree_entries {K V} `{Countable K} (le : K -> K -> Prop) `{forall a b, Decision (le a b)} (m : gmap K V) :
    list (K * V) := merge_sort (entries_le le) (map_to_list m).

(** ** Lemmas shared by the components *)

Create HintDb qfc.

Section monad_lemmas.
Context {S E A B : Type}.

Lemma bind_ok (m : ST S E A) (k : A -> ST S E B) s a s' :
  m s = (Ok a, s') -> bind m k s = k a s'.
Proof. unfold bind. by intros ->. Qed.

Lemma bind_err (m : ST S E A) (k : A -> ST S E B) s e s' :
  m s = (Err e, s') -> bind m k s = (Err e, s').
Proof. unfold bind. by intros ->. Qed.

Lemma bind_inv_ok (m : ST S E A) (k : A -> ST S E B) s b s' :
  bind m k s = (Ok b, s') -> exists a s1, m s = (Ok a, s1) /\ k a s1 = (Ok b, s').
Proof. unfold bind. destruct (m s) as [[] ?]; naive_solver. Qed.

Lemma bind_ret (a : A) (k : A -> ST S E B) s : bind (ret a) k s = k a s.
Proof. done. Qed.

Lemma bind_gets (f : S -> A) (k : A -> ST S E B) s : bind (gets f) k s = k (f s) s.
Proof. done. Qed.

Lemma bind_or_panic (o : option A) (k : A -> ST S E B) s a :
  o = Some a -> bind (or_panic o) k s = k a s.
Proof. by intros ->. Qed.

Lemma bind_modify (f : S -> S) (k : unit -> ST S E B) s : bind (modify f) k s = k tt (f s).
Proof. done. Qed.
End monad_lemmas.

(** Runs the head of a [let!] chain with an equation of the context or a
    computation rule. *)
Ltac mstep :=
  first [ rewrite bind_ret | rewrite bind_gets | rewrite bind_modify
        | match goal with
          | H : ?m ?s = (Ok _, _) |- context [bind ?m _ ?s] => rewrite (bind_ok _ _ _ _ _ H)
          | H : ?m ?s = (Err _, _) |- context [bind ?m _ ?s] => rewrite (bind_err _ _ _ _ _ H)
          end ].
(** Proves a decidable closed goal by evaluating its decision procedure. *)
Ltac by_decide := refine (bool_decide_unpack _ _); vm_compute; exact I.

Ltac msteps := repeat (progress (repeat mstep; cbn beta)).

Section integers.

Lemma wrap_small w x : in_u w x -> wrap w x = x.
Proof. unfold wrap, in_u. intros ?. by apply Z.mod_small. Qed.

Lemma wrap_range w x : 0 <= w -> in_u w (wrap w x).
Proof. unfold wrap, in_u. intros ?. apply Z.mod_pos_bound. by apply Z.pow_pos_nonneg. Qed.

Lemma sat_add_le w a b : sat_add w a b <= a + b.
Proof. unfold sat_add. lia. Qed.

Lemma sat_add_range w a b : 0 <= w -> 0 <= a -> 0 <= b -> in_u w (sat_add w a b).
Proof.
  unfold sat_add, in_u, u_max. intros ???.
  assert (0 < 2 ^ w) by (by apply Z.pow_pos_nonneg). lia.
Qed.

Lemma sat_add_exact w a b : in_u w (a + b) -> sat_add w a b = a + b.
Proof. unfold sat_add, in_u, u_max. lia. Qed.

Lemma sat_sub_exact a b : b <= a -> sat_sub a b = a - b.
Proof. unfold sat_sub. lia. Qed.
End integers.

Section endianness.

Lemma length_to_le n x : length (to_le n x) = n.
Proof. revert x. induction n; simpl; auto. Qed.

Lemma to_le_ok n x : bytes_ok (to_le n x).
Proof.
  revert x. induction n; intros x; simpl; constructor; [|apply IHn].
  unfold is_byte. by apply Z.mod_pos_bound.
Qed.

Lemma from_to_le n x : from_le (to_le n x) = x mod 256 ^ Z.of_nat n.
Proof.
  revert x. induction n as [|n IH]; intros x; simpl; [by rewrite Z.mod_1_r|].
  rewrite IH. rewrite Nat2Z.inj_succ, Z.pow_succ_r by lia.
  rewrite (Z.rem_mul_r x 256 (256 ^ Z.of_nat n)); lia.
Qed.

Lemma to_from_le bs : bytes_ok bs -> to_le (length bs) (from_le bs) = bs.
Proof.
  induction 1 as [|b bs Hb _ IH]; simpl; [done|]. unfold is_byte in Hb.
  rewrite (Z.mul_comm 256), Z.mod_add, Z.mod_small by lia.
  rewrite Z.div_add, Z.div_small, Z.add_0_l by lia. by rewrite IH.
Qed.

Lemma from_le_range bs : bytes_ok bs -> 0 <= from_le bs < 256 ^ Z.of_nat (length bs).
Proof.
  induction 1 as [|b bs Hb _ IH]; simpl; [lia|]. unfold is_byte in Hb.
  rewrite Nat2Z.inj_succ, Z.pow_succ_r by lia. lia.
Qed.

Lemma length_to_be n x : length (to_be n x) = n.
Proof. unfold to_be. by rewrite length_rev, length_to_le. Qed.

Lemma to_be_ok n x : bytes_ok (to_be n x).
Proof. unfold to_be, bytes_ok. apply Forall_rev, to_le_ok. Qed.

Lemma from_to_be n x : from_be (to_be n x) = x mod 256 ^ Z.of_nat n.
Proof. unfold from_be, to_be. by rewrite rev_involutive, from_to_le. Qed.

Lemma to_from_be bs : bytes_ok bs -> to_be (length bs) (from_be bs) = bs.
Proof.
  intros H. unfold from_be, to_be.
  rewrite <- (length_rev bs), to_from_le, rev_involutive; [done|].
  by apply Forall_rev.
Qed.
End endianness.

#[export] Hint Resolve length_to_le length_to_be to_le_ok to_be_ok : qfc.

Section btree.
Context {K V : Type} `{Countable K} (le : K -> K -> Prop) `{!forall a b, Decision (le a b)}.

Lemma btree_entries_elem (m : gmap K V) k v : (k, v) ∈ btree_entries le m <-> m !! k = Some v.
Proof. unfold btree_entries. rewrite merge_sort_Permutation. apply elem_of_map_to_list. Qed.

Lemma btree_entries_nodup (m : gmap K V) : NoDup (btree_entries le m).
Proof. unfold btree_entries. rewrite merge_sort_Permutation. apply NoDup_map_to_list. Qed.

Lemma btree_entries_keys_nodup (m : gmap K V) : NoDup (map fst (btree_entries le m)).
Proof. unfold btree_entries. rewrite merge_sort_Permutation. apply NoDup_fst_map_to_list. Qed.

Lemma btree_entries_sorted `{!Transitive le, !Total le} (m : gmap K V) :
  StronglySorted (entries_le le) (btree_entries le m).
Proof.
  apply StronglySorted_merge_sort.
  - intros x y z Hxy Hyz. unfold entries_le in *. by transitivity (fst y).
  - intros x y. apply (total le).
Qed.

Lemma btree_entries_nil (m : gmap K V) : btree_entries le m = [] <-> m = ∅.
Proof.
  split; intros Hm; [|by rewrite Hm].
  apply map_empty. intros k. destruct (m !! k) eqn:E; [|done].
  apply btree_entries_elem in E. rewrite Hm in E. by apply not_elem_of_nil in E.
Qed.
End btree.

Section byte_order.

Lemma bytes_cmp_refl a : bytes_cmp a a = Eq.
Proof. induction a as [|x a IH]; simpl; [done|]. by rewrite Z.compare_refl. Qed.

Lemma bytes_cmp_eq a b : bytes_cmp a b = Eq -> a = b.
Proof.
  revert b. induction a as [|x a IH]; intros [|y b]; simpl; try done.
  destruct (x ?= y) eqn:E; try done. apply Z.compare_eq in E as ->. intros ?. f_equal; auto.
Qed.

Lemma bytes_cmp_antisym a b : bytes_cmp b a = CompOpp (bytes_cmp a b).
Proof.
  revert b. induction a as [|x a IH]; intros [|y b]; simpl; try done.
  rewrite Z.compare_antisym. destruct (x ?= y); simpl; auto.
Qed.

Lemma bytes_cmp_lt_trans a b c : bytes_cmp a b = Lt -> bytes_cmp b c = Lt -> bytes_cmp a c = Lt.
Proof.
  revert b c. induction a as [|x a IH]; intros [|y b] [|z c]; simpl; try done.
  destruct (Z.compare_spec x y), (Z.compare_spec y z); subst; try done; intros ??.
  - rewrite Z.compare_refl. eauto.
  - by rewrite (proj2 (Z.compare_lt_iff _ _)) by lia.
  - by rewrite (proj2 (Z.compare_lt_iff _ _)) by lia.
  - by rewrite (proj2 (Z.compare_lt_iff _ _)) by lia.
Qed.

#[export] Instance bytes_le_total : Total bytes_le.
Proof.
  intros a b. unfold bytes_le, bytes_leb. rewrite (bytes_cmp_antisym a b).
  destruct (bytes_cmp a b); simpl; auto.
Qed.

#[export] Instance bytes_le_trans : Transitive bytes_le.
Proof.
  intros a b c. unfold bytes_le, bytes_leb.
  destruct (bytes_cmp a b) eqn:E1; try done.
  - by apply bytes_cmp_eq in E1 as ->.
  - destruct (bytes_cmp b c) eqn:E2; try done.
    + apply bytes_cmp_eq in E2 as ->. by rewrite E1.
    + by rewrite (bytes_cmp_lt_trans _ _ _ E1 E2).
Qed.

#[export] Instance bytes_le_antisymm : AntiSymm (=) bytes_le.
Proof.
  intros a b. unfold bytes_le, bytes_leb. rewrite (bytes_cmp_antisym a b).
  destruct (bytes_cmp a b) eqn:E; simpl; try done. intros _ _. by apply bytes_cmp_eq.
Qed.

Lemma bytes_ltb_le a b : bytes_ltb a b = true -> bytes_le a b.
Proof. unfold bytes_ltb, bytes_le, bytes_leb. by destruct (bytes_cmp a b). Qed.

Lemma bytes_ltb_ge a b : bytes_ltb a b = false -> bytes_le b a.
Proof.
  unfold bytes_ltb, bytes_le, bytes_leb. rewrite (bytes_cmp_antisym a b). by destruct (bytes_cmp a b).
Qed.

Lemma from_le_app a b : from_le (a ++ b) = from_le a + 256 ^ Z.of_nat (length a) * from_le b.
Proof.
  induction a as [|x a IH]; [simpl; lia|].
  cbn [app from_le length]. rewrite IH, Nat2Z.inj_succ, Z.pow_succ_r by lia. lia.
Qed.

Lemma from_be_cons x a : from_be (x :: a) = x * 256 ^ Z.of_nat (length a) + from_be a.
Proof. unfold from_be. simpl. rewrite from_le_app, length_rev. simpl. lia. Qed.

(** On strings of one length the lexicographic order is the order of the big-endian numbers. *)
Lemma bytes_cmp_from_be a b :
  bytes_ok a -> bytes_ok b -> length a = length b -> bytes_cmp a b = (from_be a ?= from_be b).
Proof.
  intros Ha. revert b. induction Ha as [|x a Hx Ha IH]; intros [|y b] Hb Hlen; try done.
  injection Hlen as Hlen.
  inversion Hb as [|?? Hy Hb']; subst. cbn [bytes_cmp]. rewrite !from_be_cons, <-Hlen.
  assert (Hra : 0 <= from_be a < 256 ^ Z.of_nat (length a)).
  { unfold from_be. rewrite <-(length_rev a). by apply from_le_range, Forall_rev. }
  assert (Hrb : 0 <= from_be b < 256 ^ Z.of_nat (length a)).
  { rewrite Hlen. unfold from_be. rewrite <-(length_rev b). by apply from_le_range, Forall_rev. }
  set (k := 256 ^ Z.of_nat (length a)) in *. unfold is_byte in *.
  destruct (Z.compare_spec x y) as [->|H|H].
  - rewrite IH by done. symmetry. apply Z.add_compare_mono_l.
  - symmetry. apply Z.compare_lt_iff. nia.
  - symmetry. apply Z.compare_gt_iff. nia.
Qed.
End byte_order.

Section lists.
Context {A : Type}.

Lemma filter_all (P : A -> Prop) `{forall x, Decision (P x)} (l : list A) :
  Forall P l -> filter P l = l.
Proof.
  induction 1 as [|x l Hx _ IH]; [done|]. rewrite filter_cons_True by done. by rewrite IH.
Qed.

Lemma filter_none (P : A -> Prop) `{forall x, Decision (P x)} (l : list A) :
  (forall x, x ∈ l -> ~ P x) -> filter P l = [].
Proof.
  induction l as [|x l IH]; intros Hl; [done|].
  rewrite filter_cons_False by (apply Hl; set_solver). apply IH. set_solver.
Qed.

Lemma filter_fmap {B} (f : B -> A) (P : A -> Prop) `{forall x, Decision (P x)} (l : list B) :
  filter P (f <$> l) = f <$> filter (fun x => P (f x)) l.
Proof.
  induction l as [|x l IH]; [done|]. rewrite fmap_cons.
  destruct (decide (P (f x))); [rewrite !filter_cons_True by done|rewrite !filter_cons_False by done];
    by rewrite IH.
Qed.

Lemma filter_iff (P Q : A -> Prop) `{forall x, Decision (P x)} `{forall x, Decision (Q x)} (l : list A) :
  (forall x, x ∈ l -> P x <-> Q x) -> filter P l = filter Q l.
Proof.
  induction l as [|x l IH]; intros Hl; [done|].
  assert (P x <-> Q x) as Hx by (apply Hl; set_solver).
  rewrite !filter_cons, IH by set_solver. destruct (decide (P x)), (decide (Q x)); tauto.
Qed.
End lists.

(** ** Maps listed in key order *)

Section sorted_maps.
Context {V : Type}.

Definition by_key (x y : bytes * V) : Prop := bytes_le (fst x) (fst y).
Definition before (x y : bytes * V) : Prop := bytes_cmp (fst x) (fst y) = Lt.

#[export] Instance by_key_dec x y : Decision (by_key x y).
Proof. unfold by_key. apply _. Defined.

Definition sorted_list (m : gmap bytes V) : list (bytes * V) := merge_sort by_key (map_to_list m).

#[export] Instance by_key_trans : Transitive by_key.
Proof. intros ???. unfold by_key. by apply bytes_le_trans. Qed.
#[export] Instance by_key_total : Total by_key.
Proof. intros ??. unfold by_key. apply bytes_le_total. Qed.

Lemma elem_of_sorted_list m k v : (k, v) ∈ sorted_list m <-> m !! k = Some v.
Proof. unfold sorted_list. by rewrite merge_sort_Permutation, elem_of_map_to_list. Qed.

Lemma sorted_list_perm m : sorted_list m ≡ₚ map_to_list m.
Proof. apply merge_sort_Permutation. Qed.

Lemma before_irrefl x : ~ before x x.
Proof. unfold before. by rewrite bytes_cmp_refl. Qed.

Lemma before_by_key x y : before x y -> by_key x y.
Proof. unfold before, by_key, bytes_le, bytes_leb. by intros ->. Qed.

Lemma before_nodup (l : list (bytes * V)) : StronglySorted before l -> NoDup l.
Proof.
  induction 1 as [|x l Hs IH Hf]; constructor; [|done]. intros Hin.
  rewrite Forall_forall in Hf. by apply (before_irrefl x), Hf.
Qed.

(** Sorted entries with different keys are strictly sorted. *)
Lemma sorted_strict (l : list (bytes * V)) : StronglySorted by_key l -> NoDup l.*1 -> StronglySorted before l.
Proof.
  induction 1 as [|[k v] l Hs IH Hf]; intros Hnd; constructor; rewrite fmap_cons in Hnd;
    apply NoDup_cons in Hnd as [Hn Hnd]; [auto|].
  rewrite Forall_forall in *. intros [k' v'] Hin. specialize (Hf _ Hin). unfold by_key, before in *. simpl in *.
  unfold bytes_le, bytes_leb in Hf. destruct (bytes_cmp k k') eqn:E; try done.
  apply bytes_cmp_eq in E as ->. by apply (list_elem_of_fmap_2 fst) in Hin.
Qed.

Lemma sorted_list_sorted m : StronglySorted before (sorted_list m).
Proof.
  apply sorted_strict; [apply (StronglySorted_merge_sort by_key)|].
  rewrite sorted_list_perm. apply NoDup_fst_map_to_list.
Qed.

(** A strictly sorted listing of a map is its [sorted_list]. *)
Lemma sorted_list_unique m (l : list (bytes * V)) :
  StronglySorted before l -> (forall k v, (k, v) ∈ l <-> m !! k = Some v) -> l = sorted_list m.
Proof.
  intros Hs Hel.
  assert (l ≡ₚ sorted_list m) as Hp.
  { apply NoDup_Permutation; [by apply before_nodup| |].
    - rewrite sorted_list_perm. apply NoDup_map_to_list.
    - intros [k v]. by rewrite Hel, elem_of_sorted_list. }
  apply (StronglySorted_unique_strong by_key); [| |apply (StronglySorted_merge_sort by_key)|done].
  - intros [k1 v1] [k2 v2] H1 H2 Hle1 Hle2. unfold by_key in *. simpl in *.
    assert (k1 = k2) as <- by (by apply (anti_symm bytes_le)).
    apply Hel in H1. apply elem_of_sorted_list in H2. congruence.
  - clear -Hs. induction Hs as [|x l Hs IH Hf]; constructor; [done|].
    eapply Forall_impl; [done|]. apply before_by_key.
Qed.
End sorted_maps.

Lemma sorted_list_fmap {V W} (f : V -> W) (m : gmap bytes V) :
  sorted_list (f <$> m) = prod_map id f <$> sorted_list m.
Proof.
  symmetry. apply sorted_list_unique.
  - pose proof (sorted_list_sorted m) as Hs. induction Hs as [|x l Hs IH Hf]; simpl; constructor; [done|].
    apply Forall_fmap. eapply Forall_impl; [done|]. by intros [].
  - intros k w. rewrite list_elem_of_fmap, lookup_fmap_Some. split.
    + intros ([k' v] & [= -> ->] & Hin%elem_of_sorted_list). eauto.
    + intros (v & <- & Hv). exists (k, v). split; [done|]. by apply elem_of_sorted_list.
Qed.

(** ** Sums over finite maps *)

Section sums.
Context {K V : Type} `{Countable K}.
Implicit Types (m : gmap K V) (f : V -> Z).

Definition sum_map f m : Z := map_fold (fun _ v t => f v + t) 0 m.

Lemma sum_map_empty f : sum_map f ∅ = 0.
Proof. done. Qed.

Lemma sum_map_fresh f m k v : m !! k = None -> sum_map f (<[k := v]> m) = f v + sum_map f m.
Proof. intros Hk. unfold sum_map. rewrite map_fold_insert_L; [done| |done]. intros; lia. Qed.

Lemma sum_map_delete f m k v : m !! k = Some v -> sum_map f (base.delete k m) = sum_map f m - f v.
Proof.
  intros Hk. rewrite <- (insert_delete_id m k v Hk) at 2.
  rewrite sum_map_fresh by apply lookup_delete_eq. lia.
Qed.

Lemma sum_map_insert f m k v :
  sum_map f (<[k := v]> m) = sum_map f m - default 0 (f <$> m !! k) + f v.
Proof.
  destruct (m !! k) as [w|] eqn:Hk; simpl.
  - rewrite <- insert_delete_eq, sum_map_fresh, (sum_map_delete f m k w) by (done || apply lookup_delete_eq). lia.
  - rewrite sum_map_fresh by done. lia.
Qed.

Lemma sum_map_nonneg f m : (forall k v, m !! k = Some v -> 0 <= f v) -> 0 <= sum_map f m.
Proof.
  induction m as [|k v m Hk IH] using map_ind; intros Hf; [by rewrite sum_map_empty|].
  rewrite sum_map_fresh by done.
  assert (0 <= f v) by (eapply Hf; by rewrite lookup_insert_eq).
  assert (0 <= sum_map f m); [|lia].
  apply IH. intros k' v' Hk'. apply (Hf k'). rewrite lookup_insert_ne; congruence.
Qed.

Lemma sum_map_elem f m k v :
  (forall k v, m !! k = Some v -> 0 <= f v) -> m !! k = Some v -> f v <= sum_map f m.
Proof.
  intros Hf Hk. assert (0 <= sum_map f (base.delete k m)) as Hd.
  { apply sum_map_nonneg. intros k' v' [_ Hk']%lookup_delete_Some. eauto. }
  rewrite (sum_map_delete f m k v Hk) in Hd. lia.
Qed.

Lemma sum_map_le f g m :
  (forall k v, m !! k = Some v -> f v <= g v) -> sum_map f m <= sum_map g m.
Proof.
  induction m as [|k v m Hk IH] using map_ind; intros Hf; [by rewrite !sum_map_empty|].
  rewrite !sum_map_fresh by done.
  assert (f v <= g v) by (eapply Hf; by rewrite lookup_insert_eq).
  assert (sum_map f m <= sum_map g m); [|lia].
  apply IH. intros k' v' Hk'. apply (Hf k'). rewrite lookup_insert_ne; congruence.
Qed.

Lemma sum_map_list f m (l : list (K * V)) :
  l ≡ₚ map_to_list m -> foldr (fun v t => f v + t) 0 l.*2 = sum_map f m.
Proof.
  intros Hl. unfold sum_map. rewrite map_fold_foldr.
  transitivity (foldr (fun v t => f v + t) 0 (map_to_list m).*2).
  - apply (foldr_permutation_proper (=) (fun v t => f v + t)); [by intros ??? ->|intros ???; lia|by rewrite Hl].
  - clear Hl. induction (map_to_list m) as [|[k v] l' IH]; [done|]. simpl in *. by f_equal.
Qed.
End sums.

(** A loop of additions that are exact below [2 ^ w] adds exactly when the sum
    is below [2 ^ w]. *)
Lemma foldl_add_exact {A} w (P : A -> Prop) (g : Z -> A -> Z) (f : A -> Z) z l :
  (forall x, P x -> 0 <= f x) -> (forall t x, 0 <= t -> P x -> in_u w (t + f x) -> g t x = t + f x) ->
  0 <= z -> Forall P l -> in_u w (z + foldr (fun x t => f x + t) 0 l) ->
  foldl g z l = z + foldr (fun x t => f x + t) 0 l.
Proof.
  intros Hf Hg Hz Hl. revert z Hz. induction Hl as [|x l Hx Hl IH]; intros z Hz Hr; simpl in *; [lia|].
  pose proof (Hf x Hx). assert (0 <= foldr (fun x t => f x + t) 0 l)
    by (clear -Hl Hf; induction Hl as [|y l Hy _ IHl]; simpl; [|specialize (Hf y Hy)]; lia).
  rewrite (Hg z x) by (done || unfold in_u in *; lia). rewrite IH; unfold in_u in *; lia.
Qed.
