(* ===== verification/Float64.v ===== *)
(** * IEEE 754 doubles

    The language's [f64], as the standard library's specification floats with
    53 bits of precision and exponent bound 1024, rounded to nearest, ties to
    even. The consensus engine decides finality by a division of two integers
    compared with a decimal literal; the file ends with the theorem the engine
    needs: on fewer than [2^40] validators the rounded comparison is the exact
    comparison of the two fractions. *)

From S2P Require Import Prelude.
From Stdlib Require Import SpecFloat.

Definition f64 : Type := spec_float.

Definition f64_round (m e : Z) : f64 := binary_normalize 53 1024 m e false.

(** [x as f64] for an unsigned integer [x]. *)
Definition f64_of (x : Z) : f64 := f64_round x 0.

Definition f64_add (x y : f64) : f64 := SFadd 53 1024 x y.
Definition f64_mul (x y : f64) : f64 := SFmul 53 1024 x y.
Definition f64_div (x y : f64) : f64 := SFdiv 53 1024 x y.
Definition f64_sqrt (x : f64) : f64 := SFsqrt 53 1024 x.

(** [x <= y], [x < y] (both false on NaN). *)
Definition f64_leb (x y : f64) : bool := SFleb x y.
Definition f64_ltb (x y : f64) : bool := SFltb x y.

(** [f64::min]: a NaN argument is ignored. *)
Definition f64_min (x y : f64) : f64 :=
  match x, y with
  | S754_nan, _ => y
  | _, S754_nan => x
  | _, _ => if f64_ltb y x then y else x
  end.

(** A decimal literal [p / q] with both parts below [2^53]: the division of two
    exact numbers is the double nearest to the fraction. *)
Definition f64_lit (p q : Z) : f64 := f64_div (f64_of p) (f64_of q).

(** [x as u64]: towards zero, saturating, 0 on NaN. *)
Definition f64_to_u64 (x : f64) : Z :=
  match x with
  | S754_zero _ | S754_nan => 0
  | S754_infinity s => if s then 0 else u_max 64
  | S754_finite true _ _ => 0
  | S754_finite false m e => Z.min (Z.shiftl (Z.pos m) e) (u_max 64)
  end.

(** ** Digits and alignment *)

Lemma digits2_bounds (p : positive) :
  2 ^ (Z.pos (digits2_pos p) - 1) <= Z.pos p < 2 ^ Z.pos (digits2_pos p).
Proof.
  induction p as [p IH|p IH|]; simpl digits2_pos; [| |by vm_compute].
  all: rewrite Pos2Z.inj_succ; replace (Z.succ (Z.pos (digits2_pos p)) - 1)
    with (Z.succ (Z.pos (digits2_pos p) - 1)) by lia.
  all: rewrite !Z.pow_succ_r by lia; lia.
Qed.

Lemma pow2_sandwich (x a b : Z) : 0 <= a -> 2 ^ a <= x < 2 ^ (a + 1) -> 2 ^ (b - 1) <= x < 2 ^ b -> b = a + 1.
Proof.
  intros Ha H1 H2. destruct (Z.lt_trichotomy b (a + 1)) as [Hlt|[->|Hgt]]; [exfalso|done|exfalso].
  - assert (2 ^ b <= 2 ^ a) by (apply Z.pow_le_mono_r; lia). lia.
  - assert (2 ^ (a + 1) <= 2 ^ (b - 1)) by (apply Z.pow_le_mono_r; lia). lia.
Qed.

(** The number of binary digits of a positive number is the one its size says. *)
Lemma digits2_unique (p : positive) (d : Z) :
  0 <= d -> 2 ^ d <= Z.pos p < 2 ^ (d + 1) -> Z.pos (digits2_pos p) = d + 1.
Proof. intros Hd Hp. eapply pow2_sandwich; [done|exact Hp|apply digits2_bounds]. Qed.

Lemma iter_xO (p d : positive) : Z.pos (Pos.iter xO p d) = Z.pos p * 2 ^ Z.pos d.
Proof.
  induction d as [|d IH] using Pos.peano_ind; [simpl; lia|].
  rewrite Pos.iter_succ, Pos2Z.inj_succ, Z.pow_succ_r by lia. lia.
Qed.

(** A mantissa of 53 digits with an exponent in range is its own rounding. *)
Lemma round_canonical (s : bool) (m : positive) (e : Z) :
  2 ^ 52 <= Z.pos m < 2 ^ 53 -> -1074 <= e <= 971 ->
  binary_round_aux 53 1024 s (Z.pos m) e loc_Exact = S754_finite s m e.
Proof.
  intros Hm He. assert (Hd := digits2_unique m 52 ltac:(lia) Hm).
  assert (Hf : forall l, shr_fexp 53 1024 (Z.pos m) e l = (shr_record_of_loc (Z.pos m) l, e)).
  { intros l. unfold shr_fexp, shr, Zdigits2, fexp, emin. rewrite Hd.
    replace (Z.max _ _ - e) with 0 by lia. done. }
  unfold binary_round_aux. rewrite Hf. cbn -[shr_fexp Z.leb Z.sub]. rewrite Hf.
  cbn -[Z.leb Z.sub]. by rewrite (proj2 (Z.leb_le _ _)) by lia.
Qed.

(** Integers below [2^53] are exact: the mantissa is the integer shifted to 53 digits. *)
Lemma f64_of_exact (x : Z) :
  0 < x < 2 ^ 53 ->
  exists (m : positive) (k : Z), 0 <= k <= 52 /\ Z.pos m = x * 2 ^ k /\ 2 ^ 52 <= Z.pos m < 2 ^ 53 /\
    f64_of x = S754_finite false m (- k).
Proof.
  intros Hx. destruct x as [|p|p]; try lia. pose proof (digits2_bounds p) as Hb.
  set (d := Z.pos (digits2_pos p)) in *.
  assert (Hd : 1 <= d <= 53).
  { split; [lia|]. apply Z.lt_succ_r. destruct (Z.le_gt_cases (Z.succ 53) d); [|lia]. exfalso.
    assert (2 ^ 53 <= 2 ^ (d - 1)) by (apply Z.pow_le_mono_r; lia). lia. }
  assert (Hs : 2 ^ 52 <= Z.pos p * 2 ^ (53 - d) < 2 ^ 53).
  { assert (H52 : 2 ^ 52 = 2 ^ (d - 1) * 2 ^ (53 - d)) by (rewrite <-Z.pow_add_r by lia; f_equal; lia).
    assert (H53 : 2 ^ 53 = 2 ^ d * 2 ^ (53 - d)) by (rewrite <-Z.pow_add_r by lia; f_equal; lia).
    assert (0 < 2 ^ (53 - d)) by (apply Z.pow_pos_nonneg; lia). rewrite H52, H53. nia. }
  unfold f64_of, f64_round, binary_normalize, binary_round, shl_align. fold d.
  replace (fexp 53 1024 (d + 0) - 0) with (- (53 - d)) by (unfold fexp, emin; lia).
  destruct (53 - d) as [|k|k] eqn:Ek; [|simpl|lia].
  - exists p, 0. rewrite Z.pow_0_r, Z.mul_1_r in *. simpl. rewrite round_canonical by lia.
    split_and!; done || lia.
  - exists (Pos.iter xO p k), (Z.pos k).
    replace (fexp 53 1024 (d + 0)) with (- Z.pos k) by (unfold fexp, emin; lia).
    pose proof (iter_xO p k). split_and!; [lia..|]. apply round_canonical; lia.
Qed.

(** ** Division *)

(** Where the remainder [r] of a division by [n] lies between two quotients. *)
Definition location_of (n r : Z) : location := if r =? 0 then loc_Exact else loc_Inexact (2 * r ?= n).

Lemma new_location_of (n r : Z) : 0 <= r < n -> new_location n r = location_of n r.
Proof.
  intros Hr. unfold new_location, new_location_even, new_location_odd, location_of.
  destruct (Z.even n) eqn:Hn; [done|]. case_match; [done|]. f_equal.
  assert (Z.odd n = true) as Hodd by (rewrite <-Z.negb_even; by rewrite Hn).
  apply Z.odd_spec in Hodd as [k ->].
  destruct (Z.compare_spec (2 * r + 1) (2 * k + 1)), (Z.compare_spec (2 * r) (2 * k + 1)); done || lia.
Qed.

(** [m * 2^e] is the double nearest to [x / y]: within half a unit of the last place. *)
Definition nearest (x y m e : Z) : Prop :=
  0 <= e /\ 2 * Z.abs (m * 2 ^ e * y - x) <= 2 ^ e * y.

Lemma shr_1_spec (m : Z) (r s : bool) :
  0 < m -> shr_1 {| shr_m := m; shr_r := r; shr_s := s |} =
    {| shr_m := m / 2; shr_r := Z.odd m; shr_s := r || s |}.
Proof.
  intros Hm. destruct m as [|[p|p|]|]; try lia; simpl; [| |done].
  - f_equal. rewrite Pos2Z.inj_xI. by rewrite (Z.mul_comm 2), Z.div_add_l by lia.
  - f_equal. rewrite Pos2Z.inj_xO. by rewrite (Z.mul_comm 2), Z.div_mul by lia.
Qed.

(** One shift by at most one place, as the digits of the quotient ask for. *)
Lemma shr_fexp_le1 (q e j : Z) (l : location) :
  0 <= j <= 1 -> 2 ^ (52 + j) <= q < 2 ^ (53 + j) -> -1074 <= e < 970 ->
  shr_fexp 53 1024 q e l = shr (shr_record_of_loc q l) e j.
Proof.
  intros Hj Hq He. assert (0 < 2 ^ (52 + j)) by (apply Z.pow_pos_nonneg; lia).
  destruct q as [|p|p]; [lia| |lia]. unfold shr_fexp, Zdigits2, fexp, emin.
  rewrite (digits2_unique p (52 + j)) by (replace (52 + j + 1) with (53 + j); lia).
  by replace (Z.max _ _ - e) with j by lia.
Qed.

(** The first rounding of a quotient of [53 + j] digits is nearest. *)
Lemma round_nearest (q r n j : Z) :
  0 <= j <= 1 -> 2 ^ (52 + j) <= q < 2 ^ (53 + j) -> 0 <= r < n ->
  let mrs := fst (shr (shr_record_of_loc q (location_of n r)) 0 j) in
  let m0 := round_nearest_even (shr_m mrs) (loc_of_shr_record mrs) in
  2 ^ 52 <= m0 <= 2 ^ 53 /\ nearest (q * n + r) n m0 j.
Proof.
  intros Hj Hq Hr. assert (j = 0 \/ j = 1) as [->| ->] by lia; simpl; unfold nearest, location_of.
  - destruct (r =? 0) eqn:E0; simpl; [lia|].
    destruct (Z.compare_spec (2 * r) n); simpl; [case_match|..]; simpl in *; nia.
  - assert (Hqd : q = 2 * (q / 2) + Z.b2z (Z.odd q)) by (rewrite <-Z.bit0_odd, Z.bit0_mod; apply Z.div_mod; lia).
    destruct (r =? 0) eqn:E0; [|destruct (Z.compare_spec (2 * r) n)]; cbn [shr_record_of_loc];
      rewrite shr_1_spec by lia; destruct (Z.odd q) eqn:Eodd; simpl in *; try case_match; simpl in *; nia.
Qed.

Lemma shr_exponent (mrs : shr_record) (e j : Z) : shr mrs e j = (fst (shr mrs 0 j), e + Z.max 0 j).
Proof. destruct j; simpl; f_equal; lia. Qed.

(** A rounded mantissa that reached [2^53] is normalised once more. *)
Definition canonical (m e : Z) : f64 :=
  if m =? 2 ^ 53 then S754_finite false (Z.to_pos (2 ^ 52)) (e + 1) else S754_finite false (Z.to_pos m) e.

(** Rounding a quotient [q] of 53 or 54 digits, with remainder [r], to 53 digits. *)
Lemma round_quotient (q r n e j : Z) :
  0 <= j <= 1 -> 2 ^ (52 + j) <= q < 2 ^ (53 + j) -> 0 <= r < n -> -1074 <= e < 969 ->
  exists m0, 2 ^ 52 <= m0 <= 2 ^ 53 /\ nearest (q * n + r) n m0 j /\
    binary_round_aux 53 1024 false q e (location_of n r) = canonical m0 (e + j).
Proof.
  intros Hj Hq Hr He. pose proof (round_nearest q r n j Hj Hq Hr) as Hm.
  unfold binary_round_aux. rewrite (shr_fexp_le1 q e j) by (done || lia).
  rewrite shr_exponent, Z.max_r by lia. cbv zeta in Hm.
  set (mrs := fst _) in *. cbv iota beta.
  set (m0 := round_nearest_even _ _) in *. destruct Hm as [Hm Hn]. exists m0. split; [done|]. split; [done|].
  unfold canonical. destruct (m0 =? 2 ^ 53) eqn:E53.
  - apply Z.eqb_eq in E53. rewrite E53, (shr_fexp_le1 _ (e + j) 1) by (done || lia).
    simpl. by rewrite (proj2 (Z.leb_le _ _)) by lia.
  - apply Z.eqb_neq in E53. rewrite (shr_fexp_le1 _ (e + j) 0) by (done || lia).
    simpl. destruct m0; [lia| |lia]. by rewrite (proj2 (Z.leb_le _ _)) by lia.
Qed.

Lemma nearest_scale (k x y m e : Z) : 0 < k -> nearest (x * k) (y * k) m e -> nearest x y m e.
Proof.
  intros Hk [He Hn]. split; [done|].
  replace (m * 2 ^ e * (y * k) - x * k) with ((m * 2 ^ e * y - x) * k) in Hn by ring.
  rewrite Z.abs_mul, (Z.abs_eq k) in Hn by lia. rewrite !Z.mul_assoc in Hn. by apply Z.mul_le_mono_pos_r in Hn.
Qed.

(** Division of two canonical mantissas: the integer quotient of the first,
    shifted by 53 places, is rounded. *)
Lemma f64_div_mantissas (ma mb : positive) (ea eb : Z) :
  2 ^ 52 <= Z.pos ma < 2 ^ 53 -> 2 ^ 52 <= Z.pos mb < 2 ^ 53 -> -900 <= ea - eb <= 900 ->
  f64_div (S754_finite false ma ea) (S754_finite false mb eb) =
    binary_round_aux 53 1024 false (Z.pos ma * 2 ^ 53 / Z.pos mb) (ea - eb - 53)
      (location_of (Z.pos mb) (Z.pos ma * 2 ^ 53 mod Z.pos mb)).
Proof.
  intros Ha Hb He. unfold f64_div, SFdiv, SFdiv_core_binary, Zdigits2.
  rewrite !(digits2_unique _ 52) by lia.
  replace (Z.min _ _) with (ea - eb - 53) by (unfold fexp, emin; lia).
  replace (ea - eb - (ea - eb - 53)) with 53 by lia.
  rewrite Z.shiftl_mul_pow2 by lia.
  pose proof (Z_div_mod (Z.pos ma * 2 ^ 53) (Z.pos mb) ltac:(lia)) as Hd.
  unfold Z.div, Z.modulo. destruct (Z.div_eucl _ _) as [q r]. by rewrite new_location_of by lia.
Qed.

(** How the sizes of two canonical mantissas [a * 2^ka] and [b * 2^kb] relate. *)
Lemma mantissa_gap (a b ka kb : Z) :
  0 < a <= b -> 0 <= ka -> 0 <= kb -> 2 ^ 52 <= a * 2 ^ ka < 2 ^ 53 -> 2 ^ 52 <= b * 2 ^ kb < 2 ^ 53 ->
  0 <= ka - kb /\ 2 ^ ka = 2 ^ (ka - kb) * 2 ^ kb /\ (2 <= ka - kb -> 2 * a < b).
Proof.
  intros Hab Hka Hkb Ha Hb.
  assert (Hpb : 0 < 2 ^ kb) by (apply Z.pow_pos_nonneg; lia).
  assert (Ht : 0 <= ka - kb).
  { destruct (Z.le_gt_cases kb ka) as [|Hlt]; [lia|exfalso].
    assert (Hk : 2 ^ kb = 2 * 2 ^ (kb - 1)) by (rewrite <-Z.pow_succ_r by lia; f_equal; lia).
    assert (2 ^ ka <= 2 ^ (kb - 1)) by (apply Z.pow_le_mono_r; lia). nia. }
  assert (Hk : 2 ^ ka = 2 ^ (ka - kb) * 2 ^ kb) by (rewrite <-Z.pow_add_r by lia; f_equal; lia).
  split; [done|]. split; [done|]. intros H2.
  assert (2 ^ 2 <= 2 ^ (ka - kb)) by (apply Z.pow_le_mono_r; lia).
  rewrite Hk in Ha. set (T := 2 ^ (ka - kb)) in *. set (K := 2 ^ kb) in *. nia.
Qed.

(** The quotient of two integers below [2^53], the first not larger: the
    rounding of [a * 2^(53 + t) / b] to the nearest mantissa, with [t] the
    difference of the two numbers' sizes. *)
Lemma f64_div_nearest (a b : Z) :
  0 < a <= b -> b < 2 ^ 53 ->
  exists t j m0, 0 <= t <= 52 /\ 0 <= j <= 1 /\ 2 ^ 52 <= m0 <= 2 ^ 53 /\
    (t = 0 -> j = 1 -> a = b) /\ (2 <= t -> 2 * a < b) /\
    nearest (a * 2 ^ (53 + t)) b m0 j /\
    f64_div (f64_of a) (f64_of b) = canonical m0 (-53 - t + j).
Proof.
  intros Ha Hb.
  destruct (f64_of_exact a) as (ma & ka & Hka & Ema & Hma & ->); [lia|].
  destruct (f64_of_exact b) as (mb & kb & Hkb & Emb & Hmb & ->); [lia|].
  destruct (mantissa_gap a b ka kb) as (Ht & Hk & H2); [lia..|].
  rewrite f64_div_mantissas by lia.
  pose proof (Z.div_mod (Z.pos ma * 2 ^ 53) (Z.pos mb) ltac:(lia)) as Hd.
  pose proof (Z.mod_pos_bound (Z.pos ma * 2 ^ 53) (Z.pos mb) ltac:(lia)) as Hr.
  assert (Hq1 : 2 ^ 52 <= Z.pos ma * 2 ^ 53 / Z.pos mb) by (apply Z.div_le_lower_bound; lia).
  assert (Hq2 : Z.pos ma * 2 ^ 53 / Z.pos mb < 2 ^ 54) by (apply Z.div_lt_upper_bound; lia).
  set (q := _ / _) in *. set (r := _ mod _) in *.
  assert (exists j, 0 <= j <= 1 /\ 2 ^ (52 + j) <= q < 2 ^ (53 + j)) as (j & Hj & Hq).
  { destruct (Z.lt_ge_cases q (2 ^ 53)); [exists 0|exists 1]; simpl; lia. }
  destruct (round_quotient q r (Z.pos mb) (- ka - - kb - 53) j) as (m0 & Hm & Hn & ->); [done..|lia|].
  exists (ka - kb), j, m0. split; [lia|]. split; [done|]. split; [done|]. split.
  { intros E0 ->. rewrite E0 in Hk. simpl in Hq. assert (Z.pos mb <= Z.pos ma) by nia. nia. }
  split; [done|]. split; [|f_equal; lia].
  apply (nearest_scale (2 ^ kb)); [apply Z.pow_pos_nonneg; lia|].
  rewrite <-Emb, Z.pow_add_r by lia.
  replace (a * (2 ^ 53 * 2 ^ (ka - kb)) * 2 ^ kb) with (q * Z.pos mb + r); [done|].
  rewrite Z.mul_comm, <-Hd, Ema, Hk. ring.
Qed.

(** ** The finality test *)

(** Positive canonical numbers compare by exponent, then by mantissa. *)
Lemma leb_finite (p q : positive) (e1 e2 : Z) :
  f64_leb (S754_finite false p e1) (S754_finite false q e2) = (e1 <? e2) || (e1 =? e2) && (Z.pos p <=? Z.pos q).
Proof.
  unfold f64_leb, SFleb, SFcompare. change (Pos.compare_cont Eq p q) with (Z.pos p ?= Z.pos q).
  unfold Z.leb. destruct (Z.compare_spec e1 e2) as [->|H|H].
  - rewrite Z.ltb_irrefl, Z.eqb_refl. by destruct (Z.pos p ?= Z.pos q).
  - by rewrite (proj2 (Z.ltb_lt _ _)).
  - rewrite (proj2 (Z.ltb_ge _ _)) by lia. by rewrite (proj2 (Z.eqb_neq _ _)) by lia.
Qed.

Lemma leb_canonical (p : positive) (m e ep : Z) :
  2 ^ 52 <= m <= 2 ^ 53 ->
  f64_leb (S754_finite false p ep) (canonical m e) =
    if m =? 2 ^ 53 then (ep <? e + 1) || (ep =? e + 1) && (Z.pos p <=? 2 ^ 52)
    else (ep <? e) || (ep =? e) && (Z.pos p <=? m).
Proof.
  intros Hm. unfold canonical. case_match; rewrite leb_finite; [done|]. by rewrite Z2Pos.id by lia.
Qed.

(** The rounded quotient against 0.67, when it lies in the binade of 0.67. *)
Lemma ratio_mantissa (a b m : Z) :
  0 <= a <= b -> 0 < b < 2 ^ 40 -> 2 * Z.abs (m * b - a * 2 ^ 53) <= b ->
  (6034823500676465 <=? m) = (67 * b <=? 100 * a).
Proof.
  intros Ha Hb Hn. destruct (Z.leb_spec (67 * b) (100 * a)) as [H|H].
  - apply Z.leb_le. nia.
  - apply Z.leb_gt. nia.
Qed.

(** [a as f64 / b as f64 >= 0.67] is the exact comparison [a / b >= 67 / 100]
    while the denominator is below [2^40]. *)
Lemma f64_ratio_ge_67 (a b : Z) :
  0 <= a <= b -> 0 < b < 2 ^ 40 ->
  f64_leb (f64_lit 67 100) (f64_div (f64_of a) (f64_of b)) = (67 * b <=? 100 * a).
Proof.
  intros Ha Hb. destruct (decide (a = 0)) as [->|Hne].
  { destruct (f64_of_exact b) as (mb & kb & _ & _ & _ & ->); [lia|]. symmetry. apply Z.leb_gt. lia. }
  destruct (f64_div_nearest a b) as (t & j & m0 & Ht & Hj & Hm & H01 & H2 & [_ Hn] & ->); [lia..|].
  replace (f64_lit 67 100) with (S754_finite false 6034823500676465 (-53)) by (by vm_compute).
  rewrite leb_canonical by done.
  assert (Hlow : -53 - t + j < -53 -> 100 * a < 67 * b).
  { intros Hlt. destruct (decide (t = 1)) as [->|]; [|lia].
    assert (j = 0) as -> by lia. change (2 ^ (53 + 1)) with (2 * 2 ^ 53) in Hn. nia. }
  assert (Hmid : -53 - t + j = -53 -> (6034823500676465 <=? m0) = (67 * b <=? 100 * a)).
  { intros He. apply ratio_mantissa; [done..|].
    assert (t = 0 /\ j = 0 \/ t = 1 /\ j = 1) as [[-> ->]|[-> ->]] by lia; simpl in Hn; lia. }
  assert (-53 - t + j < -53 \/ -53 - t + j = -53 \/ t = 0 /\ j = 1) as [Hlt|[He|[-> ->]]] by lia.
  - rewrite (proj2 (Z.leb_gt _ _) (Hlow Hlt)). case_match; apply orb_false_iff; split; [lia| |lia|];
      apply andb_false_iff; [right; lia|left; lia].
  - rewrite <-(Hmid He), He. case_match; lia.
  - rewrite (H01 eq_refl eq_refl). case_match; lia.
Qed.
