(* ===== verification/Float32.v ===== *)
(** * IEEE 754 singles, and roundings of doubles to integers

    The values of model parameters are [f32]; aggregation sums them as [f64].
    A NaN has one representative: Rust leaves its payload unspecified. *)

From Stdlib Require Export SpecFloat.
From S2P Require Import Prelude Float64.

Definition f32 : Type := spec_float.

Definition f32_zero : f32 := S754_zero false.
Definition f32_add (x y : f32) : f32 := SFadd 24 128 x y.

Definition signed (s : bool) (m : positive) : Z := if s then Z.neg m else Z.pos m.

(** [f64::from], which is exact, and [as f32], which rounds. *)
Definition f64_of_f32 (x : f32) : f64 :=
  match x with S754_finite s m e => binary_normalize 53 1024 (signed s m) e s | _ => x end.
Definition f32_of_f64 (x : f64) : f32 :=
  match x with S754_finite s m e => binary_normalize 24 128 (signed s m) e s | _ => x end.

Definition f32_is_finite (x : f32) : bool :=
  match x with S754_zero _ | S754_finite _ _ _ => true | _ => false end.

(** [to_bits]: sign, 8 bits of exponent, 23 bits of mantissa. *)
Definition f32_bits (x : f32) : Z :=
  match x with
  | S754_zero s => if s then 2 ^ 31 else 0
  | S754_infinity s => (if s then 2 ^ 31 else 0) + 255 * 2 ^ 23
  | S754_nan => 255 * 2 ^ 23 + 2 ^ 22
  | S754_finite s m e =>
    (if s then 2 ^ 31 else 0) +
    (if Z.pos m <? 2 ^ 23 then Z.pos m else (e + 150) * 2 ^ 23 + (Z.pos m - 2 ^ 23))
  end.
Definition f32_to_le_bytes (x : f32) : bytes := to_le 4 (f32_bits x).

(** [f32::from_bits] of four bytes. *)
Definition f32_of_bits (b : Z) : f32 :=
  let s := 2 ^ 31 <=? b in
  let field := (b / 2 ^ 23) mod 256 in
  let m := b mod 2 ^ 23 in
  if field =? 255 then if m =? 0 then S754_infinity s else S754_nan
  else if field =? 0 then match m with Z.pos p => S754_finite s p (-149) | _ => S754_zero s end
  else match m + 2 ^ 23 with Z.pos p => S754_finite s p (field - 150) | _ => S754_zero s end.

(** The integer that [total_cmp] compares: the bits as [i32], with the lower 31
    bits of negative numbers flipped. *)
Definition total_key (x : f32) : Z := let b := f32_bits x in if b <? 2 ^ 31 then b else - (b - 2 ^ 31) - 1.
Definition total_leb (x y : f32) : bool := total_key x <=? total_key y.

(** A rounded double is an integer, an infinity or NaN. *)
Inductive Rounded := RInt (n : Z) | RInf (negative : bool) | RNaN.

(** [f64::round]: to the nearest integer, halves away from zero. *)
Definition f64_round_half_away (x : f64) : Rounded :=
  match x with
  | S754_zero _ => RInt 0
  | S754_infinity s => RInf s
  | S754_nan => RNaN
  | S754_finite s m e =>
    let n := if 0 <=? e then Z.pos m * 2 ^ e else (2 * Z.pos m + 2 ^ (- e)) / (2 * 2 ^ (- e)) in
    RInt (if s then - n else n)
  end.

(** [f64::ceil]. *)
Definition f64_ceil (x : f64) : Rounded :=
  match x with
  | S754_zero _ => RInt 0
  | S754_infinity s => RInf s
  | S754_nan => RNaN
  | S754_finite s m e =>
    RInt (if 0 <=? e then signed s m * 2 ^ e else - ((- signed s m) / 2 ^ (- e)))
  end.

(** [clamp], and [as] to an unsigned integer of [w] bits: saturating, 0 for NaN. *)
Definition rounded_clamp (lo hi : Z) (r : Rounded) : Rounded :=
  match r with
  | RInt n => RInt (if n <? lo then lo else if hi <? n then hi else n)
  | RInf s => RInt (if s then lo else hi)
  | RNaN => RNaN
  end.
Definition rounded_to_u (w : Z) (r : Rounded) : Z :=
  match r with
  | RInt n => Z.max 0 (Z.min n (u_max w))
  | RInf s => if s then 0 else u_max w
  | RNaN => 0
  end.

(** [iter().sum()] of doubles, which starts from [-0.0]. *)
Definition f64_sum (l : list f64) : f64 := foldl f64_add (S754_zero true) l.

(** ** Lemmas *)

Definition f32_valid (x : f32) : Prop := valid_binary 24 128 x = true.

Lemma clamp_range w lo hi r :
  0 <= lo <= hi -> hi <= u_max w -> 0 <= rounded_to_u w (rounded_clamp lo hi r) <= hi.
Proof.
  intros Hl Hw. destruct r as [n|[]|]; simpl; [|lia..].
  destruct (Z.ltb_spec n lo); [lia|]. destruct (Z.ltb_spec hi n); lia.
Qed.

(** What a valid single's mantissa and exponent can be: normal, or subnormal. *)
Lemma f32_valid_finite s m e :
  f32_valid (S754_finite s m e) ->
  (Z.pos m < 2 ^ 23 /\ e = -149) \/ (2 ^ 23 <= Z.pos m < 2 ^ 24 /\ -149 <= e <= 104).
Proof.
  unfold f32_valid, valid_binary, bounded, canonical_mantissa, fexp, emin. rewrite andb_true_iff, Z.leb_le.
  intros [Hc He]. apply Zeq_bool_eq in Hc. pose proof (digits2_bounds m) as Hd.
  set (d := Z.pos (digits2_pos m)) in *. assert (0 < d) by (unfold d; lia).
  destruct (Z.lt_trichotomy d 24) as [Hlt|[Heq|Hgt]]; [left|right|lia].
  - split; [|lia]. eapply Z.lt_le_trans; [apply Hd|]. apply Z.pow_le_mono_r; lia.
  - rewrite Heq in Hd. simpl in *. lia.
Qed.

Lemma f32_bits_inj x y : f32_valid x -> f32_valid y -> f32_bits x = f32_bits y -> x = y.
Proof.
  intros Hx Hy. destruct x as [[]|[]| |s m e], y as [[]|[]| |s' m' e']; simpl; try done;
    try (apply f32_valid_finite in Hx); try (apply f32_valid_finite in Hy).
  all: repeat match goal with |- context [if ?s then 2 ^ 31 else 0] => is_var s; destruct s end.
  all: repeat match goal with |- context [Z.pos ?m <? 2 ^ 23] => destruct (Z.ltb_spec (Z.pos m) (2 ^ 23)) end; try lia.
  all: intros E; assert (e = e') by lia; assert (m = m') by lia; by subst.
Qed.

Lemma f32_bits_range x : f32_valid x -> in_u 32 (f32_bits x).
Proof.
  intros Hx. unfold in_u. destruct x as [[]|[]| |s m e]; simpl; try lia. apply f32_valid_finite in Hx.
  destruct (Z.ltb_spec (Z.pos m) (2 ^ 23)), s; lia.
Qed.

Lemma total_key_inj x y : f32_valid x -> f32_valid y -> total_key x = total_key y -> x = y.
Proof.
  intros Hx Hy E. apply f32_bits_inj; [done..|]. apply f32_bits_range in Hx, Hy. unfold total_key, in_u in *.
  destruct (Z.ltb_spec (f32_bits x) (2 ^ 31)), (Z.ltb_spec (f32_bits y) (2 ^ 31)); lia.
Qed.

(** ** Operations return valid numbers *)

Section validity.
Context (prec emax : Z) (Hprec : 1 < prec) (Hemax : prec < emax).
Abbreviation emn := (3 - emax - prec).

(** Fewer digits than the precision only at the least exponent; the mantissa may be 0. *)
Definition canon (m e : Z) : Prop := 0 <= m < 2 ^ prec /\ emn <= e /\ (2 ^ (prec - 1) <= m \/ e = emn).

Lemma digits_below (p : positive) (d : Z) : Z.pos p < 2 ^ d -> Z.pos (digits2_pos p) <= d.
Proof.
  intros Hp. pose proof (digits2_bounds p) as Hd. destruct (Z.le_gt_cases (Z.pos (digits2_pos p)) d) as [|Hgt]; [done|].
  exfalso. assert (2 ^ d <= 2 ^ (Z.pos (digits2_pos p) - 1)) by (apply Z.pow_le_mono_r; lia). lia.
Qed.

Lemma digits_above (p : positive) (d : Z) : 0 <= d -> 2 ^ d <= Z.pos p -> d < Z.pos (digits2_pos p).
Proof.
  intros H0 Hp. pose proof (digits2_bounds p) as Hd. destruct (Z.lt_ge_cases d (Z.pos (digits2_pos p))) as [|Hge]; [done|].
  exfalso. assert (2 ^ Z.pos (digits2_pos p) <= 2 ^ d) by (apply Z.pow_le_mono_r; lia). lia.
Qed.

Lemma canon_fexp (p : positive) e : canon (Z.pos p) e -> fexp prec emax (Z.pos (digits2_pos p) + e) = e.
Proof.
  intros (Hm & He & Hc). unfold fexp, emin. assert (Z.pos (digits2_pos p) <= prec) by (apply digits_below; lia).
  destruct Hc as [Hc| ->]; [|lia]. apply digits_above in Hc; lia.
Qed.

Lemma iter_shr_m p mrs : 0 <= shr_m mrs -> shr_m (SpecFloat.iter_pos shr_1 p mrs) = shr_m mrs / 2 ^ Z.pos p.
Proof.
  assert (H1 : forall mrs, 0 <= shr_m mrs -> shr_m (shr_1 mrs) = shr_m mrs / 2).
  { intros [m r s] Hm. simpl in Hm. destruct (decide (m = 0)) as [->|]; [done|]. by rewrite shr_1_spec by lia. }
  revert mrs. induction p as [p IH|p IH|]; intros mrs Hm; simpl SpecFloat.iter_pos; [| |by apply H1].
  - assert (Ha : 0 <= shr_m (shr_1 mrs)) by (rewrite H1 by done; apply Z.div_pos; lia).
    assert (Hp : 0 < 2 ^ Z.pos p) by (apply Z.pow_pos_nonneg; lia).
    assert (Hb : 0 <= shr_m (SpecFloat.iter_pos shr_1 p (shr_1 mrs))) by (rewrite IH by done; by apply Z.div_pos).
    rewrite IH, IH, H1, !Z.div_div by lia. f_equal.
    replace (Z.pos p~1) with (1 + Z.pos p + Z.pos p) by lia. rewrite !Z.pow_add_r by lia. ring.
  - assert (Hp : 0 < 2 ^ Z.pos p) by (apply Z.pow_pos_nonneg; lia).
    assert (Hb : 0 <= shr_m (SpecFloat.iter_pos shr_1 p mrs)) by (rewrite IH by done; by apply Z.div_pos).
    rewrite IH, IH, Z.div_div by lia. f_equal. replace (Z.pos p~0) with (Z.pos p + Z.pos p) by lia. by rewrite Z.pow_add_r by lia.
Qed.

Lemma shr_record_m m l : shr_m (shr_record_of_loc m l) = m.
Proof. by destruct l as [|[]]. Qed.

(** Shifting an aligned number to its exponent makes it canonical. *)
Lemma shr_fexp_canon (p : positive) e l mrs e' :
  e <= fexp prec emax (Z.pos (digits2_pos p) + e) -> shr_fexp prec emax (Z.pos p) e l = (mrs, e') -> canon (shr_m mrs) e'.
Proof.
  unfold shr_fexp. simpl Zdigits2. set (d := Z.pos (digits2_pos p)). set (f := fexp prec emax (d + e)). intros Hal Hs.
  assert (Hme : shr_m mrs = Z.pos p / 2 ^ (f - e) /\ e' = f).
  { rewrite shr_exponent in Hs. injection Hs as <- <-. split; [|lia]. destruct (f - e) as [|k|k] eqn:E; simpl; [|..|lia].
    - by rewrite shr_record_m, Z.div_1_r.
    - rewrite iter_shr_m; by rewrite shr_record_m. }
  destruct Hme as [-> ->]. pose proof (digits2_bounds p) as Hd. fold d in Hd.
  assert (Hk : 0 < 2 ^ (f - e)) by (apply Z.pow_pos_nonneg; lia). unfold canon.
  assert (Hf : f = Z.max (d + e - prec) emn) by done.
  assert (Hlt : Z.pos p / 2 ^ (f - e) < 2 ^ prec).
  { apply Z.div_lt_upper_bound; [done|]. rewrite <-Z.pow_add_r by lia. eapply Z.lt_le_trans; [apply Hd|].
    apply Z.pow_le_mono_r; lia. }
  split; [split; [apply Z.div_pos; lia|done]|]. split; [lia|]. destruct (decide (f = emn)); [by right|left].
  apply Z.div_le_lower_bound; [done|]. rewrite <-Z.pow_add_r by lia. etransitivity; [|apply Hd].
  apply Z.pow_le_mono_r; lia.
Qed.

Lemma round_step m l : 0 <= m -> m <= round_nearest_even m l <= m + 1.
Proof. intros Hm. destruct l as [|[]]; simpl; try lia. destruct (Z.even m); lia. Qed.

Lemma bounded_canon (p : positive) e : canon (Z.pos p) e -> e <= emax - prec -> bounded prec emax p e = true.
Proof. intros Hc He. unfold bounded, canonical_mantissa. rewrite canon_fexp by done. rewrite Z.eqb_refl. by apply Z.leb_le. Qed.

Lemma binary_round_aux_valid s (p : positive) e l :
  e <= fexp prec emax (Z.pos (digits2_pos p) + e) -> valid_binary prec emax (binary_round_aux prec emax s (Z.pos p) e l) = true.
Proof.
  intros Hal. unfold binary_round_aux. destruct (shr_fexp prec emax (Z.pos p) e l) as [mrs e'] eqn:E1.
  apply shr_fexp_canon in E1; [|done]. pose proof (round_step (shr_m mrs) (loc_of_shr_record mrs) ltac:(apply E1)) as Hr.
  set (m1 := round_nearest_even _ _) in *. destruct (shr_fexp prec emax m1 e' loc_Exact) as [mrs2 e2] eqn:E2.
  destruct E1 as (Hm & He & Hc). destruct m1 as [|q|q] eqn:Em; [|..|lia].
  { enough (shr_m mrs2 = 0) as -> by done. unfold shr_fexp in E2. rewrite shr_exponent in E2. injection E2 as <- <-.
    destruct (_ - e') as [|k|k]; try done. cbn [shr fst]. by rewrite iter_shr_m. }
  assert (Hcan : canon (shr_m mrs2) e2).
  { eapply shr_fexp_canon; [|exact E2]. unfold fexp, emin. destruct Hc as [Hc| ->]; [|lia].
    assert (prec - 1 < Z.pos (digits2_pos q)) by (apply digits_above; lia). lia. }
  destruct (shr_m mrs2) as [|m2|m2]; [done| |destruct Hcan; lia].
  destruct (Z.leb_spec e2 (emax - prec)); [|done]. by apply bounded_canon.
Qed.

Lemma binary_normalize_valid m e s : valid_binary prec emax (binary_normalize prec emax m e s) = true.
Proof.
  assert (Hb : forall s p, valid_binary prec emax (binary_round prec emax s p e) = true); [|destruct m; [done|apply Hb..]].
  clear s. intros s p. unfold binary_round, shl_align. set (f := fexp prec emax _).
  destruct (f - e) as [|k|k] eqn:E; apply binary_round_aux_valid; [fold f; lia..|].
  enough (Z.pos (digits2_pos (Pos.iter xO p k)) + f = Z.pos (digits2_pos p) + e) as -> by done.
  replace e with (f + Z.pos k) by lia. enough (Z.pos (digits2_pos (Pos.iter xO p k)) = Z.pos (digits2_pos p) + Z.pos k) by lia.
  clear. induction k as [|k IH] using Pos.peano_ind; simpl; [lia|]. rewrite Pos.iter_succ. simpl. lia.
Qed.

Lemma SFadd_valid x y : valid_binary prec emax x = true -> valid_binary prec emax y = true -> valid_binary prec emax (SFadd prec emax x y) = true.
Proof.
  intros Hx Hy. destruct x as [[]|[]| |], y as [[]|[]| |]; simpl; try done; apply binary_normalize_valid.
Qed.
End validity.

Lemma f32_add_valid x y : f32_valid x -> f32_valid y -> f32_valid (f32_add x y).
Proof. by apply SFadd_valid. Qed.

Lemma f32_of_f64_valid x : f32_valid (f32_of_f64 x).
Proof. destruct x; try done. by apply binary_normalize_valid. Qed.
