(* ===== verification/Nibbles.v ===== *)
(** * Nibble slices (src/crates/qfc-trie/src/nibbles.rs)

    [NibbleSlice] is the key type of the trie: a window of [len] nibbles,
    starting at nibble [start], over a byte vector. Every method is
    translated as written; a failed [assert!] or an index out of range is
    [None]. The abstraction relation [repr s ks] says that the slice [s] holds
    the nibbles [ks]; each method is specified through it, so that the trie
    never looks at the packed bytes. *)

From S2P Require Import Prelude.

(** A nibble: a 4-bit value. *)
Definition is_nib (x : Z) : Prop := 0 <= x < 16.
Abbreviation nibs := (Forall is_nib).

#[export] Instance is_nib_dec x : Decision (is_nib x).
Proof. unfold is_nib. apply _. Defined.

(** The nibbles of a byte string, high nibble first. *)
Fixpoint nibs_of_bytes (bs : bytes) : list Z :=
  match bs with
  | [] => []
  | b :: bs' => b / 16 :: b mod 16 :: nibs_of_bytes bs'
  end.

(** Length of the longest common prefix of two lists. *)
Fixpoint lcp (a b : list Z) : nat :=
  match a, b with
  | x :: a', y :: b' => if decide (x = y) then S (lcp a' b') else O
  | _, _ => O
  end.

(** The indices [a], [a + 2], ... below [n]: [(a..n).step_by(2)]. *)
Definition step2 (a n : nat) : list nat :=
  map (fun j => a + 2 * j)%nat (seq 0 ((n - a + 1) / 2)).

Module NibbleSlice.

Record t := mk { data : bytes; start : nat; len : nat }.

Definition from_bytes (bs : bytes) : t := mk bs 0 (length bs * 2).

(** The loop over [nibbles.chunks(2)]. *)
Fixpoint pack (nibbles : list Z) : bytes :=
  match nibbles with
  | [] => []
  | [a] => [wrap 8 (Z.shiftl a 4)]
  | a :: b :: r => Z.lor (wrap 8 (Z.shiftl a 4)) (Z.land b 15) :: pack r
  end.
Definition from_nibbles (nibbles : list Z) : t := mk (pack nibbles) 0 (length nibbles).

Definition is_empty (s : t) : bool := (len s =? 0)%nat.

Definition at_ (s : t) (index : nat) : option Z :=
  if (index <? len s)%nat then
    let actual_index := (start s + index)%nat in
    byte ← data s !! (actual_index / 2)%nat;
    Some (if (actual_index mod 2 =? 0)%nat
          then Z.land (Z.shiftr byte 4) 15
          else Z.land byte 15)
  else None.

Definition offset (s : t) (off : nat) : option t :=
  if (off <=? len s)%nat then Some (mk (data s) (start s + off) (len s - off)) else None.

Definition prefix (s : t) (count : nat) : option t :=
  if (count <=? len s)%nat then Some (mk (data s) (start s) count) else None.

(** The loop [for i in 0..max_len] of [common_prefix_len], [k] iterations left. *)
Fixpoint common_prefix_loop (a b : t) (i k : nat) : option nat :=
  match k with
  | O => Some i
  | S k' =>
    x ← at_ a i;
    y ← at_ b i;
    if x =? y then common_prefix_loop a b (S i) k' else Some i
  end.
Definition common_prefix_len (a b : t) : option nat :=
  common_prefix_loop a b 0 (Nat.min (len a) (len b)).

(** The loop of [starts_with]. *)
Fixpoint starts_with_loop (s p : t) (i k : nat) : option bool :=
  match k with
  | O => Some true
  | S k' =>
    x ← at_ s i;
    y ← at_ p i;
    if x =? y then starts_with_loop s p (S i) k' else Some false
  end.
Definition starts_with (s p : t) : option bool :=
  if (len s <? len p)%nat then Some false else starts_with_loop s p 0 (len p).

Definition to_nibbles (s : t) : option (list Z) := mapM (at_ s) (seq 0 (len s)).

(** [(self.at(i) << 4) | self.at(i + 1)] *)
Definition byte_at (s : t) (i : nat) : option Z :=
  hi ← at_ s i;
  lo ← at_ s (i + 1)%nat;
  Some (Z.lor (wrap 8 (Z.shiftl hi 4)) lo).

Definition to_bytes (s : t) : option bytes :=
  if (len s mod 2 =? 0)%nat then mapM (byte_at s) (step2 0 (len s)) else None.

Definition encode_compact (s : t) (is_leaf : bool) : option bytes :=
  let odd := (len s mod 2 =? 1)%nat in
  let flag := (if is_leaf then 2 else 0) + (if odd then 1 else 0) in
  if odd then
    n0 ← at_ s 0;
    rest ← mapM (byte_at s) (filter (fun i => i + 1 < len s)%nat (step2 1 (len s)));
    Some (Z.lor (wrap 8 (Z.shiftl flag 4)) n0 :: rest)
  else
    rest ← mapM (byte_at s) (step2 0 (len s));
    Some (wrap 8 (Z.shiftl flag 4) :: rest).

(** [(byte >> 4) & 0x0f] and [byte & 0x0f] of each byte of [data[1..]]. *)
Definition unpack (bs : bytes) : list Z :=
  flat_map (fun b => [Z.land (Z.shiftr b 4) 15; Z.land b 15]) bs.

Definition decode_compact (bs : bytes) : option (t * bool) :=
  match bs with
  | [] => None
  | b0 :: rest =>
    let flag := Z.land (Z.shiftr b0 4) 15 in
    let is_leaf := negb (Z.land flag 2 =? 0) in
    let odd := negb (Z.land flag 1 =? 0) in
    let nibbles := (if odd then [Z.land b0 15] else []) ++ unpack rest in
    Some (from_nibbles nibbles, is_leaf)
  end.

(** The slice [s] holds the nibbles [ks]. *)
Definition repr (s : t) (ks : list Z) : Prop :=
  nibs ks /\ length ks = len s /\ forall i k, ks !! i = Some k -> at_ s i = Some k.

End NibbleSlice.
Import NibbleSlice.

(** ** Bit-level facts *)

Section bits.

Lemma hi_nib b : is_byte b -> Z.land (Z.shiftr b 4) 15 = b / 16.
Proof.
  unfold is_byte. intros ?. change 15 with (Z.ones 4).
  rewrite Z.land_ones, Z.shiftr_div_pow2 by lia.
  change (2 ^ 4) with 16. apply Z.mod_small. split; [apply Z.div_pos; lia|].
  apply Z.div_lt_upper_bound; lia.
Qed.

Lemma lo_nib b : Z.land b 15 = b mod 16.
Proof. change 15 with (Z.ones 4). by rewrite Z.land_ones by lia. Qed.

Lemma shl4 a : is_nib a -> wrap 8 (Z.shiftl a 4) = a * 16.
Proof.
  unfold is_nib, wrap. intros ?. rewrite Z.shiftl_mul_pow2 by lia.
  change (2 ^ 4) with 16. rewrite Z.mod_small; lia.
Qed.

Lemma pack_byte a b : is_nib a -> is_nib b -> Z.lor (wrap 8 (Z.shiftl a 4)) b = a * 16 + b.
Proof.
  intros Ha Hb. rewrite shl4 by done. rewrite <- Z.add_lor_land.
  enough (Z.land (a * 16) b = 0) as -> by lia. unfold is_nib in *.
  replace (a * 16) with (Z.shiftl a 4) by (rewrite Z.shiftl_mul_pow2; lia).
  rewrite <- (Z.mod_small b (2 ^ 4)), <- Z.land_ones by lia.
  rewrite (Z.land_comm b), Z.land_assoc. rewrite Z.land_ones, Z.shiftl_mul_pow2 by lia.
  by rewrite Z.mod_mul by lia.
Qed.

Lemma nib_mod a : is_nib a -> a mod 16 = a.
Proof. unfold is_nib. intros. by apply Z.mod_small. Qed.

Lemma nibs_of_byte b : is_byte b -> is_nib (b / 16) /\ is_nib (b mod 16).
Proof.
  unfold is_byte, is_nib. intros ?.
  pose proof (Z.mod_pos_bound b 16). pose proof (Z.div_lt_upper_bound b 16 16).
  pose proof (Z.div_pos b 16). lia.
Qed.

Lemma byte_of_nibs a b : is_nib a -> is_nib b ->
  is_byte (a * 16 + b) /\ (a * 16 + b) / 16 = a /\ (a * 16 + b) mod 16 = b.
Proof.
  unfold is_nib, is_byte. intros ??.
  rewrite Z.div_add_l, Z.div_small, Z.add_comm, Z.mod_add, Z.mod_small by lia. lia.
Qed.
End bits.

Section nibble_lists.

Lemma nibs_of_bytes_nibs bs : bytes_ok bs -> nibs (nibs_of_bytes bs).
Proof. induction 1 as [|b bs Hb _ IH]; simpl; repeat constructor; try apply nibs_of_byte; auto. Qed.

Lemma length_nibs_of_bytes bs : length (nibs_of_bytes bs) = (length bs * 2)%nat.
Proof. induction bs; simpl; lia. Qed.

Lemma nibs_of_bytes_inj a b : nibs_of_bytes a = nibs_of_bytes b -> a = b.
Proof.
  revert b. induction a as [|x a IH]; intros [|y b]; simpl; try done.
  intros [= H1 H2 H3]. f_equal; [|auto].
  rewrite (Z.div_mod x 16), (Z.div_mod y 16); lia.
Qed.

Lemma nibs_of_bytes_surj n ks :
  nibs ks -> length ks = (n * 2)%nat -> exists bs, bytes_ok bs /\ length bs = n /\ nibs_of_bytes bs = ks.
Proof.
  revert ks. induction n as [|n IH]; intros ks Hn Hl.
  - exists []. destruct ks; simpl in *; [|lia]. split_and!; [constructor|done|done].
  - destruct ks as [|a [|b ks]]; simpl in Hl; try lia.
    apply Forall_cons in Hn as [Ha Hn]. apply Forall_cons in Hn as [Hb Hn].
    destruct (IH ks) as (bs & ? & ? & ?); [done|lia|].
    destruct (byte_of_nibs a b) as (? & ? & ?); [done..|].
    exists (a * 16 + b :: bs). simpl. split_and!; [by constructor|lia|congruence].
Qed.

Lemma lcp_le_l a b : (lcp a b <= length a)%nat.
Proof. revert b. induction a as [|x a IH]; intros [|y b]; simpl; try lia. case_decide; [|lia]. specialize (IH b). lia. Qed.

Lemma lcp_le_r a b : (lcp a b <= length b)%nat.
Proof. revert b. induction a as [|x a IH]; intros [|y b]; simpl; try lia. case_decide; [|lia]. specialize (IH b). lia. Qed.

Lemma lcp_take a b : take (lcp a b) a = take (lcp a b) b.
Proof. revert b. induction a as [|x a IH]; intros [|y b]; simpl; try done. case_decide; simpl; [|done]. subst. by rewrite IH. Qed.

Lemma lcp_app k a b : lcp (k ++ a) (k ++ b) = (length k + lcp a b)%nat.
Proof. induction k as [|x k IH]; simpl; [done|]. rewrite decide_True by done. by rewrite IH. Qed.

(** Two lists split at their common prefix. *)
Lemma lcp_split a b :
  exists a' b', a = take (lcp a b) a ++ a' /\ b = take (lcp a b) a ++ b' /\ lcp a' b' = O.
Proof.
  exists (drop (lcp a b) a), (drop (lcp a b) b). rewrite take_drop.
  split_and!; [done|by rewrite lcp_take, take_drop|].
  assert (lcp a b = (length (take (lcp a b) a) + lcp (drop (lcp a b) a) (drop (lcp a b) b))%nat) as H.
  { rewrite <- lcp_app. by rewrite take_drop, lcp_take, take_drop. }
  rewrite length_take in H. pose proof (lcp_le_l a b). lia.
Qed.

(** A key that leaves [b] does so at a first different nibble. *)
Lemma lcp_diverge a b :
  (length b <= length a)%nat -> ~ b `prefix_of` a ->
  exists c x ra y rb, a = c ++ x :: ra /\ b = c ++ y :: rb /\ x <> y /\ lcp a b = length c.
Proof.
  revert a. induction b as [|y b IH]; intros [|x a] Hl Hp; simpl in *.
  1,2: by destruct Hp; apply prefix_nil.
  - lia.
  - case_decide as E.
    + subst. destruct (IH a) as (c & x & ra & y' & rb & -> & -> & Hxy & Hc); [lia| |].
      * intros H. by apply Hp, prefix_cons.
      * exists (y :: c), x, ra, y', rb. simpl. by rewrite Hc.
    + by exists [], x, a, y, b.
Qed.

Lemma lcp_full a b : lcp a b = length b <-> b `prefix_of` a.
Proof.
  split.
  - intros H. exists (drop (lcp a b) a). rewrite <- (take_drop (lcp a b) a) at 1. f_equal.
    by rewrite lcp_take, H, take_ge.
  - intros [r ->]. rewrite <- (app_nil_r b) at 2. rewrite lcp_app. destruct r; simpl; lia.
Qed.
End nibble_lists.

(** ** The methods through [repr] *)

Section repr_specs.

Lemma repr_nibs s ks : repr s ks -> nibs ks.
Proof. by intros (? & _). Qed.

Lemma repr_len s ks : repr s ks -> len s = length ks.
Proof. by intros (_ & ? & _). Qed.

Lemma repr_at s ks i k : repr s ks -> ks !! i = Some k -> at_ s i = Some k.
Proof. intros (_ & _ & H). apply H. Qed.

Lemma repr_is_empty s ks : repr s ks -> is_empty s = bool_decide (ks = []).
Proof.
  intros H. unfold is_empty. rewrite (repr_len _ _ H). by destruct ks.
Qed.

Lemma at_offset s off i :
  (off <= len s)%nat ->
  at_ (mk (data s) (start s + off) (len s - off)) i = at_ s (off + i).
Proof.
  intros Hle. unfold at_; simpl. rewrite Nat.add_assoc.
  destruct (Nat.ltb_spec i (len s - off)), (Nat.ltb_spec (off + i) (len s)); try lia; done.
Qed.

Lemma repr_offset s ks off :
  repr s ks -> (off <= length ks)%nat ->
  exists s', offset s off = Some s' /\ repr s' (drop off ks).
Proof.
  intros (Hn & Hl & Hat) Hle. unfold offset.
  rewrite (proj2 (Nat.leb_le _ _)) by lia. eexists; split; [done|].
  split_and!; [by apply Forall_drop|simpl; rewrite length_drop; lia|].
  intros i k. rewrite lookup_drop. intros Hk. rewrite at_offset by lia. auto.
Qed.

Lemma repr_prefix s ks n :
  repr s ks -> (n <= length ks)%nat ->
  exists s', prefix s n = Some s' /\ repr s' (take n ks).
Proof.
  intros (Hn & Hl & Hat) Hle. unfold prefix.
  rewrite (proj2 (Nat.leb_le _ _)) by lia. eexists; split; [done|].
  split_and!; [by apply Forall_take|simpl; rewrite length_take; lia|].
  intros i k [Hk Hi]%lookup_take_Some. specialize (Hat _ _ Hk).
  unfold at_ in *; simpl. rewrite (proj2 (Nat.ltb_lt i n)) by lia.
  by destruct (i <? len s)%nat.
Qed.

Lemma repr_to_nibbles s ks : repr s ks -> to_nibbles s = Some ks.
Proof.
  intros (_ & Hl & Hat). unfold to_nibbles. apply mapM_Some.
  apply Forall2_same_length_lookup. rewrite length_seq. split; [done|].
  intros i x y Hx Hy. apply lookup_seq in Hx as [-> _]. auto.
Qed.

Lemma repr_common_prefix_loop a b ka kb i k :
  repr a ka -> repr b kb -> (i <= length ka)%nat -> (i <= length kb)%nat ->
  k = (Nat.min (length ka) (length kb) - i)%nat ->
  common_prefix_loop a b i k = Some (i + lcp (drop i ka) (drop i kb))%nat.
Proof.
  intros Ha Hb. revert i. induction k as [|k IH]; intros i Hia Hib Hk; simpl.
  - f_equal. destruct (decide (length ka = i)) as [<-|].
    + rewrite drop_all. simpl. lia.
    + rewrite (drop_ge kb) by lia. destruct (drop i ka); simpl; lia.
  - destruct (lookup_lt_is_Some_2 ka i) as [x Hx]; [lia|].
    destruct (lookup_lt_is_Some_2 kb i) as [y Hy]; [lia|].
    rewrite (repr_at _ _ _ _ Ha Hx), (repr_at _ _ _ _ Hb Hy). simpl.
    rewrite (drop_S _ _ _ Hx), (drop_S _ _ _ Hy). simpl.
    destruct (Z.eqb_spec x y); [|rewrite decide_False by done; f_equal; lia].
    rewrite decide_True by done. rewrite IH by lia. f_equal. lia.
Qed.

Lemma repr_common_prefix_len a b ka kb :
  repr a ka -> repr b kb -> common_prefix_len a b = Some (lcp ka kb).
Proof.
  intros Ha Hb. unfold common_prefix_len. rewrite (repr_len _ _ Ha), (repr_len _ _ Hb).
  rewrite (repr_common_prefix_loop a b ka kb) by (done || lia). by rewrite !drop_0.
Qed.

Lemma repr_starts_with_loop s p ks kp i k :
  repr s ks -> repr p kp -> (length kp <= length ks)%nat -> (i <= length kp)%nat ->
  k = (length kp - i)%nat ->
  starts_with_loop s p i k = Some (bool_decide (drop i kp `prefix_of` drop i ks)).
Proof.
  intros Hs Hp Hle. revert i. induction k as [|k IH]; intros i Hi Hk; simpl.
  - rewrite (drop_ge kp) by lia. rewrite bool_decide_eq_true_2; [done|apply prefix_nil].
  - destruct (lookup_lt_is_Some_2 ks i) as [x Hx]; [lia|].
    destruct (lookup_lt_is_Some_2 kp i) as [y Hy]; [lia|].
    rewrite (repr_at _ _ _ _ Hs Hx), (repr_at _ _ _ _ Hp Hy). simpl.
    rewrite (drop_S _ _ _ Hx), (drop_S _ _ _ Hy).
    destruct (Z.eqb_spec x y) as [->|Hne].
    + rewrite IH by lia. f_equal. apply bool_decide_ext. split.
      * apply prefix_cons.
      * apply prefix_cons_inv_2.
    + rewrite bool_decide_eq_false_2; [done|]. intros H. by apply prefix_cons_inv_1 in H.
Qed.

Lemma repr_starts_with s p ks kp :
  repr s ks -> repr p kp -> starts_with s p = Some (bool_decide (kp `prefix_of` ks)).
Proof.
  intros Hs Hp. unfold starts_with. rewrite (repr_len _ _ Hs), (repr_len _ _ Hp).
  destruct (Nat.ltb_spec (length ks) (length kp)) as [Hlt|Hle].
  - rewrite bool_decide_eq_false_2; [done|]. intros H%prefix_length. lia.
  - rewrite (repr_starts_with_loop s p ks kp) by (done || lia). by rewrite !drop_0.
Qed.

Lemma at_div2 (i : nat) : ((i + 2) mod 2 = i mod 2 /\ (i + 2) / 2 = S (i / 2))%nat.
Proof.
  change (i + 2)%nat with (i + 1 * 2)%nat.
  rewrite Nat.Div0.mod_add, Nat.div_add by lia. split; [done|lia].
Qed.

(** Reading nibble [i] of a packed byte string. *)
Definition nib_of (bs : bytes) (i : nat) : option Z :=
  byte ← bs !! (i / 2)%nat;
  Some (if (i mod 2 =? 0)%nat then Z.land (Z.shiftr byte 4) 15 else Z.land byte 15).

Lemma nib_of_step b bs i : nib_of (b :: bs) (i + 2) = nib_of bs i.
Proof. unfold nib_of. destruct (at_div2 i) as [-> ->]. done. Qed.

Lemma nib_of_pack ks i k : nibs ks -> ks !! i = Some k -> nib_of (pack ks) i = Some k.
Proof.
  revert ks k. induction i as [i IH] using lt_wf_ind. intros ks k Hn Hk.
  destruct ks as [|a [|b ks]]; [done| |].
  - destruct i; [|done]. simplify_eq/=. apply Forall_cons in Hn as [Ha _].
    unfold nib_of. simpl. rewrite shl4 by done.
    destruct (byte_of_nibs k 0) as (? & Hd & _); [done|unfold is_nib; lia|].
    rewrite Z.add_0_r in *. by rewrite hi_nib, Hd.
  - apply Forall_cons in Hn as [Ha Hn]. apply Forall_cons in Hn as [Hb Hn].
    destruct (byte_of_nibs a b) as (? & Hd & Hm); [done..|].
    assert (Hbyte : Z.lor (wrap 8 (Z.shiftl a 4)) (Z.land b 15) = a * 16 + b).
    { rewrite lo_nib, nib_mod, pack_byte by done. done. }
    destruct i as [|[|i]]; simplify_eq/=.
    + unfold nib_of. simpl. by rewrite Hbyte, hi_nib, Hd.
    + unfold nib_of. simpl. by rewrite Hbyte, lo_nib, Hm.
    + replace (S (S i)) with (i + 2)%nat by lia. rewrite nib_of_step. apply IH; [lia|done..].
Qed.

Lemma nib_of_bytes bs i k : bytes_ok bs -> nibs_of_bytes bs !! i = Some k -> nib_of bs i = Some k.
Proof.
  revert bs k. induction i as [i IH] using lt_wf_ind. intros [|b bs] k Hb Hk; [done|].
  apply Forall_cons in Hb as [Hb Hbs]. destruct i as [|[|i]]; simplify_eq/=.
  - unfold nib_of. simpl. by rewrite hi_nib.
  - unfold nib_of. simpl. by rewrite lo_nib.
  - replace (S (S i)) with (i + 2)%nat by lia. rewrite nib_of_step. apply IH; [lia|done..].
Qed.

Lemma repr_from_nibbles ks : nibs ks -> repr (from_nibbles ks) ks.
Proof.
  intros Hn. split_and!; [done|done|]. intros i k Hk. unfold at_; simpl.
  rewrite (proj2 (Nat.ltb_lt _ _)) by (by eapply lookup_lt_Some). by apply nib_of_pack.
Qed.

Lemma repr_from_bytes bs : bytes_ok bs -> repr (from_bytes bs) (nibs_of_bytes bs).
Proof.
  intros Hb. split_and!; [by apply nibs_of_bytes_nibs|by rewrite length_nibs_of_bytes|].
  intros i k Hk. unfold at_; simpl. apply lookup_lt_Some in Hk as Hi.
  rewrite length_nibs_of_bytes in Hi.
  rewrite (proj2 (Nat.ltb_lt _ _)) by lia. by apply nib_of_bytes.
Qed.
End repr_specs.

#[export] Hint Resolve repr_from_nibbles repr_from_bytes repr_nibs : qfc.

(** ** Packing pairs of nibbles *)

Section pairs.

(** [m] bytes read from nibble [off] on. *)
Definition byte_indices (off m : nat) : list nat := map (fun j => off + 2 * j)%nat (seq 0 m).

Lemma byte_indices_S off m : byte_indices off (S m) = off :: byte_indices (off + 2) m.
Proof.
  unfold byte_indices. simpl. f_equal; [lia|]. rewrite <- seq_shift, map_map.
  apply map_ext. intros. lia.
Qed.

Lemma byte_at_pair s ks i hi lo :
  repr s ks -> ks !! i = Some hi -> ks !! S i = Some lo -> byte_at s i = Some (hi * 16 + lo).
Proof.
  intros Hr Hh Hl. unfold byte_at. rewrite (repr_at _ _ _ _ Hr Hh). simpl.
  rewrite Nat.add_1_r, (repr_at _ _ _ _ Hr Hl). simpl.
  pose proof (repr_nibs _ _ Hr) as Hn.
  rewrite pack_byte; [done| |]; by eapply Forall_lookup_1.
Qed.

Lemma byte_at_indices s ks off m :
  repr s ks -> (off + 2 * m <= length ks)%nat ->
  exists bs, mapM (byte_at s) (byte_indices off m) = Some bs /\ bytes_ok bs /\
             nibs_of_bytes bs = take (2 * m) (drop off ks).
Proof.
  intros Hr. revert off. induction m as [|m IH]; intros off Hle.
  { exists []. split_and!; [done|constructor|done]. }
  destruct (lookup_lt_is_Some_2 ks off) as [hi Hh]; [lia|].
  destruct (lookup_lt_is_Some_2 ks (S off)) as [lo Hl]; [lia|].
  destruct (IH (off + 2)%nat) as (bs & Hbs & Hok & Heq); [lia|].
  pose proof (repr_nibs _ _ Hr) as Hn.
  destruct (byte_of_nibs hi lo) as (? & Hd & Hm); [by eapply Forall_lookup_1..|].
  exists (hi * 16 + lo :: bs). rewrite byte_indices_S. simpl.
  rewrite (byte_at_pair s ks off hi lo), Hbs by done. simpl. split_and!; [done|by constructor|].
  rewrite Hd, Hm, Heq, (drop_S _ _ _ Hh), (drop_S _ _ _ Hl).
  replace (off + 2)%nat with (S (S off)) by lia.
  replace (m + S (m + 0))%nat with (S (2 * m)) by lia. done.
Qed.

Lemma step2_indices a n : step2 a n = byte_indices a ((n - a + 1) / 2).
Proof. done. Qed.

Lemma half_even n : (n mod 2 = 0 -> (n + 1) / 2 = n / 2 /\ 2 * (n / 2) = n)%nat.
Proof.
  intros H. pose proof (Nat.div_mod_eq n 2) as Hn. rewrite H in Hn.
  split; [|lia]. symmetry. apply (Nat.div_unique _ 2 _ 1); lia.
Qed.

Lemma half_odd n : (n mod 2 = 1 -> n - 1 = 2 * ((n - 1) / 2) /\ (n - 1 + 1) / 2 = (n - 1) / 2)%nat.
Proof.
  intros H. pose proof (Nat.div_mod_eq n 2) as Hn. rewrite H in Hn.
  assert ((n - 1) / 2 = n / 2)%nat as ->.
  { symmetry. apply (Nat.div_unique _ 2 _ 0); lia. }
  split; [lia|]. replace (n - 1 + 1)%nat with n by lia. done.
Qed.

Lemma unpack_nibs bs : bytes_ok bs -> unpack bs = nibs_of_bytes bs.
Proof. induction 1 as [|b bs Hb _ IH]; simpl; [done|]. rewrite hi_nib, lo_nib by done. by f_equal; f_equal. Qed.

Lemma filter_step2_odd n : (n mod 2 = 1)%nat ->
  filter (fun i => i + 1 < n)%nat (step2 1 n) = byte_indices 1 ((n - 1) / 2).
Proof.
  intros Hn. destruct (half_odd n Hn) as [Hh Hs]. rewrite step2_indices, Hs.
  apply filter_all. apply Forall_forall. intros i Hi.
  unfold byte_indices in Hi. apply list_elem_of_In, in_map_iff in Hi as (j & <- & Hj).
  apply in_seq in Hj. lia.
Qed.

(** The flag byte of the compact encoding. *)
Lemma flag_byte (leaf odd : bool) n0 :
  is_nib n0 ->
  let flag := (if leaf then 2 else 0) + (if odd then 1 else 0) in
  let b0 := Z.lor (wrap 8 (Z.shiftl flag 4)) n0 in
  let f := Z.land (Z.shiftr b0 4) 15 in
  negb (Z.land f 2 =? 0) = leaf /\ negb (Z.land f 1 =? 0) = odd /\ Z.land b0 15 = n0.
Proof.
  intros Hn flag b0 f. assert (is_nib flag) as Hf by (unfold is_nib, flag; destruct leaf, odd; lia).
  destruct (byte_of_nibs flag n0) as (? & Hd & Hm); [done..|].
  assert (b0 = flag * 16 + n0) as Hb by (unfold b0; by rewrite pack_byte).
  assert (f = flag) as -> by (unfold f; by rewrite Hb, hi_nib, Hd).
  split_and!; [by destruct leaf, odd..|]. by rewrite Hb, lo_nib, Hm.
Qed.
End pairs.

(** ** Round trips *)

(** A slice made from bytes converts
    back to the same bytes, without any of the assertions of [at] or
    [to_bytes] failing. *)
Theorem nibbles_bytes_roundtrip (bs : bytes) :
  bytes_ok bs -> to_bytes (from_bytes bs) = Some bs /\ to_nibbles (from_bytes bs) = Some (nibs_of_bytes bs).
Proof.
  intros Hok. pose proof (repr_from_bytes bs Hok) as Hr.
  split; [|by apply repr_to_nibbles]. unfold to_bytes.
  rewrite (repr_len _ _ Hr), length_nibs_of_bytes.
  rewrite Nat.Div0.mod_mul. simpl.
  destruct (half_even (length bs * 2)) as [Hh H2]; [apply Nat.Div0.mod_mul|].
  rewrite step2_indices, Nat.sub_0_r, Hh, Nat.div_mul by lia.
  destruct (byte_at_indices _ _ 0 (length bs) Hr) as (bs' & -> & _ & Heq).
  { rewrite length_nibs_of_bytes. lia. }
  rewrite drop_0, take_ge in Heq by (rewrite length_nibs_of_bytes; lia).
  by apply nibs_of_bytes_inj in Heq as ->.
Qed.

(** The hex-prefix encoding of any slice,
    of odd or even length, leaf or extension, succeeds and decodes to the
    same nibbles and the same leaf flag. *)
Theorem compact_roundtrip (s : NibbleSlice.t) (ks : list Z) (is_leaf : bool) :
  repr s ks ->
  exists bs s', encode_compact s is_leaf = Some bs /\
                decode_compact bs = Some (s', is_leaf) /\ repr s' ks.
Proof.
  intros Hr. pose proof (repr_nibs _ _ Hr) as Hn. unfold encode_compact.
  rewrite (repr_len _ _ Hr).
  destruct (Nat.eqb_spec (length ks mod 2) 1) as [Hodd|Heven].
  - destruct ks as [|n0 ks']; [done|]. rewrite (repr_at _ _ 0 n0 Hr) by done. cbn [mbind option_bind].
    rewrite filter_step2_odd by done.
    destruct (half_odd _ Hodd) as [Hh _].
    assert (1 <= length (n0 :: ks'))%nat by (simpl; lia).
    destruct (byte_at_indices _ _ 1 ((length (n0 :: ks') - 1) / 2) Hr) as (rest & -> & Hok & Heq); [lia|].
    apply Forall_cons in Hn as [Hn0 Hn].
    rewrite <- Hh in Heq. simpl in Heq. rewrite Nat.sub_0_r, drop_0, take_ge in Heq by lia.
    destruct (flag_byte is_leaf true n0 Hn0) as (Hf1 & Hf2 & Hf3).
    eexists _, (from_nibbles (n0 :: ks')). split_and!; [done| |by apply repr_from_nibbles; constructor].
    unfold decode_compact. rewrite Hf1, Hf2, Hf3. simpl. by rewrite unpack_nibs, Heq.
  - assert (length ks mod 2 = 0)%nat as He.
    { pose proof (Nat.mod_upper_bound (length ks) 2). lia. }
    destruct (half_even _ He) as [Hh H2].
    rewrite step2_indices, Nat.sub_0_r, Hh.
    destruct (byte_at_indices _ _ 0 (length ks / 2) Hr) as (rest & -> & Hok & Heq); [lia|].
    rewrite H2, drop_0, take_ge in Heq by lia.
    destruct (flag_byte is_leaf false 0) as (Hf1 & Hf2 & _); [unfold is_nib; lia|].
    rewrite Z.lor_0_r in Hf1, Hf2.
    eexists _, (from_nibbles ks). split_and!; [done| |by apply repr_from_nibbles].
    unfold decode_compact. rewrite Hf1, Hf2. simpl. by rewrite unpack_nibs, Heq.
Qed.

Lemma nibbles_bytes_roundtrip_witness :
  to_bytes (from_bytes [18; 171; 0]) = Some [18; 171; 0] /\
  to_nibbles (from_bytes [18; 171; 0]) = Some [1; 2; 10; 11; 0; 0].
Proof.
  apply (nibbles_bytes_roundtrip [18; 171; 0]). by_decide.
Defined.

Lemma compact_roundtrip_witness :
  exists bs s', encode_compact (from_nibbles [1; 2; 15]) true = Some bs /\
                decode_compact bs = Some (s', true) /\ repr s' [1; 2; 15].
Proof.
  apply (compact_roundtrip (from_nibbles [1; 2; 15]) [1; 2; 15] true).
  apply repr_from_nibbles. by_decide.
Defined.
