(* ===== verification/Externals.v ===== *)
(** * Interfaces of third-party code

    The crates [blake3], [borsh] and [lru] are not part of the repository.
    Each is an interface here: an operational class that the definitions take
    as a parameter, and a class of the documented laws that the theorems use.
    The end of the file has one concrete instance of each interface, so that
    the definitions run and the laws are known to be satisfiable. *)

From S2P Require Import Prelude.

(** [qfc_types::Hash] is [[u8; 32]]; [qfc_types::Address] is [[u8; 20]]. *)
Abbreviation Hash := bytes.
Abbreviation Address := bytes.

Definition Hash_ZERO : Hash := replicate 32 0.
Definition Address_ZERO : Address := replicate 20 0.

(** ** blake3: the hash function *)

Class Blake3 : Type := blake3 : bytes -> Hash.

(** Collision resistance and preimage resistance of the zero hash, idealised:
    no two inputs collide and no input hashes to [Hash::ZERO]. *)
Class CollisionFree (B : Blake3) : Prop := {
  blake3_inj x y : blake3 x = blake3 y -> x = y;
  blake3_nonzero x : blake3 x <> Hash_ZERO;
}.

(** A digest is 32 bytes. *)
Class Digest32 (B : Blake3) : Prop := {
  blake3_length x : length (blake3 x) = 32%nat;
  blake3_bytes x : bytes_ok (blake3 x);
}.

(** ** borsh: the serialisation derived for the data types *)

Class Borsh (A : Type) : Type := {
  to_vec : A -> bytes;
  from_slice : bytes -> option A;
}.

Class BorshOk (A : Type) `{Borsh A} : Prop :=
  from_slice_to_vec (a : A) : from_slice (to_vec a) = Some a.

Lemma to_vec_inj {A} `{BorshOk A} (a b : A) : to_vec a = to_vec b -> a = b.
Proof. intros H1. apply (f_equal from_slice) in H1. rewrite !from_slice_to_vec in H1. congruence. Qed.

(** ** lru: the bounded caches *)

Class LruCache (C : Type -> Type -> Type) : Type := {
  lru_new {K V} : nat -> C K V;
  lru_get {K V} `{EqDecision K} : K -> C K V -> option V * C K V;
  lru_put {K V} `{EqDecision K} : K -> V -> C K V -> C K V;
  lru_clear {K V} : C K V -> C K V;
  lru_iter {K V} `{EqDecision K} : C K V -> list (K * V);
}.

(** What a cache promises: it answers from its view; a [put] makes its own
    entry visible, and may evict others but never invents or changes one. *)
Class LruSpec (C : Type -> Type -> Type) `{LruCache C} : Type := {
  lru_view {K V} `{EqDecision K} : C K V -> K -> option V;
  lru_new_view {K V} `{EqDecision K} n k : lru_view (lru_new n : C K V) k = None;
  lru_clear_view {K V} `{EqDecision K} (c : C K V) k : lru_view (lru_clear c) k = None;
  lru_get_result {K V} `{EqDecision K} (c : C K V) k : fst (lru_get k c) = lru_view c k;
  lru_get_view {K V} `{EqDecision K} (c : C K V) k k' :
    lru_view (snd (lru_get k c)) k' = lru_view c k';
  lru_put_eq {K V} `{EqDecision K} (c : C K V) k v : lru_view (lru_put k v c) k = Some v;
  lru_put_ne {K V} `{EqDecision K} (c : C K V) k v k' w :
    lru_view (lru_put k v c) k' = Some w -> k' <> k -> lru_view c k' = Some w;
  lru_iter_view {K V} `{EqDecision K} (c : C K V) k v :
    (k, v) ∈ lru_iter c -> lru_view c k = Some v;
}.

(** ** Concrete instances *)

(** A collision-free function in place of blake3. *)
Definition tagged_blake3 : Blake3 := fun bs => 1 :: bs.

Lemma tagged_blake3_ok : CollisionFree tagged_blake3.
Proof. split; unfold blake3, tagged_blake3; [by intros ?? [=]|done]. Qed.

(** A serialisation of any countable type: one number. *)
Definition countable_borsh (A : Type) `{Countable A} : Borsh A := {|
  to_vec a := [Z.pos (encode a)];
  from_slice bs := match bs with [Z.pos p] => decode p | _ => None end;
|}.

Lemma countable_borsh_ok (A : Type) `{Countable A} : @BorshOk A (countable_borsh A).
Proof. intros a. simpl. apply decode_encode. Qed.

(** A least-recently-used cache: entries, most recent first, cut at the capacity. *)
Module Lru.

Record t (K V : Type) := mk { cap : nat; entries : list (K * V) }.
Arguments mk {K V}. Arguments cap {K V}. Arguments entries {K V}.

Section ops.
Context {K V : Type} `{EqDecision K}.

Fixpoint assoc (k : K) (l : list (K * V)) : option V :=
  match l with
  | [] => None
  | (k', v) :: l' => if decide (k' = k) then Some v else assoc k l'
  end.

Definition remove (k : K) (l : list (K * V)) : list (K * V) := filter (fun kv => fst kv <> k) l.

(** Each key once, with the entry [assoc] finds. *)
Fixpoint dedup (l : list (K * V)) : list (K * V) :=
  match l with
  | [] => []
  | (k, v) :: l' => (k, v) :: remove k (dedup l')
  end.

Definition get (k : K) (c : t K V) : option V * t K V :=
  match assoc k (entries c) with
  | Some v => (Some v, mk (cap c) ((k, v) :: remove k (entries c)))
  | None => (None, c)
  end.

Definition put (k : K) (v : V) (c : t K V) : t K V :=
  mk (cap c) (take (Nat.max 1 (cap c)) ((k, v) :: remove k (entries c))).

Lemma assoc_remove_eq k l : assoc k (remove k l) = None.
Proof.
  induction l as [|[k' v] l IH]; [done|]. unfold remove in *.
  destruct (decide (k' = k)) as [->|Hne].
  - rewrite filter_cons_False by (simpl; tauto). done.
  - rewrite filter_cons_True by done. simpl. by rewrite decide_False.
Qed.

Lemma assoc_remove_ne k k' l : k' <> k -> assoc k' (remove k l) = assoc k' l.
Proof.
  intros Hne. induction l as [|[k1 v] l IH]; [done|]. unfold remove in *.
  destruct (decide (k1 = k)) as [->|H1].
  - rewrite filter_cons_False by (simpl; tauto). simpl. by rewrite decide_False by done.
  - rewrite filter_cons_True by done. simpl. by rewrite IH.
Qed.

Lemma assoc_take n k l v : assoc k (take n l) = Some v -> assoc k l = Some v.
Proof.
  revert n. induction l as [|[k1 v1] l IH]; intros [|n]; simpl; try done.
  case_decide; [done|]. apply IH.
Qed.

Lemma elem_of_dedup k v l : (k, v) ∈ dedup l -> assoc k l = Some v.
Proof.
  induction l as [|[k1 v1] l IH]; simpl; [by intros ?%not_elem_of_nil|].
  intros [[= -> ->]|[Hne Hin]%list_elem_of_filter]%elem_of_cons; [by rewrite decide_True|].
  simpl in Hne. rewrite decide_False by done. auto.
Qed.
End ops.
End Lru.

#[export] Instance lru_list : LruCache Lru.t := {|
  lru_new K V n := Lru.mk n [];
  lru_get K V _ k c := Lru.get k c;
  lru_put K V _ k v c := Lru.put k v c;
  lru_clear K V c := Lru.mk (Lru.cap c) [];
  lru_iter K V _ c := Lru.dedup (Lru.entries c);
|}.

#[export] Instance lru_list_spec : LruSpec Lru.t.
Proof.
  refine {| lru_view K V _ c k := Lru.assoc k (Lru.entries c) |}; intros K V EqK; simpl; try done.
  - intros c k. unfold Lru.get. by destruct (Lru.assoc k (Lru.entries c)).
  - intros c k k'. unfold Lru.get. destruct (Lru.assoc k (Lru.entries c)) eqn:E; simpl; [|done].
    case_decide; [congruence|]. by rewrite Lru.assoc_remove_ne.
  - intros c k v. unfold Lru.put. simpl. destruct (Lru.cap c); simpl; by rewrite decide_True.
  - intros c k v k' w. unfold Lru.put. simpl. intros H%Lru.assoc_take Hne. simpl in H.
    rewrite decide_False in H by done. by rewrite Lru.assoc_remove_ne in H.
  - intros c k v. apply Lru.elem_of_dedup.
Defined.
