(* ===== verification/Codec.v ===== *)
(** * A concrete serialisation

    [borsh] is third-party code and an interface of the development
    (Externals.v). The examples need an instance of it on records with many
    fields: here a self-delimiting code, with one combinator per type
    constructor, so that the code of a record is the concatenation of the codes
    of its fields. An integer takes one cell. *)

From S2P Require Import Prelude Externals.

Class Codec (A : Type) : Type := {
  enc : A -> bytes;
  dec : bytes -> option (A * bytes);
}.

Class CodecOk (A : Type) `{Codec A} : Prop :=
  dec_enc (a : A) (r : bytes) : dec (enc a ++ r) = Some (a, r).

#[export] Instance codec_Z : Codec Z := {|
  enc x := [x];
  dec bs := match bs with [] => None | x :: r => Some (x, r) end;
|}.
#[export] Instance codec_Z_ok : CodecOk Z.
Proof. done. Qed.

(** Along a pair of functions, the first with the second as left inverse. *)
Definition codec_via {A T : Type} `{Codec T} (f : A -> T) (g : T -> A) : Codec A := {|
  enc a := enc (f a);
  dec bs := '(t, r) ← dec bs; Some (g t, r);
|}.
Lemma codec_via_ok {A T : Type} `{CodecOk T} (f : A -> T) (g : T -> A) :
  (forall a, g (f a) = a) -> @CodecOk A (codec_via f g).
Proof. intros Hgf a r. simpl. rewrite dec_enc. simpl. by rewrite Hgf. Qed.

#[export] Instance codec_bool : Codec bool := codec_via (fun b : bool => if b then 1 else 0) (fun z => z =? 1).
#[export] Instance codec_bool_ok : CodecOk bool.
Proof. apply codec_via_ok. by intros []. Qed.

#[export] Instance codec_unit : Codec unit := {| enc _ := []; dec bs := Some (tt, bs) |}.
#[export] Instance codec_unit_ok : CodecOk unit.
Proof. by intros []. Qed.

#[export] Instance codec_prod {A T} `{Codec A} `{Codec T} : Codec (A * T) := {|
  enc p := enc (fst p) ++ enc (snd p);
  dec bs := '(a, r) ← dec bs; '(t, r') ← dec r; Some ((a, t), r');
|}.
#[export] Instance codec_prod_ok {A T} `{CodecOk A} `{CodecOk T} : CodecOk (A * T).
Proof. intros [a t] r. simpl. rewrite <-app_assoc, dec_enc. simpl. by rewrite dec_enc. Qed.

#[export] Instance codec_option {A} `{Codec A} : Codec (option A) := {|
  enc o := match o with None => [0] | Some a => 1 :: enc a end;
  dec bs :=
    match bs with
    | 0 :: r => Some (None, r)
    | _ :: r => '(a, r') ← dec r; Some (Some a, r')
    | [] => None
    end;
|}.
#[export] Instance codec_option_ok {A} `{CodecOk A} : CodecOk (option A).
Proof. intros [a|] r; simpl; [|done]. by rewrite dec_enc. Qed.

Fixpoint dec_many {A} `{Codec A} (n : nat) (bs : bytes) : option (list A * bytes) :=
  match n with
  | O => Some ([], bs)
  | S n' => '(a, r) ← dec bs; '(l, r') ← dec_many n' r; Some (a :: l, r')
  end.

#[export] Instance codec_list {A} `{Codec A} : Codec (list A) := {|
  enc l := Z.of_nat (length l) :: concat (map enc l);
  dec bs := match bs with [] => None | n :: r => dec_many (Z.to_nat n) r end;
|}.
#[export] Instance codec_list_ok {A} `{CodecOk A} : CodecOk (list A).
Proof.
  intros l r. simpl. rewrite Nat2Z.id. revert r. induction l as [|a l IH]; intros r; [done|].
  simpl. rewrite <-app_assoc, dec_enc. simpl. by rewrite IH.
Qed.

(** The serialisation: the code, with nothing left over. *)
Definition codec_borsh (A : Type) `{Codec A} : Borsh A := {|
  to_vec a := enc a;
  from_slice bs := match dec bs with Some (a, []) => Some a | _ => None end;
|}.

Lemma codec_borsh_ok (A : Type) `{CodecOk A} : @BorshOk A (codec_borsh A).
Proof. intros a. simpl. pose proof (dec_enc a []) as Hd. rewrite app_nil_r in Hd. by rewrite Hd. Qed.
