(* ===== verification/Storage.v ===== *)
(** * Storage (src/crates/qfc-storage/src: schema.rs, batch.rs, db.rs)

    RocksDB is a third-party library: it is the interface [RocksDB], with the
    documented laws of a key-value store in [RocksOk] (reads see writes, a
    write batch is applied in order, iteration is in key order) and a finite
    map as its instance. I/O failures are not modelled. The schema's key
    encodings are proved to round-trip and to preserve the order of heights,
    which the reverse scan of the checkpoints relies on. *)

From S2P Require Import Prelude Externals.

(** Column families (schema.rs, module [cf]). *)
Inductive CF :=
| BLOCK_HEADERS | BLOCK_BODIES | BLOCK_HASH_INDEX | BLOCKS_BY_HASH | TRANSACTIONS
| TX_INDEX | RECEIPTS | STATE | CODE | METADATA | VALIDATORS | REWARDS | DELEGATIONS
| UNDELEGATIONS | CHECKPOINTS | WORK_PROOFS | ETH_TX_INDEX | ETH_TX_META
| MINER_EARNINGS | TASKS | TRAINING_COMMITMENTS.

#[export] Instance CF_eq_dec : EqDecision CF.
Proof. solve_decision. Defined.

Definition CF_ALL : list CF :=
  [BLOCK_HEADERS; BLOCK_BODIES; BLOCK_HASH_INDEX; BLOCKS_BY_HASH; TRANSACTIONS;
   TX_INDEX; RECEIPTS; STATE; CODE; METADATA; VALIDATORS; REWARDS; DELEGATIONS;
   UNDELEGATIONS; CHECKPOINTS; WORK_PROOFS; ETH_TX_INDEX; ETH_TX_META;
   MINER_EARNINGS; TASKS; TRAINING_COMMITMENTS].

#[export] Program Instance CF_countable : Countable CF := {|
  encode c := Pos.of_succ_nat (default O (fst <$> list_find (c =.) CF_ALL));
  decode p := CF_ALL !! pred (Pos.to_nat p);
|}.
Next Obligation. by intros []. Qed.

(** ** Write batches (batch.rs) *)

Inductive BatchOp :=
| Put (cf : CF) (key value : bytes)
| Delete (cf : CF) (key : bytes).

Abbreviation WriteBatch := (list BatchOp).

Definition batch_new : WriteBatch := [].
Definition batch_put (b : WriteBatch) (cf : CF) (key value : bytes) : WriteBatch := b ++ [Put cf key value].
Definition batch_delete (b : WriteBatch) (cf : CF) (key : bytes) : WriteBatch := b ++ [Delete cf key].

(** The (column family, key) an operation writes. *)
Definition op_key (op : BatchOp) : CF * bytes :=
  match op with Put cf key _ => (cf, key) | Delete cf key => (cf, key) end.

(** ** RocksDB *)

Class RocksDB (Database : Type) : Type := {
  rocks_get : Database -> CF -> bytes -> option bytes;
  rocks_put : Database -> CF -> bytes -> bytes -> Database;
  rocks_delete : Database -> CF -> bytes -> Database;
  rocks_write : Database -> list BatchOp -> Database;
  rocks_iter : Database -> CF -> list (bytes * bytes);
}.

Class RocksOk (Database : Type) `{RocksDB Database} : Prop := {
  rocks_get_put db cf k v cf' k' :
    rocks_get (rocks_put db cf k v) cf' k' =
      if decide ((cf, k) = (cf', k')) then Some v else rocks_get db cf' k';
  rocks_get_delete db cf k cf' k' :
    rocks_get (rocks_delete db cf k) cf' k' =
      if decide ((cf, k) = (cf', k')) then None else rocks_get db cf' k';
  rocks_get_write_nil db cf k : rocks_get (rocks_write db []) cf k = rocks_get db cf k;
  rocks_get_write_put db ops cf k v cf' k' :
    rocks_get (rocks_write db (ops ++ [Put cf k v])) cf' k' =
      if decide ((cf, k) = (cf', k')) then Some v else rocks_get (rocks_write db ops) cf' k';
  rocks_get_write_delete db ops cf k cf' k' :
    rocks_get (rocks_write db (ops ++ [Delete cf k])) cf' k' =
      if decide ((cf, k) = (cf', k')) then None else rocks_get (rocks_write db ops) cf' k';
  rocks_iter_elem db cf k v : (k, v) ∈ rocks_iter db cf <-> rocks_get db cf k = Some v;
  rocks_iter_sorted db cf : StronglySorted before (rocks_iter db cf);
}.

(** ** The database (db.rs) *)

Section database.
Context {Database : Type} `{RK : RocksDB Database}.

Definition db_get (db : Database) (cf : CF) (key : bytes) : option bytes := rocks_get db cf key.
Definition db_put (db : Database) (cf : CF) (key value : bytes) : Database := rocks_put db cf key value.
Definition db_delete (db : Database) (cf : CF) (key : bytes) : Database := rocks_delete db cf key.
Definition db_contains (db : Database) (cf : CF) (key : bytes) : bool :=
  bool_decide (is_Some (rocks_get db cf key)).

(** The operations are copied into one RocksDB batch and written at once. *)
Definition write_batch (db : Database) (b : WriteBatch) : Database := rocks_write db b.

Definition db_iter (db : Database) (cf : CF) : list (bytes * bytes) := rocks_iter db cf.
Definition db_iter_from (db : Database) (cf : CF) (start_key : bytes) : list (bytes * bytes) :=
  filter (fun kv => bytes_le start_key (fst kv)) (rocks_iter db cf).
Definition db_iter_reverse (db : Database) (cf : CF) : list (bytes * bytes) := rev (rocks_iter db cf).
End database.

(** ** Key encodings (schema.rs) *)

Definition encode_block_number (number : Z) : bytes := to_be 8 number.
Definition decode_block_number (bs : bytes) : option Z :=
  if (length bs =? 8)%nat then Some (from_be bs) else None.

Definition encode_tx_location (block_height tx_index : Z) : bytes :=
  to_be 8 block_height ++ to_be 4 tx_index.
Definition decode_tx_location (bs : bytes) : option (Z * Z) :=
  if (length bs =? 12)%nat then Some (from_be (take 8 bs), from_be (drop 8 bs)) else None.

(** Metadata keys: the ASCII bytes of the names in module [meta]. *)
Definition LATEST_BLOCK_NUMBER : bytes :=
  [108; 97; 116; 101; 115; 116; 95; 98; 108; 111; 99; 107; 95; 110; 117; 109; 98; 101; 114].
Definition LATEST_STATE_ROOT : bytes :=
  [108; 97; 116; 101; 115; 116; 95; 115; 116; 97; 116; 101; 95; 114; 111; 111; 116].
Definition GENESIS_HASH : bytes := [103; 101; 110; 101; 115; 105; 115; 95; 104; 97; 115; 104].
Definition CHAIN_ID : bytes := [99; 104; 97; 105; 110; 95; 105; 100].

(** ** A finite map as the store *)

Abbreviation RocksMap := (gmap (CF * bytes) bytes).

Definition apply_op (db : RocksMap) (op : BatchOp) : RocksMap :=
  match op with
  | Put cf key value => <[(cf, key) := value]> db
  | Delete cf key => delete (cf, key) db
  end.

Definition cf_entries (db : RocksMap) (cf : CF) : list (bytes * bytes) :=
  omap (fun e => if decide (fst (fst e) = cf) then Some (snd (fst e), snd e) else None) (map_to_list db).

#[export] Instance rocks_map : RocksDB RocksMap := {|
  rocks_get db cf k := db !! (cf, k);
  rocks_put db cf k v := <[(cf, k) := v]> db;
  rocks_delete db cf k := delete (cf, k) db;
  rocks_write db ops := foldl apply_op db ops;
  rocks_iter db cf := merge_sort by_key (cf_entries db cf);
|}.

(** ** Lemmas *)

Section iteration.

Lemma elem_of_cf_entries db cf k v : (k, v) ∈ cf_entries db cf <-> db !! (cf, k) = Some v.
Proof.
  unfold cf_entries. rewrite list_elem_of_omap. split.
  - intros ([[cf' k'] v'] & Hin & Heq). simpl in Heq. case_decide; [|done]. simplify_eq.
    by apply elem_of_map_to_list in Hin.
  - intros H. exists ((cf, k), v). simpl. rewrite decide_True by done.
    by rewrite elem_of_map_to_list.
Qed.

Lemma cf_entries_nodup db cf : NoDup (cf_entries db cf).*1.
Proof.
  unfold cf_entries. pose proof (NoDup_fst_map_to_list db) as H.
  induction (map_to_list db) as [|[[cf' k] v] l IH]; [constructor|].
  rewrite fmap_cons in H. apply NoDup_cons in H as [Hn H]. simpl. case_decide; simpl; [|auto].
  subst. constructor; [|auto]. intros Hin. apply Hn.
  apply list_elem_of_fmap in Hin as ([k' v'] & -> & Hin).
  apply list_elem_of_omap in Hin as ([[cf'' k''] v''] & Hin & Heq). simpl in Heq.
  case_decide; [|done]. simplify_eq/=. by apply (list_elem_of_fmap_2 fst) in Hin.
Qed.

End iteration.

#[export] Instance rocks_map_ok : RocksOk RocksMap.
Proof.
  split; simpl; intros; rewrite ?foldl_app; simpl; try done.
  1,3: case_decide; simplify_eq; [by rewrite lookup_insert_eq|by rewrite lookup_insert_ne].
  1,2: case_decide; simplify_eq; [by rewrite lookup_delete_eq|by rewrite lookup_delete_ne].
  - rewrite merge_sort_Permutation. apply elem_of_cf_entries.
  - apply sorted_strict; [apply (StronglySorted_merge_sort by_key)|].
    rewrite merge_sort_Permutation. apply cf_entries_nodup.
Qed.

Section batches.
Context {Database : Type} `{RK : RocksOk Database}.

Lemma db_get_put db cf k v cf' k' :
  db_get (db_put db cf k v) cf' k' = if decide ((cf, k) = (cf', k')) then Some v else db_get db cf' k'.
Proof. apply rocks_get_put. Qed.

Lemma db_get_delete db cf k cf' k' :
  db_get (db_delete db cf k) cf' k' = if decide ((cf, k) = (cf', k')) then None else db_get db cf' k'.
Proof. apply rocks_get_delete. Qed.

Lemma write_batch_untouched db b cf k :
  (forall op, op ∈ b -> op_key op <> (cf, k)) -> db_get (write_batch db b) cf k = db_get db cf k.
Proof.
  unfold db_get, write_batch. induction b as [|op b IH] using rev_ind; intros Hk.
  { apply rocks_get_write_nil. }
  assert (op_key op <> (cf, k)) by set_solver.
  rewrite <- IH by set_solver. destruct op; simpl in *.
  - rewrite rocks_get_write_put. by rewrite decide_False.
  - rewrite rocks_get_write_delete. by rewrite decide_False.
Qed.

(** The last operation on a key decides. *)
Lemma write_batch_last_put db b1 b2 cf key value :
  (forall op, op ∈ b2 -> op_key op <> (cf, key)) ->
  db_get (write_batch db (b1 ++ Put cf key value :: b2)) cf key = Some value.
Proof.
  unfold db_get, write_batch. induction b2 as [|op b2 IH] using rev_ind; intros Hk.
  { rewrite rocks_get_write_put. by rewrite decide_True. }
  assert (op_key op <> (cf, key)) by set_solver.
  rewrite app_comm_cons, (assoc_L app). rewrite <- IH by set_solver. destruct op; simpl in *.
  - rewrite rocks_get_write_put. by rewrite decide_False.
  - rewrite rocks_get_write_delete. by rewrite decide_False.
Qed.

(** A batch that ends in deletions. *)
Lemma write_batch_deletes db b cf ks cf' k' :
  db_get (write_batch db (b ++ map (Delete cf) ks)) cf' k' =
    if decide (cf = cf' /\ k' ∈ ks) then None else db_get (write_batch db b) cf' k'.
Proof.
  unfold db_get, write_batch. induction ks as [|k ks IH] using rev_ind.
  { simpl. rewrite app_nil_r, decide_False; [done|]. by intros [_ ?%not_elem_of_nil]. }
  rewrite map_app. simpl. rewrite (assoc_L app), rocks_get_write_delete, IH.
  repeat case_decide; try done; exfalso; destruct_and?; simplify_eq; set_solver.
Qed.
End batches.

(** The entry with the largest key ends a sorted iteration. *)
Lemma sorted_last {V} (l : list (bytes * V)) x :
  StronglySorted before l -> x ∈ l -> (forall y, y ∈ l -> y = x \/ before y x) -> exists l', l = l' ++ [x].
Proof.
  intros Hs (l1 & l2 & ->)%list_elem_of_split Hle. exists l1. do 2 f_equal.
  apply StronglySorted_app_1_r in Hs. inversion Hs as [|?? _ Hall]; subst.
  destruct l2 as [|y l2]; [done|exfalso]. inversion Hall as [|?? Hy _]; subst.
  destruct (Hle y) as [->|Hb]; [set_solver|by apply before_irrefl in Hy|].
  apply (before_irrefl x). unfold before in *. by eapply bytes_cmp_lt_trans.
Qed.

Section key_encodings.

Lemma from_be_range bs : bytes_ok bs -> 0 <= from_be bs < 256 ^ Z.of_nat (length bs).
Proof. intros H. unfold from_be. rewrite <- (length_rev bs). apply from_le_range. by apply Forall_rev. Qed.

End key_encodings.

(** Block-number keys decode to the number, keep the
    order of heights as the database's byte order, and transaction locations
    decode to the height and index they were made from. *)
Theorem schema_keys_ok (h h' i : Z) :
  in_u 64 h -> in_u 64 h' -> in_u 32 i ->
  decode_block_number (encode_block_number h) = Some h /\
  bytes_cmp (encode_block_number h) (encode_block_number h') = (h ?= h') /\
  decode_tx_location (encode_tx_location h i) = Some (h, i).
Proof.
  unfold in_u. intros Hh Hh' Hi.
  assert (forall x, 0 <= x < 2 ^ 64 -> from_be (to_be 8 x) = x) as H8.
  { intros x Hx. rewrite from_to_be. by apply Z.mod_small. }
  split_and!.
  - unfold decode_block_number, encode_block_number. rewrite length_to_be. simpl. by rewrite H8.
  - unfold encode_block_number. rewrite bytes_cmp_from_be by (rewrite ?length_to_be; auto with qfc).
    by rewrite !H8.
  - unfold decode_tx_location, encode_tx_location. rewrite length_app, !length_to_be. cbn [Nat.add Nat.eqb].
    rewrite take_app_length', drop_app_length' by (by rewrite length_to_be).
    rewrite H8, from_to_be by done. rewrite Z.mod_small by done. done.
Qed.

Lemma schema_keys_ok_witness :
  decode_block_number (encode_block_number 300) = Some 300 /\
  bytes_cmp (encode_block_number 300) (encode_block_number 70000) = (300 ?= 70000) /\
  decode_tx_location (encode_tx_location 300 7) = Some (300, 7).
Proof. apply (schema_keys_ok 300 70000 7); unfold in_u; lia. Defined.
