(* ===== verification/Trie.v ===== *)
(** * The Merkle Patricia trie (src/crates/qfc-trie/src: node.rs, trie.rs, proof.rs)

    Definitions only; Trie's theory is in TrieTheory.v and MerkleProofs.v.
    A [Trie] holds its root hash, an LRU cache of nodes and the map of dirty
    (uncommitted) nodes; the database is shared with the rest of the node, so
    it is an argument of every operation and a result of [commit]. The Rust
    methods take [&self] and mutate the cache and the dirty map through locks:
    here they run in the state monad over [Trie].

    The recursion follows hashes, so it carries fuel: the number of nibbles
    left in the key plus one, which is enough for every trie that the
    operations build (TrieTheory.v); a run that exhausts it is [NoFuel]. *)

From S2P Require Import Prelude Externals Nibbles Storage.
Import NibbleSlice.

Inductive TrieNode :=
| Empty
| Leaf (key value : bytes)
| Extension (key : bytes) (child : Hash)
| Branch (children : list (option Hash)) (value : option bytes).

#[export] Instance TrieNode_eq_dec : EqDecision TrieNode.
Proof. solve_decision. Defined.

Inductive TrieError :=
| NodeNotFound (hash : Hash)
| InvalidNodeEncoding
| InvalidProof
| TrieStorage
| Serialization
| KeyNotFound.

Section trie.
Context `{B : Blake3} `{BN : Borsh TrieNode} {C : Type -> Type -> Type} `{LC : LruCache C}.
Context {Database : Type} `{RK : RocksDB Database}.

Record Trie := mkTrie {
  root : Hash;
  cache : C Hash TrieNode;
  dirty : gmap Hash TrieNode;
}.

Definition with_trie_root (h : Hash) (t : Trie) : Trie := mkTrie h (cache t) (dirty t).
Definition with_cache (c : C Hash TrieNode) (t : Trie) : Trie := mkTrie (root t) c (dirty t).
Definition with_dirty (d : gmap Hash TrieNode) (t : Trie) : Trie := mkTrie (root t) (cache t) d.

Definition TRIE_CACHE_SIZE : nat := 100 * 100.

Definition new : Trie := mkTrie Hash_ZERO (lru_new TRIE_CACHE_SIZE) ∅.
Definition with_root (r : Hash) : Trie := with_trie_root r new.

(** ** Nodes *)

Definition is_empty_node (n : TrieNode) : bool := match n with Empty => true | _ => false end.

(** [TrieNode::hash] *)
Definition node_hash (n : TrieNode) : Hash :=
  if is_empty_node n then Hash_ZERO else blake3 (to_vec n).

(** [TrieNode::leaf] and [TrieNode::extension] store [key.to_nibbles()]. *)
Definition leaf (key : NibbleSlice.t) (value : bytes) : option TrieNode :=
  k ← to_nibbles key; Some (Leaf k value).
Definition extension (key : NibbleSlice.t) (child : Hash) : option TrieNode :=
  k ← to_nibbles key; Some (Extension k child).

Definition child_count (children : list (option Hash)) : nat :=
  length (filter (fun c => is_Some c) children).

(** ** Node access *)

Definition get_node (db : Database) (hash : Hash) : ST Trie TrieError TrieNode := fun t =>
  if decide (hash = Hash_ZERO) then (Ok Empty, t) else
  match dirty t !! hash with
  | Some node => (Ok node, t)
  | None =>
    let (hit, c) := lru_get hash (cache t) in
    let t := with_cache c t in
    match hit with
    | Some node => (Ok node, t)
    | None =>
      match db_get db STATE hash with
      | None => (Err (NodeNotFound hash), t)
      | Some bs =>
        match from_slice bs with
        | None => (Err Serialization, t)
        | Some node => (Ok node, with_cache (lru_put hash node (cache t)) t)
        end
      end
    end
  end.

Definition store_node (node : TrieNode) : ST Trie TrieError Hash := fun t =>
  let hash := node_hash node in
  if decide (hash = Hash_ZERO) then (Ok hash, t)
  else (Ok hash, with_dirty (<[hash := node]> (dirty t)) t).

(** [children[index]] *)
Definition child_at (children : list (option Hash)) (index : Z) : option (option Hash) :=
  children !! Z.to_nat index.
Definition set_child (children : list (option Hash)) (index : Z) (c : option Hash) : list (option Hash) :=
  <[Z.to_nat index := c]> children.
Definition no_children : list (option Hash) := replicate 16 None.

(** ** Lookup *)

Fixpoint get_at (db : Database) (fuel : nat) (node_hash : Hash) (key : NibbleSlice.t) :
    ST Trie TrieError (option bytes) :=
  match fuel with
  | O => nofuel
  | S fuel =>
    if decide (node_hash = Hash_ZERO) then ret None else
    let! node := get_node db node_hash in
    match node with
    | Empty => ret None
    | Leaf leaf_key value =>
      let! ks := or_panic (to_nibbles key) in
      let! ls := or_panic (to_nibbles (from_nibbles leaf_key)) in
      ret (if decide (ks = ls) then Some value else None)
    | Extension ext_key child =>
      let ext_nibbles := from_nibbles ext_key in
      let! starts := or_panic (starts_with key ext_nibbles) in
      if starts : bool then
        let! remaining := or_panic (offset key (len ext_nibbles)) in
        get_at db fuel child remaining
      else ret None
    | Branch children value =>
      if is_empty key then ret value else
      let! index := or_panic (at_ key 0) in
      let! c := or_panic (child_at children index) in
      match c with
      | Some child_hash =>
        let! remaining := or_panic (offset key 1) in
        get_at db fuel child_hash remaining
      | None => ret None
      end
    end
  end.

Definition key_fuel (key : NibbleSlice.t) : nat := S (len key).

Definition get (db : Database) (key : bytes) : ST Trie TrieError (option bytes) :=
  let! r := gets root in
  if decide (r = Hash_ZERO) then ret None else
  let nibbles := from_bytes key in
  get_at db (key_fuel nibbles) r nibbles.

Definition contains (db : Database) (key : bytes) : ST Trie TrieError bool :=
  let! v := get db key in ret (bool_decide (is_Some v)).

(** ** Insertion *)

(** A leaf for the rest of a key below a branch; the source writes the empty
    rest as [NibbleSlice::from_nibbles(&[])]. *)
Definition rest_leaf (rest : NibbleSlice.t) (value : bytes) : option TrieNode :=
  if is_empty rest then leaf (from_nibbles []) value else leaf rest value.

(** The end of a split: the branch, under an extension for the common prefix. *)
Definition store_split (key : NibbleSlice.t) (common_len : nat) (children : list (option Hash))
    (branch_value : option bytes) : ST Trie TrieError Hash :=
  let! branch_hash := store_node (Branch children branch_value) in
  if (0 <? common_len)%nat then
    let! p := or_panic (prefix key common_len) in
    let! ext := or_panic (extension p branch_hash) in
    store_node ext
  else ret branch_hash.

(** The [TrieNode::Leaf] arm of [insert_at], keys different. *)
Definition insert_split_leaf (key : NibbleSlice.t) (value : bytes) (leaf_nibbles : NibbleSlice.t)
    (leaf_value : bytes) : ST Trie TrieError Hash :=
  let! common_len := or_panic (common_prefix_len key leaf_nibbles) in
  let! children :=
    (if (common_len <? len leaf_nibbles)%nat then
       let! old_nibble := or_panic (at_ leaf_nibbles common_len) in
       let! old_remaining := or_panic (offset leaf_nibbles (common_len + 1)) in
       let! old_leaf := or_panic (rest_leaf old_remaining leaf_value) in
       let! h := store_node old_leaf in
       ret (set_child no_children old_nibble (Some h))
     else ret no_children) in
  if (common_len <? len key)%nat then
    let! new_nibble := or_panic (at_ key common_len) in
    let! new_remaining := or_panic (offset key (common_len + 1)) in
    let! new_leaf := or_panic (rest_leaf new_remaining value) in
    let! h := store_node new_leaf in
    store_split key common_len (set_child children new_nibble (Some h)) None
  else store_split key common_len children (Some value).

(** The [TrieNode::Extension] arm of [insert_at], key leaving the extension. *)
Definition insert_split_ext (key : NibbleSlice.t) (value : bytes) (ext_nibbles : NibbleSlice.t)
    (child : Hash) (common_len : nat) : ST Trie TrieError Hash :=
  let! old_remaining := or_panic (offset ext_nibbles (common_len + 1)) in
  let! old_nibble := or_panic (at_ ext_nibbles common_len) in
  let! children :=
    (if is_empty old_remaining then ret (set_child no_children old_nibble (Some child))
     else
       let! old_ext := or_panic (extension old_remaining child) in
       let! h := store_node old_ext in
       ret (set_child no_children old_nibble (Some h))) in
  if (common_len <? len key)%nat then
    let! new_nibble := or_panic (at_ key common_len) in
    let! new_remaining := or_panic (offset key (common_len + 1)) in
    let! new_leaf := or_panic (leaf new_remaining value) in
    let! h := store_node new_leaf in
    store_split key common_len (set_child children new_nibble (Some h)) None
  else store_split key common_len children (Some value).

Fixpoint insert_at (db : Database) (fuel : nat) (node_hash : Hash) (key : NibbleSlice.t)
    (value : bytes) : ST Trie TrieError Hash :=
  match fuel with
  | O => nofuel
  | S fuel =>
    if decide (node_hash = Hash_ZERO) then
      let! node := or_panic (leaf key value) in store_node node
    else
    let! node := get_node db node_hash in
    match node with
    | Empty => let! node := or_panic (leaf key value) in store_node node
    | Leaf leaf_key leaf_value =>
      let leaf_nibbles := from_nibbles leaf_key in
      let! ks := or_panic (to_nibbles key) in
      let! ls := or_panic (to_nibbles leaf_nibbles) in
      if decide (ks = ls) then
        let! node := or_panic (leaf key value) in store_node node
      else insert_split_leaf key value leaf_nibbles leaf_value
    | Extension ext_key child =>
      let ext_nibbles := from_nibbles ext_key in
      let! common_len := or_panic (common_prefix_len key ext_nibbles) in
      if (common_len =? len ext_nibbles)%nat then
        let! remaining := or_panic (offset key common_len) in
        let! new_child := insert_at db fuel child remaining value in
        let! new_ext := or_panic (extension ext_nibbles new_child) in
        store_node new_ext
      else insert_split_ext key value ext_nibbles child common_len
    | Branch children branch_value =>
      if is_empty key then store_node (Branch children (Some value)) else
      let! nibble := or_panic (at_ key 0) in
      let! remaining := or_panic (offset key 1) in
      let! c := or_panic (child_at children nibble) in
      let child_hash := default Hash_ZERO c in
      let! new_child := insert_at db fuel child_hash remaining value in
      store_node (Branch (set_child children nibble (Some new_child)) branch_value)
    end
  end.

Definition insert (db : Database) (key value : bytes) : ST Trie TrieError unit :=
  let nibbles := from_bytes key in
  let! r := gets root in
  let! new_root := insert_at db (key_fuel nibbles) r nibbles value in
  modify (with_trie_root new_root).

(** ** Deletion *)

Definition maybe_collapse_branch (db : Database) (children : list (option Hash))
    (value : option bytes) : ST Trie TrieError Hash :=
  let n := child_count children in
  match n, value with
  | O, Some v => let! l := or_panic (leaf (from_nibbles []) v) in store_node l
  | O, None => ret Hash_ZERO
  | 1%nat, None =>
    match list_find (fun c => is_Some c) children with
    | Some (i, Some child_hash) =>
      let nibble := wrap 8 (Z.of_nat i) in
      let! child_node := get_node db child_hash in
      match child_node with
      | Extension key child =>
        let! ext := or_panic (extension (from_nibbles (nibble :: key)) child) in store_node ext
      | Leaf key v =>
        let! l := or_panic (leaf (from_nibbles (nibble :: key)) v) in store_node l
      | _ =>
        let! ext := or_panic (extension (from_nibbles [nibble]) child_hash) in store_node ext
      end
    | _ => panic
    end
  | _, _ => store_node (Branch children value)
  end.

(** The extension above a child that a deletion changed. *)
Definition merge_extension (db : Database) (ext_nibbles : NibbleSlice.t) (new_child : Hash) :
    ST Trie TrieError Hash :=
  let! child_node := get_node db new_child in
  match child_node with
  | Extension child_key grandchild =>
    let! a := or_panic (to_nibbles ext_nibbles) in
    let! b := or_panic (to_nibbles (from_nibbles child_key)) in
    let! ext := or_panic (extension (from_nibbles (a ++ b)) grandchild) in store_node ext
  | Leaf child_key v =>
    let! a := or_panic (to_nibbles ext_nibbles) in
    let! b := or_panic (to_nibbles (from_nibbles child_key)) in
    let! l := or_panic (leaf (from_nibbles (a ++ b)) v) in store_node l
  | _ => let! ext := or_panic (extension ext_nibbles new_child) in store_node ext
  end.

Fixpoint delete_at (db : Database) (fuel : nat) (node_hash : Hash) (key : NibbleSlice.t) :
    ST Trie TrieError (option Hash) :=
  match fuel with
  | O => nofuel
  | S fuel =>
    if decide (node_hash = Hash_ZERO) then ret None else
    let! node := get_node db node_hash in
    match node with
    | Empty => ret None
    | Leaf leaf_key _ =>
      let! ks := or_panic (to_nibbles key) in
      let! ls := or_panic (to_nibbles (from_nibbles leaf_key)) in
      ret (if decide (ks = ls) then Some Hash_ZERO else None)
    | Extension ext_key child =>
      let ext_nibbles := from_nibbles ext_key in
      let! starts := or_panic (starts_with key ext_nibbles) in
      if starts : bool then
        let! remaining := or_panic (offset key (len ext_nibbles)) in
        let! r := delete_at db fuel child remaining in
        match r with
        | Some new_child =>
          if decide (new_child = Hash_ZERO) then ret (Some Hash_ZERO)
          else let! h := merge_extension db ext_nibbles new_child in ret (Some h)
        | None => ret None
        end
      else ret None
    | Branch children value =>
      if is_empty key then
        match value with
        | None => ret None
        | Some _ => let! h := maybe_collapse_branch db children None in ret (Some h)
        end
      else
        let! nibble := or_panic (at_ key 0) in
        let! c := or_panic (child_at children nibble) in
        match c with
        | None => ret None
        | Some child =>
          let! remaining := or_panic (offset key 1) in
          let! r := delete_at db fuel child remaining in
          match r with
          | Some new_child =>
            let c' := if decide (new_child = Hash_ZERO) then None else Some new_child in
            let! h := maybe_collapse_branch db (set_child children nibble c') value in
            ret (Some h)
          | None => ret None
          end
        end
    end
  end.

Definition delete (db : Database) (key : bytes) : ST Trie TrieError bool :=
  let! r := gets root in
  if decide (r = Hash_ZERO) then ret false else
  let nibbles := from_bytes key in
  let! o := delete_at db (key_fuel nibbles) r nibbles in
  match o with
  | Some new_root => modify (with_trie_root new_root);; ret true
  | None => ret false
  end.

(** ** Commit *)

(** The dirty nodes go to the database in one batch and into the cache. *)
Definition commit (db : Database) (t : Trie) : Hash * Database * Trie :=
  let dirty_nodes := map_to_list (dirty t) in
  let batch := foldl (fun b e => batch_put b STATE (fst e) (to_vec (snd e))) batch_new dirty_nodes in
  let c := foldl (fun c e => lru_put (fst e) (snd e) c) (cache t) dirty_nodes in
  (root t, write_batch db batch, mkTrie (root t) c ∅).

(** ** All values *)

Fixpoint collect_values (db : Database) (fuel : nat) (node_hash : Hash) (values : list bytes) :
    ST Trie TrieError (list bytes) :=
  match fuel with
  | O => nofuel
  | S fuel =>
    if decide (node_hash = Hash_ZERO) then ret values else
    let! node := get_node db node_hash in
    match node with
    | Empty => ret values
    | Leaf _ value => ret (values ++ [value])
    | Extension _ child => collect_values db fuel child values
    | Branch children value =>
      let values := match value with Some v => values ++ [v] | None => values end in
      foldl (fun acc c =>
               let! vs := acc in
               match c with Some h => collect_values db fuel h vs | None => ret vs end)
            (ret values) children
    end
  end.

Definition values (db : Database) (fuel : nat) : ST Trie TrieError (list bytes) :=
  let! r := gets root in collect_values db fuel r [].

(** ** Merkle proofs *)

Record MerkleProof := mkProof {
  proof_key : bytes;
  proof_value : option bytes;
  proof_nodes : list bytes;
}.

Fixpoint collect_proof (db : Database) (fuel : nat) (node_hash : Hash) (key : NibbleSlice.t)
    (builder : list bytes) : ST Trie TrieError (option bytes * list bytes) :=
  match fuel with
  | O => nofuel
  | S fuel =>
    if decide (node_hash = Hash_ZERO) then ret (None, builder) else
    let! node := get_node db node_hash in
    let builder := builder ++ [to_vec node] in
    match node with
    | Empty => ret (None, builder)
    | Leaf leaf_key value =>
      let! ks := or_panic (to_nibbles key) in
      let! ls := or_panic (to_nibbles (from_nibbles leaf_key)) in
      ret (if decide (ks = ls) then Some value else None, builder)
    | Extension ext_key child =>
      let ext_nibbles := from_nibbles ext_key in
      let! starts := or_panic (starts_with key ext_nibbles) in
      if starts : bool then
        let! remaining := or_panic (offset key (len ext_nibbles)) in
        collect_proof db fuel child remaining builder
      else ret (None, builder)
    | Branch children value =>
      if is_empty key then ret (value, builder) else
      let! index := or_panic (at_ key 0) in
      let! c := or_panic (child_at children index) in
      match c with
      | Some child_hash =>
        let! remaining := or_panic (offset key 1) in
        collect_proof db fuel child_hash remaining builder
      | None => ret (None, builder)
      end
    end
  end.

Definition get_proof (db : Database) (key : bytes) : ST Trie TrieError MerkleProof :=
  let nibbles := from_bytes key in
  let! r := gets root in
  let! '(value, nodes) := collect_proof db (key_fuel nibbles) r nibbles [] in
  ret (mkProof key value nodes).

(** [MerkleProof::verify_path] from node [node_index] on; every call moves to
    the next node, so the number of nodes bounds the recursion. *)
Fixpoint verify_path (p : MerkleProof) (fuel : nat) (expected_hash : Hash) (key : NibbleSlice.t)
    (node_index : nat) : Result TrieError bool :=
  match fuel with
  | O => NoFuel
  | S fuel =>
    match proof_nodes p !! node_index with
    | None => Ok false
    | Some bs =>
      match from_slice bs with
      | None => Err Serialization
      | Some node =>
        if decide (node_hash node = expected_hash) then
          match node with
          | Empty => Ok (bool_decide (proof_value p = None))
          | Leaf leaf_key value =>
            match to_nibbles key, to_nibbles (from_nibbles leaf_key) with
            | Some ks, Some ls =>
              if decide (ks = ls) then Ok (bool_decide (proof_value p = Some value))
              else Ok (bool_decide (proof_value p = None))
            | _, _ => Panic
            end
          | Extension ext_key child =>
            let ext_nibbles := from_nibbles ext_key in
            match starts_with key ext_nibbles with
            | Some true =>
              match offset key (len ext_nibbles) with
              | Some remaining => verify_path p fuel child remaining (S node_index)
              | None => Panic
              end
            | Some false => Ok (bool_decide (proof_value p = None))
            | None => Panic
            end
          | Branch children branch_value =>
            if is_empty key then Ok (bool_decide (proof_value p = branch_value)) else
            match at_ key 0 with
            | None => Panic
            | Some nibble =>
              match child_at children nibble with
              | None => Panic
              | Some None => Ok (bool_decide (proof_value p = None))
              | Some (Some child_hash) =>
                match offset key 1 with
                | Some remaining => verify_path p fuel child_hash remaining (S node_index)
                | None => Panic
                end
              end
            end
          end
        else Ok false
      end
    end
  end.

Definition verify (p : MerkleProof) (root : Hash) : Result TrieError bool :=
  if decide (root = Hash_ZERO) then Ok (bool_decide (proof_value p = None)) else
  if decide (proof_nodes p = []) then Ok false else
  verify_path p (S (length (proof_nodes p))) root (from_bytes (proof_key p)) 0.

End trie.

Arguments Trie C : clear implicits.

(** ** A concrete serialisation of nodes *)

#[export] Instance TrieNode_countable : Countable TrieNode.
Proof.
  refine (inj_countable'
    (fun n => match n with
      | Empty => inl (inl tt)
      | Leaf k v => inl (inr (k, v))
      | Extension k c => inr (inl (k, c))
      | Branch cs v => inr (inr (cs, v))
      end)
    (fun x => match x with
      | inl (inl _) => Empty
      | inl (inr (k, v)) => Leaf k v
      | inr (inl (k, c)) => Extension k c
      | inr (inr (cs, v)) => Branch cs v
      end) _).
  by intros [].
Defined.

Definition node_borsh : Borsh TrieNode := countable_borsh TrieNode.

Lemma node_borsh_ok : @BorshOk TrieNode node_borsh.
Proof. apply countable_borsh_ok. Qed.
