(* ===== verification/TrieTree.v ===== *)
(** * Reference trees

    The specification side of the trie: finite trees with the node kinds of
    qfc-trie, their lookup, their normal form [wf n] for keys of [n] nibbles,
    their node hashes computed bottom-up, and two facts about them: a normal
    tree is determined by its lookups, and by its hash. *)

From S2P Require Import Prelude Externals Nibbles Trie.

(** ** Trees *)

Inductive tree :=
| TLeaf (k : list Z) (v : bytes)
| TExt (k : list Z) (t : tree)
| TBranch (cs : list (option tree)).

Definition is_branch (t : tree) : Prop := match t with TBranch _ => True | _ => False end.

Fixpoint tlook (t : tree) (key : list Z) {struct t} : option bytes :=
  match t with
  | TLeaf k v => if decide (key = k) then Some v else None
  | TExt k t => if decide (k `prefix_of` key) then tlook t (drop (length k) key) else None
  | TBranch cs =>
    match key with
    | [] => None
    | x :: key' =>
      (fix go (cs : list (option tree)) (n : nat) {struct cs} : option bytes :=
         match cs, n with
         | [], _ => None
         | None :: _, O => None
         | Some t :: _, O => tlook t key'
         | _ :: cs', S n => go cs' n
         end) cs (Z.to_nat x)
    end
  end.

(** Lookup of the rest of a key in an optional child. *)
Definition clook (o : option (option tree)) (key : list Z) : option bytes :=
  match o with Some (Some t) => tlook t key | _ => None end.
Definition olook (o : option tree) (key : list Z) : option bytes :=
  match o with Some t => tlook t key | None => None end.

Definition count (cs : list (option tree)) : nat := length (filter is_Some cs).

(** Normal form for keys of [n] nibbles: no value inside a branch, at least two
    children in a branch, and an extension always above a branch. *)
Inductive wf : nat -> tree -> Prop :=
| wf_leaf k v : nibs k -> wf (length k) (TLeaf k v)
| wf_ext m k t : nibs k -> k <> [] -> is_branch t -> wf m t -> wf (length k + m) (TExt k t)
| wf_branch n cs :
    length cs = 16%nat ->
    (forall i t, cs !! i = Some (Some t) -> wf n t) ->
    (2 <= count cs)%nat ->
    wf (S n) (TBranch cs).

Inductive subtree : tree -> tree -> Prop :=
| sub_refl t : subtree t t
| sub_ext s k t : subtree s t -> subtree s (TExt k t)
| sub_branch s cs i t : cs !! i = Some (Some t) -> subtree s t -> subtree s (TBranch cs).

(** [k] put in front of a tree: what the collapse and merge steps build. *)
Definition tcons (k : list Z) (t : tree) : tree :=
  match t with
  | TLeaf k' v => TLeaf (k ++ k') v
  | TExt k' u => TExt (k ++ k') u
  | TBranch _ => TExt k t
  end.
Definition tprefix (k : list Z) (t : tree) : tree :=
  match k with [] => t | _ => tcons k t end.

(** The values of a tree with their keys, in key order. *)
Fixpoint telems (t : tree) : list (list Z * bytes) :=
  match t with
  | TLeaf k v => [(k, v)]
  | TExt k t => prod_map (app k) id <$> telems t
  | TBranch cs =>
    (fix go (i : nat) (cs : list (option tree)) : list (list Z * bytes) :=
       match cs with
       | [] => []
       | None :: cs' => go (S i) cs'
       | Some t :: cs' => (prod_map (cons (Z.of_nat i)) id <$> telems t) ++ go (S i) cs'
       end) O cs
  end.

Definition none16 : list (option tree) := replicate 16 None.

Section hashes.
Context `{B : Blake3} `{BN : Borsh TrieNode}.

Fixpoint node_of (t : tree) : TrieNode :=
  match t with
  | TLeaf k v => Leaf k v
  | TExt k t => Extension k (blake3 (to_vec (node_of t)))
  | TBranch cs =>
    Branch (map (fun o => match o with Some t => Some (blake3 (to_vec (node_of t))) | None => None end) cs) None
  end.
Definition thash (t : tree) : Hash := blake3 (to_vec (node_of t)).
Definition ohash (o : option tree) : Hash := match o with Some t => thash t | None => Hash_ZERO end.

End hashes.

(** ** Lookup *)

Section lookup.

Lemma tlook_branch cs x key : tlook (TBranch cs) (x :: key) = clook (cs !! Z.to_nat x) key.
Proof.
  simpl. generalize (Z.to_nat x). induction cs as [|o cs IH]; intros [|n]; simpl; try done.
  destruct o; apply IH.
Qed.

Lemma tlook_ext_app k t key : tlook (TExt k t) (k ++ key) = tlook t key.
Proof. simpl. rewrite decide_True by apply prefix_app_r, reflexivity. by rewrite drop_app_length. Qed.

Lemma prefix_app_inv (k1 k2 key : list Z) :
  k1 ++ k2 `prefix_of` key <-> k1 `prefix_of` key /\ k2 `prefix_of` drop (length k1) key.
Proof.
  split.
  - intros [r ->]. rewrite <- (assoc_L app). rewrite drop_app_length. split; eexists; done.
  - intros [[r ->] [r' Hr]]. rewrite drop_app_length in Hr. subst. exists r'. by rewrite (assoc_L app).
Qed.

(** Putting [k] in front of a tree is prefixing all its keys. *)
Lemma tlook_tcons k t key :
  tlook (tcons k t) key = if decide (k `prefix_of` key) then tlook t (drop (length k) key) else None.
Proof.
  destruct t as [k' v|k' u|cs]; simpl; [| |done].
  - destruct (decide (k `prefix_of` key)) as [[r ->]|Hn].
    + rewrite drop_app_length. apply decide_ext.
      split; [by intros ?%app_inv_head|by intros ->].
    + rewrite decide_False; [done|]. intros ->. by apply Hn, prefix_app_r.
  - destruct (decide (k `prefix_of` key)) as [Hp|Hn].
    + rewrite length_app, <- drop_drop. apply decide_ext.
      rewrite prefix_app_inv. tauto.
    + rewrite decide_False; [done|]. rewrite prefix_app_inv. tauto.
Qed.

Lemma tlook_tprefix k t key :
  tlook (tprefix k t) key = if decide (k `prefix_of` key) then tlook t (drop (length k) key) else None.
Proof.
  destruct k as [|x k]; [|apply tlook_tcons]. cbn [tprefix length].
  rewrite decide_True by apply prefix_nil. by rewrite drop_0.
Qed.
End lookup.

(** ** Normal form *)

Section normal_form.

Lemma wf_tcons m k t : nibs k -> k <> [] -> wf m t -> wf (length k + m) (tcons k t).
Proof.
  intros Hk Hne Ht. destruct Ht as [k' v Hk'|m k' t Hk' Hne' Hb Ht|n cs Hl Hc Hn]; simpl.
  - rewrite <- length_app. constructor. by apply Forall_app.
  - rewrite Nat.add_assoc, <- length_app. constructor; [by apply Forall_app| |done..].
    by destruct k.
  - by constructor; [..|constructor].
Qed.

Lemma wf_tprefix m k t : nibs k -> wf m t -> wf (length k + m) (tprefix k t).
Proof. destruct k as [|x k]; [done|]. intros. by apply wf_tcons. Qed.

Lemma wf_lookup_length n t key v : wf n t -> tlook t key = Some v -> length key = n.
Proof.
  intros Ht. revert key. induction Ht as [k w Hk|m k t Hk Hne Hb Ht IH|n cs Hl Hc IH Hn]; intros key.
  - simpl. case_decide; naive_solver.
  - simpl. case_decide as Hp; [|done]. destruct Hp as [r ->]. rewrite drop_app_length.
    intros ?%IH. rewrite length_app. lia.
  - destruct key as [|x key]; [done|]. rewrite tlook_branch. unfold clook.
    destruct (cs !! Z.to_nat x) as [[t|]|] eqn:E; try done. intros H. simpl. by erewrite IH.
Qed.

(** Two children of a branch that has at least two. *)
Lemma count_two cs : (2 <= count cs)%nat ->
  exists i j s t, i <> j /\ cs !! i = Some (Some s) /\ cs !! j = Some (Some t).
Proof.
  assert (Hone : forall cs, (1 <= count cs)%nat -> exists i t, cs !! i = Some (Some t)).
  { induction cs0 as [|[t|] cs0 IH]; unfold count in *; simpl; intros; [lia|by exists O, t|].
    destruct IH as (i & t & ?); [done|]. by exists (S i), t. }
  induction cs as [|[t|] cs IH]; unfold count in *; simpl; intros Hn; [lia| |].
  - destruct (Hone cs) as (i & s & ?); [unfold count; lia|]. by exists O, (S i), t, s.
  - destruct IH as (i & j & s & t & ? & ? & ?); [done|]. exists (S i), (S j), s, t. by split_and!; [lia|..].
Qed.

Lemma nib_nat i : (i < 16)%nat -> is_nib (Z.of_nat i) /\ Z.to_nat (Z.of_nat i) = i.
Proof. unfold is_nib. lia. Qed.

(** Every normal tree holds a key. *)
Lemma wf_inhabited n t : wf n t -> exists key v, nibs key /\ tlook t key = Some v.
Proof.
  induction 1 as [k w Hk|m k t Hk Hne Hb Ht (key & v & Hkey & Hv)|n cs Hl Hc IH Hn].
  - exists k, w. simpl. by rewrite decide_True.
  - exists (k ++ key), v. rewrite tlook_ext_app. split; [by apply Forall_app|done].
  - destruct (count_two cs Hn) as (i & _ & t & _ & _ & Hi & _).
    destruct (IH i t Hi) as (key & v & Hkey & Hv).
    destruct (nib_nat i) as [Hi1 Hi2]; [rewrite <- Hl; by eapply lookup_lt_Some|].
    exists (Z.of_nat i :: key), v. rewrite tlook_branch, Hi2, Hi. split; [by constructor|done].
Qed.

(** A branch holds two keys that differ in their first nibble. *)
Lemma wf_branch_two n t : wf n t -> is_branch t ->
  exists x a v y b w, x <> y /\ nibs (x :: a) /\ nibs (y :: b) /\
    tlook t (x :: a) = Some v /\ tlook t (y :: b) = Some w.
Proof.
  destruct 1 as [| |n cs Hl Hc Hn]; try done. intros _.
  destruct (count_two cs Hn) as (i & j & s & t & Hij & Hi & Hj).
  destruct (wf_inhabited n s) as (a & v & Ha & Hv); [eauto|].
  destruct (wf_inhabited n t) as (b & w & Hb & Hw); [eauto|].
  destruct (nib_nat i) as [Hi1 Hi2]; [rewrite <- Hl; by eapply lookup_lt_Some|].
  destruct (nib_nat j) as [Hj1 Hj2]; [rewrite <- Hl; by eapply lookup_lt_Some|].
  exists (Z.of_nat i), a, v, (Z.of_nat j), b, w. rewrite !tlook_branch, Hi2, Hj2, Hi, Hj.
  split_and!; [lia|by constructor|by constructor|done|done].
Qed.
End normal_form.

(** ** A normal tree is determined by its lookups *)

Section uniqueness.

Definition same_lookups (t1 t2 : tree) : Prop := forall key, nibs key -> tlook t1 key = tlook t2 key.

Lemma same_lookups_sym t1 t2 : same_lookups t1 t2 -> same_lookups t2 t1.
Proof. intros H key Hk. by rewrite H. Qed.

(** The keys under an extension start with it. *)
Lemma tlook_ext_Some k t key v :
  tlook (TExt k t) key = Some v -> exists r, key = k ++ r /\ tlook t r = Some v.
Proof.
  simpl. case_decide as Hp; [|done]. destruct Hp as [r ->]. rewrite drop_app_length. eauto.
Qed.

Lemma leaf_not_two k v t x a w y b w' :
  same_lookups (TLeaf k v) t -> x <> y -> nibs (x :: a) -> nibs (y :: b) -> forall c,
  nibs c -> tlook t (c ++ x :: a) = Some w -> tlook t (c ++ y :: b) = Some w' -> False.
Proof.
  intros Hs Hxy Hx Hy c Hc. rewrite <- !Hs by (by apply Forall_app). simpl.
  case_decide as H1; [|done]. case_decide as H2; [|done]. intros _ _.
  rewrite <- H2 in H1. apply app_inv_head in H1. congruence.
Qed.

Lemma ext_not_branch k u n t : k <> [] -> same_lookups (TExt k u) t -> wf n t -> is_branch t -> False.
Proof.
  intros Hne Hs Ht Hb.
  destruct (wf_branch_two n t) as (x & a & v & y & b & w & Hxy & Hx & Hy & H1 & H2); [done..|].
  rewrite <- Hs in H1, H2 by done.
  apply tlook_ext_Some in H1 as (r1 & H1 & _). apply tlook_ext_Some in H2 as (r2 & H2 & _).
  destruct k as [|z k]; [done|]. simplify_eq/=.
Qed.

(** Two extensions with the same lookups have the same key. *)
Lemma ext_key_le n m k1 k2 t1 t2 :
  nibs k1 -> wf n t1 -> is_branch t1 -> wf m t2 ->
  same_lookups (TExt k1 t1) (TExt k2 t2) -> k2 `prefix_of` k1.
Proof.
  intros Hk1 Ht1 Hb Ht2 Hs.
  destruct (wf_branch_two n t1) as (x & a & v & y & b & w & Hxy & Hx & Hy & H1 & H2); [done..|].
  rewrite <- (tlook_ext_app k1) in H1, H2. rewrite Hs in H1, H2 by (by apply Forall_app).
  apply tlook_ext_Some in H1 as (r1 & H1 & _). apply tlook_ext_Some in H2 as (r2 & H2 & _).
  destruct (decide (length k2 <= length k1)%nat) as [Hle|Hgt].
  - exists (drop (length k2) k1). apply (f_equal (take (length k2))) in H1.
    rewrite take_app_le, take_app_length in H1 by done. by rewrite <- H1 at 1; rewrite take_drop.
  - apply (f_equal (take (S (length k1)))) in H1, H2.
    rewrite (take_app_le k2) in H1, H2 by lia.
    rewrite <- H2, !take_app_ge in H1 by lia.
    replace (S (length k1) - length k1)%nat with 1%nat in H1 by lia.
    apply app_inv_head in H1. by simplify_eq/=.
Qed.

Lemma leaf_unique k v n t : nibs k -> wf n t -> same_lookups (TLeaf k v) t -> t = TLeaf k v.
Proof.
  intros Hk Ht Hs. destruct Ht as [k2 v2 Hk2|m2 k2 u2 Hk2 Hne2 Hb2 Hu2|n2 cs2 Hl2 Hc2 Hn2].
  - pose proof (Hs k Hk) as E. simpl in E. rewrite decide_True in E by done.
    case_decide; naive_solver.
  - destruct (wf_branch_two m2 u2) as (x & a & v' & y & b & w' & Hxy & ? & ? & E1 & E2); [done..|].
    rewrite <- (tlook_ext_app k2) in E1, E2. exfalso. by apply (leaf_not_two k v _ x a v' y b w' Hs Hxy) with (c := k2).
  - destruct (wf_branch_two (S n2) (TBranch cs2)) as (x & a & v' & y & b & w' & Hxy & ? & ? & E1 & E2);
      [by constructor|done|].
    exfalso. by apply (leaf_not_two k v _ x a v' y b w' Hs Hxy) with (c := []).
Qed.

Lemma children_unique n cs cs2 :
  length cs = 16%nat -> length cs2 = 16%nat ->
  (forall i t, cs !! i = Some (Some t) -> wf n t) ->
  (forall i t, cs2 !! i = Some (Some t) -> wf n t) ->
  (forall i t t2, cs !! i = Some (Some t) -> wf n t2 -> same_lookups t t2 -> t = t2) ->
  same_lookups (TBranch cs) (TBranch cs2) -> cs = cs2.
Proof.
  intros Hl Hl2 Hc Hc2 IH Hs. apply list_eq. intros i.
  destruct (decide (i < 16)%nat) as [Hi|]; [|rewrite !lookup_ge_None_2 by lia; done].
  destruct (nib_nat i Hi) as [Hi1 Hi2].
  assert (Hlook : forall key, nibs key -> clook (cs !! i) key = clook (cs2 !! i) key).
  { intros key Hkey. specialize (Hs (Z.of_nat i :: key)). rewrite !tlook_branch, Hi2 in Hs.
    apply Hs. by constructor. }
  destruct (lookup_lt_is_Some_2 cs i) as [o Ho]; [lia|].
  destruct (lookup_lt_is_Some_2 cs2 i) as [o2 Ho2]; [lia|].
  rewrite Ho, Ho2 in Hlook |- *. f_equal.
  destruct o as [s|], o2 as [s2|]; [|..|done].
  - f_equal. eapply IH; eauto.
  - destruct (wf_inhabited n s) as (key & v & Hkey & Hv); [eauto|].
    specialize (Hlook key Hkey). simpl in Hlook. congruence.
  - destruct (wf_inhabited n s2) as (key & v & Hkey & Hv); [eauto|].
    specialize (Hlook key Hkey). simpl in Hlook. congruence.
Qed.

Lemma wf_unique n t1 t2 : wf n t1 -> wf n t2 -> same_lookups t1 t2 -> t1 = t2.
Proof.
  intros H1. revert t2.
  induction H1 as [k v Hk|m k t Hk Hne Hb Ht IH|n cs Hl Hc IH Hn]; intros t2 H2 Hs.
  - symmetry. by eapply leaf_unique.
  - inversion H2 as [k2 v2 Hk2 Heq|m2 k2 u2 Hk2 Hne2 Hb2 Hu2 Heq|n2 cs2 Hl2 Hc2 Hn2 Heq]; subst.
    + eapply leaf_unique; [done| |by apply same_lookups_sym]. by constructor.
    + assert (k = k2) as <-.
      { apply (anti_symm prefix); [eapply (ext_key_le m2 m k2 k)|eapply (ext_key_le m m2 k k2)];
          eauto using same_lookups_sym. }
      f_equal. apply IH; [by replace m with m2 by lia|].
      intros key Hkey. specialize (Hs (k ++ key)). rewrite !tlook_ext_app in Hs.
      apply Hs. by apply Forall_app.
    + exfalso. by eapply (ext_not_branch k t _ _ Hne Hs H2).
  - inversion H2 as [k2 v2 Hk2 Heq|m2 k2 u2 Hk2 Hne2 Hb2 Hu2 Heq|n2 cs2 Hl2 Hc2 Hn2 Heq]; subst.
    + eapply (leaf_unique _ _ (S n)); [done|by constructor|by apply same_lookups_sym].
    + exfalso. eapply (ext_not_branch k2 u2 (S n) (TBranch cs)); [done| |by constructor|done].
      by apply same_lookups_sym.
    + f_equal. eapply (children_unique n); eauto.
Qed.
End uniqueness.

(** ** A normal tree is determined by its hash *)

Section hash_injective.
Context `{B : Blake3} {BC : CollisionFree B} `{BN : Borsh TrieNode} {BNok : BorshOk TrieNode}.

Lemma node_of_not_empty t : node_of t <> Empty.
Proof. by destruct t. Qed.

Lemma node_hash_of t : node_hash (node_of t) = thash t.
Proof. by destruct t. Qed.

Lemma thash_nonzero t : thash t <> Hash_ZERO.
Proof. apply blake3_nonzero. Qed.

Lemma node_hash_inj n1 n2 : node_hash n1 = node_hash n2 -> n1 = n2.
Proof.
  unfold node_hash. destruct (is_empty_node n1) eqn:E1, (is_empty_node n2) eqn:E2; intros H.
  - by destruct n1, n2.
  - symmetry in H. by apply blake3_nonzero in H.
  - by apply blake3_nonzero in H.
  - by apply to_vec_inj, blake3_inj.
Qed.

Lemma node_of_branch cs : node_of (TBranch cs) = Branch (fmap (M:=list) (fmap thash) cs) None.
Proof. simpl. f_equal. Qed.

Lemma thash_inj n t1 t2 : wf n t1 -> thash t1 = thash t2 -> t1 = t2.
Proof.
  intros H1. revert t2. induction H1 as [k v Hk|m k t Hk Hne Hb Ht IH|n cs Hl Hc IH Hn];
    intros t2; rewrite <- !node_hash_of; intros H%node_hash_inj.
  - destruct t2; simplify_eq/=; done.
  - destruct t2; simplify_eq/=. f_equal. by apply IH.
  - destruct t2 as [| |cs2]; try done. rewrite !node_of_branch in H. injection H as H. f_equal.
    apply list_eq. intros i. apply (f_equal (.!! i)) in H. rewrite !list_lookup_fmap in H.
    destruct (cs !! i) as [[s|]|] eqn:E1, (cs2 !! i) as [[s2|]|] eqn:E2; simplify_eq/=; try done.
    do 2 f_equal. by eapply IH.
Qed.
End hash_injective.

(** ** Building trees *)

Section building.

Definition b2n (o : option tree) : nat := match o with Some _ => 1 | None => 0 end.

Lemma count_cons o cs : count (o :: cs) = (b2n o + count cs)%nat.
Proof. by destruct o. Qed.

Lemma count_insert cs i o o' :
  cs !! i = Some o -> (count (<[i := o']> cs) + b2n o = count cs + b2n o')%nat.
Proof.
  revert i. induction cs as [|c cs IH]; intros [|i] H; try done.
  - injection H as ->. change (<[O:=o']> (o :: cs)) with (o' :: cs). rewrite !count_cons. lia.
  - specialize (IH _ H). change (<[S i:=o']> (c :: cs)) with (c :: <[i:=o']> cs).
    rewrite !count_cons. lia.
Qed.

Lemma count_le_insert cs i t : (i < length cs)%nat -> (count cs <= count (<[i := Some t]> cs))%nat.
Proof.
  intros [o Ho]%lookup_lt_is_Some_2. pose proof (count_insert cs i o (Some t) Ho).
  destruct o; simpl in *; lia.
Qed.

(** A branch with the two children [a] under [x] and [b] under [y]. *)
Definition two (x : Z) (a : tree) (y : Z) (b : tree) : list (option tree) :=
  <[Z.to_nat x := Some a]> (<[Z.to_nat y := Some b]> none16).

Lemma two_lookup x a y b z :
  is_nib x -> is_nib y -> is_nib z ->
  two x a y b !! Z.to_nat z =
    Some (if decide (z = x) then Some a else if decide (z = y) then Some b else None).
Proof.
  unfold is_nib, two. intros ???. repeat case_decide; subst.
  - rewrite list_lookup_insert_eq; [done|]. rewrite length_insert. simpl. lia.
  - rewrite list_lookup_insert_ne, list_lookup_insert_eq by (simpl; lia). done.
  - rewrite !list_lookup_insert_ne by lia. apply lookup_replicate_2. lia.
Qed.

Lemma two_children x a y b i t :
  two x a y b !! i = Some (Some t) -> t = a \/ t = b.
Proof.
  unfold two. rewrite list_lookup_insert_Some. intros [(_ & [= ->] & _)|[_ H]]; [by left|].
  rewrite list_lookup_insert_Some in H. destruct H as [(_ & [= ->] & _)|[_ H]]; [by right|].
  by apply lookup_replicate in H as [??].
Qed.

Lemma wf_two m x a y b :
  is_nib x -> is_nib y -> x <> y -> wf m a -> wf m b -> wf (S m) (TBranch (two x a y b)).
Proof.
  intros Hx Hy Hxy Ha Hb. constructor.
  - unfold two. by rewrite !length_insert.
  - by intros i t [-> | ->]%two_children.
  - unfold two, is_nib in *.
    assert (none16 !! Z.to_nat y = Some None) as E1 by (apply lookup_replicate_2; lia).
    pose proof (count_insert none16 (Z.to_nat y) None (Some b) E1) as E2.
    assert (<[Z.to_nat y := Some b]> none16 !! Z.to_nat x = Some None) as E3
      by (rewrite list_lookup_insert_ne by lia; apply lookup_replicate_2; lia).
    pose proof (count_insert _ (Z.to_nat x) None (Some a) E3) as E4. simpl in *. lia.
Qed.

(** Splitting: below the common prefix [c], a leaf for the new key
    [c ++ x :: ra] next to the old tree, whose keys start with [c ++ [y]]. *)
Lemma split_wf c x ra v y b :
  nibs c -> nibs (x :: ra) -> is_nib y -> x <> y -> wf (length ra) b ->
  wf (length (c ++ x :: ra)) (tprefix c (TBranch (two x (TLeaf ra v) y b))).
Proof.
  intros Hc [Hx Hra]%Forall_cons Hy Hxy Hb. rewrite length_app. apply wf_tprefix; [done|].
  apply wf_two; try done. by constructor.
Qed.

Lemma split_lookup c x ra v y b key :
  is_nib x -> is_nib y -> x <> y -> nibs key ->
  tlook (tprefix c (TBranch (two x (TLeaf ra v) y b))) key =
    if decide (key = c ++ x :: ra) then Some v else tlook (tcons (c ++ [y]) b) key.
Proof.
  intros Hx Hy Hxy Hkey. rewrite tlook_tprefix, tlook_tcons.
  destruct (decide (c `prefix_of` key)) as [[r ->]|Hn].
  - rewrite drop_app_length. apply Forall_app in Hkey as [_ Hr]. destruct r as [|z r].
    + simpl. rewrite decide_False by (intros ?%app_inv_head; done).
      rewrite decide_False; [done|]. intros ?%prefix_app_inv.
      rewrite drop_app_length in *. by destruct H as [_ ?%prefix_nil_not].
    + apply Forall_cons in Hr as [Hz _]. rewrite tlook_branch, two_lookup by done. simpl.
      destruct (decide (z = x)) as [->|Hzx].
      * cbn [clook tlook]. destruct (decide (r = ra)) as [->|Hra]; [by rewrite decide_True|].
        rewrite decide_False by (intros ?%app_inv_head; congruence).
        rewrite decide_False; [done|]. rewrite prefix_app_inv, drop_app_length.
        by intros [_ ?%prefix_cons_inv_1].
      * destruct (decide (c ++ z :: r = c ++ x :: ra)) as [?%app_inv_head|_]; [congruence|].
        destruct (decide (z = y)) as [->|Hzy].
        -- rewrite decide_True.
           2:{ rewrite prefix_app_inv, drop_app_length. split; [by apply prefix_app_r|].
               apply prefix_cons, prefix_nil. }
           cbn [clook]. rewrite length_app, <- drop_drop, drop_app_length. done.
        -- rewrite decide_False; [done|]. rewrite prefix_app_inv, drop_app_length.
           by intros [_ ?%prefix_cons_inv_1].
  - rewrite decide_False by (intros ->; by apply Hn, prefix_app_r).
    rewrite decide_False; [done|]. rewrite prefix_app_inv. tauto.
Qed.
End building.
