(* ===== verification/TrieTheory.v ===== *)
(** * Theory of the trie operations

    Each operation of Trie.v is related to the trees of TrieTree.v it reads
    and builds: [stored] says that every node of a tree can be read from the
    dirty set or the database. The public statements are about
    [trie_maps L db tr m]: the trie [tr] over [db] holds exactly the finite map
    [m] from keys of [L] bytes to values. *)

From S2P Require Import Prelude Externals Nibbles Storage Trie TrieTree.
Import NibbleSlice.

Section defs.
Context `{B : Blake3} `{BN : Borsh TrieNode}.
Context {C : Type -> Type -> Type} `{LC : LruCache C} `{LS : !LruSpec C}.
Context {Database : Type} `{RK : RocksDB Database}.

(** Every cached and every dirty node sits under its own hash. *)
Definition tr_ok (tr : Trie C) : Prop :=
  (forall h n, lru_view (cache tr) h = Some n -> node_hash n = h) /\
  (forall h n, dirty tr !! h = Some n -> node_hash n = h).

Definition db_node (db : Database) (h : Hash) : option TrieNode := db_get db STATE h ≫= from_slice.

Definition avail (db : Database) (tr : Trie C) (n : TrieNode) : Prop :=
  dirty tr !! node_hash n = Some n \/ db_node db (node_hash n) = Some n.

Definition stored (db : Database) (tr : Trie C) (t : tree) : Prop :=
  forall s, subtree s t -> avail db tr (node_of s).

(** What a call may do to the trie: keep the root and every node. *)
Definition grows (db : Database) (tr tr' : Trie C) : Prop :=
  tr_ok tr' /\ root tr' = root tr /\ forall n, avail db tr n -> avail db tr' n.

(** Keys of [L] bytes, and the finite map a trie holds. *)
Definition key_ok (L : nat) (k : bytes) : Prop := bytes_ok k /\ length k = L.

#[export] Instance key_ok_dec L k : Decision (key_ok L k).
Proof. unfold key_ok. apply _. Defined.

Definition owf (n : nat) (o : option tree) : Prop := match o with Some t => wf n t | None => True end.
Definition ostored (db : Database) (tr : Trie C) (o : option tree) : Prop :=
  match o with Some t => stored db tr t | None => True end.

Definition holds (L : nat) (o : option tree) (m : gmap bytes bytes) : Prop :=
  owf (L * 2) o /\
  (forall k, key_ok L k -> olook o (nibs_of_bytes k) = m !! k) /\
  (forall k, is_Some (m !! k) -> key_ok L k).

Definition trie_maps (L : nat) (db : Database) (tr : Trie C) (m : gmap bytes bytes) : Prop :=
  tr_ok tr /\ exists o, root tr = ohash o /\ ostored db tr o /\ holds L o m.
End defs.

Section ops.
Context `{B : Blake3} {BC : CollisionFree B} `{BN : Borsh TrieNode} {BNok : BorshOk TrieNode}.
Context {C : Type -> Type -> Type} `{LC : LruCache C} `{LS : !LruSpec C}.
Context {Database : Type} `{RK : RocksDB Database} {RKok : RocksOk Database}.
Context (db : Database).

Implicit Types (tr : Trie C) (t : tree).

(** ** Nodes that can be read *)

Lemma grows_refl tr : tr_ok tr -> grows db tr tr.
Proof. unfold grows. auto. Qed.

Lemma grows_trans tr1 tr2 tr3 : grows db tr1 tr2 -> grows db tr2 tr3 -> grows db tr1 tr3.
Proof. intros (_ & E1 & H1) (? & E2 & H2). unfold grows. split_and!; [done|congruence|auto]. Qed.

Lemma grows_ok tr tr' : grows db tr tr' -> tr_ok tr'.
Proof. by intros (? & _). Qed.

Lemma stored_grows tr tr' t : grows db tr tr' -> stored db tr t -> stored db tr' t.
Proof. intros (_ & _ & H) Hs s Hsub. auto. Qed.

Lemma stored_node tr t : stored db tr t -> avail db tr (node_of t).
Proof. intros H. apply H. constructor. Qed.

Lemma stored_ext tr k t : stored db tr (TExt k t) -> stored db tr t.
Proof. intros H s Hs. apply H. by constructor. Qed.

Lemma stored_child tr cs i t : cs !! i = Some (Some t) -> stored db tr (TBranch cs) -> stored db tr t.
Proof. intros Hi H s Hs. apply H. by econstructor. Qed.

Lemma stored_leaf_intro tr k v : avail db tr (node_of (TLeaf k v)) -> stored db tr (TLeaf k v).
Proof. intros H s Hs. by inversion Hs; subst. Qed.

Lemma stored_ext_intro tr k t :
  avail db tr (node_of (TExt k t)) -> stored db tr t -> stored db tr (TExt k t).
Proof. intros H Ht s Hs. inversion Hs; subst; auto. Qed.

Lemma stored_branch_intro tr cs :
  avail db tr (node_of (TBranch cs)) -> (forall i t, cs !! i = Some (Some t) -> stored db tr t) ->
  stored db tr (TBranch cs).
Proof. intros H Ht s Hs. inversion Hs; subst; [auto|]. by eapply Ht. Qed.

Lemma stored_tcons tr k t :
  avail db tr (node_of (tcons k t)) -> stored db tr t -> stored db tr (tcons k t).
Proof.
  destruct t; simpl; intros ??.
  - by apply stored_leaf_intro.
  - apply stored_ext_intro; [done|]. by eapply stored_ext.
  - by apply stored_ext_intro.
Qed.

(** Reading an available node returns it and keeps the trie. *)
Lemma get_node_spec tr n :
  tr_ok tr -> avail db tr n -> n <> Empty ->
  exists tr', get_node db (node_hash n) tr = (Ok n, tr') /\ grows db tr tr'.
Proof.
  intros [Hc Hd] Ha Hne. unfold get_node.
  rewrite decide_False.
  2:{ intros E. apply Hne. by apply node_hash_inj. }
  destruct (dirty tr !! node_hash n) as [n'|] eqn:Ed.
  { assert (n' = n) as -> by (by apply node_hash_inj, Hd). exists tr. split; [done|by apply grows_refl]. }
  pose proof (lru_get_result (cache tr) (node_hash n)) as Hres.
  pose proof (lru_get_view (cache tr) (node_hash n)) as Hview.
  destruct (lru_get (node_hash n) (cache tr)) as [hit c]. simpl in Hres, Hview. subst hit.
  destruct Ha as [Ha|Ha]; [congruence|]. unfold db_node in Ha.
  destruct (lru_view (cache tr) (node_hash n)) as [n'|] eqn:Ev.
  { assert (n' = n) as -> by (by apply node_hash_inj, Hc). eexists; split; [done|].
    split; [split|done]; simpl; [|done]. intros h m. rewrite Hview. apply Hc. }
  destruct (db_get db STATE (node_hash n)) as [bs|]; [|done]. simpl in Ha. rewrite Ha.
  eexists; split; [done|]. split; [split|done]; simpl; [|done].
  intros h m Hm. destruct (decide (h = node_hash n)) as [->|Hh].
  - rewrite lru_put_eq in Hm. congruence.
  - apply lru_put_ne in Hm; [|done]. rewrite Hview in Hm. by apply Hc.
Qed.

Lemma get_tree_spec tr t :
  tr_ok tr -> stored db tr t ->
  exists tr', get_node db (thash t) tr = (Ok (node_of t), tr') /\ grows db tr tr'.
Proof.
  intros Htr Hs. rewrite <- node_hash_of.
  apply get_node_spec; [done|by apply stored_node|apply node_of_not_empty].
Qed.

Lemma store_node_spec tr t :
  tr_ok tr ->
  exists tr', store_node (node_of t) tr = (Ok (thash t), tr') /\ grows db tr tr' /\
    avail db tr' (node_of t).
Proof.
  intros [Hc Hd]. unfold store_node. rewrite node_hash_of, decide_False by apply thash_nonzero.
  eexists; split; [done|]. split; [split; [split|split; [done|]]|]; simpl.
  - done.
  - intros h n. rewrite lookup_insert_Some. intros [[<- <-]|[_ ?]]; [by rewrite node_hash_of|auto].
  - intros n [Hn|Hn]; [|by right]. left. simpl.
    destruct (decide (node_hash n = thash t)) as [E|E].
    + rewrite E, lookup_insert_eq. f_equal. apply node_hash_inj. by rewrite node_hash_of.
    + by rewrite lookup_insert_ne.
  - left. simpl. by rewrite node_hash_of, lookup_insert_eq.
Qed.

(** ** Reading slices and children *)

Abbreviation hashes := (fmap (M:=list) (fmap (M:=option) thash)).

Lemma leaf_spec key ks v : repr key ks -> leaf key v = Some (node_of (TLeaf ks v)).
Proof. intros H. unfold leaf. by rewrite (repr_to_nibbles _ _ H). Qed.

Lemma rest_leaf_spec key ks v : repr key ks -> rest_leaf key v = Some (node_of (TLeaf ks v)).
Proof.
  intros H. unfold rest_leaf. rewrite (repr_is_empty _ _ H). case_bool_decide as E.
  - subst. apply leaf_spec, repr_from_nibbles. constructor.
  - by apply leaf_spec.
Qed.

Lemma extension_spec key ks t : repr key ks -> extension key (thash t) = Some (node_of (TExt ks t)).
Proof. intros H. unfold extension. by rewrite (repr_to_nibbles _ _ H). Qed.

Lemma child_at_spec cs x : length cs = 16%nat -> is_nib x ->
  exists o, cs !! Z.to_nat x = Some o /\ child_at (hashes cs) x = Some (thash <$> o).
Proof.
  unfold is_nib. intros Hl Hx.
  destruct (lookup_lt_is_Some_2 cs (Z.to_nat x)) as [o Ho]; [lia|].
  exists o. split; [done|]. unfold child_at. by rewrite list_lookup_fmap, Ho.
Qed.

Lemma set_child_spec cs x o : set_child (hashes cs) x (thash <$> o) = hashes (<[Z.to_nat x := o]> cs).
Proof. unfold set_child. by rewrite list_fmap_insert. Qed.

Lemma set_child_some cs x t : set_child (hashes cs) x (Some (thash t)) = hashes (<[Z.to_nat x := Some t]> cs).
Proof. apply (set_child_spec cs x (Some t)). Qed.

(** A slice with a first nibble: [at(0)] and [offset(1)]. *)
Lemma repr_uncons key x ks : repr key (x :: ks) ->
  is_nib x /\ is_empty key = false /\ at_ key 0 = Some x /\
  exists key', offset key 1 = Some key' /\ repr key' ks.
Proof.
  intros Hr. split_and!.
  - by eapply Forall_inv, repr_nibs.
  - by rewrite (repr_is_empty _ _ Hr).
  - by apply (repr_at _ _ 0 x Hr).
  - destruct (repr_offset key (x :: ks) 1 Hr) as (key' & ? & ?); [simpl; lia|]. by exists key'.
Qed.

(** A slice at a split point: [at(p)] and [offset(p + 1)]. *)
Lemma repr_split key c x r : repr key (c ++ x :: r) ->
  (length c < len key)%nat /\ is_nib x /\ nibs c /\ nibs r /\ at_ key (length c) = Some x /\
  (exists key', offset key (length c + 1) = Some key' /\ repr key' r) /\
  exists key', prefix key (length c) = Some key' /\ repr key' c.
Proof.
  intros Hr. pose proof (repr_nibs _ _ Hr) as [Hc [Hx Hn]%Forall_cons]%Forall_app.
  rewrite (repr_len _ _ Hr), length_app. simpl. split_and!; [lia|done|done|done| | |].
  - apply (repr_at _ _ _ _ Hr). by rewrite list_lookup_middle.
  - destruct (repr_offset key (c ++ x :: r) (length c + 1) Hr) as (key' & E & Hr');
      [rewrite length_app; simpl; lia|].
    exists key'. split; [done|]. by rewrite <- drop_drop, drop_app_length in Hr'.
  - destruct (repr_prefix key (c ++ x :: r) (length c) Hr) as (key' & E & Hr');
      [rewrite length_app; lia|].
    exists key'. split; [done|]. by rewrite take_app_length in Hr'.
Qed.
(** ** Lookup *)

Lemma get_at_spec n t : wf n t -> forall fuel key ks tr,
  (n < fuel)%nat -> repr key ks -> length ks = n -> tr_ok tr -> stored db tr t ->
  exists tr', get_at db fuel (thash t) key tr = (Ok (tlook t ks), tr') /\ grows db tr tr'.
Proof.
  induction 1 as [k v Hk|m k t Hk Hne Hb Ht IH|n cs Hl Hc IH Hn]; intros fuel key ks tr Hf Hr Hks Htr Hs;
    (destruct fuel as [|fuel]; [lia|]); cbn [get_at]; rewrite decide_False by apply thash_nonzero;
    destruct (get_tree_spec tr _ Htr Hs) as (tr1 & E & G); rewrite (bind_ok _ _ _ _ _ E);
    pose proof (stored_grows _ _ _ G Hs) as Hs1; pose proof (grows_ok _ _ G) as Htr1.
  - cbn [node_of]. rewrite (bind_or_panic _ _ _ _ (repr_to_nibbles _ _ Hr)).
    rewrite (bind_or_panic _ _ _ _ (repr_to_nibbles _ _ (repr_from_nibbles k Hk))). by exists tr1.
  - cbn [node_of].
    rewrite (bind_or_panic _ _ _ _ (repr_starts_with _ _ _ _ Hr (repr_from_nibbles k Hk))).
    cbn [tlook]. destruct (decide (k `prefix_of` ks)) as [Hp|Hp].
    + rewrite bool_decide_eq_true_2 by done. rewrite (repr_len _ _ (repr_from_nibbles k Hk)).
      destruct (repr_offset key ks (length k) Hr) as (key' & Eo & Hr'); [by apply prefix_length|].
      rewrite (bind_or_panic _ _ _ _ Eo).
      destruct (IH fuel key' (drop (length k) ks) tr1) as (tr2 & E2 & G2); [|done| |done|..].
      * destruct k; [done|simpl in Hf; lia].
      * rewrite length_drop. lia.
      * by eapply stored_ext.
      * exists tr2. split; [done|by eapply grows_trans].
    + rewrite bool_decide_eq_false_2 by done. by exists tr1.
  - rewrite node_of_branch. destruct ks as [|x ks]; [done|].
    destruct (repr_uncons _ _ _ Hr) as (Hx & -> & Ex & key' & Eo & Hr').
    rewrite (bind_or_panic _ _ _ _ Ex). rewrite tlook_branch.
    destruct (child_at_spec cs x Hl Hx) as (o & Ho & Ec).
    rewrite (bind_or_panic _ _ _ _ Ec), Ho. destruct o as [u|]; simpl; [|by exists tr1].
    rewrite (bind_or_panic _ _ _ _ Eo).
    destruct (IH _ _ Ho fuel key' ks tr1) as (tr2 & E2 & G2); [lia|done|by injection Hks|done| |].
    + by eapply stored_child.
    + exists tr2. split; [done|by eapply grows_trans].
Qed.

(** ** Insertion *)

(** The outcome of an operation that builds the tree [t] from [tr]. *)
Definition builds (tr : Trie C) (r : Result TrieError Hash * Trie C) (t : tree) : Prop :=
  exists tr', r = (Ok (thash t), tr') /\ grows db tr tr' /\ stored db tr' t.

Lemma builds_leaf tr k v : tr_ok tr -> builds tr (store_node (node_of (TLeaf k v)) tr) (TLeaf k v).
Proof.
  intros Htr. destruct (store_node_spec tr (TLeaf k v) Htr) as (tr' & E & G & A).
  exists tr'. split_and!; [done|done|by apply stored_leaf_intro].
Qed.

Lemma builds_ext tr k t :
  tr_ok tr -> stored db tr t -> builds tr (store_node (node_of (TExt k t)) tr) (TExt k t).
Proof.
  intros Htr Hs. destruct (store_node_spec tr (TExt k t) Htr) as (tr' & E & G & A).
  exists tr'. split_and!; [done|done|]. apply stored_ext_intro; [done|by eapply stored_grows].
Qed.

Lemma builds_branch tr cs :
  tr_ok tr -> (forall i t, cs !! i = Some (Some t) -> stored db tr t) ->
  builds tr (store_node (Branch (hashes cs) None) tr) (TBranch cs).
Proof.
  intros Htr Hs. rewrite <- node_of_branch.
  destruct (store_node_spec tr (TBranch cs) Htr) as (tr' & E & G & A).
  exists tr'. split_and!; [done|done|]. apply stored_branch_intro; [done|].
  intros i t Hi. eapply stored_grows; eauto.
Qed.

Lemma builds_after tr tr1 r t : grows db tr tr1 -> builds tr1 r t -> builds tr r t.
Proof. intros G (tr' & E & G' & Hs). exists tr'. split_and!; [done|by eapply grows_trans|done]. Qed.

Lemma store_split_spec tr key c x r cs :
  repr key (c ++ x :: r) -> tr_ok tr -> (forall i t, cs !! i = Some (Some t) -> stored db tr t) ->
  builds tr (store_split key (length c) (hashes cs) None tr) (tprefix c (TBranch cs)).
Proof.
  intros Hr Htr Hs. unfold store_split.
  destruct (builds_branch tr cs Htr Hs) as (tr1 & E & G & Hst). rewrite (bind_ok _ _ _ _ _ E).
  destruct (repr_split _ _ _ _ Hr) as (_ & _ & _ & _ & _ & _ & (key' & Ep & Hr')).
  destruct c as [|y c]; [by exists tr1|]. cbn [Nat.ltb Nat.leb length tprefix tcons].
  rewrite (bind_or_panic _ _ _ _ Ep), (bind_or_panic _ _ _ _ (extension_spec _ _ _ Hr')).
  eapply builds_after, builds_ext; [done|by apply grows_ok in G|done].
Qed.

Lemma stored_two tr x a y b :
  stored db tr a -> stored db tr b ->
  forall i t, two x a y b !! i = Some (Some t) -> stored db tr t.
Proof. by intros ?? i t [-> | ->]%two_children. Qed.

Lemma insert_split_leaf_spec tr key lkey c x ra v y rb lv :
  repr key (c ++ x :: ra) -> repr lkey (c ++ y :: rb) -> x <> y -> tr_ok tr ->
  builds tr (insert_split_leaf key v lkey lv tr)
    (tprefix c (TBranch (two x (TLeaf ra v) y (TLeaf rb lv)))).
Proof.
  intros Hr Hl Hxy Htr. unfold insert_split_leaf.
  assert (lcp (c ++ x :: ra) (c ++ y :: rb) = length c) as Hlcp.
  { rewrite lcp_app. simpl. rewrite decide_False by done. lia. }
  rewrite (bind_or_panic _ _ _ _ (repr_common_prefix_len _ _ _ _ Hr Hl)), Hlcp.
  destruct (repr_split _ _ _ _ Hl) as (Hlt & Hy & _ & _ & Ey & (ly & Eoy & Hry) & _).
  destruct (repr_split _ _ _ _ Hr) as (Hlt' & Hx & _ & _ & Ex & (kx & Eox & Hrx) & _).
  rewrite (proj2 (Nat.ltb_lt _ _) Hlt), (proj2 (Nat.ltb_lt _ _) Hlt').
  destruct (builds_leaf tr rb lv Htr) as (tr1 & E1 & G1 & S1).
  erewrite bind_ok; [|].
  2:{ rewrite (bind_or_panic _ _ _ _ Ey), (bind_or_panic _ _ _ _ Eoy).
      rewrite (bind_or_panic _ _ _ _ (rest_leaf_spec _ _ _ Hry)), (bind_ok _ _ _ _ _ E1). done. }
  rewrite (bind_or_panic _ _ _ _ Ex), (bind_or_panic _ _ _ _ Eox).
  rewrite (bind_or_panic _ _ _ _ (rest_leaf_spec _ _ _ Hrx)).
  destruct (builds_leaf tr1 ra v (grows_ok _ _ G1)) as (tr2 & E2 & G2 & S2).
  rewrite (bind_ok _ _ _ _ _ E2). change no_children with (hashes none16). rewrite !set_child_some.
  eapply builds_after; [by eapply grows_trans|].
  eapply store_split_spec; [done|by apply grows_ok in G2|].
  apply stored_two; [done|by eapply stored_grows].
Qed.

Lemma insert_split_ext_spec tr key ekey c x ra v y rb t :
  repr key (c ++ x :: ra) -> repr ekey (c ++ y :: rb) -> is_branch t -> tr_ok tr -> stored db tr t ->
  builds tr (insert_split_ext key v ekey (thash t) (length c) tr)
    (tprefix c (TBranch (two x (TLeaf ra v) y (tprefix rb t)))).
Proof.
  intros Hr Hl Hb Htr Hs. unfold insert_split_ext.
  destruct (repr_split _ _ _ _ Hl) as (_ & Hy & _ & _ & Ey & (ly & Eoy & Hry) & _).
  destruct (repr_split _ _ _ _ Hr) as (Hlt' & Hx & _ & _ & Ex & (kx & Eox & Hrx) & _).
  rewrite (bind_or_panic _ _ _ _ Eoy), (bind_or_panic _ _ _ _ Ey).
  assert (exists tr1, grows db tr tr1 /\ stored db tr1 (tprefix rb t) /\
    (if is_empty ly then ret (set_child no_children y (Some (thash t)))
     else let! old_ext := or_panic (extension ly (thash t)) in
          let! h := store_node old_ext in ret (set_child no_children y (Some h))) tr
    = (Ok (hashes (<[Z.to_nat y := Some (tprefix rb t)]> none16)) : Result TrieError _, tr1))
    as (tr1 & G1 & S1 & E1).
  { rewrite (repr_is_empty _ _ Hry). change no_children with (hashes none16).
    destruct rb as [|z rb]; [rewrite bool_decide_eq_true_2 by done|rewrite bool_decide_eq_false_2 by done].
    - exists tr. split_and!; [by apply grows_refl|done|]. by rewrite set_child_some.
    - rewrite (bind_or_panic _ _ _ _ (extension_spec _ _ _ Hry)).
      destruct (builds_ext tr (z :: rb) t Htr Hs) as (tr1 & E & G & S).
      rewrite (bind_ok _ _ _ _ _ E), set_child_some. destruct t; try done. by exists tr1. }
  rewrite (bind_ok _ _ _ _ _ E1). rewrite (proj2 (Nat.ltb_lt _ _) Hlt').
  rewrite (bind_or_panic _ _ _ _ Ex), (bind_or_panic _ _ _ _ Eox).
  rewrite (bind_or_panic _ _ _ _ (leaf_spec _ _ _ Hrx)).
  destruct (builds_leaf tr1 ra v (grows_ok _ _ G1)) as (tr2 & E2 & G2 & S2).
  rewrite (bind_ok _ _ _ _ _ E2), set_child_some.
  eapply builds_after; [by eapply grows_trans|].
  eapply store_split_spec; [done|by apply grows_ok in G2|].
  apply stored_two; [done|by eapply stored_grows].
Qed.

(** [t'] is [t] with the key [ks] bound to [v]. *)
Definition inserted (n : nat) (t : tree) (ks : list Z) (v : bytes) (t' : tree) : Prop :=
  wf n t' /\ (is_branch t -> is_branch t') /\
  forall ks', nibs ks' -> tlook t' ks' = if decide (ks' = ks) then Some v else tlook t ks'.

Lemma insert_at_zero fuel key ks v tr :
  (0 < fuel)%nat -> repr key ks -> tr_ok tr ->
  builds tr (insert_at db fuel Hash_ZERO key v tr) (TLeaf ks v).
Proof.
  intros Hf Hr Htr. destruct fuel; [lia|]. cbn [insert_at]. rewrite decide_True by done.
  rewrite (bind_or_panic _ _ _ _ (leaf_spec _ _ _ Hr)). by apply builds_leaf.
Qed.

Lemma inserted_ext m k t ks v t' :
  nibs k -> k <> [] -> is_branch t -> inserted m t ks v t' ->
  inserted (length k + m) (TExt k t) (k ++ ks) v (TExt k t').
Proof.
  intros Hk Hne Hb (Hw & Hb' & Hl). split_and!; [by constructor; auto|done|].
  intros ks' Hn. cbn [tlook]. case_decide as Hp.
  - destruct Hp as [r ->]. rewrite drop_app_length. apply Forall_app in Hn as [_ Hn].
    rewrite Hl by done. apply decide_ext. split; [by intros ->|by intros ?%app_inv_head].
  - rewrite decide_False; [done|]. intros ->. by apply Hp, prefix_app_r.
Qed.

Lemma inserted_branch n cs x ks v t' :
  is_nib x -> wf (S n) (TBranch cs) -> wf n t' ->
  (forall ks', nibs ks' ->
     tlook t' ks' = if decide (ks' = ks) then Some v else clook (cs !! Z.to_nat x) ks') ->
  inserted (S n) (TBranch cs) (x :: ks) v (TBranch (<[Z.to_nat x := Some t']> cs)).
Proof.
  intros Hx Hw Hw' Hl. inversion Hw as [| |? ? Hlen Hc Hcount]; subst. unfold is_nib in Hx.
  split_and!; [|done|].
  - constructor; [by rewrite length_insert| |].
    + intros i t. rewrite list_lookup_insert_Some. intros [(_ & [= ->] & _)|[_ Hi]]; eauto.
    + pose proof (count_le_insert cs (Z.to_nat x) t'). lia.
  - intros [|y ks'] Hn; [done|]. rewrite !tlook_branch. apply Forall_cons in Hn as [Hy Hn].
    unfold is_nib in Hy. destruct (decide (y = x)) as [->|Hxy].
    + rewrite list_lookup_insert_eq by lia. cbn [clook]. rewrite Hl by done.
      apply decide_ext. split; [by intros ->|by intros [= ->]].
    + rewrite list_lookup_insert_ne by lia. rewrite decide_False; [done|by intros [= -> _]].
Qed.

Lemma inserted_split n c x ra v y b :
  nibs (c ++ x :: ra) -> is_nib y -> x <> y -> wf (length ra) b ->
  n = length (c ++ x :: ra) -> ~ is_branch (tcons (c ++ [y]) b) ->
  inserted n (tcons (c ++ [y]) b) (c ++ x :: ra) v (tprefix c (TBranch (two x (TLeaf ra v) y b))).
Proof.
  intros [Hc Hx]%Forall_app Hy Hxy Hb -> Hnb. split_and!; [by apply split_wf|done|].
  intros ks' Hn. apply Forall_cons in Hx as [Hx _]. by apply split_lookup.
Qed.

Lemma insert_leaf_case k lv key ks v tr :
  nibs k -> repr key ks -> length ks = length k -> tr_ok tr ->
  exists t', builds tr
    ((let! ks1 := or_panic (to_nibbles key) in
      let! ls := or_panic (to_nibbles (from_nibbles k)) in
      if decide (ks1 = ls) then let! node := or_panic (leaf key v) in store_node node
      else insert_split_leaf key v (from_nibbles k) lv) tr) t' /\
    inserted (length k) (TLeaf k lv) ks v t'.
Proof.
  intros Hk Hr Hks Htr. pose proof (repr_from_nibbles k Hk) as Hrk.
  rewrite (bind_or_panic _ _ _ _ (repr_to_nibbles _ _ Hr)).
  rewrite (bind_or_panic _ _ _ _ (repr_to_nibbles _ _ Hrk)).
  case_decide as E.
  - subst. exists (TLeaf k v). rewrite (bind_or_panic _ _ _ _ (leaf_spec _ _ _ Hr)).
    split; [by apply builds_leaf|]. split_and!; [by constructor|done|].
    intros ks' _. simpl. by case_decide.
  - destruct (lcp_diverge ks k) as (c & x & ra & y & rb & -> & -> & Hxy & _); [lia| |].
    { intros [r ->]. rewrite length_app in Hks. destruct r; [|simpl in Hks; lia].
      by rewrite app_nil_r in E. }
    eexists. split; [by apply insert_split_leaf_spec|].
    apply Forall_app in Hk as [? [? ?]%Forall_cons].
    replace (c ++ y :: rb) with ((c ++ [y]) ++ rb) by (by rewrite <- (assoc_L app)).
    apply (inserted_split _ c x ra v y (TLeaf rb lv)); try done; [by eapply repr_nibs| | |by intros []].
    + replace (length ra) with (length rb); [by constructor|].
      rewrite !length_app in Hks. simpl in Hks. lia.
    + rewrite !length_app in Hks. rewrite !length_app. simpl in *. lia.
Qed.

Lemma insert_ext_diverge m k t key ks v tr :
  nibs k -> is_branch t -> wf m t -> repr key ks -> length ks = (length k + m)%nat ->
  ~ k `prefix_of` ks -> tr_ok tr -> stored db tr t ->
  exists t', builds tr (insert_split_ext key v (from_nibbles k) (thash t) (lcp ks k) tr) t' /\
    inserted (length k + m) (TExt k t) ks v t'.
Proof.
  intros Hk Hb Ht Hr Hks Hp Htr Hs. pose proof (repr_from_nibbles k Hk) as Hrk.
  destruct (lcp_diverge ks k) as (c & x & ra & y & rb & -> & -> & Hxy & ->); [lia|done|].
  rewrite !length_app in *. simpl in *.
  assert (TExt (c ++ y :: rb) t = tcons (c ++ [y]) (tprefix rb t)) as ->.
  { destruct rb, t; try done; simpl; by rewrite <- (assoc_L app). }
  apply Forall_app in Hk as [Hkc [Hky Hkb]%Forall_cons].
  eexists. split; [by apply insert_split_ext_spec|].
  apply inserted_split; try done; [by eapply repr_nibs| | |by destruct rb, t; intros []].
  - replace (length ra) with (length rb + m)%nat by lia. by apply wf_tprefix.
  - rewrite length_app. simpl. lia.
Qed.

Lemma insert_at_spec n t : wf n t -> forall fuel key ks v tr,
  (n < fuel)%nat -> repr key ks -> length ks = n -> tr_ok tr -> stored db tr t ->
  exists t', builds tr (insert_at db fuel (thash t) key v tr) t' /\ inserted n t ks v t'.
Proof.
  induction 1 as [k lv Hk|m k t Hk Hne Hb Ht IH|n cs Hl Hc IH Hn]; intros fuel key ks v tr Hf Hr Hks Htr Hs;
    (destruct fuel as [|fuel]; [lia|]); cbn [insert_at]; rewrite decide_False by apply thash_nonzero;
    destruct (get_tree_spec tr _ Htr Hs) as (tr1 & E & G); rewrite (bind_ok _ _ _ _ _ E);
    pose proof (stored_grows _ _ _ G Hs) as Hs1; pose proof (grows_ok _ _ G) as Htr1.
  - destruct (insert_leaf_case k lv key ks v tr1) as (t' & Hb & Hi); [done..|].
    exists t'. split; [by eapply builds_after|done].
  - cbn [node_of]. pose proof (repr_from_nibbles k Hk) as Hrk.
    rewrite (bind_or_panic _ _ _ _ (repr_common_prefix_len _ _ _ _ Hr Hrk)).
    rewrite (repr_len _ _ Hrk). destruct (Nat.eqb_spec (lcp ks k) (length k)) as [Hp|Hp].
    + rewrite Hp. apply lcp_full in Hp as [r ->].
      destruct (repr_offset key (k ++ r) (length k) Hr) as (key' & Eo & Hr'); [rewrite length_app; lia|].
      rewrite drop_app_length in Hr'. rewrite length_app in Hks.
      rewrite (bind_or_panic _ _ _ _ Eo).
      destruct (IH fuel key' r v tr1) as (t' & (tr2 & E2 & G2 & S2) & Hi); try done; [|lia| |].
      { destruct k; [done|simpl in Hf; lia]. }
      { by eapply stored_ext. }
      rewrite (bind_ok _ _ _ _ _ E2), (bind_or_panic _ _ _ _ (extension_spec _ _ _ Hrk)).
      exists (TExt k t'). split; [|by apply inserted_ext].
      eapply builds_after, builds_ext; [by eapply grows_trans|by apply grows_ok in G2|done].
    + rewrite lcp_full in Hp.
      destruct (insert_ext_diverge m k t key ks v tr1) as (t' & Hb' & Hi); try done; [by eapply stored_ext|].
      exists t'. split; [by eapply builds_after|done].
  - rewrite node_of_branch. destruct ks as [|x ks]; [done|].
    destruct (repr_uncons _ _ _ Hr) as (Hx & -> & Ex & key' & Eo & Hr').
    rewrite (bind_or_panic _ _ _ _ Ex), (bind_or_panic _ _ _ _ Eo).
    destruct (child_at_spec cs x Hl Hx) as (o & Ho & Ec). rewrite (bind_or_panic _ _ _ _ Ec).
    assert (exists t', builds tr1 (insert_at db fuel (default Hash_ZERO (thash <$> o)) key' v tr1) t' /\
      wf n t' /\ forall ks', nibs ks' ->
        tlook t' ks' = if decide (ks' = ks) then Some v else clook (cs !! Z.to_nat x) ks')
      as (t' & (tr2 & E2 & G2 & S2) & Hw' & Hl').
    { rewrite Ho. destruct o as [u|]; simpl.
      - destruct (IH _ _ Ho fuel key' ks v tr1) as (t' & ? & (? & _ & ?)); try done.
        + lia. + by injection Hks. + by eapply stored_child. + by exists t'.
      - exists (TLeaf ks v). injection Hks as <-. split_and!; [|constructor; by eapply repr_nibs|done].
        apply insert_at_zero; [lia|done|done]. }
    rewrite (bind_ok _ _ _ _ _ E2), set_child_some.
    exists (TBranch (<[Z.to_nat x := Some t']> cs)). split.
    + eapply builds_after; [by eapply grows_trans|]. apply builds_branch; [by apply grows_ok in G2|].
      intros i s. rewrite list_lookup_insert_Some. intros [(_ & [= ->] & _)|[_ Hi]]; [done|].
      eapply stored_grows; [done|]. by eapply stored_child.
    + apply inserted_branch; try done. by constructor.
Qed.

(** ** Deletion *)

Lemma builds_tcons tr k t :
  tr_ok tr -> stored db tr t -> builds tr (store_node (node_of (tcons k t)) tr) (tcons k t).
Proof.
  intros Htr Hs. destruct (store_node_spec tr (tcons k t) Htr) as (tr' & E & G & A).
  exists tr'. split_and!; [done|done|]. apply stored_tcons; [done|by eapply stored_grows].
Qed.

(** Reading the node of [t] and storing the node of [tcons k t]. *)
Lemma read_and_cons tr k t n (f : TrieNode -> ST (Trie C) TrieError Hash) :
  nibs k -> wf n t -> tr_ok tr -> stored db tr t ->
  (forall tr1, f (node_of t) tr1 =
     bind (or_panic (Some (node_of (tcons k t)))) store_node tr1) ->
  builds tr (bind (get_node db (thash t)) f tr) (tcons k t).
Proof.
  intros Hk Ht Htr Hs Hf. destruct (get_tree_spec tr t Htr Hs) as (tr1 & E & G).
  rewrite (bind_ok _ _ _ _ _ E), Hf. cbn [or_panic]. rewrite bind_ret.
  eapply builds_after; [done|]. apply builds_tcons; [by apply grows_ok in G|by eapply stored_grows].
Qed.

Lemma wf_node_nibs n t : wf n t ->
  match t with TLeaf k _ | TExt k _ => nibs k | TBranch _ => True end.
Proof. by destruct 1. Qed.

Lemma merge_extension_spec tr e k t n :
  repr e k -> wf n t -> tr_ok tr -> stored db tr t ->
  builds tr (merge_extension db e (thash t) tr) (tcons k t).
Proof.
  intros He Ht Htr Hs. pose proof (repr_nibs _ _ He) as Hk.
  eapply read_and_cons; [done..|]. intros tr1. pose proof (wf_node_nibs _ _ Ht) as Hn.
  destruct t as [k' v|k' u|cs]; cbn [node_of]; [| |by rewrite (extension_spec _ _ _ He)].
  all: rewrite (bind_or_panic _ _ _ _ (repr_to_nibbles _ _ He));
    rewrite (bind_or_panic _ _ _ _ (repr_to_nibbles _ _ (repr_from_nibbles k' Hn)));
    assert (repr (from_nibbles (k ++ k')) (k ++ k')) as Hr
      by (by apply repr_from_nibbles, Forall_app).
  - by rewrite (leaf_spec _ _ _ Hr).
  - fold (thash u). by rewrite (extension_spec _ _ u Hr).
Qed.

Lemma child_count_hashes cs : child_count (hashes cs) = count cs.
Proof.
  induction cs as [|o cs IH]; [done|]. rewrite count_cons, <- IH.
  unfold child_count. by destruct o.
Qed.

Lemma count_zero cs j s : count cs = O -> cs !! j <> Some (Some s).
Proof.
  revert j. induction cs as [|o cs IH]; intros [|j] Hc; try done; rewrite count_cons in Hc.
  - intros [= ->]. done.
  - apply IH. lia.
Qed.

Lemma count_one cs : count cs = 1%nat -> exists i t,
  list_find (fun c => is_Some c) (hashes cs) = Some (i, Some (thash t)) /\
  cs !! i = Some (Some t) /\ forall j s, cs !! j = Some (Some s) -> j = i.
Proof.
  induction cs as [|[t|] cs IH]; intros Hc; [done|rewrite count_cons in Hc..]; simpl in Hc.
  - exists O, t. split_and!; [done|done|]. intros [|j] s H; [done|].
    by apply (count_zero cs j s) in H; [|lia].
  - destruct (IH Hc) as (i & t & Hf & Hi & Hu). exists (S i), t.
    split_and!; [|done|].
    { rewrite fmap_cons. cbn [list_find]. rewrite decide_False by (intros []; done). by rewrite Hf. }
    intros [|j] s H; [done|]. f_equal. by eapply Hu.
Qed.

(** The outcome of an operation that builds an optional tree. *)
Definition obuilds (tr : Trie C) (r : Result TrieError Hash * Trie C) (o : option tree) : Prop :=
  exists tr', r = (Ok (ohash o), tr') /\ grows db tr tr' /\ ostored db tr' o.

Lemma only_child_lookup cs i t key :
  length cs = 16%nat -> cs !! i = Some (Some t) ->
  (forall j s, cs !! j = Some (Some s) -> j = i) -> nibs key ->
  tlook (tcons [Z.of_nat i] t) key = tlook (TBranch cs) key.
Proof.
  intros Hl Hi Hu Hn. rewrite tlook_tcons.
  destruct key as [|x key].
  { rewrite decide_False; [done|]. by intros ?%prefix_nil_not. }
  apply Forall_cons in Hn as [Hx _]. unfold is_nib in Hx. rewrite tlook_branch.
  destruct (decide (Z.of_nat i = x)) as [<-|Hne].
  - rewrite decide_True by (apply prefix_cons, prefix_nil). by rewrite Nat2Z.id, Hi.
  - rewrite decide_False by (by intros ?%prefix_cons_inv_1).
    destruct (cs !! Z.to_nat x) as [[s|]|] eqn:E; try done. apply Hu in E. lia.
Qed.

Lemma collapse_one tr cs i t n :
  length cs = 16%nat -> cs !! i = Some (Some t) -> wf n t -> tr_ok tr -> stored db tr t ->
  count cs = 1%nat -> list_find (fun c => is_Some c) (hashes cs) = Some (i, Some (thash t)) ->
  builds tr (maybe_collapse_branch db (hashes cs) None tr) (tcons [Z.of_nat i] t).
Proof.
  intros Hl Hi Ht Htr Hs Hc Hf. unfold maybe_collapse_branch. rewrite child_count_hashes, Hc, Hf.
  apply lookup_lt_Some in Hi as Hlt. rewrite Hl in Hlt. destruct (nib_nat i Hlt) as [Hnib _].
  rewrite wrap_small by (unfold in_u; lia).
  assert (nibs [Z.of_nat i]) as Hone by (by apply Forall_singleton).
  eapply read_and_cons; [done..|]. intros tr1.
  pose proof (wf_node_nibs _ _ Ht) as Hn. destruct t as [k' v|k' u|cs']; cbn [node_of].
  - by rewrite (leaf_spec _ (Z.of_nat i :: k') v) by (by apply repr_from_nibbles; constructor).
  - fold (thash u).
    by rewrite (extension_spec _ (Z.of_nat i :: k') u) by (by apply repr_from_nibbles; constructor).
  - by rewrite (extension_spec _ [Z.of_nat i]) by (by apply repr_from_nibbles).
Qed.

Lemma collapse_spec tr cs n :
  length cs = 16%nat -> (forall i t, cs !! i = Some (Some t) -> wf n t) ->
  tr_ok tr -> (forall i t, cs !! i = Some (Some t) -> stored db tr t) ->
  exists o, obuilds tr (maybe_collapse_branch db (hashes cs) None tr) o /\ owf (S n) o /\
    forall key, nibs key -> olook o key = tlook (TBranch cs) key.
Proof.
  intros Hl Hw Htr Hs. destruct (count cs) as [|[|c]] eqn:Hc.
  - exists None. unfold maybe_collapse_branch. rewrite child_count_hashes, Hc.
    split_and!; [exists tr; split_and!; [done|by apply grows_refl|done]|done|].
    intros [|x key] _; [done|]. rewrite tlook_branch.
    destruct (cs !! Z.to_nat x) as [[s|]|] eqn:E; try done. by apply count_zero in E.
  - destruct (count_one cs Hc) as (i & t & Hf & Hi & Hu).
    exists (Some (tcons [Z.of_nat i] t)). split_and!.
    + eapply collapse_one; eauto.
    + apply (wf_tcons n [Z.of_nat i] t); [|done|by eapply Hw].
      constructor; [|constructor]. apply nib_nat. rewrite <- Hl. by eapply lookup_lt_Some.
    + intros key Hkey. by apply only_child_lookup.
  - exists (Some (TBranch cs)). unfold maybe_collapse_branch. rewrite child_count_hashes, Hc.
    split_and!; [by apply builds_branch|constructor; [done..|lia]|done].
Qed.

(** [o] is [t] without the key [ks]. *)
Definition removed (n : nat) (t : tree) (ks : list Z) (o : option tree) : Prop :=
  owf n o /\ forall ks', nibs ks' -> olook o ks' = if decide (ks' = ks) then None else tlook t ks'.

(** What [delete_at] does on a tree: nothing when the key is absent. *)
Definition deletes (tr : Trie C) (r : Result TrieError (option Hash) * Trie C) (n : nat) (t : tree)
    (ks : list Z) : Prop :=
  exists tr', grows db tr tr' /\
  ((tlook t ks = None /\ r = (Ok None, tr')) \/
   (is_Some (tlook t ks) /\ exists o, r = (Ok (Some (ohash o)), tr') /\ ostored db tr' o /\
      removed n t ks o)).

Lemma deletes_after tr tr1 r n t ks : grows db tr tr1 -> deletes tr1 r n t ks -> deletes tr r n t ks.
Proof. intros G (tr' & G' & H). exists tr'. split; [by eapply grows_trans|done]. Qed.

Lemma removed_ext m k t ks o :
  nibs k -> k <> [] -> removed m t ks o ->
  removed (length k + m) (TExt k t) (k ++ ks) (tcons k <$> o).
Proof.
  intros Hk Hne [Hw Hl]. split.
  - destruct o; simpl; [|done]. by apply wf_tcons.
  - intros ks' Hn. assert (olook (tcons k <$> o) ks' =
      if decide (k `prefix_of` ks') then olook o (drop (length k) ks') else None) as ->.
    { destruct o; simpl; [apply tlook_tcons|by case_decide]. }
    cbn [tlook]. case_decide as Hp.
    + destruct Hp as [r ->]. rewrite drop_app_length. apply Forall_app in Hn as [_ Hn].
      rewrite Hl by done. apply decide_ext. split; [by intros ->|by intros ?%app_inv_head].
    + by case_decide.
Qed.

Lemma delete_branch_child n cs x ks o tr :
  length cs = 16%nat -> (forall i t, cs !! i = Some (Some t) -> wf n t) -> is_nib x ->
  tr_ok tr -> (forall i t, cs !! i = Some (Some t) -> stored db tr t) -> ostored db tr o -> owf n o ->
  (forall ks', nibs ks' ->
     olook o ks' = if decide (ks' = ks) then None else clook (cs !! Z.to_nat x) ks') ->
  exists o', obuilds tr (maybe_collapse_branch db (hashes (<[Z.to_nat x := o]> cs)) None tr) o' /\
    removed (S n) (TBranch cs) (x :: ks) o'.
Proof.
  intros Hl Hc Hx Htr Hs Hso Hwo Hlo. unfold is_nib in Hx.
  destruct (collapse_spec tr (<[Z.to_nat x := o]> cs) n) as (o' & Hb & Hw & Hl').
  - by rewrite length_insert.
  - intros i t. rewrite list_lookup_insert_Some. intros [(_ & -> & _)|[_ Hi]]; eauto.
  - done.
  - intros i t. rewrite list_lookup_insert_Some. intros [(_ & -> & _)|[_ Hi]]; eauto.
  - exists o'. split; [done|]. split; [done|]. intros ks' Hn. rewrite Hl' by done.
    destruct ks' as [|y ks']; [done|]. rewrite !tlook_branch.
    apply Forall_cons in Hn as [Hy Hn]. unfold is_nib in Hy.
    destruct (decide (y = x)) as [->|Hxy].
    + rewrite list_lookup_insert_eq by lia.
      assert (forall o, clook (Some o) ks' = olook o ks') as -> by (by intros []).
      rewrite Hlo by done. apply decide_ext. split; [by intros ->|by intros [= ->]].
    + rewrite list_lookup_insert_ne by lia. rewrite decide_False; [done|by intros [= -> _]].
Qed.

Lemma ohash_zero o : (if decide (ohash o = Hash_ZERO) then None else Some (ohash o)) = thash <$> o.
Proof. destruct o; simpl; [rewrite decide_False by apply thash_nonzero|]; done. Qed.

(** The extension and branch arms of [delete_at], after the recursive call [r]. *)
Lemma delete_ext_tail m k t ks tr (r : ST (Trie C) TrieError (option Hash)) :
  nibs k -> k <> [] -> deletes tr (r tr) m t ks ->
  deletes tr
    (bind r (fun o => match o with
       | Some new_child =>
         if decide (new_child = Hash_ZERO) then ret (Some Hash_ZERO)
         else let! h := merge_extension db (from_nibbles k) new_child in ret (Some h)
       | None => ret None
       end) tr) (length k + m) (TExt k t) (k ++ ks).
Proof.
  intros Hk Hne (tr2 & G2 & Hd). eapply deletes_after; [exact G2|].
  pose proof (grows_ok _ _ G2) as Htr2. unfold deletes. rewrite tlook_ext_app.
  destruct Hd as [[Hnone E2]|(Hsome & o & E2 & So & Hrem)]; rewrite (bind_ok _ _ _ _ _ E2).
  { exists tr2. split; [by apply grows_refl|by left]. }
  pose proof (removed_ext m k t ks o Hk Hne Hrem) as Hrem'. destruct o as [u|]; simpl.
  - rewrite decide_False by apply thash_nonzero.
    destruct (merge_extension_spec tr2 _ k u m (repr_from_nibbles k Hk) (proj1 Hrem))
      as (tr3 & E3 & G3 & S3); [done..|].
    rewrite (bind_ok _ _ _ _ _ E3). exists tr3. split; [done|right]. split; [done|].
    by exists (Some (tcons k u)).
  - exists tr2. split; [by apply grows_refl|right]. split; [done|]. by exists None.
Qed.

Lemma delete_branch_tail n cs x u ks tr (r : ST (Trie C) TrieError (option Hash)) :
  length cs = 16%nat -> (forall i t, cs !! i = Some (Some t) -> wf n t) -> is_nib x ->
  cs !! Z.to_nat x = Some (Some u) -> stored db tr (TBranch cs) ->
  deletes tr (r tr) n u ks ->
  deletes tr
    (bind r (fun o => match o with
       | Some new_child =>
         let c' := if decide (new_child = Hash_ZERO) then None else Some new_child in
         let! h := maybe_collapse_branch db (set_child (hashes cs) x c') None in ret (Some h)
       | None => ret None
       end) tr) (S n) (TBranch cs) (x :: ks).
Proof.
  intros Hl Hc Hx Hcx Hs (tr2 & G2 & Hd). pose proof (grows_ok _ _ G2) as Htr2.
  unfold deletes. rewrite tlook_branch, Hcx. cbn [clook].
  destruct Hd as [[Hnone E2]|(Hsome & o & E2 & So & Hw & Hlo)]; rewrite (bind_ok _ _ _ _ _ E2).
  { exists tr2. split; [done|by left]. }
  cbn zeta. rewrite ohash_zero, set_child_spec.
  destruct (delete_branch_child n cs x ks o tr2) as (o' & (tr3 & E3 & G3 & S3) & Hrem); try done.
  { intros i s Hi. eapply stored_grows; [done|]. by eapply stored_child. }
  { by rewrite Hcx. }
  rewrite (bind_ok _ _ _ _ _ E3). exists tr3. split; [by eapply grows_trans|right].
  split; [done|]. by exists o'.
Qed.

Lemma delete_at_spec n t : wf n t -> forall fuel key ks tr,
  (n < fuel)%nat -> repr key ks -> length ks = n -> tr_ok tr -> stored db tr t ->
  deletes tr (delete_at db fuel (thash t) key tr) n t ks.
Proof.
  induction 1 as [k lv Hk|m k t Hk Hne Hb Ht IH|n cs Hl Hc IH Hn]; intros fuel key ks tr Hf Hr Hks Htr Hs;
    (destruct fuel as [|fuel]; [lia|]); cbn [delete_at]; rewrite decide_False by apply thash_nonzero;
    destruct (get_tree_spec tr _ Htr Hs) as (tr1 & E & G); rewrite (bind_ok _ _ _ _ _ E);
    pose proof (stored_grows _ _ _ G Hs) as Hs1; pose proof (grows_ok _ _ G) as Htr1;
    (eapply deletes_after; [exact G|]).
  - cbn [node_of]. rewrite (bind_or_panic _ _ _ _ (repr_to_nibbles _ _ Hr)).
    rewrite (bind_or_panic _ _ _ _ (repr_to_nibbles _ _ (repr_from_nibbles k Hk))).
    exists tr1. split; [by apply grows_refl|]. simpl. case_decide as Ek; [right|by left].
    split; [done|]. exists None. split_and!; [done..|]. split; [done|].
    intros ks' _. subst ks. simpl. by case_decide.
  - cbn [node_of]. pose proof (repr_from_nibbles k Hk) as Hrk.
    rewrite (bind_or_panic _ _ _ _ (repr_starts_with _ _ _ _ Hr Hrk)).
    case_bool_decide as Hp.
    2:{ exists tr1. split; [by apply grows_refl|]. left. simpl. by rewrite decide_False. }
    destruct Hp as [r ->]. rewrite (repr_len _ _ Hrk).
    destruct (repr_offset key (k ++ r) (length k) Hr) as (key' & Eo & Hr'); [rewrite length_app; lia|].
    rewrite drop_app_length in Hr'. rewrite length_app in Hks. rewrite (bind_or_panic _ _ _ _ Eo).
    apply delete_ext_tail; [done..|].
    apply IH; [destruct k; [done|simpl in Hf; lia]|done|lia|done|by eapply stored_ext].
  - rewrite node_of_branch. destruct ks as [|x ks]; [done|].
    destruct (repr_uncons _ _ _ Hr) as (Hx & -> & Ex & key' & Eo & Hr').
    rewrite (bind_or_panic _ _ _ _ Ex).
    destruct (child_at_spec cs x Hl Hx) as (c & Hcx & Ec). rewrite (bind_or_panic _ _ _ _ Ec).
    destruct c as [u|]; simpl.
    2:{ exists tr1. split; [by apply grows_refl|]. left. by rewrite tlook_branch, Hcx. }
    rewrite (bind_or_panic _ _ _ _ Eo). injection Hks as Hks.
    eapply delete_branch_tail; [done..|].
    eapply IH; [done|lia|done|done|done|by eapply stored_child].
Qed.
End ops.
