(* ===== verification/TrieMap.v ===== *)
(** * The trie as an authenticated map

    The public contract of qfc-trie, stated through [trie_maps]: for keys of
    one length the operations implement a finite map, over any sequence of
    lookups, insertions, deletions, commits and reopenings; the root hash
    determines the contents and is determined by them; commit makes a trie
    readable from its root hash alone and never damages another one over the
    same database; [values] lists the contents in key order. *)

From S2P Require Import Prelude Externals Nibbles Storage Trie TrieTree TrieTheory.
Import NibbleSlice.

(** ** Sequences of operations *)

Inductive trie_op :=
| OGet (k : bytes)
| OContains (k : bytes)
| OInsert (k v : bytes)
| ODelete (k : bytes)
| OCommit
| OReopen.

Inductive trie_out :=
| RValue (v : option bytes)
| RBool (b : bool)
| RUnit.

Definition op_ok (L : nat) (op : trie_op) : Prop :=
  match op with
  | OGet k | OContains k | OInsert k _ | ODelete k => key_ok L k
  | OCommit | OReopen => True
  end.

#[export] Instance op_ok_dec L op : Decision (op_ok L op).
Proof. destruct op; simpl; apply _. Defined.

(** The specification: a finite map. *)
Definition map_step (op : trie_op) (m : gmap bytes bytes) : trie_out * gmap bytes bytes :=
  match op with
  | OGet k => (RValue (m !! k), m)
  | OContains k => (RBool (bool_decide (is_Some (m !! k))), m)
  | OInsert k v => (RUnit, <[k := v]> m)
  | ODelete k => (RBool (bool_decide (is_Some (m !! k))), base.delete k m)
  | OCommit | OReopen => (RUnit, m)
  end.

Fixpoint map_run (ops : list trie_op) (m : gmap bytes bytes) : list trie_out * gmap bytes bytes :=
  match ops with
  | [] => ([], m)
  | op :: ops' =>
    let (r, m1) := map_step op m in
    let (rs, m2) := map_run ops' m1 in (r :: rs, m2)
  end.

Section runs.
Context `{B : Blake3} `{BN : Borsh TrieNode} {C : Type -> Type -> Type} `{LC : LruCache C}.
Context {Database : Type} `{RK : RocksDB Database}.

Definition out {A} (f : A -> trie_out) (r : Result TrieError A * Trie C) (db : Database) :
    option (trie_out * (Database * Trie C)) :=
  match r with (Ok a, tr) => Some (f a, (db, tr)) | _ => None end.

(** The implementation: [OReopen] commits, drops the handle and opens the
    root again with [Trie::with_root]. *)
Definition trie_step (op : trie_op) (s : Database * Trie C) : option (trie_out * (Database * Trie C)) :=
  let (db, tr) := s in
  match op with
  | OGet k => out RValue (get db k tr) db
  | OContains k => out RBool (contains db k tr) db
  | OInsert k v => out (fun _ => RUnit) (insert db k v tr) db
  | ODelete k => out RBool (delete db k tr) db
  | OCommit => let '(_, db', tr') := commit db tr in Some (RUnit, (db', tr'))
  | OReopen => let '(r, db', _) := commit db tr in Some (RUnit, (db', with_root r))
  end.

Fixpoint trie_run (ops : list trie_op) (s : Database * Trie C) :
    option (list trie_out * (Database * Trie C)) :=
  match ops with
  | [] => Some ([], s)
  | op :: ops' =>
    '(r, s1) ← trie_step op s;
    '(rs, s2) ← trie_run ops' s1;
    Some (r :: rs, s2)
  end.

(** The database [db'] still has every trie node that [db] has. *)
Definition db_grows (db db' : Database) : Prop :=
  forall n, db_node db (node_hash n) = Some n -> db_node db' (node_hash n) = Some n.
End runs.

Section maps.
Context `{B : Blake3} {BC : CollisionFree B} `{BN : Borsh TrieNode} {BNok : BorshOk TrieNode}.
Context {C : Type -> Type -> Type} `{LC : LruCache C} `{LS : !LruSpec C}.
Context {Database : Type} `{RK : RocksDB Database} {RKok : RocksOk Database}.

Implicit Types (db : Database) (tr : Trie C) (m : gmap bytes bytes).

Lemma key_repr L k : key_ok L k ->
  repr (from_bytes k) (nibs_of_bytes k) /\ length (nibs_of_bytes k) = (L * 2)%nat /\
  nibs (nibs_of_bytes k) /\ key_fuel (from_bytes k) = S (L * 2).
Proof.
  intros [Hb Hl]. split_and!; [by apply repr_from_bytes|by rewrite length_nibs_of_bytes, Hl|
    by apply nibs_of_bytes_nibs|]. unfold key_fuel. simpl. by rewrite Hl.
Qed.

Lemma holds_empty L : holds L None ∅.
Proof. split_and!; [done|done|]. intros k [? ?]. by rewrite lookup_empty in *. Qed.

Lemma tr_ok_root tr h : tr_ok tr -> tr_ok (with_trie_root h tr).
Proof. done. Qed.

Lemma ohash_eq_zero o : ohash o = Hash_ZERO -> o = None.
Proof. destruct o; [|done]. by intros ?%thash_nonzero. Qed.

Lemma with_root_ok (r : Hash) : tr_ok (with_root r : Trie C).
Proof. split; simpl; intros h n; [by rewrite lru_new_view|by rewrite lookup_empty]. Qed.

Lemma new_maps L db : trie_maps L db (new : Trie C) ∅.
Proof. split; [apply (with_root_ok Hash_ZERO)|]. exists None. split_and!; [done|done|apply holds_empty]. Qed.

Lemma trie_maps_grows L db tr tr' m : grows db tr tr' -> trie_maps L db tr m -> trie_maps L db tr' m.
Proof.
  intros G (_ & o & Hr & Hs & Hh). split; [by apply grows_ok in G|]. exists o.
  split_and!; [by destruct G as (_ & -> & _)| |done]. destruct o; [by eapply stored_grows|done].
Qed.

Lemma get_maps L db tr m k : key_ok L k -> trie_maps L db tr m ->
  exists tr', get db k tr = (Ok (m !! k), tr') /\ grows db tr tr'.
Proof.
  intros Hk (Htr & o & Hr & Hs & Hw & Hl & _). unfold get. rewrite bind_gets, Hr.
  destruct (key_repr L k Hk) as (Hrk & Hlen & Hn & ->). rewrite <- Hl by done.
  destruct o as [t|]; cbn [ohash olook].
  - rewrite decide_False by apply thash_nonzero.
    apply (get_at_spec db (L * 2) t Hw); try done; lia.
  - exists tr. split; [done|by apply grows_refl].
Qed.

Lemma nibs_key_eq L k ks : nibs ks -> length ks = (L * 2)%nat ->
  exists k', key_ok L k' /\ nibs_of_bytes k' = ks /\ (ks = nibs_of_bytes k <-> k' = k).
Proof.
  intros Hn Hl. destruct (nibs_of_bytes_surj L ks Hn Hl) as (k' & Hb & Hlk & <-).
  exists k'. split_and!; [done|done|]. split; [apply nibs_of_bytes_inj|by intros ->].
Qed.

Lemma holds_insert L o m k v o' :
  key_ok L k -> holds L o m -> owf (L * 2) o' ->
  (forall ks, nibs ks -> olook o' ks = if decide (ks = nibs_of_bytes k) then Some v else olook o ks) ->
  holds L o' (<[k := v]> m).
Proof.
  intros Hk (Hw & Hl & Hd) Hw' Hl'. split_and!; [done| |].
  - intros k' Hk'. destruct (key_repr L k' Hk') as (_ & _ & Hn & _). rewrite Hl' by done.
    destruct (decide (k' = k)) as [->|Hne]; [by rewrite decide_True, lookup_insert_eq|].
    rewrite lookup_insert_ne by done. rewrite decide_False by (by intros ?%nibs_of_bytes_inj). auto.
  - intros k' [w Hw2]. rewrite lookup_insert_Some in Hw2. destruct Hw2 as [[<- _]|[_ ?]]; [done|].
    apply Hd. eauto.
Qed.

Lemma holds_delete L o m k o' :
  key_ok L k -> holds L o m -> owf (L * 2) o' ->
  (forall ks, nibs ks -> olook o' ks = if decide (ks = nibs_of_bytes k) then None else olook o ks) ->
  holds L o' (base.delete k m).
Proof.
  intros Hk (Hw & Hl & Hd) Hw' Hl'. split_and!; [done| |].
  - intros k' Hk'. destruct (key_repr L k' Hk') as (_ & _ & Hn & _). rewrite Hl' by done.
    destruct (decide (k' = k)) as [->|Hne]; [by rewrite decide_True, lookup_delete_eq|].
    rewrite lookup_delete_ne by done. rewrite decide_False by (by intros ?%nibs_of_bytes_inj). auto.
  - intros k' [w Hw2]. rewrite lookup_delete_Some in Hw2. destruct Hw2. apply Hd. eauto.
Qed.

Lemma insert_maps L db tr m k v : key_ok L k -> trie_maps L db tr m ->
  exists tr', insert db k v tr = (Ok tt, tr') /\ trie_maps L db tr' (<[k := v]> m).
Proof.
  intros Hk (Htr & o & Hr & Hs & Hh). pose proof Hh as (Hw & _). unfold insert.
  destruct (key_repr L k Hk) as (Hrk & Hlen & Hn & ->). rewrite bind_gets, Hr.
  assert (exists t', builds db tr (insert_at db (S (L * 2)) (ohash o) (from_bytes k) v tr) t' /\
    wf (L * 2) t' /\ forall ks, nibs ks ->
      tlook t' ks = if decide (ks = nibs_of_bytes k) then Some v else olook o ks)
    as (t' & (tr' & E & G & S) & Hw' & Hl').
  { destruct o as [t|]; cbn [ohash olook].
    - destruct (insert_at_spec db (L * 2) t Hw (S (L * 2)) (from_bytes k) (nibs_of_bytes k) v tr)
        as (t' & Hb & Hw' & _ & Hl'); try done; [lia|]. by exists t'.
    - exists (TLeaf (nibs_of_bytes k) v). rewrite <- Hlen at 2. split_and!; [|by constructor|done].
      apply insert_at_zero; [lia|done|done]. }
  rewrite (bind_ok _ _ _ _ _ E). eexists; split; [done|].
  split; [by apply tr_ok_root; apply grows_ok in G|]. exists (Some t').
  split_and!; [done|done|]. by apply (holds_insert L o).
Qed.

Lemma delete_maps L db tr m k : key_ok L k -> trie_maps L db tr m ->
  exists tr', delete db k tr = (Ok (bool_decide (is_Some (m !! k))), tr') /\
    trie_maps L db tr' (base.delete k m).
Proof.
  intros Hk Hm. pose proof Hm as (Htr & o & Hr & Hs & Hh). pose proof Hh as (Hw & Hl & _). unfold delete.
  destruct (key_repr L k Hk) as (Hrk & Hlen & Hn & ->). rewrite bind_gets, Hr.
  rewrite <- (Hl k Hk).
  assert (olook o (nibs_of_bytes k) = None -> base.delete k m = m) as Hnone.
  { intros H. apply delete_id. by rewrite <- Hl. }
  destruct o as [t|]; cbn [ohash olook] in *.
  2:{ exists tr. split; [done|]. by rewrite Hnone. }
  rewrite decide_False by apply thash_nonzero.
  destruct (delete_at_spec db (L * 2) t Hw (S (L * 2)) (from_bytes k) (nibs_of_bytes k) tr)
    as (tr' & G & [[E1 E2]|(E1 & o' & E2 & So & Hw' & Hl')]); try done; [lia|..];
    rewrite (bind_ok _ _ _ _ _ E2).
  - exists tr'. rewrite E1. split; [done|]. rewrite Hnone by done. by eapply trie_maps_grows.
  - rewrite bind_modify. eexists. rewrite bool_decide_eq_true_2 by done. split; [done|].
    split; [by apply tr_ok_root; apply grows_ok in G|]. exists o'.
    split_and!; [done|by destruct o'|]. by apply (holds_delete L (Some t)).
Qed.

Lemma contains_maps L db tr m k : key_ok L k -> trie_maps L db tr m ->
  exists tr', contains db k tr = (Ok (bool_decide (is_Some (m !! k))), tr') /\ grows db tr tr'.
Proof.
  intros Hk Hm. destruct (get_maps L db tr m k Hk Hm) as (tr' & E & G).
  exists tr'. split; [|done]. unfold contains. by rewrite (bind_ok _ _ _ _ _ E).
Qed.

(** ** The root hash and the contents *)

Lemma holds_unique L o1 o2 m : holds L o1 m -> holds L o2 m -> o1 = o2.
Proof.
  intros (Hw1 & Hl1 & _) (Hw2 & Hl2 & _).
  assert (forall ks, nibs ks -> olook o1 ks = olook o2 ks) as Hl.
  { intros ks Hn. destruct (decide (length ks = (L * 2)%nat)) as [Hlen|Hlen].
    - destruct (nibs_key_eq L [] ks Hn Hlen) as (k & Hk & <- & _). by rewrite Hl1, Hl2.
    - assert (forall o, owf (L * 2) o -> olook o ks = None) as Hno.
      { intros [t|] Hw; [|done]. simpl. destruct (tlook t ks) eqn:E; [|done].
        apply (wf_lookup_length (L * 2)) in E; [congruence|done]. }
      by rewrite !Hno. }
  destruct o1 as [t1|], o2 as [t2|]; [|..|done].
  - f_equal. by eapply (wf_unique (L * 2)).
  - destruct (wf_inhabited _ _ Hw1) as (key & v & Hn & E). specialize (Hl key Hn). simpl in Hl. congruence.
  - destruct (wf_inhabited _ _ Hw2) as (key & v & Hn & E). specialize (Hl key Hn). simpl in Hl. congruence.
Qed.

Lemma holds_fun L o m1 m2 : holds L o m1 -> holds L o m2 -> m1 = m2.
Proof.
  intros (_ & Hl1 & Hd1) (_ & Hl2 & Hd2). apply map_eq. intros k.
  destruct (m1 !! k) eqn:E1.
  - rewrite <- E1, <- Hl1, <- Hl2; eauto.
  - destruct (m2 !! k) eqn:E2; [|done]. rewrite <- E1, <- E2, <- Hl1, <- Hl2; eauto.
Qed.

Lemma ohash_inj n o1 o2 : owf n o1 -> ohash o1 = ohash o2 -> o1 = o2.
Proof.
  destruct o1 as [t1|], o2 as [t2|]; simpl; intros Hw H; [| | |done].
  - f_equal. by eapply thash_inj.
  - by apply thash_nonzero in H.
  - symmetry in H. by apply thash_nonzero in H.
Qed.

(** ** Commit *)

Lemma db_grows_refl db : db_grows db db.
Proof. by intros n. Qed.

Lemma db_grows_trans db1 db2 db3 : db_grows db1 db2 -> db_grows db2 db3 -> db_grows db1 db3.
Proof. intros H1 H2 n Hn. auto. Qed.

(** Writes outside the STATE column family do not concern the tries. *)
Lemma db_grows_other db cf k v : cf <> STATE -> db_grows db (db_put db cf k v).
Proof.
  intros Hne n. unfold db_node. rewrite db_get_put. by rewrite decide_False by congruence.
Qed.

Lemma db_grows_delete db cf k : cf <> STATE -> db_grows db (db_delete db cf k).
Proof.
  intros Hne n. unfold db_node. rewrite db_get_delete. by rewrite decide_False by congruence.
Qed.

Lemma avail_db_grows db db' tr n : db_grows db db' -> avail db tr n -> avail db' tr n.
Proof. intros Hg [H|H]; [by left|right; auto]. Qed.

Lemma trie_maps_db_grows L db db' tr m : db_grows db db' -> trie_maps L db tr m -> trie_maps L db' tr m.
Proof.
  intros Hg (Htr & o & Hr & Hs & Hh). split; [done|]. exists o. split_and!; [done| |done].
  destruct o; [|done]. intros s Hsub. eapply avail_db_grows; [done|]. by apply Hs.
Qed.

Definition node_puts (l : list (Hash * TrieNode)) : WriteBatch :=
  (fun e => Put STATE (fst e) (to_vec (snd e))) <$> l.

Lemma commit_batch l b :
  foldl (fun b e => batch_put b STATE (fst e) (to_vec (snd e))) b l = b ++ node_puts l.
Proof.
  revert b. induction l as [|e l IH]; intros b; simpl; [by rewrite app_nil_r|].
  rewrite IH. unfold batch_put. by rewrite <- (assoc_L app).
Qed.

Lemma commit_writes db l h n :
  NoDup l.*1 -> (h, n) ∈ l -> db_node (write_batch db (node_puts l)) h = Some n.
Proof.
  intros Hnd (l1 & l2 & ->)%list_elem_of_split. unfold db_node, node_puts.
  rewrite fmap_app, fmap_cons. rewrite write_batch_last_put; [apply from_slice_to_vec|].
  intros op (e & -> & He)%list_elem_of_fmap. simpl. intros [= E].
  rewrite fmap_app in Hnd. apply NoDup_app in Hnd as (_ & _ & Hnd). simpl in Hnd.
  apply NoDup_cons in Hnd as [Hnd _]. apply Hnd. rewrite <- E. by apply list_elem_of_fmap_2.
Qed.

Lemma commit_keeps db l :
  (forall h n, (h, n) ∈ l -> node_hash n = h) -> NoDup l.*1 ->
  db_grows db (write_batch db (node_puts l)).
Proof.
  intros Hok Hnd n Hn. destruct (decide (node_hash n ∈ l.*1)) as [Hin|Hin].
  - apply list_elem_of_fmap in Hin as ([h n'] & E & Hin). simpl in E.
    assert (n' = n) as -> by (apply node_hash_inj; rewrite E; by apply Hok).
    apply commit_writes; [done|]. by rewrite E.
  - unfold db_node in *. rewrite write_batch_untouched; [done|].
    intros op (e & -> & He)%list_elem_of_fmap. simpl. intros [= E]. apply Hin. rewrite <- E.
    by apply list_elem_of_fmap_2.
Qed.

Lemma commit_cache_ok (l : list (Hash * TrieNode)) (c : C Hash TrieNode) :
  (forall h n, (h, n) ∈ l -> node_hash n = h) ->
  (forall h n, lru_view c h = Some n -> node_hash n = h) ->
  forall h n, lru_view (foldl (fun c e => lru_put (fst e) (snd e) c) c l) h = Some n -> node_hash n = h.
Proof.
  revert c. induction l as [|[h0 n0] l IH]; intros c Hl Hc; simpl; [done|].
  apply IH; [set_solver|]. intros h n. destruct (decide (h = h0)) as [->|Hne].
  - rewrite lru_put_eq. intros [= <-]. apply Hl. set_solver.
  - intros H%lru_put_ne; [auto|done].
Qed.

Lemma commit_maps L db tr m : trie_maps L db tr m ->
  exists db' tr', commit db tr = (root tr, db', tr') /\ db_grows db db' /\
    (forall cf k, cf <> STATE -> db_get db' cf k = db_get db cf k) /\ root tr' = root tr /\
    trie_maps L db' tr' m /\ trie_maps L db' (with_root (root tr) : Trie C) m.
Proof.
  intros ([Hc Hd] & o & Hr & Hs & Hh). unfold commit. rewrite commit_batch. simpl.
  set (l := map_to_list (dirty tr)).
  assert (forall h n, (h, n) ∈ l -> node_hash n = h) as Hl
    by (intros h n H%elem_of_map_to_list; auto).
  assert (NoDup l.*1) as Hnd by apply NoDup_fst_map_to_list.
  assert (db_grows db (write_batch db (node_puts l))) as Hg by (by apply commit_keeps).
  assert (forall tr', ostored (write_batch db (node_puts l)) tr' o) as Hs'.
  { intros tr'. destruct o as [t|]; [|done]. intros s Hsub. right.
    destruct (Hs s Hsub) as [Ha|Ha]; [|by apply Hg].
    apply commit_writes; [done|]. by apply elem_of_map_to_list. }
  eexists _, _. split; [done|]. split_and!; [done| |done| |].
  - intros cf k Hcf. apply write_batch_untouched.
    intros op (e & -> & _)%list_elem_of_fmap. simpl. congruence.
  - split; [|by exists o]. split; simpl; [by apply commit_cache_ok|].
    intros h n. by rewrite lookup_empty.
  - split; [apply with_root_ok|by exists o].
Qed.

(** ** Sequences of operations *)

Lemma trie_step_maps L op db tr m :
  op_ok L op -> trie_maps L db tr m ->
  exists db' tr', trie_step op (db, tr) = Some (fst (map_step op m), (db', tr')) /\
    trie_maps L db' tr' (snd (map_step op m)).
Proof.
  intros Hop Hm. destruct op as [k|k|k v|k| |]; cbn [trie_step map_step fst snd op_ok] in *.
  - destruct (get_maps L db tr m k Hop Hm) as (tr' & -> & G). exists db, tr'.
    split; [done|by eapply trie_maps_grows].
  - destruct (contains_maps L db tr m k Hop Hm) as (tr' & -> & G). exists db, tr'.
    split; [done|by eapply trie_maps_grows].
  - destruct (insert_maps L db tr m k v Hop Hm) as (tr' & -> & Hm'). by exists db, tr'.
  - destruct (delete_maps L db tr m k Hop Hm) as (tr' & -> & Hm'). by exists db, tr'.
  - destruct (commit_maps L db tr m Hm) as (db' & tr' & -> & _ & _ & _ & Hm' & _). by exists db', tr'.
  - destruct (commit_maps L db tr m Hm) as (db' & tr' & -> & _ & _ & _ & _ & Hm'). by eexists _, _.
Qed.

Lemma trie_run_maps L ops db tr m :
  Forall (op_ok L) ops -> trie_maps L db tr m ->
  exists db' tr', trie_run ops (db, tr) = Some (fst (map_run ops m), (db', tr')) /\
    trie_maps L db' tr' (snd (map_run ops m)).
Proof.
  intros Hops. revert db tr m. induction Hops as [|op ops Hop _ IH]; intros db tr m Hm.
  { by exists db, tr. }
  destruct (trie_step_maps L op db tr m Hop Hm) as (db1 & tr1 & E & Hm1).
  cbn [trie_run map_run]. rewrite E. cbn [mbind option_bind].
  destruct (map_step op m) as [r m1]. cbn [fst snd] in *.
  destruct (IH db1 tr1 m1 Hm1) as (db2 & tr2 & E2 & Hm2). rewrite E2.
  destruct (map_run ops m1) as [rs m2]. by exists db2, tr2.
Qed.
End maps.

Section public.
Context `{B : Blake3} {BC : CollisionFree B} `{BN : Borsh TrieNode} {BNok : BorshOk TrieNode}.
Context {C : Type -> Type -> Type} `{LC : LruCache C} `{LS : !LruSpec C}.
Context {Database : Type} `{RK : RocksDB Database} {RKok : RocksOk Database}.

(** C7 (the trie refines a finite map): over any database and for keys of one
    length [L], every sequence of lookups, membership tests, insertions,
    deletions, commits and reopenings runs to the end (no missing node, no
    panic, no exhausted fuel), returns what the finite map returns, and leaves
    a trie that holds the final map. *)
Theorem trie_refines_map L ops db :
  Forall (op_ok L) ops ->
  exists db' tr', trie_run ops (db, new : Trie C) = Some (fst (map_run ops ∅), (db', tr')) /\
    trie_maps L db' tr' (snd (map_run ops ∅)).
Proof. intros Hops. apply trie_run_maps; [done|apply new_maps]. Qed.

(** C10 (the root hash commits to the contents): after any two sequences of
    operations, on different databases and in different orders, the roots are
    equal exactly when the contents are: the root does not depend on the
    history, and two different states never share a root. *)
Theorem trie_root_canonical L ops1 ops2 db1 db2 :
  Forall (op_ok L) ops1 -> Forall (op_ok L) ops2 ->
  exists rs1 db1' tr1 rs2 db2' tr2,
    trie_run ops1 (db1, new : Trie C) = Some (rs1, (db1', tr1)) /\
    trie_run ops2 (db2, new : Trie C) = Some (rs2, (db2', tr2)) /\
    (root tr1 = root tr2 <-> snd (map_run ops1 ∅) = snd (map_run ops2 ∅)).
Proof.
  intros H1 H2.
  destruct (trie_run_maps L ops1 db1 (new : Trie C) ∅ H1 (new_maps L db1)) as (db1' & tr1 & E1 & M1).
  destruct (trie_run_maps L ops2 db2 (new : Trie C) ∅ H2 (new_maps L db2)) as (db2' & tr2 & E2 & M2).
  eexists _, _, _, _, _, _. split_and!; [done|done|].
  destruct M1 as (_ & o1 & -> & _ & Hh1), M2 as (_ & o2 & -> & _ & Hh2). split.
  - intros H. apply (ohash_inj (L * 2)) in H as <-; [|by destruct Hh1]. by eapply holds_fun.
  - intros H. rewrite H in Hh1. by rewrite (holds_unique L o1 o2 _ Hh1 Hh2).
Qed.

(** Committing a trie returns its
    root; opening that root again, with nothing but the database, gives a trie
    with the same contents; and every other trie over the same database keeps
    its contents. *)
Theorem trie_commit_reopen L L2 db (tr tr2 : Trie C) m m2 :
  trie_maps L db tr m -> trie_maps L2 db tr2 m2 ->
  exists db' tr', commit db tr = (root tr, db', tr') /\ trie_maps L db' tr' m /\
    trie_maps L db' (with_root (root tr) : Trie C) m /\ trie_maps L2 db' tr2 m2.
Proof.
  intros Hm Hm2. destruct (commit_maps L db tr m Hm) as (db' & tr' & E & Hg & _ & _ & H1 & H2).
  exists db', tr'. split_and!; try done. by eapply trie_maps_db_grows.
Qed.
End public.

Section examples.
#[local] Existing Instances tagged_blake3 tagged_blake3_ok node_borsh node_borsh_ok.

Lemma example_trie : exists tr : Trie Lru.t,
  trie_maps 2 (∅ : RocksMap) tr {[ [18; 52] := [7]; [18; 60] := [8] ]}.
Proof.
  destruct (trie_run_maps 2 [OInsert [18; 60] [8]; OInsert [18; 52] [7]] (∅ : RocksMap) (new : Trie Lru.t) ∅)
    as (db' & tr & E & Hm); [by_decide|apply new_maps|].
  exists tr. by injection E as <- <-.
Qed.

Lemma trie_refines_map_witness :
  exists db' tr', trie_run [OInsert [18; 52] [7]; OInsert [18; 60] [8]; OCommit; OGet [18; 52];
                            ODelete [18; 52]; OReopen; OGet [18; 52]; OContains [18; 60]]
                           (∅ : RocksMap, new : Trie Lru.t) =
    Some ([RUnit; RUnit; RUnit; RValue (Some [7]); RBool true; RUnit; RValue None; RBool true],
          (db', tr')) /\ trie_maps 2 db' tr' {[ [18; 60] := [8] ]}.
Proof. apply (trie_refines_map 2); by_decide. Defined.

Lemma trie_root_canonical_witness :
  exists rs1 db1' (tr1 : Trie Lru.t) rs2 db2' (tr2 : Trie Lru.t),
    trie_run [OInsert [18; 52] [7]; OInsert [18; 60] [8]] (∅ : RocksMap, new) = Some (rs1, (db1', tr1)) /\
    trie_run [OInsert [18; 60] [8]; OInsert [1; 2] [9]; OInsert [18; 52] [7]; ODelete [1; 2]] (∅ : RocksMap, new)
      = Some (rs2, (db2', tr2)) /\ root tr1 = root tr2.
Proof.
  destruct (trie_root_canonical 2 [OInsert [18; 52] [7]; OInsert [18; 60] [8]]
    [OInsert [18; 60] [8]; OInsert [1; 2] [9]; OInsert [18; 52] [7]; ODelete [1; 2]] (∅ : RocksMap) (∅ : RocksMap)
    ltac:(by_decide) ltac:(by_decide) (C := Lru.t))
    as (rs1 & db1' & tr1 & rs2 & db2' & tr2 & E1 & E2 & H).
  exists rs1, db1', tr1, rs2, db2', tr2. split_and!; [done|done|]. apply H. by vm_compute.
Defined.

Lemma trie_commit_reopen_witness :
  exists (tr : Trie Lru.t) db' tr', commit (∅ : RocksMap) tr = (root tr, db', tr') /\
    trie_maps 2 db' (with_root (root tr) : Trie Lru.t) {[ [18; 52] := [7]; [18; 60] := [8] ]}.
Proof.
  destruct example_trie as (tr & Hm). exists tr.
  destruct (trie_commit_reopen 2 2 (∅ : RocksMap) tr tr _ _ Hm Hm) as (db' & tr' & E & _ & H & _). by exists db', tr'.
Defined.

(** Keys of different lengths are outside the contract: a leaf whose key is a
    proper prefix of a new key is dropped by the split in [insert_at]. *)
Lemma insert_drops_prefix_key :
  fst <$> trie_run [OInsert [18] [7]; OGet [18]; OInsert [18; 52] [8]; OGet [18]; OGet [18; 52]]
                   (∅ : RocksMap, new : Trie Lru.t) =
  Some [RUnit; RValue (Some [7]); RUnit; RValue None; RValue (Some [8])].
Proof. by vm_compute. Qed.
End examples.
