(* ===== verification/TrieValues.v ===== *)
(** * All values of a trie (trie.rs, [values])

    [collect_values] walks the trie depth first; the values come out in the
    order of their keys. *)

From S2P Require Import Prelude Externals Nibbles Storage Trie TrieTree TrieTheory TrieMap.
Import NibbleSlice.

(** The children of a branch from index [i] on. *)
Fixpoint belems (i : nat) (cs : list (option tree)) : list (list Z * bytes) :=
  match cs with
  | [] => []
  | o :: cs' =>
    match o with Some t => prod_map (cons (Z.of_nat i)) id <$> telems t | None => [] end ++ belems (S i) cs'
  end.

(** The bytes of an even number of nibbles. *)
Fixpoint bytes_of_nibs (ks : list Z) : bytes :=
  match ks with
  | a :: b :: ks' => a * 16 + b :: bytes_of_nibs ks'
  | _ => []
  end.

Section elements.

Lemma telems_branch cs : telems (TBranch cs) = belems 0 cs.
Proof.
  simpl. generalize O. induction cs as [|[t|] cs IH]; intros i; simpl; by rewrite ?IH.
Qed.

Lemma elem_of_prefixed (k ks : list Z) (v : bytes) (l : list (list Z * bytes)) :
  (ks, v) ∈ prod_map (app k) id <$> l <-> exists r, ks = k ++ r /\ (r, v) ∈ l.
Proof.
  rewrite list_elem_of_fmap. split.
  - intros ([r w] & [= -> ->] & H). eauto.
  - intros (r & -> & H). by exists (r, v).
Qed.

Lemma elem_of_belems i cs ks v :
  (ks, v) ∈ belems i cs <->
  exists j t r, cs !! j = Some (Some t) /\ ks = Z.of_nat (i + j) :: r /\ (r, v) ∈ telems t.
Proof.
  revert i. induction cs as [|o cs IH]; intros i; simpl.
  { split; [by intros ?%not_elem_of_nil|]. by intros (j & t & r & H & _). }
  rewrite elem_of_app, IH. split.
  - intros [H|(j & t & r & Hj & -> & Hr)].
    + destruct o as [t|]; [|by apply not_elem_of_nil in H].
      apply (elem_of_prefixed [_]) in H as (r & -> & Hr). exists O, t, r. by rewrite Nat.add_0_r.
    + exists (S j), t, r. by rewrite <- Nat.add_succ_comm.
  - intros ([|j] & t & r & Hj & -> & Hr).
    + injection Hj as ->. left. rewrite Nat.add_0_r. apply (elem_of_prefixed [_]). by exists r.
    + right. exists j, t, r. by rewrite Nat.add_succ_comm.
Qed.

Lemma elem_of_telems n t ks v :
  wf n t -> (ks, v) ∈ telems t <-> nibs ks /\ tlook t ks = Some v.
Proof.
  intros Ht. revert ks. induction Ht as [k w Hk|m k t Hk Hne Hb Ht IH|n cs Hl Hc IH Hn]; intros ks.
  - simpl. rewrite list_elem_of_singleton. split.
    + intros [= -> ->]. by rewrite decide_True.
    + intros [_ H]. case_decide; by simplify_eq.
  - simpl telems. rewrite elem_of_prefixed. split.
    + intros (r & -> & [Hr Hv]%IH). rewrite tlook_ext_app. split; [by apply Forall_app|done].
    + intros [Hks (r & -> & Hv)%tlook_ext_Some]. exists r. split; [done|].
      apply Forall_app in Hks as [_ ?]. by apply IH.
  - rewrite telems_branch, elem_of_belems. split.
    + intros (j & t & r & Hj & -> & [Hr Hv]%(IH _ _ Hj)). simpl Nat.add.
      destruct (nib_nat j) as [Hj1 Hj2]; [rewrite <- Hl; by eapply lookup_lt_Some|].
      rewrite tlook_branch, Hj2, Hj. split; [by constructor|done].
    + intros [Hks Hv]. destruct ks as [|x r]; [done|]. rewrite tlook_branch in Hv.
      apply Forall_cons in Hks as [Hx Hr]. unfold is_nib in Hx.
      destruct (cs !! Z.to_nat x) as [[t|]|] eqn:E; try done.
      exists (Z.to_nat x), t, r. split_and!; [done|f_equal; simpl; lia|]. by eapply IH.
Qed.

Lemma before_prefixed k (l : list (bytes * bytes)) :
  StronglySorted before l -> StronglySorted before (prod_map (app k) id <$> l).
Proof.
  assert (forall a b, bytes_cmp (k ++ a) (k ++ b) = bytes_cmp a b) as Hk.
  { intros a b. induction k as [|x k IH]; simpl; [done|]. by rewrite Z.compare_refl. }
  induction 1 as [|[a v] l Hl IH Hf]; simpl; constructor; [done|].
  apply Forall_fmap. eapply Forall_impl; [done|]. intros [b w]. unfold before. simpl. by rewrite Hk.
Qed.

Lemma belems_sorted i cs :
  (forall j t, cs !! j = Some (Some t) -> StronglySorted before (telems t)) ->
  StronglySorted before (belems i cs).
Proof.
  revert i. induction cs as [|o cs IH]; intros i Hs; simpl; [constructor|].
  apply StronglySorted_app_2; [| |apply IH; intros j; apply (Hs (S j))].
  - intros [a v] [b w] Ha (j & t & r & _ & -> & _)%elem_of_belems.
    destruct o as [t0|]; [|by apply not_elem_of_nil in Ha].
    apply (elem_of_prefixed [_]) in Ha as (r0 & -> & _). unfold before. simpl.
    by rewrite (proj2 (Z.compare_lt_iff _ _)) by lia.
  - destruct o as [t|]; [|constructor]. apply (before_prefixed [_]). by apply (Hs O).
Qed.

Lemma telems_sorted n t : wf n t -> StronglySorted before (telems t).
Proof.
  induction 1 as [k w Hk|m k t Hk Hne Hb Ht IH|n cs Hl Hc IH Hn].
  - repeat constructor.
  - by apply before_prefixed.
  - rewrite telems_branch. by apply belems_sorted.
Qed.
End elements.

Section values.
Context `{B : Blake3} {BC : CollisionFree B} `{BN : Borsh TrieNode} {BNok : BorshOk TrieNode}.
Context {C : Type -> Type -> Type} `{LC : LruCache C} `{LS : !LruSpec C}.
Context {Database : Type} `{RK : RocksDB Database} {RKok : RocksOk Database}.

Abbreviation hashes := (fmap (M:=list) (fmap (M:=option) thash)).

Lemma belems_values i cs :
  (belems i cs).*2 = concat ((fun o => match o with Some t => (telems t).*2 | None => [] end) <$> cs).
Proof.
  revert i. induction cs as [|o cs IH]; intros i; simpl; [done|].
  rewrite fmap_app, IH. f_equal. destruct o as [t|]; [|done].
  rewrite <- list_fmap_compose. by apply list_fmap_ext.
Qed.

(** The loop over the children of a branch. *)
Lemma collect_children db fuel cs tr0 (m : ST (Trie C) TrieError (list bytes)) vs tr1 :
  (forall i t, cs !! i = Some (Some t) -> forall vs tr, tr_ok tr -> stored db tr t ->
     exists tr', collect_values db fuel (thash t) vs tr = (Ok (vs ++ (telems t).*2), tr') /\ grows db tr tr') ->
  m tr0 = (Ok vs, tr1) -> tr_ok tr1 -> (forall i t, cs !! i = Some (Some t) -> stored db tr1 t) ->
  exists tr2,
    foldl (fun acc c => let! vs := acc in
                        match c with Some h => collect_values db fuel h vs | None => ret vs end)
          m (hashes cs) tr0 =
      (Ok (vs ++ concat ((fun o => match o with Some t => (telems t).*2 | None => [] end) <$> cs)), tr2) /\
    grows db tr1 tr2.
Proof.
  revert m vs tr1. induction cs as [|o cs IH]; intros m vs tr1 Hrec Hm Htr Hs.
  { exists tr1. split; [by rewrite app_nil_r|by apply grows_refl]. }
  rewrite fmap_cons. cbn [foldl].
  assert (exists tr2, (let! vs := m in
      match thash <$> o with Some h => collect_values db fuel h vs | None => ret vs end) tr0 =
      (Ok (vs ++ match o with Some t => (telems t).*2 | None => [] end), tr2) /\ grows db tr1 tr2)
    as (tr2 & E & G).
  { rewrite (bind_ok _ _ _ _ _ Hm). destruct o as [t|]; cbn [fmap option_fmap option_map].
    - by apply (Hrec O t eq_refl vs tr1), (Hs O t).
    - exists tr1. split; [by rewrite app_nil_r|by apply grows_refl]. }
  destruct (IH _ _ tr2 (fun i => Hrec (S i)) E) as (tr3 & E3 & G3).
  - by apply grows_ok in G.
  - intros i t Hi. eapply stored_grows; [done|]. by apply (Hs (S i)).
  - exists tr3. rewrite E3. split; [by rewrite fmap_cons; simpl; rewrite (assoc_L app)|].
    by eapply grows_trans.
Qed.

Lemma collect_values_spec n t : wf n t -> forall db fuel vs tr,
  (n < fuel)%nat -> tr_ok tr -> stored db tr t ->
  exists tr', collect_values db fuel (thash t) vs tr = (Ok (vs ++ (telems t).*2), tr') /\ grows db tr tr'.
Proof.
  induction 1 as [k lv Hk|m k t Hk Hne Hb Ht IH|n cs Hl Hc IH Hn]; intros db fuel vs tr Hf Htr Hs;
    (destruct fuel as [|fuel]; [lia|]); cbn [collect_values]; rewrite decide_False by apply thash_nonzero;
    destruct (get_tree_spec db tr _ Htr Hs) as (tr1 & E & G); rewrite (bind_ok _ _ _ _ _ E);
    pose proof (stored_grows _ _ _ _ G Hs) as Hs1; pose proof (grows_ok _ _ _ G) as Htr1.
  - by exists tr1.
  - destruct (IH db fuel vs tr1) as (tr2 & E2 & G2); [destruct k; [done|simpl in Hf; lia]|done|by eapply stored_ext|].
    exists tr2. cbn [node_of]. fold (thash t). rewrite E2. simpl telems. rewrite <- list_fmap_compose.
    split; [by erewrite list_fmap_ext|by eapply grows_trans].
  - rewrite node_of_branch, telems_branch, belems_values.
    destruct (collect_children db fuel cs tr1 (ret vs) vs tr1) as (tr2 & E2 & G2); try done.
    + intros i t Hi vs' tr' Htr' Hs'. eapply IH; [done|lia|done|done].
    + intros i t Hi. by eapply stored_child.
    + exists tr2. split; [done|by eapply grows_trans].
Qed.
End values.

Section key_order.

Lemma bytes_of_nibs_of_bytes bs : bytes_of_nibs (nibs_of_bytes bs) = bs.
Proof.
  induction bs as [|b bs IH]; simpl; [done|]. f_equal; [|done].
  pose proof (Z.div_mod b 16). lia.
Qed.

(** Packing nibbles keeps the lexicographic order. *)
Lemma nibs_cmp a b : bytes_ok a -> bytes_ok b -> bytes_cmp (nibs_of_bytes a) (nibs_of_bytes b) = bytes_cmp a b.
Proof.
  intros Ha. revert b. induction Ha as [|x a Hx Ha IH]; intros [|y b] Hb; simpl; try done.
  apply Forall_cons in Hb as [Hy Hb]. rewrite IH by done.
  assert (x = 16 * (x / 16) + x mod 16 /\ y = 16 * (y / 16) + y mod 16) as [Ex Ey]
    by (split; apply Z.div_mod; lia).
  pose proof (Z.mod_pos_bound x 16). pose proof (Z.mod_pos_bound y 16).
  destruct (Z.compare_spec (x / 16) (y / 16)) as [E1|E1|E1].
  - destruct (Z.compare_spec (x mod 16) (y mod 16)) as [E2|E2|E2].
    + replace y with x by lia. by rewrite Z.compare_refl.
    + by rewrite (proj2 (Z.compare_lt_iff x y)) by lia.
    + by rewrite (proj2 (Z.compare_gt_iff x y)) by lia.
  - by rewrite (proj2 (Z.compare_lt_iff x y)) by lia.
  - by rewrite (proj2 (Z.compare_gt_iff x y)) by lia.
Qed.

Lemma StronglySorted_fmap {A B} (R : A -> A -> Prop) (R' : B -> B -> Prop) (f : A -> B) l :
  (forall x y, x ∈ l -> y ∈ l -> R x y -> R' (f x) (f y)) ->
  StronglySorted R l -> StronglySorted R' (f <$> l).
Proof.
  intros Hf Hs. induction Hs as [|x l Hs IH Hx]; simpl; constructor.
  - apply IH. set_solver.
  - apply Forall_fmap. rewrite Forall_forall in *. intros y Hy. simpl. apply Hf; set_solver.
Qed.

(** The contents of a trie with byte keys, sorted. *)
Lemma holds_elems L t m : holds L (Some t) m ->
  exists kvs, StronglySorted before kvs /\ (forall k v, (k, v) ∈ kvs <-> m !! k = Some v) /\
    kvs.*2 = (telems t).*2.
Proof.
  intros (Hw & Hl & Hd). simpl in Hw, Hl. exists (prod_map bytes_of_nibs id <$> telems t).
  assert (forall ks v, (ks, v) ∈ telems t ->
    exists k, key_ok L k /\ ks = nibs_of_bytes k /\ m !! k = Some v) as Hel.
  { intros ks v [Hn Hv]%(elem_of_telems _ _ _ _ Hw).
    destruct (nibs_key_eq L [] ks Hn) as (k & Hk & <- & _); [by eapply wf_lookup_length|].
    exists k. split_and!; [done|done|]. by rewrite <- Hl. }
  split_and!.
  - eapply StronglySorted_fmap; [|by eapply telems_sorted].
    intros [ka v] [kb w] (a & [Ha _] & -> & _)%Hel (b & [Hb _] & -> & _)%Hel. unfold before. simpl.
    by rewrite !bytes_of_nibs_of_bytes, nibs_cmp.
  - intros k v. rewrite list_elem_of_fmap. split.
    + intros ([ks w] & [= -> ->] & (k' & _ & -> & H)%Hel). by rewrite bytes_of_nibs_of_bytes.
    + intros Hk. assert (key_ok L k) as Hok by (apply Hd; eauto).
      exists (nibs_of_bytes k, v). simpl. rewrite bytes_of_nibs_of_bytes. split; [done|].
      eapply elem_of_telems; [done|]. rewrite Hl by done. split; [|done].
      by apply nibs_of_bytes_nibs, Hok.
  - rewrite <- list_fmap_compose. by apply list_fmap_ext.
Qed.
End key_order.

Section public.
Context `{B : Blake3} {BC : CollisionFree B} `{BN : Borsh TrieNode} {BNok : BorshOk TrieNode}.
Context {C : Type -> Type -> Type} `{LC : LruCache C} `{LS : !LruSpec C}.
Context {Database : Type} `{RK : RocksDB Database} {RKok : RocksOk Database}.

Lemma values_maps L db (tr : Trie C) m : trie_maps L db tr m ->
  exists kvs tr', values db (S (L * 2)) tr = (Ok kvs.*2, tr') /\ StronglySorted before kvs /\
    (forall k v, (k, v) ∈ kvs <-> m !! k = Some v) /\ grows db tr tr'.
Proof.
  intros (Htr & o & Hr & Hs & Hh). unfold values. rewrite bind_gets, Hr.
  destruct o as [t|]; cbn [ohash].
  - destruct (holds_elems L t m Hh) as (kvs & Hso & Hel & Ekv).
    destruct (collect_values_spec (L * 2) t (proj1 Hh) db (S (L * 2)) [] tr) as (tr' & E & G);
      [lia|done|done|]. rewrite <- Ekv in E. by exists kvs, tr'.
  - exists [], tr. split_and!; [done|constructor| |by apply grows_refl].
    intros k v. split; [by intros ?%not_elem_of_nil|]. intros Hk.
    destruct Hh as (_ & Hl & Hd). rewrite <- Hl in Hk; [done|]. apply Hd. eauto.
Qed.

(** [values] returns every value of the map exactly
    once, in the byte order of the keys, and leaves the trie as it was. *)
Theorem trie_values_sorted L db (tr : Trie C) m : trie_maps L db tr m ->
  exists kvs tr', values db (S (L * 2)) tr = (Ok kvs.*2, tr') /\ StronglySorted before kvs /\
    (forall k v, (k, v) ∈ kvs <-> m !! k = Some v) /\ root tr' = root tr /\ trie_maps L db tr' m.
Proof.
  intros Hm. destruct (values_maps L db tr m Hm) as (kvs & tr' & E & Hs & Hel & G).
  exists kvs, tr'. split_and!; try done; [by destruct G as (_ & ? & _)|by eapply trie_maps_grows].
Qed.
End public.

Section examples.
#[local] Existing Instances tagged_blake3 tagged_blake3_ok node_borsh node_borsh_ok.

Lemma trie_values_sorted_witness :
  exists (tr : Trie Lru.t) kvs tr', values (∅ : RocksMap) 5 tr = (Ok kvs.*2, tr') /\
    ([18; 52], [7]) ∈ kvs /\ ([18; 60], [8]) ∈ kvs.
Proof.
  destruct example_trie as (tr & Hm). exists tr.
  destruct (trie_values_sorted 2 (∅ : RocksMap) tr _ Hm) as (kvs & tr' & E & _ & Hel & _).
  exists kvs, tr'. split_and!; [done|by apply Hel|by apply Hel].
Defined.
End examples.
