(* ===== verification/MerkleProofs.v ===== *)
(** * Merkle proofs (src/crates/qfc-trie/src/proof.rs and trie.rs, [get_proof])

    A proof made by [get_proof] verifies against the root of the trie it was
    made from and carries the value (or the absence) of its key; and any proof
    at all that verifies against a root carries what the trie with that root
    holds, so no forged proof verifies. *)

From S2P Require Import Prelude Externals Nibbles Storage Trie TrieTree TrieTheory TrieMap.
Import NibbleSlice.

Section merkle.
Context `{B : Blake3} {BC : CollisionFree B} `{BN : Borsh TrieNode} {BNok : BorshOk TrieNode}.
Context {C : Type -> Type -> Type} `{LC : LruCache C} `{LS : !LruSpec C}.
Context {Database : Type} `{RK : RocksDB Database} {RKok : RocksOk Database}.

(** What one step of [verify_path] does on the honest node. *)
Definition verify_step (p : MerkleProof) (fuel : nat) (key : NibbleSlice.t) (i : nat) (node : TrieNode) :
    Result TrieError bool :=
  match node with
  | Empty => Ok (bool_decide (proof_value p = None))
  | Leaf leaf_key value =>
    match to_nibbles key, to_nibbles (from_nibbles leaf_key) with
    | Some ks, Some ls =>
      if decide (ks = ls) then Ok (bool_decide (proof_value p = Some value))
      else Ok (bool_decide (proof_value p = None))
    | _, _ => Panic
    end
  | Extension ext_key child =>
    match starts_with key (from_nibbles ext_key) with
    | Some true =>
      match offset key (len (from_nibbles ext_key)) with
      | Some remaining => verify_path p fuel child remaining (S i)
      | None => Panic
      end
    | Some false => Ok (bool_decide (proof_value p = None))
    | None => Panic
    end
  | Branch children branch_value =>
    if is_empty key then Ok (bool_decide (proof_value p = branch_value)) else
    match at_ key 0 with
    | None => Panic
    | Some nibble =>
      match child_at children nibble with
      | None => Panic
      | Some None => Ok (bool_decide (proof_value p = None))
      | Some (Some child_hash) =>
        match offset key 1 with
        | Some remaining => verify_path p fuel child_hash remaining (S i)
        | None => Panic
        end
      end
    end
  end.

Lemma verify_path_S p fuel h key i :
  verify_path p (S fuel) h key i =
  match proof_nodes p !! i with
  | None => Ok false
  | Some bs =>
    match from_slice bs with
    | None => Err Serialization
    | Some node => if decide (node_hash node = h) then verify_step p fuel key i node else Ok false
    end
  end.
Proof. done. Qed.

(** Only the node of [t] itself hashes to the hash of [t]. *)
Lemma verify_path_inv p fuel t key i :
  verify_path p (S fuel) (thash t) key i = Ok true -> verify_step p fuel key i (node_of t) = Ok true.
Proof.
  rewrite verify_path_S. destruct (proof_nodes p !! i) as [bs|]; [|done].
  destruct (from_slice bs) as [n|]; [|done]. case_decide as E; [|done].
  rewrite <- node_hash_of in E. apply node_hash_inj in E as ->. done.
Qed.

Lemma verify_path_node p fuel t key i :
  proof_nodes p !! i = Some (to_vec (node_of t)) ->
  verify_path p (S fuel) (thash t) key i = verify_step p fuel key i (node_of t).
Proof.
  intros H. rewrite verify_path_S, H, from_slice_to_vec. by rewrite decide_True by apply node_hash_of.
Qed.

(** One step on the honest node: a verdict, or a recursive call. *)
Lemma verify_step_leaf p fuel key ks i k v :
  nibs k -> repr key ks ->
  verify_step p fuel key i (node_of (TLeaf k v)) = Ok (bool_decide (proof_value p = tlook (TLeaf k v) ks)).
Proof.
  intros Hk Hr. cbn [node_of verify_step tlook]. rewrite (repr_to_nibbles _ _ Hr).
  rewrite (repr_to_nibbles _ _ (repr_from_nibbles k Hk)).
  case_decide; f_equal; by apply bool_decide_ext.
Qed.

Lemma verify_step_ext p fuel key ks i k t :
  nibs k -> repr key ks ->
  (exists key' r, ks = k ++ r /\ repr key' r /\
     verify_step p fuel key i (node_of (TExt k t)) = verify_path p fuel (thash t) key' (S i)) \/
  (~ k `prefix_of` ks /\
     verify_step p fuel key i (node_of (TExt k t)) = Ok (bool_decide (proof_value p = None))).
Proof.
  intros Hk Hr. pose proof (repr_from_nibbles k Hk) as Hrk. cbn [node_of verify_step].
  rewrite (repr_starts_with _ _ _ _ Hr Hrk), (repr_len _ _ Hrk). case_bool_decide as Hp; [left|by right].
  destruct Hp as [r ->].
  destruct (repr_offset key (k ++ r) (length k) Hr) as (key' & -> & Hr'); [rewrite length_app; lia|].
  rewrite drop_app_length in Hr'. by exists key', r.
Qed.

Lemma verify_step_branch p fuel key x ks i cs :
  length cs = 16%nat -> repr key (x :: ks) ->
  (exists key' t, cs !! Z.to_nat x = Some (Some t) /\ repr key' ks /\
     verify_step p fuel key i (node_of (TBranch cs)) = verify_path p fuel (thash t) key' (S i)) \/
  (cs !! Z.to_nat x = Some None /\
     verify_step p fuel key i (node_of (TBranch cs)) = Ok (bool_decide (proof_value p = None))).
Proof.
  intros Hl Hr. destruct (repr_uncons _ _ _ Hr) as (Hx & E & Ex & key' & Eo & Hr').
  rewrite node_of_branch. cbn [verify_step]. rewrite E, Ex.
  destruct (child_at_spec cs x Hl Hx) as (o & Ho & ->). destruct o as [t|]; simpl.
  - left. rewrite Eo. by exists key', t.
  - by right.
Qed.

(** Soundness: an accepted proof carries the trie's value. *)
Lemma verify_path_sound n t : wf n t -> forall p fuel key ks i,
  repr key ks -> length ks = n ->
  verify_path p fuel (thash t) key i = Ok true -> proof_value p = tlook t ks.
Proof.
  induction 1 as [k v Hk|m k t Hk Hne Hb Ht IH|n cs Hl Hc IH Hn]; intros p fuel key ks i Hr Hks;
    (destruct fuel as [|fuel]; [done|]); intros H%verify_path_inv.
  - rewrite (verify_step_leaf p fuel key ks) in H by done. injection H as H.
    by apply bool_decide_eq_true in H.
  - destruct (verify_step_ext p fuel key ks i k t Hk Hr) as [(key' & r & -> & Hr' & E)|[Hp E]];
      rewrite E in H.
    + rewrite tlook_ext_app. rewrite length_app in Hks. eapply IH; [done|lia|done].
    + injection H as H%bool_decide_eq_true. simpl. by rewrite decide_False.
  - destruct ks as [|x ks]; [done|]. rewrite tlook_branch.
    destruct (verify_step_branch p fuel key x ks i cs Hl Hr) as [(key' & t & Ht & Hr' & E)|[Hp E]];
      rewrite E in H.
    + rewrite Ht. eapply IH; [done|done|by injection Hks|done].
    + injection H as H%bool_decide_eq_true. by rewrite Hp.
Qed.

(** Completeness: [collect_proof] finds the value and the nodes that make
    [verify_path] accept it. *)
Definition proves (t : tree) (ks : list Z) (path : list bytes) : Prop :=
  forall p fuel key pre suf,
    proof_value p = tlook t ks -> proof_nodes p = pre ++ path ++ suf -> (length path <= fuel)%nat ->
    repr key ks -> verify_path p fuel (thash t) key (length pre) = Ok true.

Lemma proves_cons t ks t' ks' path :
  (forall p fuel key pre suf,
     proof_value p = tlook t ks ->
     proof_nodes p = pre ++ (to_vec (node_of t) :: path) ++ suf -> (length path <= fuel)%nat ->
     repr key ks ->
     exists key', repr key' ks' /\ verify_step p fuel key (length pre) (node_of t) =
                                   verify_path p fuel (thash t') key' (S (length pre))) ->
  tlook t ks = tlook t' ks' -> proves t' ks' path -> proves t ks (to_vec (node_of t) :: path).
Proof.
  intros Hstep Hl Hp p fuel key pre suf Hv Hnodes Hf Hr. destruct fuel as [|fuel]; [simpl in Hf; lia|].
  rewrite verify_path_node.
  2:{ rewrite Hnodes. rewrite <- (app_comm_cons path suf). by rewrite list_lookup_middle. }
  destruct (Hstep p fuel key pre suf) as (key' & Hr' & ->); try done; [simpl in Hf; lia|].
  replace (S (length pre)) with (length (pre ++ [to_vec (node_of t)])) by (rewrite length_app; simpl; lia).
  apply (Hp _ _ _ _ suf); [congruence| |simpl in Hf; lia|done].
  rewrite Hnodes. by rewrite <- !(assoc_L app).
Qed.

Lemma proves_last t ks :
  (forall p fuel key i, repr key ks ->
     verify_step p fuel key i (node_of t) = Ok (bool_decide (proof_value p = tlook t ks))) ->
  proves t ks [to_vec (node_of t)].
Proof.
  intros Hstep p fuel key pre suf Hv Hnodes Hf Hr. destruct fuel as [|fuel]; [simpl in Hf; lia|].
  rewrite verify_path_node by (rewrite Hnodes; cbn [app]; by rewrite list_lookup_middle).
  rewrite Hstep by done. by rewrite bool_decide_eq_true_2.
Qed.

Lemma proves_ext k t r path :
  nibs k -> proves t r path -> proves (TExt k t) (k ++ r) (to_vec (node_of (TExt k t)) :: path).
Proof.
  intros Hk Hp. apply (proves_cons _ _ t r); [|apply tlook_ext_app|done].
  intros p f key1 pre suf _ _ _ Hr1.
  destruct (verify_step_ext p f key1 (k ++ r) (length pre) k t Hk Hr1)
    as [(key2 & r' & Er & Hr2 & E3)|[[] _]]; [|by apply prefix_app_r].
  apply app_inv_head in Er as <-. by exists key2.
Qed.

Lemma proves_ext_absent k t ks :
  nibs k -> ~ k `prefix_of` ks -> proves (TExt k t) ks [to_vec (node_of (TExt k t))].
Proof.
  intros Hk Hp. apply proves_last. intros p f key1 i Hr1.
  destruct (verify_step_ext p f key1 ks i k t Hk Hr1) as [(key2 & r' & -> & _)|[_ ->]].
  - by destruct Hp; apply prefix_app_r.
  - f_equal. apply bool_decide_ext. cbn [tlook]. by rewrite decide_False.
Qed.

Lemma proves_branch cs x u ks path :
  length cs = 16%nat -> cs !! Z.to_nat x = Some (Some u) -> proves u ks path ->
  proves (TBranch cs) (x :: ks) (to_vec (node_of (TBranch cs)) :: path).
Proof.
  intros Hl Hcx Hp. apply (proves_cons _ _ u ks); [|by rewrite tlook_branch, Hcx|done].
  intros p f key1 pre suf _ _ _ Hr1.
  destruct (verify_step_branch p f key1 x ks (length pre) cs Hl Hr1)
    as [(key2 & t' & Et & Hr2 & E3)|[Et _]]; rewrite Hcx in Et; [|done].
  injection Et as <-. by exists key2.
Qed.

Lemma proves_branch_absent cs x ks :
  length cs = 16%nat -> cs !! Z.to_nat x = Some None ->
  proves (TBranch cs) (x :: ks) [to_vec (node_of (TBranch cs))].
Proof.
  intros Hl Hcx. apply proves_last. intros p f key1 i Hr1.
  destruct (verify_step_branch p f key1 x ks i cs Hl Hr1) as [(key2 & t' & Et & _)|[_ ->]].
  - by rewrite Hcx in Et.
  - f_equal. apply bool_decide_ext. by rewrite tlook_branch, Hcx.
Qed.

Lemma collect_proof_spec n t : wf n t -> forall db fuel key ks builder tr,
  (n < fuel)%nat -> repr key ks -> length ks = n -> tr_ok tr -> stored db tr t ->
  exists path tr', collect_proof db fuel (thash t) key builder tr =
    (Ok (tlook t ks, builder ++ path), tr') /\ grows db tr tr' /\ path <> [] /\ proves t ks path.
Proof.
  induction 1 as [k v Hk|m k t Hk Hne Hb Ht IH|n cs Hl Hc IH Hn];
    intros db fuel key ks builder tr Hf Hr Hks Htr Hs;
    (destruct fuel as [|fuel]; [lia|]); cbn [collect_proof]; rewrite decide_False by apply thash_nonzero;
    destruct (get_tree_spec db tr _ Htr Hs) as (tr1 & E & G); rewrite (bind_ok _ _ _ _ _ E);
    pose proof (stored_grows _ _ _ _ G Hs) as Hs1; pose proof (grows_ok _ _ _ G) as Htr1.
  - cbn [node_of]. rewrite (bind_or_panic _ _ _ _ (repr_to_nibbles _ _ Hr)).
    rewrite (bind_or_panic _ _ _ _ (repr_to_nibbles _ _ (repr_from_nibbles k Hk))).
    eexists [_], tr1. split_and!; [done|done|done|]. apply proves_last. intros. by apply verify_step_leaf.
  - cbn [node_of]. change (Extension k _) with (node_of (TExt k t)). fold (thash t).
    pose proof (repr_from_nibbles k Hk) as Hrk.
    rewrite (bind_or_panic _ _ _ _ (repr_starts_with _ _ _ _ Hr Hrk)).
    case_bool_decide as Hp.
    + destruct Hp as [r ->]. rewrite (repr_len _ _ Hrk). rewrite length_app in Hks.
      destruct (repr_offset key (k ++ r) (length k) Hr) as (key' & Eo & Hr'); [rewrite length_app; lia|].
      rewrite drop_app_length in Hr'. rewrite (bind_or_panic _ _ _ _ Eo).
      destruct (IH db fuel key' r (builder ++ [to_vec (node_of (TExt k t))]) tr1)
        as (path & tr2 & E2 & G2 & _ & Hpr); [|done|lia|done|by eapply stored_ext|].
      { destruct k; [done|simpl in Hf; lia]. }
      exists (to_vec (node_of (TExt k t)) :: path), tr2. rewrite tlook_ext_app.
      split_and!; [by rewrite E2, <- (assoc_L app)|by eapply grows_trans|done|by apply proves_ext].
    + exists [to_vec (node_of (TExt k t))], tr1.
      assert (tlook (TExt k t) ks = None) as -> by (cbn [tlook]; by rewrite decide_False).
      split_and!; [done|done|done|by apply proves_ext_absent].
  - rewrite node_of_branch. destruct ks as [|x ks]; [done|].
    destruct (repr_uncons _ _ _ Hr) as (Hx & -> & Ex & key' & Eo & Hr').
    rewrite (bind_or_panic _ _ _ _ Ex).
    destruct (child_at_spec cs x Hl Hx) as (c & Hcx & Ec). rewrite (bind_or_panic _ _ _ _ Ec).
    rewrite <- node_of_branch, tlook_branch, Hcx. destruct c as [u|]; cbn [fmap option_fmap option_map clook].
    + rewrite (bind_or_panic _ _ _ _ Eo). injection Hks as Hks.
      destruct (IH _ _ Hcx db fuel key' ks (builder ++ [to_vec (node_of (TBranch cs))]) tr1)
        as (path & tr2 & E2 & G2 & _ & Hpr); [lia|done|done|done|by eapply stored_child|].
      exists (to_vec (node_of (TBranch cs)) :: path), tr2.
      split_and!; [by rewrite E2, <- (assoc_L app)|by eapply grows_trans|done|by eapply proves_branch].
    + exists [to_vec (node_of (TBranch cs))], tr1.
      split_and!; [done|done|done|by apply proves_branch_absent].
Qed.

(** ** The public statements *)

Lemma get_proof_maps L db (tr : Trie C) m k :
  key_ok L k -> trie_maps L db tr m ->
  exists p tr', get_proof db k tr = (Ok p, tr') /\ proof_key p = k /\ proof_value p = m !! k /\
    verify p (root tr) = Ok true /\ grows db tr tr'.
Proof.
  intros Hk (Htr & o & Hr & Hs & Hw & Hl & _). unfold get_proof, verify. rewrite bind_gets, Hr.
  destruct (key_repr L k Hk) as (Hrk & Hlen & Hn & ->). specialize (Hl k Hk).
  destruct o as [t|]; cbn [ohash olook] in *.
  - destruct (collect_proof_spec (L * 2) t Hw db (S (L * 2)) (from_bytes k) (nibs_of_bytes k) [] tr)
      as (path & tr' & E & G & Hne & Hp); try done; [lia|].
    rewrite (bind_ok _ _ _ _ _ E). eexists _, tr'. split; [done|]. cbn [proof_key proof_value proof_nodes app].
    split_and!; [done|done| |done]. rewrite decide_False by apply thash_nonzero.
    rewrite decide_False by done.
    apply (Hp _ _ _ [] []); [done|by rewrite app_nil_r|simpl; lia|done].
  - exists (mkProof k None []), tr. split_and!; [done|done|done|done|by apply grows_refl].
Qed.

Lemma verify_maps_sound L db (tr : Trie C) m p :
  key_ok L (proof_key p) -> trie_maps L db tr m -> verify p (root tr) = Ok true ->
  proof_value p = m !! proof_key p.
Proof.
  intros Hk (Htr & o & Hr & Hs & Hw & Hl & _) H. rewrite <- Hl by done. unfold verify in H. rewrite Hr in H.
  destruct (key_repr L _ Hk) as (Hrk & Hlen & Hn & _). destruct o as [t|]; cbn [ohash olook] in *.
  - rewrite decide_False in H by apply thash_nonzero. case_decide; [done|].
    by eapply (verify_path_sound (L * 2) t Hw).
  - rewrite decide_True in H by done. by injection H as H%bool_decide_eq_true.
Qed.

(** C19 (Merkle proofs are complete): for a trie that holds the map [m], a
    proof made by [get_proof] for any key carries exactly [m]'s entry for
    that key, absence included, verifies against the trie's root, and making
    it does not change the trie. *)
Theorem merkle_proof_complete L db (tr : Trie C) m k :
  key_ok L k -> trie_maps L db tr m ->
  exists p tr', get_proof db k tr = (Ok p, tr') /\ proof_key p = k /\ proof_value p = m !! k /\
    verify p (root tr) = Ok true /\ root tr' = root tr /\ trie_maps L db tr' m.
Proof.
  intros Hk Hm. destruct (get_proof_maps L db tr m k Hk Hm) as (p & tr' & E & Ek & Ev & Hv & G).
  exists p, tr'. split_and!; try done; [by destruct G as (_ & ? & _)|by eapply trie_maps_grows].
Qed.

(** C20 (Merkle proofs are sound): whatever bytes a proof consists of, if it
    verifies against the root of a trie then its value is what the trie holds
    under its key; in particular no proof of a wrong value, and no proof of
    absence of a present key, verifies. *)
Theorem merkle_proof_sound L db (tr : Trie C) m p :
  key_ok L (proof_key p) -> trie_maps L db tr m -> verify p (root tr) = Ok true ->
  proof_value p = m !! proof_key p.
Proof. apply verify_maps_sound. Qed.
End merkle.

Section examples.
#[local] Existing Instances tagged_blake3 tagged_blake3_ok node_borsh node_borsh_ok.

Lemma merkle_proof_complete_witness :
  exists (tr : Trie Lru.t) p tr', get_proof (∅ : RocksMap) [18; 52] tr = (Ok p, tr') /\
    proof_value p = Some [7] /\ verify p (root tr) = Ok true.
Proof.
  destruct example_trie as (tr & Hm). exists tr.
  destruct (merkle_proof_complete 2 (∅ : RocksMap) tr _ [18; 52] ltac:(by_decide) Hm) as (p & tr' & E & _ & Hv & Hok & _).
  by exists p, tr'.
Defined.

Lemma merkle_proof_sound_witness :
  exists (tr : Trie Lru.t) p, verify p (root tr) = Ok true /\ proof_value p = Some [7].
Proof.
  destruct example_trie as (tr & Hm).
  destruct (get_proof_maps 2 (∅ : RocksMap) tr _ [18; 52] ltac:(by_decide) Hm) as (p & tr' & E & Ek & Hv & Hok & _).
  exists tr, p. split; [done|].
  rewrite (merkle_proof_sound 2 (∅ : RocksMap) tr _ p ltac:(rewrite Ek; by_decide) Hm Hok). by rewrite Ek.
Defined.
End examples.
