(* ===== verification/Types.v ===== *)
(** * Core types (src/crates/qfc-types/src: primitives.rs, constants.rs,
    account.rs, transaction.rs, receipt.rs, validator.rs)

    [U256] is a [Z] in [0, 2^256): its [+], [-], [*] and [/] panic on
    overflow, underflow and division by zero, as [primitive_types] documents,
    and are partial functions here; the saturating operations are total.
    [u64] arithmetic wraps, as in a release build. *)

From S2P Require Import Prelude Externals.

(** ** U256 (primitives.rs) *)

Definition u256_ok (x : Z) : Prop := in_u 256 x.
Definition U256_MAX : Z := u_max 256.

Definition checked (x : Z) : option Z := if (0 <=? x) && (x <? 2 ^ 256) then Some x else None.
Definition u256_add (a b : Z) : option Z := checked (a + b).
Definition u256_sub (a b : Z) : option Z := checked (a - b).
Definition u256_mul (a b : Z) : option Z := checked (a * b).
Definition u256_div (a b : Z) : option Z := if b =? 0 then None else Some (a / b).
Definition u256_sat_add (a b : Z) : Z := sat_add 256 a b.
Definition u256_sat_sub (a b : Z) : Z := sat_sub a b.
Definition low_u64 (a : Z) : Z := wrap 64 a.
Definition low_u128 (a : Z) : Z := wrap 128 a.
Definition u256_to_be (a : Z) : bytes := to_be 32 a.
Definition u256_from_be (bs : bytes) : Z := from_be bs.

(** ** Constants (constants.rs) *)

Definition TESTNET_CHAIN_ID : Z := 9000.
Definition EVM_OPCODE_ACTIVATION_HEIGHT : Z := 13000.
Definition DEFAULT_CHAIN_ID : Z := TESTNET_CHAIN_ID.
Definition MINIMUM_GAS : Z := 21000.
Definition TRANSFER_GAS : Z := 21000.
Definition CONTRACT_CREATE_GAS : Z := 53000.
Definition GAS_PER_BYTE : Z := 16.
Definition GAS_PER_ZERO_BYTE : Z := 4.
Definition DEFAULT_BLOCK_GAS_LIMIT : Z := 30000000.
Definition MAX_TRANSACTIONS_PER_BLOCK : nat := 100 * 100.
Definition BLOCK_INTERVAL_MS : Z := 5000.
Definition EPOCH_DURATION_MS : Z := 10000.
Definition EPOCH_DURATION_SECS : Z := EPOCH_DURATION_MS / 1000.
Definition MAX_TIMESTAMP_DRIFT_MS : Z := 1500.
Definition ONE_QFC : Z := 10 ^ 18.
Definition ONE_GWEI : Z := 10 ^ 9.
Definition MIN_VALIDATOR_STAKE : Z := 10 ^ 22.
Definition MAX_ACTIVE_VALIDATORS : nat := 1000.
Definition BLOCK_REWARD : Z := 10 ^ 19.
Definition PRODUCER_REWARD_PERCENT : Z := 60.
Definition VOTERS_REWARD_PERCENT : Z := 25.
Definition INFERENCE_MINERS_REWARD_PERCENT : Z := 15.
Definition FEE_PRODUCER_PERCENT : Z := 47.
Definition FEE_VOTERS_PERCENT : Z := 28.
Definition FEE_BURN_PERCENT : Z := 20.
Definition FEE_TREASURY_PERCENT : Z := 5.
Definition MIN_BLOCK_REWARD : Z := 625000000000000000.
Definition UNSTAKE_DELAY_SECS : Z := 7 * 24 * 60 * 60.
Definition MIN_DELEGATION : Z := 100 * ONE_QFC.
Definition MAX_VALIDATOR_STAKE_PERCENT : Z := 20.
Definition MIN_GAS_PRICE : Z := ONE_GWEI.
Definition MEMPOOL_MAX_SIZE : nat := 100 * 100.
Definition MEMPOOL_MAX_PER_ACCOUNT : nat := 64.
Definition TX_LIFETIME_SECS : Z := 3600.
Definition JAIL_PERMANENT_MS : Z := u_max 64.
Definition TREASURY_ADDRESS : Address := [81; 70] ++ replicate 17 0 ++ [1].

Definition max_validator_stake (total_stake : Z) : option Z :=
  p ← u256_mul total_stake MAX_VALIDATOR_STAKE_PERCENT; u256_div p 100.

Definition block_reward_for_year (year : Z) : Z :=
  let halvings := Z.min year 4 in
  Z.max (Z.shiftr BLOCK_REWARD halvings) MIN_BLOCK_REWARD.

(** ** Accounts (account.rs) *)

Inductive AccountType := EOA | Contract | Validator.

#[export] Instance AccountType_eq_dec : EqDecision AccountType.
Proof. solve_decision. Defined.

Record Account := mkAccount {
  account_type : AccountType;
  balance : Z;
  nonce : Z;
  code_hash : option Hash;
  storage_root : option Hash;
  stake : option Z;
  contribution_score : option Z;
  delegated_to : option Address;
  delegated_amount : option Z;
  storage_deposit : Z;
  last_active_epoch : Z;
  storage_slot_count : Z;
  is_dormant : bool;
}.

#[export] Instance Account_eq_dec : EqDecision Account.
Proof. solve_decision. Defined.

(** The format before the storage-rent fields. *)
Record LegacyAccount := mkLegacyAccount {
  l_account_type : AccountType;
  l_balance : Z;
  l_nonce : Z;
  l_code_hash : option Hash;
  l_storage_root : option Hash;
  l_stake : option Z;
  l_contribution_score : option Z;
  l_delegated_to : option Address;
  l_delegated_amount : option Z;
}.

Module Acc.

Definition set_account_type (x : AccountType) (a : Account) : Account :=
  mkAccount x (balance a) (nonce a) (code_hash a) (storage_root a) (stake a) (contribution_score a)
    (delegated_to a) (delegated_amount a) (storage_deposit a) (last_active_epoch a) (storage_slot_count a) (is_dormant a).
Definition set_balance (x : Z) (a : Account) : Account :=
  mkAccount (account_type a) x (nonce a) (code_hash a) (storage_root a) (stake a) (contribution_score a)
    (delegated_to a) (delegated_amount a) (storage_deposit a) (last_active_epoch a) (storage_slot_count a) (is_dormant a).
Definition set_nonce (x : Z) (a : Account) : Account :=
  mkAccount (account_type a) (balance a) x (code_hash a) (storage_root a) (stake a) (contribution_score a)
    (delegated_to a) (delegated_amount a) (storage_deposit a) (last_active_epoch a) (storage_slot_count a) (is_dormant a).
Definition set_code_hash (x : option Hash) (a : Account) : Account :=
  mkAccount (account_type a) (balance a) (nonce a) x (storage_root a) (stake a) (contribution_score a)
    (delegated_to a) (delegated_amount a) (storage_deposit a) (last_active_epoch a) (storage_slot_count a) (is_dormant a).
Definition set_storage_root (x : option Hash) (a : Account) : Account :=
  mkAccount (account_type a) (balance a) (nonce a) (code_hash a) x (stake a) (contribution_score a)
    (delegated_to a) (delegated_amount a) (storage_deposit a) (last_active_epoch a) (storage_slot_count a) (is_dormant a).
Definition set_stake_field (x : option Z) (a : Account) : Account :=
  mkAccount (account_type a) (balance a) (nonce a) (code_hash a) (storage_root a) x (contribution_score a)
    (delegated_to a) (delegated_amount a) (storage_deposit a) (last_active_epoch a) (storage_slot_count a) (is_dormant a).
Definition set_score_field (x : option Z) (a : Account) : Account :=
  mkAccount (account_type a) (balance a) (nonce a) (code_hash a) (storage_root a) (stake a) x
    (delegated_to a) (delegated_amount a) (storage_deposit a) (last_active_epoch a) (storage_slot_count a) (is_dormant a).
Definition set_delegation_fields (t : option Address) (x : option Z) (a : Account) : Account :=
  mkAccount (account_type a) (balance a) (nonce a) (code_hash a) (storage_root a) (stake a) (contribution_score a)
    t x (storage_deposit a) (last_active_epoch a) (storage_slot_count a) (is_dormant a).

Definition new_eoa : Account :=
  mkAccount EOA 0 0 None None None None None None 0 0 0 false.
Definition new_eoa_with_balance (b : Z) : Account :=
  mkAccount EOA b 0 None None None None None None 0 0 0 false.
Definition new_contract (code_hash : Hash) : Account :=
  mkAccount Contract 0 1 (Some code_hash) None None None None None 0 0 0 false.
Definition new_validator (s : Z) : Account :=
  mkAccount Validator 0 0 None None (Some s) (Some 0) None None 0 0 0 false.

Definition has_code (a : Account) : bool := bool_decide (is_Some (code_hash a)).
Definition is_empty (a : Account) : bool :=
  (balance a =? 0) && (nonce a =? 0) && bool_decide (code_hash a = None).
Definition get_stake (a : Account) : Z := default 0 (stake a).
Definition get_contribution_score (a : Account) : Z := default 0 (contribution_score a).

Definition add_balance (amount : Z) (a : Account) : Account :=
  set_balance (u256_sat_add (balance a) amount) a.
(** [false] and no change when the balance is insufficient. *)
Definition sub_balance (amount : Z) (a : Account) : bool * Account :=
  if amount <=? balance a then (true, set_balance (balance a - amount) a) else (false, a).
Definition increment_nonce (a : Account) : Account := set_nonce (sat_add 64 (nonce a) 1) a.
Definition set_stake (s : Z) (a : Account) : Account :=
  let a := set_stake_field (Some s) a in
  if decide (account_type a = EOA) then set_account_type Validator a else a.
Definition set_contribution_score (s : Z) (a : Account) : Account := set_score_field (Some s) a.
Definition get_delegated_amount (a : Account) : Z := default 0 (delegated_amount a).
Definition has_delegation (a : Account) : bool :=
  bool_decide (is_Some (delegated_to a)) && match delegated_amount a with Some x => negb (x =? 0) | None => false end.
Definition set_delegation (validator : Address) (amount : Z) (a : Account) : Account :=
  set_delegation_fields (Some validator) (Some amount) a.
Definition clear_delegation (a : Account) : Account := set_delegation_fields None None a.
Definition add_delegated_amount (amount : Z) (a : Account) : Account :=
  set_delegation_fields (delegated_to a) (Some (u256_sat_add (default 0 (delegated_amount a)) amount)) a.
Definition sub_delegated_amount (amount : Z) (a : Account) : bool * Account :=
  let current := default 0 (delegated_amount a) in
  if amount <=? current then
    let new_amount := current - amount in
    (true, if new_amount =? 0 then clear_delegation a
           else set_delegation_fields (delegated_to a) (Some new_amount) a)
  else (false, a).

End Acc.

Section account_bytes.
Context `{BA : Borsh Account} `{BL : Borsh LegacyAccount}.

Definition account_to_bytes (a : Account) : bytes := to_vec a.

(** The current format first, then the legacy one. *)
Definition account_from_bytes (bs : bytes) : option Account :=
  match from_slice bs with
  | Some account => Some account
  | None =>
    legacy ← (from_slice bs : option LegacyAccount);
    Some (mkAccount (l_account_type legacy) (l_balance legacy) (l_nonce legacy) (l_code_hash legacy)
      (l_storage_root legacy) (l_stake legacy) (l_contribution_score legacy) (l_delegated_to legacy)
      (l_delegated_amount legacy) 0 0 0 false)
  end.
End account_bytes.

(** ** Undelegations (validator.rs) *)

Record Undelegation := mkUndelegation {
  u_delegator : Address;
  u_validator : Address;
  u_amount : Z;
  u_unlock_at : Z;
}.

#[export] Instance Undelegation_eq_dec : EqDecision Undelegation.
Proof. solve_decision. Defined.

Definition is_unlocked (u : Undelegation) (current_time : Z) : bool := u_unlock_at u <=? current_time.

(** [Undelegation::storage_key]: delegator ++ validator ++ unlock time. *)
Definition storage_key (delegator validator : Address) (unlock_at : Z) : bytes :=
  delegator ++ validator ++ to_be 8 unlock_at.

(** ** Transactions (transaction.rs) *)

Abbreviation PublicKey := bytes.
Abbreviation Signature := bytes.

Inductive TransactionType :=
| Transfer | ContractCreate | ContractCall | Stake | Unstake | ValidatorRegister | ValidatorExit
| Delegate | Undelegate | ClaimDelegationRewards | InferenceTask.

#[export] Instance TransactionType_eq_dec : EqDecision TransactionType.
Proof. solve_decision. Defined.

Record Transaction := mkTransaction {
  tx_type : TransactionType;
  tx_chain_id : Z;
  tx_nonce : Z;
  tx_to : option Address;
  tx_value : Z;
  tx_data : bytes;
  tx_gas_limit : Z;
  tx_gas_price : Z;
  tx_public_key : PublicKey;
  tx_signature : Signature;
}.

#[export] Instance Transaction_eq_dec : EqDecision Transaction.
Proof. solve_decision. Defined.

Record UnsignedTransaction := mkUnsigned {
  un_tx_type : TransactionType;
  un_chain_id : Z;
  un_nonce : Z;
  un_to : option Address;
  un_value : Z;
  un_data : bytes;
  un_gas_limit : Z;
  un_gas_price : Z;
  un_public_key : PublicKey;
}.

Record SignedTransaction := mkSigned {
  st_tx : Transaction;
  st_hash : Hash;
  st_sender : Address;
}.

Definition unsigned_of (tx : Transaction) : UnsignedTransaction :=
  mkUnsigned (tx_type tx) (tx_chain_id tx) (tx_nonce tx) (tx_to tx) (tx_value tx) (tx_data tx)
    (tx_gas_limit tx) (tx_gas_price tx) (tx_public_key tx).

Definition to_bytes_without_signature `{Borsh UnsignedTransaction} (tx : Transaction) : bytes :=
  to_vec (unsigned_of tx).

(** [gas_price * gas_limit] and [value + gas_cost] on [U256]: both can panic. *)
Definition gas_cost (tx : Transaction) : option Z := u256_mul (tx_gas_price tx) (tx_gas_limit tx).
Definition total_cost (tx : Transaction) : option Z := c ← gas_cost tx; u256_add (tx_value tx) c.

Definition is_contract_create (tx : Transaction) : bool := bool_decide (tx_type tx = ContractCreate).

Definition data_gas (tx : Transaction) : Z :=
  foldl (fun gas byte => u64_add gas (if byte =? 0 then GAS_PER_ZERO_BYTE else GAS_PER_BYTE)) 0 (tx_data tx).

Definition intrinsic_gas (tx : Transaction) : Z :=
  let base := if is_contract_create tx then CONTRACT_CREATE_GAS else TRANSFER_GAS in
  u64_add base (data_gas tx).

(** ** Receipts (receipt.rs) *)

Record Log := mkLog {
  log_address : Address;
  log_topics : list Hash;
  log_data : bytes;
}.

(** The integers of a transaction are at their widths. *)
Definition tx_ok (tx : Transaction) : Prop :=
  in_u 64 (tx_nonce tx) /\ in_u 256 (tx_value tx) /\ in_u 64 (tx_gas_limit tx) /\
  in_u 256 (tx_gas_price tx).

(** The integers of an account are at their widths. *)
Definition account_ok (a : Account) : Prop :=
  in_u 256 (balance a) /\ in_u 64 (nonce a) /\ in_u 256 (Acc.get_stake a) /\
  in_u 256 (Acc.get_delegated_amount a).

(** ** Lemmas *)

Section lemmas.

Lemma account_roundtrip `{BorshOk Account} `{Borsh LegacyAccount} (a : Account) :
  account_from_bytes (account_to_bytes a) = Some a.
Proof. unfold account_from_bytes, account_to_bytes. by rewrite from_slice_to_vec. Qed.

Lemma checked_Some x y : checked x = Some y <-> x = y /\ in_u 256 x.
Proof.
  unfold checked, in_u.
  destruct (Z.leb_spec 0 x), (Z.ltb_spec x (2 ^ 256)); simpl; split; intros;
    try done; simplify_eq; try lia; destruct_and?; by subst || lia.
Qed.
End lemmas.

#[export] Instance in_u_dec w x : Decision (in_u w x).
Proof. unfold in_u. apply _. Defined.

(** ** Concrete serialisations *)

#[export] Instance AccountType_countable : Countable AccountType.
Proof.
  refine (inj_countable' (fun t => match t with EOA => 0%nat | Contract => 1%nat | Validator => 2%nat end)
    (fun n => match n with O => EOA | 1%nat => Contract | _ => Validator end) _).
  by intros [].
Defined.

#[export] Instance Account_countable : Countable Account.
Proof.
  refine (inj_countable'
    (fun a => (account_type a, balance a, nonce a, code_hash a, storage_root a, stake a, contribution_score a,
               delegated_to a, delegated_amount a, storage_deposit a, last_active_epoch a,
               storage_slot_count a, is_dormant a))
    (fun '(x1, x2, x3, x4, x5, x6, x7, x8, x9, x10, x11, x12, x13) =>
       mkAccount x1 x2 x3 x4 x5 x6 x7 x8 x9 x10 x11 x12 x13) _).
  by intros [].
Defined.

#[export] Instance Undelegation_countable : Countable Undelegation.
Proof.
  refine (inj_countable' (fun u => (u_delegator u, u_validator u, u_amount u, u_unlock_at u))
    (fun '(a, b, c, d) => mkUndelegation a b c d) _).
  by intros [].
Defined.

#[export] Instance TransactionType_countable : Countable TransactionType.
Proof.
  refine (inj_countable'
    (fun t => match t with
      | Transfer => 0 | ContractCreate => 1 | ContractCall => 2 | Stake => 3 | Unstake => 4
      | ValidatorRegister => 5 | ValidatorExit => 6 | Delegate => 7 | Undelegate => 8
      | ClaimDelegationRewards => 9 | InferenceTask => 10 end)
    (fun z => match z with
      | 0 => Transfer | 1 => ContractCreate | 2 => ContractCall | 3 => Stake | 4 => Unstake
      | 5 => ValidatorRegister | 6 => ValidatorExit | 7 => Delegate | 8 => Undelegate
      | 9 => ClaimDelegationRewards | _ => InferenceTask end) _).
  by intros [].
Defined.

#[export] Instance UnsignedTransaction_eq_dec : EqDecision UnsignedTransaction.
Proof. solve_decision. Defined.
#[export] Instance UnsignedTransaction_countable : Countable UnsignedTransaction.
Proof.
  refine (inj_countable'
    (fun u => (un_tx_type u, un_chain_id u, un_nonce u, un_to u, un_value u, un_data u, un_gas_limit u,
               un_gas_price u, un_public_key u))
    (fun '(x1, x2, x3, x4, x5, x6, x7, x8, x9) => mkUnsigned x1 x2 x3 x4 x5 x6 x7 x8 x9) _).
  by intros [].
Defined.

Definition unsigned_borsh : Borsh UnsignedTransaction := countable_borsh UnsignedTransaction.
Definition account_borsh : Borsh Account := countable_borsh Account.
Definition undelegation_borsh : Borsh Undelegation := countable_borsh Undelegation.

(** No byte string of the example databases is in the legacy format. *)
Definition no_legacy : Borsh LegacyAccount := {| to_vec _ := []; from_slice _ := None |}.

Lemma account_borsh_ok : @BorshOk Account account_borsh.
Proof. apply countable_borsh_ok. Qed.
Lemma undelegation_borsh_ok : @BorshOk Undelegation undelegation_borsh.
Proof. apply countable_borsh_ok. Qed.
