(* ===== verification/Crypto.v ===== *)
(** * Hashing, addresses, signatures and the VRF
    (src/crates/qfc-crypto/src: hash.rs, address.rs, signature.rs, vrf.rs)

    The crate wraps two third-party primitives: [blake3], an interface of
    Externals.v, and Ed25519 of [ed25519_dalek], an interface here. What is of
    the repository is modelled: the Merkle root of a list of hashes, the
    derivation of addresses, and a verifiable random function built from a
    deterministic signature.

    The theorems: the level-by-level loop of [merkle_root] terminates and
    computes the root of the perfect binary tree over the leaves; that root
    determines the leaves of two lists of the same length, but not the length;
    a proof made by a VRF key verifies under its public key. *)

From S2P Require Import Prelude Float64 Externals Types.

(** ** Ed25519 *)

Class Ed25519 : Type := {
  SigningKey : Type;
  verifying_key : SigningKey -> PublicKey;
  signing_key_sign : SigningKey -> bytes -> Signature;
  (** [VerifyingKey::from_bytes] accepts the key. *)
  verifying_key_ok : PublicKey -> bool;
  verifying_key_verify : PublicKey -> bytes -> Signature -> bool;
}.

(** A signature verifies under the key of its signer. *)
Class Ed25519Ok (ED : Ed25519) : Prop := {
  verifying_key_valid k : verifying_key_ok (verifying_key k) = true;
  sign_verify k m : verifying_key_verify (verifying_key k) m (signing_key_sign k m) = true;
}.

(** ** Errors (error.rs) *)

Inductive CryptoError :=
| InvalidSignature_c | InvalidPublicKey | InvalidSecretKey | InvalidVrfProof_c | VerificationFailed
| KeyGenerationFailed (s : string) | SerializationError (s : string).

(** ** VRF proofs (qfc-types, block.rs) *)

Record VrfProof := mkVrfProof {
  vrf_output : bytes;
  vrf_proof_bytes : bytes;
}.

#[export] Instance VrfProof_eq_dec : EqDecision VrfProof.
Proof. solve_decision. Defined.

Definition VrfProof_default : VrfProof := mkVrfProof (replicate 32 0) (replicate 64 0).

Section crypto.
Context `{B : Blake3} `{ED : Ed25519}.

(** ** Hashing (hash.rs) *)

Definition blake3_hash (data : bytes) : Hash := blake3 data.

(** Successive updates of one hasher hash the concatenation. *)
Definition blake3_hash_many (items : list bytes) : Hash := blake3 (concat items).

(** One pass of the loop: [chunks(2)], the last chunk of an odd level paired with itself. *)
Fixpoint merkle_level (level : list Hash) : list Hash :=
  match level with
  | [] => []
  | [x] => [blake3_hash_many [x; x]]
  | x :: y :: level' => blake3_hash_many [x; y] :: merkle_level level'
  end.

(** [while current_level.len() > 1]; [None] when the fuel is used up or
    [current_level[0]] is out of range. *)
Fixpoint merkle_loop (fuel : nat) (current_level : list Hash) : option Hash :=
  if bool_decide (1 < length current_level)%nat then
    match fuel with
    | O => None
    | S fuel' => merkle_loop fuel' (merkle_level current_level)
    end
  else head current_level.

(** The loop ends with one hash for every non-empty list ([merkle_loop_ends]). *)
Definition merkle_root (hashes : list Hash) : Hash :=
  match hashes with
  | [] => Hash_ZERO
  | [h] => h
  | _ => default Hash_ZERO (merkle_loop (length hashes) hashes)
  end.

Definition transaction_hash (tx_bytes : bytes) : Hash := blake3_hash tx_bytes.
Definition block_hash_of (header_bytes : bytes) : Hash := blake3_hash header_bytes.

(** The separator between domain and data is a zero byte. *)
Definition domain_hash (domain data : bytes) : Hash := blake3 (domain ++ [0] ++ data).

(** ** Addresses (address.rs) *)

Definition hash_address (h : Hash) : Address := take 20 (drop 12 h).

Definition address_from_public_key (public_key : PublicKey) : Address := hash_address (blake3 public_key).

Definition contract_address (deployer : Address) (nonce : Z) : Address :=
  hash_address (blake3 ([255] ++ deployer ++ to_le 8 nonce)).

Definition create2_address (deployer : Address) (salt : bytes) (init_code_hash : Hash) : Address :=
  hash_address (blake3 ([255] ++ deployer ++ salt ++ init_code_hash)).

(** ** Signatures (signature.rs) *)

Definition verify_signature (public_key : PublicKey) (message : bytes) (signature : Signature) :
    Result CryptoError unit :=
  if verifying_key_ok public_key then
    if verifying_key_verify public_key message signature then Ok tt else Err VerificationFailed
  else Err InvalidPublicKey.

Definition verify_hash_signature (public_key : PublicKey) (hash : Hash) (signature : Signature) :
    Result CryptoError unit :=
  verify_signature public_key hash signature.

Definition is_ok {E A} (r : Result E A) : bool := match r with Ok _ => true | _ => false end.

Definition is_valid_signature (public_key : PublicKey) (message : bytes) (signature : Signature) : bool :=
  is_ok (verify_signature public_key message signature).
Definition is_valid_hash_signature (public_key : PublicKey) (hash : Hash) (signature : Signature) : bool :=
  is_ok (verify_hash_signature public_key hash signature).

(** ** The VRF (vrf.rs) *)

Record VrfKeypair := mkVrfKeypair { keypair : SigningKey }.

Definition vrf_public_key (k : VrfKeypair) : PublicKey := verifying_key (keypair k).

Definition prove (k : VrfKeypair) (input : bytes) : VrfProof :=
  let signature := signing_key_sign (keypair k) input in
  mkVrfProof (blake3 signature) signature.

Definition prove_with_seed (k : VrfKeypair) (seed : bytes) : VrfProof := prove k seed.

Definition vrf_verify (public_key : PublicKey) (input : bytes) (p : VrfProof) : Result CryptoError bytes :=
  match verify_signature public_key input (vrf_proof_bytes p) with
  | Ok _ =>
    if bool_decide (blake3 (vrf_proof_bytes p) = vrf_output p) then Ok (vrf_output p)
    else Err InvalidVrfProof_c
  | Err e => Err e
  | Panic => Panic
  | NoFuel => NoFuel
  end.

Definition vrf_verify_with_seed (public_key : PublicKey) (seed : bytes) (p : VrfProof) :
    Result CryptoError bytes :=
  vrf_verify public_key seed p.

Definition vrf_output_to_f64 (output : bytes) : f64 :=
  f64_div (f64_of (from_le (take 8 output))) (f64_of (u_max 64)).

Definition vrf_output_below_threshold (output : bytes) (threshold : f64) : bool :=
  f64_ltb (vrf_output_to_f64 output) threshold.

(** [value % max] panics for [max = 0]. *)
Definition vrf_output_to_range (output : bytes) (max : Z) : option Z :=
  if max =? 0 then None else Some (from_le (take 8 output) mod max).

Definition compute_selection_hash (output : bytes) (stake total_stake : Z) : Hash :=
  blake3 (output ++ to_le 8 stake ++ to_le 8 total_stake).
End crypto.

(** A proof verifies under the key that made it. *)
Lemma prove_verify `{B : Blake3} `{ED : Ed25519} `{!Ed25519Ok ED} (k : VrfKeypair) (input : bytes) :
  vrf_verify (vrf_public_key k) input (prove k input) = Ok (vrf_output (prove k input)).
Proof.
  unfold vrf_verify, verify_signature, vrf_public_key, prove. simpl.
  rewrite verifying_key_valid, sign_verify. by rewrite bool_decide_true.
Qed.

(** ** The Merkle root *)

(** All digests have one width, so that a digest in front of other bytes can be told apart. *)
Class FixedWidth (B : Blake3) : Prop :=
  blake3_prefix x y l1 l2 : blake3 x ++ l1 = blake3 y ++ l2 -> blake3 x = blake3 y.

Section merkle.
Context `{B : Blake3}.

(** The root of the perfect binary tree of depth [d] over the leaves, with a
    missing right subtree replaced by a copy of the left one. *)
Fixpoint perfect_root (d : nat) (l : list Hash) : Hash :=
  match d with
  | O => default Hash_ZERO (head l)
  | S d' =>
    let left := perfect_root d' (take (2 ^ d') l) in
    let right := match drop (2 ^ d') l with [] => left | r => perfect_root d' r end in
    blake3 (left ++ right)
  end.

Lemma perfect_root_S d l :
  perfect_root (S d) l =
    blake3 (perfect_root d (take (2 ^ d) l) ++
      match drop (2 ^ d) l with [] => perfect_root d (take (2 ^ d) l) | r => perfect_root d r end).
Proof. done. Qed.

Lemma merkle_level_take k l : merkle_level (take (2 * k) l) = take k (merkle_level l).
Proof.
  revert l. induction k as [|k IH]; intros l; [done|].
  replace (2 * S k)%nat with (S (S (2 * k))) by lia.
  destruct l as [|x [|y l]]; simpl; [done|by destruct k|]. f_equal. apply IH.
Qed.

Lemma merkle_level_drop k l : merkle_level (drop (2 * k) l) = drop k (merkle_level l).
Proof.
  revert l. induction k as [|k IH]; intros l; [done|].
  replace (2 * S k)%nat with (S (S (2 * k))) by lia.
  destruct l as [|x [|y l]]; simpl; [done|by destruct k|]. apply IH.
Qed.

Lemma merkle_level_length l : length (merkle_level l) = Nat.div2 (S (length l)).
Proof.
  induction l as [l IH] using (induction_ltof1 _ length). destruct l as [|x [|y l]]; [done..|].
  simpl. f_equal. apply IH. unfold ltof. simpl. lia.
Qed.

Lemma merkle_level_nil l : merkle_level l = [] -> l = [].
Proof. by destruct l as [|x [|y l]]. Qed.

(** One pass of the loop takes one level off the tree. *)
Lemma perfect_root_level d l :
  l <> [] -> (length l <= 2 ^ S d)%nat -> perfect_root (S d) l = perfect_root d (merkle_level l).
Proof.
  revert l. induction d as [|d IH]; intros l Hl Hlen.
  { destruct l as [|x [|y [|z l]]]; simpl in *; [done|..|lia]; unfold blake3_hash_many; simpl;
      by rewrite ?app_nil_r. }
  assert (Hpow : (2 ^ S d = 2 * 2 ^ d)%nat) by (simpl; lia).
  assert (Htake : perfect_root (S d) (take (2 ^ S d) l) = perfect_root d (take (2 ^ d) (merkle_level l))).
  { rewrite IH; [by rewrite Hpow, merkle_level_take| |rewrite length_take; lia].
    destruct l; [done|]. pose proof (Nat.pow_nonzero 2 (S d) ltac:(done)) as Hnz.
    by destruct (2 ^ S d)%nat. }
  rewrite (perfect_root_S (S d) l), (perfect_root_S d (merkle_level l)), Htake. do 2 f_equal.
  rewrite <-merkle_level_drop, <-Hpow. destruct (drop (2 ^ S d) l) as [|x r] eqn:Edrop; [done|].
  assert (Hlr : length (x :: r) = (length l - 2 ^ S d)%nat) by (by rewrite <-Edrop, length_drop).
  rewrite IH by (done || (rewrite Hlr; simpl in *; lia)).
  destruct (merkle_level (x :: r)) eqn:El; [|done]. by apply merkle_level_nil in El.
Qed.

(** The loop ends within [d] passes, with the root of the tree of depth [d]. *)
Lemma merkle_loop_ends d fuel l :
  l <> [] -> (length l <= 2 ^ d)%nat -> (d = 0 \/ 2 ^ (d - 1) < length l)%nat -> (d <= fuel)%nat ->
  merkle_loop fuel l = Some (perfect_root d l).
Proof.
  revert fuel l. induction d as [|d IH]; intros fuel l Hl Hlen Hd Hf.
  - destruct l as [|x [|y l]]; simpl in *; [done| |lia]. by destruct fuel.
  - replace (S d - 1)%nat with d in Hd by lia. pose proof (Nat.pow_nonzero 2 d ltac:(done)).
    destruct fuel as [|fuel]; [lia|]. cbn [merkle_loop]. rewrite bool_decide_true by lia.
    rewrite perfect_root_level by done. apply IH; [by intros ?%merkle_level_nil| | |lia].
    + rewrite merkle_level_length, Nat.div2_div. apply Nat.lt_succ_r, Nat.Div0.div_lt_upper_bound. simpl in *. lia.
    + destruct d as [|d]; [by left|right]. rewrite merkle_level_length, Nat.div2_div.
      replace (S d - 1)%nat with d by lia.
      assert (2 ^ S d / 2 = 2 ^ d)%nat as Hhalf by (rewrite Nat.pow_succ_r', (Nat.mul_comm 2), Nat.div_mul; lia).
      apply Nat.lt_le_trans with (2 ^ S d / 2 + 1)%nat; [lia|].
      rewrite <-(Nat.div_add _ 1 2) by done. apply Nat.Div0.div_le_mono. lia.
Qed.

(** Leaves that are digests make every subtree's root a digest. *)
Definition is_digest (h : Hash) : Prop := exists x, h = blake3 x.

Lemma perfect_root_digest d l : l <> [] -> Forall is_digest l -> is_digest (perfect_root d l).
Proof.
  intros Hl Hd. destruct d as [|d]; [|by eexists]. by destruct Hd.
Qed.

Lemma digest_app `{!FixedWidth B} x y l1 l2 :
  is_digest x -> is_digest y -> x ++ l1 = y ++ l2 -> x = y /\ l1 = l2.
Proof.
  intros [a ->] [b ->] Happ. assert (blake3 a = blake3 b) as Heq by (eapply blake3_prefix, Happ).
  split; [done|]. rewrite Heq in Happ. by apply app_inv_head in Happ.
Qed.

(** The root of a tree determines its leaves. *)
Lemma perfect_root_inj `{!CollisionFree B} `{!FixedWidth B} d l1 l2 :
  length l1 = length l2 -> l1 <> [] -> (length l1 <= 2 ^ d)%nat ->
  Forall is_digest l1 -> Forall is_digest l2 -> perfect_root d l1 = perfect_root d l2 -> l1 = l2.
Proof.
  revert l1 l2. induction d as [|d IH]; intros l1 l2 Hlen Hne Hle Hd1 Hd2.
  { destruct l1 as [|x [|]], l2 as [|y [|]]; simpl in *; done || lia || congruence. }
  rewrite !perfect_root_S. intros Heq%blake3_inj.
  assert (Hnz : (0 < 2 ^ d)%nat) by (pose proof (Nat.pow_nonzero 2 d ltac:(done)); lia).
  assert (Ht : forall l : list Hash, l <> [] -> take (2 ^ d) l <> []).
  { intros [|? l] ?; [done|]. by destruct (2 ^ d)%nat; [lia|]. }
  assert (Hne2 : l2 <> []) by (by destruct l1, l2).
  apply digest_app in Heq as [Hleft Hright]; [|apply perfect_root_digest; auto using Forall_take..].
  apply IH in Hleft; [|rewrite ?length_take; lia || auto using Forall_take..].
  rewrite <-(take_drop (2 ^ d) l1), <-(take_drop (2 ^ d) l2), Hleft. f_equal.
  assert (Hdl : length (drop (2 ^ d) l1) = length (drop (2 ^ d) l2)) by (rewrite !length_drop; lia).
  assert (Hdle : (length (drop (2 ^ d) l1) <= 2 ^ d)%nat) by (rewrite length_drop; simpl in Hle; lia).
  assert (Forall is_digest (drop (2 ^ d) l1) /\ Forall is_digest (drop (2 ^ d) l2)) as [HF1 HF2]
    by auto using Forall_drop.
  destruct (drop (2 ^ d) l1) as [|x r1], (drop (2 ^ d) l2) as [|y r2]; try done. by apply IH.
Qed.

(** The tree of depth [d] is the one over more than half of, and at most, [2^d] leaves. *)
Definition depth_of (d : nat) (l : list Hash) : Prop :=
  l <> [] /\ (length l <= 2 ^ d)%nat /\ (d = 0 \/ 2 ^ (d - 1) < length l)%nat.

Lemma merkle_loop_depth d l : depth_of d l -> merkle_loop (length l) l = Some (perfect_root d l).
Proof.
  intros (Hl & Hle & Hd). apply merkle_loop_ends; [done..|].
  pose proof (Nat.pow_gt_lin_r 2 (d - 1) ltac:(lia)). destruct l; [done|simpl in *]. lia.
Qed.

Lemma merkle_root_depth d l : depth_of d l -> merkle_root l = perfect_root d l.
Proof.
  intros Hd. pose proof (merkle_loop_depth d l Hd) as Hloop. destruct l as [|x [|y l]].
  - by destruct Hd.
  - simpl in Hloop. by injection Hloop.
  - unfold merkle_root. by rewrite Hloop.
Qed.

Lemma depth_of_log2_up l : l <> [] -> depth_of (Nat.log2_up (length l)) l.
Proof.
  intros Hl. split; [done|]. destruct l as [|x [|y l]]; [done|by split; [simpl; lia|left]|].
  pose proof (Nat.log2_up_spec (length (x :: y :: l)) ltac:(simpl; lia)) as [H1 H2].
  split; [done|]. right. by rewrite Nat.sub_1_r.
Qed.

(** A trailing leaf of an odd list counts as two. *)
Lemma merkle_level_dup l x : Nat.Even (length l) -> merkle_level (l ++ [x]) = merkle_level (l ++ [x; x]).
Proof.
  induction l as [l IH] using (induction_ltof1 _ length). intros [k Hk].
  destruct l as [|a [|b l]]; [done|simpl in *; lia|]. simpl. f_equal. apply IH; [unfold ltof; simpl; lia|].
  exists (k - 1)%nat. simpl in Hk. lia.
Qed.

Lemma depth_of_dup l x :
  l <> [] -> Nat.Even (length l) -> exists d, depth_of (S d) (l ++ [x]) /\ depth_of (S d) (l ++ [x; x]).
Proof.
  intros Hl [k Hk]. exists (Nat.log2_up (k + 1)).
  assert (1 <= k)%nat by (destruct l; simpl in *; [done|lia]).
  pose proof (Nat.log2_up_spec (k + 1) ltac:(lia)) as [H1 H2].
  set (c := Nat.log2_up (k + 1)) in *. rewrite <-Nat.sub_1_r in H1.
  assert (c <> 0)%nat by (intros ->; simpl in *; lia).
  assert (2 ^ c = 2 * 2 ^ (c - 1))%nat by (rewrite <-Nat.pow_succ_r'; f_equal; lia).
  split; (split; [by destruct l|]); rewrite length_app; simpl length; replace (S c - 1)%nat with c by lia;
    rewrite Nat.pow_succ_r'; lia.
Qed.
End merkle.

(** The loop of [merkle_root] stops after at most as many
    passes as there are hashes and returns the root of the perfect binary tree
    of the least sufficient depth, in which a missing right subtree is a copy
    of its left neighbour. *)
Theorem merkle_root_perfect `{B : Blake3} h l :
  let hashes := h :: l in
  let root := perfect_root (Nat.log2_up (length hashes)) hashes in
  merkle_loop (length hashes) hashes = Some root /\ merkle_root hashes = root.
Proof.
  split; [apply merkle_loop_depth|apply merkle_root_depth]; by apply depth_of_log2_up.
Qed.

(** Two lists of equally many digests with the same Merkle root
    are the same list: the root commits to every leaf and to their order. *)
Theorem merkle_root_binds `{B : Blake3} `{!CollisionFree B} `{!FixedWidth B} l1 l2 :
  length l1 = length l2 -> Forall is_digest l1 -> Forall is_digest l2 ->
  merkle_root l1 = merkle_root l2 -> l1 = l2.
Proof.
  intros Hlen Hd1 Hd2. destruct (decide (l1 = [])) as [->|Hne]; [by destruct l2|].
  assert (Hne2 : l2 <> []) by (by destruct l1, l2).
  destruct (depth_of_log2_up l1 Hne) as (_ & Hle & Hd). set (d := Nat.log2_up (length l1)) in *.
  rewrite (merkle_root_depth d l1), (merkle_root_depth d l2) by (split; rewrite <-?Hlen; done).
  by apply perfect_root_inj.
Qed.

(** The root does not commit to the number of leaves: appending
    a second copy of the last hash of an odd list of at least three keeps it. *)
Theorem merkle_root_odd_twice `{B : Blake3} l x :
  l <> [] -> Nat.Even (length l) -> merkle_root (l ++ [x]) = merkle_root (l ++ [x; x]).
Proof.
  intros Hl He. destruct (depth_of_dup l x Hl He) as (d & H1 & H2).
  rewrite (merkle_root_depth _ _ H1), (merkle_root_depth _ _ H2).
  destruct H1 as (? & ? & _), H2 as (? & ? & _).
  rewrite !perfect_root_level by done. by rewrite merkle_level_dup.
Qed.

(** ** Examples *)

(** A collision-free digest of one cell. *)
Definition cell_blake3 : Blake3 := fun bs => [Z.pos (encode bs)].

Lemma cell_blake3_ok : CollisionFree cell_blake3.
Proof.
  split; unfold blake3, cell_blake3; [|done]. intros x y [= Heq]. by apply (inj encode) in Heq.
Qed.
Lemma cell_blake3_width : FixedWidth cell_blake3.
Proof. intros x y l1 l2. unfold blake3, cell_blake3. simpl. congruence. Qed.

Definition ex_leaves : list Hash := map (fun z => cell_blake3 [z]) [1; 2; 3].

Lemma merkle_root_binds_witness :
  @merkle_root cell_blake3 ex_leaves = @merkle_root cell_blake3 ex_leaves /\ ex_leaves = ex_leaves.
Proof.
  split; [reflexivity|].
  apply (@merkle_root_binds cell_blake3 cell_blake3_ok cell_blake3_width ex_leaves ex_leaves); try reflexivity;
    repeat (constructor; [by eexists|]); constructor.
Defined.

Lemma merkle_root_odd_twice_witness :
  ([[1]; [2]] : list Hash) <> [] /\
  @merkle_root cell_blake3 ([[1]; [2]] ++ [[3]]) = @merkle_root cell_blake3 ([[1]; [2]] ++ [[3]; [3]]).
Proof.
  split; [done|]. apply (@merkle_root_odd_twice cell_blake3 [[1]; [2]] [3]); [done|by exists 1%nat].
Defined.
