(* ===== verification/Blocks.v ===== *)
(** * Blocks, votes, validators and proofs of work
    (src/crates/qfc-types/src: block.rs, validator.rs, pow.rs)

    The data the consensus engine and the chain exchange: headers and blocks,
    votes, the registry entry of a validator, epochs, checkpoints, evidence of
    misbehaviour, mining tasks and proofs. A [String] is its UTF-8 bytes. What
    is signed or hashed is serialised by [borsh], an interface of Externals.v;
    the end of the file has a concrete code of the types for the examples. *)

From S2P Require Import Prelude Float64 Externals Codec Types Crypto.

(** ** Inference proofs (pow.rs) *)

Inductive BackendType := Cuda | Metal | Rocm | Cpu | OpenCl.

Record ModelId := mkModelId { model_name : bytes; model_version : bytes }.

Inductive ComputeTaskType :=
| TextGeneration (model_id : ModelId) (prompt_hash : Hash) (max_tokens temperature_fp seed : Z)
| ImageClassification (model_id : ModelId) (input_hash : Hash)
| Embedding (model_id : ModelId) (input_hash : Hash)
| SpeechToText (model_id : ModelId) (audio_hash : Hash) (language : bytes)
| ImageGeneration (model_id : ModelId) (prompt_hash negative_prompt_hash : Hash) (width height steps seed : Z)
| OnnxInference (model_hash input_hash : Hash).

Inductive CanonicalFormat := SafetensorsFp32 | GgufQ4KM | GgufQ5KM.

#[export] Instance BackendType_eq_dec : EqDecision BackendType.
Proof. solve_decision. Defined.
#[export] Instance ModelId_eq_dec : EqDecision ModelId.
Proof. solve_decision. Defined.
#[export] Instance ComputeTaskType_eq_dec : EqDecision ComputeTaskType.
Proof. solve_decision. Defined.
#[export] Instance CanonicalFormat_eq_dec : EqDecision CanonicalFormat.
Proof. solve_decision. Defined.

(** The fields that are signed: all but the signature. *)
Record UnsignedInferenceProof := mkUnsignedInference {
  ip_validator : Address;
  ip_epoch : Z;
  ip_task_type : ComputeTaskType;
  ip_input_hash : Hash;
  ip_output_hash : Hash;
  ip_execution_time_ms : Z;
  ip_flops_estimated : Z;
  ip_backend : BackendType;
  ip_canonical_format : CanonicalFormat;
  ip_timestamp : Z;
}.

Record InferenceProof := mkInferenceProof {
  ip_unsigned : UnsignedInferenceProof;
  ip_signature : Signature;
}.

Definition inference_bytes_without_signature `{Borsh UnsignedInferenceProof} (p : InferenceProof) : bytes :=
  to_vec (ip_unsigned p).

(** ** Proof of work (pow.rs) *)

Record WorkProof := mkWorkProof {
  wp_validator : Address;
  wp_epoch : Z;
  wp_nonce : Z;
  wp_hash : Hash;
  wp_work_count : Z;
  wp_timestamp : Z;
  wp_signature : Signature;
}.

Inductive ComputeProof := PowV1 (p : WorkProof) | InferenceV2 (p : InferenceProof).

Definition work_bytes_without_signature (p : WorkProof) : bytes :=
  wp_validator p ++ to_le 8 (wp_epoch p) ++ to_le 8 (wp_nonce p) ++ wp_hash p ++
  to_le 8 (wp_work_count p) ++ to_le 8 (wp_timestamp p).

Record MiningTask := mkMiningTask {
  mt_epoch : Z;
  mt_seed : bytes;
  mt_difficulty : Z;
  mt_epoch_start : Z;
  mt_epoch_end : Z;
}.

Definition task_is_active (t : MiningTask) (current_time : Z) : bool :=
  (mt_epoch_start t <=? current_time) && (current_time <? mt_epoch_end t).

Record DifficultyConfig := mkDifficultyConfig {
  target_proofs_per_epoch : Z;
  min_difficulty : Z;
  max_difficulty : Z;
  max_adjustment_percent : Z;
}.

(** Targets of 240 and of 192 bits: the minimum difficulty is the larger target. *)
Definition DifficultyConfig_default : DifficultyConfig :=
  mkDifficultyConfig 10000 (2 ^ 240 - 1) (2 ^ 192 - 1) 10.

Record MiningStats := mkMiningStats {
  ms_total_proofs : Z;
  ms_total_work_count : Z;
  ms_last_proof_epoch : Z;
  ms_hashrate : Z;
}.

Definition record_proof (proof : WorkProof) (s : MiningStats) : MiningStats :=
  mkMiningStats (u64_add (ms_total_proofs s) 1) (u64_add (ms_total_work_count s) (wp_work_count proof))
    (wp_epoch proof) (ms_hashrate s).

(** ** Votes (validator.rs) *)

Inductive VoteDecision := Accept | Reject | Abstain.

Inductive RejectReason :=
| RejInvalidProducer | RejInvalidVRF | RejInvalidStateTransition | RejInvalidSignature
| RejInvalidTimestamp | RejBlockTooLarge | RejOther (s : bytes).

#[export] Instance VoteDecision_eq_dec : EqDecision VoteDecision.
Proof. solve_decision. Defined.
#[export] Instance RejectReason_eq_dec : EqDecision RejectReason.
Proof. solve_decision. Defined.

Record UnsignedVote := mkUnsignedVote {
  vt_block_hash : Hash;
  vt_block_height : Z;
  vt_voter : Address;
  vt_decision : VoteDecision;
  vt_reject_reason : option RejectReason;
  vt_timestamp : Z;
}.

Record Vote := mkVote {
  vt_unsigned : UnsignedVote;
  vt_signature : Signature;
}.

#[export] Instance UnsignedVote_eq_dec : EqDecision UnsignedVote.
Proof. solve_decision. Defined.
#[export] Instance Vote_eq_dec : EqDecision Vote.
Proof. solve_decision. Defined.

Definition Signature_ZERO : Signature := replicate 64 0.

Definition vote_block_hash (v : Vote) : Hash := vt_block_hash (vt_unsigned v).
Definition vote_block_height (v : Vote) : Z := vt_block_height (vt_unsigned v).
Definition voter (v : Vote) : Address := vt_voter (vt_unsigned v).

Definition vote_accept (block_hash : Hash) (block_height : Z) (who : Address) (timestamp : Z) : Vote :=
  mkVote (mkUnsignedVote block_hash block_height who Accept None timestamp) Signature_ZERO.
Definition vote_reject (block_hash : Hash) (block_height : Z) (who : Address) (reason : RejectReason)
    (timestamp : Z) : Vote :=
  mkVote (mkUnsignedVote block_hash block_height who Reject (Some reason) timestamp) Signature_ZERO.

Definition is_accept (v : Vote) : bool := bool_decide (vt_decision (vt_unsigned v) = Accept).
Definition is_reject (v : Vote) : bool := bool_decide (vt_decision (vt_unsigned v) = Reject).

Definition vote_bytes_without_signature `{Borsh UnsignedVote} (v : Vote) : bytes := to_vec (vt_unsigned v).

(** ** Blocks (block.rs) *)

Record BlockHeader := mkBlockHeader {
  h_version : Z;
  h_number : Z;
  h_parent_hash : Hash;
  h_state_root : Hash;
  h_transactions_root : Hash;
  h_receipts_root : Hash;
  h_proofs_root : Hash;
  h_producer : Address;
  h_contribution_score : Z;
  h_vrf_proof : VrfProof;
  h_timestamp : Z;
  h_gas_limit : Z;
  h_gas_used : Z;
  h_extra_data : bytes;
}.

Record Block := mkBlock {
  header : BlockHeader;
  transactions : list Transaction;
  votes : list Vote;
  inference_proofs : list InferenceProof;
  block_signature : Signature;
}.

Record BlockBody := mkBlockBody {
  body_transactions : list Transaction;
  body_votes : list Vote;
  body_inference_proofs : list InferenceProof;
  body_signature : Signature;
}.

Record SealedBlock := mkSealedBlock { sealed_hash : Hash; sealed_block : Block }.

Definition block_new (h : BlockHeader) (txs : list Transaction) : Block := mkBlock h txs [] [] Signature_ZERO.

Definition number (b : Block) : Z := h_number (header b).
Definition parent_hash_of (b : Block) : Hash := h_parent_hash (header b).
Definition state_root_of (b : Block) : Hash := h_state_root (header b).
Definition producer (b : Block) : Address := h_producer (header b).
Definition timestamp (b : Block) : Z := h_timestamp (header b).
Definition gas_used_of (b : Block) : Z := h_gas_used (header b).
Definition is_genesis (b : Block) : bool := number b =? 0.

Definition header_bytes `{Borsh BlockHeader} (b : Block) : bytes := to_vec (header b).

Definition body_from_block (b : Block) : BlockBody :=
  mkBlockBody (transactions b) (votes b) (inference_proofs b) (block_signature b).

(** ** Validators (validator.rs) *)

Record ValidatorNode := mkValidatorNode {
  v_address : Address;
  v_public_key : PublicKey;
  v_stake : Z;
  v_delegated_stake : Z;
  v_commission_rate : Z;
  v_delegator_count : Z;
  v_contribution_score : Z;
  v_uptime : Z;
  v_accuracy : Z;
  v_avg_latency_ms : Z;
  v_bandwidth_mbps : Z;
  v_storage_provided_gb : Z;
  v_provides_compute : bool;
  v_hashrate : Z;
  v_compute_backend : option BackendType;
  v_supported_models : list ModelId;
  v_gpu_memory_mb : Z;
  v_gpu_model : bytes;
  v_benchmark_score : Z;
  v_gpu_tier : Z;
  v_inference_score : Z;
  v_tasks_completed : Z;
  v_verification_pass_rate : Z;
  v_reputation : Z;
  v_registered_at : Z;
  v_last_active : Z;
  v_is_jailed : bool;
  v_jail_until : Z;
  v_blocks_produced : Z;
  v_valid_votes : Z;
  v_invalid_votes : Z;
  v_pending_rewards : Z;
}.

Definition PublicKey_ZERO : PublicKey := replicate 32 0.

(** Functional updates of the fields that the engine assigns. *)
Module Val.

Definition set_stakes (s d : Z) (v : ValidatorNode) : ValidatorNode :=
  let 'mkValidatorNode a pk _ _ cr dc cs up ac la bw sg pc hr cb sm gm gn bs gt isc tc vp re ra lc ij ju bp vv iv pr := v in
  mkValidatorNode a pk s d cr dc cs up ac la bw sg pc hr cb sm gm gn bs gt isc tc vp re ra lc ij ju bp vv iv pr.
Definition set_delegation_stats (d n : Z) (v : ValidatorNode) : ValidatorNode :=
  let 'mkValidatorNode a pk s _ cr _ cs up ac la bw sg pc hr cb sm gm gn bs gt isc tc vp re ra lc ij ju bp vv iv pr := v in
  mkValidatorNode a pk s d cr n cs up ac la bw sg pc hr cb sm gm gn bs gt isc tc vp re ra lc ij ju bp vv iv pr.
Definition set_score (x : Z) (v : ValidatorNode) : ValidatorNode :=
  let 'mkValidatorNode a pk s d cr dc _ up ac la bw sg pc hr cb sm gm gn bs gt isc tc vp re ra lc ij ju bp vv iv pr := v in
  mkValidatorNode a pk s d cr dc x up ac la bw sg pc hr cb sm gm gn bs gt isc tc vp re ra lc ij ju bp vv iv pr.
Definition set_uptime (x : Z) (v : ValidatorNode) : ValidatorNode :=
  let 'mkValidatorNode a pk s d cr dc cs _ ac la bw sg pc hr cb sm gm gn bs gt isc tc vp re ra lc ij ju bp vv iv pr := v in
  mkValidatorNode a pk s d cr dc cs x ac la bw sg pc hr cb sm gm gn bs gt isc tc vp re ra lc ij ju bp vv iv pr.
Definition set_latency (x : Z) (v : ValidatorNode) : ValidatorNode :=
  let 'mkValidatorNode a pk s d cr dc cs up ac _ bw sg pc hr cb sm gm gn bs gt isc tc vp re ra lc ij ju bp vv iv pr := v in
  mkValidatorNode a pk s d cr dc cs up ac x bw sg pc hr cb sm gm gn bs gt isc tc vp re ra lc ij ju bp vv iv pr.
Definition set_compute (pc : bool) (hr : Z) (v : ValidatorNode) : ValidatorNode :=
  let 'mkValidatorNode a pk s d cr dc cs up ac la bw sg _ _ cb sm gm gn bs gt isc tc vp re ra lc ij ju bp vv iv pr := v in
  mkValidatorNode a pk s d cr dc cs up ac la bw sg pc hr cb sm gm gn bs gt isc tc vp re ra lc ij ju bp vv iv pr.
Definition set_profile (cb : option BackendType) (gm : Z) (gn : bytes) (bs gt : Z) (v : ValidatorNode) : ValidatorNode :=
  let 'mkValidatorNode a pk s d cr dc cs up ac la bw sg _ hr _ sm _ _ _ _ isc tc vp re ra lc ij ju bp vv iv pr := v in
  mkValidatorNode a pk s d cr dc cs up ac la bw sg true hr cb sm gm gn bs gt isc tc vp re ra lc ij ju bp vv iv pr.
Definition set_inference (isc tc : Z) (v : ValidatorNode) : ValidatorNode :=
  let 'mkValidatorNode a pk s d cr dc cs up ac la bw sg pc hr cb sm gm gn bs gt _ _ vp re ra lc ij ju bp vv iv pr := v in
  mkValidatorNode a pk s d cr dc cs up ac la bw sg pc hr cb sm gm gn bs gt isc tc vp re ra lc ij ju bp vv iv pr.
Definition set_reputation (x : Z) (v : ValidatorNode) : ValidatorNode :=
  let 'mkValidatorNode a pk s d cr dc cs up ac la bw sg pc hr cb sm gm gn bs gt isc tc vp _ ra lc ij ju bp vv iv pr := v in
  mkValidatorNode a pk s d cr dc cs up ac la bw sg pc hr cb sm gm gn bs gt isc tc vp x ra lc ij ju bp vv iv pr.
Definition set_jail (ij : bool) (ju : Z) (v : ValidatorNode) : ValidatorNode :=
  let 'mkValidatorNode a pk s d cr dc cs up ac la bw sg pc hr cb sm gm gn bs gt isc tc vp re ra lc _ _ bp vv iv pr := v in
  mkValidatorNode a pk s d cr dc cs up ac la bw sg pc hr cb sm gm gn bs gt isc tc vp re ra lc ij ju bp vv iv pr.
Definition set_produced (lc bp re : Z) (v : ValidatorNode) : ValidatorNode :=
  let 'mkValidatorNode a pk s d cr dc cs up ac la bw sg pc hr cb sm gm gn bs gt isc tc vp _ ra _ ij ju _ vv iv pr := v in
  mkValidatorNode a pk s d cr dc cs up ac la bw sg pc hr cb sm gm gn bs gt isc tc vp re ra lc ij ju bp vv iv pr.
Definition set_voted (ac lc vv iv : Z) (v : ValidatorNode) : ValidatorNode :=
  let 'mkValidatorNode a pk s d cr dc cs up _ la bw sg pc hr cb sm gm gn bs gt isc tc vp re ra _ ij ju bp _ _ pr := v in
  mkValidatorNode a pk s d cr dc cs up ac la bw sg pc hr cb sm gm gn bs gt isc tc vp re ra lc ij ju bp vv iv pr.

(** The default entry, with the fields that registration sets. *)
Definition default_with (a : Address) (pk : PublicKey) (stake score registered_at : Z) : ValidatorNode :=
  mkValidatorNode a pk stake 0 1000 0 score 10000 10000 100 100 0 false 0 None [] 0 [] 0 0 0 0 10000 5000
    registered_at 0 false 0 0 0 0 0.

Definition new (a : Address) (pk : PublicKey) (stake now : Z) : ValidatorNode := default_with a pk stake 0 now.

Definition total_stake (v : ValidatorNode) : Z := u256_sat_add (v_stake v) (v_delegated_stake v).
Definition is_active (v : ValidatorNode) : bool := negb (v_is_jailed v) && negb (total_stake v =? 0).
Definition is_permanently_jailed (v : ValidatorNode) : bool :=
  v_is_jailed v && (v_jail_until v =? u_max 64).
Definition can_unjail (v : ValidatorNode) (current_time : Z) : bool :=
  v_is_jailed v && negb (is_permanently_jailed v) && (v_jail_until v <=? current_time).

(** The percentages, scaled by 10000, as floats. *)
Definition ratio (x : Z) : f64 := f64_div (f64_of x) (f64_of 10000).
Definition uptime_ratio (v : ValidatorNode) : f64 := ratio (v_uptime v).
Definition accuracy_ratio (v : ValidatorNode) : f64 := ratio (v_accuracy v).
Definition reputation_ratio (v : ValidatorNode) : f64 := ratio (v_reputation v).
End Val.

(** ** Epochs, checkpoints and evidence (validator.rs) *)

Record Epoch := mkEpoch {
  ep_number : Z;
  ep_seed : bytes;
  ep_start_time : Z;
  ep_duration_ms : Z;
  ep_validators : list Address;
}.

Definition epoch_new (n : Z) (seed : bytes) (start_time : Z) : Epoch :=
  mkEpoch n seed start_time (EPOCH_DURATION_SECS * 1000) [].
Definition epoch_default : Epoch := epoch_new 0 (replicate 32 0) 0.
Definition epoch_end_time (e : Epoch) : Z := u64_add (ep_start_time e) (ep_duration_ms e).
Definition epoch_contains (e : Epoch) (t : Z) : bool := (ep_start_time e <=? t) && (t <? epoch_end_time e).

Record ValidatorCheckpoint := mkCheckpoint {
  cp_epoch : Z;
  cp_block_height : Z;
  cp_timestamp : Z;
  cp_validators : list ValidatorNode;
  cp_epoch_seed : bytes;
  cp_finalized_height : Z;
}.

Record DoubleSignEvidence := mkEvidence {
  ev_validator : Address;
  ev_block_hash_1 : Hash;
  ev_block_hash_2 : Hash;
  ev_height : Z;
  ev_signature_1 : Signature;
  ev_signature_2 : Signature;
  ev_timestamp : Z;
}.

(** ** Concrete serialisations *)

(** [solve_via] closes the goal that a record is rebuilt from its tuple. *)
Ltac solve_via := apply codec_via_ok; by intros [].

#[export] Instance codec_vrf : Codec VrfProof :=
  codec_via (fun p => (vrf_output p, vrf_proof_bytes p)) (fun '(a, b) => mkVrfProof a b).
#[export] Instance codec_vrf_ok : CodecOk VrfProof.
Proof. solve_via. Qed.

#[export] Instance codec_header : Codec BlockHeader :=
  codec_via
    (fun h => (h_version h, h_number h, h_parent_hash h, h_state_root h, h_transactions_root h, h_receipts_root h,
      h_proofs_root h, h_producer h, h_contribution_score h, h_vrf_proof h, h_timestamp h, h_gas_limit h,
      h_gas_used h, h_extra_data h))
    (fun '(a, b, c, d, e, f, g, h, i, j, k, l, m, n) => mkBlockHeader a b c d e f g h i j k l m n).
#[export] Instance codec_header_ok : CodecOk BlockHeader.
Proof. solve_via. Qed.

#[export] Instance codec_decision : Codec VoteDecision :=
  codec_via (fun d => match d with Accept => 0 | Reject => 1 | Abstain => 2 end)
    (fun z => match z with 0 => Accept | 1 => Reject | _ => Abstain end).
#[export] Instance codec_decision_ok : CodecOk VoteDecision.
Proof. solve_via. Qed.

#[export] Instance codec_reason : Codec RejectReason :=
  codec_via
    (fun r => match r with
      | RejInvalidProducer => (0, []) | RejInvalidVRF => (1, []) | RejInvalidStateTransition => (2, [])
      | RejInvalidSignature => (3, []) | RejInvalidTimestamp => (4, []) | RejBlockTooLarge => (5, [])
      | RejOther s => (6, s) end)
    (fun '(z, s) => match z with
      | 0 => RejInvalidProducer | 1 => RejInvalidVRF | 2 => RejInvalidStateTransition | 3 => RejInvalidSignature
      | 4 => RejInvalidTimestamp | 5 => RejBlockTooLarge | _ => RejOther s end).
#[export] Instance codec_reason_ok : CodecOk RejectReason.
Proof. solve_via. Qed.

#[export] Instance codec_unsigned_vote : Codec UnsignedVote :=
  codec_via
    (fun v => (vt_block_hash v, vt_block_height v, vt_voter v, vt_decision v, vt_reject_reason v, vt_timestamp v))
    (fun '(a, b, c, d, e, f) => mkUnsignedVote a b c d e f).
#[export] Instance codec_unsigned_vote_ok : CodecOk UnsignedVote.
Proof. solve_via. Qed.

#[export] Instance codec_vote : Codec Vote :=
  codec_via (fun v => (vt_unsigned v, vt_signature v)) (fun '(a, b) => mkVote a b).
#[export] Instance codec_vote_ok : CodecOk Vote.
Proof. solve_via. Qed.

#[export] Instance codec_backend : Codec BackendType :=
  codec_via (fun d => match d with Cuda => 0 | Metal => 1 | Rocm => 2 | Cpu => 3 | OpenCl => 4 end)
    (fun z => match z with 0 => Cuda | 1 => Metal | 2 => Rocm | 3 => Cpu | _ => OpenCl end).
#[export] Instance codec_backend_ok : CodecOk BackendType.
Proof. solve_via. Qed.

#[export] Instance codec_model : Codec ModelId :=
  codec_via (fun m => (model_name m, model_version m)) (fun '(a, b) => mkModelId a b).
#[export] Instance codec_model_ok : CodecOk ModelId.
Proof. solve_via. Qed.

#[export] Instance codec_format : Codec CanonicalFormat :=
  codec_via (fun d => match d with SafetensorsFp32 => 0 | GgufQ4KM => 1 | GgufQ5KM => 2 end)
    (fun z => match z with 0 => SafetensorsFp32 | 1 => GgufQ4KM | _ => GgufQ5KM end).
#[export] Instance codec_format_ok : CodecOk CanonicalFormat.
Proof. solve_via. Qed.

(** A task as its tag, the model (if any), its hashes and text, and its numbers. *)
#[export] Instance codec_task : Codec ComputeTaskType :=
  codec_via
    (fun t => match t with
      | TextGeneration m p a b c => (0, m, [p], [a; b; c])
      | ImageClassification m h => (1, m, [h], [])
      | Embedding m h => (2, m, [h], [])
      | SpeechToText m h l => (3, m, [h; l], [])
      | ImageGeneration m p n a b c d => (4, m, [p; n], [a; b; c; d])
      | OnnxInference h i => (5, mkModelId [] [], [h; i], []) end)
    (fun t => match t with
      | (0, m, [p], [a; b; c]) => TextGeneration m p a b c
      | (1, m, [h], _) => ImageClassification m h
      | (2, m, [h], _) => Embedding m h
      | (3, m, [h; l], _) => SpeechToText m h l
      | (4, m, [p; n], [a; b; c; d]) => ImageGeneration m p n a b c d
      | (_, _, [h; i], _) => OnnxInference h i
      | (_, m, _, _) => Embedding m [] end).
#[export] Instance codec_task_ok : CodecOk ComputeTaskType.
Proof. solve_via. Qed.

#[export] Instance codec_unsigned_inference : Codec UnsignedInferenceProof :=
  codec_via
    (fun p => (ip_validator p, ip_epoch p, ip_task_type p, ip_input_hash p, ip_output_hash p, ip_execution_time_ms p,
      ip_flops_estimated p, ip_backend p, ip_canonical_format p, ip_timestamp p))
    (fun '(a, b, c, d, e, f, g, h, i, j) => mkUnsignedInference a b c d e f g h i j).
#[export] Instance codec_unsigned_inference_ok : CodecOk UnsignedInferenceProof.
Proof. solve_via. Qed.

#[export] Instance codec_inference : Codec InferenceProof :=
  codec_via (fun p => (ip_unsigned p, ip_signature p)) (fun '(a, b) => mkInferenceProof a b).
#[export] Instance codec_inference_ok : CodecOk InferenceProof.
Proof. solve_via. Qed.

#[export] Instance codec_validator : Codec ValidatorNode :=
  codec_via
    (fun v => ((v_address v, v_public_key v, v_stake v, v_delegated_stake v, v_commission_rate v, v_delegator_count v,
       v_contribution_score v, v_uptime v),
      (v_accuracy v, v_avg_latency_ms v, v_bandwidth_mbps v, v_storage_provided_gb v, v_provides_compute v,
       v_hashrate v, v_compute_backend v, v_supported_models v),
      (v_gpu_memory_mb v, v_gpu_model v, v_benchmark_score v, v_gpu_tier v, v_inference_score v, v_tasks_completed v,
       v_verification_pass_rate v, v_reputation v),
      (v_registered_at v, v_last_active v, v_is_jailed v, v_jail_until v, v_blocks_produced v, v_valid_votes v,
       v_invalid_votes v, v_pending_rewards v)))
    (fun '((a1, a2, a3, a4, a5, a6, a7, a8), (b1, b2, b3, b4, b5, b6, b7, b8), (c1, c2, c3, c4, c5, c6, c7, c8),
           (d1, d2, d3, d4, d5, d6, d7, d8)) =>
       mkValidatorNode a1 a2 a3 a4 a5 a6 a7 a8 b1 b2 b3 b4 b5 b6 b7 b8 c1 c2 c3 c4 c5 c6 c7 c8
         d1 d2 d3 d4 d5 d6 d7 d8).
#[export] Instance codec_validator_ok : CodecOk ValidatorNode.
Proof. solve_via. Qed.

#[export] Instance codec_checkpoint : Codec ValidatorCheckpoint :=
  codec_via
    (fun c => (cp_epoch c, cp_block_height c, cp_timestamp c, cp_validators c, cp_epoch_seed c, cp_finalized_height c))
    (fun '(a, b, c, d, e, f) => mkCheckpoint a b c d e f).
#[export] Instance codec_checkpoint_ok : CodecOk ValidatorCheckpoint.
Proof. solve_via. Qed.

#[export] Instance codec_evidence : Codec DoubleSignEvidence :=
  codec_via
    (fun e => (ev_validator e, ev_block_hash_1 e, ev_block_hash_2 e, ev_height e, ev_signature_1 e, ev_signature_2 e,
      ev_timestamp e))
    (fun '(a, b, c, d, e, f, g) => mkEvidence a b c d e f g).
#[export] Instance codec_evidence_ok : CodecOk DoubleSignEvidence.
Proof. solve_via. Qed.
