(* ===== verification/Pow.v ===== *)
(** * Proof of work (src/crates/qfc-pow/src: lib.rs, difficulty.rs, error.rs)

    Verification of the work and inference proofs that miners submit, the
    estimate of a hashrate and the adjustment of the difficulty target. The
    multi-threaded search of mining.rs is in Miner.v. A difficulty is a
    256-bit target: a hash meets it when it is smaller, so the minimum
    difficulty is the largest target.

    The theorems: the adjustment keeps the target within the configured bounds
    and changes it by at most the configured percentage, easier for too few
    proofs and harder for too many; a proof verifies exactly when its hash is
    the one of its seed, miner and nonce, and is below the target. *)

From S2P Require Import Prelude Externals Types Crypto Blocks.

Inductive PowError :=
| EpochMismatch (expected got : Z)
| InvalidHash
| DifficultyNotMet
| PowInvalidSignature
| TaskExpired
| MinerNotRunning
| ChannelError (s : bytes).

(** ** Verification (lib.rs) *)

Section pow.
Context `{B : Blake3}.

Definition mine_once (seed : bytes) (validator : Address) (nonce : Z) : Hash :=
  blake3_hash (seed ++ validator ++ to_le 8 nonce).

Definition meets_difficulty (hash : Hash) (difficulty : Z) : bool := u256_from_be hash <? difficulty.

Definition verify_proof (proof : WorkProof) (task : MiningTask) : Result PowError bool :=
  if negb (wp_epoch proof =? mt_epoch task) then Err (EpochMismatch (mt_epoch task) (wp_epoch proof))
  else
    let computed_hash := mine_once (mt_seed task) (wp_validator proof) (wp_nonce proof) in
    if negb (bool_decide (computed_hash = wp_hash proof)) then Err InvalidHash
    else if negb (meets_difficulty (wp_hash proof) (mt_difficulty task)) then Err DifficultyNotMet
    else Ok true.
End pow.

(** [u8::leading_zeros] *)
Definition byte_leading_zeros (b : Z) : Z := if b <=? 0 then 8 else 7 - Z.log2 b.

Fixpoint count_zero_bytes (bs : bytes) (zeros : Z) : Z :=
  match bs with
  | [] => zeros
  | b :: bs' => if b =? 0 then count_zero_bytes bs' (zeros + 8) else zeros + byte_leading_zeros b
  end.

Definition count_leading_zeros (value : Z) : Z := count_zero_bytes (u256_to_be value) 0.

Definition calculate_hashrate (proof : WorkProof) (task : MiningTask) : Z :=
  if wp_work_count proof =? 0 then 0 else
  let epoch_duration_secs := u64_sub (mt_epoch_end task) (mt_epoch_start task) / 1000 in
  if epoch_duration_secs =? 0 then 0 else
  let leading_zeros := count_leading_zeros (mt_difficulty task) in
  let hashes_per_proof := Z.shiftl 1 (Z.min leading_zeros 63) in
  let total_hashes := sat_mul 64 (wp_work_count proof) hashes_per_proof in
  total_hashes / epoch_duration_secs.

Definition verify_inference_proof (proof : InferenceProof) (expected_epoch : Z) : Result PowError bool :=
  let p := ip_unsigned proof in
  if negb (ip_epoch p =? expected_epoch) then Err (EpochMismatch expected_epoch (ip_epoch p))
  else if bool_decide (ip_output_hash p = Hash_ZERO) then Err InvalidHash
  else if ip_execution_time_ms p =? 0 then Err InvalidHash
  else Ok true.

Definition verify_compute_proof `{B : Blake3} (proof : ComputeProof) (task : option MiningTask)
    (expected_epoch : Z) : Result PowError bool :=
  match proof with
  | PowV1 work_proof =>
    match task with
    | None => Err InvalidHash
    | Some task => verify_proof work_proof task
    end
  | InferenceV2 inference_proof => verify_inference_proof inference_proof expected_epoch
  end.

(** ** Difficulty (difficulty.rs) *)

Definition clamp_difficulty (difficulty : Z) (config : DifficultyConfig) : Z :=
  if min_difficulty config <? difficulty then min_difficulty config
  else if difficulty <? max_difficulty config then max_difficulty config
  else difficulty.

(** [None]: an overflowing [U256] product or a division by a zero target count. *)
Definition adjust_difficulty (current_difficulty actual_proofs : Z) (config : DifficultyConfig) : option Z :=
  let target := target_proofs_per_epoch config in
  if actual_proofs =? 0 then
    let new_difficulty :=
      sat_mul 256 current_difficulty (u64_add 100 (u64_mul (max_adjustment_percent config) 2)) / 100 in
    Some (clamp_difficulty new_difficulty config)
  else
    if target =? 0 then None else
    let ratio_scaled := wrap 128 (actual_proofs * 100) / target in
    new_difficulty ←
      (if 100 <? ratio_scaled then
         let excess := ratio_scaled - 100 in
         let adjustment := Z.min excess (max_adjustment_percent config) in
         p ← u256_mul current_difficulty 100; u256_div p (wrap 64 (100 + adjustment))
       else if ratio_scaled <? 100 then
         let deficit := 100 - ratio_scaled in
         let adjustment := Z.min deficit (max_adjustment_percent config) in
         p ← u256_mul current_difficulty (wrap 64 (100 + adjustment)); u256_div p 100
       else Some current_difficulty);
    Some (clamp_difficulty new_difficulty config).

Definition initial_difficulty (config : DifficultyConfig) : Z :=
  Z.min (Z.max (2 ^ 232 - 1) (max_difficulty config)) (min_difficulty config).

(** ** Theorems *)

(** A configuration whose targets are ordered and leave room for the products. *)
Definition config_ok (config : DifficultyConfig) : Prop :=
  0 < target_proofs_per_epoch config < 2 ^ 64 /\
  0 < max_difficulty config <= min_difficulty config /\ min_difficulty config < 2 ^ 240 /\
  0 <= max_adjustment_percent config <= 100.

#[export] Instance config_ok_dec config : Decision (config_ok config).
Proof. unfold config_ok. apply _. Defined.

(** The target lies between the two bounds. *)
Definition in_bounds (config : DifficultyConfig) (d : Z) : Prop :=
  max_difficulty config <= d <= min_difficulty config.

Lemma clamp_in_bounds config d :
  max_difficulty config <= min_difficulty config -> in_bounds config (clamp_difficulty d config).
Proof. unfold in_bounds, clamp_difficulty. repeat case_match; lia. Qed.

(** Clamping moves a target towards one that is in bounds. *)
Lemma clamp_between config d c :
  max_difficulty config <= min_difficulty config -> in_bounds config c ->
  (c <= d -> c <= clamp_difficulty d config <= d) /\ (d <= c -> d <= clamp_difficulty d config <= c).
Proof. unfold in_bounds, clamp_difficulty. repeat case_match; lia. Qed.

(** The relative change of a target: at most [p] percent up, and down to no
    less than the target divided by [1 + p / 100], rounded down. *)
Definition change_within (p c d : Z) : Prop := 100 * d <= c * (100 + p) /\ c * 100 < (d + 1) * (100 + p).

Lemma change_within_mono p c d d' :
  0 <= p -> 0 <= c -> change_within p c d -> (c <= d' <= d \/ d <= d' <= c) -> change_within p c d'.
Proof.
  unfold change_within.
  intros Hp Hc [H1 H2] [Hd|Hd]; split; try lia.
  - apply Z.lt_le_trans with ((c + 1) * (100 + p)); [nia|]. apply Z.mul_le_mono_nonneg_r; lia.
  - nia.
Qed.

Lemma raise_within c a p :
  0 <= a <= p -> 0 <= c -> change_within p c (c * (100 + a) / 100) /\ c <= c * (100 + a) / 100.
Proof.
  intros Ha Hc. pose proof (Z.div_mod (c * (100 + a)) 100 ltac:(lia)).
  pose proof (Z.mod_pos_bound (c * (100 + a)) 100 ltac:(lia)). set (q := _ / 100) in *.
  assert (c * a <= c * p) by (apply Z.mul_le_mono_nonneg_l; lia).
  assert (0 <= c * a) by (apply Z.mul_nonneg_nonneg; lia). assert (c <= q) by lia.
  assert ((c + 1) * (100 + p) <= (q + 1) * (100 + p)) by (apply Z.mul_le_mono_nonneg_r; lia).
  unfold change_within. lia.
Qed.

Lemma lower_within c a p :
  0 <= a <= p -> 0 <= c -> change_within p c (c * 100 / (100 + a)) /\ c * 100 / (100 + a) <= c.
Proof.
  intros Ha Hc. pose proof (Z.div_mod (c * 100) (100 + a) ltac:(lia)).
  pose proof (Z.mod_pos_bound (c * 100) (100 + a) ltac:(lia)). set (q := _ / (100 + a)) in *.
  assert (0 <= q) by (apply Z.div_pos; lia). assert (q <= c) by nia.
  assert ((q + 1) * (100 + a) <= (q + 1) * (100 + p)) by (apply Z.mul_le_mono_nonneg_l; lia).
  assert (0 <= c * p) by (apply Z.mul_nonneg_nonneg; lia). unfold change_within. lia.
Qed.

Lemma checked_small x : 0 <= x < 2 ^ 256 -> checked x = Some x.
Proof. intros Hx. unfold checked. by rewrite (proj2 (Z.leb_le _ _)), (proj2 (Z.ltb_lt _ _)) by lia. Qed.

(** The products that the adjustment forms fit in 256 bits. *)
Lemma product_small c a : 0 <= c < 2 ^ 240 -> 0 <= a <= 200 -> 0 <= c * (100 + a) < 2 ^ 256.
Proof.
  intros Hc Ha. assert (c * (100 + a) <= 2 ^ 240 * 300) by (apply Z.mul_le_mono_nonneg; lia).
  assert (0 <= c * (100 + a)) by (apply Z.mul_nonneg_nonneg; lia). lia.
Qed.

Lemma lower_exact c a :
  0 <= c < 2 ^ 240 -> 0 <= a <= 100 ->
  (p ← u256_mul c 100; u256_div p (wrap 64 (100 + a))) = Some (c * 100 / (100 + a)).
Proof.
  intros Hc Ha. unfold u256_mul. rewrite checked_small by lia. simpl. unfold u256_div, wrap.
  rewrite Z.mod_small by lia. by rewrite (proj2 (Z.eqb_neq _ _)) by lia.
Qed.

Lemma raise_exact c a :
  0 <= c < 2 ^ 240 -> 0 <= a <= 100 ->
  (p ← u256_mul c (wrap 64 (100 + a)); u256_div p 100) = Some (c * (100 + a) / 100).
Proof.
  intros Hc Ha. unfold u256_mul, wrap. rewrite Z.mod_small by lia.
  by rewrite checked_small by (apply product_small; lia).
Qed.

(** With a sane configuration and a target within its bounds the
    adjustment never panics and stays within the bounds; a target that had
    proofs moves by at most the configured percentage and only in the right
    direction (a smaller target, which is harder, for too many proofs, a larger
    one for too few); an epoch without proofs raises it by at most twice that. *)
Theorem adjust_difficulty_bounded config current actual :
  config_ok config -> in_bounds config current -> 0 <= actual < 2 ^ 64 ->
  exists d, adjust_difficulty current actual config = Some d /\ in_bounds config d /\
    let p := max_adjustment_percent config in
    let target := target_proofs_per_epoch config in
    if actual =? 0 then change_within (2 * p) current d /\ current <= d
    else change_within p current d /\
      (actual * 100 / target > 100 -> d <= current) /\
      (actual * 100 / target < 100 -> current <= d) /\
      (actual * 100 / target = 100 -> d = current).
Proof.
  intros (Ht & Hm & Hm2 & Hp) Hb Ha. unfold adjust_difficulty. unfold in_bounds in Hb.
  set (p := max_adjustment_percent config) in *.
  assert (Hclamp := fun d => clamp_between config d current ltac:(lia) Hb).
  assert (Hin := fun d => clamp_in_bounds config d ltac:(lia)).
  destruct (actual =? 0) eqn:E0.
  - eexists. split; [done|]. split; [apply Hin|].
    unfold u64_add, u64_mul, wrap, sat_mul, u_max.
    rewrite (Z.mod_small (p * 2)) by lia. rewrite Z.mod_small by lia.
    pose proof (product_small current (p * 2) ltac:(lia) ltac:(lia)). rewrite Z.min_l by lia.
    destruct (raise_within current (2 * p) (2 * p)) as [Hw Hle]; [lia..|]. rewrite (Z.mul_comm p 2).
    pose proof (proj1 (Hclamp _) Hle) as Hc. split; [|lia].
    eapply change_within_mono; [lia| |apply Hw|]; lia.
  - rewrite (proj2 (Z.eqb_neq (target_proofs_per_epoch config) 0)) by lia.
    assert (Hw : wrap 128 (actual * 100) = actual * 100) by (apply Z.mod_small; lia). rewrite Hw. cbv zeta.
    set (r := actual * 100 / target_proofs_per_epoch config).
    destruct (100 <? r) eqn:E1; [|destruct (r <? 100) eqn:E2].
    + rewrite lower_exact by lia. eexists. split; [done|]. split; [apply Hin|].
      destruct (lower_within current (Z.min (r - 100) p) p) as [Hc1 Hle]; [lia..|].
      pose proof (proj2 (Hclamp _) Hle) as Hc.
      split; [eapply change_within_mono; [lia| |apply Hc1|]; lia|lia].
    + rewrite raise_exact by lia. eexists. split; [done|]. split; [apply Hin|].
      destruct (raise_within current (Z.min (100 - r) p) p) as [Hc1 Hle]; [lia..|].
      pose proof (proj1 (Hclamp _) Hle) as Hc.
      split; [eapply change_within_mono; [lia| |apply Hc1|]; lia|lia].
    + eexists. split; [done|]. split; [apply Hin|]. destruct (Hclamp current) as [Hc _].
      specialize (Hc ltac:(lia)). replace (clamp_difficulty current config) with current by lia.
      split; [|lia]. unfold change_within. nia.
Qed.

Lemma adjust_difficulty_bounded_witness :
  config_ok DifficultyConfig_default /\
  exists d, adjust_difficulty (2 ^ 232 - 1) 15000 DifficultyConfig_default = Some d /\
    in_bounds DifficultyConfig_default d.
Proof.
  split; [by_decide|].
  destruct (adjust_difficulty_bounded DifficultyConfig_default (2 ^ 232 - 1) 15000) as (d & Hd & Hb & _).
  - by_decide.
  - split; apply Z.leb_le; vm_compute; reflexivity.
  - split; [apply Z.leb_le|apply Z.ltb_lt]; vm_compute; reflexivity.
  - exists d. split; assumption.
Defined.
