(* ===== verification/Miner.v ===== *)
(** * The multi-threaded miner (src/crates/qfc-pow/src/mining.rs)

    [mine_for_duration] and [mine_until_count] start threads that share a stop
    flag, the best hash behind a lock, the best nonce and two counters. Each
    thread is a small program here, one access to the shared memory per step,
    and the miner is the interleaving of the threads, with a sequentially
    consistent memory (the code's relaxed atomics allow no fewer behaviours).
    Wall-clock time is the [timer] step, possible at any moment.

    The theorems: whatever the interleaving, the best hash is the hash of some
    nonce that meets the target, and so is the nonce; with one thread the two
    belong together, the result verifies, and it is the lowest hash seen; with
    two threads they can come from different nonces, because the hash and the
    nonce are written one after the other, and the proof is then rejected. *)

From stdpp Require Import relations.
From S2P Require Import Prelude Externals Types Crypto Blocks Pow.

Record Miner := mkMiner { m_validator : Address; m_threads : nat }.

Definition miner_new (validator : Address) (threads : nat) : Miner := mkMiner validator (Nat.max threads 1).

(** [duration] in nanoseconds. *)
Record MiningResult := mkMiningResult {
  best_nonce : Z;
  best_hash : Hash;
  work_count : Z;
  total_hashes : Z;
  duration : Z;
}.

(** ** Shared memory and threads *)

Record Shared := mkShared {
  stop_flag : bool;
  sh_best_hash : Hash;
  sh_best_nonce : Z;
  sh_work_count : Z;
  sh_total_hashes : Z;
}.

Inductive Pc :=
| Test         (* the loop condition, then the hash of the current nonce *)
| Count        (* [work_count.fetch_add(1)] of [mine_until_count] *)
| ReadBest     (* [current_best = *best_hash.read()] and the comparison *)
| WriteHash    (* [*best_hash.write() = hash] *)
| StoreNonce   (* [best_nonce.store(nonce)] *)
| CheckTarget  (* [current_count + 1 >= target_count] of [mine_until_count] *)
| Next         (* [nonce = nonce.wrapping_add(num_threads)] *)
| AddWork      (* [work_count.fetch_add(local_work_count)] *)
| AddTotal     (* [total_hashes.fetch_add(local_total)] *)
| Done.

Record Thread := mkThread {
  pc : Pc;
  nonce : Z;
  hash : Hash;
  local_work_count : Z;
  local_total : Z;
  current_count : Z;
}.

Definition goto (p : Pc) (t : Thread) : Thread :=
  mkThread p (nonce t) (hash t) (local_work_count t) (local_total t) (current_count t).

Section miner.
Context `{B : Blake3}.
Context (task : MiningTask) (validator : Address).

Definition mined (n : Z) : Hash := mine_once (mt_seed task) validator n.
Definition meets (n : Z) : bool := meets_difficulty (mined n) (mt_difficulty task).

(** The part of the loop body that both miners share. *)
Definition read_best (after : Pc) (s : Shared) (t : Thread) : Shared * Thread :=
  (s, goto (if bytes_ltb (hash t) (sh_best_hash s) then WriteHash else after) t).
Definition write_hash (s : Shared) (t : Thread) : Shared * Thread :=
  (mkShared (stop_flag s) (hash t) (sh_best_nonce s) (sh_work_count s) (sh_total_hashes s), goto StoreNonce t).
Definition store_nonce (after : Pc) (s : Shared) (t : Thread) : Shared * Thread :=
  (mkShared (stop_flag s) (sh_best_hash s) (nonce t) (sh_work_count s) (sh_total_hashes s), goto after t).
Definition next_nonce (num_threads : nat) (s : Shared) (t : Thread) : Shared * Thread :=
  (s, mkThread Test (u64_add (nonce t) (Z.of_nat num_threads)) (hash t) (local_work_count t) (local_total t)
        (current_count t)).
Definition add_total (s : Shared) (t : Thread) : Shared * Thread :=
  (mkShared (stop_flag s) (sh_best_hash s) (sh_best_nonce s) (sh_work_count s)
     (u64_add (sh_total_hashes s) (local_total t)), goto Done t).

(** One step of a thread of [mine_for_duration]. *)
Definition duration_step (num_threads : nat) (s : Shared) (t : Thread) : Shared * Thread :=
  match pc t with
  | Test =>
    if stop_flag s then (s, goto AddWork t)
    else if meets (nonce t) then
      (s, mkThread ReadBest (nonce t) (mined (nonce t)) (u64_add (local_work_count t) 1)
            (u64_add (local_total t) 1) (current_count t))
    else
      (s, mkThread Next (nonce t) (mined (nonce t)) (local_work_count t) (u64_add (local_total t) 1)
            (current_count t))
  | ReadBest => read_best Next s t
  | WriteHash => write_hash s t
  | StoreNonce => store_nonce Next s t
  | Next => next_nonce num_threads s t
  | AddWork =>
    (mkShared (stop_flag s) (sh_best_hash s) (sh_best_nonce s)
       (u64_add (sh_work_count s) (local_work_count t)) (sh_total_hashes s), goto AddTotal t)
  | AddTotal => add_total s t
  | Count | CheckTarget | Done => (s, t)
  end.

(** One step of a thread of [mine_until_count]: the counter is shared, and the
    thread that reaches the target stops the others and leaves the loop. *)
Definition until_step (target_count : Z) (num_threads : nat) (s : Shared) (t : Thread) : Shared * Thread :=
  match pc t with
  | Test =>
    if stop_flag s then (s, goto AddTotal t)
    else
      (s, mkThread (if meets (nonce t) then Count else Next) (nonce t) (mined (nonce t)) (local_work_count t)
            (u64_add (local_total t) 1) (current_count t))
  | Count =>
    (mkShared (stop_flag s) (sh_best_hash s) (sh_best_nonce s) (u64_add (sh_work_count s) 1) (sh_total_hashes s),
     mkThread ReadBest (nonce t) (hash t) (local_work_count t) (local_total t) (sh_work_count s))
  | ReadBest => read_best CheckTarget s t
  | WriteHash => write_hash s t
  | StoreNonce => store_nonce CheckTarget s t
  | CheckTarget =>
    if target_count <=? u64_add (current_count t) 1 then
      (mkShared true (sh_best_hash s) (sh_best_nonce s) (sh_work_count s) (sh_total_hashes s), goto AddTotal t)
    else (s, goto Next t)
  | Next => next_nonce num_threads s t
  | AddTotal => add_total s t
  | AddWork | Done => (s, t)
  end.

(** ** The interleaving *)

Record Sys := mkSys { shared : Shared; pool : list Thread }.

Definition HASH_MAX : Hash := replicate 32 255.

Definition miner_init (num_threads : nat) : Sys :=
  mkSys (mkShared false HASH_MAX 0 0 0)
    (map (fun i => mkThread Test (Z.of_nat i) [] 0 0 0) (seq 0 num_threads)).

Definition stop (s : Shared) : Shared :=
  mkShared true (sh_best_hash s) (sh_best_nonce s) (sh_work_count s) (sh_total_hashes s).

Inductive sys_step (step : Shared -> Thread -> Shared * Thread) (timer : bool) : Sys -> Sys -> Prop :=
| step_thread x i t s' t' :
    pool x !! i = Some t -> step (shared x) t = (s', t') ->
    sys_step step timer x (mkSys s' (<[i := t']> (pool x)))
| step_timer x :
    timer = true -> sys_step step timer x (mkSys (stop (shared x)) (pool x)).

(** [mine_for_duration]: the main thread stops the others after its sleep. *)
Definition duration_reachable (m : Miner) (x : Sys) : Prop :=
  rtc (sys_step (duration_step (m_threads m)) true) (miner_init (m_threads m)) x.
Definition until_reachable (m : Miner) (target_count : Z) (x : Sys) : Prop :=
  rtc (sys_step (until_step target_count (m_threads m)) false) (miner_init (m_threads m)) x.

(** All threads joined. *)
Definition joined (x : Sys) : Prop := Forall (fun t => pc t = Done) (pool x).

Definition result_of (x : Sys) (elapsed : Z) : MiningResult :=
  mkMiningResult (sh_best_nonce (shared x)) (sh_best_hash (shared x)) (sh_work_count (shared x))
    (sh_total_hashes (shared x)) elapsed.
End miner.

Definition create_proof (m : Miner) (task : MiningTask) (result : MiningResult) (now : Z) : WorkProof :=
  mkWorkProof (m_validator m) (mt_epoch task) (best_nonce result) (best_hash result) (work_count result) now
    Signature_ZERO.

(** [mine_simple]: nonces in order. *)
Fixpoint mine_from `{B : Blake3} (task : MiningTask) (validator : Address) (n : Z) (attempts : nat) :
    option (Z * Hash) :=
  match attempts with
  | O => None
  | S attempts' =>
    if meets task validator n then Some (n, mined task validator n)
    else mine_from task validator (n + 1) attempts'
  end.
Definition mine_simple `{B : Blake3} (task : MiningTask) (validator : Address) (max_attempts : Z) :
    option (Z * Hash) :=
  mine_from task validator 0 (Z.to_nat max_attempts).

(** ** Every interleaving *)

Section theory.
Context `{B : Blake3}.
Context (task : MiningTask) (validator : Address).

Abbreviation mined := (mined task validator).
Abbreviation meets := (meets task validator).

(** Between the test and the end of the loop body a thread holds the hash of
    its nonce, which meets the target. *)
Definition thread_ok (t : Thread) : Prop :=
  match pc t with
  | Count | ReadBest | WriteHash | StoreNonce | CheckTarget => hash t = mined (nonce t) /\ meets (nonce t) = true
  | _ => True
  end.

(** The best hash is the initial one or that of a nonce that meets the target,
    and the best nonce is the initial one or meets the target. *)
Definition shared_ok (s : Shared) : Prop :=
  (sh_best_hash s = HASH_MAX \/ exists n, sh_best_hash s = mined n /\ meets n = true) /\
  (sh_best_nonce s = 0 \/ meets (sh_best_nonce s) = true).

Definition sys_ok (x : Sys) : Prop := shared_ok (shared x) /\ Forall thread_ok (pool x).

(** A step function that keeps both invariants. *)
Definition keeps (step : Shared -> Thread -> Shared * Thread) : Prop :=
  forall s t, shared_ok s -> thread_ok t -> shared_ok (fst (step s t)) /\ thread_ok (snd (step s t)).

(** The actions that both step functions share. *)
Ltac step_cases :=
  intros s [p k h lw lt cc] [Hh Hn] Ht; unfold read_best, write_hash, store_nonce, next_nonce, add_total, goto;
  destruct p; cbn in *; repeat (case_match; cbn in *); unfold shared_ok, thread_ok; cbn; naive_solver.

Lemma duration_keeps num : keeps (duration_step task validator num).
Proof. unfold keeps, duration_step, shared_ok, thread_ok. step_cases. Qed.

Lemma until_keeps target num : keeps (until_step task validator target num).
Proof. unfold keeps, until_step, shared_ok, thread_ok. step_cases. Qed.

Lemma sys_step_ok step timer x y : keeps step -> sys_step step timer x y -> sys_ok x -> sys_ok y.
Proof.
  intros Hk Hs [Hsh Hp]. destruct Hs as [x i t s' t' Hi Ht|x ->]; [|by split].
  destruct (Hk (shared x) t) as [H1 H2]; [done|by eapply Forall_lookup_1|].
  rewrite Ht in *. split; [done|]. by apply Forall_insert.
Qed.

Lemma reachable_ok step timer n x :
  keeps step -> rtc (sys_step step timer) (miner_init n) x -> sys_ok x.
Proof.
  intros Hk Hr. assert (Hi : sys_ok (miner_init n)).
  { split; [by split; left|]. apply Forall_forall. intros t (i & -> & _)%list_elem_of_fmap. done. }
  induction Hr as [|x y z Hs _ IH]; [done|]. apply IH. by eapply sys_step_ok.
Qed.

(** A schedule: the thread to move next, or the timer. *)
Fixpoint run_schedule (step : Shared -> Thread -> Shared * Thread) (sched : list (option nat)) (x : Sys) : Sys :=
  match sched with
  | [] => x
  | None :: sched' => run_schedule step sched' (mkSys (stop (shared x)) (pool x))
  | Some i :: sched' =>
    match pool x !! i with
    | Some t => let r := step (shared x) t in run_schedule step sched' (mkSys (fst r) (<[i := snd r]> (pool x)))
    | None => run_schedule step sched' x
    end
  end.

Lemma run_schedule_reachable step sched x : rtc (sys_step step true) x (run_schedule step sched x).
Proof.
  revert x. induction sched as [|[i|] sched IH]; intros x; simpl; [done|..].
  - destruct (pool x !! i) as [t|] eqn:Hi; [|apply IH].
    eapply rtc_l; [|apply IH]. eapply step_thread; [done|]. apply surjective_pairing.
  - eapply rtc_l; [|apply IH]. by apply step_timer.
Qed.

Lemma run_schedule_nsteps step sched x :
  Forall (fun o => forall i, o = Some i -> (i < length (pool x))%nat) sched ->
  nsteps (sys_step step true) (length sched) x (run_schedule step sched x).
Proof.
  revert x. induction sched as [|[i|] sched IH]; intros x Hf; simpl; [constructor|..]; inversion Hf as [|?? Hi Hf']; subst.
  - destruct (lookup_lt_is_Some_2 (pool x) i) as [t Ht]; [by apply Hi|]. rewrite Ht.
    eapply nsteps_l; [eapply step_thread; [done|apply surjective_pairing]|].
    apply IH. simpl. by rewrite length_insert.
  - eapply nsteps_l; [by apply step_timer|]. by apply IH.
Qed.

(** Both threads find a hash and read the old best; thread 1 writes its pair
    between the two writes of thread 0. *)
Definition race : list (option nat) :=
  map Some [0; 0; 1; 1; 0; 1; 1; 0; 0; 1]%nat ++ [None] ++ map Some [0; 0; 0; 1; 1; 1]%nat.

Lemma run_thread step sched s p i t s' t' :
  p !! i = Some t -> step s t = (s', t') ->
  run_schedule step (Some i :: sched) (mkSys s p) = run_schedule step sched (mkSys s' (<[i := t']> p)).
Proof. intros Hi Hs. simpl. rewrite Hi, Hs. done. Qed.

Lemma run_timer step sched s p :
  run_schedule step (None :: sched) (mkSys s p) = run_schedule step sched (mkSys (stop s) p).
Proof. done. Qed.

(** [run_one hs] moves the scheduled thread, deciding its tests with [hs]. *)
Ltac run_one hs :=
  erewrite run_thread; [|reflexivity|
    cbv [duration_step read_best write_hash store_nonce next_nonce add_total goto stop pc nonce hash
      local_work_count local_total current_count stop_flag sh_best_hash sh_best_nonce sh_work_count sh_total_hashes];
    rewrite ?hs; reflexivity];
  cbn [insert list_insert].

Lemma race_result :
  (forall n, n = 0 \/ n = 1 -> meets n = true /\ bytes_ltb (mined n) HASH_MAX = true) ->
  let x := run_schedule (duration_step task validator 2) race (miner_init 2) in
  joined x /\ result_of x 0 = mkMiningResult 0 (mined 1) 2 2 0.
Proof.
  intros Hs x. subst x. unfold race, miner_init. cbn [map app seq].
  change (Z.of_nat 0) with 0. change (Z.of_nat 1) with 1.
  destruct (Hs 0) as [h0 l0]; [by left|]. destruct (Hs 1) as [h1 l1]; [by right|].
  run_one h0. run_one l0. run_one h1. run_one l1. do 6 run_one h0.
  rewrite run_timer. do 6 run_one h0. simpl run_schedule. split; [by repeat constructor|]. done.
Qed.

(** ** One thread *)

(** A hash that meets the target is below the initial best hash. *)
Hypothesis below_max : forall n, meets n = true -> bytes_ltb (mined n) HASH_MAX = true.

(** The nonces that the thread has hashed, and those it has compared with the best. *)
Definition hashed (t : Thread) : Z :=
  match pc t with ReadBest | WriteHash | StoreNonce | Next => nonce t + 1 | _ => nonce t end.
Definition compared (t : Thread) : Z := match pc t with Next => nonce t + 1 | _ => nonce t end.

(** Hash and nonce belong together, or no nonce below [n] met the target. *)
Definition paired (s : Shared) (n : Z) : Prop :=
  (sh_best_hash s = HASH_MAX /\ forall m, 0 <= m < n -> meets m = false) \/
  (sh_best_hash s = mined (sh_best_nonce s) /\ meets (sh_best_nonce s) = true).

Definition lowest (s : Shared) (n : Z) : Prop :=
  forall m, 0 <= m < n -> meets m = true -> bytes_le (sh_best_hash s) (mined m).

Record single (k : nat) (s : Shared) (t : Thread) : Prop := {
  si_thread : thread_ok t;
  si_nonce : 0 <= nonce t /\ hashed t <= Z.of_nat k;
  si_total : local_total t = hashed t;
  si_lowest : lowest s (compared t);
  si_pair : match pc t with
    | StoreNonce => sh_best_hash s = hash t
    | WriteHash => paired s (compared t) /\ bytes_ltb (hash t) (sh_best_hash s) = true
    | _ => paired s (compared t)
    end;
  si_work : in_u 64 (local_work_count t) /\
    (local_work_count t <> 0 -> exists m, 0 <= m < hashed t /\ meets m = true);
  si_count : sh_work_count s = match pc t with AddTotal | Done => local_work_count t | _ => 0 end;
  si_sum : sh_total_hashes s = match pc t with Done => local_total t | _ => 0 end;
}.

Lemma paired_ext s s' n :
  sh_best_hash s = sh_best_hash s' -> sh_best_nonce s = sh_best_nonce s' -> paired s n -> paired s' n.
Proof. unfold paired. by intros -> ->. Qed.

Lemma paired_next s n : meets n = false -> paired s n -> paired s (n + 1).
Proof.
  intros Hn [[Hb Hm]|Hp]; [left|by right]. split; [done|]. intros m Hr.
  destruct (decide (m = n)) as [->|]; [done|]. apply Hm. lia.
Qed.

Lemma lowest_next s n : (meets n = true -> bytes_le (sh_best_hash s) (mined n)) -> lowest s n -> lowest s (n + 1).
Proof.
  intros Hn Hl m Hr Hm. destruct (decide (m = n)) as [->|]; [auto|]. apply Hl; [lia|done].
Qed.

Lemma u64_small x y : 0 <= x + y < 2 ^ 64 -> u64_add x y = x + y.
Proof. intros H. by apply Z.mod_small. Qed.

(** [single_case t H] opens the invariant of [t] and the goal after the step. *)
Ltac single_case :=
  match goal with
  | H : single _ _ ?t |- _ =>
    destruct t as [p n h w l c]; simpl in *; subst p;
    destruct H as [Ht [Hn Hh] Htot Hlow Hpair [Hw Hwm] Hc Hs];
    unfold thread_ok, hashed, compared in *; simpl in *
  end.
Ltac single_goal :=
  constructor; unfold thread_ok, hashed, compared, in_u in *; simpl in *; rewrite ?u64_small by lia; try done; try lia.

Lemma single_test k s t :
  Z.of_nat k + 1 < 2 ^ 64 -> pc t = Test -> single k s t ->
  let r := duration_step task validator 1 s t in single (S k) (fst r) (snd r).
Proof.
  intros Hk Hpc Hi. single_case. unfold duration_step, goto. simpl.
  destruct (stop_flag s); [|destruct (meets n) eqn:Em]; simpl; single_goal.
  - split; [apply Z.mod_pos_bound; lia|]. intros _. exists n. split; [lia|done].
  - apply lowest_next; [congruence|done].
  - by apply paired_next.
  - split; [done|]. intros (m & Hm & ?)%Hwm. exists m. split; [lia|done].
Qed.

(** The two writes, in the one order a single thread makes them. *)
Lemma single_best k s t :
  Z.of_nat k + 1 < 2 ^ 64 -> (pc t = ReadBest \/ pc t = WriteHash \/ pc t = StoreNonce) -> single k s t ->
  let r := duration_step task validator 1 s t in single (S k) (fst r) (snd r).
Proof.
  intros Hk [Hpc|[Hpc|Hpc]] Hi; single_case; destruct Ht as [-> Hm];
    unfold duration_step, read_best, write_hash, store_nonce, goto; simpl.
  - destruct (bytes_ltb (mined n) (sh_best_hash s)) eqn:El; single_goal.
    + apply lowest_next; [|done]. intros _. by apply bytes_ltb_ge.
    + destruct Hpair as [[Hb _]|Hp]; [|by right]. rewrite Hb, below_max in El by done. done.
  - single_goal. intros m Hr Hmm. simpl. destruct Hpair as [_ El].
    transitivity (sh_best_hash s); [by apply bytes_ltb_le|by apply Hlow].
  - single_goal.
    + apply lowest_next; [|done]. intros _. simpl. rewrite Hpair. destruct (total bytes_le (mined n) (mined n)); done.
    + right. done.
Qed.

(** The end of the loop body and of the thread. *)
Lemma single_rest k s t :
  Z.of_nat k + 1 < 2 ^ 64 -> (pc t = Next \/ pc t = AddWork \/ pc t = AddTotal \/ pc t = Done) -> single k s t ->
  let r := duration_step task validator 1 s t in single (S k) (fst r) (snd r).
Proof.
  intros Hk [Hpc|[Hpc|[Hpc|Hpc]]] Hi; single_case;
    unfold duration_step, next_nonce, add_total, goto; simpl; single_goal.
Qed.

Lemma single_step k s t :
  Z.of_nat k + 1 < 2 ^ 64 -> single k s t ->
  let r := duration_step task validator 1 s t in single (S k) (fst r) (snd r).
Proof.
  intros Hk Hi. destruct (pc t) eqn:Hpc.
  1: by apply single_test.
  2-4: apply single_best; [done|by rewrite Hpc; auto|done].
  3-6: apply single_rest; [done|by rewrite Hpc; auto|done].
  all: single_case; unfold duration_step; simpl; single_goal.
Qed.

Lemma single_reachable k x :
  Z.of_nat k < 2 ^ 64 -> nsteps (sys_step (duration_step task validator 1) true) k (miner_init 1) x ->
  exists t, pool x = [t] /\ single k (shared x) t.
Proof.
  revert x. induction k as [|k IH]; intros x Hk Hr.
  - inversion Hr; subst. eexists. split; [done|]. constructor; unfold hashed, compared; simpl; try done.
    + intros m Hm. lia.
    + left. split; [done|]. lia.
  - apply nsteps_inv_r in Hr as (y & Hy & Hs). destruct (IH y) as (t & Hp & Hi); [lia|done|].
    inversion Hs as [? i t0 s' t' Hl He|? _]; subst.
    + rewrite Hp in *. destruct i; [|done]. simpl in Hl. injection Hl as <-.
      eexists. split; [done|]. pose proof (single_step k _ _ ltac:(lia) Hi) as Hn. by rewrite He in Hn.
    + exists t. split; [done|]. destruct Hi. constructor; simpl; try done. lia.
Qed.
End theory.

(** ** Theorems *)

Lemma digest_below_max `{B : Blake3} `{!Digest32 B} task validator n :
  mt_difficulty task < 2 ^ 256 -> meets task validator n = true ->
  bytes_ltb (mined task validator n) HASH_MAX = true.
Proof.
  unfold meets, meets_difficulty, u256_from_be. intros Hd Hm%Z.ltb_lt. unfold bytes_ltb.
  rewrite bytes_cmp_from_be; [|apply blake3_bytes|by_decide|apply blake3_length].
  replace (from_be HASH_MAX) with (2 ^ 256 - 1) by (vm_compute; reflexivity).
  by rewrite (proj2 (Z.compare_lt_iff _ _)) by lia.
Qed.

Lemma verify_mined `{B : Blake3} (m : Miner) task n count elapsed total now :
  meets task (m_validator m) n = true ->
  verify_proof (create_proof m task (mkMiningResult n (mined task (m_validator m) n) count total elapsed) now) task = Ok true.
Proof.
  intros Hm. unfold verify_proof, create_proof. simpl. rewrite Z.eqb_refl, bool_decide_true by done. simpl.
  unfold meets in Hm. by rewrite Hm.
Qed.

(** In every interleaving of the threads of either miner, the
    best hash is the initial one or the hash of a nonce that meets the target,
    and the best nonce is the initial one or meets the target. *)
Theorem miner_interleavings `{B : Blake3} (m : Miner) task target x :
  duration_reachable task (m_validator m) m x \/ until_reachable task (m_validator m) m target x ->
  (sh_best_hash (shared x) = HASH_MAX \/
   exists n, sh_best_hash (shared x) = mined task (m_validator m) n /\ meets task (m_validator m) n = true) /\
  (sh_best_nonce (shared x) = 0 \/ meets task (m_validator m) (sh_best_nonce (shared x)) = true).
Proof.
  intros [Hr|Hr]; eapply (reachable_ok task (m_validator m)); try apply Hr; [apply duration_keeps|apply until_keeps].
Qed.

(** A miner with one thread that has joined after finding
    valid hashes returns a proof that verifies, and no nonce it tried has a
    lower valid hash (for runs of fewer than [2^64] steps). *)
Theorem miner_single_thread `{B : Blake3} `{!Digest32 B} (m : Miner) task k x elapsed now :
  m_threads m = 1%nat -> mt_difficulty task < 2 ^ 256 -> Z.of_nat k < 2 ^ 64 ->
  nsteps (sys_step (duration_step task (m_validator m) 1) true) k (miner_init 1) x ->
  joined x -> work_count (result_of x elapsed) <> 0 ->
  let r := result_of x elapsed in
  verify_proof (create_proof m task r now) task = Ok true /\
  forall n, 0 <= n < total_hashes r -> meets task (m_validator m) n = true ->
    bytes_le (best_hash r) (mined task (m_validator m) n).
Proof.
  intros _ Hd Hk Hr Hj Hw. simpl in Hw.
  destruct (single_reachable task (m_validator m) (fun n => digest_below_max task (m_validator m) n Hd) k x Hk Hr)
    as (t & Hp & [_ [Hn _] Htot Hlow Hpair [_ Hwm] Hc Hs]).
  unfold joined in Hj. rewrite Hp in Hj. inversion Hj as [|?? Hpc _]; subst.
  unfold hashed, compared in *. rewrite Hpc in *. rewrite Hc in Hw. destruct (Hwm Hw) as (n & Hrn & Hmn).
  destruct Hpair as [[_ Hno]|[Hb Hm]]; [by rewrite Hno in Hmn|]. split.
  - unfold result_of. rewrite Hb. by apply verify_mined.
  - intros n' Hn' Hm'. apply Hlow; [|done]. simpl in Hn'. rewrite Hs, Htot in Hn'. done.
Qed.

(** With two threads the result can pair the hash of one nonce
    with another nonce: whenever the first two nonces both meet the target with
    different hashes, an interleaving ends with a proof that is rejected. *)
Theorem miner_pair_race `{B : Blake3} `{!Digest32 B} validator task now :
  mt_difficulty task < 2 ^ 256 -> meets task validator 0 = true -> meets task validator 1 = true ->
  mined task validator 0 <> mined task validator 1 ->
  let m := miner_new validator 2 in
  exists x, duration_reachable task validator m x /\ joined x /\ work_count (result_of x 0) = 2 /\
    verify_proof (create_proof m task (result_of x 0) now) task = Err InvalidHash.
Proof.
  intros Hd H0 H1 Hne m. destruct (race_result task validator) as [Hj Hr].
  { intros n [->| ->]; (split; [done|by apply digest_below_max]). }
  exists (run_schedule (duration_step task validator 2) race (miner_init 2)).
  split; [apply run_schedule_reachable|]. split; [exact Hj|]. rewrite Hr. split; [done|].
  unfold verify_proof, create_proof. simpl. rewrite Z.eqb_refl. simpl. by rewrite bool_decide_false.
Qed.

Lemma mine_from_first `{B : Blake3} task validator n0 attempts :
  match mine_from task validator n0 attempts with
  | Some (n, h) =>
    n0 <= n < n0 + Z.of_nat attempts /\ h = mined task validator n /\ meets task validator n = true /\
    forall k, n0 <= k < n -> meets task validator k = false
  | None => forall k, n0 <= k < n0 + Z.of_nat attempts -> meets task validator k = false
  end.
Proof.
  revert n0. induction attempts as [|a IH]; intros n0; cbn [mine_from]; [intros k Hk; lia|].
  destruct (meets task validator n0) eqn:Em; [split_and!; try done; lia|].
  assert (Hfirst : forall j k, n0 <= k < j -> (forall k', n0 + 1 <= k' < j -> meets task validator k' = false) ->
    meets task validator k = false).
  { intros j k Hk Hj. destruct (decide (k = n0)) as [->|]; [done|]. apply Hj. lia. }
  specialize (IH (n0 + 1)). destruct (mine_from task validator (n0 + 1) a) as [[n h]|].
  - destruct IH as (Hr & -> & Hm & Hk). split_and!; try done; [lia..|]. intros k Hk'. by apply (Hfirst n).
  - intros k Hk. apply (Hfirst (n0 + Z.of_nat (S a))); [done|]. intros k' Hk'. apply IH. lia.
Qed.

(** The single-threaded search returns the first nonce that
    meets the target, with a hash that verifies, and nothing exactly when there
    is none among the attempts. *)
Theorem mine_simple_first `{B : Blake3} task validator max_attempts :
  0 <= max_attempts ->
  match mine_simple task validator max_attempts with
  | Some (n, h) =>
    0 <= n < max_attempts /\ (forall k, 0 <= k < n -> meets task validator k = false) /\
    forall count now, verify_proof (mkWorkProof validator (mt_epoch task) n h count now Signature_ZERO) task = Ok true
  | None => forall k, 0 <= k < max_attempts -> meets task validator k = false
  end.
Proof.
  intros Hmax. pose proof (mine_from_first task validator 0 (Z.to_nat max_attempts)) as Hf.
  unfold mine_simple. rewrite Z2Nat.id in Hf by done. rewrite Z.add_0_l in Hf.
  destruct (mine_from _ _ _ _) as [[n h]|]; [|done]. destruct Hf as (Hr & -> & Hm & Hk). split; [done|].
  split; [done|]. intros count now. by apply (verify_mined (mkMiner validator 1) task n count 0 0 now).
Qed.

(** ** Examples *)

(** A digest that reads the first byte of the nonce: later nonces have lower hashes. *)
Definition ex_blake3 : Blake3 := fun bs => replicate 31 0 ++ [(200 - default 0 (bs !! 52%nat)) mod 256].

Lemma ex_blake3_32 : Digest32 ex_blake3.
Proof.
  split; intros x; unfold blake3, ex_blake3; [done|]. apply Forall_app. split; [by_decide|].
  repeat constructor; unfold is_byte; apply Z.mod_pos_bound; lia.
Qed.

#[local] Existing Instances ex_blake3 ex_blake3_32.

Definition ex_task : MiningTask := mkMiningTask 7 (replicate 32 1) 201 0 10000.
Definition ex_miner_address : Address := replicate 20 2.
Definition ex_single : list (option nat) :=
  replicate 10 (Some 0%nat) ++ [None] ++ replicate 3 (Some 0%nat).

Lemma miner_interleavings_witness :
  exists x, duration_reachable ex_task ex_miner_address (miner_new ex_miner_address 2) x /\
    meets ex_task ex_miner_address (sh_best_nonce (shared x)) = true.
Proof.
  exists (run_schedule (duration_step ex_task ex_miner_address 2) race (miner_init 2)).
  assert (duration_reachable ex_task ex_miner_address (miner_new ex_miner_address 2)
    (run_schedule (duration_step ex_task ex_miner_address 2) race (miner_init 2))) as Hr
    by apply run_schedule_reachable.
  split; [exact Hr|].
  destruct (miner_interleavings (miner_new ex_miner_address 2) ex_task 0 _ (or_introl Hr)) as [_ [->|Hm]];
    [vm_compute; reflexivity|exact Hm].
Defined.

Lemma miner_single_thread_witness :
  exists x, joined x /\ result_of x 0 = mkMiningResult 1 (mined ex_task ex_miner_address 1) 2 2 0 /\
    verify_proof (create_proof (miner_new ex_miner_address 1) ex_task (result_of x 0) 0) ex_task = Ok true.
Proof.
  set (x := run_schedule (duration_step ex_task ex_miner_address 1) ex_single (miner_init 1)).
  assert (joined x) as Hj by (vm_compute; constructor; [reflexivity|constructor]).
  exists x. split; [exact Hj|]. split; [vm_compute; reflexivity|].
  destruct (miner_single_thread (miner_new ex_miner_address 1) ex_task (length ex_single) x 0 0) as [Hv _].
  - reflexivity.
  - reflexivity.
  - reflexivity.
  - apply run_schedule_nsteps.
    repeat (constructor; [intros i Hi; (discriminate Hi || (injection Hi as <-; simpl; lia))|]). constructor.
  - exact Hj.
  - vm_compute. discriminate.
  - exact Hv.
Defined.

Lemma miner_pair_race_witness :
  exists x, joined x /\
    verify_proof (create_proof (miner_new ex_miner_address 2) ex_task (result_of x 0) 0) ex_task = Err InvalidHash.
Proof.
  destruct (miner_pair_race ex_miner_address ex_task 0) as (x & _ & Hj & _ & He).
  - reflexivity.
  - vm_compute; reflexivity.
  - vm_compute; reflexivity.
  - vm_compute; discriminate.
  - exists x. split; [exact Hj|exact He].
Defined.

Lemma mine_simple_first_witness :
  mine_simple ex_task ex_miner_address 5 = Some (0, mined ex_task ex_miner_address 0) /\
  verify_proof (mkWorkProof ex_miner_address 7 0 (mined ex_task ex_miner_address 0) 1 9 Signature_ZERO) ex_task = Ok true.
Proof.
  split; [vm_compute; reflexivity|].
  pose proof (mine_simple_first ex_task ex_miner_address 5 ltac:(lia)) as Hf.
  replace (mine_simple ex_task ex_miner_address 5) with (Some (0, mined ex_task ex_miner_address 0)) in Hf
    by (vm_compute; reflexivity).
  destruct Hf as (_ & _ & Hv). apply (Hv 1 9).
Defined.
