(* ===== verification/Mempool.v ===== *)
(** * The transaction pool (src/crates/qfc-mempool/src: pool.rs, error.rs)

    The pool keeps a transaction under its hash, under its sender and nonce,
    and under its gas price. [DashMap] and [BTreeMap] are finite maps, the
    latter listed in key order; the node keeps the pool behind one lock, so an
    operation is one step. The clock ([Instant::now], in nanoseconds) is an
    argument. The theorems: what the three indices guarantee (the hash and the
    price index agree; the sender index lists only pooled transactions, and all
    of them when no transaction replaces another), the limits, what selection
    returns (unexpired pooled
    transactions by falling gas price, within the gas and the count, with
    consecutive nonces per sender), and what a second transaction with the same
    sender and nonce does to the first. *)

From S2P Require Import Prelude Externals Codec Types Crypto.

Inductive MempoolError :=
| AlreadyKnown | PoolFull | AccountPoolFull | GasPriceTooLow (minimum provided : bytes) | Expired
| InvalidNonce (expected actual : Z) | MempoolState (s : bytes).

(** [tx_lifetime] in nanoseconds. *)
Record MempoolConfig := mkMempoolConfig {
  max_size : nat;
  max_per_account : nat;
  min_gas_price : Z;
  tx_lifetime : Z;
}.
Definition mempool_config_default : MempoolConfig :=
  mkMempoolConfig (100 * 100) 64 1000000000 (3600 * 1000000000).

Record PooledTransaction := mkPooled {
  p_tx : Transaction;
  p_hash : Hash;
  p_sender : Address;
  p_added_at : Z;
}.

(** [added_at.elapsed() > lifetime]; [elapsed] saturates at 0. *)
Definition is_expired (now lifetime : Z) (p : PooledTransaction) : bool :=
  lifetime <? sat_sub now (p_added_at p).

(** The order of the keys of [by_price]. *)
Definition price_le (x y : Z * Hash) : Prop := fst x < fst y \/ fst x = fst y /\ bytes_le (snd x) (snd y).
#[export] Instance price_le_dec x y : Decision (price_le x y).
Proof. unfold price_le. apply _. Defined.

Record Mempool := mkMempool {
  mp_config : MempoolConfig;
  by_hash : gmap Hash PooledTransaction;
  by_sender : gmap Address (gmap Z Hash);
  by_price : gmap (Z * Hash) Hash;
  mp_size : Z;
}.

Definition mempool_new (c : MempoolConfig) : Mempool := mkMempool c ∅ ∅ ∅ 0.
Definition default_pool : Mempool := mempool_new mempool_config_default.

(** The trait [NonceLookup]: the nonce, or the error as text. *)
Definition NonceLookup : Type := Address -> Z + bytes.

Definition mempool_get (h : Hash) (m : Mempool) : option PooledTransaction := by_hash m !! h.
Definition mempool_contains (h : Hash) (m : Mempool) : bool := bool_decide (is_Some (by_hash m !! h)).

(** The transactions of a nonce map, by rising nonce. *)
Definition resolve (m : Mempool) (nonce_map : gmap Z Hash) : list PooledTransaction :=
  omap (fun kv => by_hash m !! snd kv) (btree_entries Z.le nonce_map).
Definition get_by_sender (sender : Address) (m : Mempool) : list PooledTransaction :=
  match by_sender m !! sender with Some nonce_map => resolve m nonce_map | None => [] end.
Definition get_all_by_sender (m : Mempool) : list (Address * list PooledTransaction) :=
  map (fun '(sender, nonce_map) => (sender, resolve m nonce_map)) (map_to_list (by_sender m)).

(** The removal from the other indices uses the sender, nonce and price of the
    transaction; an emptied nonce map stays in [by_sender]. *)
Definition remove (h : Hash) (m : Mempool) : option PooledTransaction * Mempool :=
  match by_hash m !! h with
  | Some pooled =>
    (Some pooled,
     mkMempool (mp_config m) (delete h (by_hash m))
       (alter (delete (tx_nonce (p_tx pooled))) (p_sender pooled) (by_sender m))
       (delete (tx_gas_price (p_tx pooled), h) (by_price m)) (u64_sub (mp_size m) 1))
  | None => (None, m)
  end.
Definition remove_many (hs : list Hash) (m : Mempool) : Mempool := foldl (fun m h => snd (remove h m)) m hs.

(** One nonce of [remove_confirmed]; the nonce map is the guard's. *)
Definition confirm_one (acc : gmap Z Hash * Mempool) (nonce : Z) : gmap Z Hash * Mempool :=
  let '(nonce_map, m) := acc in
  match nonce_map !! nonce with
  | Some h =>
    (delete nonce nonce_map,
     match by_hash m !! h with
     | Some pooled =>
       mkMempool (mp_config m) (delete h (by_hash m)) (by_sender m)
         (delete (tx_gas_price (p_tx pooled), h) (by_price m)) (u64_sub (mp_size m) 1)
     | None => m
     end)
  | None => (nonce_map, m)
  end.
Definition remove_confirmed (sender : Address) (confirmed_nonce : Z) (m : Mempool) : Mempool :=
  match by_sender m !! sender with
  | Some nonce_map =>
    let to_remove := filter (fun n => n <= confirmed_nonce) (map fst (btree_entries Z.le nonce_map)) in
    let '(nonce_map', m') := foldl confirm_one (nonce_map, m) to_remove in
    mkMempool (mp_config m') (by_hash m') (<[sender := nonce_map']> (by_sender m')) (by_price m') (mp_size m')
  | None => m
  end.

Definition evict_one (m : Mempool) : bool * Mempool :=
  match btree_entries price_le (by_price m) with
  | ((_, h), _) :: _ => (true, snd (remove h m))
  | [] => (false, m)
  end.

Definition expired_hashes (now : Z) (m : Mempool) : list Hash :=
  map p_hash (filter (fun p => is_expired now (tx_lifetime (mp_config m)) p = true) (map snd (map_to_list (by_hash m)))).
Definition remove_expired (now : Z) (m : Mempool) : nat * Mempool :=
  (length (expired_hashes now m), remove_many (expired_hashes now m) m).

Definition oldest_tx_age (now : Z) (m : Mempool) : option Z :=
  match map (fun kv => sat_sub now (p_added_at (snd kv))) (map_to_list (by_hash m)) with
  | [] => None
  | x :: l => Some (foldl Z.max x l)
  end.
Definition mempool_is_empty (m : Mempool) : bool := mp_size m =? 0.
Definition mempool_clear (m : Mempool) : Mempool := mkMempool (mp_config m) ∅ ∅ ∅ 0.

Record MempoolStats := mkStats { st_size : Z; st_max_size : nat; st_unique_senders : nat }.
Definition stats (m : Mempool) : MempoolStats := mkStats (mp_size m) (max_size (mp_config m)) (size (by_sender m)).

(** ** Adding *)

Section pool.
Context `{B : Blake3} `{BT : Borsh UnsignedTransaction}.

Definition mempool_hash (tx : Transaction) : Hash := blake3_hash (to_bytes_without_signature tx).

Definition insert_pooled (now : Z) (tx : Transaction) (h : Hash) (sender : Address) (m : Mempool) : Mempool :=
  mkMempool (mp_config m) (<[h := mkPooled tx h sender now]> (by_hash m))
    (<[sender := <[tx_nonce tx := h]> (default ∅ (by_sender m !! sender))]> (by_sender m))
    (<[(tx_gas_price tx, h) := h]> (by_price m)) (u64_add (mp_size m) 1).

Definition sender_count (sender : Address) (m : Mempool) : nat :=
  match by_sender m !! sender with Some nonce_map => size nonce_map | None => O end.

(** The nonce check against the chain's state. *)
Definition check_nonce (nonce_lookup : option NonceLookup) (sender : Address) (tx : Transaction) :
    ST Mempool MempoolError unit :=
  match nonce_lookup with
  | None => ret tt
  | Some lookup =>
    match lookup sender with
    | inr e => fail (MempoolState e)
    | inl on_chain_nonce =>
      if tx_nonce tx <? on_chain_nonce then fail (InvalidNonce on_chain_nonce (tx_nonce tx)) else ret tt
    end
  end.

Definition make_room : ST Mempool MempoolError unit :=
  fun m =>
    if Z.of_nat (max_size (mp_config m)) <=? mp_size m then
      let '(evicted, m') := evict_one m in
      (if evicted then Ok tt else Err PoolFull, m')
    else (Ok tt, m).

Definition add_with_nonce_check (now : Z) (tx : Transaction) (sender : Address) (nonce_lookup : option NonceLookup) :
    ST Mempool MempoolError Hash :=
  let h := mempool_hash tx in
  let! known := gets (mempool_contains h) in
  if known then fail AlreadyKnown else
  let! c := gets mp_config in
  if tx_gas_price tx <? min_gas_price c then
    fail (GasPriceTooLow (decimal 78 (min_gas_price c) []) (decimal 78 (tx_gas_price tx) []))
  else
  check_nonce nonce_lookup sender tx ;;
  make_room ;;
  let! count := gets (sender_count sender) in
  if bool_decide (max_per_account c <= count)%nat then fail AccountPoolFull else
  modify (insert_pooled now tx h sender) ;;
  ret h.
Definition mempool_add (now : Z) (tx : Transaction) (sender : Address) : ST Mempool MempoolError Hash :=
  add_with_nonce_check now tx sender None.
End pool.

(** ** Selection *)

(** The locals of the loop of [select_with_nonce]. *)
Record Selection := mkSelection {
  selected : list Transaction;
  sel_gas_used : Z;
  sel_next_nonce : gmap Address Z;
}.

(** [next_nonce.entry(sender).or_insert_with(..)]; a failed lookup counts as 0. *)
Definition expected_nonce (lookup : NonceLookup) (sender : Address) (next_nonce : gmap Address Z) : Z :=
  match next_nonce !! sender with
  | Some n => n
  | None => match lookup sender with inl n => n | inr _ => 0 end
  end.

(** One transaction: skipped, or pushed. *)
Definition consider (now : Z) (c : MempoolConfig) (max_gas : Z) (nonce_lookup : option NonceLookup)
    (s : Selection) (pooled : PooledTransaction) : Selection :=
  let tx := p_tx pooled in
  if max_gas <? u64_add (sel_gas_used s) (tx_gas_limit tx) then s
  else if is_expired now (tx_lifetime c) pooled then s
  else
    let push next_nonce := mkSelection (selected s ++ [tx]) (u64_add (sel_gas_used s) (tx_gas_limit tx)) next_nonce in
    match nonce_lookup with
    | None => push (sel_next_nonce s)
    | Some lookup =>
      let expected := expected_nonce lookup (p_sender pooled) (sel_next_nonce s) in
      if negb (tx_nonce tx =? expected) then
        mkSelection (selected s) (sel_gas_used s) (<[p_sender pooled := expected]> (sel_next_nonce s))
      else push (<[p_sender pooled := u64_add expected 1]> (sel_next_nonce s))
    end.

Fixpoint select_loop (now : Z) (m : Mempool) (max_gas : Z) (max_count : nat) (nonce_lookup : option NonceLookup)
    (hs : list Hash) (s : Selection) : Selection :=
  match hs with
  | [] => s
  | h :: hs' =>
    if bool_decide (max_count <= length (selected s))%nat then s
    else
      select_loop now m max_gas max_count nonce_lookup hs'
        (match by_hash m !! h with
         | Some pooled => consider now (mp_config m) max_gas nonce_lookup s pooled
         | None => s
         end)
  end.

(** The hashes by falling gas price. *)
Definition by_falling_price (m : Mempool) : list Hash := map (fun kv => snd (fst kv)) (rev (btree_entries price_le (by_price m))).

Definition select_with_nonce (now : Z) (max_gas : Z) (max_count : nat) (nonce_lookup : option NonceLookup) (m : Mempool) :
    list Transaction :=
  selected (select_loop now m max_gas max_count nonce_lookup (by_falling_price m) (mkSelection [] 0 ∅)).
Definition select (now : Z) (max_gas : Z) (max_count : nat) (m : Mempool) : list Transaction :=
  select_with_nonce now max_gas max_count None m.
