(* ===== verification/MempoolProps.v ===== *)
(** * Theorems about the transaction pool

    The invariant of the three indices over every sequence of operations, what
    selection returns, and the fate of a transaction that is shadowed by
    another one with its sender and nonce. *)

From S2P Require Import Prelude Externals Codec Types Crypto Mempool.

#[export] Instance price_le_trans : Transitive price_le.
Proof.
  intros [a x] [b y] [c z]. unfold price_le; simpl. intros [|[-> ?]] [|[-> ?]]; [left; lia|by left|by left|].
  right. split; [done|]. by transitivity y.
Qed.
#[export] Instance price_le_total : Total price_le.
Proof.
  intros [a x] [b y]. unfold price_le; simpl. destruct (Z.lt_trichotomy a b) as [|[->|]]; [by auto| |by auto].
  destruct (total bytes_le x y); auto.
Qed.

Section pool.
Context `{B : Blake3} `{BT : Borsh UnsignedTransaction}.

(** ** The invariant *)

Record pool_ok (m : Mempool) : Prop := {
  po_entry h p : by_hash m !! h = Some p ->
    p_hash p = h /\ mempool_hash (p_tx p) = h /\ min_gas_price (mp_config m) <= tx_gas_price (p_tx p);
  po_price g h h' : by_price m !! (g, h) = Some h' <->
    h' = h /\ exists p, by_hash m !! h = Some p /\ tx_gas_price (p_tx p) = g;
  po_sender s nm n h : by_sender m !! s = Some nm -> nm !! n = Some h ->
    exists p, by_hash m !! h = Some p /\ p_sender p = s /\ tx_nonce (p_tx p) = n;
  po_account s nm : by_sender m !! s = Some nm -> (size nm <= max_per_account (mp_config m))%nat;
  po_size : mp_size m = Z.of_nat (size (by_hash m));
  po_max : (size (by_hash m) <= max_size (mp_config m))%nat;
}.

(** The limit of the configuration is a [usize]. *)
Definition config_ok (c : MempoolConfig) : Prop := Z.of_nat (max_size c) < 2 ^ 64.

Lemma new_ok c : pool_ok (mempool_new c).
Proof.
  split; simpl; try (intros *; rewrite ?lookup_empty; done).
  - intros g h h'. rewrite lookup_empty. split; [done|]. by intros (_ & p & ? & _).
  - apply Nat.le_0_l.
Qed.

(** What is left in the sender index after a transaction is dropped. *)
Definition sender_index_drops (h : Hash) (bs bs' : gmap Address (gmap Z Hash)) : Prop :=
  forall s nm', bs' !! s = Some nm' -> exists nm, bs !! s = Some nm /\ nm' ⊆ nm /\ forall n, nm' !! n <> Some h.

(** Dropping a transaction from the three indices. *)
Lemma drop_ok m h p bs' :
  pool_ok m -> config_ok (mp_config m) -> by_hash m !! h = Some p -> sender_index_drops h (by_sender m) bs' ->
  pool_ok (mkMempool (mp_config m) (delete h (by_hash m)) bs' (delete (tx_gas_price (p_tx p), h) (by_price m))
    (u64_sub (mp_size m) 1)).
Proof.
  intros [H1 H2 H3 H4 H5 H6] Hc Hp Hbs. unfold config_ok in Hc.
  assert (Hsz : size (by_hash m) = S (size (delete h (by_hash m)))).
  { rewrite <- (insert_delete_id _ _ _ Hp) at 1. apply map_size_insert_None, lookup_delete_eq. }
  split; simpl.
  - intros h' p' [_ Hp']%lookup_delete_Some. by apply H1.
  - intros g h1 h2. rewrite lookup_delete_Some, H2. split.
    + intros (Hne & -> & q & Hq & Hg). split; [done|]. exists q. split; [|done]. apply lookup_delete_Some.
      split; [|done]. intros ->. apply Hne. rewrite Hp in Hq. congruence.
    + intros (-> & q & [Hne Hq]%lookup_delete_Some & Hg). split; [congruence|]. split; [done|]. by exists q.
  - intros s nm' n h' Hs Hn. destruct (Hbs s nm' Hs) as (nm & Hnm & Hsub & Hno).
    destruct (H3 s nm n h' Hnm) as (q & Hq & ? & ?); [by eapply lookup_weaken|]. exists q.
    rewrite lookup_delete_ne; [done|]. intros ->. by apply (Hno n).
  - intros s nm' Hs. destruct (Hbs s nm' Hs) as (nm & Hnm & Hsub & _).
    apply map_subseteq_size in Hsub. specialize (H4 s nm Hnm). lia.
  - unfold u64_sub. rewrite H5, wrap_small; [lia|]. unfold in_u. lia.
  - lia.
Qed.

Lemma remove_ok h m : pool_ok m -> config_ok (mp_config m) -> pool_ok (snd (remove h m)).
Proof.
  intros Hok Hc. unfold remove. destruct (by_hash m !! h) as [p|] eqn:Hp; [|done]. simpl.
  apply drop_ok; [done..|]. intros s nm' Hs. apply lookup_alter_Some in Hs as [(<- & nm & Hnm & ->)|[Hne Hnm]].
  - exists nm. split; [done|]. split; [apply delete_subseteq|]. intros n [Hn Hh]%lookup_delete_Some.
    destruct (po_sender m Hok _ _ _ _ Hnm Hh) as (q & Hq & _ & Hnq). rewrite Hp in Hq. congruence.
  - exists nm'. split; [done|]. split; [done|]. intros n Hh.
    destruct (po_sender m Hok _ _ _ _ Hnm Hh) as (q & Hq & Hsq & _). rewrite Hp in Hq. congruence.
Qed.

Lemma remove_config h m : mp_config (snd (remove h m)) = mp_config m.
Proof. unfold remove. by destruct (_ !! _). Qed.

Lemma remove_many_ok hs m :
  pool_ok m -> config_ok (mp_config m) -> pool_ok (remove_many hs m) /\ mp_config (remove_many hs m) = mp_config m.
Proof.
  unfold remove_many. revert m. induction hs as [|h hs IH]; intros m Hok Hc; simpl; [done|].
  rewrite <- (remove_config h m). apply IH; [by apply remove_ok|by rewrite remove_config].
Qed.

(** The pool with a changed nonce map of one sender. *)
Definition with_nonces (s : Address) (nm : gmap Z Hash) (m : Mempool) : Mempool :=
  mkMempool (mp_config m) (by_hash m) (<[s := nm]> (by_sender m)) (by_price m) (mp_size m).

Lemma confirm_one_ok s nm m n :
  pool_ok (with_nonces s nm m) -> config_ok (mp_config m) ->
  let '(nm', m') := confirm_one (nm, m) n in pool_ok (with_nonces s nm' m') /\ mp_config m' = mp_config m.
Proof.
  intros Hok Hc. unfold confirm_one. destruct (nm !! n) as [h|] eqn:Hn; [|done].
  destruct (po_sender _ Hok s nm n h) as (p & Hp & Hs & Hnp); [apply lookup_insert_eq|done|]. simpl in Hp.
  rewrite Hp. split; [|done]. apply (drop_ok (with_nonces s nm m) h p (<[s := delete n nm]> (by_sender m))); [done..|].
  intros s' nm' Hs'. destruct (decide (s' = s)) as [->|Hne].
  - rewrite lookup_insert_eq in Hs'. injection Hs' as <-. exists nm. simpl. rewrite lookup_insert_eq.
    split; [done|]. split; [apply delete_subseteq|]. intros n' [Hne Hh]%lookup_delete_Some.
    destruct (po_sender _ Hok s nm n' h) as (q & Hq & _ & Hnq); [apply lookup_insert_eq|done|].
    simpl in Hq. congruence.
  - rewrite lookup_insert_ne in Hs' by done. exists nm'. simpl. rewrite lookup_insert_ne by done.
    split; [done|]. split; [done|]. intros n' Hh.
    destruct (po_sender _ Hok s' nm' n' h) as (q & Hq & Hsq & _); [by apply lookup_insert_Some; auto|done|].
    simpl in Hq. congruence.
Qed.

Lemma confirm_all_ok s ns nm m :
  pool_ok (with_nonces s nm m) -> config_ok (mp_config m) ->
  let '(nm', m') := foldl confirm_one (nm, m) ns in pool_ok (with_nonces s nm' m') /\ mp_config m' = mp_config m.
Proof.
  revert nm m. induction ns as [|n ns IH]; intros nm m Hok Hc; [done|]. cbn [foldl].
  pose proof (confirm_one_ok s nm m n Hok Hc) as H. destruct (confirm_one (nm, m) n) as [nm' m'].
  destruct H as [Hok' Hcfg]. rewrite <- Hcfg in *. by apply IH.
Qed.

Lemma remove_confirmed_ok s n m :
  pool_ok m -> config_ok (mp_config m) ->
  pool_ok (remove_confirmed s n m) /\ mp_config (remove_confirmed s n m) = mp_config m.
Proof.
  intros Hok Hc. unfold remove_confirmed. destruct (by_sender m !! s) as [nm|] eqn:Hs; [|done].
  set (ns := filter _ _). pose proof (confirm_all_ok s ns nm m) as H.
  destruct (foldl confirm_one (nm, m) ns) as [nm' m']. apply H; [|done].
  unfold with_nonces. rewrite insert_id by done. by destruct m.
Qed.

(** Eviction succeeds on a nonempty pool and makes room. *)
Lemma evict_one_spec m :
  pool_ok m -> config_ok (mp_config m) ->
  let '(evicted, m') := evict_one m in
  pool_ok m' /\ mp_config m' = mp_config m /\
  (evicted = true -> S (size (by_hash m')) = size (by_hash m)) /\
  (evicted = false -> by_hash m = ∅).
Proof.
  intros Hok Hc. unfold evict_one. destruct (btree_entries price_le (by_price m)) as [|[[g h] h'] l] eqn:E.
  - apply btree_entries_nil in E. split; [done|]. split; [done|]. split; [done|]. intros _.
    apply map_empty. intros h. destruct (by_hash m !! h) as [p|] eqn:Hp; [|done].
    assert (by_price m !! (tx_gas_price (p_tx p), h) = Some h) as Hb by (apply po_price; eauto).
    by rewrite E in Hb.
  - assert (by_price m !! (g, h) = Some h') as Hb.
    { apply (btree_entries_elem price_le). rewrite E. left. }
    apply po_price in Hb as (-> & p & Hp & _); [|done].
    split; [by apply remove_ok|]. split; [apply remove_config|]. split; [|done]. intros _.
    unfold remove. rewrite Hp. simpl. rewrite <- (insert_delete_id _ _ _ Hp) at 2.
    symmetry. apply map_size_insert_None, lookup_delete_eq.
Qed.

Lemma make_room_spec m :
  pool_ok m -> config_ok (mp_config m) ->
  let '(r, m') := make_room m in
  pool_ok m' /\ mp_config m' = mp_config m /\ by_hash m' ⊆ by_hash m /\
  (r = Ok tt -> (size (by_hash m') < max_size (mp_config m))%nat) /\
  (r <> Ok tt -> r = Err PoolFull /\ max_size (mp_config m) = O /\ m' = m).
Proof.
  intros Hok Hc. pose proof (po_size m Hok) as Hs. pose proof (po_max m Hok) as Hm. unfold make_room.
  destruct (_ <=? _) eqn:E.
  2: { split_and!; try done. intros _. lia. }
  pose proof (evict_one_spec m Hok Hc) as H. destruct (evict_one m) as [evicted m'] eqn:Ee.
  destruct H as (Hok' & Hcfg & Ht & Hf). split; [done|]. split; [done|]. split; [|split].
  - unfold evict_one in Ee. destruct (btree_entries _ _) as [|[[g h] h'] l]; simplify_eq; [done|].
    unfold remove. destruct (by_hash m !! h); [apply delete_subseteq|done].
  - destruct evicted; [|done]. intros _. specialize (Ht eq_refl). lia.
  - destruct evicted; [done|]. intros _. specialize (Hf eq_refl). rewrite Hf in *. rewrite map_size_empty in *.
    split; [done|]. split; [lia|]. unfold evict_one in Ee.
    destruct (btree_entries _ _) as [|[[g h] h'] l]; by simplify_eq.
Qed.

(** Adding to the three indices. *)
Lemma insert_pooled_ok now tx sender m :
  pool_ok m -> config_ok (mp_config m) -> by_hash m !! mempool_hash tx = None ->
  min_gas_price (mp_config m) <= tx_gas_price tx -> (sender_count sender m < max_per_account (mp_config m))%nat ->
  (size (by_hash m) < max_size (mp_config m))%nat ->
  pool_ok (insert_pooled now tx (mempool_hash tx) sender m).
Proof.
  intros [H1 H2 H3 H4 H5 H6] Hc Hnone Hp Hcount Hroom. unfold config_ok in Hc. set (h := mempool_hash tx) in *.
  split; simpl.
  - intros h' p [[<- <-]|[_ Hl]]%lookup_insert_Some; [done|by apply H1].
  - intros g h1 h2. rewrite lookup_insert_Some. split.
    + intros [[[= <- <-] <-]|[Hne Hl]].
      * split; [done|]. eexists. by rewrite lookup_insert_eq.
      * apply H2 in Hl as (-> & p & Hl & Hg). split; [done|]. exists p. split; [|done].
        rewrite lookup_insert_ne; [done|]. intros <-. congruence.
    + intros (-> & p & [[<- <-]|[Hne Hl]]%lookup_insert_Some & Hg); [left; simpl in Hg; by rewrite Hg|].
      right. split; [congruence|]. apply H2. eauto.
  - intros s nm n h' [[<- <-]|[Hne Hs]]%lookup_insert_Some Hn.
    + apply lookup_insert_Some in Hn as [[<- <-]|[Hne Hn]]; [eexists; by rewrite lookup_insert_eq|].
      destruct (by_sender m !! sender) as [nm|] eqn:Hs; simpl in Hn; [|by rewrite lookup_empty in Hn].
      destruct (H3 _ _ _ _ Hs Hn) as (p & Hl & ? & ?). exists p. rewrite lookup_insert_ne; [done|congruence].
    + destruct (H3 _ _ _ _ Hs Hn) as (p & Hl & ? & ?). exists p. rewrite lookup_insert_ne; [done|congruence].
  - intros s nm [[<- <-]|[Hne Hs]]%lookup_insert_Some; [|by apply (H4 s)].
    unfold sender_count in Hcount. destruct (by_sender m !! sender) as [nm|]; simpl.
    + rewrite map_size_insert. destruct (nm !! tx_nonce tx); simpl; lia.
    + rewrite map_size_insert_None, map_size_empty by apply lookup_empty. lia.
  - rewrite map_size_insert_None by done. unfold u64_add. rewrite H5, wrap_small; [lia|]. unfold in_u. lia.
  - rewrite map_size_insert_None by done. lia.
Qed.

Lemma check_nonce_inv lookup sender tx m :
  check_nonce lookup sender tx m = (Ok tt, m) \/ exists e, check_nonce lookup sender tx m = (Err e, m).
Proof. unfold check_nonce, ret, fail. repeat case_match; eauto. Qed.

Lemma add_ok now tx sender lookup m :
  pool_ok m -> config_ok (mp_config m) ->
  let m' := snd (add_with_nonce_check now tx sender lookup m) in pool_ok m' /\ mp_config m' = mp_config m.
Proof.
  intros Hok Hc. unfold add_with_nonce_check. rewrite bind_gets. unfold mempool_contains.
  case_bool_decide as Hk; [done|]. rewrite bind_gets. destruct (_ <? _) eqn:Hp; [done|].
  destruct (check_nonce_inv lookup sender tx m) as [Hn|[e Hn]].
  2: { by rewrite (bind_err _ _ _ _ _ Hn). }
  rewrite (bind_ok _ _ _ _ _ Hn). pose proof (make_room_spec m Hok Hc) as H.
  destruct (make_room m) as [r m'] eqn:Hr. destruct H as (Hok' & Hcfg & Hsub & Hroom & Hfull).
  assert (r = Ok tt \/ r <> Ok tt) as [->|Hne] by (destruct r as [[]| | |]; auto).
  2: { destruct (Hfull Hne) as (-> & _). by rewrite (bind_err _ _ _ _ _ Hr). }
  rewrite (bind_ok _ _ _ _ _ Hr), bind_gets. case_bool_decide; [done|]. rewrite bind_modify. simpl. split; [|done].
  apply insert_pooled_ok; rewrite ?Hcfg; try done; try lia; [|by apply Hroom].
  apply eq_None_not_Some. intros [p Hl]. apply Hk. exists p. by eapply lookup_weaken.
Qed.

(** ** Every sequence of operations *)

Inductive PoolOp :=
| OpAdd (now : Z) (tx : Transaction) (sender : Address) (lookup : option NonceLookup)
| OpRemoveMany (hs : list Hash)
| OpConfirmed (sender : Address) (nonce : Z)
| OpExpired (now : Z)
| OpClear.

Definition pool_step (m : Mempool) (op : PoolOp) : Mempool :=
  match op with
  | OpAdd now tx sender lookup => snd (add_with_nonce_check now tx sender lookup m)
  | OpRemoveMany hs => remove_many hs m
  | OpConfirmed sender nonce => remove_confirmed sender nonce m
  | OpExpired now => snd (remove_expired now m)
  | OpClear => mempool_clear m
  end.
Definition pool_run (c : MempoolConfig) (ops : list PoolOp) : Mempool := foldl pool_step (mempool_new c) ops.

Lemma pool_step_ok m op :
  pool_ok m -> config_ok (mp_config m) -> pool_ok (pool_step m op) /\ mp_config (pool_step m op) = mp_config m.
Proof.
  intros Hok Hc. destruct op; simpl.
  - by apply add_ok.
  - by apply remove_many_ok.
  - by apply remove_confirmed_ok.
  - by apply remove_many_ok.
  - split; [apply (new_ok (mp_config m))|done].
Qed.

Lemma pool_run_ok c ops : config_ok c -> pool_ok (pool_run c ops) /\ mp_config (pool_run c ops) = c.
Proof.
  intros Hc. unfold pool_run. induction ops as [|op ops IH] using rev_ind; [split; [apply new_ok|done]|].
  rewrite foldl_snoc. destruct IH as [Hok Hcfg]. destruct (pool_step_ok _ op Hok) as [H1 H2]; [by rewrite Hcfg|].
  by rewrite H2, Hcfg.
Qed.

(** *** The sender index is complete without replacements *)

(** Every pooled transaction is listed under its sender and nonce. *)
Definition listed (m : Mempool) : Prop :=
  forall h p, by_hash m !! h = Some p ->
    exists nm, by_sender m !! p_sender p = Some nm /\ nm !! tx_nonce (p_tx p) = Some h.

(** No two different transactions of one sender and nonce are offered. *)
Definition no_replacement (ops : list PoolOp) : Prop :=
  forall now tx s lk now' tx' lk', OpAdd now tx s lk ∈ ops -> OpAdd now' tx' s lk' ∈ ops ->
    tx_nonce tx = tx_nonce tx' -> mempool_hash tx = mempool_hash tx'.

(** The pooled transactions were offered. *)
Definition offered (ops : list PoolOp) (m : Mempool) : Prop :=
  forall h p, by_hash m !! h = Some p -> exists now lk, OpAdd now (p_tx p) (p_sender p) lk ∈ ops.

Lemma offered_sub ops m m' : offered ops m -> by_hash m' ⊆ by_hash m -> offered ops m'.
Proof. intros H Hs h p Hp. apply (H h). by eapply lookup_weaken. Qed.

Lemma remove_listed h m : listed m -> listed (snd (remove h m)) /\ by_hash (snd (remove h m)) ⊆ by_hash m.
Proof.
  intros Hl. unfold remove. destruct (by_hash m !! h) as [p|] eqn:Hp; [|done]. simpl.
  split; [|apply delete_subseteq]. intros h' q. cbn [by_hash by_sender]. intros [Hne Hq]%lookup_delete_Some.
  destruct (Hl h' q Hq) as (nm & Hnm & Hn), (Hl h p Hp) as (nm' & Hnm' & Hn').
  destruct (decide (p_sender p = p_sender q)) as [Hs|Hs].
  - rewrite Hs in *. rewrite Hnm in Hnm'. injection Hnm' as <-. eexists.
    rewrite lookup_alter_eq, Hnm. split; [done|]. rewrite lookup_delete_ne; [done|]. congruence.
  - exists nm. by rewrite lookup_alter_ne.
Qed.

Lemma remove_many_listed hs m :
  listed m -> listed (remove_many hs m) /\ by_hash (remove_many hs m) ⊆ by_hash m.
Proof.
  unfold remove_many. revert m. induction hs as [|h hs IH]; intros m Hl; simpl; [done|].
  destruct (remove_listed h m Hl) as [H1 H2]. destruct (IH _ H1) as [H3 H4]. split; [done|by etrans].
Qed.

Lemma confirm_one_listed s nm m n :
  listed (with_nonces s nm m) -> (forall n h, nm !! n = Some h -> exists p, by_hash m !! h = Some p /\ p_sender p = s) ->
  let '(nm', m') := confirm_one (nm, m) n in
  listed (with_nonces s nm' m') /\ by_hash m' ⊆ by_hash m.
Proof.
  intros Hl Hin. unfold confirm_one. destruct (nm !! n) as [h|] eqn:Hn; [|done].
  destruct (Hin n h Hn) as (p & Hp & Hs). rewrite Hp. split; [|apply delete_subseteq].
  intros h' q. cbn [by_hash by_sender with_nonces]. intros [Hne Hq]%lookup_delete_Some.
  destruct (Hl h' q Hq) as (nm' & Hnm' & Hn'). cbn [by_sender with_nonces] in Hnm'. destruct (decide (p_sender q = s)) as [Hqs|Hqs].
  - rewrite Hqs, lookup_insert_eq in Hnm' |- *. injection Hnm' as <-. eexists. split; [done|].
    rewrite lookup_delete_ne; [done|]. intros ->. congruence.
  - rewrite lookup_insert_ne in Hnm' |- * by done. by exists nm'.
Qed.

Lemma confirm_all_listed s ns nm m :
  pool_ok (with_nonces s nm m) -> config_ok (mp_config m) -> listed (with_nonces s nm m) ->
  let '(nm', m') := foldl confirm_one (nm, m) ns in listed (with_nonces s nm' m') /\ by_hash m' ⊆ by_hash m.
Proof.
  revert nm m. induction ns as [|n ns IH]; intros nm m Hok Hc Hl; [done|]. cbn [foldl].
  pose proof (confirm_one_ok s nm m n Hok Hc) as H. pose proof (confirm_one_listed s nm m n Hl) as H2.
  destruct (confirm_one (nm, m) n) as [nm' m']. destruct H as [Hok' Hcfg]. destruct H2 as [Hl' Hsub].
  { intros n' h Hn. destruct (po_sender _ Hok s nm n' h) as (p & Hp & Hs & _); [apply lookup_insert_eq|done|].
    by exists p. }
  specialize (IH nm' m' Hok' ltac:(by rewrite Hcfg) Hl'). destruct (foldl confirm_one (nm', m') ns) as [nm2 m2].
  destruct IH as [H3 H4]. split; [done|by etrans].
Qed.

Lemma remove_confirmed_listed s n m :
  pool_ok m -> config_ok (mp_config m) -> listed m ->
  listed (remove_confirmed s n m) /\ by_hash (remove_confirmed s n m) ⊆ by_hash m.
Proof.
  intros Hok Hc Hl. unfold remove_confirmed. destruct (by_sender m !! s) as [nm|] eqn:Hs; [|done].
  assert (with_nonces s nm m = m) as Em by (unfold with_nonces; rewrite insert_id by done; by destruct m).
  set (ns := filter _ _). pose proof (confirm_all_listed s ns nm m) as H. rewrite Em in H.
  destruct (foldl confirm_one (nm, m) ns) as [nm' m']. by apply H.
Qed.

Lemma add_cases now tx sender lookup m :
  let m' := snd (add_with_nonce_check now tx sender lookup m) in
  exists m1, (m1 = m \/ exists h, m1 = snd (remove h m)) /\
    (m' = m1 \/ by_hash m !! mempool_hash tx = None /\ m' = insert_pooled now tx (mempool_hash tx) sender m1).
Proof.
  unfold add_with_nonce_check. rewrite bind_gets. unfold mempool_contains.
  case_bool_decide as Hk; [exists m; auto|]. rewrite bind_gets. destruct (_ <? _); [exists m; auto|].
  destruct (check_nonce_inv lookup sender tx m) as [Hn|[e Hn]]; [|rewrite (bind_err _ _ _ _ _ Hn); exists m; auto].
  rewrite (bind_ok _ _ _ _ _ Hn).
  assert (exists r m1, make_room m = (r, m1) /\ (m1 = m \/ exists h, m1 = snd (remove h m)) /\ (r = Ok tt \/ r = Err PoolFull))
    as (r & m1 & Hr & Hm1 & Hor).
  { unfold make_room, evict_one. destruct (_ <=? _); [|by eauto 10].
    destruct (btree_entries _ _) as [|[[g h] h'] l]; eauto 10. }
  exists m1. split; [done|]. destruct Hor as [->| ->]; [|rewrite (bind_err _ _ _ _ _ Hr); by left].
  rewrite (bind_ok _ _ _ _ _ Hr), bind_gets. case_bool_decide; [by left|]. rewrite bind_modify. right.
  split; [by apply eq_None_not_Some|done].
Qed.

Lemma insert_listed ops now tx sender lk m :
  pool_ok m -> listed m -> offered ops m -> no_replacement ops -> OpAdd now tx sender lk ∈ ops ->
  by_hash m !! mempool_hash tx = None ->
  listed (insert_pooled now tx (mempool_hash tx) sender m) /\ offered ops (insert_pooled now tx (mempool_hash tx) sender m).
Proof.
  intros Hok Hl Hof Hno Hop Hnone. split; intros h p; simpl.
  2: { intros [[_ <-]|[_ Hp]]%lookup_insert_Some; [by exists now, lk|by apply (Hof h)]. }
  intros [[<- <-]|[Hne Hp]]%lookup_insert_Some; cbn [p_sender p_tx].
  { eexists. rewrite lookup_insert_eq. split; [done|]. apply lookup_insert_eq. }
  destruct (Hl h p Hp) as (nm & Hnm & Hn). destruct (decide (p_sender p = sender)) as [Hs|Hs].
  - rewrite Hs, lookup_insert_eq in *. eexists. split; [done|]. rewrite Hnm. simpl.
    rewrite lookup_insert_ne; [done|]. intros Heq. destruct (Hof h p Hp) as (now' & lk' & Hop'). rewrite Hs in Hop'.
    destruct (po_entry m Hok h p Hp) as (_ & Hh & _). rewrite <- (Hno _ _ _ _ _ _ _ Hop Hop' Heq) in Hh. congruence.
  - exists nm. by rewrite lookup_insert_ne.
Qed.

Lemma pool_step_listed ops m op :
  pool_ok m -> config_ok (mp_config m) -> listed m -> offered ops m -> no_replacement ops -> op ∈ ops ->
  listed (pool_step m op) /\ offered ops (pool_step m op).
Proof.
  intros Hok Hc Hl Hof Hno Hop.
  assert (forall m', listed m' /\ by_hash m' ⊆ by_hash m -> listed m' /\ offered ops m') as Hsub
    by (intros m' [? ?]; split; [done|by eapply offered_sub]).
  destruct op as [now tx sender lk|hs|sender n|now|]; simpl.
  - destruct (add_cases now tx sender lk m) as (m1 & Hm1 & Hadd).
    assert (pool_ok m1 /\ (listed m1 /\ by_hash m1 ⊆ by_hash m)) as [Hok1 Hl1].
    { destruct Hm1 as [->|[h ->]]; [done|]. split; [by apply remove_ok|by apply remove_listed]. }
    destruct Hadd as [->|[Hnone ->]]; [by apply Hsub|]. destruct (Hsub m1 Hl1) as [Hl2 Hof2].
    eapply insert_listed; try done. destruct Hl1 as [_ Hs]. by eapply lookup_weaken_None.
  - by apply Hsub, remove_many_listed.
  - by apply Hsub, remove_confirmed_listed.
  - by apply Hsub, remove_many_listed.
  - split; intros h p; simpl; by rewrite lookup_empty.
Qed.

Lemma pool_run_listed c ops : config_ok c -> no_replacement ops -> listed (pool_run c ops).
Proof.
  intros Hc Hno.
  assert (forall ops', ops' `prefix_of` ops -> listed (pool_run c ops') /\ offered ops (pool_run c ops')) as H;
    [|by apply H].
  intros ops'. induction ops' as [|op ops' IH] using rev_ind; intros Hpre.
  { split; intros h p; simpl; by rewrite lookup_empty. }
  destruct IH as [Hl Hof]; [by eapply prefix_app_l|]. destruct (pool_run_ok c ops' Hc) as [Hok Hcfg].
  unfold pool_run in *. rewrite foldl_snoc. apply pool_step_listed; try done; [by rewrite Hcfg|].
  destruct Hpre as [k ->]. set_solver.
Qed.

(** The pooled transactions of a sender. *)
Definition pooled_of (s : Address) (m : Mempool) : gmap Hash PooledTransaction :=
  filter (fun e => p_sender (snd e) = s) (by_hash m).

Lemma listed_limit m s : pool_ok m -> listed m -> (size (pooled_of s m) <= max_per_account (mp_config m))%nat.
Proof.
  intros Hok Hl. destruct (by_sender m !! s) as [nm|] eqn:Hs.
  - transitivity (size nm); [|by eapply po_account]. unfold pooled_of.
    rewrite <- !length_map_to_list, <- (length_fmap fst), <- (length_fmap snd (map_to_list nm)). apply submseteq_length.
    apply NoDup_submseteq; [apply NoDup_fst_map_to_list|].
    intros h ([h' p] & -> & Hp)%list_elem_of_fmap. apply elem_of_map_to_list, map_lookup_filter_Some in Hp as [Hp Hps].
    simpl in Hps. destruct (Hl h' p Hp) as (nm' & Hnm & Hn). rewrite Hps, Hs in Hnm. injection Hnm as <-.
    apply list_elem_of_fmap. exists (tx_nonce (p_tx p), h'). by rewrite elem_of_map_to_list.
  - replace (pooled_of s m) with (∅ : gmap Hash PooledTransaction); [apply Nat.le_0_l|]. symmetry.
    apply map_empty. intros h. apply eq_None_not_Some. intros [p [Hp Hps]%map_lookup_filter_Some].
    simpl in Hps. destruct (Hl h p Hp) as (nm' & Hnm & _). congruence.
Qed.

(** C37 (invariant): after every sequence of additions (with their evictions),
    removals, confirmations, expiries and clearings of a new pool, each entry is
    under the hash of its transaction and pays at least the minimum price, the
    price index lists exactly the pooled transactions, every entry of the sender
    index is a pooled transaction of that sender and nonce, the nonce map of a
    sender and the pool are within their limits, and the counter is the number
    of transactions. If no two different transactions of one sender and nonce
    were offered, then also every pooled transaction is in the sender index and
    no sender has more pooled transactions than the limit per account; without
    that condition neither holds ([pool_shadows]). *)
Theorem pool_indices_sound c ops :
  config_ok c ->
  pool_ok (pool_run c ops) /\
  (no_replacement ops ->
    listed (pool_run c ops) /\ forall s, (size (pooled_of s (pool_run c ops)) <= max_per_account c)%nat).
Proof.
  intros Hc. destruct (pool_run_ok c ops Hc) as [Hok Hcfg]. split; [done|]. intros Hno.
  pose proof (pool_run_listed c ops Hc Hno) as Hl. split; [done|]. intros s.
  pose proof (listed_limit _ s Hok Hl) as Hlim. by rewrite Hcfg in Hlim.
Qed.

(** ** Selection *)

(** The pooled transactions by falling price. *)
Definition price_order (m : Mempool) : list PooledTransaction := omap (fun h => by_hash m !! h) (by_falling_price m).

Definition of_sender (s : Address) (ps : list PooledTransaction) : list PooledTransaction :=
  filter (fun p => p_sender p = s) ps.
Definition nonces (ps : list PooledTransaction) : list Z := map (fun p => tx_nonce (p_tx p)) ps.
Definition total_gas (ps : list PooledTransaction) : Z := foldr (fun p n => tx_gas_limit (p_tx p) + n) 0 ps.
Definition on_chain (lookup : NonceLookup) (s : Address) : Z := match lookup s with inl n => n | inr _ => 0 end.

Lemma total_gas_app ps qs : total_gas (ps ++ qs) = total_gas ps + total_gas qs.
Proof. induction ps as [|p ps IH]; simpl; [done|]. rewrite IH. lia. Qed.

Section selection.
Context (now max_gas : Z) (max_count : nat) (lookup : option NonceLookup) (m : Mempool).
Hypothesis (Hgas : forall h p, by_hash m !! h = Some p -> 0 <= tx_gas_limit (p_tx p) /\ max_gas + tx_gas_limit (p_tx p) < 2 ^ 64).
Hypothesis (Hmax : 0 <= max_gas).
Hypothesis (Hnonce : forall lk s, lookup = Some lk -> 0 <= on_chain lk s /\ on_chain lk s + Z.of_nat max_count < 2 ^ 64).

(** What the loop has selected so far. *)
Record sel_ok (ps : list PooledTransaction) (s : Selection) : Prop := {
  so_txs : selected s = map p_tx ps;
  so_gas : sel_gas_used s = total_gas ps;
  so_range : 0 <= total_gas ps <= max_gas;
  so_count : (length ps <= max_count)%nat;
  so_fresh : Forall (fun p => is_expired now (tx_lifetime (mp_config m)) p = false) ps;
  so_nonces lk a : lookup = Some lk ->
    nonces (of_sender a ps) = seqZ (on_chain lk a) (Z.of_nat (length (of_sender a ps))) /\
    expected_nonce lk a (sel_next_nonce s) = on_chain lk a + Z.of_nat (length (of_sender a ps));
}.

Lemma expected_insert lk a b n next :
  expected_nonce lk a (<[b := n]> next) = if decide (a = b) then n else expected_nonce lk a next.
Proof.
  unfold expected_nonce. destruct (decide (a = b)) as [->|]; [by rewrite lookup_insert_eq|].
  by rewrite lookup_insert_ne.
Qed.

(** A transaction is skipped or appended. *)
Lemma consider_ok ps s h p :
  sel_ok ps s -> (length ps < max_count)%nat -> by_hash m !! h = Some p ->
  let s' := consider now (mp_config m) max_gas lookup s p in sel_ok ps s' \/ sel_ok (ps ++ [p]) s'.
Proof.
  intros [H1 H2 H3 H4 H5 H6] Hlt Hp. destruct (Hgas h p Hp) as [Hg Hg']. unfold consider.
  assert (Hadd : u64_add (sel_gas_used s) (tx_gas_limit (p_tx p)) = total_gas (ps ++ [p])).
  { unfold u64_add. rewrite H2, total_gas_app, wrap_small; simpl; [lia|]. unfold in_u. lia. }
  rewrite Hadd. destruct (max_gas <? _) eqn:Eg; [by left|].
  destruct (is_expired _ _ p) eqn:Ee; [by left|].
  assert (Hpush : forall next,
    (forall lk a, lookup = Some lk ->
      nonces (of_sender a (ps ++ [p])) = seqZ (on_chain lk a) (Z.of_nat (length (of_sender a (ps ++ [p])))) /\
      expected_nonce lk a next = on_chain lk a + Z.of_nat (length (of_sender a (ps ++ [p])))) ->
    sel_ok (ps ++ [p]) (mkSelection (selected s ++ [p_tx p]) (total_gas (ps ++ [p])) next)).
  { intros next Hn. split; simpl; try done.
    - by rewrite H1, map_app.
    - rewrite total_gas_app in *. simpl in *. lia.
    - rewrite length_app. simpl. lia.
    - apply Forall_app. split; [done|]. by constructor. }
  destruct lookup as [lk|] eqn:El; [|right; by apply Hpush].
  destruct (H6 lk (p_sender p) eq_refl) as [Hseq Hexp]. destruct (negb _) eqn:En.
  - left. split; simpl; try done. intros lk' a Hlk. assert (lk' = lk) as -> by congruence.
    destruct (H6 lk a eq_refl) as [Ha Hb]. split; [done|].
    rewrite expected_insert. case_decide; [by subst|done].
  - right. apply Hpush. intros lk' a Hlk. assert (lk' = lk) as -> by congruence. apply negb_false_iff, Z.eqb_eq in En. rewrite expected_insert.
    unfold of_sender, nonces. rewrite filter_app, map_app, length_app.
    fold (of_sender a ps) (nonces (of_sender a ps)). destruct (H6 lk a eq_refl) as [Ha Hb].
    rewrite filter_cons, filter_nil. destruct (decide (p_sender p = a)) as [<-|Hne].
    + simpl length. rewrite Nat2Z.inj_add, seqZ_app, Ha by lia.
      split; [f_equal; simpl; by rewrite En, Hexp|].
      rewrite decide_True by done. rewrite Hexp. unfold u64_add.
      destruct (Hnonce lk (p_sender p) eq_refl) as [Hn0 Hn1].
      assert (length (of_sender (p_sender p) ps) <= length ps)%nat by apply length_filter.
      rewrite wrap_small; [lia|]. unfold in_u. lia.
    + simpl. rewrite decide_False by congruence. by rewrite !app_nil_r, !Nat.add_0_r.
Qed.

Lemma select_loop_ok hs ps s :
  sel_ok ps s -> exists qs, qs `sublist_of` omap (fun h => by_hash m !! h) hs /\
    sel_ok (ps ++ qs) (select_loop now m max_gas max_count lookup hs s).
Proof.
  revert ps s. induction hs as [|h hs IH]; intros ps s Hs; simpl.
  { exists []. rewrite app_nil_r. by split; [constructor|]. }
  case_bool_decide as Hc.
  { exists []. rewrite app_nil_r. split; [apply sublist_nil_l|done]. }
  rewrite (so_txs _ _ Hs), length_map in Hc. destruct (by_hash m !! h) as [p|] eqn:Hp; simpl; [|by apply IH].
  destruct (consider_ok ps s h p Hs) as [H|H]; [lia|done|..]; destruct (IH _ _ H) as (qs & Hq & Hok).
  - exists qs. split; [by apply sublist_cons|done].
  - exists (p :: qs). split; [by apply sublist_skip|]. by rewrite <- (assoc_L app) in Hok.
Qed.
End selection.

(** Lists through [omap] and [rev]. *)
Lemma elem_of_rev {A} (x : A) l : x ∈ rev l <-> x ∈ l.
Proof. by rewrite <- (Permutation_rev l). Qed.

Lemma omap_sorted {A C} (R : A -> A -> Prop) (Q : C -> C -> Prop) (f : A -> option C) l :
  StronglySorted R l ->
  (forall x y a b, x ∈ l -> y ∈ l -> R x y -> f x = Some a -> f y = Some b -> Q a b) -> StronglySorted Q (omap f l).
Proof.
  induction 1 as [|x l Hs IH Hf]; intros Hq; simpl; [constructor|].
  assert (Hl : StronglySorted Q (omap f l)).
  { apply IH. intros a b ? ? Ha Hb. apply (Hq a b); by right. }
  destruct (f x) as [a|] eqn:Hx; [|done]. constructor; [done|]. apply Forall_forall.
  intros b (y & Hy & Hb)%list_elem_of_omap. rewrite Forall_forall in Hf.
  apply (Hq x y); [left|by right|by apply Hf|done|done].
Qed.

Lemma omap_nodup {A C} (f : A -> option C) l :
  NoDup l -> (forall x y a, x ∈ l -> y ∈ l -> f x = Some a -> f y = Some a -> x = y) -> NoDup (omap f l).
Proof.
  induction 1 as [|x l Hx Hl IH]; intros Hf; simpl; [constructor|].
  assert (Hn : NoDup (omap f l)).
  { apply IH. intros y z a Hy Hz. apply Hf; by right. }
  destruct (f x) as [a|] eqn:Ha; [|done]. constructor; [|done].
  intros (y & Hy & Hb)%list_elem_of_omap. apply Hx. rewrite (Hf x y a); [done|left|by right|done|done].
Qed.

Lemma rev_sorted {A} (R : A -> A -> Prop) l : StronglySorted R l -> StronglySorted (flip R) (rev l).
Proof.
  induction 1 as [|x l Hs IH Hf]; simpl; [constructor|]. apply StronglySorted_app_2; [|done|by repeat constructor].
  intros y z Hy Hz. apply list_elem_of_singleton in Hz as ->. rewrite Forall_forall in Hf. apply Hf.
  by rewrite <- elem_of_rev.
Qed.

Lemma sublist_sorted {A} (R : A -> A -> Prop) l k : l `sublist_of` k -> StronglySorted R k -> StronglySorted R l.
Proof.
  induction 1 as [|x l k Hs IH|x l k Hs IH]; intros Hk; [constructor|..]; inversion Hk; subst; auto.
  constructor; [auto|]. rewrite Forall_forall in *. intros y Hy. eauto using elem_of_sublist.
Qed.

Definition entry_of (m : Mempool) (kv : (Z * Hash) * Hash) : option PooledTransaction := by_hash m !! snd (fst kv).

Lemma price_order_entries m : price_order m = omap (entry_of m) (rev (btree_entries price_le (by_price m))).
Proof.
  unfold price_order, by_falling_price. induction (rev _) as [|kv l IH]; [done|]. cbn.
  unfold entry_of at 1. by destruct (by_hash m !! _); [f_equal|].
Qed.

Lemma entry_of_spec m kv p :
  pool_ok m -> kv ∈ rev (btree_entries price_le (by_price m)) -> entry_of m kv = Some p ->
  kv = ((tx_gas_price (p_tx p), p_hash p), p_hash p).
Proof.
  intros Hok Hin Hp. destruct kv as [[g h] h']. rewrite elem_of_rev in Hin. apply btree_entries_elem, (po_price m Hok) in Hin.
  destruct Hin as (-> & q & Hq & <-). unfold entry_of in Hp. simpl in Hp. rewrite Hp in Hq. simplify_eq.
  by destruct (po_entry m Hok _ _ Hp) as (-> & _).
Qed.

(** The price order lists every pooled transaction once, by falling price. *)
Lemma price_order_spec m :
  pool_ok m ->
  NoDup (price_order m) /\ (forall p, p ∈ price_order m <-> by_hash m !! p_hash p = Some p) /\
  StronglySorted (fun p q => tx_gas_price (p_tx q) <= tx_gas_price (p_tx p)) (price_order m).
Proof.
  intros Hok. rewrite price_order_entries. split; [|split].
  - apply omap_nodup; [rewrite <- Permutation_rev; apply btree_entries_nodup|].
    intros x y p Hx Hy Hpx Hpy. by rewrite (entry_of_spec _ _ _ Hok Hx Hpx), (entry_of_spec _ _ _ Hok Hy Hpy).
  - intros p. rewrite list_elem_of_omap. split.
    + intros (kv & Hin & Hp). pose proof (entry_of_spec _ _ _ Hok Hin Hp) as ->. done.
    + intros Hp. exists ((tx_gas_price (p_tx p), p_hash p), p_hash p). split; [|done].
      rewrite elem_of_rev, btree_entries_elem. apply (po_price m Hok). eauto.
  - eapply omap_sorted; [apply rev_sorted, btree_entries_sorted; apply _|].
    intros x y p q Hx Hy Hle Hp Hq. rewrite (entry_of_spec _ _ _ Hok Hx Hp), (entry_of_spec _ _ _ Hok Hy Hq) in Hle.
    unfold flip, entries_le, price_le in Hle. simpl in Hle. lia.
Qed.

(** Selection returns pooled unexpired transactions, each
    once and by falling gas price, whose gas limits sum to at most the block's
    gas and whose number is at most the given count; against a nonce lookup the
    nonces of every sender are consecutive from its nonce on chain. The gas of
    the pooled transactions and the nonces are far from the 64-bit limit. *)
Theorem select_spec c ops now max_gas max_count lookup :
  let m := pool_run c ops in
  config_ok c -> 0 <= max_gas ->
  (forall h p, by_hash m !! h = Some p -> 0 <= tx_gas_limit (p_tx p) /\ max_gas + tx_gas_limit (p_tx p) < 2 ^ 64) ->
  (forall lk s, lookup = Some lk -> 0 <= on_chain lk s /\ on_chain lk s + Z.of_nat max_count < 2 ^ 64) ->
  exists ps, select_with_nonce now max_gas max_count lookup m = map p_tx ps /\
    NoDup ps /\ Forall (fun p => by_hash m !! p_hash p = Some p /\ is_expired now (tx_lifetime c) p = false) ps /\
    StronglySorted (fun p q => tx_gas_price (p_tx q) <= tx_gas_price (p_tx p)) ps /\
    total_gas ps <= max_gas /\ (length ps <= max_count)%nat /\
    (forall lk s, lookup = Some lk ->
      nonces (of_sender s ps) = seqZ (on_chain lk s) (Z.of_nat (length (of_sender s ps)))).
Proof.
  intros m Hc Hmax Hgas Hnonce. destruct (pool_run_ok c ops Hc) as [Hok Hcfg]. fold m in Hok, Hcfg.
  destruct (select_loop_ok now max_gas max_count lookup m Hgas Hnonce (by_falling_price m) [] (mkSelection [] 0 ∅))
    as (ps & Hsub & Hsel).
  { split; simpl; try done; try lia. intros lk a _. split; [done|]. unfold expected_nonce. rewrite lookup_empty.
    unfold on_chain. case_match; lia. }
  simpl in Hsel. destruct Hsel as [H1 _ H3 H4 H5 H6]. destruct (price_order_spec m Hok) as (Hnd & Hin & Hs).
  fold (price_order m) in Hsub. exists ps. rewrite Hcfg in H5. split; [done|]. split_and!.
  - by eapply sublist_NoDup.
  - rewrite Forall_forall in *. intros p Hp. split; [|by apply H5]. apply Hin. by eapply elem_of_sublist.
  - by eapply sublist_sorted.
  - lia.
  - done.
  - intros lk s Hlk. by apply (H6 lk s).
Qed.

(** ** Two transactions with one sender and nonce *)

(** A confirmation removes only what the nonce map names. *)
Lemma confirm_all_keeps h ns nm m :
  (forall n, nm !! n <> Some h) -> by_hash (snd (foldl confirm_one (nm, m) ns)) !! h = by_hash m !! h.
Proof.
  revert nm m. induction ns as [|n ns IH]; intros nm m Hno; [done|]. cbn [foldl confirm_one].
  destruct (nm !! n) as [h'|] eqn:Hn; [|by apply IH]. rewrite IH.
  - destruct (by_hash m !! h'); [|done]. simpl. apply lookup_delete_ne. intros ->. by apply (Hno n).
  - intros n' [_ Hl]%lookup_delete_Some. by apply (Hno n').
Qed.

Lemma remove_confirmed_keeps s k m h :
  (forall nm n, by_sender m !! s = Some nm -> nm !! n <> Some h) ->
  by_hash (remove_confirmed s k m) !! h = by_hash m !! h.
Proof.
  intros Hno. unfold remove_confirmed. destruct (by_sender m !! s) as [nm|] eqn:Hs; [|done].
  set (ns := filter _ _). pose proof (confirm_all_keeps h ns nm m) as H.
  destruct (foldl confirm_one (nm, m) ns) as [nm' m']. apply H. intros n. by apply Hno.
Qed.

Lemma get_by_sender_elem m s p :
  pool_ok m -> p ∈ get_by_sender s m ->
  exists nm, by_sender m !! s = Some nm /\ nm !! tx_nonce (p_tx p) = Some (p_hash p).
Proof.
  intros Hok Hin. unfold get_by_sender in Hin. destruct (by_sender m !! s) as [nm|] eqn:Hs; [|by apply not_elem_of_nil in Hin].
  apply list_elem_of_omap in Hin as ([n h] & Hin & Hp). apply btree_entries_elem in Hin. simpl in Hp. exists nm.
  split; [done|]. destruct (po_sender m Hok _ _ _ _ Hs Hin) as (q & Hq & _ & Hn).
  destruct (po_entry m Hok _ _ Hp) as (Hh & _). congruence.
Qed.

(** With room in the pool an addition is an insertion. *)
Lemma add_with_room now tx s lookup m h m' :
  pool_ok m -> (size (by_hash m) < max_size (mp_config m))%nat ->
  add_with_nonce_check now tx s lookup m = (Ok h, m') ->
  h = mempool_hash tx /\ m' = insert_pooled now tx h s m.
Proof.
  intros Hok Hroom. unfold add_with_nonce_check. rewrite bind_gets. destruct (mempool_contains _ m); [done|].
  rewrite bind_gets. destruct (_ <? _); [done|].
  destruct (check_nonce_inv lookup s tx m) as [Hn|[e Hn]]; [|by rewrite (bind_err _ _ _ _ _ Hn)].
  assert (Hr : make_room m = (Ok tt, m)).
  { unfold make_room. rewrite (po_size m Hok). by replace (_ <=? _) with false by lia. }
  rewrite (bind_ok _ _ _ _ _ Hn), (bind_ok _ _ _ _ _ Hr), bind_gets. case_bool_decide; [done|].
  rewrite bind_modify. by intros [= <- <-].
Qed.

(** A second transaction with the sender and nonce of a pooled
    one does not replace it. The first stays in the pool and in the price
    order but is no longer listed under its sender, no confirmation of the
    sender removes it, and removing it unlists the second, which is still
    pooled. *)
Theorem pool_shadows c ops now tx lookup p h m' :
  let m := pool_run c ops in
  config_ok c -> by_hash m !! p_hash p = Some p -> mempool_hash tx <> p_hash p -> tx_nonce tx = tx_nonce (p_tx p) ->
  (size (by_hash m) < max_size c)%nat -> add_with_nonce_check now tx (p_sender p) lookup m = (Ok h, m') ->
  p ∈ price_order m' /\ p ∉ get_by_sender (p_sender p) m' /\
  (forall k, mempool_get (p_hash p) (remove_confirmed (p_sender p) k m') = Some p) /\
  (let m2 := snd (remove (p_hash p) m') in
   mempool_contains h m2 = true /\ forall q, q ∈ get_by_sender (p_sender p) m2 -> p_hash q <> h).
Proof.
  intros m Hc Hp Hne Hn Hroom Hadd. destruct (pool_run_ok c ops Hc) as [Hok Hcfg]. fold m in Hok, Hcfg.
  assert (Hok' : pool_ok m' /\ mp_config m' = mp_config m).
  { pose proof (add_ok now tx (p_sender p) lookup m Hok) as H. rewrite Hadd in H. apply H. by rewrite Hcfg. }
  destruct (add_with_room now tx (p_sender p) lookup m h m') as [-> ->]; [done|by rewrite Hcfg|done|].
  destruct Hok' as [Hok' Hcfg']. set (m1 := insert_pooled _ _ _ _ _) in *.
  assert (Hp1 : by_hash m1 !! p_hash p = Some p) by (simpl; by rewrite lookup_insert_ne).
  assert (Hno : forall nm n, by_sender m1 !! p_sender p = Some nm -> nm !! n <> Some (p_hash p)).
  { intros nm n Hnm Hl. destruct (po_sender m1 Hok' _ _ _ _ Hnm Hl) as (q & Hq & _ & Hqn).
    rewrite Hp1 in Hq. injection Hq as <-. simpl in Hnm. rewrite lookup_insert_eq in Hnm. injection Hnm as <-.
    rewrite <- Hqn, <- Hn, lookup_insert_eq in Hl. congruence. }
  split; [|split; [|split]].
  - by apply (price_order_spec m1 Hok').
  - intros (nm & Hnm & Hl)%get_by_sender_elem; [|done]. by apply (Hno nm (tx_nonce (p_tx p))).
  - intros k. unfold mempool_get. by rewrite remove_confirmed_keeps.
  - pose proof (remove_ok (p_hash p) m1 Hok' ltac:(by rewrite Hcfg', Hcfg)) as Hok2. intros m2. split.
    + apply bool_decide_eq_true. unfold m2, remove. rewrite Hp1. simpl. rewrite lookup_delete_ne by congruence.
      by rewrite lookup_insert_eq.
    + intros q (nm & Hnm & Hl)%get_by_sender_elem Hq; [|done]. rewrite Hq in Hl.
      destruct (po_sender m2 Hok2 _ _ _ _ Hnm Hl) as (r & Hr & _ & Hrn). unfold m2, remove in Hnm, Hr.
      rewrite Hp1 in Hnm, Hr. simpl in Hnm, Hr. rewrite lookup_delete_ne, lookup_insert_eq in Hr by congruence.
      injection Hr as <-. simpl in Hrn. rewrite lookup_alter_eq, lookup_insert_eq in Hnm. injection Hnm as <-.
      rewrite <- Hrn, Hn, lookup_delete_eq in Hl. done.
Qed.
End pool.

(** ** Examples *)

(** Enough of a transaction to tell those of the examples apart. *)
Definition brief_borsh : Borsh UnsignedTransaction :=
  {| to_vec u := [un_nonce u; un_gas_price u]; from_slice _ := None |}.

Section examples.
#[local] Existing Instances tagged_blake3 brief_borsh.

Definition ex_tx (nonce price gas : Z) : Transaction :=
  mkTransaction Transfer 9000 nonce (Some (replicate 20 34)) 1000 [] gas price [] [].
Definition ex_sender : Address := replicate 20 17.
Definition ex_lookup : NonceLookup := fun _ => inl 4.
Definition ex_config : MempoolConfig := mkMempoolConfig 3 2 10 100.
Definition ex_add (nonce price gas : Z) : PoolOp := OpAdd 0 (ex_tx nonce price gas) ex_sender (Some ex_lookup).

(** Four additions, the last of which evicts the cheapest. *)
Definition ex_ops : list PoolOp :=
  [ex_add 4 20 21000; OpAdd 0 (ex_tx 4 15 21000) (replicate 20 1) None; ex_add 5 18 21000;
   OpAdd 0 (ex_tx 7 50 21000) (replicate 20 2) None].
Definition ex_pool : Mempool := pool_run ex_config ex_ops.

Lemma ex_config_ok : config_ok ex_config.
Proof. apply Z.ltb_lt. vm_compute. reflexivity. Qed.

Lemma ex_no_replacement : no_replacement ex_ops.
Proof.
  intros now tx s lk now' tx' lk' H1%list_elem_of_In H2%list_elem_of_In Hn. simpl in H1, H2. unfold ex_add in *.
  destruct_or!; simplify_eq; done.
Qed.

Lemma pool_indices_sound_witness : mp_size ex_pool = Z.of_nat (size (by_hash ex_pool)) /\ mp_size ex_pool = 3 /\
  (size (pooled_of ex_sender ex_pool) <= 2)%nat.
Proof.
  destruct (pool_indices_sound ex_config ex_ops ex_config_ok) as [Hok Hl].
  split; [exact (po_size _ Hok)|]. split; [vm_compute; reflexivity|].
  exact (proj2 (Hl ex_no_replacement) ex_sender).
Defined.

(** With replacements, the limit of two transactions per account lets three in. *)
Example replacements_pass_limit :
  size (pooled_of ex_sender (pool_run ex_config [ex_add 4 20 21000; ex_add 4 21 21000; ex_add 5 18 21000])) = 3%nat.
Proof. vm_compute. reflexivity. Qed.

Lemma ex_gas_ok h p : by_hash ex_pool !! h = Some p ->
  0 <= tx_gas_limit (p_tx p) /\ 60000 + tx_gas_limit (p_tx p) < 2 ^ 64.
Proof.
  intros Hl. enough (map_Forall (fun _ q => 0 <= tx_gas_limit (p_tx q) /\ 60000 + tx_gas_limit (p_tx q) < 2 ^ 64)
    (by_hash ex_pool)) as H by exact (H h p Hl). by_decide.
Qed.

Lemma select_spec_witness :
  map tx_nonce (select_with_nonce 50 60000 10 (Some ex_lookup) ex_pool) = [4; 5] /\
  exists ps, select_with_nonce 50 60000 10 (Some ex_lookup) ex_pool = map p_tx ps /\ total_gas ps <= 60000.
Proof.
  split; [vm_compute; reflexivity|].
  destruct (select_spec ex_config ex_ops 50 60000 10 (Some ex_lookup)) as (ps & Hs & _ & _ & _ & Hg & _).
  - exact ex_config_ok.
  - lia.
  - exact ex_gas_ok.
  - intros lk s [= <-]. unfold on_chain, ex_lookup. lia.
  - exists ps. split; [exact Hs|exact Hg].
Defined.

(** The nonce-4 transaction of [ex_sender], and a dearer one with its nonce. *)
Definition ex_first : PooledTransaction := mkPooled (ex_tx 4 20 21000) (mempool_hash (ex_tx 4 20 21000)) ex_sender 0.
Definition ex_one : list PoolOp := [ex_add 4 20 21000].
Definition ex_both : Mempool :=
  snd (add_with_nonce_check 1 (ex_tx 4 30 21000) ex_sender None (pool_run ex_config ex_one)).

Lemma pool_shadows_witness :
  mempool_get (p_hash ex_first) (remove_confirmed ex_sender 5 ex_both) = Some ex_first.
Proof.
  apply (pool_shadows ex_config ex_one 1 (ex_tx 4 30 21000) None ex_first (mempool_hash (ex_tx 4 30 21000)) ex_both).
  - exact ex_config_ok.
  - vm_compute. reflexivity.
  - vm_compute. discriminate.
  - reflexivity.
  - apply Nat.ltb_lt. vm_compute. reflexivity.
  - vm_compute. reflexivity.
Defined.

(** Without the bound on the gas the sum wraps: the second transaction asks for
    more gas than any block has and is selected. *)
Example select_gas_wraps :
  map tx_gas_limit (select 0 60000 10 (pool_run ex_config [ex_add 4 20 21000; ex_add 5 18 (2 ^ 64 - 1)])) =
    [21000; 2 ^ 64 - 1].
Proof. vm_compute. reflexivity. Qed.
End examples.
