(* ===== verification/StateDB.v ===== *)
(** * The state database (src/crates/qfc-state/src/state_db.rs)

    Accounts in a Merkle trie under their addresses, contract storage in one
    trie per account under its [storage_root], code by hash in the database,
    and pending undelegations in a column family of their own. In front of
    the tries sit LRU caches. Every method runs in the state monad over
    [StateDB]; the field [db] is the shared database as the handle sees it.
    The hot-account sampling counters, which nothing reads back, are left out. *)

From S2P Require Import Prelude Externals Nibbles Storage Trie Types.

Inductive StateError :=
| AccountNotFound
| StateInsufficientBalance (need have : Z)
| StateInvalidNonce (expected actual : Z)
| StateStorage
| StateTrie (e : TrieError)
| StateSerialization.

Section state_db.
Context `{B : Blake3} `{BN : Borsh TrieNode} `{BA : Borsh Account} `{BL : Borsh LegacyAccount}
  `{BU : Borsh Undelegation}.
Context {C : Type -> Type -> Type} `{LC : LruCache C}.
Context {Database : Type} `{RK : RocksDB Database}.

Definition ACCOUNT_CACHE_SIZE : nat := 100 * 100.
Definition STORAGE_CACHE_SIZE : nat := 50 * 100.
Definition CODE_CACHE_SIZE : nat := 10 * 100.

Record StateDB := mkStateDB {
  db : Database;
  trie : Trie C;
  account_cache : C Address Account;
  storage_cache : C Address (gmap Z Z);
  code_cache : C Hash bytes;
  state_root : Hash;
}.

Definition set_db (x : Database) (s : StateDB) : StateDB :=
  mkStateDB x (trie s) (account_cache s) (storage_cache s) (code_cache s) (state_root s).
Definition set_trie (x : Trie C) (s : StateDB) : StateDB :=
  mkStateDB (db s) x (account_cache s) (storage_cache s) (code_cache s) (state_root s).
Definition set_account_cache (x : C Address Account) (s : StateDB) : StateDB :=
  mkStateDB (db s) (trie s) x (storage_cache s) (code_cache s) (state_root s).
Definition set_storage_cache (x : C Address (gmap Z Z)) (s : StateDB) : StateDB :=
  mkStateDB (db s) (trie s) (account_cache s) x (code_cache s) (state_root s).
Definition set_code_cache (x : C Hash bytes) (s : StateDB) : StateDB :=
  mkStateDB (db s) (trie s) (account_cache s) (storage_cache s) x (state_root s).
Definition set_state_root (x : Hash) (s : StateDB) : StateDB :=
  mkStateDB (db s) (trie s) (account_cache s) (storage_cache s) (code_cache s) x.

(** [StateDB::new] is [StateDB::with_root] at the zero root. *)
Definition state_with_root (d : Database) (root : Hash) : StateDB :=
  mkStateDB d (with_root root) (lru_new ACCOUNT_CACHE_SIZE) (lru_new STORAGE_CACHE_SIZE)
    (lru_new CODE_CACHE_SIZE) root.
Definition state_new (d : Database) : StateDB := state_with_root d Hash_ZERO.

Definition set_root (root : Hash) (s : StateDB) : StateDB :=
  mkStateDB (db s) (with_root root) (lru_clear (account_cache s)) (lru_clear (storage_cache s))
    (code_cache s) root.

Abbreviation SM A := (ST StateDB StateError A).

(** An operation of the account trie, its error converted by [?]. *)
Definition on_trie {A} (m : Database -> ST (Trie C) TrieError A) : SM A := fun s =>
  let (r, t') := m (db s) (trie s) in
  (match r with
   | Ok a => Ok a
   | Err e => Err (StateTrie e)
   | Panic => Panic
   | NoFuel => NoFuel
   end, set_trie t' s).

(** ** Accounts *)

Definition get_account (address : Address) : SM Account := fun s =>
  let (hit, c) := lru_get address (account_cache s) in
  let s := set_account_cache c s in
  match hit with
  | Some account => (Ok account, s)
  | None =>
    bind (on_trie (fun d => get d address)) (fun o =>
      match o with
      | Some data =>
        match account_from_bytes data with
        | None => fail StateSerialization
        | Some account =>
          modify (fun s => set_account_cache (lru_put address account (account_cache s)) s);;
          ret account
        end
      | None => ret Acc.new_eoa
      end) s
  end.

Definition set_account (address : Address) (account : Account) : SM unit :=
  modify (fun s => set_account_cache (lru_put address account (account_cache s)) s);;
  on_trie (fun d => insert d address (account_to_bytes account)).

(** Read, change, write back: the shape of most methods below. *)
Definition update_account (address : Address) (f : Account -> Account) : SM unit :=
  let! account := get_account address in
  set_account address (f account).

Definition exists_ (address : Address) : SM bool :=
  let! account := get_account address in ret (negb (Acc.is_empty account)).

Definition get_balance (address : Address) : SM Z :=
  let! account := get_account address in ret (balance account).
Definition set_balance (address : Address) (b : Z) : SM unit :=
  update_account address (Acc.set_balance b).
Definition add_balance (address : Address) (amount : Z) : SM unit :=
  update_account address (Acc.add_balance amount).

Definition sub_balance (address : Address) (amount : Z) : SM unit :=
  let! account := get_account address in
  let (ok, account') := Acc.sub_balance amount account in
  if ok : bool then set_account address account'
  else fail (StateInsufficientBalance amount (balance account)).

Definition transfer (from to : Address) (amount : Z) : SM unit :=
  if amount =? 0 then ret tt else
  let! from_account := get_account from in
  if balance from_account <? amount
  then fail (StateInsufficientBalance amount (balance from_account))
  else
    sub_balance from amount;;
    add_balance to amount.

Definition get_nonce (address : Address) : SM Z :=
  let! account := get_account address in ret (nonce account).
Definition set_nonce (address : Address) (n : Z) : SM unit :=
  update_account address (Acc.set_nonce n).
Definition increment_nonce (address : Address) : SM Z :=
  let! account := get_account address in
  let account := Acc.increment_nonce account in
  set_account address account;;
  ret (nonce account).

(** ** Code *)

Definition get_code (address : Address) : SM bytes :=
  let! account := get_account address in
  match code_hash account with
  | None => ret []
  | Some hash => fun s =>
    let (hit, c) := lru_get hash (code_cache s) in
    let s := set_code_cache c s in
    match hit with
    | Some code => (Ok code, s)
    | None =>
      match db_get (db s) CODE hash with
      | Some code => (Ok code, set_code_cache (lru_put hash code (code_cache s)) s)
      | None => (Ok [], s)
      end
    end
  end.

Definition set_code (address : Address) (code : bytes) : SM Hash :=
  let code_hash := blake3 code in
  modify (fun s => set_db (db_put (db s) CODE code_hash code) s);;
  modify (fun s => set_code_cache (lru_put code_hash code (code_cache s)) s);;
  update_account address (Acc.set_code_hash (Some code_hash));;
  ret code_hash.

Definition get_code_hash (address : Address) : SM (option Hash) :=
  let! account := get_account address in ret (code_hash account).

(** ** Contract storage *)

(** [slots.insert(slot, value)] in the cached map of the address, or a new one. *)
Definition cache_slot (address : Address) (slot value : Z) (s : StateDB) : StateDB :=
  let (hit, c) := lru_get address (storage_cache s) in
  set_storage_cache (lru_put address (<[slot := value]> (default ∅ hit)) c) s.

Definition get_storage (address : Address) (slot : Z) : SM Z := fun s =>
  let (hit, c) := lru_get address (storage_cache s) in
  let s := set_storage_cache c s in
  match hit ≫= (.!! slot) with
  | Some value => (Ok value, s)
  | None =>
    bind (get_account address) (fun account =>
      let storage_root := default Hash_ZERO (storage_root account) in
      if decide (storage_root = Hash_ZERO) then ret 0 else fun s =>
      match fst (get (db s) (u256_to_be slot) (with_root storage_root : Trie C)) with
      | Ok (Some data) =>
        if (length data =? 32)%nat then
          let value := u256_from_be data in
          (Ok value, cache_slot address slot value s)
        else (Ok 0, s)
      | Ok None => (Ok 0, s)
      | Err e => (Err (StateTrie e), s)
      | Panic => (Panic, s)
      | NoFuel => (NoFuel, s)
      end) s
  end.

(** The storage trie at [storage_root] with the slot written, committed. *)
Definition write_slot (d : Database) (storage_root : Hash) (slot value : Z) :
    Result TrieError (Hash * Database) :=
  let t := with_root storage_root : Trie C in
  let (r, t) :=
    if value =? 0 then (delete d (u256_to_be slot);; ret tt) t
    else insert d (u256_to_be slot) (u256_to_be value) t in
  match r with
  | Ok _ => let '(root, d', _) := commit d t in Ok (root, d')
  | Err e => Err e
  | Panic => Panic
  | NoFuel => NoFuel
  end.

Definition set_storage (address : Address) (slot value : Z) : SM unit :=
  modify (cache_slot address slot value);;
  let! account := get_account address in
  let storage_root := default Hash_ZERO (storage_root account) in
  let! new_storage_root := (fun s =>
    match write_slot (db s) storage_root slot value with
    | Ok (root, d') => (Ok root, set_db d' s)
    | Err e => (Err (StateTrie e), s)
    | Panic => (Panic, s)
    | NoFuel => (NoFuel, s)
    end) in
  update_account address
    (Acc.set_storage_root
       (if decide (new_storage_root = Hash_ZERO) then None else Some new_storage_root)).

(** ** Stake and delegation *)

Definition get_stake (address : Address) : SM Z :=
  let! account := get_account address in ret (Acc.get_stake account).
Definition set_stake (address : Address) (s : Z) : SM unit :=
  update_account address (Acc.set_stake s).
Definition get_contribution_score (address : Address) : SM Z :=
  let! account := get_account address in ret (Acc.get_contribution_score account).
Definition set_contribution_score (address : Address) (score : Z) : SM unit :=
  update_account address (Acc.set_contribution_score score).

Definition get_account_proof (address : Address) : SM (MerkleProof * Account) :=
  let! proof := map_err (fun _ => StateStorage) (on_trie (fun d => get_proof d address)) in
  let! account := get_account address in
  ret (proof, account).

Definition get_delegation (delegator : Address) : SM (option Address * Z) :=
  let! account := get_account delegator in
  ret (delegated_to account, Acc.get_delegated_amount account).
Definition get_delegation_amount (delegator validator : Address) : SM Z :=
  let! account := get_account delegator in
  ret (if decide (delegated_to account = Some validator) then Acc.get_delegated_amount account else 0).
Definition set_delegation (delegator validator : Address) (amount : Z) : SM unit :=
  update_account delegator (Acc.set_delegation validator amount).
Definition clear_delegation (delegator : Address) : SM unit :=
  update_account delegator Acc.clear_delegation.
Definition add_delegation_amount (delegator : Address) (amount : Z) : SM unit :=
  update_account delegator (Acc.add_delegated_amount amount).
Definition sub_delegation_amount (delegator : Address) (amount : Z) : SM bool :=
  let! account := get_account delegator in
  let (success, account') := Acc.sub_delegated_amount amount account in
  if success : bool then set_account delegator account';; ret true else ret false.
Definition has_delegation (delegator : Address) : SM bool :=
  let! account := get_account delegator in ret (Acc.has_delegation account).

(** The loops over [trie.values()]; the fuel is for 20-byte keys. *)
Definition all_accounts : SM (list bytes) := on_trie (fun d => values d 41).

Fixpoint sum_accounts (f : Account -> Z -> Z) (data : list bytes) (total : Z) : SM Z :=
  match data with
  | [] => ret total
  | bs :: data' =>
    match account_from_bytes bs with
    | None => fail StateSerialization
    | Some account => sum_accounts f data' (f account total)
    end
  end.

Definition get_total_delegated_to (validator : Address) : SM Z :=
  let! data := all_accounts in
  sum_accounts (fun account total =>
    if decide (delegated_to account = Some validator)
    then u256_sat_add total (Acc.get_delegated_amount account) else total) data 0.

Definition get_total_stake : SM Z :=
  let! data := all_accounts in
  sum_accounts (fun account total =>
    u256_sat_add (u256_sat_add total (Acc.get_stake account)) (Acc.get_delegated_amount account)) data 0.

(** ** Undelegations *)

Definition store_undelegation (u : Undelegation) : SM unit :=
  modify (fun s => set_db (db_put (db s) UNDELEGATIONS
    (storage_key (u_delegator u) (u_validator u) (u_unlock_at u)) (to_vec u)) s).

(** The loop stops at the first key without the prefix. *)
Fixpoint take_prefix (prefix : bytes) (l : list (bytes * bytes)) : list (bytes * bytes) :=
  match l with
  | [] => []
  | (key, value) :: l' =>
    if decide (prefix `prefix_of` key) then (key, value) :: take_prefix prefix l' else []
  end.

Definition get_undelegations (delegator : Address) : SM (list Undelegation) :=
  gets (fun s => omap (fun kv => from_slice (snd kv))
                      (take_prefix delegator (db_iter_from (db s) UNDELEGATIONS delegator))).

Definition get_mature_undelegations (current_time : Z) : SM (list Undelegation) :=
  gets (fun s => filter (fun u => is_unlocked u current_time)
                        (omap (fun kv => from_slice (snd kv)) (db_iter (db s) UNDELEGATIONS))).

Definition delete_undelegation (delegator validator : Address) (unlock_at : Z) : SM unit :=
  modify (fun s => set_db (db_delete (db s) UNDELEGATIONS (storage_key delegator validator unlock_at)) s).

(** ** Commit, snapshot, revert *)

Definition state_commit : SM Hash := fun s =>
  let '(new_root, d', t') := commit (db s) (trie s) in
  (Ok new_root, set_state_root new_root (set_trie t' (set_db d' s))).

Definition clear_cache (s : StateDB) : StateDB :=
  set_storage_cache (lru_clear (storage_cache s)) (set_account_cache (lru_clear (account_cache s)) s).

Record StateSnapshot := mkSnapshot {
  snap_root : Hash;
  snap_accounts : list (Address * Account);
  snap_storage : list (Address * gmap Z Z);
}.

Definition snapshot (s : StateDB) : StateSnapshot :=
  mkSnapshot (state_root s) (lru_iter (account_cache s)) (lru_iter (storage_cache s)).

(** An empty cache filled with the given entries. *)
Definition refill {V} (cap : nat) (l : list (Address * V)) : C Address V :=
  foldl (fun c e => lru_put (fst e) (snd e) c) (lru_new cap) l.

Definition revert (snap : StateSnapshot) : SM unit :=
  modify (fun s =>
    mkStateDB (db s) (with_root (snap_root snap)) (refill ACCOUNT_CACHE_SIZE (snap_accounts snap))
      (refill STORAGE_CACHE_SIZE (snap_storage snap)) (code_cache s) (snap_root snap)).

(** [impl Clone for StateDB] *)
Definition state_clone (s : StateDB) : StateDB :=
  mkStateDB (db s) (with_root (state_root s)) (refill ACCOUNT_CACHE_SIZE (lru_iter (account_cache s)))
    (refill STORAGE_CACHE_SIZE (lru_iter (storage_cache s)))
    (foldl (fun c e => lru_put (fst e) (snd e) c) (lru_new CODE_CACHE_SIZE) (lru_iter (code_cache s)))
    (state_root s).

End state_db.

Arguments StateDB C Database : clear implicits.
