(* ===== verification/StateTheory.v ===== *)
(** * Theory of the state database

    The abstract state of a [StateDB] is the map of its accounts and the map
    of its pending undelegations; [state_ok s A] relates the two: the account
    trie holds the accounts, every cached account agrees with the trie, and
    the undelegation column holds the records. [does m A r A'] says that the
    method [m], run in any database whose abstract state is [A], returns [r]
    and leaves the abstract state [A']: the methods are specified by it, and
    the executor's theorems use nothing else of the database. *)

From S2P Require Import Prelude Externals Nibbles Storage Trie TrieTree TrieTheory TrieMap TrieValues.
From S2P Require Import MerkleProofs Types StateDB.

Record astate := mkA {
  accs : gmap Address Account;
  unds : gmap bytes Undelegation;
}.

Definition account_of (A : astate) (a : Address) : Account := default Acc.new_eoa (accs A !! a).
Definition set_acc (a : Address) (acc : Account) (A : astate) : astate := mkA (<[a := acc]> (accs A)) (unds A).
Definition upd_acc (a : Address) (f : Account -> Account) (A : astate) : astate :=
  set_acc a (f (account_of A a)) A.
Definition und_key (u : Undelegation) : bytes := storage_key (u_delegator u) (u_validator u) (u_unlock_at u).
Definition put_und (u : Undelegation) (A : astate) : astate := mkA (accs A) (<[und_key u := u]> (unds A)).
Definition del_und (k : bytes) (A : astate) : astate := mkA (accs A) (base.delete k (unds A)).

Abbreviation addr_ok := (key_ok 20).

(** The sums over all accounts, in key order, as the loops compute them. *)
Definition total_stake_of (A : astate) : Z :=
  foldl (fun total acc =>
    u256_sat_add (u256_sat_add total (Acc.get_stake acc)) (Acc.get_delegated_amount acc))
    0 (sorted_list (accs A)).*2.
Definition total_delegated_of (v : Address) (A : astate) : Z :=
  foldl (fun total acc =>
    if decide (delegated_to acc = Some v) then u256_sat_add total (Acc.get_delegated_amount acc) else total)
    0 (sorted_list (accs A)).*2.

(** The pending undelegations that are mature at [now], in key order. *)
Definition mature_of (now : Z) (A : astate) : list Undelegation :=
  filter (fun u => is_unlocked u now) (sorted_list (unds A)).*2.

Section relation.
Context `{B : Blake3} `{BN : Borsh TrieNode} `{BA : Borsh Account} `{BL : Borsh LegacyAccount}
  `{BU : Borsh Undelegation}.
Context {C : Type -> Type -> Type} `{LC : LruCache C} `{LS : !LruSpec C}.
Context {Database : Type} `{RK : RocksDB Database}.

(** The raw contents of the account trie decode to the accounts. *)
Definition decodes (m : gmap bytes bytes) (am : gmap Address Account) : Prop :=
  forall a, am !! a = m !! a ≫= account_from_bytes /\ (is_Some (m !! a) -> is_Some (am !! a)).

Definition state_ok (s : StateDB C Database) (A : astate) : Prop :=
  (exists m, trie_maps 20 (db s) (trie s) m /\ decodes m (accs A)) /\
  (forall a acc, lru_view (account_cache s) a = Some acc -> accs A !! a = Some acc) /\
  (forall k, db_get (db s) UNDELEGATIONS k = to_vec <$> unds A !! k) /\
  (forall k u, unds A !! k = Some u -> k = und_key u /\ addr_ok (u_delegator u)).

(** What the account methods keep: the committed root, the other caches, and
    every column family but the undelegations. *)
Definition frame (s s' : StateDB C Database) : Prop :=
  state_root s' = state_root s /\ storage_cache s' = storage_cache s /\ code_cache s' = code_cache s /\
  forall cf k, cf <> UNDELEGATIONS -> db_get (db s') cf k = db_get (db s) cf k.

Definition does {E R} (m : ST (StateDB C Database) E R) (A : astate) (r : Result E R) (A' : astate) : Prop :=
  forall s, state_ok s A -> exists s', m s = (r, s') /\ state_ok s' A' /\ frame s s'.
End relation.

(** ** Sequencing *)

Section sequencing.
Context `{B : Blake3} `{BN : Borsh TrieNode} `{BA : Borsh Account} `{BL : Borsh LegacyAccount}
  `{BU : Borsh Undelegation}.
Context {C : Type -> Type -> Type} `{LC : LruCache C} `{LS : !LruSpec C}.
Context {Database : Type} `{RK : RocksDB Database}.
Abbreviation SM E A := (ST (StateDB C Database) E A).

Lemma frame_refl (s : StateDB C Database) : frame s s.
Proof. by split_and!. Qed.

Lemma frame_trans (s1 s2 s3 : StateDB C Database) : frame s1 s2 -> frame s2 s3 -> frame s1 s3.
Proof.
  intros (a1 & a2 & a3 & a4) (b1 & b2 & b3 & b4). split_and!; try congruence.
  intros. rewrite b4, a4; done.
Qed.

Lemma does_ret {E R} A (r : R) : does (ret r : SM E R) A (Ok r) A.
Proof. intros s H. exists s. split_and!; [done|done|apply frame_refl]. Qed.

Lemma does_fail {E R} A (e : E) : does (fail e : SM E R) A (Err e) A.
Proof. intros s H. exists s. split_and!; [done|done|apply frame_refl]. Qed.

Lemma does_bind {E R R'} (m : SM E R) (k : R -> SM E R') A r A1 r' A2 :
  does m A (Ok r) A1 -> does (k r) A1 r' A2 -> does (bind m k) A r' A2.
Proof.
  intros Hm Hk s Hs. destruct (Hm s Hs) as (s1 & E1 & H1 & F1).
  destruct (Hk s1 H1) as (s2 & E2 & H2 & F2). exists s2. rewrite (bind_ok _ _ _ _ _ E1).
  split_and!; [done|done|by eapply frame_trans].
Qed.

Lemma does_bind_err {E R R'} (m : SM E R) (k : R -> SM E R') A e A1 :
  does m A (Err e) A1 -> does (bind m k) A (Err e) A1.
Proof.
  intros Hm s Hs. destruct (Hm s Hs) as (s1 & E1 & H1 & F1).
  exists s1. by rewrite (bind_err _ _ _ _ _ E1).
Qed.

Lemma does_or_panic {E R R'} (o : option R) (k : R -> SM E R') A a r' A' :
  o = Some a -> does (k a) A r' A' -> does (bind (or_panic o) k) A r' A'.
Proof. intros -> H s Hs. cbn [or_panic]. rewrite bind_ret. by apply H. Qed.

Lemma does_map_err_ok {E E' R} (f : E -> E') (m : SM E R) A r A' :
  does m A (Ok r) A' -> does (map_err f m) A (Ok r) A'.
Proof.
  intros Hm s Hs. destruct (Hm s Hs) as (s1 & E1 & H1 & F1). exists s1. unfold map_err. by rewrite E1.
Qed.

Lemma does_map_err_err {E E' R} (f : E -> E') (m : SM E R) A e A' :
  does m A (Err e) A' -> does (map_err f m) A (Err (f e)) A'.
Proof.
  intros Hm s Hs. destruct (Hm s Hs) as (s1 & E1 & H1 & F1). exists s1. unfold map_err. by rewrite E1.
Qed.
End sequencing.

Create HintDb sdb.

Section accounts.
Context `{B : Blake3} {BC : CollisionFree B} `{BN : Borsh TrieNode} {BNok : BorshOk TrieNode}
  `{BA : Borsh Account} {BAok : BorshOk Account} `{BL : Borsh LegacyAccount}
  `{BU : Borsh Undelegation} {BUok : BorshOk Undelegation}.
Context {C : Type -> Type -> Type} `{LC : LruCache C} `{LS : !LruSpec C}.
Context {Database : Type} `{RK : RocksDB Database} {RKok : RocksOk Database}.
Implicit Types (s : StateDB C Database) (A : astate).

Lemma get_account_spec A a : addr_ok a -> does (get_account (C:=C) (Database:=Database) a) A (Ok (account_of A a)) A.
Proof.
  intros Ha s ((m & Hm & Hd) & Hc & Hu). unfold get_account.
  pose proof (lru_get_result (account_cache s) a) as Hres.
  pose proof (lru_get_view (account_cache s) a) as Hview.
  destruct (lru_get a (account_cache s)) as [hit c]. simpl in Hres, Hview. subst hit.
  destruct (lru_view (account_cache s) a) as [acc|] eqn:Ev.
  { eexists; split; [unfold account_of; by rewrite (Hc _ _ Ev)|]. split; [|by split_and!].
    split; [by exists m|]. split; [|done]. simpl. intros a' acc'. rewrite Hview. apply Hc. }
  destruct (get_maps 20 (db s) (trie s) m a Ha Hm) as (tr' & E & G).
  assert (state_ok (set_trie tr' (set_account_cache c s)) A) as Hok.
  { split; [exists m; split; [by eapply trie_maps_grows|done]|]. split; [|done]. simpl.
    intros a' acc'. rewrite Hview. apply Hc. }
  erewrite bind_ok; [|unfold on_trie; simpl; by rewrite E].
  destruct (Hd a) as [Ha1 Ha2]. unfold account_of. destruct (m !! a) as [data|]; simpl in Ha1.
  - destruct Ha2 as [acc Hacc]; [done|]. rewrite Hacc in Ha1 |- *. rewrite <- Ha1.
    eexists; split; [done|]. split; [|by split_and!]. destruct Hok as (? & Hc' & ?).
    split; [done|]. split; [|done]. simpl. intros a' acc'. destruct (decide (a' = a)) as [->|Hne].
    + rewrite lru_put_eq. congruence.
    + intros Hput%lru_put_ne; [|done]. by apply Hc'.
  - rewrite Ha1. eexists; split; [done|]. split; [done|by split_and!].
Qed.

Lemma decodes_insert m am a acc :
  decodes m am -> decodes (<[a := account_to_bytes acc]> m) (<[a := acc]> am).
Proof.
  intros Hd a'. destruct (decide (a' = a)) as [->|Hne].
  - rewrite !lookup_insert_eq. simpl. by rewrite account_roundtrip.
  - rewrite !lookup_insert_ne by done. apply Hd.
Qed.

Lemma set_account_spec A a acc :
  addr_ok a -> does (set_account (C:=C) (Database:=Database) a acc) A (Ok tt) (set_acc a acc A).
Proof.
  intros Ha s ((m & Hm & Hd) & Hc & Hu). unfold set_account. rewrite bind_modify.
  destruct (insert_maps 20 (db s) (trie s) m a (account_to_bytes acc) Ha Hm) as (tr' & E & Hm').
  unfold on_trie. simpl. rewrite E. eexists; split; [done|]. split; [|by split_and!].
  split; [eexists; split; [done|by apply decodes_insert]|]. split; [|done]. simpl. intros a' acc'.
  destruct (decide (a' = a)) as [->|Hne]; [rewrite lru_put_eq, lookup_insert_eq; congruence|].
  intros Hput%lru_put_ne; [|done]. rewrite lookup_insert_ne by done. by apply Hc.
Qed.

Lemma update_account_spec A a f :
  addr_ok a -> does (update_account (C:=C) (Database:=Database) a f) A (Ok tt) (upd_acc a f A).
Proof. intros Ha. eapply does_bind; [by apply get_account_spec|by apply set_account_spec]. Qed.

Lemma read_spec {R} A a (g : Account -> R) :
  addr_ok a ->
  does (bind (get_account (C:=C) (Database:=Database) a) (fun acc => ret (g acc))) A (Ok (g (account_of A a))) A.
Proof. intros Ha. eapply does_bind; [by apply get_account_spec|apply does_ret]. Qed.

Lemma sub_balance_ok A a x :
  addr_ok a -> x <= balance (account_of A a) ->
  does (sub_balance (C:=C) (Database:=Database) a x) A (Ok tt)
    (upd_acc a (fun acc => Acc.set_balance (balance acc - x) acc) A).
Proof.
  intros Ha Hx. eapply does_bind; [by apply get_account_spec|].
  unfold Acc.sub_balance. rewrite (proj2 (Z.leb_le _ _)) by done. by apply set_account_spec.
Qed.

Lemma sub_balance_err A a x :
  addr_ok a -> balance (account_of A a) < x ->
  does (sub_balance (C:=C) (Database:=Database) a x) A
    (Err (StateInsufficientBalance x (balance (account_of A a)))) A.
Proof.
  intros Ha Hx. eapply does_bind; [by apply get_account_spec|].
  unfold Acc.sub_balance. rewrite (proj2 (Z.leb_gt _ _)) by done. apply does_fail.
Qed.

Lemma transfer_zero A a b : does (transfer (C:=C) (Database:=Database) a b 0) A (Ok tt) A.
Proof. apply does_ret. Qed.

Lemma transfer_ok A a b x :
  addr_ok a -> addr_ok b -> x <> 0 -> x <= balance (account_of A a) ->
  does (transfer (C:=C) (Database:=Database) a b x) A (Ok tt)
    (upd_acc b (Acc.add_balance x) (upd_acc a (fun acc => Acc.set_balance (balance acc - x) acc) A)).
Proof.
  intros Ha Hb Hx Hle. unfold transfer. rewrite (proj2 (Z.eqb_neq _ _)) by done.
  eapply does_bind; [by apply get_account_spec|]. rewrite (proj2 (Z.ltb_ge _ _)) by done.
  eapply does_bind; [by apply sub_balance_ok|by apply update_account_spec].
Qed.

Lemma transfer_err A a b x :
  addr_ok a -> x <> 0 -> balance (account_of A a) < x ->
  does (transfer (C:=C) (Database:=Database) a b x) A
    (Err (StateInsufficientBalance x (balance (account_of A a)))) A.
Proof.
  intros Ha Hx Hlt. unfold transfer. rewrite (proj2 (Z.eqb_neq _ _)) by done.
  eapply does_bind; [by apply get_account_spec|]. rewrite (proj2 (Z.ltb_lt _ _)) by done. apply does_fail.
Qed.

Lemma increment_nonce_spec A a :
  addr_ok a ->
  does (increment_nonce (C:=C) (Database:=Database) a) A
    (Ok (nonce (Acc.increment_nonce (account_of A a)))) (upd_acc a Acc.increment_nonce A).
Proof.
  intros Ha. eapply does_bind; [by apply get_account_spec|].
  eapply does_bind; [by apply set_account_spec|apply does_ret].
Qed.

Lemma sub_delegation_amount_ok A a x :
  addr_ok a -> x <= Acc.get_delegated_amount (account_of A a) ->
  does (sub_delegation_amount (C:=C) (Database:=Database) a x) A (Ok true)
    (upd_acc a (fun acc => snd (Acc.sub_delegated_amount x acc)) A).
Proof.
  intros Ha Hx. eapply does_bind; [by apply get_account_spec|].
  unfold Acc.sub_delegated_amount, Acc.get_delegated_amount, upd_acc in *.
  rewrite (proj2 (Z.leb_le _ _)) by done. cbn [snd].
  eapply does_bind; [by apply set_account_spec|apply does_ret].
Qed.

(** ** The sums over all accounts *)

(** The entries of the raw listing, decoded. *)
Definition decode_entry (kv : bytes * bytes) : option (bytes * Account) :=
  acc ← account_from_bytes (snd kv); Some (fst kv, acc).

Lemma decode_entries_sorted kvs : StronglySorted before kvs -> StronglySorted before (omap decode_entry kvs).
Proof.
  induction 1 as [|[k v] l Hs IH Hf]; [constructor|]. simpl.
  unfold decode_entry at 1. simpl. destruct (account_from_bytes v) as [acc|] eqn:E; simpl; [|done].
  constructor; [done|]. rewrite Forall_forall in Hf. apply Forall_forall. intros [k' acc'] Hin.
  apply list_elem_of_omap in Hin as ([k1 v1] & Hin & Heq). unfold decode_entry in Heq. simpl in Heq.
  destruct (account_from_bytes v1); simplify_eq/=. by apply (Hf (k', v1)).
Qed.

Lemma decode_entries m am kvs :
  decodes m am -> StronglySorted before kvs -> (forall k v, (k, v) ∈ kvs <-> m !! k = Some v) ->
  omap decode_entry kvs = sorted_list am.
Proof.
  intros Hd Hs Hel. apply sorted_list_unique; [by apply decode_entries_sorted|].
  intros k acc. destruct (Hd k) as [Hk _]. rewrite Hk, list_elem_of_omap. split.
  - intros ([k1 v1] & Hin%Hel & Heq). unfold decode_entry in Heq. simpl in Heq.
    destruct (account_from_bytes v1) eqn:E; simplify_eq/=. by rewrite Hin.
  - destruct (m !! k) as [v|] eqn:E; [|done]. simpl. intros Hv. exists (k, v).
    split; [by apply Hel|]. unfold decode_entry. simpl. by rewrite Hv.
Qed.

Lemma sum_accounts_spec f kvs z s :
  Forall (fun kv : bytes * bytes => is_Some (account_from_bytes (snd kv))) kvs ->
  sum_accounts (C:=C) (Database:=Database) f kvs.*2 z s =
    (Ok (foldl (fun t acc => f acc t) z (omap decode_entry kvs).*2), s).
Proof.
  intros Hf. revert z. induction Hf as [|[k v] l [acc Hacc] _ IH]; intros z; [done|].
  simpl in Hacc. assert (decode_entry (k, v) = Some (k, acc)) as Hk
    by (unfold decode_entry; simpl; by rewrite Hacc).
  simpl. rewrite Hacc, Hk. apply IH.
Qed.

Lemma fold_accounts_spec A f z :
  does (bind (all_accounts (C:=C) (Database:=Database)) (fun data => sum_accounts f data z)) A
    (Ok (foldl (fun t acc => f acc t) z (sorted_list (accs A)).*2)) A.
Proof.
  intros s ((m & Hm & Hd) & Hc & Hu).
  destruct (values_maps 20 (db s) (trie s) m Hm) as (kvs & tr' & E & Hs & Hel & G).
  change (S (20 * 2)) with 41%nat in E.
  erewrite bind_ok; [|unfold all_accounts, on_trie; by rewrite E].
  rewrite sum_accounts_spec.
  - rewrite (decode_entries m (accs A)) by done. eexists; split; [done|]. split; [|by split_and!].
    split; [exists m; split; [by eapply trie_maps_grows|done]|done].
  - apply Forall_forall. intros [k v] Hin%Hel. destruct (Hd k) as [Hk Hsome].
    rewrite Hin in Hk, Hsome. simpl in *. rewrite <- Hk. auto.
Qed.

Lemma get_total_stake_spec A :
  does (get_total_stake (C:=C) (Database:=Database)) A (Ok (total_stake_of A)) A.
Proof. apply fold_accounts_spec. Qed.

Lemma get_total_delegated_to_spec A v :
  does (get_total_delegated_to (C:=C) (Database:=Database) v) A (Ok (total_delegated_of v A)) A.
Proof. apply fold_accounts_spec. Qed.

(** ** Undelegations *)

Lemma store_undelegation_spec A u :
  addr_ok (u_delegator u) ->
  does (store_undelegation (C:=C) (Database:=Database) u) A (Ok tt) (put_und u A).
Proof.
  intros Hu s ((m & Hm & Hd) & Hc & Hun & Huk). eexists; split; [done|].
  split; [|split_and!; [done|done|done|]; intros cf k Hcf; simpl; rewrite db_get_put;
           rewrite decide_False; [done|congruence]].
  split; [exists m; split; [|done]; simpl; eapply trie_maps_db_grows; [by apply db_grows_other|done]|].
  split; [done|]. split; simpl.
  - intros k. rewrite db_get_put. destruct (decide (und_key u = k)) as [<-|Hne].
    + by rewrite decide_True, lookup_insert_eq.
    + rewrite decide_False, lookup_insert_ne by (unfold und_key in *; congruence). apply Hun.
  - intros k u'. rewrite lookup_insert_Some. intros [[<- <-]|[_ H1]]; [done|by apply Huk].
Qed.

Lemma delete_undelegation_spec A d v t :
  does (delete_undelegation (C:=C) (Database:=Database) d v t) A (Ok tt) (del_und (storage_key d v t) A).
Proof.
  intros s ((m & Hm & Hd) & Hc & Hun & Huk). eexists; split; [done|].
  split; [|split_and!; [done|done|done|]; intros cf k Hcf; simpl; rewrite db_get_delete;
           rewrite decide_False; [done|congruence]].
  split; [exists m; split; [|done]; simpl; eapply trie_maps_db_grows; [by apply db_grows_delete|done]|].
  split; [done|]. split; simpl.
  - intros k. rewrite db_get_delete. destruct (decide (storage_key d v t = k)) as [<-|Hne].
    + by rewrite decide_True, lookup_delete_eq.
    + rewrite decide_False, lookup_delete_ne by congruence. apply Hun.
  - intros k u' [_ H1]%lookup_delete_Some. by apply Huk.
Qed.

(** The undelegation column in iteration order. *)
Lemma iter_undelegations s A :
  state_ok s A -> rocks_iter (db s) UNDELEGATIONS = prod_map id to_vec <$> sorted_list (unds A).
Proof.
  intros (_ & _ & Hun & _). rewrite <- sorted_list_fmap. apply sorted_list_unique; [apply rocks_iter_sorted|].
  intros k v. rewrite rocks_iter_elem, lookup_fmap. unfold db_get in Hun. by rewrite Hun.
Qed.

Lemma decode_undelegations (l : list (bytes * Undelegation)) :
  omap (fun kv : bytes * bytes => from_slice (snd kv)) (prod_map id to_vec <$> l) = l.*2.
Proof.
  induction l as [|[k u] l IH]; [done|]. simpl in *. rewrite from_slice_to_vec. f_equal. apply IH.
Qed.

Lemma get_mature_undelegations_spec A now :
  does (get_mature_undelegations (C:=C) (Database:=Database) now) A (Ok (mature_of now A)) A.
Proof.
  intros s Hs. exists s. split; [|split; [done|apply frame_refl]].
  unfold get_mature_undelegations, gets, db_iter. rewrite (iter_undelegations s A) by done.
  by rewrite decode_undelegations.
Qed.
End accounts.
