(* ===== verification/StateProps.v ===== *)
(** * Properties of the state database

    Commit and reopening, snapshot and revert, contract code, contract
    storage behind its cache, the prefix scan of the undelegations, and
    account proofs. *)

From S2P Require Import Prelude Externals Nibbles Storage Trie TrieTree TrieTheory TrieMap TrieValues.
From S2P Require Import MerkleProofs Types StateDB StateTheory.

Section defs.
Context `{B : Blake3} `{BN : Borsh TrieNode} `{BA : Borsh Account} `{BL : Borsh LegacyAccount}
  `{BU : Borsh Undelegation}.
Context {C : Type -> Type -> Type} `{LC : LruCache C} `{LS : !LruSpec C}.
Context {Database : Type} `{RK : RocksDB Database}.

(** The committed root alone, read from the database, gives the accounts of [A]. *)
Definition committed (s : StateDB C Database) (A : astate) : Prop :=
  exists m, trie_maps 20 (db s) (with_root (state_root s) : Trie C) m /\ decodes m (accs A).

(** The contents of the storage tries, as a function of address and slot;
    the zero value is an absent entry. *)
Definition slot_entry (v : Z) : option bytes := if v =? 0 then None else Some (u256_to_be v).

Definition storage_ok (s : StateDB C Database) (A : astate) (slots : Address -> Z -> Z) : Prop :=
  (forall a, addr_ok a -> exists m,
     trie_maps 32 (db s) (with_root (default Hash_ZERO (storage_root (account_of A a))) : Trie C) m /\
     forall slot, in_u 256 slot ->
       in_u 256 (slots a slot) /\ m !! u256_to_be slot = slot_entry (slots a slot)) /\
  (forall a cm slot v, lru_view (storage_cache s) a = Some cm -> cm !! slot = Some v -> slots a slot = v).

(** Writing one slot. *)
Definition set_slot (a : Address) (slot v : Z) (slots : Address -> Z -> Z) : Address -> Z -> Z :=
  fun a' slot' => if decide (a' = a /\ slot' = slot) then v else slots a' slot'.

(** The code of an account, from the database. *)
Definition code_of (s : StateDB C Database) (A : astate) (a : Address) : bytes :=
  match code_hash (account_of A a) with
  | Some h => default [] (db_get (db s) CODE h)
  | None => []
  end.

(** Cached code is the code in the database. *)
Definition code_ok (s : StateDB C Database) : Prop :=
  forall h c, lru_view (code_cache s) h = Some c -> db_get (db s) CODE h = Some c.
End defs.

(** ** Prefix scans *)

Section prefix_scan.

Lemma prefix_le p k : p `prefix_of` k -> bytes_le p k.
Proof.
  intros [r ->]. unfold bytes_le, bytes_leb.
  assert (bytes_cmp p (p ++ r) <> Gt) as H.
  { induction p as [|x p IH]; simpl; [by destruct r|]. by rewrite Z.compare_refl. }
  by destruct (bytes_cmp p (p ++ r)).
Qed.

(** A key at or after [p] without the prefix [p] comes after every key with it. *)
Lemma prefix_block p k k2 :
  bytes_le p k -> ~ p `prefix_of` k -> p `prefix_of` k2 -> bytes_cmp k2 k = Lt.
Proof.
  unfold bytes_le, bytes_leb. revert k k2. induction p as [|x p IH]; intros k k2 Hle Hn H2.
  { destruct Hn. apply prefix_nil. }
  destruct k2 as [|x2 k2]; [by apply prefix_nil_not in H2|].
  pose proof (prefix_cons_inv_1 _ _ _ _ H2) as <-. apply prefix_cons_inv_2 in H2.
  destruct k as [|y k]; [done|]. simpl in *.
  destruct (Z.compare_spec x y) as [<-|Hlt|Hgt]; [|done|done].
  apply IH; [done| |done]. intros Hp. by apply Hn, prefix_cons.
Qed.

Lemma take_prefix_filter p (l : list (bytes * bytes)) :
  StronglySorted before l ->
  take_prefix p (filter (fun kv => bytes_le p (fst kv)) l) = filter (fun kv => p `prefix_of` fst kv) l.
Proof.
  induction 1 as [|[k v] l Hs IH Hf]; [done|].
  destruct (decide (bytes_le p k)) as [Hle|Hle].
  - rewrite filter_cons_True by done. simpl. case_decide as Hp.
    + rewrite filter_cons_True by done. by rewrite IH.
    + rewrite filter_cons_False by done. symmetry. apply filter_none.
      rewrite Forall_forall in Hf. intros [k2 v2] Hin Hp2. specialize (Hf _ Hin).
      unfold before in Hf. simpl in *. pose proof (prefix_block p k k2 Hle Hp Hp2) as Hlt.
      rewrite bytes_cmp_antisym, Hf in Hlt. done.
  - rewrite filter_cons_False by done. rewrite IH. symmetry. apply filter_cons_False. simpl.
    intros Hp. by apply Hle, prefix_le.
Qed.
End prefix_scan.

Section props.
Context `{B : Blake3} {BC : CollisionFree B} `{BN : Borsh TrieNode} {BNok : BorshOk TrieNode}
  `{BA : Borsh Account} {BAok : BorshOk Account} `{BL : Borsh LegacyAccount}
  `{BU : Borsh Undelegation} {BUok : BorshOk Undelegation}.
Context {C : Type -> Type -> Type} `{LC : LruCache C} `{LS : !LruSpec C}.
Context {Database : Type} `{RK : RocksDB Database} {RKok : RocksOk Database}.
Implicit Types (s : StateDB C Database) (A : astate).

Lemma und_key_prefix d u : addr_ok d -> addr_ok (u_delegator u) -> d `prefix_of` und_key u <-> u_delegator u = d.
Proof.
  intros [_ Hd] [_ Hu]. unfold und_key, storage_key. split.
  - intros [r Hr]. by apply app_inj_1 in Hr as [-> _]; [|lia].
  - intros ->. by apply prefix_app_r.
Qed.

Lemma get_undelegations_spec A d :
  addr_ok d ->
  does (get_undelegations (C:=C) (Database:=Database) d) A
    (Ok (filter (fun u => u_delegator u = d) (sorted_list (unds A)).*2)) A.
Proof.
  intros Hd s Hs. exists s. split; [|split; [done|apply frame_refl]].
  unfold get_undelegations, gets, db_iter_from. rewrite take_prefix_filter by apply rocks_iter_sorted.
  rewrite (iter_undelegations s A) by done. rewrite filter_fmap, decode_undelegations, filter_fmap.
  do 3 f_equal. apply filter_iff. intros [k u] Hin%elem_of_sorted_list. simpl.
  destruct Hs as (_ & _ & _ & Hk). destruct (Hk k u Hin) as [-> Hu]. by apply und_key_prefix.
Qed.

(** ** Commit *)

Lemma commit_spec s A :
  state_ok s A ->
  exists s', state_commit s = (Ok (root (trie s)), s') /\ state_ok s' A /\ committed s' A /\
    state_root s' = root (trie s) /\ db_grows (db s) (db s') /\
    (forall cf k, cf <> STATE -> db_get (db s') cf k = db_get (db s) cf k) /\
    state_ok (state_with_root (db s') (root (trie s))) A.
Proof.
  intros ((m & Hm & Hd) & Hc & Hun & Huk).
  destruct (commit_maps 20 (db s) (trie s) m Hm) as (d' & t' & E & Hg & Hcf & Hr & H1 & H2).
  unfold state_commit. rewrite E. eexists; split; [done|].
  assert (forall k, db_get d' UNDELEGATIONS k = to_vec <$> unds A !! k) as Hun'
    by (intros k; by rewrite Hcf).
  split_and!; simpl; try done.
  - split; [by exists m|]. split; [done|]. by split.
  - by exists m.
  - split; [by exists m|]. simpl. split; [intros a acc; by rewrite lru_new_view|]. by split.
Qed.

(** ** Snapshot and revert *)

Lemma refill_view {V} (l : list (Address * V)) (P : Address -> V -> Prop) (c : C Address V) :
  (forall a v, (a, v) ∈ l -> P a v) -> (forall a v, lru_view c a = Some v -> P a v) ->
  forall a v, lru_view (foldl (fun c e => lru_put (fst e) (snd e) c) c l) a = Some v -> P a v.
Proof.
  revert c. induction l as [|[a0 v0] l IH]; intros c Hl Hc; simpl; [done|].
  apply IH; [set_solver|]. intros a v. destruct (decide (a = a0)) as [->|Hne].
  - rewrite lru_put_eq. intros [= <-]. apply Hl. set_solver.
  - intros Hput%lru_put_ne; [auto|done].
Qed.

Lemma refill_ok {V} cap (c0 : C Address V) (P : Address -> V -> Prop) :
  (forall a v, lru_view c0 a = Some v -> P a v) ->
  forall a v, lru_view (refill cap (lru_iter c0) : C Address V) a = Some v -> P a v.
Proof.
  intros HP. apply refill_view.
  - intros a v Hin%lru_iter_view. auto.
  - intros a v. by rewrite lru_new_view.
Qed.

Lemma revert_spec s0 s A0 A :
  state_ok s0 A0 -> committed s0 A0 -> state_ok s A -> db_grows (db s0) (db s) ->
  exists s', revert (snapshot s0) s = (Ok tt, s') /\ state_ok s' (mkA (accs A0) (unds A)) /\
    state_root s' = state_root s0 /\ db s' = db s.
Proof.
  intros (_ & Hc0 & _) (m & Hm & Hd) (_ & _ & Hun & Huk) Hg. eexists; split; [done|].
  split; [|done]. split; [|split; [|done]]; simpl.
  - exists m. split; [by eapply trie_maps_db_grows|done].
  - by apply (refill_ok ACCOUNT_CACHE_SIZE (account_cache s0)).
Qed.

(** What is stored, whatever the cache says: after [revert] to a snapshot of
    uncommitted writes, the cache has these writes and the trie has not. *)
Definition stored (s : StateDB C Database) (A : astate) : Prop :=
  (exists m, trie_maps 20 (db s) (trie s) m /\ decodes m (accs A)) /\
  (forall k, db_get (db s) UNDELEGATIONS k = to_vec <$> unds A !! k) /\
  (forall k u, unds A !! k = Some u -> k = und_key u /\ addr_ok (u_delegator u)).

Lemma revert_stored s0 s A0 A :
  committed s0 A0 -> state_ok s A -> db_grows (db s0) (db s) ->
  exists s', revert (snapshot s0) s = (Ok tt, s') /\ stored s' (mkA (accs A0) (unds A)).
Proof.
  intros (m & Hm & Hd) (_ & _ & Hun & Huk) Hg. eexists; split; [done|].
  split; [|done]. exists m. split; [by eapply trie_maps_db_grows|done].
Qed.

Lemma stored_read s A a :
  addr_ok a -> stored s A -> exists acc s', get_account a s = (Ok acc, s') /\ stored s' A.
Proof.
  intros Ha ((m & Hm & Hd) & Hu). unfold get_account. destruct (lru_get a (account_cache s)) as [[acc|] c].
  { eexists _, _. split; [done|]. split; [by exists m|done]. }
  destruct (get_maps 20 (db s) (trie s) m a Ha Hm) as (tr' & E & G).
  erewrite bind_ok; [|unfold on_trie; simpl; by rewrite E].
  assert (exists m, trie_maps 20 (db s) tr' m /\ decodes m (accs A)) as Ht
    by (exists m; split; [by eapply trie_maps_grows|done]).
  destruct (Hd a) as [Ha1 Ha2]. destruct (m !! a) as [data|]; [|by eexists _, _].
  destruct Ha2 as [acc Hacc]; [done|]. simpl in Ha1. rewrite <- Ha1, Hacc. by eexists _, _.
Qed.

Lemma stored_write s A a acc :
  addr_ok a -> stored s A -> exists s', set_account a acc s = (Ok tt, s') /\ stored s' (set_acc a acc A).
Proof.
  intros Ha ((m & Hm & Hd) & Hu). unfold set_account. rewrite bind_modify.
  destruct (insert_maps 20 (db s) (trie s) m a (account_to_bytes acc) Ha Hm) as (tr' & E & Hm').
  unfold on_trie. simpl. rewrite E. eexists; split; [done|]. split; [|done].
  eexists; split; [done|by apply decodes_insert].
Qed.

Lemma stored_update s A a f :
  addr_ok a -> stored s A -> exists acc s', update_account a f s = (Ok tt, s') /\ stored s' (set_acc a acc A).
Proof.
  intros Ha Hs. destruct (stored_read s A a Ha Hs) as (acc & s1 & E1 & H1).
  destruct (stored_write s1 A a (f acc) Ha H1) as (s2 & E2 & H2). exists (f acc), s2.
  unfold update_account. by rewrite (bind_ok _ _ _ _ _ E1).
Qed.

Lemma stored_increment s A a :
  addr_ok a -> stored s A -> exists n acc s', increment_nonce a s = (Ok n, s') /\ stored s' (set_acc a acc A).
Proof.
  intros Ha Hs. destruct (stored_read s A a Ha Hs) as (acc & s1 & E1 & H1).
  destruct (stored_write s1 A a (Acc.increment_nonce acc) Ha H1) as (s2 & E2 & H2). eexists _, _, s2.
  unfold increment_nonce. by rewrite (bind_ok _ _ _ _ _ E1), (bind_ok _ _ _ _ _ E2).
Qed.

Lemma stored_sub s A a x :
  addr_ok a -> stored s A ->
  (exists acc s', sub_balance a x s = (Ok tt, s') /\ stored s' (set_acc a acc A)) \/
  (exists b s', sub_balance a x s = (Err (StateInsufficientBalance x b), s') /\ stored s' A).
Proof.
  intros Ha Hs. destruct (stored_read s A a Ha Hs) as (acc & s1 & E1 & H1).
  unfold sub_balance. rewrite (bind_ok _ _ _ _ _ E1). destruct (Acc.sub_balance x acc) as [[] acc'].
  - left. destruct (stored_write s1 A a acc' Ha H1) as (s2 & E2 & H2). by exists acc', s2.
  - right. by eexists _, s1.
Qed.

(** What is stored is what a later commit makes durable. *)
Lemma stored_commit s A :
  stored s A ->
  exists r s', state_commit s = (Ok r, s') /\ state_ok (state_with_root (db s') r) A.
Proof.
  intros ((m & Hm & Hd) & Hun & Huk).
  destruct (commit_maps 20 (db s) (trie s) m Hm) as (d' & t' & E & Hg & Hcf & Hr & H1 & H2).
  unfold state_commit. rewrite E. eexists _, _; split; [done|]. split; [by exists m|].
  split; [intros a acc; simpl; by rewrite lru_new_view|]. split; [|done]. intros k. simpl. by rewrite Hcf.
Qed.

(** The clone of a committed state has the same abstract state. *)
Lemma clone_spec s A : state_ok s A -> committed s A -> state_ok (state_clone s) A.
Proof.
  intros (_ & Hc & Hun & Huk) (m & Hm & Hd). split; [|split; [|done]]; simpl.
  - by exists m.
  - by apply (refill_ok ACCOUNT_CACHE_SIZE (account_cache s)).
Qed.

(** ** Contract storage *)

Lemma slot_key_ok slot : key_ok 32 (u256_to_be slot).
Proof. split; [apply to_be_ok|apply length_to_be]. Qed.

Lemma u256_roundtrip v : in_u 256 v -> u256_from_be (u256_to_be v) = v.
Proof. intros Hv. unfold u256_from_be, u256_to_be. rewrite from_to_be. by apply Z.mod_small. Qed.

Lemma u256_to_be_inj v w : in_u 256 v -> in_u 256 w -> u256_to_be v = u256_to_be w -> v = w.
Proof. intros Hv Hw Heq. rewrite <- (u256_roundtrip v), <- (u256_roundtrip w) by done. by rewrite Heq. Qed.

Lemma cache_slot_ok s A slots a slot v :
  state_ok s A -> storage_ok s A slots -> slots a slot = v ->
  state_ok (cache_slot a slot v s) A /\ storage_ok (cache_slot a slot v s) A slots /\
  db (cache_slot a slot v s) = db s /\ state_root (cache_slot a slot v s) = state_root s.
Proof.
  intros Hs [Ht Hc] Hv. unfold cache_slot.
  pose proof (lru_get_result (storage_cache s) a) as Hres.
  pose proof (lru_get_view (storage_cache s) a) as Hview.
  destruct (lru_get a (storage_cache s)) as [hit c]. simpl in Hres, Hview. subst hit.
  split_and!; [done| |done|done]. split; [done|]. simpl. intros a' cm slot' v' Hcm Hlook.
  destruct (decide (a' = a)) as [->|Hne].
  - rewrite lru_put_eq in Hcm. injection Hcm as <-. rewrite lookup_insert_Some in Hlook.
    destruct Hlook as [[<- <-]|[_ Hlook]]; [done|].
    destruct (lru_view (storage_cache s) a) as [cm|] eqn:E; simpl in Hlook; [|by rewrite lookup_empty in Hlook].
    by eapply Hc.
  - apply lru_put_ne in Hcm; [|done]. rewrite Hview in Hcm. by eapply Hc.
Qed.

Lemma storage_ok_frame s s' A slots :
  frame s s' -> storage_ok s A slots -> storage_ok s' A slots.
Proof.
  intros (_ & Ec & _ & Hcf) [Ht Hc]. split; [|by rewrite Ec].
  intros a Ha. destruct (Ht a Ha) as (m & Hm & Hl). exists m. split; [|done].
  eapply trie_maps_db_grows; [|done]. intros n Hn. unfold db_node in *. by rewrite Hcf.
Qed.

Lemma get_storage_spec s A slots a slot :
  addr_ok a -> in_u 256 slot -> state_ok s A -> storage_ok s A slots ->
  exists s', get_storage a slot s = (Ok (slots a slot), s') /\ state_ok s' A /\ storage_ok s' A slots /\
    state_root s' = state_root s.
Proof.
  intros Ha Hslot Hs Hst. unfold get_storage.
  pose proof (lru_get_result (storage_cache s) a) as Hres.
  pose proof (lru_get_view (storage_cache s) a) as Hview.
  destruct (lru_get a (storage_cache s)) as [hit c]. simpl in Hres, Hview. subst hit.
  assert (storage_ok (set_storage_cache c s) A slots) as Hst1.
  { destruct Hst as [Ht Hc]. split; [done|]. simpl. intros a' cm slot' v. rewrite Hview. apply Hc. }
  destruct (lru_view (storage_cache s) a ≫= (.!! slot)) as [v|] eqn:Ec.
  { apply bind_Some in Ec as (cm & Ecm & Ev). destruct Hst as [_ Hc].
    rewrite (Hc _ _ _ _ Ecm Ev). eexists; split; [done|]. by split_and!. }
  destruct (get_account_spec A a Ha (set_storage_cache c s) Hs) as (s2 & E2 & Hs2 & F2).
  rewrite (bind_ok _ _ _ _ _ E2). pose proof (storage_ok_frame _ _ _ _ F2 Hst1) as Hst2.
  assert (state_root s2 = state_root s) as Hr by (by destruct F2 as (-> & _)).
  destruct (proj1 Hst2 a Ha) as (m & Hm & Hl). destruct (Hl slot Hslot) as [Hv Hlk].
  destruct (get_maps 32 (db s2) _ m (u256_to_be slot) (slot_key_ok slot) Hm) as (tr' & Eg & _).
  case_decide as Hz.
  - exists s2. rewrite Hz in Eg. unfold get in Eg. rewrite bind_gets in Eg. cbn [root with_root] in Eg.
    rewrite decide_True in Eg by done.
    injection Eg as Eg _. rewrite Hlk in Eg. unfold slot_entry in Eg.
    destruct (Z.eqb_spec (slots a slot) 0) as [->|]; [|done]. by split_and!.
  - rewrite Eg. simpl. rewrite Hlk. unfold slot_entry.
    destruct (Z.eqb_spec (slots a slot) 0) as [Hzero|Hnz]; [exists s2; rewrite Hzero; by split_and!|].
    unfold u256_to_be at 1. rewrite length_to_be. cbn [Nat.eqb].
    rewrite u256_roundtrip by done. eexists; split; [done|].
    destruct (cache_slot_ok s2 A slots a slot (slots a slot)) as (? & ? & _ & ->); [done..|].
    by split_and!.
Qed.

Lemma write_slot_spec (d : Database) r m slot v :
  trie_maps 32 d (with_root r : Trie C) m ->
  exists r' d', write_slot (C:=C) d r slot v = Ok (r', d') /\ db_grows d d' /\
    (forall cf k, cf <> STATE -> db_get d' cf k = db_get d cf k) /\
    trie_maps 32 d' (with_root r' : Trie C)
      (match slot_entry v with
       | Some bs => <[u256_to_be slot := bs]> m
       | None => base.delete (u256_to_be slot) m
       end).
Proof.
  intros Hm. unfold write_slot, slot_entry. pose proof (slot_key_ok slot) as Hk.
  destruct (v =? 0).
  - destruct (delete_maps 32 d _ m _ Hk Hm) as (t' & E & Hm').
    rewrite (bind_ok _ _ _ _ _ E). cbn [ret].
    destruct (commit_maps 32 d t' _ Hm') as (d' & t'' & Ec & Hg & Hcf & _ & _ & Hr).
    rewrite Ec. by exists (root t'), d'.
  - destruct (insert_maps 32 d _ m _ (u256_to_be v) Hk Hm) as (t' & E & Hm').
    rewrite E. destruct (commit_maps 32 d t' _ Hm') as (d' & t'' & Ec & Hg & Hcf & _ & _ & Hr).
    rewrite Ec. by exists (root t'), d'.
Qed.

Lemma slot_written (m : gmap bytes bytes) slots a slot v m' :
  in_u 256 slot -> in_u 256 v ->
  (forall slot', in_u 256 slot' ->
     in_u 256 (slots a slot') /\ m !! u256_to_be slot' = slot_entry (slots a slot')) ->
  m' = match slot_entry v with
       | Some bs => <[u256_to_be slot := bs]> m
       | None => base.delete (u256_to_be slot) m
       end ->
  forall slot', in_u 256 slot' ->
    in_u 256 (set_slot a slot v slots a slot') /\
    m' !! u256_to_be slot' = slot_entry (set_slot a slot v slots a slot').
Proof.
  intros Hs Hv Hl -> slot' Hs'. unfold set_slot. destruct (decide (slot' = slot)) as [->|Hne].
  - rewrite decide_True by done. split; [done|].
    destruct (slot_entry v); [by rewrite lookup_insert_eq|by rewrite lookup_delete_eq].
  - rewrite decide_False by tauto. destruct (Hl slot' Hs') as [H1 <-]. split; [done|].
    assert (u256_to_be slot <> u256_to_be slot') by (by intros ?%u256_to_be_inj).
    destruct (slot_entry v); [by rewrite lookup_insert_ne|by rewrite lookup_delete_ne].
Qed.

(** Changing the database under a state, other columns than STATE kept. *)
Lemma state_ok_db s A d' :
  state_ok s A -> db_grows (db s) d' -> (forall k, db_get d' UNDELEGATIONS k = db_get (db s) UNDELEGATIONS k) ->
  state_ok (set_db d' s) A.
Proof.
  intros ((m & Hm & Hd) & Hc & Hun & Huk) Hg Hcf. split.
  - exists m. split; [by eapply trie_maps_db_grows|done].
  - split; [done|]. split; [|done]. intros k. simpl. by rewrite Hcf.
Qed.

Lemma cache_slot_view s slots a slot v :
  (forall a cm slot v, lru_view (storage_cache s) a = Some cm -> cm !! slot = Some v -> slots a slot = v) ->
  forall a' cm slot' v', lru_view (storage_cache (cache_slot a slot v s)) a' = Some cm ->
    cm !! slot' = Some v' -> set_slot a slot v slots a' slot' = v'.
Proof.
  intros Hc a' cm slot' v'. unfold cache_slot, set_slot.
  pose proof (lru_get_result (storage_cache s) a) as Hres.
  pose proof (lru_get_view (storage_cache s) a) as Hview.
  destruct (lru_get a (storage_cache s)) as [hit c]. simpl in *. subst hit.
  destruct (decide (a' = a)) as [->|Hne].
  - rewrite lru_put_eq. intros [= <-]. rewrite lookup_insert_Some. intros [[<- <-]|[Hne Hlook]].
    + by rewrite decide_True.
    + rewrite decide_False by naive_solver.
      destruct (lru_view (storage_cache s) a) as [cm|] eqn:E; simpl in Hlook; [|by rewrite lookup_empty in Hlook].
      by eapply Hc.
  - intros Hcm%lru_put_ne; [|done]. rewrite Hview in Hcm. rewrite decide_False by tauto. by eapply Hc.
Qed.

Lemma frame_grows s s' : frame s s' -> db_grows (db s) (db s').
Proof. intros (_ & _ & _ & Hcf) n Hn. unfold db_node in *. by rewrite Hcf. Qed.

Lemma account_of_upd A a f b :
  account_of (upd_acc a f A) b = if decide (b = a) then f (account_of A a) else account_of A b.
Proof.
  unfold account_of at 1, upd_acc, set_acc. simpl. destruct (decide (b = a)) as [->|Hne].
  - by rewrite lookup_insert_eq.
  - by rewrite lookup_insert_ne.
Qed.

Lemma set_storage_spec s A slots a slot v :
  addr_ok a -> in_u 256 slot -> in_u 256 v -> state_ok s A -> storage_ok s A slots ->
  exists s' x, set_storage a slot v s = (Ok tt, s') /\
    state_ok s' (upd_acc a (Acc.set_storage_root x) A) /\
    storage_ok s' (upd_acc a (Acc.set_storage_root x) A) (set_slot a slot v slots) /\
    state_root s' = state_root s.
Proof.
  intros Ha Hslot Hv Hs [Ht Hc]. unfold set_storage. rewrite bind_modify.
  assert (db (cache_slot a slot v s) = db s /\ state_root (cache_slot a slot v s) = state_root s /\
    state_ok (cache_slot a slot v s) A) as (Hdb1 & Hr1 & Hs1)
    by (unfold cache_slot; by destruct (lru_get a (storage_cache s))).
  pose proof (cache_slot_view s slots a slot v Hc) as Hc1.
  destruct (get_account_spec A a Ha _ Hs1) as (s2 & E2 & Hs2 & F2). rewrite (bind_ok _ _ _ _ _ E2).
  destruct (Ht a Ha) as (m & Hm & Hl).
  assert (db_grows (db s) (db s2)) as Hg2 by (rewrite <- Hdb1; by apply frame_grows).
  destruct (write_slot_spec (db s2) _ m slot v (trie_maps_db_grows _ _ _ _ _ Hg2 Hm))
    as (r' & d' & Ew & Hg3 & Hcf & Hm').
  erewrite bind_ok; [|by rewrite Ew].
  assert (state_ok (set_db d' s2) A) as Hs3 by (apply state_ok_db; [done|done|intros; by apply Hcf]).
  set (x := if decide (r' = Hash_ZERO) then None else Some r').
  destruct (update_account_spec A a (Acc.set_storage_root x) Ha _ Hs3) as (s4 & E4 & Hs4 & F4).
  exists s4, x. rewrite E4. split; [done|]. split; [done|].
  assert (default Hash_ZERO x = r') as Hx by (unfold x; by case_decide).
  pose proof (frame_grows _ _ F4) as Hg4. simpl in Hg4.
  destruct F2 as (R2 & C2 & _ & _), F4 as (R4 & C4 & _ & _). simpl in R4, C4.
  split; [|congruence]. split; [|rewrite C4, C2; exact Hc1].
  intros b Hb. rewrite account_of_upd. destruct (decide (b = a)) as [->|Hne].
  - eexists. cbn [storage_root Acc.set_storage_root]. rewrite Hx.
    split; [by eapply trie_maps_db_grows|]. by eapply (slot_written m slots).
  - destruct (Ht b Hb) as (mb & Hmb & Hlb). exists mb. split.
    + eapply trie_maps_db_grows; [|done]. by eapply db_grows_trans, db_grows_trans.
    + intros slot' Hs'. unfold set_slot. rewrite decide_False by tauto. by apply Hlb.
Qed.

(** ** Contract code *)

Lemma get_code_spec s A a :
  addr_ok a -> state_ok s A -> code_ok s ->
  exists s', get_code a s = (Ok (code_of s A a), s') /\ state_ok s' A /\ code_ok s' /\
    state_root s' = state_root s /\
    forall cf k, cf <> UNDELEGATIONS -> db_get (db s') cf k = db_get (db s) cf k.
Proof.
  intros Ha Hs Hc. unfold get_code, code_of.
  destruct (get_account_spec A a Ha s Hs) as (s1 & E1 & Hs1 & F1). rewrite (bind_ok _ _ _ _ _ E1).
  destruct F1 as (Hr & _ & Ecc & Hcf).
  assert (code_ok s1) as Hc1 by (intros h c; rewrite Ecc, Hcf by done; apply Hc).
  assert (forall k, db_get (db s1) CODE k = db_get (db s) CODE k) as Hcode by (intros; by apply Hcf).
  destruct (code_hash (account_of A a)) as [h|]; [|by exists s1].
  pose proof (lru_get_result (code_cache s1) h) as Hres.
  pose proof (lru_get_view (code_cache s1) h) as Hview.
  destruct (lru_get h (code_cache s1)) as [hit c]. simpl in Hres, Hview. subst hit.
  assert (code_ok (set_code_cache c s1)) as Hc2 by (intros h' c'; simpl; rewrite Hview; apply Hc1).
  destruct (lru_view (code_cache s1) h) as [code|] eqn:Ev.
  - rewrite <- Hcode, (Hc1 _ _ Ev). eexists; split; [done|]. by split_and!.
  - cbn [db set_code_cache]. rewrite <- Hcode. destruct (db_get (db s1) CODE h) as [code|] eqn:Ed;
      (eexists; split; [done|]; split_and!; [done| |done|done]); [|done].
    intros h' c'. simpl. destruct (decide (h' = h)) as [->|Hne]; [rewrite lru_put_eq; congruence|].
    intros Hput%lru_put_ne; [|done]. by apply Hc2.
Qed.

Lemma set_code_spec s A a code :
  addr_ok a -> state_ok s A -> code_ok s ->
  exists s', set_code a code s = (Ok (blake3 code), s') /\
    state_ok s' (upd_acc a (Acc.set_code_hash (Some (blake3 code))) A) /\ code_ok s' /\
    (forall h, db_get (db s') CODE h = if decide (blake3 code = h) then Some code else db_get (db s) CODE h).
Proof.
  intros Ha Hs Hc. unfold set_code. rewrite !bind_modify. cbn [db set_db code_cache].
  set (s1 := set_code_cache _ _).
  assert (state_ok s1 A) as Hs1.
  { apply (state_ok_db s A (db_put (db s) CODE (blake3 code) code)); [done|by apply db_grows_other|].
    intros k. rewrite db_get_put. by rewrite decide_False. }
  assert (code_ok s1) as Hc1.
  { intros h c. simpl. rewrite db_get_put. destruct (decide (h = blake3 code)) as [->|Hne].
    - rewrite lru_put_eq. by rewrite decide_True.
    - intros Hput%lru_put_ne; [|done]. rewrite decide_False by congruence. by apply Hc. }
  destruct (update_account_spec A a (Acc.set_code_hash (Some (blake3 code))) Ha s1 Hs1) as (s2 & E2 & Hs2 & F2).
  rewrite (bind_ok _ _ _ _ _ E2). exists s2. destruct F2 as (_ & _ & Ecc & Hcf).
  split_and!; [done|done| |].
  - intros h c. rewrite Ecc, Hcf by done. apply Hc1.
  - intros h. rewrite Hcf by done. simpl. rewrite db_get_put.
    destruct (decide (blake3 code = h)); [by rewrite decide_True by congruence|by rewrite decide_False by congruence].
Qed.

(** ** Account proofs *)

Lemma get_account_proof_spec A a :
  addr_ok a -> forall s, state_ok s A ->
  exists p s', get_account_proof a s = (Ok (p, account_of A a), s') /\ state_ok s' A /\ frame s s' /\
    verify p (root (trie s)) = Ok true /\ proof_key p = a /\ proof_value p ≫= account_from_bytes = accs A !! a.
Proof.
  intros Ha s ((m & Hm & Hd) & Hc & Hu). unfold get_account_proof.
  destruct (get_proof_maps 20 (db s) (trie s) m a Ha Hm) as (p & tr' & E & Ek & Ev & Hv & G).
  erewrite bind_ok; [|unfold map_err, on_trie; by rewrite E].
  assert (state_ok (set_trie tr' s) A) as Hs1.
  { split; [exists m; split; [by eapply trie_maps_grows|done]|done]. }
  destruct (get_account_spec A a Ha _ Hs1) as (s2 & E2 & Hs2 & F2). rewrite (bind_ok _ _ _ _ _ E2).
  exists p, s2. split_and!; try done. rewrite Ev. symmetry. apply Hd.
Qed.

Lemma state_new_ok (d : Database) :
  (forall k, db_get d UNDELEGATIONS k = None) -> state_ok (state_new d : StateDB C Database) (mkA ∅ ∅).
Proof.
  intros Hu. split; [exists ∅; split; [apply new_maps|]|split; [|split]]; simpl.
  - intros a. rewrite !lookup_empty. split; [done|by intros []].
  - intros a acc. by rewrite lru_new_view.
  - intros k. by rewrite Hu, lookup_empty.
  - intros k u. by rewrite lookup_empty.
Qed.

(** ** Public statements *)

(** With enough balance and no overflow at the
    receiver, [transfer] moves exactly the amount, a transfer to oneself
    changes nothing, and no other account and no other field changes; without
    enough balance it fails and nothing changes at all. *)
Theorem state_transfer_exact s A from to x :
  addr_ok from -> addr_ok to -> state_ok s A -> 0 <= x -> in_u 256 (balance (account_of A from)) ->
  (x <= balance (account_of A from) -> in_u 256 (balance (account_of A to) + x) ->
   exists s' A', transfer from to x s = (Ok tt, s') /\ state_ok s' A' /\ forall b,
     account_of A' b =
       Acc.set_balance (balance (account_of A b) - (if decide (b = from) then x else 0)
                          + (if decide (b = to) then x else 0)) (account_of A b)) /\
  (balance (account_of A from) < x ->
   exists s', transfer from to x s = (Err (StateInsufficientBalance x (balance (account_of A from))), s') /\
     state_ok s' A).
Proof.
  intros Hf Ht Hs Hx Hrf. split.
  - intros Hle Hr. destruct (decide (x = 0)) as [->|Hnz].
    + destruct (transfer_zero A from to s Hs) as (s' & E & Hs' & _). exists s', A. split_and!; [done|done|].
      intros b. replace (balance (account_of A b) - (if decide (b = from) then 0 else 0) +
        (if decide (b = to) then 0 else 0)) with (balance (account_of A b)) by (repeat case_decide; lia).
      by destruct (account_of A b).
    + destruct (transfer_ok A from to x Hf Ht Hnz Hle s Hs) as (s' & E & Hs' & _).
      eexists s', _. split_and!; [done|done|]. intros b. rewrite !account_of_upd.
      unfold Acc.add_balance, u256_sat_add. unfold in_u in *.
      destruct (decide (b = to)) as [->|Hbt].
      * destruct (decide (to = from)) as [->|Hne]; simpl;
          rewrite sat_add_exact by (unfold in_u; lia); [done|]. by rewrite Z.sub_0_r.
      * destruct (decide (b = from)) as [->|Hbf]; simpl; [by rewrite Z.add_0_r|].
        rewrite Z.sub_0_r, Z.add_0_r. by destruct (account_of A b).
  - intros Hlt. unfold in_u in Hrf.
    destruct (transfer_err A from to x Hf ltac:(lia) Hlt s Hs) as (s' & E & Hs' & _). by exists s'.
Qed.

(** Committing returns the trie's root, keeps the
    state, and a database handle opened later at that root alone sees the
    same accounts and undelegations. *)
Theorem state_commit_durable s A a :
  state_ok s A -> addr_ok a ->
  exists r s', state_commit s = (Ok r, s') /\ state_root s' = r /\ state_ok s' A /\
    state_ok (state_with_root (db s') r) A /\
    exists s'', get_account a (state_with_root (db s') r) = (Ok (account_of A a), s'').
Proof.
  intros Hs Ha. destruct (commit_spec s A Hs) as (s' & E & Hs' & _ & Hr & _ & _ & Hnew).
  exists (root (trie s)), s'. split_and!; try done.
  destruct (get_account_spec A a Ha _ Hnew) as (s'' & E'' & _). by exists s''.
Qed.

(** A snapshot taken when the
    committed root holds the accounts restores every account, whatever was
    written since; the undelegation records are not part of the snapshot. *)
Theorem state_revert_restores s0 s A0 A a :
  state_ok s0 A0 -> committed s0 A0 -> state_ok s A -> db_grows (db s0) (db s) -> addr_ok a ->
  exists s', revert (snapshot s0) s = (Ok tt, s') /\ state_ok s' (mkA (accs A0) (unds A)) /\
    exists s'', get_account a s' = (Ok (account_of A0 a), s'').
Proof.
  intros H0 Hc Hs Hg Ha. destruct (revert_spec s0 s A0 A H0 Hc Hs Hg) as (s' & E & Hs' & _).
  exists s'. split_and!; [done|done|].
  destruct (get_account_spec _ a Ha _ Hs') as (s'' & E'' & _). by exists s''.
Qed.

(** Whatever was written
    since the last commit, after [revert(snapshot())] a commit returns the
    root of the last commit, and the database opened at that root has the
    accounts of the last commit, not those of the snapshot. *)
Theorem state_revert_drops_uncommitted s A0 A :
  committed s A0 -> state_ok s A ->
  exists s1 s2, revert (snapshot s) s = (Ok tt, s1) /\ state_commit s1 = (Ok (state_root s), s2) /\
    state_ok (state_with_root (db s2) (state_root s)) (mkA (accs A0) (unds A)).
Proof.
  intros (m & Hm & Hd) (_ & _ & Hun & Huk).
  destruct (commit_maps 20 (db s) _ m Hm) as (d' & t' & E & _ & Hcf & Hr & _ & Hnew).
  eexists. eexists. split; [done|].
  unfold state_commit. cbn [db trie snap_root snapshot]. rewrite E. split; [done|]. split; [by exists m|].
  split; [intros a acc; simpl; by rewrite lru_new_view|]. split; [|done].
  intros k. simpl. by rewrite Hcf.
Qed.

(** Behind the cache, the trie per
    account and the database, writing a slot makes exactly that slot of that
    account read the new value, and every other slot of every account keep its
    value; the other fields of every account keep theirs. *)
Theorem state_storage_memory s A slots a slot v b slot' :
  addr_ok a -> addr_ok b -> in_u 256 slot -> in_u 256 slot' -> in_u 256 v ->
  state_ok s A -> storage_ok s A slots ->
  exists s' s'', set_storage a slot v s = (Ok tt, s') /\
    get_storage b slot' s' =
      (Ok (if decide (b = a /\ slot' = slot) then v else slots b slot'), s'') /\
    exists x, state_ok s'' (upd_acc a (Acc.set_storage_root x) A) /\
      storage_ok s'' (upd_acc a (Acc.set_storage_root x) A) (set_slot a slot v slots).
Proof.
  intros Ha Hb H1 H2 Hv Hs Hst.
  destruct (set_storage_spec s A slots a slot v Ha H1 Hv Hs Hst) as (s' & x & E & Hs' & Hst' & _).
  destruct (get_storage_spec s' _ _ b slot' Hb H2 Hs' Hst') as (s'' & E2 & Hs2 & Hst2 & _).
  exists s', s''. split_and!; [done|done|]. by exists x.
Qed.

(** Code written for an account reads back, through
    cache and database, and the code of every other account reads as before
    (an account that names the hash of this code without the code being there
    reads it from then on). *)
Theorem state_code_roundtrip s A a b code :
  addr_ok a -> addr_ok b -> state_ok s A -> code_ok s ->
  (forall h c, db_get (db s) CODE h = Some c -> h = blake3 c) ->
  exists s' s'', set_code a code s = (Ok (blake3 code), s') /\
    get_code b s' = (Ok (if decide (b = a) then code else
      match code_hash (account_of A b) with
      | Some h => default (if decide (h = blake3 code) then code else []) (db_get (db s) CODE h)
      | None => []
      end), s'') /\ code_ok s''.
Proof.
  intros Ha Hb Hs Hc Haddr.
  destruct (set_code_spec s A a code Ha Hs Hc) as (s' & E & Hs' & Hc' & Hdb).
  destruct (get_code_spec s' _ b Hb Hs' Hc') as (s'' & E2 & _ & Hc2 & _).
  exists s', s''. split_and!; [done| |done]. rewrite E2. do 2 f_equal. unfold code_of.
  rewrite account_of_upd. destruct (decide (b = a)) as [->|Hne]; simpl.
  - rewrite Hdb. by rewrite decide_True.
  - destruct (code_hash (account_of A b)) as [h|]; [|done]. rewrite Hdb.
    destruct (decide (h = blake3 code)) as [->|Hh]; [rewrite decide_True by done|by rewrite decide_False].
    destruct (db_get (db s) CODE (blake3 code)) as [c|] eqn:Ec; [|done].
    apply Haddr, blake3_inj in Ec. by subst.
Qed.

(** The prefix scan returns exactly the records
    of the delegator, in key order, although it stops at the first other key. *)
Theorem state_undelegations_of s A d :
  state_ok s A -> addr_ok d ->
  exists s', get_undelegations d s = (Ok (filter (fun u => u_delegator u = d) (sorted_list (unds A)).*2), s') /\
    forall u, u ∈ filter (fun u => u_delegator u = d) (sorted_list (unds A)).*2 <->
      unds A !! und_key u = Some u /\ u_delegator u = d.
Proof.
  intros Hs Hd. destruct (get_undelegations_spec A d Hd s Hs) as (s' & E & _). exists s'. split; [done|].
  intros u. rewrite list_elem_of_filter, list_elem_of_fmap. split.
  - intros (Hu & [k u'] & -> & Hin%elem_of_sorted_list). simpl in *.
    destruct Hs as (_ & _ & _ & Hk). by destruct (Hk k u' Hin) as [-> _].
  - intros [Hu Hud]. split; [done|]. exists (und_key u, u). split; [done|]. by apply elem_of_sorted_list.
Qed.

(** The proof of an account verifies against the root
    of the account trie and its value decodes to the returned account; for an
    address without an account it proves absence. *)
Theorem state_account_proof s A a :
  state_ok s A -> addr_ok a ->
  exists p s', get_account_proof a s = (Ok (p, account_of A a), s') /\
    verify p (root (trie s)) = Ok true /\ proof_key p = a /\
    proof_value p ≫= account_from_bytes = accs A !! a.
Proof.
  intros Hs Ha. destruct (get_account_proof_spec A a Ha s Hs) as (p & s' & E & _ & _ & H1 & H2 & H3).
  by exists p, s'.
Qed.
End props.

Section examples.
#[local] Existing Instances tagged_blake3 tagged_blake3_ok node_borsh node_borsh_ok
  account_borsh account_borsh_ok no_legacy undelegation_borsh undelegation_borsh_ok.

Definition alice : Address := replicate 20 17.
Definition bob : Address := replicate 20 34.
Definition ex_und : Undelegation := mkUndelegation alice bob 5 900.
Definition ex_A : astate :=
  put_und ex_und (set_acc bob (Acc.new_validator 7) (set_acc alice (Acc.new_eoa_with_balance 100) (mkA ∅ ∅))).

(** A state with two accounts and a pending undelegation, nothing committed. *)
Lemma example_state : exists s : StateDB Lru.t RocksMap,
  state_ok s ex_A /\ committed s (mkA ∅ ∅) /\ code_ok s /\ storage_ok s ex_A (fun _ _ => 0) /\
  forall h, db_get (db s) CODE h = None.
Proof.
  assert (state_ok (state_new ∅ : StateDB Lru.t RocksMap) (mkA ∅ ∅)) as H0 by (by apply state_new_ok).
  destruct (set_account_spec _ alice (Acc.new_eoa_with_balance 100) ltac:(by_decide) _ H0) as (s1 & _ & H1 & F1).
  destruct (set_account_spec _ bob (Acc.new_validator 7) ltac:(by_decide) _ H1) as (s2 & _ & H2 & F2).
  destruct (store_undelegation_spec _ ex_und ltac:(by_decide) _ H2) as (s3 & _ & H3 & F3).
  pose proof (frame_trans _ _ _ (frame_trans _ _ _ F1 F2) F3) as (R & Sc & Cc & Hcf).
  exists s3. split_and!; [done| | | |].
  - exists ∅. split; [|intros a; rewrite !lookup_empty; split; [done|by intros []]].
    rewrite R. apply new_maps.
  - intros h c. by rewrite Cc.
  - split; [|intros a cm slot v; by rewrite Sc].
    intros a Ha. exists ∅. split; [|intros slot Hs; split; [unfold in_u; lia|done]].
    assert (storage_root (account_of ex_A a) = None) as ->; [|apply new_maps].
    unfold account_of, ex_A. simpl. destruct (decide (a = bob)) as [->|]; [done|].
    rewrite lookup_insert_ne by done. destruct (decide (a = alice)) as [->|]; [done|].
    by rewrite lookup_insert_ne.
  - intros h. by rewrite Hcf.
Qed.

Lemma state_transfer_exact_witness :
  exists s s' : StateDB Lru.t RocksMap, transfer alice bob 30 s = (Ok tt, s') /\
  exists s'', transfer alice bob 101 s = (Err (StateInsufficientBalance 101 100), s'').
Proof.
  destruct example_state as (s & Hs & _).
  destruct (state_transfer_exact s ex_A alice bob 30 ltac:(by_decide) ltac:(by_decide) Hs ltac:(lia)
    ltac:(by_decide)) as [H1 _].
  destruct H1 as (s' & A' & E & _); [by vm_compute|by_decide|].
  destruct (state_transfer_exact s ex_A alice bob 101 ltac:(by_decide) ltac:(by_decide) Hs ltac:(lia)
    ltac:(by_decide)) as [_ H2].
  destruct H2 as (s'' & E2 & _); [by vm_compute|]. exists s, s'. split; [done|]. by exists s''.
Defined.

Lemma state_commit_durable_witness :
  exists (s : StateDB Lru.t RocksMap) r s' s'', state_commit s = (Ok r, s') /\
    get_account alice (state_with_root (db s') r) = (Ok (Acc.new_eoa_with_balance 100), s'').
Proof.
  destruct example_state as (s & Hs & _).
  destruct (state_commit_durable s ex_A alice Hs ltac:(by_decide)) as (r & s' & E & _ & _ & _ & s'' & E2).
  by exists s, r, s', s''.
Defined.

Lemma state_revert_restores_witness :
  exists (s0 s s' s'' : StateDB Lru.t RocksMap), revert (snapshot s0) s = (Ok tt, s') /\
    get_account alice s' = (Ok (Acc.new_eoa_with_balance 100), s'').
Proof.
  destruct example_state as (s & Hs & _).
  destruct (commit_spec s ex_A Hs) as (s0 & _ & H0 & Hc & _).
  destruct (set_account_spec ex_A alice Acc.new_eoa ltac:(by_decide) s0 H0) as (s1 & _ & H1 & F1).
  destruct (state_revert_restores s0 s1 ex_A _ alice H0 Hc H1 (frame_grows _ _ F1) ltac:(by_decide))
    as (s' & E & _ & s'' & E2).
  by exists s0, s1, s', s''.
Defined.

Lemma state_revert_drops_uncommitted_witness :
  exists (s s1 s2 : StateDB Lru.t RocksMap), state_ok s ex_A /\
    revert (snapshot s) s = (Ok tt, s1) /\ state_commit s1 = (Ok (state_root s), s2) /\
    state_ok (state_with_root (db s2) (state_root s)) (mkA ∅ (unds ex_A)).
Proof.
  destruct example_state as (s & Hs & Hc & _).
  destruct (state_revert_drops_uncommitted s (mkA ∅ ∅) ex_A Hc Hs) as (s1 & s2 & E1 & E2 & H).
  by exists s, s1, s2.
Defined.

Lemma state_storage_memory_witness :
  exists (s s' s'' : StateDB Lru.t RocksMap), set_storage alice 3 44 s = (Ok tt, s') /\
    get_storage alice 3 s' = (Ok 44, s'').
Proof.
  destruct example_state as (s & Hs & _ & _ & Hst & _).
  destruct (state_storage_memory s ex_A (fun _ _ => 0) alice 3 44 alice 3 ltac:(by_decide) ltac:(by_decide)
    ltac:(by_decide) ltac:(by_decide) ltac:(by_decide) Hs Hst) as (s' & s'' & E1 & E2 & _).
  by exists s, s', s''.
Defined.

Lemma state_code_roundtrip_witness :
  exists (s s' s'' : StateDB Lru.t RocksMap), set_code alice [96; 0] s = (Ok (blake3 [96; 0]), s') /\
    get_code alice s' = (Ok [96; 0], s'').
Proof.
  destruct example_state as (s & Hs & _ & Hc & _ & Hcode).
  destruct (state_code_roundtrip s ex_A alice alice [96; 0] ltac:(by_decide) ltac:(by_decide) Hs Hc
    ltac:(intros h c; by rewrite Hcode)) as (s' & s'' & E1 & E2 & _).
  by exists s, s', s''.
Defined.

Lemma state_undelegations_of_witness :
  exists (s s' : StateDB Lru.t RocksMap), get_undelegations alice s = (Ok [ex_und], s').
Proof.
  destruct example_state as (s & Hs & _).
  destruct (state_undelegations_of s ex_A alice Hs ltac:(by_decide)) as (s' & E & _). by exists s, s'.
Defined.

Lemma state_account_proof_witness :
  exists (s s' : StateDB Lru.t RocksMap) p, get_account_proof alice s = (Ok (p, Acc.new_eoa_with_balance 100), s') /\
    verify p (root (trie s)) = Ok true.
Proof.
  destruct example_state as (s & Hs & _).
  destruct (state_account_proof s ex_A alice Hs ltac:(by_decide)) as (p & s' & E & Hv & _). by exists s, s', p.
Defined.
End examples.
