(* ===== verification/StateOps.v ===== *)
(** * The interface of the state database

    [State.ops] lists the methods of [StateDB] that the executor and the chain
    call. It has two instances: the state database of StateDB.v, and a model
    of it, plain maps of accounts, undelegation records and code together with
    the accounts of the last commit. [refines m am] says that the database
    does with [m] what the model does with [am], whenever the model does not
    stop ([Panic]): every operation of the database refines that of the model,
    and so does every program written against the interface, by the rules
    for [bind], [match] and loops. *)

From S2P Require Import Prelude Externals Nibbles Storage Trie TrieTree TrieTheory TrieMap TrieValues.
From S2P Require Import MerkleProofs Types StateDB StateTheory StateProps.

Module State.
Class ops (S : Type) : Type := {
  snap : Type;
  snapshot : S -> snap;
  revert : snap -> ST S StateError unit;
  get_balance : Address -> ST S StateError Z;
  add_balance : Address -> Z -> ST S StateError unit;
  sub_balance : Address -> Z -> ST S StateError unit;
  transfer : Address -> Address -> Z -> ST S StateError unit;
  get_nonce : Address -> ST S StateError Z;
  set_nonce : Address -> Z -> ST S StateError unit;
  increment_nonce : Address -> ST S StateError Z;
  get_code : Address -> ST S StateError bytes;
  get_stake : Address -> ST S StateError Z;
  set_stake : Address -> Z -> ST S StateError unit;
  set_contribution_score : Address -> Z -> ST S StateError unit;
  get_delegation : Address -> ST S StateError (option Address * Z);
  get_delegation_amount : Address -> Address -> ST S StateError Z;
  set_delegation : Address -> Address -> Z -> ST S StateError unit;
  add_delegation_amount : Address -> Z -> ST S StateError unit;
  sub_delegation_amount : Address -> Z -> ST S StateError bool;
  get_total_stake : ST S StateError Z;
  get_total_delegated_to : Address -> ST S StateError Z;
  store_undelegation : Undelegation -> ST S StateError unit;
  get_mature_undelegations : Z -> ST S StateError (list Undelegation);
  delete_undelegation : Address -> Address -> Z -> ST S StateError unit;
}.
End State.

(** ** The state database *)

Section database.
Context `{B : Blake3} `{BN : Borsh TrieNode} `{BA : Borsh Account} `{BL : Borsh LegacyAccount}
  `{BU : Borsh Undelegation}.
Context {C : Type -> Type -> Type} `{LC : LruCache C}.
Context {Database : Type} `{RK : RocksDB Database}.

#[export] Instance statedb_ops : State.ops (StateDB C Database) := {|
  State.snap := StateSnapshot;
  State.snapshot := snapshot;
  State.revert := revert;
  State.get_balance := get_balance;
  State.add_balance := add_balance;
  State.sub_balance := sub_balance;
  State.transfer := transfer;
  State.get_nonce := get_nonce;
  State.set_nonce := set_nonce;
  State.increment_nonce := increment_nonce;
  State.get_code := get_code;
  State.get_stake := get_stake;
  State.set_stake := set_stake;
  State.set_contribution_score := set_contribution_score;
  State.get_delegation := get_delegation;
  State.get_delegation_amount := get_delegation_amount;
  State.set_delegation := set_delegation;
  State.add_delegation_amount := add_delegation_amount;
  State.sub_delegation_amount := sub_delegation_amount;
  State.get_total_stake := get_total_stake;
  State.get_total_delegated_to := get_total_delegated_to;
  State.store_undelegation := store_undelegation;
  State.get_mature_undelegations := get_mature_undelegations;
  State.delete_undelegation := delete_undelegation;
|}.
End database.

(** ** The model *)

(** Accounts and undelegation records now, the accounts of the last commit,
    and the code column. *)
Record model := mkModel {
  cur : astate;
  com : gmap Address Account;
  codes : gmap Hash bytes;
}.

Definition set_cur (A : astate) (X : model) : model := mkModel A (com X) (codes X).

Section model_ops.
Abbreviation MM A := (ST model StateError A).

(** Addresses are 20 bytes: the model stops on anything else. *)
Definition with_addr {R} (a : Address) (m : MM R) : MM R := if decide (addr_ok a) then m else panic.
Definition m_read {R} (a : Address) (g : Account -> R) : MM R :=
  with_addr a (gets (fun X => g (account_of (cur X) a))).
Definition m_write (a : Address) (f : Account -> Account) : MM unit :=
  with_addr a (modify (fun X => set_cur (upd_acc a f (cur X)) X)).
Definition m_sub_balance (a : Address) (x : Z) : MM unit :=
  let! b := m_read a balance in
  if x <=? b then m_write a (fun acc => Acc.set_balance (balance acc - x) acc)
  else fail (StateInsufficientBalance x b).
Definition m_transfer (from to : Address) (x : Z) : MM unit :=
  if x =? 0 then ret tt else
  m_sub_balance from x;; m_write to (Acc.add_balance x).

(** The model reverts to a snapshot when no account was written between the
    last commit and the snapshot. In the other case the database reopens the
    trie at the committed root and refills the cache with the entries of the
    snapshot: what it then reads depends on what the cache had evicted, which
    plain maps do not say. The model stops there, so that its refinement says
    nothing of that case; [StateProps.revert_stored] does, of the database
    itself. *)
Definition m_revert (snap : gmap Address Account * gmap Address Account) : MM unit :=
  let (current, committed) := snap in
  if decide (current = committed)
  then modify (fun X => mkModel (mkA committed (unds (cur X))) committed (codes X)) else panic.

Definition model_code (X : model) (a : Address) : bytes :=
  match code_hash (account_of (cur X) a) with
  | Some h => default [] (codes X !! h)
  | None => []
  end.
End model_ops.

#[export] Instance model_ops : State.ops model := {|
  State.snap := gmap Address Account * gmap Address Account;
  State.snapshot X := (accs (cur X), com X);
  State.revert := m_revert;
  State.get_balance a := m_read a balance;
  State.add_balance a x := m_write a (Acc.add_balance x);
  State.sub_balance := m_sub_balance;
  State.transfer := m_transfer;
  State.get_nonce a := m_read a nonce;
  State.set_nonce a n := m_write a (Acc.set_nonce n);
  State.increment_nonce a := (m_write a Acc.increment_nonce;; m_read a nonce);
  State.get_code a := with_addr a (gets (fun X => model_code X a));
  State.get_stake a := m_read a Acc.get_stake;
  State.set_stake a x := m_write a (Acc.set_stake x);
  State.set_contribution_score a x := m_write a (Acc.set_contribution_score x);
  State.get_delegation a := m_read a (fun acc => (delegated_to acc, Acc.get_delegated_amount acc));
  State.get_delegation_amount a v :=
    m_read a (fun acc => if decide (delegated_to acc = Some v) then Acc.get_delegated_amount acc else 0);
  State.set_delegation a v x := m_write a (Acc.set_delegation v x);
  State.add_delegation_amount a x := m_write a (Acc.add_delegated_amount x);
  State.sub_delegation_amount a x :=
    let! d := m_read a Acc.get_delegated_amount in
    if x <=? d then m_write a (fun acc => snd (Acc.sub_delegated_amount x acc));; ret true else ret false;
  State.get_total_stake := gets (fun X => total_stake_of (cur X));
  State.get_total_delegated_to v := gets (fun X => total_delegated_of v (cur X));
  State.store_undelegation u :=
    with_addr (u_delegator u) (modify (fun X => set_cur (put_und u (cur X)) X));
  State.get_mature_undelegations now := gets (fun X => mature_of now (cur X));
  State.delete_undelegation d v t := modify (fun X => set_cur (del_und (storage_key d v t) (cur X)) X);
|}.

(** ** Refinement *)

Section refinement.
Context `{B : Blake3} `{BN : Borsh TrieNode} `{BA : Borsh Account} `{BL : Borsh LegacyAccount}
  `{BU : Borsh Undelegation}.
Context {C : Type -> Type -> Type} `{LC : LruCache C} `{LS : !LruSpec C}.
Context {Database : Type} `{RK : RocksDB Database}.

Definition sim (s : StateDB C Database) (X : model) : Prop :=
  state_ok s (cur X) /\ committed s (mkA (com X) ∅) /\ code_ok s /\
  forall h, db_get (db s) CODE h = codes X !! h.

(** [d]: a database that the current one has grown from. *)
Definition refines {E R} (d : Database) (m : ST (StateDB C Database) E R) (am : ST model E R) : Prop :=
  forall s X, sim s X -> db_grows d (db s) ->
    match am X with
    | (Panic, _) | (NoFuel, _) => True
    | (r, X') => exists s', m s = (r, s') /\ sim s' X' /\ db_grows (db s) (db s')
    end.
End refinement.

(** ** Rules *)

Create HintDb refine.

Section rules.
Context `{B : Blake3} `{BN : Borsh TrieNode} `{BA : Borsh Account} `{BL : Borsh LegacyAccount}
  `{BU : Borsh Undelegation}.
Context {C : Type -> Type -> Type} `{LC : LruCache C} `{LS : !LruSpec C}.
Context {Database : Type} `{RK : RocksDB Database}.
Abbreviation SM E A := (ST (StateDB C Database) E A).
Abbreviation MM E A := (ST model E A).

Lemma refines_ret {E R} d (r : R) : refines d (ret r : SM E R) (ret r).
Proof. intros s X H _. exists s. split_and!; [done|done|apply db_grows_refl]. Qed.

Lemma refines_fail {E R} d (e : E) : refines d (fail e : SM E R) (fail e).
Proof. intros s X H _. exists s. split_and!; [done|done|apply db_grows_refl]. Qed.

Lemma refines_panic {E R} d (m : SM E R) : refines d m panic.
Proof. by intros s X H _. Qed.

Lemma refines_or_panic {E R} d (o : option R) : refines d (or_panic o : SM E R) (or_panic o).
Proof. destruct o; [apply refines_ret|apply refines_panic]. Qed.

Lemma refines_ok_or {E R} d (o : option R) (e : E) : refines d (ok_or o e : SM E R) (ok_or o e).
Proof. destruct o; [apply refines_ret|apply refines_fail]. Qed.

Lemma refines_bind {E R R'} d (m : SM E R) am (k : R -> SM E R') ak :
  refines d m am -> (forall r, refines d (k r) (ak r)) -> refines d (bind m k) (bind am ak).
Proof.
  intros Hm Hk s X Hs G. specialize (Hm s X Hs G). unfold bind at 1. destruct (am X) as [[r|e| |] X1]; [| |done|done].
  - destruct Hm as (s1 & E1 & H1 & G1). specialize (Hk r s1 X1 H1 (db_grows_trans _ _ _ G G1)). rewrite (bind_ok _ _ _ _ _ E1).
    destruct (ak r X1) as [[r'|e| |] X2]; [| |done|done];
      destruct Hk as (s2 & E2 & H2 & G2); exists s2; split_and!; try done; by eapply db_grows_trans.
  - destruct Hm as (s1 & E1 & H1 & G1). exists s1. by rewrite (bind_err _ _ _ _ _ E1).
Qed.

Lemma refines_map_err {E E' R} d (f : E -> E') (m : SM E R) am :
  refines d m am -> refines d (map_err f m) (map_err f am).
Proof.
  intros Hm s X Hs G. specialize (Hm s X Hs G). unfold map_err at 1. destruct (am X) as [[r|e| |] X1]; [| |done|done];
    destruct Hm as (s1 & E1 & H1 & G1); exists s1; unfold map_err; by rewrite E1.
Qed.

Lemma refines_attempt {E E' R} d (m : SM E R) am :
  refines d m am -> refines d (attempt m : SM E' (R + E)) (attempt am).
Proof.
  intros Hm s X Hs G. specialize (Hm s X Hs G). unfold attempt at 1. destruct (am X) as [[r|e| |] X1]; [| |done|done];
    destruct Hm as (s1 & E1 & H1 & G1); exists s1; unfold attempt; by rewrite E1.
Qed.

(** A method specified by [does] on the accounts and undelegations. *)
Lemma refines_does {E R} d (m : SM E R) (am : MM E R) :
  (forall X, match am X with
    | (Panic, _) | (NoFuel, _) => True
    | (r, X') => exists A', X' = set_cur A' X /\ does m (cur X) r A'
    end) -> refines d m am.
Proof.
  intros Hd s X (Hs & (mc & Hm & Hdec) & Hc & Hcode) _. specialize (Hd X).
  destruct (am X) as [[r|e| |] X1]; [| |done|done]; destruct Hd as (A' & -> & Hd);
    destruct (Hd s Hs) as (s' & Em & Hs' & F); pose proof (frame_grows _ _ F) as G;
    destruct F as (F1 & F2 & F3 & F4); exists s'; split_and!; try done; split_and!; try done.
  all: try (exists mc; split; [rewrite F1; by eapply trie_maps_db_grows|done]).
  all: try (intros h c; rewrite F3, F4 by done; apply Hc).
  all: intros h; by rewrite F4.
Qed.
End rules.

(** ** Every operation of the database refines the model's *)

Section operations.
Context `{B : Blake3} {BC : CollisionFree B} `{BN : Borsh TrieNode} {BNok : BorshOk TrieNode}
  `{BA : Borsh Account} {BAok : BorshOk Account} `{BL : Borsh LegacyAccount}
  `{BU : Borsh Undelegation} {BUok : BorshOk Undelegation}.
Context {C : Type -> Type -> Type} `{LC : LruCache C} `{LS : !LruSpec C}.
Context {Database : Type} `{RK : RocksDB Database} {RKok : RocksOk Database}.
Abbreviation SM E A := (ST (StateDB C Database) E A).

Lemma refines_read {R} d a (g : Account -> R) :
  refines d (bind (get_account a : SM _ _) (fun acc => ret (g acc))) (m_read a g).
Proof.
  unfold m_read, with_addr. case_decide; [|apply refines_panic].
  apply refines_does. intros X. exists (cur X). split; [by destruct X|by apply read_spec].
Qed.

Lemma refines_write d a f : refines d (update_account a f : SM _ _) (m_write a f).
Proof.
  unfold m_write, with_addr. case_decide; [|apply refines_panic].
  apply refines_does. intros X. eexists. split; [done|by apply update_account_spec].
Qed.

Lemma refines_sub_balance d a x : refines d (sub_balance a x : SM _ _) (m_sub_balance a x).
Proof.
  unfold m_sub_balance, m_read, m_write, with_addr. case_decide; [|apply refines_panic].
  apply refines_does. intros X. rewrite bind_gets. destruct (Z.leb_spec x (balance (account_of (cur X) a))).
  - eexists. split; [done|by apply sub_balance_ok].
  - exists (cur X). split; [by destruct X|by apply sub_balance_err].
Qed.

Lemma refines_transfer d a b x : refines d (transfer a b x : SM _ _) (m_transfer a b x).
Proof.
  unfold m_transfer, m_sub_balance, m_read, m_write, with_addr.
  destruct (Z.eqb_spec x 0) as [->|Hx]; [apply refines_ret|].
  case_decide; [|apply refines_panic]. case_decide.
  - apply refines_does. intros X. unfold bind, gets, modify. destruct (Z.leb_spec x (balance (account_of (cur X) a))).
    + eexists. split; [done|by apply transfer_ok].
    + exists (cur X). split; [by destruct X|by apply transfer_err].
  - apply refines_does. intros X. unfold bind, gets, modify. destruct (Z.leb_spec x (balance (account_of (cur X) a))).
    + done.
    + exists (cur X). split; [by destruct X|by apply transfer_err].
Qed.

Lemma refines_increment_nonce d a :
  refines d (increment_nonce a : SM _ _) (m_write a Acc.increment_nonce;; m_read a nonce).
Proof.
  unfold m_write, m_read, with_addr. case_decide; [|apply refines_panic].
  apply refines_does. intros X. rewrite bind_modify. unfold gets. eexists. split; [done|].
  simpl. rewrite account_of_upd, decide_True by done. by apply increment_nonce_spec.
Qed.

Lemma refines_sub_delegation_amount d a x :
  refines d (sub_delegation_amount a x : SM _ _) (State.sub_delegation_amount (S:=model) a x).
Proof.
  cbn [State.sub_delegation_amount model_ops]. unfold m_read, m_write, with_addr.
  case_decide; [|apply refines_panic]. apply refines_does. intros X. rewrite bind_gets.
  destruct (Z.leb_spec x (Acc.get_delegated_amount (account_of (cur X) a))) as [Hle|Hlt].
  - eexists. split; [done|by apply sub_delegation_amount_ok].
  - exists (cur X). split; [by destruct X|]. eapply does_bind; [by apply get_account_spec|].
    unfold Acc.sub_delegated_amount, Acc.get_delegated_amount in *.
    rewrite (proj2 (Z.leb_gt _ _)) by done. apply does_ret.
Qed.

Lemma refines_get_code d a :
  refines d (get_code a : SM _ _) (with_addr a (gets (fun X => model_code X a))).
Proof.
  unfold with_addr. case_decide as Ha; [|apply refines_panic].
  intros s X (Hs & (mc & Hm & Hdec) & Hc & Hcode) _. unfold gets.
  destruct (get_code_spec s (cur X) a Ha Hs Hc) as (s' & E & Hs' & Hc' & Hr & Hdb).
  assert (db_grows (db s) (db s')) as G by (intros n Hn; unfold db_node in *; by rewrite Hdb).
  exists s'. split_and!; [|split_and!|done]; try done.
  - rewrite E. do 2 f_equal. unfold code_of, model_code. destruct (code_hash _); [by rewrite Hcode|done].
  - exists mc. split; [rewrite Hr; by eapply trie_maps_db_grows|done].
  - intros h. by rewrite Hdb.
Qed.

(** The interface's operations, one by one. *)
Record refined : Prop := {
  get_balance_refined d a : refines d (State.get_balance (S:=StateDB C Database) a) (State.get_balance a);
  add_balance_refined d a x : refines d (State.add_balance (S:=StateDB C Database) a x) (State.add_balance a x);
  sub_balance_refined d a x : refines d (State.sub_balance (S:=StateDB C Database) a x) (State.sub_balance a x);
  transfer_refined d a b x : refines d (State.transfer (S:=StateDB C Database) a b x) (State.transfer a b x);
  get_nonce_refined d a : refines d (State.get_nonce (S:=StateDB C Database) a) (State.get_nonce a);
  set_nonce_refined d a n : refines d (State.set_nonce (S:=StateDB C Database) a n) (State.set_nonce a n);
  increment_nonce_refined d a : refines d (State.increment_nonce (S:=StateDB C Database) a) (State.increment_nonce a);
  get_code_refined d a : refines d (State.get_code (S:=StateDB C Database) a) (State.get_code a);
  get_stake_refined d a : refines d (State.get_stake (S:=StateDB C Database) a) (State.get_stake a);
  set_stake_refined d a x : refines d (State.set_stake (S:=StateDB C Database) a x) (State.set_stake a x);
  set_contribution_score_refined d a x : refines d (State.set_contribution_score (S:=StateDB C Database) a x) (State.set_contribution_score a x);
  get_delegation_refined d a : refines d (State.get_delegation (S:=StateDB C Database) a) (State.get_delegation a);
  get_delegation_amount_refined d a v : refines d (State.get_delegation_amount (S:=StateDB C Database) a v) (State.get_delegation_amount a v);
  set_delegation_refined d a v x : refines d (State.set_delegation (S:=StateDB C Database) a v x) (State.set_delegation a v x);
  add_delegation_amount_refined d a x : refines d (State.add_delegation_amount (S:=StateDB C Database) a x) (State.add_delegation_amount a x);
  sub_delegation_amount_refined d a x : refines d (State.sub_delegation_amount (S:=StateDB C Database) a x) (State.sub_delegation_amount a x);
  get_total_stake_refined d : refines d (State.get_total_stake (S:=StateDB C Database)) State.get_total_stake;
  get_total_delegated_to_refined d v :
    refines d (State.get_total_delegated_to (S:=StateDB C Database) v) (State.get_total_delegated_to v);
  store_undelegation_refined d u :
    refines d (State.store_undelegation (S:=StateDB C Database) u) (State.store_undelegation u);
  get_mature_undelegations_refined d now :
    refines d (State.get_mature_undelegations (S:=StateDB C Database) now) (State.get_mature_undelegations now);
  delete_undelegation_refined d x v t :
    refines d (State.delete_undelegation (S:=StateDB C Database) x v t) (State.delete_undelegation x v t);
}.

Lemma statedb_refined : refined.
Proof.
  split.
  - intros d a. exact (refines_read d a balance).
  - intros d a x. exact (refines_write d a (Acc.add_balance x)).
  - intros d a x. exact (refines_sub_balance d a x).
  - intros d a b x. exact (refines_transfer d a b x).
  - intros d a. exact (refines_read d a nonce).
  - intros d a n. exact (refines_write d a (Acc.set_nonce n)).
  - intros d a. exact (refines_increment_nonce d a).
  - intros d a. exact (refines_get_code d a).
  - intros d a. exact (refines_read d a Acc.get_stake).
  - intros d a x. exact (refines_write d a (Acc.set_stake x)).
  - intros d a x. exact (refines_write d a (Acc.set_contribution_score x)).
  - intros d a. exact (refines_read d a _).
  - intros d a v. exact (refines_read d a _).
  - intros d a v x. exact (refines_write d a (Acc.set_delegation v x)).
  - intros d a x. exact (refines_write d a (Acc.add_delegated_amount x)).
  - intros d a x. exact (refines_sub_delegation_amount d a x).
  - intros d. apply refines_does. intros X. exists (cur X). split; [by destruct X|apply get_total_stake_spec].
  - intros d v. apply refines_does. intros X. exists (cur X). split; [by destruct X|apply get_total_delegated_to_spec].
  - intros d u. cbn [State.store_undelegation statedb_ops model_ops]. unfold with_addr.
    case_decide; [|apply refines_panic]. apply refines_does. intros X. eexists.
    split; [done|by apply store_undelegation_spec].
  - intros d now. apply refines_does. intros X. exists (cur X). split; [by destruct X|apply get_mature_undelegations_spec].
  - intros d x v t. apply refines_does. intros X. eexists. split; [done|apply delete_undelegation_spec].
Qed.

(** Reverting to a snapshot: the model does it for a committed state. *)
Lemma refines_revert s0 X0 :
  sim s0 X0 ->
  refines (db s0) (State.revert (State.snapshot s0) : SM _ _) (State.revert (State.snapshot X0)).
Proof.
  intros (H0 & Hc0 & _ & _). cbn [State.revert State.snapshot model_ops]. unfold m_revert.
  case_decide as Heq; [|apply refines_panic]. intros s X (Hs & _ & Hcode & Hcodes) G. unfold modify.
  assert (cur X0 = mkA (com X0) (unds (cur X0))) as Hcur by (rewrite <- Heq; by destruct (cur X0)).
  rewrite Hcur in H0.
  destruct (revert_spec s0 s (mkA (com X0) (unds (cur X0))) (cur X) H0 Hc0 Hs G) as (s' & E & Hs' & Hr & Hdb).
  exists s'. rewrite Hdb. split_and!; [done| |apply db_grows_refl]. injection E as Es'.
  split_and!; [done| | |by rewrite Hdb].
  - destruct Hc0 as (mc & Hm & Hdec). exists mc. rewrite Hr, Hdb. split; [by eapply trie_maps_db_grows|done].
  - intros h c. rewrite Hdb, <- Es'. simpl. apply Hcode.
Qed.

(** A program that starts by taking a snapshot. *)
Lemma refines_snapshot {E R} d (k : State.snap (ops:=statedb_ops) -> SM E R) (ak : State.snap (ops:=model_ops) -> ST model E R) :
  (forall s0 X0, sim s0 X0 -> refines (db s0) (k (State.snapshot s0)) (ak (State.snapshot X0))) ->
  refines d (bind (gets State.snapshot) k) (bind (gets State.snapshot) ak).
Proof. intros Hk s X Hs _. rewrite !bind_gets. apply (Hk s X Hs s X Hs), db_grows_refl. Qed.
End operations.

(** ** Concrete databases for given accounts *)

Section examples.
#[local] Existing Instances tagged_blake3 tagged_blake3_ok node_borsh node_borsh_ok
  account_borsh account_borsh_ok no_legacy undelegation_borsh undelegation_borsh_ok.

Definition accounts_of (l : list (Address * Account)) (us : list Undelegation) : astate :=
  foldr put_und (foldr (fun e => set_acc (fst e) (snd e)) (mkA ∅ ∅) l) us.

(** A database that holds the accounts and records, nothing committed. *)
Lemma build_sim l us :
  Forall (fun e => addr_ok (fst e)) l -> Forall (fun u => addr_ok (u_delegator u)) us ->
  exists s : StateDB Lru.t RocksMap, sim s (mkModel (accounts_of l us) ∅ ∅).
Proof.
  intros Hl Hus.
  assert (exists s : StateDB Lru.t RocksMap, sim s (mkModel (accounts_of l []) ∅ ∅)) as [s0 H0].
  { induction Hl as [|[a acc] l Ha _ [s IH]].
    - exists (state_new ∅). split_and!; [by apply state_new_ok| |by intros h c|done].
      exists ∅. split; [apply new_maps|]. intros a. rewrite !lookup_empty. split; [done|by intros []].
    - assert (refines (db s) (update_account a (fun _ => acc)) (m_write a (fun _ => acc))) as Hw by apply refines_write.
      specialize (Hw s _ IH (db_grows_refl _)). unfold m_write, with_addr in Hw. rewrite decide_True in Hw by done.
      destruct Hw as (s' & _ & Hs' & _). by exists s'. }
  induction Hus as [|u us Hu _ [s IH]]; [by exists s0|].
  pose proof (store_undelegation_refined statedb_refined (db s) u s _ IH (db_grows_refl _)) as Hw.
  cbn [State.store_undelegation model_ops] in Hw. unfold with_addr in Hw. rewrite decide_True in Hw by done.
  destruct Hw as (s' & _ & Hs' & _). by exists s'.
Qed.

(** The same, committed. *)
Lemma build_committed l us :
  Forall (fun e => addr_ok (fst e)) l -> Forall (fun u => addr_ok (u_delegator u)) us ->
  exists s : StateDB Lru.t RocksMap, sim s (mkModel (accounts_of l us) (accs (accounts_of l us)) ∅).
Proof.
  intros Hl Hus. destruct (build_sim l us Hl Hus) as (s & Hs & _ & Hc & Hcodes).
  destruct (commit_spec s _ Hs) as (s' & Ec & Hs' & (m & Hm & Hdec) & _ & _ & Hcf & _). exists s'.
  split_and!; [done|by exists m| |].
  - intros h c. rewrite Hcf by done. unfold state_commit in Ec.
    destruct (commit (db s) (trie s)) as [[r d'] t']. injection Ec as _ <-. apply Hc.
  - intros h. rewrite Hcf by done. apply Hcodes.
Qed.
End examples.

(** Steps through a program and its model in lockstep: the rules, then the
    operations of the interface, then the branches. *)
Ltac refine_op :=
  lazymatch goal with
  | |- refines _ (State.get_balance _) _ => apply (get_balance_refined statedb_refined)
  | |- refines _ (State.add_balance _ _) _ => apply (add_balance_refined statedb_refined)
  | |- refines _ (State.sub_balance _ _) _ => apply (sub_balance_refined statedb_refined)
  | |- refines _ (State.transfer _ _ _) _ => apply (transfer_refined statedb_refined)
  | |- refines _ (State.get_nonce _) _ => apply (get_nonce_refined statedb_refined)
  | |- refines _ (State.set_nonce _ _) _ => apply (set_nonce_refined statedb_refined)
  | |- refines _ (State.increment_nonce _) _ => apply (increment_nonce_refined statedb_refined)
  | |- refines _ (State.get_code _) _ => apply (get_code_refined statedb_refined)
  | |- refines _ (State.get_stake _) _ => apply (get_stake_refined statedb_refined)
  | |- refines _ (State.set_stake _ _) _ => apply (set_stake_refined statedb_refined)
  | |- refines _ (State.set_contribution_score _ _) _ => apply (set_contribution_score_refined statedb_refined)
  | |- refines _ (State.get_delegation _) _ => apply (get_delegation_refined statedb_refined)
  | |- refines _ (State.get_delegation_amount _ _) _ => apply (get_delegation_amount_refined statedb_refined)
  | |- refines _ (State.set_delegation _ _ _) _ => apply (set_delegation_refined statedb_refined)
  | |- refines _ (State.add_delegation_amount _ _) _ => apply (add_delegation_amount_refined statedb_refined)
  | |- refines _ (State.sub_delegation_amount _ _) _ => apply (sub_delegation_amount_refined statedb_refined)
  | |- refines _ (State.get_total_stake) _ => apply (get_total_stake_refined statedb_refined)
  | |- refines _ (State.get_total_delegated_to _) _ => apply (get_total_delegated_to_refined statedb_refined)
  | |- refines _ (State.store_undelegation _) _ => apply (store_undelegation_refined statedb_refined)
  | |- refines _ (State.get_mature_undelegations _) _ => apply (get_mature_undelegations_refined statedb_refined)
  | |- refines _ (State.delete_undelegation _ _ _) _ => apply (delete_undelegation_refined statedb_refined)
  end.
Ltac refine_prog :=
  repeat lazymatch goal with
  | |- refines _ _ panic => apply refines_panic
  | |- refines _ (ret _) _ => apply refines_ret
  | |- refines _ (fail _) _ => apply refines_fail
  | |- refines _ (or_panic _) _ => apply refines_or_panic
  | |- refines _ (ok_or _ _) _ => apply refines_ok_or
  | |- refines _ (bind _ _) _ => apply refines_bind; [|intros ?]
  | |- refines _ (attempt _) _ => apply refines_attempt
  | |- refines _ (map_err _ (State.revert _)) _ => assumption
  | |- refines _ (map_err _ _) _ => apply refines_map_err; refine_op
  | |- refines _ (match ?x with _ => _ end) _ => destruct x
  | |- refines _ _ _ => solve [auto with refine]
  end.
