(* ===== verification/Receipts.v ===== *)
(** * Receipts and log blooms (src/crates/qfc-types/src/receipt.rs)

    A bloom is 256 bytes; every datum sets three of its 2048 bits. The
    theorem is the one a filter must have: nothing that was added is missed. *)

From S2P Require Import Prelude Externals Types.

Section bloom.
Context `{B : Blake3}.

Definition Bloom_ZERO : bytes := replicate 256 0.

(** [((hash[2 i] as usize) << 8 | hash[2 i + 1] as usize) & 2047] *)
Definition bit_index (hash_bytes : bytes) (i : nat) : Z :=
  Z.land (Z.lor (Z.shiftl (default 0 (hash_bytes !! (i * 2)%nat)) 8)
                (default 0 (hash_bytes !! (i * 2 + 1)%nat))) 2047.

Definition set_bit (bloom : bytes) (bit : Z) : bytes :=
  let byte_index := Z.to_nat (bit / 8) in
  let bit_position := bit mod 8 in
  <[byte_index := Z.lor (default 0 (bloom !! byte_index)) (Z.shiftl 1 bit_position)]> bloom.

Definition has_bit (bloom : bytes) (bit : Z) : bool :=
  negb (Z.land (default 0 (bloom !! Z.to_nat (bit / 8))) (Z.shiftl 1 (bit mod 8)) =? 0).

Definition accrue (bloom data : bytes) : bytes :=
  let hash_bytes := blake3 data in
  foldl (fun b i => set_bit b (bit_index hash_bytes i)) bloom [0; 1; 2]%nat.

Definition bloom_contains (bloom data : bytes) : bool :=
  let hash_bytes := blake3 data in
  forallb (fun i => has_bit bloom (bit_index hash_bytes i)) [0; 1; 2]%nat.

Definition accrue_bloom (a b : bytes) : bytes :=
  imap (fun i x => Z.lor x (default 0 (b !! i))) a.

Definition log_bloom (l : Log) : bytes :=
  foldl accrue (accrue Bloom_ZERO (log_address l)) (log_topics l).

Definition create_bloom (logs : list Log) : bytes :=
  foldl (fun b l => accrue_bloom b (log_bloom l)) Bloom_ZERO logs.

(** One bloom has all the bits of another. *)
Definition bloom_le (a b : bytes) : Prop :=
  length a = length b /\ forall bit, has_bit a bit = true -> has_bit b bit = true.
End bloom.

Section bits.

Lemma bit_index_range h i : 0 <= bit_index h i < 2048.
Proof.
  unfold bit_index. change 2047 with (Z.ones 11). rewrite Z.land_ones by lia.
  apply (Z.mod_pos_bound _ (2 ^ 11)). lia.
Qed.

(** A bit is there exactly when its byte has it. *)
Lemma has_bit_testbit bloom bit :
  has_bit bloom bit = Z.testbit (default 0 (bloom !! Z.to_nat (bit / 8))) (bit mod 8).
Proof.
  unfold has_bit. set (x := default 0 _). pose proof (Z.mod_pos_bound bit 8 ltac:(lia)) as Hp.
  rewrite Z.shiftl_1_l. destruct (Z.testbit x (bit mod 8)) eqn:E.
  - apply negb_true_iff, Z.eqb_neq. intros Hz.
    assert (Z.testbit (Z.land x (2 ^ (bit mod 8))) (bit mod 8) = true) as Ht
      by (rewrite Z.land_spec, E, Z.pow2_bits_true by lia; done).
    by rewrite Hz, Z.bits_0 in Ht.
  - apply negb_false_iff, Z.eqb_eq, Z.bits_inj'. intros n Hn. rewrite Z.land_spec, Z.bits_0.
    destruct (decide (n = bit mod 8)) as [->|Hne]; [by rewrite E|].
    rewrite Z.pow2_bits_false by lia. apply andb_false_r.
Qed.

#[export] Instance bloom_le_preorder : PreOrder bloom_le.
Proof.
  split; [by intros a|]. intros a b c [L1 H1] [L2 H2]. split; [congruence|auto].
Qed.

Lemma length_set_bit b bit : length (set_bit b bit) = length b.
Proof. apply length_insert. Qed.

Lemma set_bit_le b bit : bloom_le b (set_bit b bit).
Proof.
  split; [by rewrite length_set_bit|]. intros bit'. rewrite !has_bit_testbit. unfold set_bit.
  destruct (decide (Z.to_nat (bit / 8) = Z.to_nat (bit' / 8))) as [E|Hne].
  - rewrite <- E. destruct (decide (Z.to_nat (bit / 8) < length b)%nat) as [Hlt|Hge].
    + rewrite list_lookup_insert_eq by done. simpl. rewrite Z.lor_spec. intros ->. done.
    + rewrite list_insert_ge by lia. done.
  - by rewrite list_lookup_insert_ne.
Qed.

Lemma set_bit_has b bit : 0 <= bit < 2048 -> length b = 256%nat -> has_bit (set_bit b bit) bit = true.
Proof.
  intros Hb Hl. rewrite has_bit_testbit. unfold set_bit.
  pose proof (Z.mod_pos_bound bit 8 ltac:(lia)) as Hp.
  assert (0 <= bit / 8 < 256) by (split; [apply Z.div_pos|apply Z.div_lt_upper_bound]; lia).
  rewrite list_lookup_insert_eq by lia. simpl. rewrite Z.lor_spec, Z.shiftl_1_l, Z.pow2_bits_true by lia.
  apply orb_true_r.
Qed.
End bits.

Section blooms.
Context `{B : Blake3}.

Lemma bloom_contains_le a b data : bloom_le a b -> bloom_contains a data = true -> bloom_contains b data = true.
Proof.
  intros [_ Hle]. unfold bloom_contains. rewrite !forallb_forall. intros H i Hi. auto.
Qed.

Lemma accrue_le b data : bloom_le b (accrue b data).
Proof. unfold accrue. simpl. do 2 (etransitivity; [|apply set_bit_le]). apply set_bit_le. Qed.

Lemma length_accrue b data : length (accrue b data) = length b.
Proof. symmetry. apply accrue_le. Qed.

Lemma accrue_contains b data : length b = 256%nat -> bloom_contains (accrue b data) data = true.
Proof.
  intros Hl. unfold bloom_contains, accrue. simpl. rewrite !andb_true_iff. split_and!; [..|done].
  - do 2 (eapply (proj2 (set_bit_le _ _))). apply set_bit_has; [apply bit_index_range|done].
  - eapply (proj2 (set_bit_le _ _)). apply set_bit_has; [apply bit_index_range|by rewrite length_set_bit].
  - apply set_bit_has; [apply bit_index_range|by rewrite !length_set_bit].
Qed.

Lemma accrue_all_le b l : bloom_le b (foldl accrue b l).
Proof.
  revert b. induction l as [|x l IH]; intros b; simpl; [reflexivity|].
  etransitivity; [apply accrue_le|apply IH].
Qed.

Lemma accrue_all_contains b l data :
  length b = 256%nat -> data ∈ l -> bloom_contains (foldl accrue b l) data = true.
Proof.
  revert b. induction l as [|x l IH]; intros b Hl Hin; [by apply not_elem_of_nil in Hin|].
  simpl. apply elem_of_cons in Hin as [->|Hin].
  - eapply bloom_contains_le; [apply accrue_all_le|by apply accrue_contains].
  - apply IH; [by rewrite length_accrue|done].
Qed.

Lemma log_bloom_contains l data : data = log_address l \/ data ∈ log_topics l -> bloom_contains (log_bloom l) data = true.
Proof.
  unfold log_bloom. intros [->|Hin].
  - eapply bloom_contains_le; [apply accrue_all_le|by apply accrue_contains].
  - apply accrue_all_contains; [by rewrite length_accrue|done].
Qed.

Lemma length_log_bloom l : length (log_bloom l) = 256%nat.
Proof. unfold log_bloom. rewrite <- (proj1 (accrue_all_le _ _)), length_accrue. done. Qed.

Lemma accrue_bloom_le_l a b : bloom_le a (accrue_bloom a b).
Proof.
  unfold accrue_bloom. split; [by rewrite length_imap|]. intros bit. rewrite !has_bit_testbit.
  rewrite list_lookup_imap. destruct (a !! Z.to_nat (bit / 8)) as [x|]; simpl; [|done].
  rewrite Z.lor_spec. by intros ->.
Qed.

Lemma accrue_bloom_le_r a b : length a = length b -> bloom_le b (accrue_bloom a b).
Proof.
  intros Hl. unfold accrue_bloom. split; [by rewrite length_imap|]. intros bit. rewrite !has_bit_testbit.
  rewrite list_lookup_imap. destruct (b !! Z.to_nat (bit / 8)) as [y|] eqn:Eb; simpl; [|by rewrite Z.bits_0].
  apply lookup_lt_Some in Eb as Hlt. rewrite <- Hl in Hlt. apply lookup_lt_is_Some_2 in Hlt as [x ->].
  simpl. rewrite Z.lor_spec. intros ->. apply orb_true_r.
Qed.

(** The bloom of a receipt's logs
    contains the address and every topic of every one of them. *)
Theorem create_bloom_complete logs l data :
  l ∈ logs -> data = log_address l \/ data ∈ log_topics l ->
  bloom_contains (create_bloom logs) data = true.
Proof.
  intros Hl Hd. unfold create_bloom.
  assert (forall b, length b = 256%nat -> l ∈ logs ->
    bloom_contains (foldl (fun b l => accrue_bloom b (log_bloom l)) b logs) data = true) as H; [|by apply H].
  clear Hl. induction logs as [|l' logs IH]; intros b Hb Hin; [by apply not_elem_of_nil in Hin|].
  simpl. apply elem_of_cons in Hin as [->|Hin].
  - assert (forall ls b0, bloom_le b0 (foldl (fun b l => accrue_bloom b (log_bloom l)) b0 ls)) as Hle.
    { induction ls as [|x ls IHs]; intros b0; simpl; [reflexivity|].
      etransitivity; [apply accrue_bloom_le_l|apply IHs]. }
    eapply bloom_contains_le; [apply Hle|]. eapply bloom_contains_le; [|by apply log_bloom_contains].
    apply accrue_bloom_le_r. by rewrite length_log_bloom.
  - apply IH; [|done]. by rewrite <- (proj1 (accrue_bloom_le_l b _)).
Qed.
End blooms.

Section examples.
#[local] Existing Instance tagged_blake3.

Lemma create_bloom_complete_witness :
  bloom_contains (create_bloom [mkLog [9; 9] [[1]; [2]] []; mkLog [7] [[3]] [4]]) [3] = true.
Proof.
  apply (create_bloom_complete _ (mkLog [7] [[3]] [4])); [set_solver|right; set_solver].
Defined.
End examples.
