(* ===== verification/Executor.v ===== *)
(** * The transaction executor (src/crates/qfc-executor/src/executor.rs)

    Validation, execution of each transaction type with gas prepayment,
    refund and producer payment, the revert path of a failed transaction, the
    maturing of undelegations and the loop over a block's transactions.
    Ed25519 verification and the EVM (evm.rs drives the third-party revm) are
    parameters. Error messages are the error values instead of their text.
    The state database is used through its interface [State.ops]. *)

From S2P Require Import Prelude Externals Nibbles Storage Trie Types Crypto Receipts StateDB StateOps.

Inductive ExecutorError :=
| InvalidSignature
| InvalidChainId (expected actual : Z)
| InvalidNonce (expected actual : Z)
| InsufficientBalance (need have : Z)
| GasTooLow (minimum provided : Z)
| OutOfGas
| Reverted
| MissingRecipient
| ContractError
| State (e : StateError)
| StakeTooLow (minimum provided : Z)
| AlreadyValidator
| NotValidator
| Internal
| EvmError
| DelegationTooLow (minimum provided : Z)
| AlreadyDelegated
| InvalidValidator
| NoDelegation
| InsufficientDelegation (need have : Z)
| ValidatorStakeTooHigh (max_percent max_allowed attempted : Z).

(** The text of an error: of an [ExecutorError], or one the executor or the
    EVM wrote itself. *)
Inductive Message :=
| MsgError (e : ExecutorError)
| MsgText (text : string).

Record ExecutionResult := mkExec {
  ex_success : bool;
  ex_gas_used : Z;
  ex_logs : list Log;
  ex_contract_address : option Address;
  ex_output : bytes;
  ex_error : option Message;
}.

Definition exec_success (gas_used : Z) : ExecutionResult := mkExec true gas_used [] None [] None.
Definition exec_success_with_contract (gas_used : Z) (a : Address) : ExecutionResult :=
  mkExec true gas_used [] (Some a) [] None.
Definition exec_failure (gas_used : Z) (e : Message) : ExecutionResult :=
  mkExec false gas_used [] None [] (Some e).

(** Block context and configuration; the ancestor-hash resolver is only for
    the EVM and part of that parameter. *)
Record Executor := mkExecutor {
  chain_id : Z;
  block_number : Z;
  block_timestamp : Z;
  block_gas_limit : Z;
  parent_hash : Hash;
  evm_opcode_activation_height : Z;
}.

Definition executor_new (chain : Z) : Executor :=
  mkExecutor chain 0 0 DEFAULT_BLOCK_GAS_LIMIT Hash_ZERO EVM_OPCODE_ACTIVATION_HEIGHT.
Definition set_block_context (number timestamp gas_limit : Z) (parent : Hash) (e : Executor) : Executor :=
  mkExecutor (chain_id e) number timestamp gas_limit parent (evm_opcode_activation_height e).
Definition set_evm_opcode_activation_height (height : Z) (e : Executor) : Executor :=
  mkExecutor (chain_id e) (block_number e) (block_timestamp e) (block_gas_limit e) (parent_hash e) height.

(** What the EVM returns to the executor. *)
Record EvmResult := mkEvm {
  evm_success : bool;
  evm_gas_used : Z;
  evm_logs : list Log;
  evm_contract_address : option Address;
  evm_output : bytes;
  evm_error : option string;
}.

Inductive ReceiptStatus :=
| Success
| Failure (e : Message)
| StatusOutOfGas
| StatusReverted.

Record Receipt := mkReceipt {
  r_tx_hash : Hash;
  r_tx_index : Z;
  r_status : ReceiptStatus;
  r_cumulative_gas_used : Z;
  r_gas_used : Z;
  r_logs : list Log;
  r_logs_bloom : bytes;
  r_contract_address : option Address;
}.

Section executor.
Context `{B : Blake3} `{BT : Borsh UnsignedTransaction} `{ED : Ed25519}.
Context {St : Type} `{SO : !State.ops St}.

Abbreviation EM A := (ST St ExecutorError A).

(** [EvmExecutor::create] and [EvmExecutor::call] *)
Context (evm_create : Executor -> Address -> Address -> bytes -> Z -> Z -> EM EvmResult).
Context (evm_call : Executor -> Address -> Address -> Address -> bytes -> Z -> Z -> EM EvmResult).

(** [?] on a state method. *)
Definition st {A} (m : ST St StateError A) : EM A := map_err State m.

Definition ensure_validator_stake_cap (validator : Address) (added_stake : Z) : EM unit :=
  if added_stake =? 0 then ret tt else
  let! current_total_stake := st State.get_total_stake in
  if current_total_stake =? 0 then ret tt else
  let! direct := st (State.get_stake validator) in
  let! delegated := st (State.get_total_delegated_to validator) in
  let validator_total_after := u256_sat_add (u256_sat_add direct delegated) added_stake in
  let network_total_after := u256_sat_add current_total_stake added_stake in
  let! max_allowed := or_panic (max_validator_stake network_total_after) in
  if max_allowed <? validator_total_after
  then fail (ValidatorStakeTooHigh MAX_VALIDATOR_STAKE_PERCENT max_allowed validator_total_after)
  else ret tt.

(** ** Validation *)

Definition is_ethereum (tx : Transaction) : bool := bool_decide (tx_public_key tx !! 0%nat = Some 238).

(** The sender: bytes 2..22 of the key of a 0xEE-marked transaction, else
    derived from the verified key. *)
Definition recover_sender (tx : Transaction) : EM (Hash * Address) :=
  let tx_hash := blake3 (to_bytes_without_signature tx) in
  if is_ethereum tx then ret (tx_hash, take 20 (drop 2 (tx_public_key tx)))
  else if is_ok (verify_hash_signature (tx_public_key tx) tx_hash (tx_signature tx))
  then ret (tx_hash, address_from_public_key (tx_public_key tx))
  else fail InvalidSignature.

Definition validate_type (tx : Transaction) (sender : Address) : EM unit :=
  match tx_type tx with
  | Transfer => match tx_to tx with None => fail MissingRecipient | Some _ => ret tt end
  | Stake =>
    let! current_stake := st (State.get_stake sender) in
    if (current_stake =? 0) && (tx_value tx <? MIN_VALIDATOR_STAKE)
    then fail (StakeTooLow MIN_VALIDATOR_STAKE (tx_value tx)) else ret tt
  | ValidatorRegister =>
    if tx_value tx <? MIN_VALIDATOR_STAKE
    then fail (StakeTooLow MIN_VALIDATOR_STAKE (tx_value tx)) else ret tt
  | Delegate =>
    let! validator := ok_or (tx_to tx) MissingRecipient in
    if tx_value tx <? MIN_DELEGATION then fail (DelegationTooLow MIN_DELEGATION (tx_value tx)) else
    let! '(existing_validator, _) := st (State.get_delegation sender) in
    if bool_decide (existing_validator <> None /\ existing_validator <> Some validator)
    then fail AlreadyDelegated else
    let! s := st (State.get_stake validator) in
    if s =? 0 then fail InvalidValidator else ret tt
  | _ => ret tt
  end.

Definition validate_transaction (e : Executor) (tx : Transaction) : EM SignedTransaction :=
  if negb (tx_chain_id tx =? chain_id e) then fail (InvalidChainId (chain_id e) (tx_chain_id tx)) else
  let intrinsic := intrinsic_gas tx in
  if tx_gas_limit tx <? intrinsic then fail (GasTooLow intrinsic (tx_gas_limit tx)) else
  let! '(tx_hash, sender) := recover_sender tx in
  let! sender_balance := st (State.get_balance sender) in
  let! total := or_panic (total_cost tx) in
  if sender_balance <? total then fail (InsufficientBalance total sender_balance) else
  let! expected_nonce := st (State.get_nonce sender) in
  if negb (tx_nonce tx =? expected_nonce) then fail (InvalidNonce expected_nonce (tx_nonce tx)) else
  validate_type tx sender;;
  ret (mkSigned tx tx_hash sender).

(** ** The transaction types *)

Definition execute_transfer (tx : Transaction) (sender : Address) : EM ExecutionResult :=
  let! to := ok_or (tx_to tx) MissingRecipient in
  st (State.transfer sender to (tx_value tx));;
  ret (exec_success TRANSFER_GAS).

Definition execute_contract_create (e : Executor) (tx : Transaction) (sender producer : Address) :
    EM ExecutionResult :=
  let! result := evm_create e producer sender (tx_data tx) (tx_value tx) (tx_gas_limit tx) in
  ret
    (if evm_success result then
       let gas_used := Z.max (evm_gas_used result) CONTRACT_CREATE_GAS in
       match evm_contract_address result with
       | Some addr => mkExec true gas_used (evm_logs result) (Some addr) [] None
       | None => exec_failure gas_used (MsgText "Contract creation failed: no address")
       end
     else exec_failure (evm_gas_used result) (MsgText (default "Unknown error" (evm_error result))))%string.

Definition execute_contract_call (e : Executor) (tx : Transaction) (sender producer : Address) :
    EM ExecutionResult :=
  let! to := ok_or (tx_to tx) MissingRecipient in
  let! code := st (State.get_code to) in
  if decide (code = []) then
    (if tx_value tx =? 0 then ret tt else st (State.transfer sender to (tx_value tx)));;
    ret (exec_success (u64_add MINIMUM_GAS (data_gas tx)))
  else
    let! result := evm_call e producer sender to (tx_data tx) (tx_value tx) (tx_gas_limit tx) in
    ret
      (if evm_success result
       then mkExec true (evm_gas_used result) (evm_logs result) None (evm_output result) None
       else mkExec false (evm_gas_used result) [] None (evm_output result)
              (Some (MsgText (default "Execution failed"%string (evm_error result))))).

Definition execute_stake (tx : Transaction) (sender : Address) : EM ExecutionResult :=
  let stake_amount := tx_value tx in
  let! current_stake := st (State.get_stake sender) in
  let! new_stake := or_panic (u256_add current_stake stake_amount) in
  if (current_stake =? 0) && (new_stake <? MIN_VALIDATOR_STAKE)
  then fail (StakeTooLow MIN_VALIDATOR_STAKE new_stake) else
  ensure_validator_stake_cap sender stake_amount;;
  st (State.sub_balance sender stake_amount);;
  st (State.set_stake sender new_stake);;
  ret (exec_success (MINIMUM_GAS * 2)).

(** The amount in the first 32 bytes of the data, or everything. *)
Definition amount_or (tx : Transaction) (all : EM Z) : EM Z :=
  if (32 <=? length (tx_data tx))%nat then ret (u256_from_be (take 32 (tx_data tx))) else all.

Definition execute_unstake (tx : Transaction) (sender : Address) : EM ExecutionResult :=
  let! unstake_amount := amount_or tx (st (State.get_stake sender)) in
  let! current_stake := st (State.get_stake sender) in
  if current_stake <? unstake_amount then fail (InsufficientBalance unstake_amount current_stake) else
  let! new_stake := or_panic (u256_sub current_stake unstake_amount) in
  st (State.set_stake sender new_stake);;
  st (State.add_balance sender unstake_amount);;
  ret (exec_success (MINIMUM_GAS * 2)).

Definition execute_validator_register (tx : Transaction) (sender : Address) : EM ExecutionResult :=
  let! current_stake := st (State.get_stake sender) in
  if negb (current_stake =? 0) then fail AlreadyValidator else
  let stake_amount := tx_value tx in
  if stake_amount <? MIN_VALIDATOR_STAKE then fail (StakeTooLow MIN_VALIDATOR_STAKE stake_amount) else
  ensure_validator_stake_cap sender stake_amount;;
  st (State.sub_balance sender stake_amount);;
  st (State.set_stake sender stake_amount);;
  st (State.set_contribution_score sender 0);;
  ret (exec_success (MINIMUM_GAS * 3)).

Definition execute_validator_exit (sender : Address) : EM ExecutionResult :=
  let! current_stake := st (State.get_stake sender) in
  if current_stake =? 0 then fail NotValidator else
  st (State.add_balance sender current_stake);;
  st (State.set_stake sender 0);;
  ret (exec_success (MINIMUM_GAS * 2)).

Definition execute_delegate (tx : Transaction) (sender : Address) : EM ExecutionResult :=
  let! validator := ok_or (tx_to tx) MissingRecipient in
  let amount := tx_value tx in
  if amount <? MIN_DELEGATION then fail (DelegationTooLow MIN_DELEGATION amount) else
  let! '(existing_validator, _) := st (State.get_delegation sender) in
  if bool_decide (existing_validator <> None /\ existing_validator <> Some validator)
  then fail AlreadyDelegated else
  let! validator_stake := st (State.get_stake validator) in
  if validator_stake =? 0 then fail InvalidValidator else
  ensure_validator_stake_cap validator amount;;
  st (State.sub_balance sender amount);;
  (if decide (existing_validator = None) then st (State.set_delegation sender validator amount)
   else st (State.add_delegation_amount sender amount));;
  ret (exec_success (MINIMUM_GAS * 3)).

Definition execute_undelegate (e : Executor) (tx : Transaction) (sender : Address) : EM ExecutionResult :=
  let! validator := ok_or (tx_to tx) MissingRecipient in
  let! amount := amount_or tx (st (State.get_delegation_amount sender validator)) in
  let! '(existing_validator, existing_amount) := st (State.get_delegation sender) in
  if decide (existing_validator = Some validator) then
    if existing_amount <? amount then fail (InsufficientDelegation amount existing_amount) else
    st (State.sub_delegation_amount sender amount);;
    let unlock_at := u64_add (block_timestamp e / 1000) UNSTAKE_DELAY_SECS in
    st (State.store_undelegation (mkUndelegation sender validator amount unlock_at));;
    ret (exec_success (MINIMUM_GAS * 3))
  else fail NoDelegation.

Definition execute_claim_delegation_rewards (sender : Address) : EM ExecutionResult :=
  let! '(existing_validator, _) := st (State.get_delegation sender) in
  match existing_validator with
  | None => fail NoDelegation
  | Some _ => ret (exec_success (MINIMUM_GAS * 2))
  end.

(** ** Execution *)

Definition evm_tx (tx : Transaction) : bool :=
  match tx_type tx with ContractCreate | ContractCall => true | _ => false end.

Definition dispatch (e : Executor) (tx : Transaction) (sender producer : Address) : EM ExecutionResult :=
  match tx_type tx with
  | Transfer => execute_transfer tx sender
  | ContractCreate => execute_contract_create e tx sender producer
  | ContractCall => execute_contract_call e tx sender producer
  | Stake => execute_stake tx sender
  | Unstake => execute_unstake tx sender
  | ValidatorRegister => execute_validator_register tx sender
  | ValidatorExit => execute_validator_exit sender
  | Delegate => execute_delegate tx sender
  | Undelegate => execute_undelegate e tx sender
  | ClaimDelegationRewards => execute_claim_delegation_rewards sender
  | InferenceTask => ret (exec_success 21000)
  end.

Definition execute (e : Executor) (stx : SignedTransaction) (producer : Address) : EM ExecutionResult :=
  let tx := st_tx stx in
  let sender := st_sender stx in
  let gas_limit := tx_gas_limit tx in
  let! snap := gets State.snapshot in
  let! cost := or_panic (gas_cost tx) in
  st (State.sub_balance sender cost);;
  (if evm_tx tx then ret tt else (st (State.increment_nonce sender);; ret tt));;
  let! result := attempt (dispatch e tx sender producer) in
  match result with
  | inl exec_result =>
    (if evm_tx tx then st (State.set_nonce sender (u64_add (tx_nonce tx) 1)) else ret tt);;
    let price := low_u64 (tx_gas_price tx) in
    let gas_refund := u64_mul (u64_sub gas_limit (ex_gas_used exec_result)) price in
    st (State.add_balance sender gas_refund);;
    let gas_payment := u64_mul (ex_gas_used exec_result) price in
    st (State.add_balance producer gas_payment);;
    ret exec_result
  | inr err =>
    st (State.revert snap);;
    st (State.sub_balance sender cost);;
    st (State.add_balance producer cost);;
    st (State.increment_nonce sender);;
    ret (exec_failure gas_limit (MsgError err))
  end.

(** ** Undelegations that have matured *)

Definition process_one (u : Undelegation) (processed : Z) : EM Z :=
  let! added := attempt (st (State.add_balance (u_delegator u) (u_amount u))) in
  match added with
  | inr _ => ret processed
  | inl _ =>
    let! deleted := attempt (st (State.delete_undelegation (u_delegator u) (u_validator u) (u_unlock_at u))) in
    match deleted with
    | inr _ => ret processed
    | inl _ => ret (wrap 32 (processed + 1))
    end
  end.

Fixpoint process_all (us : list Undelegation) (processed : Z) : EM Z :=
  match us with
  | [] => ret processed
  | u :: us' => let! p := process_one u processed in process_all us' p
  end.

Definition process_mature_undelegations (now_secs : Z) : EM Z :=
  let! mature := attempt (st (State.get_mature_undelegations now_secs)) in
  match mature with
  | inr _ => ret 0
  | inl us => process_all us 0
  end.

(** ** A block's transactions *)

Definition failure_receipt (tx_hash : Hash) (index : nat) (err : Message) (cumulative gas : Z) : Receipt :=
  mkReceipt tx_hash (wrap 32 (Z.of_nat index)) (Failure err) cumulative gas [] Bloom_ZERO None.

(** One transaction: its receipt, with the cumulative gas after it. *)
Definition execute_one (e : Executor) (producer : Address) (index : nat) (tx : Transaction) (cumulative : Z) :
    EM Receipt :=
  let tx_hash := blake3 (to_bytes_without_signature tx) in
  let! validated := attempt (validate_transaction e tx) in
  match validated with
  | inr err =>
    let gas_used := tx_gas_limit tx in
    ret (failure_receipt tx_hash index (MsgError err) (u64_add cumulative gas_used) gas_used)
  | inl signed =>
    let! executed := attempt (execute e signed producer) in
    match executed with
    | inl result =>
      let status := if ex_success result then Success
                    else Failure (default (MsgText EmptyString) (ex_error result)) in
      ret (mkReceipt tx_hash (wrap 32 (Z.of_nat index)) status
             (u64_add cumulative (ex_gas_used result)) (ex_gas_used result) (ex_logs result)
             (create_bloom (ex_logs result)) (ex_contract_address result))
    | inr err =>
      ret (failure_receipt tx_hash index (MsgError err) (u64_add cumulative (tx_gas_limit tx)) (tx_gas_limit tx))
    end
  end.

Fixpoint execute_from (e : Executor) (producer : Address) (index : nat) (txs : list Transaction)
    (receipts : list Receipt) (cumulative : Z) : EM (list Receipt * Z) :=
  match txs with
  | [] => ret (receipts, cumulative)
  | tx :: txs' =>
    let! receipt := execute_one e producer index tx cumulative in
    execute_from e producer (S index) txs' (receipts ++ [receipt]) (r_cumulative_gas_used receipt)
  end.

Definition execute_transactions (e : Executor) (txs : list Transaction) (producer : Address) :
    EM (list Receipt * Z) :=
  execute_from e producer 0 txs [] 0.

End executor.
