(* ===== verification/ExecRefines.v ===== *)
(** * The executor on the state database refines the executor on the model

    Executor.v is written against [State.ops]; run on the database of
    StateDB.v (cache, Merkle trie, key-value store) it gives the results of
    the run on plain maps, and keeps the relation between the two. The model
    stops where the EVM would run; the theorems on the executor are proved on
    the model and hold of the database by this refinement. *)

From S2P Require Import Prelude Externals Nibbles Storage Trie TrieTree TrieTheory TrieMap TrieValues.
From S2P Require Import MerkleProofs Types Crypto StateDB StateTheory StateProps StateOps Receipts Executor.

Section refinement.
Context `{B : Blake3} {BC : CollisionFree B} `{BN : Borsh TrieNode} {BNok : BorshOk TrieNode}
  `{BA : Borsh Account} {BAok : BorshOk Account} `{BL : Borsh LegacyAccount}
  `{BU : Borsh Undelegation} {BUok : BorshOk Undelegation} `{BT : Borsh UnsignedTransaction} `{ED : Ed25519}.
Context {C : Type -> Type -> Type} `{LC : LruCache C} `{LS : !LruSpec C}.
Context {Database : Type} `{RK : RocksDB Database} {RKok : RocksOk Database}.

(** Any EVM on the database; on the model it is a stop. *)
Context (evm_create : Executor -> Address -> Address -> bytes -> Z -> Z ->
  ST (StateDB C Database) ExecutorError EvmResult).
Context (evm_call : Executor -> Address -> Address -> Address -> bytes -> Z -> Z ->
  ST (StateDB C Database) ExecutorError EvmResult).
Definition no_create (e : Executor) (a b : Address) (c : bytes) (x y : Z) : ST model ExecutorError EvmResult := panic.
Definition no_call (e : Executor) (a b c : Address) (d : bytes) (x y : Z) : ST model ExecutorError EvmResult := panic.

Lemma cap_refined d v x :
  refines d (ensure_validator_stake_cap (St:=StateDB C Database) v x) (ensure_validator_stake_cap v x).
Proof. unfold ensure_validator_stake_cap, st. refine_prog. Qed.

Lemma validate_refined d e tx :
  refines d (validate_transaction (St:=StateDB C Database) e tx) (validate_transaction e tx).
Proof. unfold validate_transaction, recover_sender, validate_type, st. refine_prog. Qed.

#[local] Hint Resolve cap_refined : refine.

Lemma dispatch_refined d e tx sender producer :
  refines d (dispatch evm_create evm_call e tx sender producer) (dispatch no_create no_call e tx sender producer).
Proof.
  unfold dispatch, execute_transfer, execute_contract_create, execute_contract_call, execute_stake,
    execute_unstake, execute_validator_register, execute_validator_exit, execute_delegate, execute_undelegate,
    execute_claim_delegation_rewards, amount_or, no_create, no_call, st.
  refine_prog.
Qed.
#[local] Hint Resolve dispatch_refined : refine.

Lemma execute_refined d e stx producer :
  refines d (execute evm_create evm_call e stx producer) (execute no_create no_call e stx producer).
Proof.
  apply refines_snapshot. intros s X Hs.
  assert (refines (db s) (st (State.revert (State.snapshot s))) (st (State.revert (State.snapshot X)))) as Hrev
    by (apply refines_map_err, refines_revert, Hs).
  unfold st in *. refine_prog.
Qed.
#[local] Hint Resolve execute_refined validate_refined : refine.

Lemma mature_refined d now :
  refines d (process_mature_undelegations (St:=StateDB C Database) now) (process_mature_undelegations now).
Proof.
  assert (forall us p, refines d (process_all (St:=StateDB C Database) us p) (process_all us p)) as Hall.
  { induction us as [|u us IH]; intros p; simpl; unfold process_one, st; refine_prog. }
  unfold process_mature_undelegations, st. refine_prog.
Qed.

Lemma one_refined d e producer i tx cum :
  refines d (execute_one evm_create evm_call e producer i tx cum) (execute_one no_create no_call e producer i tx cum).
Proof. unfold execute_one. refine_prog. Qed.

Lemma block_refined d e txs producer :
  refines d (execute_transactions evm_create evm_call e txs producer)
    (execute_transactions no_create no_call e txs producer).
Proof.
  unfold execute_transactions. generalize 0%nat as i, (@nil Receipt) as rs, 0 as g.
  induction txs as [|tx txs IH]; intros i rs g; simpl; unfold execute_one; refine_prog.
Qed.
End refinement.
