(* ===== verification/ExecSpec.v ===== *)
(** * What transactions do to the accounts

    [effect] gives, for every transaction type that does not run the EVM, the
    gas it uses and the accounts and undelegations after it, or its error, as
    a function of the accounts; [dispatch_effect] shows that the executor on
    the model computes it. [wealth] is everything the accounts own: balances,
    stakes, delegations and pending undelegations; a state is [solvent] when
    its integers are at their widths, delegated amounts have a validator and the wealth times 20 fits a U256 (the
    stake cap multiplies by 20), so that no addition overflows or saturates. *)

From S2P Require Import Prelude Externals Nibbles Storage Trie TrieTheory Types Crypto Receipts.
From S2P Require Import StateDB StateTheory StateProps StateOps Executor ExecRefines.

(** ** Funds *)

Definition owns (acc : Account) : Z := balance acc + Acc.get_stake acc + Acc.get_delegated_amount acc.
Definition staked (acc : Account) : Z := Acc.get_stake acc + Acc.get_delegated_amount acc.
Definition delegated_for (v : Address) (acc : Account) : Z :=
  if decide (delegated_to acc = Some v) then Acc.get_delegated_amount acc else 0.

Definition wealth (A : astate) : Z := sum_map owns (accs A) + sum_map u_amount (unds A).
Definition network_stake (A : astate) : Z := sum_map staked (accs A).
Definition validator_stake (v : Address) (A : astate) : Z :=
  Acc.get_stake (account_of A v) + sum_map (delegated_for v) (accs A).

(** Integers at their widths, and no delegated amount without a validator. *)
Definition sane (acc : Account) : Prop :=
  account_ok acc /\ (delegated_to acc = None -> Acc.get_delegated_amount acc = 0).

Definition solvent (A : astate) : Prop :=
  (forall a acc, accs A !! a = Some acc -> sane acc) /\
  (forall k u, unds A !! k = Some u -> 0 <= u_amount u) /\
  MAX_VALIDATOR_STAKE_PERCENT * wealth A < 2 ^ 256.

#[export] Instance sane_dec acc : Decision (sane acc).
Proof. unfold sane, account_ok. apply _. Defined.
#[export] Instance solvent_dec A : Decision (solvent A).
Proof.
  change (Decision (map_Forall (fun _ => sane) (accs A) /\ map_Forall (fun _ u => 0 <= u_amount u) (unds A) /\
    MAX_VALIDATOR_STAKE_PERCENT * wealth A < 2 ^ 256)). apply _.
Defined.

(** The moves transactions make. *)
Definition credit (a : Address) (x : Z) (A : astate) : astate := upd_acc a (Acc.add_balance x) A.
Definition debit (a : Address) (x : Z) (A : astate) : astate :=
  upd_acc a (fun acc => Acc.set_balance (balance acc - x) acc) A.
Definition restake (a : Address) (x : Z) (A : astate) : astate := upd_acc a (Acc.set_stake x) A.
Definition move (from to : Address) (x : Z) (A : astate) : astate :=
  if x =? 0 then A else credit to x (debit from x A).

Definition stake_of (A : astate) (a : Address) : Z := Acc.get_stake (account_of A a).

(** The error of the stake cap, with exact sums. *)
Definition cap_error (v : Address) (added : Z) (A : astate) : option ExecutorError :=
  if (added =? 0) || (network_stake A =? 0) then None else
  let allowed := (network_stake A + added) * MAX_VALIDATOR_STAKE_PERCENT / 100 in
  let after := validator_stake v A + added in
  if allowed <? after then Some (ValidatorStakeTooHigh MAX_VALIDATOR_STAKE_PERCENT allowed after) else None.

Definition amount_of (tx : Transaction) (all : Z) : Z :=
  if (32 <=? length (tx_data tx))%nat then u256_from_be (take 32 (tx_data tx)) else all.

Definition delegate_effect (sender validator : Address) (x : Z) (A : astate) : astate :=
  let A1 := debit sender x A in
  if decide (delegated_to (account_of A sender) = None) then upd_acc sender (Acc.set_delegation validator x) A1
  else upd_acc sender (Acc.add_delegated_amount x) A1.

Definition effect (e : Executor) (tx : Transaction) (sender : Address) (A : astate) :
    (Z * astate) + ExecutorError :=
  let x := tx_value tx in
  let own := stake_of A sender in
  let d := account_of A sender in
  match tx_type tx with
  | Transfer =>
    match tx_to tx with
    | None => inr MissingRecipient
    | Some to => inl (TRANSFER_GAS, move sender to x A)
    end
  | ContractCall =>
    match tx_to tx with
    | None => inr MissingRecipient
    | Some to => inl (u64_add MINIMUM_GAS (data_gas tx), move sender to x A)
    end
  | Stake =>
    if (own =? 0) && (own + x <? MIN_VALIDATOR_STAKE) then inr (StakeTooLow MIN_VALIDATOR_STAKE (own + x)) else
    match cap_error sender x A with
    | Some er => inr er
    | None => inl (MINIMUM_GAS * 2, restake sender (own + x) (debit sender x A))
    end
  | Unstake =>
    let y := amount_of tx own in
    if own <? y then inr (InsufficientBalance y own)
    else inl (MINIMUM_GAS * 2, credit sender y (restake sender (own - y) A))
  | ValidatorRegister =>
    if negb (own =? 0) then inr AlreadyValidator else
    if x <? MIN_VALIDATOR_STAKE then inr (StakeTooLow MIN_VALIDATOR_STAKE x) else
    match cap_error sender x A with
    | Some er => inr er
    | None => inl (MINIMUM_GAS * 3,
                   upd_acc sender (Acc.set_contribution_score 0) (restake sender x (debit sender x A)))
    end
  | ValidatorExit =>
    if own =? 0 then inr NotValidator else inl (MINIMUM_GAS * 2, restake sender 0 (credit sender own A))
  | Delegate =>
    match tx_to tx with
    | None => inr MissingRecipient
    | Some v =>
      if x <? MIN_DELEGATION then inr (DelegationTooLow MIN_DELEGATION x) else
      if bool_decide (delegated_to d <> None /\ delegated_to d <> Some v) then inr AlreadyDelegated else
      if stake_of A v =? 0 then inr InvalidValidator else
      match cap_error v x A with
      | Some er => inr er
      | None => inl (MINIMUM_GAS * 3, delegate_effect sender v x A)
      end
    end
  | Undelegate =>
    match tx_to tx with
    | None => inr MissingRecipient
    | Some v =>
      let y := amount_of tx (delegated_for v d) in
      if decide (delegated_to d = Some v) then
        if Acc.get_delegated_amount d <? y then inr (InsufficientDelegation y (Acc.get_delegated_amount d)) else
        let A1 := upd_acc sender (fun acc => snd (Acc.sub_delegated_amount y acc)) A in
        let unlock_at := u64_add (block_timestamp e / 1000) UNSTAKE_DELAY_SECS in
        inl (MINIMUM_GAS * 3, put_und (mkUndelegation sender v y unlock_at) A1)
      else inr NoDelegation
    end
  | ClaimDelegationRewards =>
    match delegated_to d with None => inr NoDelegation | Some _ => inl (MINIMUM_GAS * 2, A) end
  | InferenceTask => inl (21000, A)
  | ContractCreate => inr EvmError
  end.

(** Transactions that do not run the EVM: no creation, no call to code. *)
Definition native (tx : Transaction) (A : astate) : Prop :=
  tx_type tx <> ContractCreate /\
  (tx_type tx = ContractCall -> forall to, tx_to tx = Some to -> code_hash (account_of A to) = None).

(** Byte strings and integers of a transaction are at their lengths and widths. *)
Definition tx_typed (tx : Transaction) : Prop :=
  tx_ok tx /\ bytes_ok (tx_data tx) /\ forall a, tx_to tx = Some a -> addr_ok a.

(** ** Sums and widths *)

Section funds.
Implicit Types (A : astate) (a : Address) (acc : Account).

Lemma sane_new : sane Acc.new_eoa.
Proof. by split_and!. Qed.

Lemma sane_of A a : solvent A -> sane (account_of A a).
Proof.
  intros (Hacc & _). unfold account_of. destruct (accs A !! a) as [acc|] eqn:E; simpl; [eauto|apply sane_new].
Qed.

Lemma owns_nonneg acc : sane acc -> 0 <= owns acc.
Proof. unfold sane, account_ok, owns, in_u. lia. Qed.

Lemma und_nonneg A : solvent A -> 0 <= sum_map u_amount (unds A).
Proof. intros (_ & Hu & _). by apply sum_map_nonneg. Qed.

Lemma sum_of_le A f a :
  solvent A -> f Acc.new_eoa = 0 -> (forall acc, sane acc -> 0 <= f acc) ->
  f (account_of A a) <= sum_map f (accs A).
Proof.
  intros (Hacc & _) H0 Hf. unfold account_of. destruct (accs A !! a) as [acc|] eqn:E; simpl.
  - apply (sum_map_elem f (accs A) a); [|done]. intros; eauto.
  - rewrite H0. apply sum_map_nonneg. intros; eauto.
Qed.

Lemma owns_le_wealth A a : solvent A -> owns (account_of A a) <= wealth A.
Proof.
  intros H. pose proof (und_nonneg A H). pose proof (sum_of_le A owns a H eq_refl owns_nonneg).
  unfold wealth. lia.
Qed.

Lemma sum_upd A f a g :
  f Acc.new_eoa = 0 ->
  sum_map f (accs (upd_acc a g A)) = sum_map f (accs A) - f (account_of A a) + f (g (account_of A a)).
Proof.
  intros H0. unfold upd_acc, set_acc, account_of. simpl. rewrite sum_map_insert.
  destruct (accs A !! a); simpl; lia.
Qed.

Lemma wealth_upd A a g :
  wealth (upd_acc a g A) = wealth A - owns (account_of A a) + owns (g (account_of A a)).
Proof. unfold wealth. rewrite sum_upd by done. simpl. lia. Qed.

Lemma solvent_upd A a g :
  solvent A -> sane (g (account_of A a)) ->
  MAX_VALIDATOR_STAKE_PERCENT * wealth (upd_acc a g A) < 2 ^ 256 -> solvent (upd_acc a g A).
Proof.
  intros (Hacc & Hu & _) Hok Hw. split_and!; [|done|done].
  intros b acc. simpl. rewrite lookup_insert_Some. intros [[<- <-]|[_ ?]]; eauto.
Qed.

Lemma solvent_bound A : solvent A -> 0 <= wealth A /\ 20 * wealth A < 2 ^ 256.
Proof.
  intros H. pose proof (und_nonneg A H). destruct H as (Hacc & _ & Hw). split; [|done].
  assert (0 <= sum_map owns (accs A)) by (apply sum_map_nonneg; intros; apply owns_nonneg; eauto).
  unfold wealth. lia.
Qed.

(** An update of one account that changes what it owns by [z]. *)
Lemma solvent_step A a g z :
  solvent A -> sane (g (account_of A a)) -> owns (g (account_of A a)) = owns (account_of A a) + z ->
  20 * (wealth A + z) < 2 ^ 256 -> wealth (upd_acc a g A) = wealth A + z /\ solvent (upd_acc a g A).
Proof.
  intros H Hok Hz Hw. assert (wealth (upd_acc a g A) = wealth A + z) as E by (rewrite wealth_upd; lia).
  split; [done|]. apply solvent_upd; [done|done|]. rewrite E. apply Hw.
Qed.

Ltac widths A a H :=
  pose proof (sane_of A a H); pose proof (owns_le_wealth A a H); pose proof (solvent_bound A H);
  unfold sane, account_ok, owns, in_u in *; destruct_and?; unfold Acc.get_stake, Acc.get_delegated_amount in *.

Ltac funds :=
  unfold sane, account_ok, owns, in_u, Acc.get_stake, Acc.get_delegated_amount; simpl;
  try match goal with Hn : ?P -> _ = 0, Hp : ?P |- _ => specialize (Hn Hp) end;
  split_and?; first [lia | done | tauto | intros; simplify_eq; tauto].

Lemma sat_add_small acc x A :
  sane acc -> owns acc <= wealth A -> 0 <= x -> 20 * (wealth A + x) < 2 ^ 256 ->
  u256_sat_add (balance acc) x = balance acc + x.
Proof.
  intros Hok Ho Hx Hw. apply sat_add_exact. unfold sane, account_ok, owns, in_u in *. lia.
Qed.

Lemma credit_step A a x :
  solvent A -> 0 <= x -> 20 * (wealth A + x) < 2 ^ 256 ->
  wealth (credit a x A) = wealth A + x /\ solvent (credit a x A).
Proof.
  intros H Hx Hw. pose proof (sat_add_small _ x A (sane_of A a H) (owns_le_wealth A a H) Hx Hw) as E.
  widths A a H. apply solvent_step; try done; unfold Acc.add_balance; rewrite E;
    funds.
Qed.

Lemma debit_step A a x :
  solvent A -> 0 <= x <= balance (account_of A a) ->
  wealth (debit a x A) = wealth A - x /\ solvent (debit a x A).
Proof.
  intros H Hx. widths A a H. apply (solvent_step A a _ (- x)); try done;
    funds.
Qed.

Lemma restake_step A a x :
  solvent A -> 0 <= x -> 20 * (wealth A + (x - stake_of A a)) < 2 ^ 256 ->
  wealth (restake a x A) = wealth A + (x - stake_of A a) /\ solvent (restake a x A).
Proof.
  intros H Hx Hw. unfold stake_of in *. widths A a H.
  apply (solvent_step A a _ (x - default 0 (stake (account_of A a)))); try done;
    unfold Acc.set_stake; case_decide; funds.
Qed.

Lemma account_of_debit A a x : account_of (debit a x A) a = Acc.set_balance (balance (account_of A a) - x) (account_of A a).
Proof. unfold debit. by rewrite account_of_upd, decide_True. Qed.

Lemma move_step A from to x :
  solvent A -> 0 <= x <= balance (account_of A from) ->
  wealth (move from to x A) = wealth A /\ solvent (move from to x A).
Proof.
  intros H Hx. unfold move. destruct (Z.eqb_spec x 0); [done|].
  destruct (debit_step A from x H Hx) as [W1 H1]. pose proof (solvent_bound A H).
  destruct (credit_step (debit from x A) to x H1) as [W2 H2]; [lia|lia|]. split; [lia|done].
Qed.

Lemma delegate_step A a v x :
  solvent A -> 0 <= x <= balance (account_of A a) ->
  wealth (delegate_effect a v x A) = wealth A /\ solvent (delegate_effect a v x A).
Proof.
  intros H Hx. destruct (debit_step A a x H Hx) as [W1 H1]. pose proof (solvent_bound A H).
  pose proof (account_of_debit A a x) as E. unfold delegate_effect.
  assert (delegated_to (account_of (debit a x A) a) = delegated_to (account_of A a)) as Ed by by rewrite E.
  replace (wealth A) with (wealth (debit a x A) + x) by lia. clear E. rewrite <- Ed. clear Ed.
  set (A1 := debit a x A) in *. widths A1 a H1.
  case_decide as Hd; apply (solvent_step A1 a _ x H1); unfold Acc.add_delegated_amount, u256_sat_add;
    rewrite ?sat_add_exact by (unfold in_u; lia); try lia; funds.
Qed.

Lemma undelegate_step A a v y t :
  solvent A -> delegated_to (account_of A a) = Some v ->
  0 <= y <= Acc.get_delegated_amount (account_of A a) ->
  let A' := put_und (mkUndelegation a v y t) (upd_acc a (fun acc => snd (Acc.sub_delegated_amount y acc)) A) in
  wealth A' = wealth A - default 0 (u_amount <$> unds A !! storage_key a v t) /\ solvent A'.
Proof.
  intros H Hd Hy. widths A a H.
  assert (0 <= default 0 (u_amount <$> unds A !! storage_key a v t)) as Hz
    by (destruct (unds A !! _) eqn:Eu; [by eapply H|done]).
  destruct (solvent_step A a (fun acc => snd (Acc.sub_delegated_amount y acc)) (- y) H) as [W1 (Hs & Hu & Hb)].
  3: lia.
  1-2: unfold Acc.sub_delegated_amount; rewrite (proj2 (Z.leb_le _ _)) by lia; simpl;
    destruct (Z.eqb_spec (default 0 (delegated_amount (account_of A a)) - y) 0); funds.
  assert (wealth (put_und (mkUndelegation a v y t) (upd_acc a (fun acc => snd (Acc.sub_delegated_amount y acc)) A))
    = wealth A - default 0 (u_amount <$> unds A !! storage_key a v t)) as W.
  { unfold wealth in *. simpl in *. rewrite (sum_map_insert u_amount). simpl.
    change (und_key _) with (storage_key a v t). lia. }
  split; [done|]. split_and!; [done| |rewrite W; unfold MAX_VALIDATOR_STAKE_PERCENT; lia].
  intros k u. simpl. rewrite lookup_insert_Some. intros [[_ <-]|[_ ?]]; simpl; [lia|eauto].
Qed.

(** The loops over all accounts compute the sums. *)
Lemma loop_exact A (g : Z -> Account -> Z) f :
  solvent A -> (forall acc, sane acc -> 0 <= f acc <= owns acc) ->
  (forall t acc, 0 <= t -> sane acc -> in_u 256 (t + f acc) -> g t acc = t + f acc) ->
  foldl g 0 (sorted_list (accs A)).*2 = sum_map f (accs A).
Proof.
  intros H Hf Hg. pose proof (solvent_bound A H). pose proof (und_nonneg A H). destruct H as (Hacc & _ & _).
  assert (Forall sane (sorted_list (accs A)).*2) as Hall.
  { apply Forall_fmap, Forall_forall. intros [a acc] Hin%elem_of_sorted_list. simpl. eauto. }
  assert (0 <= sum_map f (accs A) <= sum_map owns (accs A)) as Hr.
  { split; [apply sum_map_nonneg|apply sum_map_le]; intros a acc Ha; apply Hf; eauto. }
  rewrite <- (sum_map_list f (accs A) (sorted_list (accs A))) in * by apply sorted_list_perm.
  rewrite (foldl_add_exact 256 sane g f); [lia| |done|lia|done|].
  - intros acc Hs. by apply Hf.
  - unfold in_u, wealth in *. lia.
Qed.

Lemma staked_part acc : sane acc -> 0 <= staked acc <= owns acc.
Proof. unfold sane, account_ok, owns, staked, in_u. lia. Qed.

Lemma delegated_part v acc : sane acc -> 0 <= delegated_for v acc <= owns acc.
Proof. unfold sane, account_ok, owns, delegated_for, in_u. case_decide; lia. Qed.

Lemma total_stake_exact A : solvent A -> total_stake_of A = network_stake A.
Proof.
  intros H. apply loop_exact; [done| |].
  - apply staked_part.
  - intros t acc Ht Hs. unfold sane, account_ok, staked, in_u in *. intros Hr.
    unfold u256_sat_add. rewrite (sat_add_exact 256 t) by (unfold in_u; lia).
    rewrite sat_add_exact by (unfold in_u; lia). lia.
Qed.

Lemma total_delegated_exact A v : solvent A -> total_delegated_of v A = sum_map (delegated_for v) (accs A).
Proof.
  intros H. apply loop_exact; [done| |].
  - apply delegated_part.
  - intros t acc Ht Hs. unfold delegated_for. case_decide; [|lia]. intros Hr. by apply sat_add_exact.
Qed.

Lemma part_le_wealth A f :
  solvent A -> (forall acc, sane acc -> 0 <= f acc <= owns acc) -> 0 <= sum_map f (accs A) <= wealth A.
Proof.
  intros H Hf. pose proof (und_nonneg A H). destruct H as (Hacc & _). unfold wealth.
  assert (0 <= sum_map f (accs A)) by (apply sum_map_nonneg; intros; apply Hf; eauto).
  assert (sum_map f (accs A) <= sum_map owns (accs A)) by (apply sum_map_le; intros; apply Hf; eauto). lia.
Qed.

(** A balance is not staked. *)
Lemma network_room A a x :
  solvent A -> 0 <= x <= balance (account_of A a) -> 0 <= network_stake A /\ network_stake A + x <= wealth A.
Proof.
  intros H Hx. destruct (debit_step A a x H Hx) as [W H1].
  pose proof (part_le_wealth _ staked H staked_part). pose proof (part_le_wealth _ staked H1 staked_part) as Hp.
  assert (sum_map staked (accs (debit a x A)) = sum_map staked (accs A)) as E
    by (unfold debit; rewrite sum_upd by done; unfold staked, Acc.get_stake, Acc.get_delegated_amount; simpl; lia).
  rewrite E in Hp. unfold network_stake. lia.
Qed.
End funds.

Lemma from_be_nonneg bs : bytes_ok bs -> 0 <= from_be bs.
Proof. intros H. apply from_le_range. by apply Forall_rev. Qed.

(** ** Running the executor on the model *)

Section running.
Context `{B : Blake3} `{BT : Borsh UnsignedTransaction} `{ED : Ed25519}.
Implicit Types X : model.

Lemma run_read {R R'} a (g : Account -> R) (k : R -> ST model ExecutorError R') X :
  addr_ok a -> bind (st (m_read a g)) k X = k (g (account_of (cur X) a)) X.
Proof. intros Ha. unfold m_read, with_addr. by rewrite decide_True. Qed.

Lemma run_write {R'} a f (k : unit -> ST model ExecutorError R') X :
  addr_ok a -> bind (st (m_write a f)) k X = k tt (set_cur (upd_acc a f (cur X)) X).
Proof. intros Ha. unfold m_write, with_addr. by rewrite decide_True. Qed.

Lemma run_sub {R'} a x (k : unit -> ST model ExecutorError R') X :
  addr_ok a -> x <= balance (account_of (cur X) a) ->
  bind (st (m_sub_balance a x)) k X = k tt (set_cur (debit a x (cur X)) X).
Proof.
  intros Ha Hx. unfold m_sub_balance, m_read, m_write, with_addr. rewrite !decide_True by done.
  unfold bind, st, map_err, gets, modify. by rewrite (proj2 (Z.leb_le _ _) Hx).
Qed.

Lemma run_transfer {R'} a b x (k : unit -> ST model ExecutorError R') X :
  addr_ok a -> addr_ok b -> x <= balance (account_of (cur X) a) ->
  bind (st (m_transfer a b x)) k X = k tt (set_cur (move a b x (cur X)) X).
Proof.
  intros Ha Hb Hx. unfold m_transfer, move. destruct (x =? 0); [by destruct X|].
  unfold m_sub_balance, m_read, m_write, with_addr. rewrite !decide_True by done.
  unfold bind, st, map_err, gets, modify. rewrite (proj2 (Z.leb_le _ _)) by done. done.
Qed.

Lemma max_validator_stake_exact t :
  0 <= t -> 20 * t < 2 ^ 256 -> max_validator_stake t = Some (t * MAX_VALIDATOR_STAKE_PERCENT / 100).
Proof.
  intros H0 Ht. unfold max_validator_stake, u256_mul.
  rewrite (proj2 (checked_Some (t * MAX_VALIDATOR_STAKE_PERCENT) (t * MAX_VALIDATOR_STAKE_PERCENT))); [done|].
  split; [done|]. unfold in_u, MAX_VALIDATOR_STAKE_PERCENT. lia.
Qed.

Lemma run_cap v x X :
  addr_ok v -> solvent (cur X) -> 0 <= x -> network_stake (cur X) + x <= wealth (cur X) ->
  ensure_validator_stake_cap v x X =
    (match cap_error v x (cur X) with Some er => Err er | None => Ok tt end, X).
Proof.
  intros Hv H Hx Hr. unfold ensure_validator_stake_cap, cap_error. destruct (Z.eqb_spec x 0); [done|]. simpl orb.
  cbn [State.get_total_stake State.get_stake State.get_total_delegated_to model_ops].
  pose proof (solvent_bound _ H) as Hw. pose proof (owns_le_wealth _ v H). pose proof (sane_of _ v H).
  pose proof (part_le_wealth _ _ H (delegated_part v)). pose proof (part_le_wealth _ _ H staked_part) as Hn.
  erewrite bind_ok by done. rewrite total_stake_exact by done. destruct (_ =? 0); [done|].
  rewrite run_read by done. erewrite bind_ok by done. rewrite total_delegated_exact by done.
  unfold validator_stake, u256_sat_add, sane, account_ok, owns, in_u in *. unfold network_stake in *.
  rewrite !sat_add_exact by (unfold in_u; rewrite ?sat_add_exact by (unfold in_u; lia); lia).
  erewrite bind_or_panic by (apply max_validator_stake_exact; lia). by destruct (_ <? _).
Qed.
End running.

(** Runs the operations at the head of a program on the model. *)
Ltac mrun :=
  repeat (
    cbn [State.get_balance State.add_balance State.sub_balance State.transfer State.get_nonce State.set_nonce
         State.increment_nonce State.get_stake State.set_stake State.set_contribution_score
         State.get_delegation State.get_delegation_amount State.set_delegation State.add_delegation_amount
         model_ops];
    first [ rewrite run_read by done | rewrite run_write by done | rewrite run_sub by (done || lia)
          | rewrite run_transfer by (done || lia) | rewrite bind_ret ]; cbv beta zeta).

(** The outcome on the model that [effect] describes. *)
Definition outcome (X : model) (r : (Z * astate) + ExecutorError) : Result ExecutorError ExecutionResult * model :=
  match r with
  | inl (gas, A') => (Ok (exec_success gas), set_cur A' X)
  | inr er => (Err er, X)
  end.

Section dispatch.
Context `{B : Blake3} `{BT : Borsh UnsignedTransaction} `{ED : Ed25519}.
Context (e : Executor) (tx : Transaction) (sender producer : Address) (X : model).
Context (Hty : tx_typed tx) (Hsender : addr_ok sender) (Hs : solvent (cur X)).
Context (Hv : tx_value tx <= balance (account_of (cur X) sender)).

Lemma value_nonneg : 0 <= tx_value tx.
Proof. destruct Hty as ((_ & Hx & _) & _). unfold in_u in Hx. lia. Qed.

Lemma room : network_stake (cur X) + tx_value tx <= wealth (cur X).
Proof. apply (network_room _ sender); [done|]. pose proof value_nonneg. lia. Qed.

Lemma run_stake : tx_type tx = Stake -> execute_stake tx sender X = outcome X (effect e tx sender (cur X)).
Proof.
  intros Ht. unfold execute_stake, effect. rewrite Ht. pose proof value_nonneg. pose proof (solvent_bound _ Hs).
  pose proof (owns_le_wealth _ sender Hs). pose proof (sane_of _ sender Hs). mrun. unfold stake_of.
  erewrite bind_or_panic by (apply checked_Some; split; [done|]; unfold sane, account_ok, owns, in_u in *; lia).
  destruct (_ && _); [done|].
  pose proof (run_cap sender (tx_value tx) X Hsender Hs value_nonneg room) as Hcap.
  destruct (cap_error _ _ _); [by rewrite (bind_err _ _ _ _ _ Hcap)|]. rewrite (bind_ok _ _ _ _ _ Hcap). by mrun.
Qed.

Lemma run_transfer_tx : tx_type tx = Transfer -> execute_transfer tx sender X = outcome X (effect e tx sender (cur X)).
Proof.
  intros Ht. unfold execute_transfer, effect. rewrite Ht. destruct Hty as (_ & _ & Hto).
  destruct (tx_to tx) as [to|]; [|done]. specialize (Hto to eq_refl). cbn [ok_or]. by mrun.
Qed.

Lemma run_call : tx_type tx = ContractCall -> native tx (cur X) ->
  execute_contract_call no_call e tx sender producer X = outcome X (effect e tx sender (cur X)).
Proof.
  intros Ht [_ Hn]. unfold execute_contract_call, effect. rewrite Ht. destruct Hty as (_ & _ & Hto).
  destruct (tx_to tx) as [to|]; [|done]. specialize (Hto to eq_refl). specialize (Hn Ht to eq_refl).
  cbn [ok_or]. rewrite bind_ret.
  assert (st (State.get_code to) X = (Ok [], X)) as Hc.
  { cbn [State.get_code model_ops]. unfold with_addr, st, map_err, gets, model_code.
    rewrite decide_True by done. by rewrite Hn. }
  rewrite (bind_ok _ _ _ _ _ Hc), decide_True by done.
  destruct (Z.eqb_spec (tx_value tx) 0) as [E|]; [|by mrun].
  unfold move. rewrite E. simpl. by destruct X.
Qed.

Lemma run_amount {R} (all : ST model ExecutorError Z) z (k : Z -> ST model ExecutorError R) :
  all X = (Ok z, X) -> bind (amount_or tx all) k X = k (amount_of tx z) X.
Proof.
  intros Ha. unfold amount_or, amount_of. destruct (32 <=? length (tx_data tx))%nat; [done|].
  by rewrite (bind_ok _ _ _ _ _ Ha).
Qed.

Lemma amount_nonneg z : 0 <= z -> 0 <= amount_of tx z.
Proof.
  intros Hz. unfold amount_of. destruct (32 <=? length (tx_data tx))%nat; [|done].
  destruct Hty as (_ & Hd & _). apply from_be_nonneg. by apply Forall_take.
Qed.

Lemma read_once {R} a (g : Account -> R) : addr_ok a -> st (m_read a g) X = (Ok (g (account_of (cur X) a)), X).
Proof. intros Ha. unfold m_read, with_addr. by rewrite decide_True. Qed.

Lemma run_unstake : tx_type tx = Unstake -> execute_unstake tx sender X = outcome X (effect e tx sender (cur X)).
Proof.
  intros Ht. unfold execute_unstake, effect. rewrite Ht. pose proof (solvent_bound _ Hs).
  pose proof (owns_le_wealth _ sender Hs). pose proof (sane_of _ sender Hs) as Hsane.
  rewrite (run_amount _ (stake_of (cur X) sender)) by (by apply read_once). mrun. unfold stake_of.
  set (own := Acc.get_stake (account_of (cur X) sender)).
  assert (0 <= own < 2 ^ 256) as Hown by (unfold sane, account_ok, in_u in Hsane; lia).
  pose proof (amount_nonneg own ltac:(lia)). destruct (Z.ltb_spec own (amount_of tx own)); [done|].
  erewrite bind_or_panic by (apply checked_Some; split; [done|]; unfold in_u; lia). by mrun.
Qed.

Lemma run_register : tx_type tx = ValidatorRegister ->
  execute_validator_register tx sender X = outcome X (effect e tx sender (cur X)).
Proof.
  intros Ht. unfold execute_validator_register, effect. rewrite Ht. mrun. unfold stake_of.
  destruct (negb _); [done|]. destruct (_ <? _); [done|].
  pose proof (run_cap sender (tx_value tx) X Hsender Hs value_nonneg room) as Hcap.
  destruct (cap_error _ _ _); [by rewrite (bind_err _ _ _ _ _ Hcap)|]. rewrite (bind_ok _ _ _ _ _ Hcap). by mrun.
Qed.

Lemma run_exit : tx_type tx = ValidatorExit ->
  execute_validator_exit sender X = outcome X (effect e tx sender (cur X)).
Proof.
  intros Ht. unfold execute_validator_exit, effect. rewrite Ht. mrun. unfold stake_of.
  destruct (_ =? 0); [done|]. by mrun.
Qed.

Lemma run_delegate : tx_type tx = Delegate -> execute_delegate tx sender X = outcome X (effect e tx sender (cur X)).
Proof.
  intros Ht. unfold execute_delegate, effect. rewrite Ht. destruct Hty as (_ & _ & Hto).
  destruct (tx_to tx) as [v|]; [|done]. specialize (Hto v eq_refl). cbn [ok_or]. mrun.
  destruct (_ <? _); [done|]. mrun. destruct (bool_decide _); [done|]. mrun. unfold stake_of.
  destruct (_ =? 0); [done|].
  pose proof (run_cap v (tx_value tx) X Hto Hs value_nonneg room) as Hcap.
  destruct (cap_error _ _ _); [by rewrite (bind_err _ _ _ _ _ Hcap)|]. rewrite (bind_ok _ _ _ _ _ Hcap). mrun.
  unfold delegate_effect. case_decide; by mrun.
Qed.

Lemma run_undelegate : tx_type tx = Undelegate ->
  execute_undelegate e tx sender X = outcome X (effect e tx sender (cur X)).
Proof.
  intros Ht. unfold execute_undelegate, effect. rewrite Ht. destruct Hty as (_ & _ & Hto).
  destruct (tx_to tx) as [v|]; [|done]. specialize (Hto v eq_refl). cbn [ok_or]. rewrite bind_ret.
  rewrite (run_amount _ (delegated_for v (account_of (cur X) sender))) by (by apply read_once). mrun.
  case_decide as Hd; [|done].
  set (y := amount_of tx (delegated_for v (account_of (cur X) sender))).
  destruct (Z.ltb_spec (Acc.get_delegated_amount (account_of (cur X) sender)) y); [done|].
  erewrite bind_ok; [|cbn [State.sub_delegation_amount model_ops]; unfold st, map_err, m_read, m_write, with_addr;
    rewrite !decide_True by done; rewrite bind_gets, (proj2 (Z.leb_le _ _)) by done; done].
  erewrite bind_ok; [|cbn [State.store_undelegation model_ops]; unfold st, map_err, with_addr;
    rewrite decide_True by done; done]. done.
Qed.

(** The executor on the model computes [effect]. *)
Lemma dispatch_effect : native tx (cur X) ->
  dispatch no_create no_call e tx sender producer X = outcome X (effect e tx sender (cur X)).
Proof.
  intros Hn. unfold dispatch. destruct (tx_type tx) eqn:Ht; try (destruct Hn; congruence).
  - by apply run_transfer_tx.
  - by apply run_call.
  - by apply run_stake.
  - by apply run_unstake.
  - by apply run_register.
  - by apply run_exit.
  - by apply run_delegate.
  - by apply run_undelegate.
  - unfold execute_claim_delegation_rewards, effect. rewrite Ht. mrun.
    destruct (delegated_to _); [by destruct X|done].
  - unfold effect. rewrite Ht. by destruct X.
Qed.
End dispatch.
