(* ===== verification/ExecTheory.v ===== *)
(** * Theory of the executor

    Lemmas on the executor run on the model: prepayment, settlement and the
    failure path, conservation of the funds by every transaction type, the
    gas arithmetic, stakes and nonces, validation, matured undelegations, and
    one transaction of a block. *)

From S2P Require Import Prelude Externals Nibbles Storage Trie TrieTree TrieTheory TrieMap Types Crypto Receipts.
From S2P Require Import StateDB StateTheory StateProps StateOps Executor ExecRefines ExecSpec.

(** The accounts when a transaction starts: gas prepaid, nonce advanced unless
    the transaction is of an EVM type. *)
Definition prepaid (tx : Transaction) (sender : Address) (A : astate) : astate :=
  let A1 := debit sender (tx_gas_price tx * tx_gas_limit tx) A in
  if evm_tx tx then A1 else upd_acc sender Acc.increment_nonce A1.

(** The accounts after a transaction that used [gas]: the EVM types' nonce,
    the refund, the producer's payment. *)
Definition settled (tx : Transaction) (sender producer : Address) (gas : Z) (A : astate) : astate :=
  let A1 := if evm_tx tx then upd_acc sender (Acc.set_nonce (u64_add (tx_nonce tx) 1)) A else A in
  credit producer (u64_mul gas (low_u64 (tx_gas_price tx)))
    (credit sender (u64_mul (u64_sub (tx_gas_limit tx) gas) (low_u64 (tx_gas_price tx))) A1).

(** The accounts after a failed transaction. *)
Definition charged (tx : Transaction) (sender producer : Address) (A : astate) : astate :=
  let cost := tx_gas_price tx * tx_gas_limit tx in
  upd_acc sender Acc.increment_nonce (credit producer cost (debit sender cost A)).

(** What validation establishes of the funds, and the widths. *)
Definition admissible (stx : SignedTransaction) (A : astate) : Prop :=
  tx_typed (st_tx stx) /\ addr_ok (st_sender stx) /\ native (st_tx stx) A /\
  tx_value (st_tx stx) + tx_gas_price (st_tx stx) * tx_gas_limit (st_tx stx) <= balance (account_of A (st_sender stx)).

(** The amount of the pending undelegation that has the key of the one the
    transaction stores, and that it overwrites. *)
Definition overwritten (e : Executor) (stx : SignedTransaction) (A : astate) : Z :=
  match tx_type (st_tx stx), tx_to (st_tx stx) with
  | Undelegate, Some v =>
    default 0 (u_amount <$>
      unds A !! storage_key (st_sender stx) v (u64_add (block_timestamp e / 1000) UNSTAKE_DELAY_SECS))
  | _, _ => 0
  end.

Section effects.
Implicit Types (A : astate).

Lemma stake_of_nonneg A a : solvent A -> 0 <= stake_of A a.
Proof. intros Hs. pose proof (sane_of A a Hs) as H. unfold sane, account_ok, in_u in H. unfold stake_of. lia. Qed.

Lemma lock_step A a x :
  solvent A -> 0 <= x <= balance (account_of A a) ->
  wealth (restake a (stake_of A a + x) (debit a x A)) = wealth A /\
  solvent (restake a (stake_of A a + x) (debit a x A)).
Proof.
  intros Hs Hx. destruct (debit_step A a x Hs Hx) as [W H1]. pose proof (solvent_bound A Hs).
  assert (stake_of (debit a x A) a = stake_of A a) as E by (unfold stake_of; by rewrite account_of_debit).
  pose proof (stake_of_nonneg A a Hs).
  destruct (restake_step (debit a x A) a (stake_of A a + x) H1) as [W2 H2]; rewrite ?E; [lia|lia|].
  rewrite E in W2. split; [lia|done].
Qed.

Lemma unlock_step A a y :
  solvent A -> 0 <= y <= stake_of A a ->
  wealth (credit a y (restake a (stake_of A a - y) A)) = wealth A /\
  solvent (credit a y (restake a (stake_of A a - y) A)).
Proof.
  intros Hs Hy. pose proof (solvent_bound A Hs).
  destruct (restake_step A a (stake_of A a - y) Hs) as [W1 H1]; [lia|lia|].
  destruct (credit_step (restake a (stake_of A a - y) A) a y H1) as [W2 H2]; [lia|lia|]. split; [lia|done].
Qed.

(** Fields that hold no funds. *)
Lemma keep_step A a g :
  solvent A -> sane (g (account_of A a)) -> owns (g (account_of A a)) = owns (account_of A a) ->
  wealth (upd_acc a g A) = wealth A /\ solvent (upd_acc a g A).
Proof.
  intros Hs Hg Ho. pose proof (solvent_bound A Hs). destruct (solvent_step A a g 0 Hs Hg) as [W H1]; [lia|lia|].
  split; [lia|done].
Qed.
Lemma upd_upd A a f g : upd_acc a g (upd_acc a f A) = upd_acc a (fun acc => g (f acc)) A.
Proof.
  unfold upd_acc at 1. rewrite account_of_upd, decide_True by done.
  unfold upd_acc, set_acc. simpl. by rewrite insert_insert_eq.
Qed.

Lemma exit_step A a :
  solvent A ->
  wealth (restake a 0 (credit a (stake_of A a) A)) = wealth A /\ solvent (restake a 0 (credit a (stake_of A a) A)).
Proof.
  intros Hs. pose proof (solvent_bound A Hs). pose proof (sane_of A a Hs) as Hsane.
  pose proof (owns_le_wealth A a Hs). unfold restake, credit. rewrite upd_upd.
  assert (u256_sat_add (balance (account_of A a)) (stake_of A a) = balance (account_of A a) + stake_of A a) as E
    by (apply sat_add_exact; unfold stake_of, sane, account_ok, owns, in_u in *; lia).
  apply keep_step; [done| |]; unfold Acc.set_stake, Acc.add_balance; rewrite E; unfold stake_of;
    unfold sane, account_ok, owns, in_u, Acc.get_stake, Acc.get_delegated_amount in *;
    case_decide; simpl; split_and?; first [lia|tauto].
Qed.


(** Before gas is settled, no transaction creates or destroys funds, except
    for an undelegation record that it overwrites. *)
Lemma effect_conserves e stx A gas A' :
  solvent A -> tx_typed (st_tx stx) -> tx_value (st_tx stx) <= balance (account_of A (st_sender stx)) ->
  effect e (st_tx stx) (st_sender stx) A = inl (gas, A') ->
  wealth A' = wealth A - overwritten e stx A /\ solvent A'.
Proof.
  destruct stx as [tx h sender]. unfold overwritten. cbn [st_tx st_sender]. intros Hs Hty Hv. unfold effect.
  pose proof (value_nonneg tx Hty) as Hx. pose proof (stake_of_nonneg A sender Hs) as Hown.
  destruct (tx_type tx) eqn:Ht; rewrite ?Z.sub_0_r.
  - destruct (tx_to tx); [|done]. intros [= <- <-]. by apply move_step.
  - done.
  - destruct (tx_to tx); [|done]. intros [= <- <-]. by apply move_step.
  - destruct (_ && _); [done|]. destruct (cap_error _ _ _); [done|]. intros [= <- <-]. by apply lock_step.
  - pose proof (amount_nonneg tx Hty _ Hown). destruct (Z.ltb_spec (stake_of A sender) (amount_of tx (stake_of A sender)));
      [done|]. intros [= <- <-]. by apply unlock_step.
  - destruct (Z.eqb_spec (stake_of A sender) 0) as [E|]; [|done]. simpl negb.
    destruct (_ <? _); [done|]. destruct (cap_error _ _ _); [done|]. intros [= <- <-].
    destruct (lock_step A sender (tx_value tx) Hs ltac:(lia)) as [W1 H1]. rewrite E, Z.add_0_l in W1, H1.
    rewrite <- W1. by apply keep_step; [|destruct (sane_of _ sender H1)|].
  - destruct (_ =? 0); [done|]. intros [= <- <-]. by apply exit_step.
  - destruct (tx_to tx); [|done]. destruct (_ <? _); [done|]. destruct (bool_decide _); [done|].
    destruct (_ =? 0); [done|]. destruct (cap_error _ _ _); [done|]. intros [= <- <-]. by apply delegate_step.
  - destruct (tx_to tx) as [v|]; [|done]. case_decide as Hd; [|done].
    set (y := amount_of tx _). destruct (Z.ltb_spec (Acc.get_delegated_amount (account_of A sender)) y); [done|].
    assert (0 <= y) by (apply amount_nonneg; [done|]; apply delegated_part, sane_of, Hs).
    intros [= <- <-]. by apply undelegate_step.
  - destruct (delegated_to _); [|done]. by intros [= <- <-].
  - by intros [= <- <-].
Qed.
End effects.

Section execution.
Context `{B : Blake3} `{BT : Borsh UnsignedTransaction} `{ED : Ed25519}.
Context (e : Executor) (stx : SignedTransaction) (producer : Address) (X : model).
Context (Hp : addr_ok producer) (Hadm : admissible stx (cur X)) (Hs : solvent (cur X)).

#[local] Abbreviation tx := (st_tx stx).
#[local] Abbreviation sender := (st_sender stx).
#[local] Abbreviation cost := (tx_gas_price tx * tx_gas_limit tx).

Lemma cost_range : 0 <= cost <= balance (account_of (cur X) sender) /\ gas_cost tx = Some cost.
Proof.
  destruct Hadm as (((_ & Hv & Hl & Hg) & _) & _ & _ & Hb). destruct (sane_of (cur X) sender Hs) as ((Hbal & _) & _).
  assert (0 <= cost) as H0 by (unfold in_u in *; nia). unfold gas_cost, u256_mul.
  rewrite checked_Some. unfold in_u in *. revert Hb H0. generalize cost as c. lia.
Qed.

Lemma prepaid_account : account_of (prepaid tx sender (cur X)) sender =
  let acc := Acc.set_balance (balance (account_of (cur X) sender) - cost) (account_of (cur X) sender) in
  if evm_tx tx then acc else Acc.increment_nonce acc.
Proof.
  unfold prepaid, debit. destruct (evm_tx tx); repeat rewrite account_of_upd, decide_True by done; done.
Qed.

Lemma increment_step A a : solvent A ->
  wealth (upd_acc a Acc.increment_nonce A) = wealth A /\ solvent (upd_acc a Acc.increment_nonce A).
Proof.
  intros H. pose proof (sane_of A a H) as Hsane. apply keep_step; [done| |done].
  unfold sane, account_ok in *. destruct_and!. split_and!; try done. apply sat_add_range; unfold in_u in *; lia.
Qed.

Lemma prepaid_step :
  wealth (prepaid tx sender (cur X)) = wealth (cur X) - cost /\ solvent (prepaid tx sender (cur X)) /\
  tx_value tx <= balance (account_of (prepaid tx sender (cur X)) sender) /\
  native tx (prepaid tx sender (cur X)).
Proof.
  destruct cost_range as [Hc _]. destruct (debit_step (cur X) sender cost Hs Hc) as [W H1].
  destruct (increment_step (debit sender cost (cur X)) sender H1) as [W2 H2].
  destruct Hadm as (_ & _ & [Hn1 Hn2] & Hb).
  split_and!; [unfold prepaid; destruct (evm_tx tx); congruence|unfold prepaid; by destruct (evm_tx tx)| |].
  - rewrite prepaid_account. destruct (evm_tx tx); simpl; lia.
  - split; [done|]. intros Ht to Hto. specialize (Hn2 Ht to Hto).
    unfold prepaid, evm_tx, debit. rewrite Ht, account_of_upd. by case_decide; [subst|].
Qed.

(** Up to the dispatch, the model prepays. *)
Lemma run_prepay {R} (k : unit -> ST model ExecutorError R) :
  bind (st (State.sub_balance sender cost)) (fun _ =>
    bind (if evm_tx tx then ret tt else (st (State.increment_nonce sender);; ret tt)) k) X =
  k tt (set_cur (prepaid tx sender (cur X)) X).
Proof.
  destruct cost_range as [Hc _]. destruct Hadm as (_ & Ha & _). mrun. unfold prepaid.
  destruct (evm_tx tx); mrun; [done|].
  assert (forall Y, st (State.increment_nonce sender) Y =
    (Ok (nonce (account_of (upd_acc sender Acc.increment_nonce (cur Y)) sender)),
     set_cur (upd_acc sender Acc.increment_nonce (cur Y)) Y)) as Hinc.
  { intros Y. cbn [State.increment_nonce model_ops]. unfold m_write, m_read, with_addr.
    by rewrite !decide_True by done. }
  erewrite bind_ok; [|erewrite bind_ok by apply Hinc; done]. done.
Qed.

Lemma run_execute_ok gas A' :
  effect e tx sender (prepaid tx sender (cur X)) = inl (gas, A') ->
  execute no_create no_call e stx producer X =
    (Ok (exec_success gas), set_cur (settled tx sender producer gas A') X).
Proof.
  intros Heff. destruct cost_range as [Hc Hgc]. destruct prepaid_step as (W & Hsp & Hv & Hn).
  destruct Hadm as (Hty & Ha & _). unfold execute.
  rewrite bind_gets, (bind_or_panic _ _ _ _ Hgc), run_prepay.
  erewrite bind_ok; [|unfold attempt; rewrite dispatch_effect by done; cbn [cur set_cur];
    rewrite Heff; done].
  cbv beta iota. unfold settled. destruct (evm_tx tx); mrun; done.
Qed.

Lemma run_execute_err er :
  accs (cur X) = com X -> effect e tx sender (prepaid tx sender (cur X)) = inr er ->
  execute no_create no_call e stx producer X =
    (Ok (exec_failure (tx_gas_limit tx) (MsgError er)), set_cur (charged tx sender producer (cur X)) X).
Proof.
  intros Hcom Heff. destruct cost_range as [Hc Hgc]. destruct prepaid_step as (W & Hsp & Hv & Hn).
  destruct Hadm as (Hty & Ha & _). unfold execute.
  rewrite bind_gets, (bind_or_panic _ _ _ _ Hgc), run_prepay.
  erewrite bind_ok; [|unfold attempt; rewrite dispatch_effect by done; cbn [cur set_cur];
    rewrite Heff; done].
  cbv beta iota.
  assert (st (State.revert (State.snapshot X)) (set_cur (prepaid tx sender (cur X)) X) = (Ok tt, X)) as Hrev.
  { cbn [State.revert State.snapshot model_ops]. unfold m_revert, st, map_err. rewrite decide_True by done.
    unfold modify. simpl. f_equal. destruct X as [[ac un] co cs]. simpl in *. subst co. f_equal. f_equal.
    unfold prepaid. by destruct (evm_tx tx). }
  rewrite (bind_ok _ _ _ _ _ Hrev). mrun.
  erewrite bind_ok; [|cbn [State.increment_nonce model_ops]; unfold m_write, m_read, with_addr;
    rewrite !decide_True by done; done]. done.
Qed.

Lemma run_execute_stop er :
  accs (cur X) <> com X -> effect e tx sender (prepaid tx sender (cur X)) = inr er ->
  fst (execute no_create no_call e stx producer X) = Panic.
Proof.
  intros Hcom Heff. destruct cost_range as [Hc Hgc]. destruct prepaid_step as (W & Hsp & Hv & Hn).
  destruct Hadm as (Hty & Ha & _). unfold execute.
  rewrite bind_gets, (bind_or_panic _ _ _ _ Hgc), run_prepay.
  erewrite bind_ok; [|unfold attempt; rewrite dispatch_effect by done; cbn [cur set_cur];
    rewrite Heff; done].
  cbv beta iota. cbn [State.revert State.snapshot model_ops]. unfold m_revert. by rewrite decide_False.
Qed.

Lemma charged_step : wealth (charged tx sender producer (cur X)) = wealth (cur X) /\
  solvent (charged tx sender producer (cur X)).
Proof.
  destruct cost_range as [Hc _]. pose proof (solvent_bound _ Hs).
  destruct (debit_step (cur X) sender cost Hs Hc) as [W1 H1].
  destruct (credit_step (debit sender cost (cur X)) producer cost H1) as [W2 H2]; [lia|lia|].
  destruct (increment_step _ sender H2) as [W3 H3]. unfold charged. split; [lia|done].
Qed.

(** What settling adds to the funds. *)
Lemma settled_step gas A' :
  solvent A' -> 0 <= gas < 2 ^ 64 ->
  let refund := u64_mul (u64_sub (tx_gas_limit tx) gas) (low_u64 (tx_gas_price tx)) in
  let payment := u64_mul gas (low_u64 (tx_gas_price tx)) in
  20 * (wealth A' + refund + payment) < 2 ^ 256 ->
  wealth (settled tx sender producer gas A') = wealth A' + refund + payment /\
  solvent (settled tx sender producer gas A').
Proof.
  intros HA Hg refund payment Hb. unfold settled. fold refund payment.
  assert (0 <= refund /\ 0 <= payment) as [Hr0 Hp0]
    by (split; apply (wrap_range 64); lia).
  set (A1 := if evm_tx tx then _ else _).
  assert (wealth A1 = wealth A' /\ solvent A1) as [W1 H1].
  { unfold A1. destruct (evm_tx tx); [|done]. apply keep_step; [done| |done].
    pose proof (sane_of A' sender HA) as Hsane. unfold sane, account_ok in *. destruct_and!.
    split_and!; try done. apply (wrap_range 64). lia. }
  destruct (credit_step A1 sender refund H1) as [W2 H2]; [done|lia|].
  destruct (credit_step (credit sender refund A1) producer payment H2) as [W3 H3]; [done|lia|].
  split; [lia|done].
Qed.
End execution.

(** ** Gas *)

(** The gas a transaction that does not run the EVM uses. *)
Definition gas_of (tx : Transaction) : Z :=
  match tx_type tx with
  | Transfer | InferenceTask => 21000
  | ContractCall => u64_add MINIMUM_GAS (data_gas tx)
  | Stake | Unstake | ValidatorExit | ClaimDelegationRewards => MINIMUM_GAS * 2
  | _ => MINIMUM_GAS * 3
  end.

Section gas.

Lemma effect_gas e tx sender A gas A' : effect e tx sender A = inl (gas, A') -> gas = gas_of tx.
Proof.
  unfold effect, gas_of. intros H. destruct (tx_type tx); repeat case_match; by simplify_eq.
Qed.

Lemma gas_of_range tx : in_u 64 (gas_of tx).
Proof.
  unfold gas_of, in_u. destruct (tx_type tx); try (unfold MINIMUM_GAS; lia). by apply (wrap_range 64).
Qed.

Lemma refund_exact gas limit price :
  0 <= gas <= limit -> 0 < limit < 2 ^ 64 -> 0 <= price -> limit * price < 2 ^ 64 ->
  u64_mul (u64_sub limit gas) (low_u64 price) + u64_mul gas (low_u64 price) = price * limit.
Proof.
  intros Hg Hl Hp Hb. assert (price < 2 ^ 64) by nia. unfold low_u64, u64_mul, u64_sub.
  rewrite (wrap_small 64 price), (wrap_small 64 (limit - gas)) by (unfold in_u; lia).
  rewrite !wrap_small by (unfold in_u; nia). nia.
Qed.

(** With less gas than is used, the refund wraps around. *)
Lemma refund_wraps gas limit price :
  0 <= limit < gas -> 0 < price -> gas < 2 ^ 64 -> gas * price < 2 ^ 64 ->
  u64_mul (u64_sub limit gas) (low_u64 price) + u64_mul gas (low_u64 price) = price * limit + 2 ^ 64.
Proof.
  intros Hg Hp Hl Hb. assert (price < 2 ^ 64) by nia. unfold low_u64, u64_mul, u64_sub.
  rewrite (wrap_small 64 price) by (unfold in_u; lia). rewrite (wrap_small 64 (gas * price)) by (unfold in_u; nia).
  unfold wrap. rewrite Z.mul_mod_idemp_l by done.
  replace ((limit - gas) * price) with (2 ^ 64 - (gas - limit) * price + (-1) * 2 ^ 64) by lia.
  rewrite Z.mod_add, Z.mod_small by (done || nia). nia.
Qed.
End gas.

(** ** Settling a success *)

Section settling.
Context (e : Executor) (stx : SignedTransaction) (producer : Address) (X : model).
Context (Hadm : admissible stx (cur X)) (Hs : solvent (cur X)).

(** The funds after a success, whatever refund and payment sum to. *)
Lemma success_funds gas A' z :
  effect e (st_tx stx) (st_sender stx) (prepaid (st_tx stx) (st_sender stx) (cur X)) = inl (gas, A') ->
  u64_mul (u64_sub (tx_gas_limit (st_tx stx)) gas) (low_u64 (tx_gas_price (st_tx stx))) +
    u64_mul gas (low_u64 (tx_gas_price (st_tx stx))) = tx_gas_price (st_tx stx) * tx_gas_limit (st_tx stx) + z ->
  20 * (wealth (cur X) + z) < 2 ^ 256 ->
  wealth (settled (st_tx stx) (st_sender stx) producer gas A') = wealth (cur X) - overwritten e stx (cur X) + z /\
  solvent (settled (st_tx stx) (st_sender stx) producer gas A').
Proof.
  intros Heff Hr Hz. destruct (prepaid_step stx X Hadm Hs) as (W & Hsp & Hv & Hn).
  destruct (effect_conserves e stx _ gas A' Hsp (proj1 Hadm) Hv Heff) as [W2 H2].
  assert (overwritten e stx (prepaid (st_tx stx) (st_sender stx) (cur X)) = overwritten e stx (cur X)) as Eo
    by (unfold prepaid; by destruct (evm_tx (st_tx stx))).
  assert (0 <= overwritten e stx (cur X)) as Ho.
  { unfold overwritten. destruct (tx_type (st_tx stx)), (tx_to (st_tx stx)); try done.
    destruct (unds (cur X) !! _) eqn:Eu; [|done]. by eapply Hs. }
  apply effect_gas in Heff as Hgas. pose proof (gas_of_range (st_tx stx)) as Hrange. rewrite <- Hgas in Hrange.
  revert Hr W. generalize (tx_gas_price (st_tx stx) * tx_gas_limit (st_tx stx)) as cost. intros cost Hr W.
  destruct (settled_step stx producer gas A' H2 Hrange) as [W3 H3]; [lia|]. split; [lia|done].
Qed.

Lemma success_step gas A' :
  0 < gas <= tx_gas_limit (st_tx stx) -> tx_gas_limit (st_tx stx) * tx_gas_price (st_tx stx) < 2 ^ 64 ->
  effect e (st_tx stx) (st_sender stx) (prepaid (st_tx stx) (st_sender stx) (cur X)) = inl (gas, A') ->
  wealth (settled (st_tx stx) (st_sender stx) producer gas A') = wealth (cur X) - overwritten e stx (cur X) /\
  solvent (settled (st_tx stx) (st_sender stx) producer gas A').
Proof.
  intros Hg Hpr Heff. destruct (success_funds gas A' 0 Heff) as [W H2].
  - destruct Hadm as (((_ & _ & Hl & Hgp) & _) & _). unfold in_u in *. rewrite Z.add_0_r.
    apply refund_exact; [lia|lia|lia|done].
  - pose proof (solvent_bound _ Hs). lia.
  - split; [lia|done].
Qed.
End settling.

(** ** Stakes and nonces *)

Section stakes.
Implicit Types A : astate.

Definition same_stakes (A A' : astate) : Prop :=
  network_stake A' = network_stake A /\ forall v, validator_stake v A' = validator_stake v A.

#[export] Instance same_stakes_preorder : PreOrder same_stakes.
Proof.
  split; [by intros A|]. intros A1 A2 A3 [H1 H2] [H3 H4]. split; [congruence|]. intros v. by rewrite H4.
Qed.

Lemma validator_stake_upd A a f v :
  validator_stake v (upd_acc a f A) =
    validator_stake v A
    + (if decide (v = a) then Acc.get_stake (f (account_of A a)) - Acc.get_stake (account_of A a) else 0)
    + (delegated_for v (f (account_of A a)) - delegated_for v (account_of A a)).
Proof.
  unfold validator_stake. rewrite account_of_upd, sum_upd; [|unfold delegated_for; by case_decide].
  case_decide as Hv; [subst|]; lia.
Qed.

Lemma network_stake_upd A a f :
  network_stake (upd_acc a f A) = network_stake A - staked (account_of A a) + staked (f (account_of A a)).
Proof. unfold network_stake. by rewrite sum_upd. Qed.

Lemma same_stakes_upd A a f :
  (forall acc, stake (f acc) = stake acc /\ delegated_to (f acc) = delegated_to acc /\
     delegated_amount (f acc) = delegated_amount acc) -> same_stakes A (upd_acc a f A).
Proof.
  intros Hf. destruct (Hf (account_of A a)) as (E1 & E2 & E3). split.
  - rewrite network_stake_upd. unfold staked, Acc.get_stake, Acc.get_delegated_amount. rewrite E1, E3. lia.
  - intros v. rewrite validator_stake_upd. unfold delegated_for, Acc.get_stake, Acc.get_delegated_amount.
    rewrite E1, E2, E3. case_decide; lia.
Qed.

Lemma prepaid_stakes tx sender A : same_stakes A (prepaid tx sender A).
Proof.
  unfold prepaid, debit. destruct (evm_tx tx); [by apply same_stakes_upd|].
  etransitivity; by apply same_stakes_upd.
Qed.

Lemma settled_stakes tx sender producer gas A : same_stakes A (settled tx sender producer gas A).
Proof.
  unfold settled, credit. do 2 (etransitivity; [|by apply same_stakes_upd]).
  destruct (evm_tx tx); [by apply same_stakes_upd|done].
Qed.

Lemma set_stake_fields x acc :
  stake (Acc.set_stake x acc) = Some x /\ delegated_to (Acc.set_stake x acc) = delegated_to acc /\
  delegated_amount (Acc.set_stake x acc) = delegated_amount acc /\ nonce (Acc.set_stake x acc) = nonce acc.
Proof. unfold Acc.set_stake. by case_decide. Qed.

(** Locking [x] more moves both sums by [x]. *)
Lemma lock_stakes A a x :
  let A' := restake a (stake_of A a + x) (debit a x A) in
  network_stake A' = network_stake A + x /\ validator_stake a A' = validator_stake a A + x.
Proof.
  simpl. unfold restake, debit, stake_of. rewrite upd_upd.
  destruct (set_stake_fields (Acc.get_stake (account_of A a) + x)
    (Acc.set_balance (balance (account_of A a) - x) (account_of A a))) as (E1 & E2 & E3 & _).
  split.
  - rewrite network_stake_upd. unfold staked, Acc.get_delegated_amount. rewrite E3.
    unfold Acc.get_stake at 2. rewrite E1. simpl. lia.
  - rewrite validator_stake_upd, decide_True by done. unfold delegated_for, Acc.get_delegated_amount.
    rewrite E2, E3. unfold Acc.get_stake at 1. rewrite E1. simpl. case_decide; lia.
Qed.

Lemma delegate_stakes A a v x :
  solvent A -> 0 <= x <= balance (account_of A a) ->
  delegated_to (account_of A a) = None \/ delegated_to (account_of A a) = Some v ->
  let A' := delegate_effect a v x A in
  network_stake A' = network_stake A + x /\ validator_stake v A' = validator_stake v A + x.
Proof.
  intros Hs Hx Hd. simpl. unfold delegate_effect, debit. rewrite !upd_upd.
  pose proof (solvent_bound A Hs). pose proof (owns_le_wealth A a Hs). destruct (sane_of A a Hs) as [Hok Hn].
  assert (u256_sat_add (Acc.get_delegated_amount (account_of A a)) x = Acc.get_delegated_amount (account_of A a) + x)
    as E by (apply sat_add_exact; unfold account_ok, owns, in_u in *; lia).
  unfold Acc.get_delegated_amount in E. case_decide as Hnone.
  - specialize (Hn Hnone). rewrite network_stake_upd, validator_stake_upd. unfold delegated_for, staked in *. simpl.
    rewrite Hnone, (decide_True (P:=Some v = Some v)), (decide_False (P:=None = Some v)) by done. rewrite Hn. unfold Acc.get_delegated_amount, Acc.get_stake.
    simpl. case_decide; lia.
  - destruct Hd as [Hd|Hd]; [congruence|]. rewrite network_stake_upd, validator_stake_upd.
    unfold delegated_for, staked in *. simpl. rewrite Hd, !(decide_True (P:=Some v = Some v)) by done.
    unfold Acc.get_delegated_amount, Acc.get_stake in *. simpl. rewrite E. case_decide; lia.
Qed.

(** The validator whose stake a transaction raises. *)
Definition stake_target (tx : Transaction) (sender : Address) : option Address :=
  match tx_type tx with
  | Stake | ValidatorRegister => Some sender
  | Delegate => tx_to tx
  | _ => None
  end.

Lemma cap_error_none v x A :
  cap_error v x A = None -> x <> 0 -> network_stake A <> 0 ->
  100 * (validator_stake v A + x) <= MAX_VALIDATOR_STAKE_PERCENT * (network_stake A + x).
Proof.
  unfold cap_error. intros H Hx Hn. rewrite (proj2 (Z.eqb_neq x 0)), (proj2 (Z.eqb_neq (network_stake A) 0)) in H by done.
  simpl in H. destruct (Z.ltb_spec ((network_stake A + x) * MAX_VALIDATOR_STAKE_PERCENT / 100) (validator_stake v A + x));
    [done|].
  pose proof (Z.mul_div_le ((network_stake A + x) * MAX_VALIDATOR_STAKE_PERCENT) 100). lia.
Qed.

Lemma effect_cap e tx sender A gas A' v :
  solvent A -> tx_typed tx -> tx_value tx <= balance (account_of A sender) ->
  effect e tx sender A = inl (gas, A') -> stake_target tx sender = Some v ->
  tx_value tx <> 0 -> network_stake A <> 0 ->
  100 * validator_stake v A' <= MAX_VALIDATOR_STAKE_PERCENT * network_stake A'.
Proof.
  intros Hs Hty Hv Heff Hv' Hx Hn. pose proof (value_nonneg tx Hty). unfold effect, stake_target in *.
  destruct (tx_type tx); simplify_eq.
  - destruct (_ && _); [done|]. destruct (cap_error _ _ _) eqn:Ec; [done|]. injection Heff as <- <-.
    destruct (lock_stakes A v (tx_value tx)) as [-> ->]. by apply cap_error_none.
  - destruct (Z.eqb_spec (stake_of A v) 0) as [E|]; [|done]. simpl negb in Heff.
    destruct (_ <? _); [done|]. destruct (cap_error _ _ _) eqn:Ec; [done|]. injection Heff as <- <-.
    destruct (lock_stakes A v (tx_value tx)) as [E1 E2]. rewrite E, Z.add_0_l in E1, E2.
    set (A1 := restake _ _ _) in *.
    assert (same_stakes A1 (upd_acc v (Acc.set_contribution_score 0) A1)) as [-> ->] by (by apply same_stakes_upd).
    rewrite E1, E2. by apply cap_error_none.
  - rewrite Hv' in Heff. destruct (_ <? _); [done|]. destruct (bool_decide _) eqn:Ed; [done|].
    destruct (_ =? 0); [done|]. destruct (cap_error _ _ _) eqn:Ec; [done|]. injection Heff as <- <-.
    destruct (delegate_stakes A sender v (tx_value tx) Hs ltac:(lia)) as [-> ->]; [|by apply cap_error_none].
    apply bool_decide_eq_false in Ed. destruct (delegated_to _) as [w|]; [right|by left].
    destruct (decide (w = v)) as [->|]; [done|]. naive_solver.
Qed.
End stakes.

Section nonces.
Implicit Types A : astate.

Lemma nonce_upd A a f b :
  (forall acc, nonce (f acc) = nonce acc) -> nonce (account_of (upd_acc a f A) b) = nonce (account_of A b).
Proof. intros Hf. rewrite account_of_upd. case_decide; [subst|done]. apply Hf. Qed.

Ltac keeps_nonce :=
  unfold credit, debit, restake;
  repeat (rewrite nonce_upd; [|first [by intros ? | intros ?; apply set_stake_fields]]); try done.

Lemma effect_nonce e tx sender A gas A' b :
  effect e tx sender A = inl (gas, A') -> nonce (account_of A' b) = nonce (account_of A b).
Proof.
  unfold effect, move, delegate_effect. intros H. destruct (tx_type tx).
  9: { destruct (tx_to tx); [|done]. case_decide; [|done]. destruct (_ <? _); [done|]. injection H as <- <-.
       apply nonce_upd. intros acc. unfold Acc.sub_delegated_amount. by repeat case_match. }
  all: repeat (case_match; try done); simplify_eq; keeps_nonce.
Qed.

Lemma settled_nonce tx sender producer gas A :
  nonce (account_of (settled tx sender producer gas A) sender) =
    if evm_tx tx then u64_add (tx_nonce tx) 1 else nonce (account_of A sender).
Proof.
  unfold settled, credit. rewrite !nonce_upd by done. destruct (evm_tx tx); [|done].
  by rewrite account_of_upd, decide_True.
Qed.

Lemma prepaid_nonce tx sender A :
  nonce (account_of (prepaid tx sender A) sender) =
    if evm_tx tx then nonce (account_of A sender) else sat_add 64 (nonce (account_of A sender)) 1.
Proof.
  unfold prepaid, debit. destruct (evm_tx tx); [by apply nonce_upd|].
  rewrite account_of_upd, decide_True by done. simpl. by rewrite nonce_upd.
Qed.

Lemma charged_nonce tx sender producer A :
  nonce (account_of (charged tx sender producer A) sender) = sat_add 64 (nonce (account_of A sender)) 1.
Proof.
  unfold charged, credit, debit. rewrite account_of_upd, decide_True by done. simpl. by rewrite !nonce_upd.
Qed.
End nonces.

(** ** Validation *)

Section validation.
Context `{B : Blake3} `{BT : Borsh UnsignedTransaction} `{ED : Ed25519}.

(** The sender of a transaction: its marked bytes, or the owner of the key
    that signed the hash. *)
Definition signed_by (tx : Transaction) (sender : Address) : Prop :=
  if is_ethereum tx then sender = take 20 (drop 2 (tx_public_key tx))
  else is_ok (verify_hash_signature (tx_public_key tx) (blake3 (to_bytes_without_signature tx)) (tx_signature tx)) = true /\
       sender = address_from_public_key (tx_public_key tx).

(** The requirements of each type. *)
Definition type_ok (tx : Transaction) (sender : Address) (A : astate) : Prop :=
  match tx_type tx with
  | Transfer => tx_to tx <> None
  | Stake => stake_of A sender = 0 -> MIN_VALIDATOR_STAKE <= tx_value tx
  | ValidatorRegister => MIN_VALIDATOR_STAKE <= tx_value tx
  | Delegate =>
    exists v, tx_to tx = Some v /\ MIN_DELEGATION <= tx_value tx /\ stake_of A v <> 0 /\
      (delegated_to (account_of A sender) = None \/ delegated_to (account_of A sender) = Some v)
  | _ => True
  end.

Definition accepts (e : Executor) (tx : Transaction) (A : astate) (stx : SignedTransaction) : Prop :=
  exists sender, stx = mkSigned tx (blake3 (to_bytes_without_signature tx)) sender /\ signed_by tx sender /\
    tx_chain_id tx = chain_id e /\ intrinsic_gas tx <= tx_gas_limit tx /\
    tx_value tx + tx_gas_price tx * tx_gas_limit tx <= balance (account_of A sender) /\
    tx_nonce tx = nonce (account_of A sender) /\ type_ok tx sender A.

Lemma run_validate_type tx sender X :
  tx_typed tx -> addr_ok sender ->
  (type_ok tx sender (cur X) /\ validate_type tx sender X = (Ok tt, X)) \/
  (~ type_ok tx sender (cur X) /\ exists er, validate_type tx sender X = (Err er, X)).
Proof.
  intros (_ & _ & Hto) Ha. unfold validate_type, type_ok, stake_of. destruct (tx_type tx); try (by left).
  - destruct (tx_to tx); [by left|]. right. split; [tauto|]. by eexists.
  - mrun. destruct (Z.eqb_spec (Acc.get_stake (account_of (cur X) sender)) 0), (Z.ltb_spec (tx_value tx) MIN_VALIDATOR_STAKE);
      simpl; try (left; split; [lia|done]). right. split; [lia|]. by eexists.
  - destruct (Z.ltb_spec (tx_value tx) MIN_VALIDATOR_STAKE); [right; split; [lia|by eexists]|by left].
  - destruct (tx_to tx) as [v|]; [|right; split; [by intros (? & ? & _)|by eexists]].
    specialize (Hto v eq_refl). cbn [ok_or]. rewrite bind_ret.
    destruct (Z.ltb_spec (tx_value tx) MIN_DELEGATION).
    { right. split; [intros (? & [= <-] & ? & _); lia|by eexists]. }
    mrun. destruct (bool_decide _) eqn:Ed.
    { apply bool_decide_eq_true in Ed. right. split; [intros (? & [= <-] & _ & _ & ?); tauto|by eexists]. }
    apply bool_decide_eq_false in Ed. mrun.
    destruct (Z.eqb_spec (Acc.get_stake (account_of (cur X) v)) 0).
    { right. split; [intros (? & [= <-] & _ & ? & _); tauto|by eexists]. }
    left. split; [|done]. exists v. split_and!; [done|lia|done|].
    destruct (delegated_to _) as [w|]; [right|by left]. destruct (decide (w = v)) as [->|]; [done|].
    destruct Ed. naive_solver.
Qed.

(** The sender a transaction claims. *)
Definition claimed_sender (tx : Transaction) : Address :=
  if is_ethereum tx then take 20 (drop 2 (tx_public_key tx)) else address_from_public_key (tx_public_key tx).

Lemma signed_by_claimed tx sender : signed_by tx sender -> sender = claimed_sender tx.
Proof. unfold signed_by, claimed_sender. destruct (is_ethereum tx); [done|]. by intros [_ ?]. Qed.

Lemma run_recover tx (X : model) :
  (signed_by tx (claimed_sender tx) /\
   recover_sender tx X = (Ok (blake3 (to_bytes_without_signature tx), claimed_sender tx), X)) \/
  (~ signed_by tx (claimed_sender tx) /\ recover_sender tx X = (Err InvalidSignature, X)).
Proof.
  unfold recover_sender, signed_by, claimed_sender. destruct (is_ethereum tx); [by left|].
  destruct (is_ok _); [by left|]. right. split; [|done]. by intros [? _].
Qed.

(** Validation on the model: a verdict, and nothing changes. *)
Lemma run_validate e tx (X : model) :
  tx_typed tx -> addr_ok (claimed_sender tx) -> is_Some (total_cost tx) ->
  exists r, validate_transaction e tx X = (r, X) /\ r <> Panic /\ r <> NoFuel /\
    forall stx, r = Ok stx <-> accepts e tx (cur X) stx.
Proof.
  intros Hty Ha [total Htot]. assert (total = tx_value tx + tx_gas_price tx * tx_gas_limit tx) as Et.
  { unfold total_cost, gas_cost, u256_mul, u256_add in Htot. destruct (checked (_ * _)) as [c|] eqn:Ec; [|done].
    apply checked_Some in Ec as [<- _]. simpl in Htot. by apply checked_Some in Htot as [<- _]. }
  unfold validate_transaction, accepts.
  destruct (Z.eqb_spec (tx_chain_id tx) (chain_id e)) as [E1|]; cbn [negb].
  2: { eexists. split_and!; [done..|]. intros stx. split; [done|]. naive_solver. }
  destruct (Z.ltb_spec (tx_gas_limit tx) (intrinsic_gas tx)).
  { eexists. split_and!; [done..|]. intros stx. split; [done|]. intros (? & _ & _ & _ & ? & _). lia. }
  destruct (run_recover tx X) as [[Hsig Hr]|[Hsig Hr]].
  2: { rewrite (bind_err _ _ _ _ _ Hr). eexists. split_and!; [done..|]. intros stx. split; [done|].
       intros (a & _ & Hs & _). by rewrite <- (signed_by_claimed _ _ Hs) in Hsig. }
  rewrite (bind_ok _ _ _ _ _ Hr). cbv beta iota. mrun. rewrite (bind_or_panic _ _ _ _ Htot). subst total.
  destruct (Z.ltb_spec (balance (account_of (cur X) (claimed_sender tx)))
    (tx_value tx + tx_gas_price tx * tx_gas_limit tx)) as [Hlt|].
  { eexists. split_and!; [done..|]. intros stx. split; [done|].
    intros (a & _ & ->%signed_by_claimed & _ & _ & Hb & _). by apply Z.lt_nge in Hlt. }
  mrun. destruct (Z.eqb_spec (tx_nonce tx) (nonce (account_of (cur X) (claimed_sender tx)))) as [E2|]; cbn [negb].
  2: { eexists. split_and!; [done..|]. intros stx. split; [done|]. by intros (a & _ & ->%signed_by_claimed & _ & _ & _ & ? & _). }
  destruct (run_validate_type tx (claimed_sender tx) X Hty Ha) as [[Hok Hv]|[Hno [er Hv]]].
  - rewrite (bind_ok _ _ _ _ _ Hv). eexists. split_and!; [done..|]. intros stx. split.
    + intros [= <-]. by exists (claimed_sender tx).
    + by intros (a & -> & ->%signed_by_claimed & _).
  - rewrite (bind_err _ _ _ _ _ Hv). eexists. split_and!; [done..|]. intros stx. split; [done|].
    by intros (a & _ & ->%signed_by_claimed & _ & _ & _ & _ & ?).
Qed.
End validation.

(** ** Matured undelegations *)

Definition pay (A : astate) (u : Undelegation) : astate :=
  del_und (und_key u) (credit (u_delegator u) (u_amount u) A).

(** What a list of records holds for an account. *)
Definition due (a : Address) (us : list Undelegation) : Z :=
  foldr (fun u t => (if decide (u_delegator u = a) then u_amount u else 0) + t) 0 us.

Section maturing.
Implicit Types (A : astate) (us : list Undelegation).

Lemma pay_step A u :
  solvent A -> unds A !! und_key u = Some u ->
  wealth (pay A u) = wealth A /\ solvent (pay A u) /\
  forall a, balance (account_of (pay A u) a) =
    balance (account_of A a) + if decide (u_delegator u = a) then u_amount u else 0.
Proof.
  intros Hs Hu. pose proof (solvent_bound A Hs) as Hb. destruct Hs as (Hacc & Hund & Hw).
  pose proof (Hund _ _ Hu) as Hpos.
  assert (wealth (del_und (und_key u) A) = wealth A - u_amount u) as W1
    by (unfold wealth; simpl; rewrite (sum_map_delete u_amount _ _ _ Hu); lia).
  assert (solvent (del_und (und_key u) A)) as H1.
  { split_and!; [done| |unfold MAX_VALIDATOR_STAKE_PERCENT in *; lia].
    intros k v. simpl. intros [_ Hk]%lookup_delete_Some. eauto. }
  change (pay A u) with (credit (u_delegator u) (u_amount u) (del_und (und_key u) A)).
  destruct (credit_step _ (u_delegator u) (u_amount u) H1) as [W2 H2]; [done|lia|].
  split_and!; [lia|done|]. intros a. unfold credit. rewrite account_of_upd.
  destruct (decide (a = u_delegator u)) as [->|]; [rewrite decide_True by done|rewrite decide_False by done].
  - unfold Acc.add_balance. simpl.
    rewrite (sat_add_small _ _ (del_und (und_key u) A)); [done|by apply sane_of|by apply owns_le_wealth|done|lia].
  - unfold account_of. simpl. lia.
Qed.

Lemma pay_all_step us A :
  solvent A -> (forall u, u ∈ us -> unds A !! und_key u = Some u) -> NoDup (und_key <$> us) ->
  let A' := foldl pay A us in
  wealth A' = wealth A /\ solvent A' /\
  (forall k, unds A' !! k = if decide (k ∈ und_key <$> us) then None else unds A !! k) /\
  forall a, balance (account_of A' a) = balance (account_of A a) + due a us.
Proof.
  revert A. induction us as [|u us IH]; intros A Hs Hin Hnd; cbn [foldl].
  { split_and!; [done|done| |intros a; unfold due; simpl; lia]. intros k. by rewrite decide_False by apply not_elem_of_nil. }
  rewrite fmap_cons in Hnd. apply NoDup_cons in Hnd as [Hn Hnd].
  destruct (pay_step A u Hs) as (W & H1 & Hbal); [apply Hin; by left|].
  destruct (IH (pay A u) H1) as (W2 & H2 & Hun & Hbal2); [|done|].
  - intros v Hv. simpl. rewrite lookup_delete_ne; [apply Hin; by right|].
    intros E. apply Hn. rewrite E. by apply list_elem_of_fmap_2.
  - split_and!; [lia|done| |intros a; rewrite Hbal2, Hbal; unfold due; simpl; lia].
    intros k. rewrite Hun, fmap_cons. cbn [unds pay del_und]. destruct (decide (k ∈ und_key <$> us)) as [Hk|Hk].
    + by rewrite decide_True by (by right).
    + destruct (decide (k = und_key u)) as [->|Hne].
      * by rewrite lookup_delete_eq, decide_True by (by left).
      * rewrite lookup_delete_ne, decide_False by (done || by rewrite elem_of_cons; tauto). done.
Qed.

(** The records that have matured, as the scan finds them. *)
Lemma mature_records now A :
  (forall k u, unds A !! k = Some u -> k = und_key u) ->
  (forall u, u ∈ mature_of now A <-> unds A !! und_key u = Some u /\ is_unlocked u now) /\
  NoDup (und_key <$> mature_of now A).
Proof.
  intros Hk. split.
  - intros u. unfold mature_of. rewrite list_elem_of_filter, list_elem_of_fmap. split.
    + intros (Hu & [k u'] & -> & Hin%elem_of_sorted_list). simpl in *. by rewrite <- (Hk k u' Hin).
    + intros [Hu Hun]. split; [done|]. exists (und_key u, u). split; [done|]. by apply elem_of_sorted_list.
  - unfold mature_of. rewrite filter_fmap, <- list_fmap_compose.
    eapply (NoDup_fmap_2_strong _); [|apply NoDup_filter, before_nodup, sorted_list_sorted].
    intros [k1 u1] [k2 u2] [_ H1%elem_of_sorted_list]%list_elem_of_filter
      [_ H2%elem_of_sorted_list]%list_elem_of_filter. simpl. intros E.
    apply Hk in H1 as E1. apply Hk in H2 as E2. assert (k1 = k2) as <- by congruence. congruence.
Qed.

(** The records left after paying the matured ones. *)
Lemma paid_records now A :
  (forall u, u ∈ mature_of now A <-> unds A !! und_key u = Some u /\ is_unlocked u now) ->
  (forall k u, unds A !! k = Some u -> k = und_key u) ->
  (forall k, unds (foldl pay A (mature_of now A)) !! k =
     if decide (k ∈ und_key <$> mature_of now A) then None else unds A !! k) ->
  forall k u, unds (foldl pay A (mature_of now A)) !! k = Some u <->
    unds A !! k = Some u /\ ~ is_unlocked u now.
Proof.
  intros Hm Hk Hun k u. rewrite Hun. case_decide as Hin.
  - apply list_elem_of_fmap in Hin as (v & -> & [Hv Hl]%Hm). split; [done|]. intros [Hu Hn].
    assert (u = v) as -> by congruence. done.
  - split; [|by intros [? _]]. intros Hu. split; [done|]. intros Hl. apply Hin.
    assert (k = und_key u) as -> by eauto. by apply list_elem_of_fmap_2, Hm.
Qed.

Lemma none_mature now A A' :
  (forall k u, unds A' !! k = Some u <-> unds A !! k = Some u /\ ~ is_unlocked u now) ->
  (forall k u, unds A !! k = Some u -> k = und_key u) -> mature_of now A' = [].
Proof.
  intros Hleft Hk. destruct (mature_of now A') as [|u us] eqn:E; [done|]. exfalso.
  destruct (mature_records now A') as [Hm _]; [intros k v [Hv _]%Hleft; eauto|].
  destruct (proj1 (Hm u)) as [Hu Hl]; [rewrite E; by left|]. by apply Hleft in Hu as [_ ?].
Qed.
End maturing.

Section maturing_run.
Context `{B : Blake3} `{BT : Borsh UnsignedTransaction} `{ED : Ed25519}.

Lemma run_process_all us p (X : model) :
  (forall u, u ∈ us -> addr_ok (u_delegator u)) -> in_u 32 p ->
  process_all us p X = (Ok (wrap 32 (p + Z.of_nat (length us))), set_cur (foldl pay (cur X) us) X).
Proof.
  revert p X. induction us as [|u us IH]; intros p X Hus Hp; cbn [process_all foldl].
  { unfold ret. rewrite Z.add_0_r, wrap_small by done. by destruct X. }
  assert (addr_ok (u_delegator u)) as Hu by (apply Hus; by left).
  erewrite bind_ok.
  2: { unfold process_one. erewrite bind_ok; [|unfold attempt, st, map_err;
         cbn [State.add_balance model_ops]; unfold m_write, with_addr; rewrite decide_True by done; done].
       cbv beta iota. done. }
  rewrite IH; [|intros v Hv; apply Hus; by right|by apply wrap_range].
  f_equal. f_equal. unfold wrap. rewrite Z.add_mod_idemp_l by done. f_equal. simpl length. lia.
Qed.

Lemma run_mature now (X : model) :
  (forall k u, unds (cur X) !! k = Some u -> k = und_key u /\ addr_ok (u_delegator u)) ->
  process_mature_undelegations now X =
    (Ok (wrap 32 (Z.of_nat (length (mature_of now (cur X))))),
     set_cur (foldl pay (cur X) (mature_of now (cur X))) X).
Proof.
  intros Hk. destruct (mature_records now (cur X)) as [Hm _]; [intros k u Hu; by apply Hk|].
  unfold process_mature_undelegations. erewrite bind_ok by done. cbv beta iota.
  rewrite run_process_all; [done| |done]. intros u [Hu _]%Hm. by apply (Hk (und_key u)).
Qed.
End maturing_run.

(** ** One transaction of a block *)

(** A transaction that does not run the EVM and stores no undelegation, with
    enough gas for its type and a gas price whose product with the gas limit
    fits 64 bits. *)
Definition plain `{B : Blake3} (tx : Transaction) : Prop :=
  tx_typed tx /\ addr_ok (claimed_sender tx) /\ is_Some (total_cost tx) /\
  evm_tx tx = false /\ tx_type tx <> Undelegate /\
  gas_of tx <= tx_gas_limit tx /\ tx_gas_limit tx * tx_gas_price tx < 2 ^ 64.

Section block.
Context `{B : Blake3} `{BT : Borsh UnsignedTransaction} `{ED : Ed25519}.
Context (e : Executor) (producer : Address) (Hp : addr_ok producer).

Lemma evm_tx_false tx : evm_tx tx = false -> tx_type tx <> ContractCreate /\ tx_type tx <> ContractCall.
Proof. unfold evm_tx. by destruct (tx_type tx). Qed.

Lemma accepts_admissible tx A stx :
  plain tx -> accepts e tx A stx -> admissible stx A /\ overwritten e stx A = 0 /\ st_tx stx = tx.
Proof.
  intros (Hty & Ha & _ & [Hn1 Hn2]%evm_tx_false & Hu & _) (a & -> & ->%signed_by_claimed & _ & _ & Hb & _).
  split_and!; [split_and!; try done| |done]. unfold overwritten. cbn [st_tx]. by destruct (tx_type tx).
Qed.

Lemma gas_of_pos tx : 0 < gas_of tx \/ evm_tx tx = true.
Proof. unfold gas_of, evm_tx, MINIMUM_GAS. destruct (tx_type tx); auto; left; lia. Qed.

(** Executing an accepted plain transaction. *)
Lemma run_accepted tx stx (X : model) :
  solvent (cur X) -> plain tx -> accepts e tx (cur X) stx ->
  fst (execute no_create no_call e stx producer X) = Panic \/
  exists res X', execute no_create no_call e stx producer X = (Ok res, X') /\
    wealth (cur X') = wealth (cur X) /\ solvent (cur X') /\ 0 <= ex_gas_used res <= tx_gas_limit tx.
Proof.
  intros Hs Hpl Hacc. destruct (accepts_admissible tx (cur X) stx Hpl Hacc) as (Hadm & Hnc & <-).
  destruct (effect e (st_tx stx) (st_sender stx) (prepaid (st_tx stx) (st_sender stx) (cur X)))
    as [[gas A']|er] eqn:Heff.
  - right. rewrite (run_execute_ok e stx producer X Hp Hadm Hs gas A' Heff). eexists _, _. split; [done|].
    destruct Hpl as (_ & _ & _ & Hevm & _ & Hlim & Hpr). apply effect_gas in Heff as Hgas. subst gas.
    destruct (gas_of_pos (st_tx stx)); [|congruence].
    destruct (success_step e stx producer X Hadm Hs (gas_of (st_tx stx)) A' ltac:(lia) Hpr Heff) as [W H2]. cbn [cur set_cur].
    split_and!; [lia|done|apply gas_of_range|done].
  - destruct (decide (accs (cur X) = com X)) as [Hc|Hc].
    + right. rewrite (run_execute_err e stx producer X Hp Hadm Hs er Hc Heff). eexists _, _. split; [done|].
      destruct (charged_step stx producer X Hadm Hs) as [Hw Hso]. destruct Hpl as (Hty & _). split_and!; [done|done| |simpl; lia].
      apply Hty.
    + left. by eapply run_execute_stop.
Qed.

(** The receipts of a transaction that used [gas], and of one that failed or
    was rejected, which is charged its limit. *)
Definition receipt_of_success (i : nat) (tx : Transaction) (cum gas : Z) : Receipt :=
  mkReceipt (blake3 (to_bytes_without_signature tx)) (wrap 32 (Z.of_nat i)) Success (u64_add cum gas) gas
    [] Bloom_ZERO None.
Definition receipt_of_failure (i : nat) (tx : Transaction) (cum : Z) (er : ExecutorError) : Receipt :=
  mkReceipt (blake3 (to_bytes_without_signature tx)) (wrap 32 (Z.of_nat i)) (Failure (MsgError er))
    (u64_add cum (tx_gas_limit tx)) (tx_gas_limit tx) [] Bloom_ZERO None.

Lemma native_admissible tx A stx :
  tx_typed tx -> addr_ok (claimed_sender tx) -> native tx A -> accepts e tx A stx ->
  admissible stx A /\ st_tx stx = tx.
Proof. intros Hty Ha Hn (a & -> & ->%signed_by_claimed & _ & _ & Hb & _). by split_and!. Qed.

Lemma run_one_rejected i cum tx (X : model) :
  tx_typed tx -> addr_ok (claimed_sender tx) -> is_Some (total_cost tx) -> (forall stx, ~ accepts e tx (cur X) stx) ->
  exists er, execute_one no_create no_call e producer i tx cum X = (Ok (receipt_of_failure i tx cum er), X).
Proof.
  intros Hty Ha Hc Hno. destruct (run_validate e tx X Hty Ha Hc) as (r & Hr & Hnp & Hnf & Hacc). unfold execute_one.
  destruct r as [stx|er| |]; [|exists er|done|done].
  - by destruct (Hno stx); apply Hacc.
  - erewrite bind_ok; [|unfold attempt; by rewrite Hr]. done.
Qed.

Lemma run_one_accepted i cum tx stx (X : model) res X' :
  tx_typed tx -> addr_ok (claimed_sender tx) -> is_Some (total_cost tx) -> accepts e tx (cur X) stx ->
  execute no_create no_call e stx producer X = (Ok res, X') -> ex_logs res = [] -> ex_contract_address res = None ->
  execute_one no_create no_call e producer i tx cum X =
    (Ok (mkReceipt (blake3 (to_bytes_without_signature tx)) (wrap 32 (Z.of_nat i))
       (if ex_success res then Success else Failure (default (MsgText EmptyString) (ex_error res)))
       (u64_add cum (ex_gas_used res)) (ex_gas_used res) [] Bloom_ZERO None), X').
Proof.
  intros Hty Ha Hc Hacc Hex Hl Hca. destruct (run_validate e tx X Hty Ha Hc) as (r & Hr & _ & _ & Hiff).
  apply Hiff in Hacc as ->. unfold execute_one.
  erewrite bind_ok; [|unfold attempt; by rewrite Hr]. cbv beta iota.
  erewrite bind_ok; [|unfold attempt; by rewrite Hex]. cbv beta iota. rewrite Hl, Hca. done.
Qed.

(** Transfers and inference records cannot fail after validation. *)
Definition unfailing (tx : Transaction) : Prop := tx_type tx = Transfer \/ tx_type tx = InferenceTask.

Lemma run_unfailing tx stx (X : model) :
  solvent (cur X) -> plain tx -> unfailing tx -> accepts e tx (cur X) stx ->
  fst (execute no_create no_call e stx producer X) <> Panic.
Proof.
  intros Hs Hpl Hun Hacc. destruct (accepts_admissible tx (cur X) stx Hpl Hacc) as (Hadm & Hnc & Htx).
  destruct Hacc as (a & -> & _ & _ & _ & _ & _ & Hok). simpl in *. unfold type_ok in Hok.
  destruct (effect e tx a (prepaid tx a (cur X))) as [[gas A']|er] eqn:Heff.
  - by rewrite (run_execute_ok e _ producer X Hp Hadm Hs gas A' Heff).
  - unfold effect in Heff. destruct Hun as [Ht|Ht]; rewrite Ht in *; [|done]. by destruct (tx_to tx).
Qed.

Lemma run_one i cum tx (X : model) :
  solvent (cur X) -> plain tx ->
  (fst (execute_one no_create no_call e producer i tx cum X) = Panic /\ ~ unfailing tx) \/
  exists r X', execute_one no_create no_call e producer i tx cum X = (Ok r, X') /\
    wealth (cur X') = wealth (cur X) /\ solvent (cur X') /\
    r_tx_hash r = blake3 (to_bytes_without_signature tx) /\
    r_cumulative_gas_used r = u64_add cum (r_gas_used r) /\ 0 <= r_gas_used r <= tx_gas_limit tx.
Proof.
  intros Hs Hpl. pose proof Hpl as (Hty & Ha & Hc & _).
  destruct (run_validate e tx X Hty Ha Hc) as (r & Hr & Hnp & Hnf & Hacc). unfold execute_one.
  destruct r as [stx|er| |]; [| |done|done].
  - erewrite bind_ok; [|unfold attempt; by rewrite Hr]. cbv beta iota.
    pose proof (proj1 (Hacc stx) eq_refl) as Hst.
    destruct (run_accepted tx stx X Hs Hpl Hst) as [Hpan|(res & X' & Hex & W & H' & Hg0 & Hg1)].
    + left. split; [|intros Hun; by apply (run_unfailing tx stx X)].
      unfold bind, attempt. destruct (execute _ _ _ _ _ X) as [[] ?]; simpl in *; congruence.
    + right. erewrite bind_ok; [|unfold attempt; by rewrite Hex]. eexists _, X'. by split_and!.
  - right. erewrite bind_ok; [|unfold attempt; by rewrite Hr]. eexists _, X. split_and!; try done; simpl. apply Hty.
Qed.

Lemma run_block i txs acc cum (X : model) :
  solvent (cur X) -> Forall plain txs ->
  (fst (execute_from no_create no_call e producer i txs acc cum X) = Panic /\ ~ Forall unfailing txs) \/
  exists rs X', execute_from no_create no_call e producer i txs acc cum X =
      (Ok (acc ++ rs, foldl (fun c r => u64_add c (r_gas_used r)) cum rs), X') /\
    wealth (cur X') = wealth (cur X) /\ solvent (cur X') /\
    r_tx_hash <$> rs = (fun tx => blake3 (to_bytes_without_signature tx)) <$> txs /\
    Forall2 (fun tx r => 0 <= r_gas_used r <= tx_gas_limit tx) txs rs.
Proof.
  intros Hs Hpl. revert i acc cum X Hs. induction Hpl as [|tx txs Htx _ IH]; intros i acc cum X Hs.
  { right. exists [], X. cbn [execute_from foldl]. rewrite app_nil_r. by split_and!. }
  cbn [execute_from]. destruct (run_one i cum tx X Hs Htx) as [[Hpan Hun]|(r & X1 & E1 & W1 & H1 & Hh & Hc & Hg)].
  { left. split; [|by intros [? _]%Forall_cons]. unfold bind.
    destruct (execute_one _ _ _ _ _ _ _ X) as [[] ?]; simpl in *; congruence. }
  rewrite (bind_ok _ _ _ _ _ E1).
  destruct (IH (S i) (acc ++ [r]) (r_cumulative_gas_used r) X1 H1) as [[Hpan Hun]|(rs & X2 & E2 & W2 & H2 & Hh2 & Hg2)].
  { left. split; [done|by intros [_ ?]%Forall_cons]. }
  right. exists (r :: rs), X2. rewrite E2, <- app_assoc, !fmap_cons, Hh, Hh2. cbn [foldl app]. rewrite Hc.
  split_and!; [done|lia|done|done|by constructor].
Qed.

Lemma accepts_sender tx A stx :
  accepts e tx A stx -> st_sender stx = claimed_sender tx /\ tx_nonce tx = nonce (account_of A (st_sender stx)).
Proof. intros (a & -> & Hs & _ & _ & _ & Hn & _). split; [by apply signed_by_claimed|done]. Qed.

(** An executed transaction advanced the sender's nonce. *)
Lemma executed_nonce stx (X : model) res X' :
  admissible stx (cur X) -> solvent (cur X) ->
  tx_nonce (st_tx stx) = nonce (account_of (cur X) (st_sender stx)) -> tx_nonce (st_tx stx) < 2 ^ 64 - 1 ->
  execute no_create no_call e stx producer X = (Ok res, X') ->
  nonce (account_of (cur X') (st_sender stx)) = tx_nonce (st_tx stx) + 1.
Proof.
  intros Hadm Hs Hn Hmax Hex. pose proof Hadm as (((Hr & _) & _) & _). unfold in_u in Hr.
  assert (sat_add 64 (nonce (account_of (cur X) (st_sender stx))) 1 = tx_nonce (st_tx stx) + 1) as Hsat
    by (rewrite <- Hn; apply sat_add_exact; unfold in_u; lia).
  destruct (effect e (st_tx stx) (st_sender stx) (prepaid (st_tx stx) (st_sender stx) (cur X)))
    as [[gas A']|er] eqn:Heff.
  - rewrite (run_execute_ok e stx producer X Hp Hadm Hs gas A' Heff) in Hex. injection Hex as _ <-. cbn [cur set_cur].
    rewrite settled_nonce, (effect_nonce _ _ _ _ _ _ _ Heff), prepaid_nonce.
    destruct (evm_tx _); [|done]. apply wrap_small. unfold in_u. lia.
  - destruct (decide (accs (cur X) = com X)) as [Hc|Hc].
    + rewrite (run_execute_err e stx producer X Hp Hadm Hs er Hc Heff) in Hex. injection Hex as _ <-.
      cbn [cur set_cur]. by rewrite charged_nonce.
    + pose proof (run_execute_stop e stx producer X Hadm Hs er Hc Heff) as Hpan. by rewrite Hex in Hpan.
Qed.
End block.
