(* ===== verification/ExecProps.v ===== *)
(** * Properties of the executor

    Stated for the executor on the state database, whatever the EVM is, and
    proved on the model through the refinement of ExecRefines.v: what a
    transaction of a block does, what a failure does to the rest of the block
    (on the database itself), conservation of funds and its limits, the stake cap, replay protection, validation, matured
    undelegations and the transactions of a block. *)

From S2P Require Import Prelude Externals Nibbles Storage Trie TrieTree TrieTheory TrieMap Types Crypto Receipts.
From S2P Require Import StateDB StateTheory StateProps StateOps Executor ExecRefines ExecSpec ExecTheory.

Section props.
Context `{B : Blake3} {BC : CollisionFree B} `{BN : Borsh TrieNode} {BNok : BorshOk TrieNode}
  `{BA : Borsh Account} {BAok : BorshOk Account} `{BL : Borsh LegacyAccount}
  `{BU : Borsh Undelegation} {BUok : BorshOk Undelegation} `{BT : Borsh UnsignedTransaction} `{ED : Ed25519}.
Context {C : Type -> Type -> Type} `{LC : LruCache C} `{LS : !LruSpec C}.
Context {Database : Type} `{RK : RocksDB Database} {RKok : RocksOk Database}.
Context (evm_create : Executor -> Address -> Address -> bytes -> Z -> Z ->
  ST (StateDB C Database) ExecutorError EvmResult).
Context (evm_call : Executor -> Address -> Address -> Address -> bytes -> Z -> Z ->
  ST (StateDB C Database) ExecutorError EvmResult).
Implicit Types (s : StateDB C Database) (X : model).

Lemma lift {E R} (m : ST (StateDB C Database) E R) am s X r X' :
  (forall d, refines d m am) -> sim s X -> am X = (r, X') -> r <> Panic -> r <> NoFuel ->
  exists s', m s = (r, s') /\ sim s' X'.
Proof.
  intros Hm Hs Er H1 H2. specialize (Hm (db s) s X Hs (db_grows_refl _)). rewrite Er in Hm.
  destruct r; try done; destruct Hm as (s' & Em & Hs' & _); by exists s'.
Qed.

Abbreviation execute_db := (execute evm_create evm_call).
Abbreviation execute_model := (execute no_create no_call).

Lemma lift_execute s X e stx producer r X' :
  sim s X -> execute_model e stx producer X = (Ok r, X') ->
  exists s', execute_db e stx producer s = (Ok r, s') /\ sim s' X'.
Proof. intros Hs Er. eapply lift; [intros; apply execute_refined|done|done|done|done]. Qed.

(** C1 (a transaction of a block does what its type says): on the state
    database, with its caches, Merkle trie and key-value store and solvent
    accounts, a typed transaction that does not run the EVM and whose total cost
    fits a U256 is processed to one of three ends. If its chain
    id, gas limit, signature, funds, nonce or the requirements of its type are
    not met, it gives a failure receipt for its gas limit and changes nothing.
    If they are and the effect of its type on the accounts with the gas prepaid
    succeeds, the receipt has the gas of the effect and the accounts are those
    of the effect with the unused gas refunded and the used gas paid to the
    producer. If the effect is an error, and no account was written since the
    last commit, the receipt is a failure for the gas limit and only the gas
    cost and the nonce have changed. *)
Theorem exec_transaction_exact s X e producer i tx cum :
  sim s X -> solvent (cur X) -> addr_ok producer ->
  tx_typed tx -> addr_ok (claimed_sender tx) -> is_Some (total_cost tx) -> native tx (cur X) ->
  let run := execute_one evm_create evm_call e producer i tx cum s in
  ((forall stx, ~ accepts e tx (cur X) stx) ->
    exists er s', run = (Ok (receipt_of_failure i tx cum er), s') /\ sim s' X) /\
  (forall stx, accepts e tx (cur X) stx ->
    match effect e tx (st_sender stx) (prepaid tx (st_sender stx) (cur X)) with
    | inl (gas, A') => exists s', run = (Ok (receipt_of_success i tx cum gas), s') /\
        sim s' (set_cur (settled tx (st_sender stx) producer gas A') X)
    | inr er => accs (cur X) = com X -> exists s', run = (Ok (receipt_of_failure i tx cum er), s') /\
        sim s' (set_cur (charged tx (st_sender stx) producer (cur X)) X)
    end).
Proof.
  intros Hs Hsol Hp Hty Ha Hc Hn run. split.
  - intros Hno. destruct (run_one_rejected e producer i cum tx X Hty Ha Hc Hno) as (er & Er). exists er.
    eapply lift; [intros; apply one_refined|done|done|done|done].
  - intros stx Hacc. destruct (native_admissible e tx (cur X) stx Hty Ha Hn Hacc) as [Hadm <-].
    destruct (effect _ _ _ _) as [[gas A']|er] eqn:Heff; [|intros Hcom];
      (eapply lift; [intros; apply one_refined|exact Hs| |done|done]).
    + by rewrite (run_one_accepted e producer i cum _ stx X _ _ Hty Ha Hc Hacc
        (run_execute_ok e stx producer X Hp Hadm Hsol gas A' Heff)).
    + by rewrite (run_one_accepted e producer i cum _ stx X _ _ Hty Ha Hc Hacc
        (run_execute_err e stx producer X Hp Hadm Hsol er Hcom Heff)).
Qed.

(** C2 (a successful transaction moves funds and creates none): a native
    transaction with enough funds whose effect succeeds returns the gas of its
    type; the accounts end as the effect leaves them with the unused gas
    refunded and the used gas paid to the producer, and balances, stakes,
    delegations and pending undelegations sum to what they were, when the gas
    limit covers the gas used, the gas cost fits 64 bits and no undelegation
    record is overwritten. *)
Theorem exec_success_conserves s X e stx producer gas A' :
  sim s X -> solvent (cur X) -> admissible stx (cur X) -> addr_ok producer -> overwritten e stx (cur X) = 0 ->
  0 < gas_of (st_tx stx) <= tx_gas_limit (st_tx stx) ->
  tx_gas_limit (st_tx stx) * tx_gas_price (st_tx stx) < 2 ^ 64 ->
  effect e (st_tx stx) (st_sender stx) (prepaid (st_tx stx) (st_sender stx) (cur X)) = inl (gas, A') ->
  let A2 := settled (st_tx stx) (st_sender stx) producer gas A' in
  gas = gas_of (st_tx stx) /\ wealth A2 = wealth (cur X) /\ solvent A2 /\
  exists s', execute_db e stx producer s = (Ok (exec_success gas), s') /\ sim s' (set_cur A2 X).
Proof.
  intros Hs Hsol Hadm Hp Hnc Hg Hpr Heff A2.
  pose proof (effect_gas _ _ _ _ _ _ Heff) as Hgas.
  destruct (success_step e stx producer X Hadm Hsol gas A') as [W H2]; [by subst gas|done|done|].
  rewrite Hnc, Z.sub_0_r in W.
  split_and!; [done|done|done|]. eapply lift_execute; [done|].
  by apply run_execute_ok.
Qed.

(** C33 (a failed transaction costs its gas limit and nothing else): when no
    account was written since the last commit, a native transaction with the
    funds for its value and gas whose effect is an error is reported
    as a failure that used the whole gas limit; every account and every pending
    undelegation is as before, except that the gas cost moved from the sender
    to the producer and the sender's nonce advanced. *)
Theorem exec_failure_charges s X e stx producer er :
  sim s X -> solvent (cur X) -> admissible stx (cur X) -> addr_ok producer -> accs (cur X) = com X ->
  effect e (st_tx stx) (st_sender stx) (prepaid (st_tx stx) (st_sender stx) (cur X)) = inr er ->
  let A2 := charged (st_tx stx) (st_sender stx) producer (cur X) in
  wealth A2 = wealth (cur X) /\ solvent A2 /\
  exists s', execute_db e stx producer s =
      (Ok (exec_failure (tx_gas_limit (st_tx stx)) (MsgError er)), s') /\ sim s' (set_cur A2 X).
Proof.
  intros Hs Hsol Hadm Hp Hcom Heff A2. destruct (charged_step stx producer X Hadm Hsol) as [W H2].
  split_and!; [done|done|]. eapply lift_execute; [done|].
  by apply run_execute_err.
Qed.

(** Up to the error of the dispatch, on the database. *)
Lemma dispatch_fails s X e stx producer er :
  sim s X -> solvent (cur X) -> admissible stx (cur X) ->
  effect e (st_tx stx) (st_sender stx) (prepaid (st_tx stx) (st_sender stx) (cur X)) = inr er ->
  exists s', sim s' (set_cur (prepaid (st_tx stx) (st_sender stx) (cur X)) X) /\ db_grows (db s) (db s') /\
    execute_db e stx producer s =
      bind (st (revert (snapshot s))) (fun _ =>
        bind (st (State.sub_balance (st_sender stx) (tx_gas_price (st_tx stx) * tx_gas_limit (st_tx stx)))) (fun _ =>
        bind (st (State.add_balance producer (tx_gas_price (st_tx stx) * tx_gas_limit (st_tx stx)))) (fun _ =>
        bind (st (State.increment_nonce (st_sender stx))) (fun _ =>
        ret (exec_failure (tx_gas_limit (st_tx stx)) (MsgError er)))))) s'.
Proof.
  intros Hs Hsol Hadm Heff. destruct (cost_range stx X Hadm Hsol) as [Hc Hgc].
  destruct (prepaid_step stx X Hadm Hsol) as (_ & Hsp & Hv & Hn). pose proof Hadm as (Hty & Ha & _).
  set (X1 := set_cur (prepaid (st_tx stx) (st_sender stx) (cur X)) X).
  assert (dispatch no_create no_call e (st_tx stx) (st_sender stx) producer X1 = (Err er, X1)) as Hdm
    by (rewrite dispatch_effect by done; unfold X1; cbn [cur set_cur]; by rewrite Heff).
  set (pre := fun (St : Type) (SO : State.ops St) (D : ST St ExecutorError ExecutionResult) =>
    bind (st (State.sub_balance (st_sender stx) (tx_gas_price (st_tx stx) * tx_gas_limit (st_tx stx)))) (fun _ =>
      bind (if evm_tx (st_tx stx) then ret tt else (st (State.increment_nonce (st_sender stx));; ret tt)) (fun _ =>
        attempt D)) : ST St ExecutorError (ExecutionResult + ExecutorError)).
  assert (refines (db s) (pre _ statedb_ops (dispatch evm_create evm_call e (st_tx stx) (st_sender stx) producer))
    (pre _ model_ops (dispatch no_create no_call e (st_tx stx) (st_sender stx) producer))) as Hpre.
  { unfold pre, st. refine_prog. apply dispatch_refined. }
  specialize (Hpre s X Hs (db_grows_refl _)). unfold pre in Hpre at 1.
  rewrite (run_prepay stx X Hadm Hsol) in Hpre. fold X1 in Hpre. unfold attempt in Hpre at 1. rewrite Hdm in Hpre.
  destruct Hpre as (s' & E & Hs' & G). exists s'. split_and!; [done|done|].
  unfold execute. rewrite bind_gets, (bind_or_panic _ _ _ _ Hgc).
  revert E. unfold pre, bind, ret. destruct (st (State.sub_balance _ _) s) as [[] s1]; try done.
  destruct (evm_tx (st_tx stx)); [by intros ->|].
  destruct (st (State.increment_nonce _) s1) as [[] s2]; try done. by intros ->.
Qed.

(** C34 (a failure undoes the block so far): a native transaction whose effect
    is an error is reported as a failure, or stops at its gas charge, whatever
    was written since the last commit; but when the state is then committed and
    opened at the new root, every account besides the sender and the producer
    is the account of the previous commit. What earlier transactions of the
    block did to other accounts is gone, nonces included, although their
    receipts report success. *)
Theorem exec_failure_undoes_block s X e stx producer er :
  sim s X -> solvent (cur X) -> admissible stx (cur X) -> addr_ok producer ->
  effect e (st_tx stx) (st_sender stx) (prepaid (st_tx stx) (st_sender stx) (cur X)) = inr er ->
  exists r s1 root s2 accounts, execute_db e stx producer s = (r, s1) /\
    (r = Ok (exec_failure (tx_gas_limit (st_tx stx)) (MsgError er)) \/
     exists have, r = Err (State (StateInsufficientBalance (tx_gas_price (st_tx stx) * tx_gas_limit (st_tx stx)) have))) /\
    state_commit s1 = (Ok root, s2) /\
    state_ok (state_with_root (db s2) root) (mkA accounts (unds (cur X))) /\
    forall a, a <> st_sender stx -> a <> producer -> accounts !! a = com X !! a.
Proof.
  intros Hs Hsol Hadm Hp Heff. pose proof Hadm as (_ & Ha & _).
  destruct (dispatch_fails s X e stx producer er Hs Hsol Hadm Heff) as (s' & (Hs' & _) & G & ->).
  destruct Hs as (_ & Hcom & _).
  destruct (revert_stored s s' _ _ Hcom Hs' G) as (s3 & E3 & H3). cbn [accs cur set_cur] in H3.
  replace (unds (prepaid _ _ _)) with (unds (cur X)) in H3 by (unfold prepaid; by destruct (evm_tx _)).
  erewrite bind_ok; [|unfold st, map_err; by rewrite E3].
  destruct (stored_sub s3 _ (st_sender stx) (tx_gas_price (st_tx stx) * tx_gas_limit (st_tx stx)) Ha H3)
    as [(acc & s4 & E4 & H4)|(b & s4 & E4 & H4)].
  2: { erewrite bind_err; [|unfold st, map_err; cbn [State.sub_balance statedb_ops]; by rewrite E4].
       destruct (stored_commit s4 _ H4) as (root & s5 & Ec & Hok). eexists _, s4, root, s5, (com X).
       split_and!; [done|right; by exists b|done|done|done]. }
  erewrite bind_ok; [|unfold st, map_err; cbn [State.sub_balance statedb_ops]; by rewrite E4].
  destruct (stored_update s4 _ producer (Acc.add_balance (tx_gas_price (st_tx stx) * tx_gas_limit (st_tx stx))) Hp H4)
    as (acc2 & s5 & E5 & H5).
  erewrite bind_ok; [|unfold st, map_err; cbn [State.add_balance statedb_ops]; unfold add_balance; by rewrite E5].
  destruct (stored_increment s5 _ (st_sender stx) Ha H5) as (n & acc3 & s6 & E6 & H6).
  erewrite bind_ok; [|unfold st, map_err; cbn [State.increment_nonce statedb_ops]; by rewrite E6].
  destruct (stored_commit s6 _ H6) as (root & s7 & Ec & Hok). eexists _, s6, root, s7, _.
  split_and!; [done|by left|done|exact Hok|]. intros a H1 H2. cbn [accs set_acc].
  by rewrite !lookup_insert_ne by done.
Qed.


(** After a successful stake,
    registration or delegation of a positive amount, in a network that had
    stake before, the validator it was for has at most 20% of all stake,
    counting what others delegated to it. *)
Theorem exec_stake_cap s X e stx producer gas A' v :
  sim s X -> solvent (cur X) -> admissible stx (cur X) -> addr_ok producer ->
  network_stake (cur X) <> 0 -> tx_value (st_tx stx) <> 0 -> stake_target (st_tx stx) (st_sender stx) = Some v ->
  effect e (st_tx stx) (st_sender stx) (prepaid (st_tx stx) (st_sender stx) (cur X)) = inl (gas, A') ->
  exists s' X', execute_db e stx producer s = (Ok (exec_success gas), s') /\ sim s' X' /\
    100 * validator_stake v (cur X') <= MAX_VALIDATOR_STAKE_PERCENT * network_stake (cur X').
Proof.
  intros Hs Hsol Hadm Hp Hn Hx Hv Heff. 
  destruct (lift_execute s X e stx producer _ _ Hs (run_execute_ok e stx producer X Hp Hadm Hsol _ A' Heff))
    as (s' & Ex & Hs').
  eexists s', _. split_and!; [exact Ex|exact Hs'|]. cbn [cur set_cur].
  destruct (settled_stakes (st_tx stx) (st_sender stx) producer gas A') as [-> ->].
  destruct (prepaid_stakes (st_tx stx) (st_sender stx) (cur X)) as [En _].
  destruct (prepaid_step stx X Hadm Hsol) as (_ & Hsp & Hval & _).
  eapply effect_cap; try done; [by destruct Hadm|by rewrite En].
Qed.

(** C36 (no transaction runs twice): an accepted native transaction with a
    nonce below the maximum whose effect succeeds, or whose effect is an error
    while no account was written since the last commit, is executed, and every
    executor rejects it on the resulting state. *)
Theorem exec_no_replay s X e stx producer e' :
  sim s X -> solvent (cur X) -> admissible stx (cur X) -> addr_ok producer ->
  accepts e (st_tx stx) (cur X) stx -> tx_nonce (st_tx stx) < 2 ^ 64 - 1 -> is_Some (total_cost (st_tx stx)) ->
  accs (cur X) = com X \/
    (exists gas A', effect e (st_tx stx) (st_sender stx) (prepaid (st_tx stx) (st_sender stx) (cur X)) = inl (gas, A')) ->
  exists res s' X' s'' er, execute_db e stx producer s = (Ok res, s') /\ sim s' X' /\
    nonce (account_of (cur X') (st_sender stx)) = tx_nonce (st_tx stx) + 1 /\
    validate_transaction e' (st_tx stx) s' = (Err er, s'').
Proof.
  intros Hs Hsol Hadm Hp Hacc Hmax Htot Hor.
  assert (exists res X', execute_model e stx producer X = (Ok res, X')) as (res & X' & Hex).
  { destruct (effect e (st_tx stx) (st_sender stx) (prepaid (st_tx stx) (st_sender stx) (cur X)))
      as [[gas A']|er] eqn:Heff.
    - rewrite (run_execute_ok e stx producer X Hp Hadm Hsol gas A' Heff). by eexists _, _.
    - destruct Hor as [Hcom|(? & ? & ?)]; [|done].
      rewrite (run_execute_err e stx producer X Hp Hadm Hsol er Hcom Heff). by eexists _, _. }
  destruct (lift_execute s X e stx producer res X' Hs Hex) as (s' & Ex & Hs').
  destruct (accepts_sender e _ _ _ Hacc) as (Hsend & Hn). pose proof Hadm as (Hty & Ha & _).
  pose proof (executed_nonce e producer Hp stx X res X' Hadm Hsol Hn Hmax Hex) as Hn'.
  destruct (run_validate e' (st_tx stx) X' Hty ltac:(by rewrite <- Hsend) Htot) as (r & Hr & H1 & H2 & Hiff).
  destruct (lift _ _ s' X' r X' (fun d => validate_refined d e' (st_tx stx)) Hs' Hr H1 H2) as (s'' & Ev & _).
  destruct r as [stx'|er| |]; [|by exists res, s', X', s'', er|done|done]. exfalso.
  destruct (proj1 (Hiff stx') eq_refl) as (a & _ & ->%signed_by_claimed & _ & _ & _ & Hn2 & _).
  rewrite <- Hsend, Hn' in Hn2. lia.
Qed.

(** Validation never
    changes the state and never panics when the total cost fits a U256; it
    accepts exactly the transactions of this chain whose gas limit covers the
    intrinsic gas, whose signature verifies (or that are marked as Ethereum
    transactions), whose sender can pay value and gas and has that nonce, and
    that meet the requirements of their type. *)
Theorem exec_validate_exact s X e tx :
  sim s X -> tx_typed tx -> addr_ok (claimed_sender tx) -> is_Some (total_cost tx) ->
  exists r s', validate_transaction e tx s = (r, s') /\ sim s' X /\ r <> Panic /\ r <> NoFuel /\
    forall stx, r = Ok stx <-> accepts e tx (cur X) stx.
Proof.
  intros Hs Hty Ha Hc. destruct (run_validate e tx X Hty Ha Hc) as (r & Hr & H1 & H2 & Hiff).
  destruct (lift _ _ s X r X (fun d => validate_refined d e tx) Hs Hr H1 H2) as (s' & Ev & Hs').
  by exists r, s'.
Qed.

(** Processing at a time pays every
    record that has matured to its delegator, deletes exactly these records,
    keeps the sum of all funds, and leaves none to pay at that time again. *)
Theorem exec_mature_once s X now :
  sim s X -> solvent (cur X) ->
  exists s' X', process_mature_undelegations now s =
      (Ok (wrap 32 (Z.of_nat (length (mature_of now (cur X))))), s') /\ sim s' X' /\
    wealth (cur X') = wealth (cur X) /\ solvent (cur X') /\
    (forall a, balance (account_of (cur X') a) = balance (account_of (cur X) a) + due a (mature_of now (cur X))) /\
    (forall k u, unds (cur X') !! k = Some u <-> unds (cur X) !! k = Some u /\ ~ is_unlocked u now) /\
    exists s'', process_mature_undelegations now s' = (Ok 0, s'').
Proof.
  intros Hs Hsol. pose proof Hs as ((_ & _ & _ & Hk) & _). pose proof (run_mature now X Hk) as Er.
  destruct (lift _ _ s X _ _ (fun d => mature_refined d now) Hs Er) as (s' & Em & Hs'); [done|done|].
  destruct (mature_records now (cur X)) as [Hm Hnd]; [intros k u Hu; by apply Hk|].
  destruct (pay_all_step (mature_of now (cur X)) (cur X) Hsol) as (W & H2 & Hun & Hbal);
    [intros u Hu; by apply Hm|done|].
  assert (forall k u, unds (foldl pay (cur X) (mature_of now (cur X))) !! k = Some u <->
    unds (cur X) !! k = Some u /\ ~ is_unlocked u now) as Hleft by (apply paid_records; [done|intros k u Hu; by apply Hk|done]).
  eexists s', _. split_and!; [exact Em|exact Hs'|exact W|exact H2|exact Hbal|exact Hleft|].
  pose proof (run_mature now (set_cur (foldl pay (cur X) (mature_of now (cur X))) X)) as Er2.
  destruct (lift _ _ s' _ _ _ (fun d => mature_refined d now) Hs' (Er2 ltac:(apply Hs'))) as (s'' & Em2 & _);
    [done|done|].
  exists s''. rewrite Em2. cbn [cur set_cur]. rewrite (none_mature now (cur X) _ Hleft); [done|].
  intros k u Hu. by apply Hk.
Qed.

(** A block of native transactions, each with
    the gas and price of [plain], valid or not, executes to the end, unless one
    fails after validation; it gives one receipt per transaction, in order, and
    the sum of the gas of the receipts, and keeps the sum of all funds. Blocks
    of transfers and inference records always execute to the end. *)
Theorem exec_block_conserves s X e txs producer :
  sim s X -> solvent (cur X) -> addr_ok producer -> Forall plain txs ->
  Forall unfailing txs \/ fst (execute_transactions no_create no_call e txs producer X) <> Panic ->
  exists rs s' X', execute_transactions evm_create evm_call e txs producer s =
      (Ok (rs, foldl (fun c r => u64_add c (r_gas_used r)) 0 rs), s') /\ sim s' X' /\
    wealth (cur X') = wealth (cur X) /\ solvent (cur X') /\
    r_tx_hash <$> rs = (fun tx => blake3 (to_bytes_without_signature tx)) <$> txs.
Proof.
  intros Hs Hsol Hp Hpl Hor.
  destruct (run_block e producer Hp 0 txs [] 0 X Hsol Hpl) as [[Hpan Hun]|(rs & X' & Er & W & H' & Hh & _)].
  { by destruct Hor. }
  destruct (lift _ _ s X _ _ (fun d => block_refined evm_create evm_call d e txs producer) Hs Er)
    as (s' & Ex & Hs'); [done|done|]. by exists rs, s', X'.
Qed.

(** A pending undelegation is
    stored under delegator, validator and unlock time, so a second one of the
    same delegator and validator with the same unlock time, as in the same
    block, replaces the first, and what the first held is lost. *)
Theorem exec_undelegation_overwrites s X e stx producer gas A' v u :
  sim s X -> solvent (cur X) -> admissible stx (cur X) -> addr_ok producer ->
  tx_type (st_tx stx) = Undelegate -> tx_to (st_tx stx) = Some v ->
  unds (cur X) !! storage_key (st_sender stx) v (u64_add (block_timestamp e / 1000) UNSTAKE_DELAY_SECS) = Some u ->
  gas_of (st_tx stx) <= tx_gas_limit (st_tx stx) ->
  tx_gas_limit (st_tx stx) * tx_gas_price (st_tx stx) < 2 ^ 64 ->
  effect e (st_tx stx) (st_sender stx) (prepaid (st_tx stx) (st_sender stx) (cur X)) = inl (gas, A') ->
  exists s' X', execute_db e stx producer s = (Ok (exec_success gas), s') /\ sim s' X' /\
    wealth (cur X') = wealth (cur X) - u_amount u.
Proof.
  intros Hs Hsol Hadm Hp Ht Hto Hu Hg Hpr Heff. pose proof (effect_gas _ _ _ _ _ _ Heff) as Hgas.
  destruct (success_step e stx producer X Hadm Hsol gas A') as [W _]; [|done|done|].
  { rewrite Hgas. split; [|done]. unfold gas_of, MINIMUM_GAS. by rewrite Ht. }
  unfold overwritten in W. rewrite Ht, Hto, Hu in W.
  destruct (lift_execute s X e stx producer _ _ Hs (run_execute_ok e stx producer X Hp Hadm Hsol gas A' Heff))
    as (s' & Ex & Hs').
  eexists s', _. split_and!; [exact Ex|exact Hs'|exact W].
Qed.
End props.

(** ** A small network *)

Section examples.
#[local] Existing Instances tagged_blake3 tagged_blake3_ok node_borsh node_borsh_ok
  account_borsh account_borsh_ok no_legacy undelegation_borsh undelegation_borsh_ok unsigned_borsh.

(** Every signature verifies. *)
Definition any_signature : Ed25519 := {|
  SigningKey := unit;
  verifying_key _ := [];
  signing_key_sign _ _ := [];
  verifying_key_ok _ := true;
  verifying_key_verify _ _ _ := true;
|}.
#[local] Existing Instance any_signature.

Definition ex_key : PublicKey := replicate 32 7.
Definition ex_sender : Address := address_from_public_key ex_key.
Definition ex_validator : Address := replicate 20 34.
Definition ex_producer : Address := replicate 20 51.
Definition ex_executor : Executor := executor_new DEFAULT_CHAIN_ID.

(** A sender with 20,000 QFC of which 500 are delegated, and a validator. *)
Definition ex_accounts : list (Address * Account) :=
  [(ex_sender, Acc.set_delegation ex_validator (500 * ONE_QFC) (Acc.new_eoa_with_balance (20000 * ONE_QFC)));
   (ex_validator, Acc.new_validator (100000 * ONE_QFC))].
Definition ex_record : Undelegation :=
  mkUndelegation ex_sender ex_validator (7 * ONE_QFC) UNSTAKE_DELAY_SECS.
Definition ex_model (us : list Undelegation) : model :=
  mkModel (accounts_of ex_accounts us) (accs (accounts_of ex_accounts us)) ∅.

Definition ex_tx (t : TransactionType) (to : option Address) (value limit : Z) : Transaction :=
  mkTransaction t DEFAULT_CHAIN_ID 0 to value [] limit 10 ex_key [].
Definition ex_signed (tx : Transaction) : SignedTransaction :=
  mkSigned tx (blake3 (to_bytes_without_signature tx)) ex_sender.

Definition ex_evm_create {S} (e : Executor) (a b : Address) (c : bytes) (x y : Z) : ST S ExecutorError EvmResult :=
  fail EvmError.
Definition ex_evm_call {S} (e : Executor) (a b c : Address) (d : bytes) (x y : Z) : ST S ExecutorError EvmResult :=
  fail EvmError.

Lemma ex_state us : Forall (fun u => addr_ok (u_delegator u)) us ->
  exists s : StateDB Lru.t RocksMap, sim s (ex_model us).
Proof. intros Hus. apply build_committed; [by_decide|done]. Qed.

Abbreviation ex_effect stx us :=
  (effect ex_executor (st_tx stx) (st_sender stx) (prepaid (st_tx stx) (st_sender stx) (cur (ex_model us)))).
Definition after (r : (Z * astate) + ExecutorError) : astate :=
  match r with inl (_, A) => A | inr _ => mkA ∅ ∅ end.

Lemma ex_admissible t to value limit us :
  in_u 256 value -> in_u 64 limit -> (to = None \/ to = Some ex_validator) -> t <> ContractCreate ->
  value + 10 * limit <= 20000 * ONE_QFC -> us = [] \/ us = [ex_record] ->
  admissible (ex_signed (ex_tx t to value limit)) (cur (ex_model us)).
Proof.
  intros Hv Hl Hto Ht Hb Hus. split; [split; [by split_and!|split; [by apply Forall_nil|]]|split; [|split; [split|]]].
  - intros a Ha. simpl in Ha. destruct Hto; simplify_eq. by_decide.
  - by_decide.
  - done.
  - intros _ a Ha. simpl in Ha. destruct Hto; simplify_eq. destruct Hus as [->| ->]; by vm_compute.
  - cbn [st_tx ex_signed ex_tx tx_value tx_gas_price tx_gas_limit st_sender].
    replace (balance _) with (20000 * ONE_QFC); [done|]. destruct Hus as [->| ->]; by vm_compute.
Qed.

Definition ex_transfer := ex_signed (ex_tx Transfer (Some ex_validator) 5 30000).
Lemma exec_success_conserves_witness : exists s s' : StateDB Lru.t RocksMap,
  execute ex_evm_create ex_evm_call ex_executor ex_transfer ex_producer s = (Ok (exec_success 21000), s').
Proof.
  destruct (ex_state []) as [s Hs]; [done|]. exists s.
  destruct (exec_success_conserves ex_evm_create ex_evm_call s (ex_model []) ex_executor
    ex_transfer ex_producer 21000 (after (ex_effect ex_transfer [])) Hs) as (_ & _ & _ & s' & E & _).
  - by_decide.
  - apply ex_admissible; (by_decide || by auto).
  - by_decide.
  - done.
  - by_decide.
  - by_decide.
  - vm_compute; reflexivity.
  - by exists s'.
Defined.

Definition ex_exit := ex_signed (ex_tx ValidatorExit None 0 30000).
Lemma exec_failure_charges_witness : exists s s' : StateDB Lru.t RocksMap,
  execute ex_evm_create ex_evm_call ex_executor ex_exit ex_producer s =
    (Ok (exec_failure 30000 (MsgError NotValidator)), s').
Proof.
  destruct (ex_state []) as [s Hs]; [done|]. exists s.
  destruct (exec_failure_charges ex_evm_create ex_evm_call s (ex_model []) ex_executor
    ex_exit ex_producer NotValidator Hs) as (_ & _ & s' & E & _).
  - by_decide.
  - apply ex_admissible; (by_decide || by auto).
  - by_decide.
  - done.
  - vm_compute; reflexivity.
  - by exists s'.
Defined.

Definition ex_stake (limit : Z) := ex_signed (ex_tx Stake None MIN_VALIDATOR_STAKE limit).

Lemma exec_stake_cap_witness : exists (s s' : StateDB Lru.t RocksMap) X',
  execute ex_evm_create ex_evm_call ex_executor (ex_stake 42000) ex_producer s = (Ok (exec_success 42000), s') /\
  sim s' X' /\
  100 * validator_stake ex_sender (cur X') <= MAX_VALIDATOR_STAKE_PERCENT * network_stake (cur X').
Proof.
  destruct (ex_state []) as [s Hs]; [done|]. exists s.
  apply (exec_stake_cap ex_evm_create ex_evm_call s (ex_model []) ex_executor
    (ex_stake 42000) ex_producer 42000 (after (ex_effect (ex_stake 42000) []))); try exact Hs; try by_decide.
  - apply ex_admissible; (by_decide || by auto).
  - vm_compute; reflexivity.
Defined.

Lemma ex_accepts : accepts ex_executor (st_tx ex_transfer) (cur (ex_model [])) ex_transfer.
Proof. exists ex_sender. split_and!; try done; by_decide. Qed.

Lemma exec_no_replay_witness : exists (s s' s'' : StateDB Lru.t RocksMap) res er,
  execute ex_evm_create ex_evm_call ex_executor ex_transfer ex_producer s = (Ok res, s') /\
  validate_transaction ex_executor (st_tx ex_transfer) s' = (Err er, s'').
Proof.
  destruct (ex_state []) as [s Hs]; [done|]. exists s.
  destruct (exec_no_replay ex_evm_create ex_evm_call s (ex_model []) ex_executor ex_transfer ex_producer
    ex_executor Hs) as (res & s' & X' & s'' & er & E1 & _ & _ & E2).
  - by_decide.
  - apply ex_admissible; (by_decide || by auto).
  - by_decide.
  - apply ex_accepts.
  - by_decide.
  - by eexists.
  - by left.
  - by exists s', s'', res, er.
Defined.

(** A transfer, a rejected transaction (its nonce is not the account's) and a
    transaction that fails, each on the database of [ex_model]. *)
Definition ex_late : Transaction := mkTransaction Transfer DEFAULT_CHAIN_ID 1 (Some ex_validator) 5 [] 30000 10 ex_key [].
Lemma ex_late_typed : tx_typed ex_late.
Proof.
  split; [by split_and!|]. split; [by apply Forall_nil|]. intros a [= <-]. by_decide.
Qed.
Lemma ex_exit_accepts : accepts ex_executor (st_tx ex_exit) (cur (ex_model [])) ex_exit.
Proof. exists ex_sender. split_and!; try done; by_decide. Qed.

Lemma exec_transaction_exact_witness : exists s s1 s2 s3 : StateDB Lru.t RocksMap,
  execute_one ex_evm_create ex_evm_call ex_executor ex_producer 0 (st_tx ex_transfer) 0 s =
    (Ok (receipt_of_success 0 (st_tx ex_transfer) 0 21000), s1) /\
  execute_one ex_evm_create ex_evm_call ex_executor ex_producer 1 (st_tx ex_exit) 7 s =
    (Ok (receipt_of_failure 1 (st_tx ex_exit) 7 NotValidator), s2) /\
  exists er, execute_one ex_evm_create ex_evm_call ex_executor ex_producer 2 ex_late 7 s =
    (Ok (receipt_of_failure 2 ex_late 7 er), s3).
Proof.
  destruct (ex_state []) as [s Hs]; [done|]. exists s.
  pose proof (fun i tx cum Hty => exec_transaction_exact ex_evm_create ex_evm_call s (ex_model []) ex_executor ex_producer
    i tx cum Hs ltac:(by_decide) ltac:(by_decide) Hty) as Hex.
  assert (admissible ex_transfer (cur (ex_model []))) as (Ht1 & _ & Hn1 & _)
    by (apply ex_admissible; (by_decide || by auto)).
  assert (admissible ex_exit (cur (ex_model []))) as (Ht2 & _ & Hn2 & _)
    by (apply ex_admissible; (by_decide || by auto)).
  destruct (Hex 0%nat (st_tx ex_transfer) 0 Ht1 ltac:(by_decide) ltac:(by eexists) Hn1) as [_ H1].
  destruct (H1 ex_transfer ex_accepts) as (s1 & E1 & _).
  destruct (Hex 1%nat (st_tx ex_exit) 7 Ht2 ltac:(by_decide) ltac:(by eexists) Hn2) as [_ H2].
  destruct (H2 ex_exit ex_exit_accepts ltac:(reflexivity)) as (s2 & E2 & _).
  destruct (Hex 2%nat ex_late 7 ex_late_typed ltac:(by_decide) ltac:(by eexists) Hn1) as [H3 _].
  destruct H3 as (er & s3 & E3 & _).
  { intros stx (a & _ & ->%signed_by_claimed & _ & _ & _ & Hn & _). by vm_compute in Hn. }
  exists s1, s2, s3. split_and!; [exact E1|exact E2|by exists er].
Defined.

(** A second sender, without funds, whose free exit fails after the transfer. *)
Definition ex_other : Address := replicate 20 77.
Definition ex_free_exit : SignedTransaction :=
  let tx := mkTransaction ValidatorExit DEFAULT_CHAIN_ID 0 None 0 [] 30000 0 ex_key [] in
  mkSigned tx (blake3 (to_bytes_without_signature tx)) ex_other.
Definition ex_dirty : model :=
  set_cur (settled (st_tx ex_transfer) ex_sender ex_producer 21000 (after (ex_effect ex_transfer []))) (ex_model []).

Lemma exec_failure_undoes_block_witness : exists (s s1 s2 s3 : StateDB Lru.t RocksMap) r root A,
  execute ex_evm_create ex_evm_call ex_executor ex_transfer ex_producer s = (Ok (exec_success 21000), s1) /\
  execute ex_evm_create ex_evm_call ex_executor ex_free_exit ex_producer s1 = (r, s2) /\
  state_commit s2 = (Ok root, s3) /\ state_ok (state_with_root (db s3) root : StateDB Lru.t RocksMap) A /\
  nonce (account_of A ex_sender) = 0 /\ balance (account_of A ex_sender) = 20000 * ONE_QFC.
Proof.
  destruct (ex_state []) as [s Hs]; [done|]. exists s.
  destruct (lift_execute ex_evm_create ex_evm_call s (ex_model []) ex_executor ex_transfer ex_producer
    (exec_success 21000) ex_dirty Hs) as (s1 & E1 & Hs1).
  { apply run_execute_ok; [by_decide|apply ex_admissible; (by_decide || by auto)|by_decide|vm_compute; reflexivity]. }
  destruct (exec_failure_undoes_block ex_evm_create ex_evm_call s1 ex_dirty ex_executor ex_free_exit ex_producer
    NotValidator Hs1) as (r & s2 & root & s3 & M & E2 & _ & E3 & Hok & HM).
  - by_decide.
  - split; [split; [by split_and!|split; [by apply Forall_nil|done]]|]. split; [by_decide|]. split; [by split|by_decide].
  - by_decide.
  - vm_compute; reflexivity.
  - exists s1, s2, s3, r, root, (mkA M (unds (cur ex_dirty))). split_and!; [done|done|done|done| |];
      unfold account_of; cbn [accs]; rewrite HM by (by vm_compute); by vm_compute.
Defined.

Lemma exec_validate_exact_witness : exists s s' : StateDB Lru.t RocksMap,
  validate_transaction ex_executor (st_tx ex_transfer) s = (Ok ex_transfer, s').
Proof.
  destruct (ex_state []) as [s Hs]; [done|].
  assert (admissible ex_transfer (cur (ex_model []))) as (Hty & _)
    by (apply ex_admissible; (by_decide || by auto)).
  destruct (exec_validate_exact s (ex_model []) ex_executor (st_tx ex_transfer) Hs Hty ltac:(by_decide)
    ltac:(by eexists)) as (r & s' & E & _ & _ & _ & Hiff).
  exists s, s'. rewrite E. f_equal. apply Hiff, ex_accepts.
Defined.

Lemma exec_mature_once_witness : exists s s' s'' : StateDB Lru.t RocksMap,
  process_mature_undelegations UNSTAKE_DELAY_SECS s = (Ok 1, s') /\
  process_mature_undelegations UNSTAKE_DELAY_SECS s' = (Ok 0, s'').
Proof.
  destruct (ex_state [ex_record]) as [s Hs]; [by_decide|].
  destruct (exec_mature_once s (ex_model [ex_record]) UNSTAKE_DELAY_SECS Hs ltac:(by_decide))
    as (s' & X' & E & _ & _ & _ & _ & _ & s'' & E2).
  exists s, s', s''. split; [|done]. rewrite E. by vm_compute.
Defined.

Lemma ex_plain : plain (st_tx ex_transfer).
Proof.
  assert (admissible ex_transfer (cur (ex_model []))) as (Hty & _)
    by (apply ex_admissible; (by_decide || by auto)).
  split_and!; [done|by_decide|by eexists|done|done|by_decide|by_decide].
Qed.

Lemma exec_block_conserves_witness : exists (s s' : StateDB Lru.t RocksMap) rs gas,
  execute_transactions ex_evm_create ex_evm_call ex_executor [st_tx ex_transfer; st_tx ex_transfer]
    ex_producer s = (Ok (rs, gas), s') /\ length rs = 2%nat.
Proof.
  destruct (ex_state []) as [s Hs]; [done|]. pose proof ex_plain as Hpl.
  destruct (exec_block_conserves ex_evm_create ex_evm_call s (ex_model []) ex_executor
    [st_tx ex_transfer; st_tx ex_transfer] ex_producer Hs ltac:(by_decide) ltac:(by_decide)
    ltac:(by apply Forall_cons; split; [|apply Forall_singleton])
    ltac:(left; apply Forall_cons; split; [|apply Forall_singleton]; by left)) as (rs & s' & X' & E & _ & _ & _ & Hh).
  eexists s, s', rs, _. split; [exact E|]. apply (f_equal length) in Hh. by rewrite !length_fmap in Hh.
Defined.

Definition ex_undelegate := ex_signed (ex_tx Undelegate (Some ex_validator) 0 63000).
Lemma exec_undelegation_overwrites_witness : exists (s s' : StateDB Lru.t RocksMap) X',
  execute ex_evm_create ex_evm_call ex_executor ex_undelegate ex_producer s = (Ok (exec_success 63000), s') /\
  sim s' X' /\ wealth (cur X') = wealth (cur (ex_model [ex_record])) - 7 * ONE_QFC.
Proof.
  destruct (ex_state [ex_record]) as [s Hs]; [by_decide|]. exists s.
  apply (exec_undelegation_overwrites ex_evm_create ex_evm_call s (ex_model [ex_record]) ex_executor
    ex_undelegate ex_producer 63000 (after (ex_effect ex_undelegate [ex_record])) ex_validator ex_record);
    try exact Hs; try by_decide.
  - apply ex_admissible; (by_decide || by auto).
  - vm_compute; reflexivity.
Defined.
End examples.
