(* ===== verification/Scoring.v ===== *)
(** * Contribution scores (src/crates/qfc-consensus/src/scoring.rs)

    The score of a validator is a weighted sum of ratios, computed in doubles
    (Float64.v), multiplied by a factor of the network's state and truncated to
    an integer. The rounding of every operation is modelled. *)

From S2P Require Import Prelude Float64 Externals Types Crypto Blocks.
From Stdlib Require Import SpecFloat.

Definition WEIGHT_STAKE : f64 := f64_lit 30 100.
Definition WEIGHT_COMPUTE : f64 := f64_lit 20 100.
Definition WEIGHT_UPTIME : f64 := f64_lit 15 100.
Definition WEIGHT_ACCURACY : f64 := f64_lit 15 100.
Definition WEIGHT_NETWORK : f64 := f64_lit 10 100.
Definition WEIGHT_STORAGE : f64 := f64_lit 5 100.
Definition WEIGHT_REPUTATION : f64 := f64_lit 5 100.

Inductive NetworkState := Normal | Congested | StorageShortage | UnderAttack.

#[export] Instance NetworkState_eq_dec : EqDecision NetworkState.
Proof. solve_decision. Defined.

(** [x as f64 / y as f64] on integers. *)
Definition int_ratio (x y : Z) : f64 := f64_div (f64_of x) (f64_of y).

Definition get_network_multiplier (v : ValidatorNode) (state : NetworkState) : f64 :=
  match state with
  | Normal => f64_of 1
  | Congested => if v_provides_compute v then f64_lit 12 10 else f64_of 1
  | StorageShortage => if 1000 <? v_storage_provided_gb v then f64_lit 115 100 else f64_of 1
  | UnderAttack =>
    if f64_ltb (f64_lit 9 10) (Val.reputation_ratio v) then f64_lit 13 10
    else if f64_ltb (Val.reputation_ratio v) (f64_lit 5 10) then f64_lit 7 10
    else f64_of 1
  end.

(** The share of the compute dimension: inference when both scores are there,
    else the hashrate. *)
Definition compute_share (v : ValidatorNode) (total_hashrate total_inference_score : Z) (score : f64) : f64 :=
  if v_provides_compute v then
    if (0 <? total_inference_score) && (0 <? v_inference_score v) then
      f64_add score (f64_mul (int_ratio (v_inference_score v) total_inference_score) WEIGHT_COMPUTE)
    else if 0 <? total_hashrate then
      f64_add score (f64_mul (int_ratio (v_hashrate v) total_hashrate) WEIGHT_COMPUTE)
    else score
  else score.

Definition service_share (v : ValidatorNode) : f64 :=
  let latency_score :=
    f64_div (f64_of 1) (f64_add (f64_of 1) (f64_div (f64_of (v_avg_latency_ms v)) (f64_of 100))) in
  let bandwidth_score := f64_min (f64_div (f64_of (v_bandwidth_mbps v)) (f64_of 1000)) (f64_of 1) in
  f64_add (f64_mul latency_score (f64_lit 6 10)) (f64_mul bandwidth_score (f64_lit 4 10)).

Definition calculate_contribution_score_v2 (v : ValidatorNode)
    (total_stake total_hashrate total_inference_score total_storage_gb : Z) (state : NetworkState) : Z :=
  let score := S754_zero false in
  let score :=
    if 0 <? total_stake
    then f64_add score (f64_mul (int_ratio (low_u128 (v_stake v)) total_stake) WEIGHT_STAKE) else score in
  let score := compute_share v total_hashrate total_inference_score score in
  let score := f64_add score (f64_mul (Val.uptime_ratio v) WEIGHT_UPTIME) in
  let score := f64_add score (f64_mul (Val.accuracy_ratio v) WEIGHT_ACCURACY) in
  let score := f64_add score (f64_mul (service_share v) WEIGHT_NETWORK) in
  let score :=
    if 0 <? total_storage_gb
    then f64_add score (f64_mul (int_ratio (v_storage_provided_gb v) total_storage_gb) WEIGHT_STORAGE)
    else score in
  let score := f64_add score (f64_mul (Val.reputation_ratio v) WEIGHT_REPUTATION) in
  let score := f64_mul score (get_network_multiplier v state) in
  f64_to_u64 (f64_mul score (f64_of 1000000000)).

(** No total of the inference scores is passed: always the hashrate. *)
Definition calculate_contribution_score (v : ValidatorNode)
    (total_stake total_hashrate total_storage_gb : Z) (state : NetworkState) : Z :=
  calculate_contribution_score_v2 v total_stake total_hashrate 0 total_storage_gb state.

Definition score_to_probability (score total_score : Z) : f64 :=
  if total_score =? 0 then S754_zero false else int_ratio score total_score.

(** [sum()] of [u64]s wraps. *)
Definition u64_sum (l : list Z) : Z := foldl u64_add 0 l.

Definition total_contribution_score (validators : list ValidatorNode) : Z :=
  u64_sum (map v_contribution_score validators).

Definition calculate_inference_score (flops_total tasks_completed : Z) (verification_pass_rate : f64) : Z :=
  if tasks_completed =? 0 then 0 else
  let flops_normalized := f64_min (f64_div (f64_of flops_total) (f64_of 1000000000)) (f64_of 1000000) in
  let score :=
    f64_mul (f64_mul (f64_mul flops_normalized (f64_sqrt (f64_of tasks_completed))) verification_pass_rate)
      verification_pass_rate in
  f64_to_u64 (f64_mul score (f64_of 1000)).

Definition total_inference_score (validators : list ValidatorNode) : Z :=
  u64_sum (map v_inference_score validators).
