(* ===== verification/Engine.v ===== *)
(** * The consensus engine (src/crates/qfc-consensus/src/engine.rs)

    [ConsensusEngine] holds the registered validators, the votes received and
    cast, a cache of block records for the detection of double signing, the
    current epoch and the genesis seed. Every method is a function here: the
    readers return a value, the writers the engine after the call. The
    wall-clock time a method reads is its argument [now] (milliseconds), and the
    locks are not modelled: a method is one step. Calls that cannot return
    normally (an overflowing [U256] product) return [None]. *)

From S2P Require Import Prelude Float64 Externals Nibbles Storage Trie Types Crypto Blocks Pow Receipts.
From S2P Require Import StateDB StateOps Executor Scoring.

Definition FINALITY_THRESHOLD : f64 := f64_lit 67 100.
Definition MAX_INFERENCE_PROOFS_PER_BLOCK : nat := 500.
Definition BLOCK_VERSION : Z := 1.
Definition SLASH_DOUBLE_SIGN_PERCENT : Z := 50.
Definition JAIL_DOUBLE_SIGN_MS : Z := JAIL_PERMANENT_MS.
Definition CHECKPOINT_RETENTION : nat := 64.

Inductive ConsensusError :=
| InvalidProducer | InvalidVrfProof | InvalidSignature_e | InvalidStateTransition | InvalidTimestamp
| BlockTooLarge | NotValidator | GenesisSeedUnset | ValidatorJailed | NotOurTurn | FinalityNotReached
| State_e (s : bytes) | Executor_e (s : bytes) | Network_e (s : bytes) | StorageError_e (s : bytes)
| DoubleSign_e.

Record ConsensusConfig := mkConfig {
  blocks_per_epoch : Z;
  finality_threshold : f64;
  vote_timeout : Z;
}.
Definition config_default : ConsensusConfig := mkConfig 3 FINALITY_THRESHOLD 5.

Record BlockRecord := mkRecord {
  rec_hash : Hash;
  rec_producer : Address;
  rec_signature : Signature;
}.

(** [hex::encode] of the third-party crate, used to print an address. *)
Class HexCrate : Type := hex_encode : bytes -> bytes.

Section engine.
Context `{B : Blake3} `{ED : Ed25519} `{HX : HexCrate}.
Context `{BH : Borsh BlockHeader} `{BV : Borsh UnsignedVote} `{BI : Borsh UnsignedInferenceProof}.
Context `{BT : Borsh UnsignedTransaction} `{BR : Borsh Receipt}.
Context `{BN : Borsh ValidatorNode} `{BC : Borsh ValidatorCheckpoint} `{BE : Borsh DoubleSignEvidence}.
Context {Database : Type} `{DB : !RocksDB Database}.

Record ConsensusEngine := mkEngine {
  config : ConsensusConfig;
  validator_key : option VrfKeypair;
  address : option Address;
  current_epoch : Epoch;
  validators : list ValidatorNode;
  pending_votes : gmap Hash (list Vote);
  finalized_height : Z;
  network_state : NetworkState;
  block_cache : gmap Z (list BlockRecord);
  max_blocks_per_height : nat;
  cache_depth : Z;
  genesis_seed : option bytes;
  own_votes : gmap Z Hash;
}.

Definition engine_of (c : ConsensusConfig) (key : option VrfKeypair) (a : option Address) : ConsensusEngine :=
  mkEngine c key a epoch_default [] ∅ 0 Normal ∅ 10 100 None ∅.
Definition engine_new (c : ConsensusConfig) : ConsensusEngine := engine_of c None None.
Definition engine_new_validator (c : ConsensusConfig) (key : VrfKeypair) (a : Address) : ConsensusEngine :=
  engine_of c (Some key) (Some a).

(** Assignments to the fields. *)
Definition set_epoch (x : Epoch) (e : ConsensusEngine) : ConsensusEngine :=
  mkEngine (config e) (validator_key e) (address e) x (validators e) (pending_votes e) (finalized_height e)
    (network_state e) (block_cache e) (max_blocks_per_height e) (cache_depth e) (genesis_seed e) (own_votes e).
Definition update_validators (x : list ValidatorNode) (e : ConsensusEngine) : ConsensusEngine :=
  mkEngine (config e) (validator_key e) (address e) (current_epoch e) x (pending_votes e) (finalized_height e)
    (network_state e) (block_cache e) (max_blocks_per_height e) (cache_depth e) (genesis_seed e) (own_votes e).
Definition set_votes (x : gmap Hash (list Vote)) (o : gmap Z Hash) (e : ConsensusEngine) : ConsensusEngine :=
  mkEngine (config e) (validator_key e) (address e) (current_epoch e) (validators e) x (finalized_height e)
    (network_state e) (block_cache e) (max_blocks_per_height e) (cache_depth e) (genesis_seed e) o.
Definition set_finalized_height (x : Z) (e : ConsensusEngine) : ConsensusEngine :=
  mkEngine (config e) (validator_key e) (address e) (current_epoch e) (validators e) (pending_votes e) x
    (network_state e) (block_cache e) (max_blocks_per_height e) (cache_depth e) (genesis_seed e) (own_votes e).
Definition set_network_state (x : NetworkState) (e : ConsensusEngine) : ConsensusEngine :=
  mkEngine (config e) (validator_key e) (address e) (current_epoch e) (validators e) (pending_votes e)
    (finalized_height e) x (block_cache e) (max_blocks_per_height e) (cache_depth e) (genesis_seed e) (own_votes e).
Definition set_block_cache (x : gmap Z (list BlockRecord)) (e : ConsensusEngine) : ConsensusEngine :=
  mkEngine (config e) (validator_key e) (address e) (current_epoch e) (validators e) (pending_votes e)
    (finalized_height e) (network_state e) x (max_blocks_per_height e) (cache_depth e) (genesis_seed e) (own_votes e).
Definition set_seed (x : option bytes) (e : ConsensusEngine) : ConsensusEngine :=
  mkEngine (config e) (validator_key e) (address e) (current_epoch e) (validators e) (pending_votes e)
    (finalized_height e) (network_state e) (block_cache e) (max_blocks_per_height e) (cache_depth e) x (own_votes e).

(** ** Validators and scores *)

(** [iter().find(|v| v.address == a)] *)
Definition find_validator (a : Address) (l : list ValidatorNode) : option ValidatorNode :=
  snd <$> list_find (fun v => v_address v = a) l.

(** [if let Some(v) = iter_mut().find(|v| v.address == a) { f(v) }] *)
Fixpoint update_first (a : Address) (f : ValidatorNode -> ValidatorNode) (l : list ValidatorNode) :
    list ValidatorNode :=
  match l with
  | [] => []
  | v :: l' => if decide (v_address v = a) then f v :: l' else v :: update_first a f l'
  end.

Definition with_validator (a : Address) (f : ValidatorNode -> ValidatorNode) (e : ConsensusEngine) : ConsensusEngine :=
  update_validators (update_first a f (validators e)) e.

(** [sum()] of [u128]s wraps. *)
Definition total_network_stake (l : list ValidatorNode) : Z :=
  foldl (fun acc v => wrap 128 (acc + low_u128 (Val.total_stake v))) 0 l.

Definition sum_hashrate (l : list ValidatorNode) : Z :=
  u64_sum (map v_hashrate (filter (fun v => v_provides_compute v = true) l)).

Definition update_contribution_scores (e : ConsensusEngine) : ConsensusEngine :=
  let total_stake := total_network_stake (validators e) in
  let total_hashrate := sum_hashrate (validators e) in
  let total_storage := u64_sum (map v_storage_provided_gb (validators e)) in
  update_validators
    (map (fun v => Val.set_score
            (calculate_contribution_score v total_stake total_hashrate total_storage (network_state e)) v)
      (validators e)) e.

(** ** Epochs and the election *)

Definition set_genesis_seed (seed : bytes) (e : ConsensusEngine) : ConsensusEngine :=
  match genesis_seed e with None => set_seed (Some seed) e | Some _ => e end.

Definition start_epoch (now : Z) (epoch_number : Z) (seed : bytes) (e : ConsensusEngine) : ConsensusEngine :=
  update_contribution_scores (set_epoch (epoch_new epoch_number seed now) e).

Definition derive_epoch_seed (e : ConsensusEngine) (epoch_number : Z) : Result ConsensusError bytes :=
  match genesis_seed e with
  | None => Err GenesisSeedUnset
  | Some genesis => Ok (blake3_hash (genesis ++ to_le 8 epoch_number))
  end.

Definition slot_of_timestamp (timestamp_ms : Z) : Z := timestamp_ms / BLOCK_INTERVAL_MS.
Definition epoch_of_slot (slot : Z) : Z := slot / (EPOCH_DURATION_MS / BLOCK_INTERVAL_MS).

Definition maybe_advance_epoch (now : Z) (e : ConsensusEngine) : Z * ConsensusEngine :=
  let target := now / EPOCH_DURATION_MS in
  if target =? ep_number (current_epoch e) then (target, e) else
  match derive_epoch_seed e target with
  | Ok seed => (target, start_epoch now target seed e)
  | _ => (ep_number (current_epoch e), e)
  end.

Definition addr_key_le (x y : Address * PublicKey) : Prop := bytes_le (fst x) (fst y).
#[global] Instance addr_key_le_dec x y : Decision (addr_key_le x y).
Proof. unfold addr_key_le. apply _. Defined.

Definition election_set (e : ConsensusEngine) : list (Address * PublicKey) :=
  merge_sort addr_key_le (map (fun v => (v_address v, v_public_key v)) (validators e)).

(** The indexing [set[idx]] is in range: [idx] is a remainder by the length. *)
Definition select_producer_with_seed (e : ConsensusEngine) (slot : Z) (epoch_seed : bytes) : option Address :=
  let set := election_set e in
  if bool_decide (set = []) then None else
  let offset := from_le (take 8 epoch_seed) in
  let idx := u64_add slot offset mod Z.of_nat (length set) in
  fst <$> set !! Z.to_nat idx.

Definition select_producer (e : ConsensusEngine) (slot : Z) : option Address :=
  match derive_epoch_seed e (epoch_of_slot slot) with
  | Ok seed => select_producer_with_seed e slot seed
  | _ => None
  end.

Definition should_produce (e : ConsensusEngine) (slot : Z) : bool :=
  match address e, select_producer e slot with
  | Some our_address, Some p => bool_decide (p = our_address)
  | _, _ => false
  end.

(** ** Blocks *)

Definition transaction_hashes (txs : list Transaction) : list Hash :=
  map (fun tx => blake3_hash (to_bytes_without_signature tx)) txs.
Definition receipt_hashes (receipts : list Receipt) : list Hash := map (fun r => blake3_hash (to_vec r)) receipts.
Definition proof_hashes (proofs : list InferenceProof) : list Hash :=
  map (fun p => blake3_hash (inference_bytes_without_signature p)) proofs.

Definition block_hash (b : Block) : Hash := blake3_hash (header_bytes b).

(** A block with its signature: the VRF proof of the block hash. *)
Definition sign_block (key : VrfKeypair) (b : Block) : Block :=
  mkBlock (header b) (transactions b) (votes b) (inference_proofs b) (vrf_proof_bytes (prove key (block_hash b))).

Definition produce_block (e : ConsensusEngine) (parent : Block) (txs : list Transaction) (receipts : list Receipt)
    (state_root : Hash) (gas_used : Z) (proofs : list InferenceProof) (timestamp_ms : Z) :
    Result ConsensusError Block :=
  match validator_key e with
  | None => Err NotValidator
  | Some key =>
    let slot := slot_of_timestamp timestamp_ms in
    match derive_epoch_seed e (epoch_of_slot slot) with
    | Err err => Err err
    | Panic => Panic
    | NoFuel => NoFuel
    | Ok seed =>
      let vrf_proof := prove_with_seed key seed in
      match address e with
      | None => Err NotValidator
      | Some our_address =>
        match find_validator our_address (validators e) with
        | None => Err NotValidator
        | Some validator =>
          let h := mkBlockHeader BLOCK_VERSION (u64_add (number parent) 1) (block_hash parent) state_root
            (merkle_root (transaction_hashes txs)) (merkle_root (receipt_hashes receipts))
            (merkle_root (proof_hashes proofs)) our_address (v_contribution_score validator) vrf_proof
            timestamp_ms DEFAULT_BLOCK_GAS_LIMIT gas_used [] in
          let block := mkBlock h txs [] proofs Signature_ZERO in
          Ok (sign_block key block)
        end
      end
    end
  end.

(** The slots whose leader may have made a block with this timestamp: its own,
    and the one before it shortly after the boundary. *)
Definition candidate_slots (ts : Z) : list Z :=
  let slot := slot_of_timestamp ts in
  let offset_in_slot := ts mod BLOCK_INTERVAL_MS in
  slot :: (if (offset_in_slot <? MAX_TIMESTAMP_DRIFT_MS) && (0 <? slot) then [slot - 1] else []).

(** The loop over the candidates: whether the producer leads one of them, and
    whether its VRF proof verifies for one it leads. *)
Fixpoint match_candidates (e : ConsensusEngine) (b : Block) (key : PublicKey) (candidates : list Z)
    (producer_matched : bool) : Result ConsensusError (bool * bool) :=
  match candidates with
  | [] => Ok (producer_matched, false)
  | candidate :: rest =>
    match derive_epoch_seed e (epoch_of_slot candidate) with
    | Err err => Err err
    | Panic => Panic
    | NoFuel => NoFuel
    | Ok seed =>
      if bool_decide (select_producer_with_seed e candidate seed = Some (producer b)) then
        if bool_decide (key = PublicKey_ZERO) || is_ok (vrf_verify_with_seed key seed (h_vrf_proof (header b)))
        then Ok (true, true)
        else match_candidates e b key rest true
      else match_candidates e b key rest producer_matched
    end
  end.

Definition check_proofs (b : Block) : Result ConsensusError unit :=
  if (2 <=? h_version (header b)) || negb (bool_decide (inference_proofs b = [])) then
    if negb (bool_decide (h_proofs_root (header b) = merkle_root (proof_hashes (inference_proofs b))))
    then Err InvalidStateTransition
    else if bool_decide (MAX_INFERENCE_PROOFS_PER_BLOCK < length (inference_proofs b))%nat then Err BlockTooLarge
    else Ok tt
  else Ok tt.

Definition validate_block (e : ConsensusEngine) (now : Z) (b parent : Block) : Result ConsensusError unit :=
  if negb (number b =? u64_add (number parent) 1) then Err InvalidStateTransition
  else if negb (bool_decide (parent_hash_of b = block_hash parent)) then Err InvalidStateTransition
  else if u64_add now MAX_TIMESTAMP_DRIFT_MS <? timestamp b then Err InvalidTimestamp
  else if timestamp b <=? timestamp parent then Err InvalidTimestamp
  else
    match find_validator (producer b) (validators e) with
    | None => Err InvalidProducer
    | Some v =>
      match match_candidates e b (v_public_key v) (candidate_slots (timestamp b)) false with
      | Err err => Err err
      | Panic => Panic
      | NoFuel => NoFuel
      | Ok (producer_matched, vrf_ok) =>
        if negb producer_matched then Err InvalidProducer
        else if negb vrf_ok then Err InvalidVrfProof
        else if bool_decide (MAX_TRANSACTIONS_PER_BLOCK < length (transactions b))%nat then Err BlockTooLarge
        else check_proofs b
      end
    end.

(** ** Votes and finality *)

Definition vote (e : ConsensusEngine) (now : Z) (b : Block) (accept : bool) : Result ConsensusError Vote :=
  match validator_key e, address e with
  | Some key, Some our_address =>
    let v :=
      if accept then vote_accept (block_hash b) (number b) our_address now
      else vote_reject (block_hash b) (number b) our_address RejInvalidStateTransition now in
    let vote_hash := blake3_hash (vote_bytes_without_signature v) in
    Ok (mkVote (vt_unsigned v) (vrf_proof_bytes (prove key vote_hash)))
  | _, _ => Err NotValidator
  end.

(** One vote per voter and block: a later one is ignored. *)
Definition add_vote (v : Vote) (e : ConsensusEngine) : ConsensusEngine :=
  let block_votes := default [] (pending_votes e !! vote_block_hash v) in
  if existsb (fun v' => bool_decide (voter v' = voter v)) block_votes
  then set_votes (<[vote_block_hash v := block_votes]> (pending_votes e)) (own_votes e) e
  else set_votes (<[vote_block_hash v := block_votes ++ [v]]> (pending_votes e)) (own_votes e) e.

Definition try_record_own_vote (height : Z) (h : Hash) (e : ConsensusEngine) : bool * ConsensusEngine :=
  match own_votes e !! height with
  | Some _ => (false, e)
  | None => (true, set_votes (pending_votes e) (<[height := h]> (own_votes e)) e)
  end.

Definition sign_hash (e : ConsensusEngine) (h : Hash) : Result ConsensusError Signature :=
  match validator_key e with
  | None => Err NotValidator
  | Some key => Ok (vrf_proof_bytes (prove key h))
  end.

Definition registered (e : ConsensusEngine) (a : Address) : bool :=
  existsb (fun val => bool_decide (v_address val = a)) (validators e).

Definition accept_count (e : ConsensusEngine) (block_votes : list Vote) : Z :=
  Z.of_nat (length (List.filter (fun v => is_accept v && registered e (voter v)) block_votes)).

Definition check_finality (e : ConsensusEngine) (h : Hash) : bool :=
  match pending_votes e !! h with
  | None => false
  | Some block_votes =>
    let total := Z.of_nat (length (validators e)) in
    if total =? 0 then false
    else f64_leb (finality_threshold (config e)) (f64_div (f64_of (accept_count e block_votes)) (f64_of total))
  end.

Definition prune_old_votes (height : Z) (e : ConsensusEngine) : ConsensusEngine :=
  set_votes
    (filter (fun kv => match head (snd kv) with Some v => height <? vote_block_height v | None => false end = true)
      (pending_votes e))
    (filter (fun kv => height < fst kv) (own_votes e)) e.

(** ** Bookkeeping of a validator's behaviour *)

Definition u32_add (a b : Z) : Z := wrap 32 (a + b).

Definition record_block_produced (now : Z) (p : Address) : ConsensusEngine -> ConsensusEngine :=
  with_validator p (fun v =>
    Val.set_produced now (u64_add (v_blocks_produced v) 1) (Z.min (u32_add (v_reputation v) 10) 10000) v).

Definition record_vote (now : Z) (who : Address) (is_valid : bool) : ConsensusEngine -> ConsensusEngine :=
  with_validator who (fun v =>
    if is_valid then
      Val.set_voted (wrap 32 (u64_add (u64_mul (v_accuracy v) 99) 10000 / 100)) now (u64_add (v_valid_votes v) 1)
        (v_invalid_votes v) v
    else
      Val.set_voted (wrap 32 (u64_mul (v_accuracy v) 99 / 100)) now (v_valid_votes v)
        (u64_add (v_invalid_votes v) 1) v).

Definition update_validator_uptime (a : Address) (expected actual : Z) (e : ConsensusEngine) : ConsensusEngine :=
  if expected =? 0 then e else
  with_validator a (fun v =>
    let period_uptime := Z.min (u64_mul actual 10000 / expected) 10000 in
    Val.set_uptime (wrap 32 (u64_add (u64_mul (v_uptime v) 9) period_uptime / 10)) v) e.

Definition record_latency (a : Address) (latency_ms : Z) : ConsensusEngine -> ConsensusEngine :=
  with_validator a (fun v =>
    Val.set_latency (wrap 32 (u64_add (u64_mul (v_avg_latency_ms v) 9) latency_ms / 10)) v).

(** [(x as i32 - 2000).max(0) as u32] *)
Definition as_i32 (x : Z) : Z := if x <? 2 ^ 31 then x else x - 2 ^ 32.
Definition minus_2000 (x : Z) : Z := Z.max (as_i32 (wrap 32 (as_i32 x - 2000))) 0.

(** The stakes after a slash of the given percentage, direct stake first;
    [None] when the product overflows. *)
Definition slash_stakes (percent : Z) (v : ValidatorNode) : option ValidatorNode :=
  p ← u256_mul (Val.total_stake v) percent;
  slash_amount ← u256_div p 100;
  let direct_slash := Z.min slash_amount (v_stake v) in
  let remaining_slash := u256_sat_sub slash_amount direct_slash in
  Some (Val.set_stakes (u256_sat_sub (v_stake v) direct_slash)
    (if remaining_slash =? 0 then v_delegated_stake v else u256_sat_sub (v_delegated_stake v) remaining_slash) v).

(** [if let Some(v) = find { v = f(v)? }] with a panicking body. *)
Definition try_validator (a : Address) (f : ValidatorNode -> option ValidatorNode) (e : ConsensusEngine) :
    option ConsensusEngine :=
  match find_validator a (validators e) with
  | None => Some e
  | Some v => v' ← f v; Some (with_validator a (fun _ => v') e)
  end.

Definition slash_validator (now : Z) (a : Address) (slash_percent jail_duration_ms : Z) :
    ConsensusEngine -> option ConsensusEngine :=
  try_validator a (fun v =>
    v ← slash_stakes slash_percent v;
    let v := Val.set_reputation (minus_2000 (v_reputation v)) v in
    Some (if 0 <? jail_duration_ms then
            Val.set_jail true
              (if jail_duration_ms =? JAIL_PERMANENT_MS then JAIL_PERMANENT_MS else sat_add 64 now jail_duration_ms) v
          else v)).

Definition unjail (now : Z) (v : ValidatorNode) : ValidatorNode :=
  if Val.can_unjail v now then Val.set_jail false 0 v else v.
Definition process_unjails (now : Z) (e : ConsensusEngine) : ConsensusEngine :=
  update_validators (map (unjail now) (validators e)) e.

Definition add_delegated_stake (a : Address) (amount : Z) : ConsensusEngine -> ConsensusEngine :=
  with_validator a (fun v =>
    Val.set_delegation_stats (u256_sat_add (v_delegated_stake v) amount) (u32_add (v_delegator_count v) 1) v).
Definition sub_delegated_stake (a : Address) (amount : Z) : ConsensusEngine -> ConsensusEngine :=
  with_validator a (fun v =>
    Val.set_delegation_stats (u256_sat_sub (v_delegated_stake v) amount)
      (if 0 <? v_delegator_count v then v_delegator_count v - 1 else v_delegator_count v) v).

Definition set_provides_compute (a : Address) (provides : bool) : ConsensusEngine -> ConsensusEngine :=
  with_validator a (fun v => Val.set_compute provides (v_hashrate v) v).
Definition update_hashrate (a : Address) (hashrate : Z) : ConsensusEngine -> ConsensusEngine :=
  with_validator a (fun v => Val.set_compute (v_provides_compute v) hashrate v).
Definition register_miner_profile (a : Address) (gpu_model : bytes) (benchmark_score gpu_tier gpu_memory_mb : Z)
    (compute_backend : option BackendType) : ConsensusEngine -> ConsensusEngine :=
  with_validator a (fun v =>
    Val.set_profile (match compute_backend with Some b => Some b | None => v_compute_backend v end)
      gpu_memory_mb gpu_model benchmark_score gpu_tier v).
Definition reduce_reputation (a : Address) (reduction_bps : Z) : ConsensusEngine -> ConsensusEngine :=
  with_validator a (fun v => Val.set_reputation (sat_sub (v_reputation v) reduction_bps) v).
Definition update_inference_score (a : Address) (flops tasks_completed : Z) : ConsensusEngine -> ConsensusEngine :=
  with_validator a (fun v =>
    Val.set_inference (sat_add 64 (v_inference_score v) flops) (sat_add 64 (v_tasks_completed v) tasks_completed) v).

Definition get_hashrate (e : ConsensusEngine) (a : Address) : Z :=
  match find_validator a (validators e) with Some v => v_hashrate v | None => 0 end.
Definition engine_total_hashrate (e : ConsensusEngine) : Z := sum_hashrate (validators e).

Definition process_work_proof (proof : WorkProof) (task : MiningTask) : ST ConsensusEngine ConsensusError Z :=
  let! validator := bind (gets (fun e => find_validator (wp_validator proof) (validators e)))
    (fun o => ok_or o InvalidProducer) in
  if negb (Val.is_active validator) then fail ValidatorJailed
  else if negb (v_provides_compute validator) then fail InvalidProducer
  else
    match verify_proof proof task with
    | Ok _ =>
      let hashrate := calculate_hashrate proof task in
      modify (update_hashrate (wp_validator proof) hashrate);; ret hashrate
    | _ => fail InvalidVrfProof
    end.

Definition create_mining_task (e : ConsensusEngine) (now : Z) (c : DifficultyConfig) : MiningTask :=
  mkMiningTask (ep_number (current_epoch e)) (ep_seed (current_epoch e)) (initial_difficulty c) now
    (u64_add now EPOCH_DURATION_MS).

(** ** Persistence *)

Definition save_validators (e : ConsensusEngine) (db : Database) : Database :=
  foldl (fun db v => db_put db VALIDATORS (v_address v) (to_vec v)) db (validators e).

(** Nothing is read back. *)
Definition load_validators (e : ConsensusEngine) (db : Database) : list ValidatorNode := [].

Definition epoch_key (n : Z) : bytes := to_be 8 n.

(** The keys of the oldest checkpoints beyond the retention, the one being written counted. *)
Definition expired_checkpoints (db : Database) (key : bytes) : list bytes :=
  let existing := filter (fun k => k <> key) (map fst (db_iter db CHECKPOINTS)) in
  let total := S (length existing) in
  if bool_decide (CHECKPOINT_RETENTION < total)%nat then take (total - CHECKPOINT_RETENTION) existing else [].

Definition checkpoint_batch (db : Database) (c : ValidatorCheckpoint) : WriteBatch :=
  let key := epoch_key (cp_epoch c) in
  let batch := batch_put batch_new CHECKPOINTS key (to_vec c) in
  let batch := foldl (fun b v => batch_put b VALIDATORS (v_address v) (to_vec v)) batch (cp_validators c) in
  foldl (fun b k => batch_delete b CHECKPOINTS k) batch (expired_checkpoints db key).

Definition create_checkpoint (e : ConsensusEngine) (now : Z) (db : Database) (block_height : Z) :
    ValidatorCheckpoint * Database :=
  let c := mkCheckpoint (ep_number (current_epoch e)) block_height now (validators e) (ep_seed (current_epoch e))
    (finalized_height e) in
  (c, write_batch db (checkpoint_batch db c)).

(** [Err]: the stored bytes are not a checkpoint. *)
Definition load_checkpoint (db : Database) (epoch : Z) : Result ConsensusError (option ValidatorCheckpoint) :=
  match db_get db CHECKPOINTS (epoch_key epoch) with
  | None => Ok None
  | Some data => match from_slice data with Some c => Ok (Some c) | None => Err (StorageError_e []) end
  end.

(** The newest entry that decodes, under its own key, with validators. *)
Fixpoint first_usable (entries : list (bytes * bytes)) : option ValidatorCheckpoint :=
  match entries with
  | [] => None
  | (key, value) :: rest =>
    match from_slice value with
    | None => first_usable rest
    | Some c =>
      if negb (bool_decide (key = epoch_key (cp_epoch c))) then first_usable rest
      else if bool_decide (cp_validators c = []) then first_usable rest
      else Some c
    end
  end.
Definition load_latest_checkpoint (db : Database) : option ValidatorCheckpoint :=
  first_usable (db_iter_reverse db CHECKPOINTS).

Definition restore_from_checkpoint (c : ValidatorCheckpoint) (e : ConsensusEngine) : ConsensusEngine :=
  set_finalized_height (cp_finalized_height c)
    (set_epoch (epoch_new (cp_epoch c) (cp_epoch_seed c) (cp_timestamp c)) (update_validators (cp_validators c) e)).

(** ** Double signing *)

Definition cache_block (b : Block) (e : ConsensusEngine) : ConsensusEngine :=
  let height := number b in
  let record := mkRecord (block_hash b) (producer b) (block_signature b) in
  let cache := <[height := default [] (block_cache e !! height) ++ [record]]> (block_cache e) in
  let cache :=
    if cache_depth e <? finalized_height e
    then filter (fun kv => finalized_height e - cache_depth e <= fst kv) cache else cache in
  let cache :=
    match cache !! height with
    | Some blocks =>
      if bool_decide (max_blocks_per_height e < length blocks)%nat
      then <[height := take (max_blocks_per_height e) blocks]> cache else cache
    | None => cache
    end in
  set_block_cache cache e.

Definition check_double_sign (e : ConsensusEngine) (now : Z) (b : Block) : option DoubleSignEvidence :=
  blocks ← block_cache e !! number b;
  '(_, existing) ← list_find (fun r => rec_producer r = producer b /\ rec_hash r <> block_hash b) blocks;
  Some (mkEvidence (producer b) (rec_hash existing) (block_hash b) (number b) (rec_signature existing)
    (block_signature b) now).

(** [format!("{}:{}", height, validator)] *)
Definition evidence_key (ev : DoubleSignEvidence) : bytes :=
  decimal 20 (ev_height ev) [] ++ [58; 48; 120] ++ hex_encode (ev_validator ev).

(** The evidence is taken at its word: half of the stake, permanent jail. *)
Definition punish_double_sign (a : Address) : ConsensusEngine -> option ConsensusEngine :=
  try_validator a (fun v =>
    v ← slash_stakes SLASH_DOUBLE_SIGN_PERCENT v;
    Some (Val.set_reputation 0 (Val.set_jail true JAIL_DOUBLE_SIGN_MS v))).

Definition process_double_sign_evidence (ev : DoubleSignEvidence) (e : ConsensusEngine) (db : Database) :
    option (ConsensusEngine * Database) :=
  e' ← punish_double_sign (ev_validator ev) e;
  Some (e', db_put db METADATA (evidence_key ev) (to_vec ev)).
End engine.
