(* ===== verification/EngineTheory.v ===== *)
(** * Theory of the consensus engine

    The methods that change the engine as events, with a run of events as the
    history of a node; the invariants that every run keeps (one vote per voter
    and block, counters in their ranges, the election set frozen); and the
    lemmas on counting votes, on the election and on block validation that the
    properties of EngineProps.v use. *)

From S2P Require Import Prelude Float64 Externals Nibbles Storage Trie Types Crypto Blocks Pow Receipts.
From S2P Require Import StateDB StateOps Executor Scoring Engine.

(** ** Events *)

Inductive Event :=
| EvValidators (l : list ValidatorNode)
| EvNetwork (x : NetworkState)
| EvScores
| EvSeed (seed : bytes)
| EvEpoch (now n : Z) (seed : bytes)
| EvAdvance (now : Z)
| EvAddVote (v : Vote)
| EvOwnVote (height : Z) (h : Hash)
| EvFinalized (height : Z)
| EvPrune (height : Z)
| EvProduced (now : Z) (a : Address)
| EvVoted (now : Z) (a : Address) (valid : bool)
| EvUptime (a : Address) (expected actual : Z)
| EvLatency (a : Address) (ms : Z)
| EvSlash (now : Z) (a : Address) (percent jail_ms : Z)
| EvUnjail (now : Z)
| EvRestore (c : ValidatorCheckpoint)
| EvCache (b : Block)
| EvEvidence (ev : DoubleSignEvidence)
| EvDelegate (a : Address) (amount : Z)
| EvUndelegate (a : Address) (amount : Z)
| EvCompute (a : Address) (provides : bool)
| EvHashrate (a : Address) (rate : Z)
| EvProfile (a : Address) (gpu : bytes) (score tier memory : Z) (backend : option BackendType)
| EvReputation (a : Address) (bps : Z)
| EvInference (a : Address) (flops tasks : Z)
| EvWork (proof : WorkProof) (task : MiningTask).

Section theory.
Context `{B : Blake3} `{ED : Ed25519} `{HX : HexCrate}.
Context `{BH : Borsh BlockHeader} `{BV : Borsh UnsignedVote} `{BI : Borsh UnsignedInferenceProof}.
Context `{BT : Borsh UnsignedTransaction} `{BR : Borsh Receipt}.
Context `{BN : Borsh ValidatorNode} `{BC : Borsh ValidatorCheckpoint} `{BE : Borsh DoubleSignEvidence}.
Context {Database : Type} `{DB : !RocksDB Database}.

(** The engine after an event; [None] when the method panics. *)
Definition apply_event (ev : Event) (e : ConsensusEngine) : option ConsensusEngine :=
  match ev with
  | EvValidators l => Some (update_validators l e)
  | EvNetwork x => Some (set_network_state x e)
  | EvScores => Some (update_contribution_scores e)
  | EvSeed seed => Some (set_genesis_seed seed e)
  | EvEpoch now n seed => Some (start_epoch now n seed e)
  | EvAdvance now => Some (snd (maybe_advance_epoch now e))
  | EvAddVote v => Some (add_vote v e)
  | EvOwnVote height h => Some (snd (try_record_own_vote height h e))
  | EvFinalized height => Some (set_finalized_height height e)
  | EvPrune height => Some (prune_old_votes height e)
  | EvProduced now a => Some (record_block_produced now a e)
  | EvVoted now a valid => Some (record_vote now a valid e)
  | EvUptime a expected actual => Some (update_validator_uptime a expected actual e)
  | EvLatency a ms => Some (record_latency a ms e)
  | EvSlash now a percent jail_ms => slash_validator now a percent jail_ms e
  | EvUnjail now => Some (process_unjails now e)
  | EvRestore c => Some (restore_from_checkpoint c e)
  | EvCache b => Some (cache_block b e)
  | EvEvidence evd => punish_double_sign (ev_validator evd) e
  | EvDelegate a amount => Some (add_delegated_stake a amount e)
  | EvUndelegate a amount => Some (sub_delegated_stake a amount e)
  | EvCompute a provides => Some (set_provides_compute a provides e)
  | EvHashrate a rate => Some (update_hashrate a rate e)
  | EvProfile a gpu score tier memory backend => Some (register_miner_profile a gpu score tier memory backend e)
  | EvReputation a bps => Some (reduce_reputation a bps e)
  | EvInference a flops tasks => Some (update_inference_score a flops tasks e)
  | EvWork proof task => Some (snd (process_work_proof proof task e))
  end.

(** A history: the events that a node went through without panicking. *)
Inductive history : ConsensusEngine -> list Event -> ConsensusEngine -> Prop :=
| history_nil e : history e [] e
| history_cons e ev e' evs e'' :
    apply_event ev e = Some e' -> history e' evs e'' -> history e (ev :: evs) e''.

(** A history by evaluation. *)
Fixpoint replay (evs : list Event) (e : ConsensusEngine) : option ConsensusEngine :=
  match evs with
  | [] => Some e
  | ev :: evs' => e' ← apply_event ev e; replay evs' e'
  end.

Lemma replay_history evs e e' : replay evs e = Some e' -> history e evs e'.
Proof.
  revert e. induction evs as [|ev evs IH]; intros e; simpl; [intros [= ->]; constructor|].
  intros (e1 & He & Hr)%bind_Some. econstructor; eauto.
Qed.

(** ** What an event leaves alone *)

Definition identity (v : ValidatorNode) : Address * PublicKey := (v_address v, v_public_key v).
Definition identities (e : ConsensusEngine) : list (Address * PublicKey) := map identity (validators e).

(** The events that replace the registered set. *)
Definition registers (ev : Event) : bool :=
  match ev with EvValidators _ | EvRestore _ => true | _ => false end.

Lemma update_first_identity a f l :
  (forall v, identity (f v) = identity v) -> map identity (update_first a f l) = map identity l.
Proof.
  intros Hf. induction l as [|v l IH]; [done|]. simpl. case_decide; simpl; [by rewrite Hf|by rewrite IH].
Qed.

Lemma with_validator_identity a f e :
  (forall v, identity (f v) = identity v) -> identities (with_validator a f e) = identities e.
Proof. apply update_first_identity. Qed.

Lemma find_validator_Some a l v : find_validator a l = Some v -> v ∈ l /\ v_address v = a.
Proof.
  unfold find_validator. intros ([i v'] & (Hi & Ha & _)%list_find_Some & ->)%fmap_Some.
  split; [by eapply list_elem_of_lookup_2|done].
Qed.

(** Replacing the first validator of an address by one of the same identity. *)
Lemma update_first_const_identity a v' l v :
  find_validator a l = Some v -> identity v' = identity v ->
  map identity (update_first a (fun _ => v') l) = map identity l.
Proof.
  intros Hf Hid. induction l as [|w l IH]; [done|]. simpl. unfold find_validator in *. simpl in Hf.
  case_decide; simpl in *; [injection Hf as <-; by rewrite Hid|].
  f_equal. apply IH. by destruct (list_find _ l) as [[]|].
Qed.

(** The engine differs at most in the data about its validators, not in who they are. *)
Definition same_registry (e e' : ConsensusEngine) : Prop :=
  identities e' = identities e /\ pending_votes e' = pending_votes e /\ own_votes e' = own_votes e /\
  config e' = config e /\ genesis_seed e' = genesis_seed e /\ address e' = address e /\
  validator_key e' = validator_key e /\ finalized_height e' = finalized_height e.

Lemma with_validator_registry a f e :
  (forall v, identity (f v) = identity v) -> same_registry e (with_validator a f e).
Proof. intros Hf. split; [by apply with_validator_identity|done]. Qed.

Lemma try_validator_registry a f e e' :
  (forall v v', f v = Some v' -> identity v' = identity v) -> try_validator a f e = Some e' -> same_registry e e'.
Proof.
  intros Hf. unfold try_validator. destruct (find_validator a (validators e)) as [v|] eqn:Ev.
  - intros (v' & Hv & [= <-])%bind_Some. split; [|done]. eapply update_first_const_identity; eauto.
  - by intros [= <-].
Qed.

Lemma slash_stakes_identity percent v v' : slash_stakes percent v = Some v' -> identity v' = identity v.
Proof. unfold slash_stakes. intros (p & _ & (q & _ & [= <-])%bind_Some)%bind_Some. by destruct v. Qed.

Ltac solve_identity :=
  let w := fresh "w" in intros w; repeat case_match; by destruct w.

(** Only votes, registrations, restores and the finality height go beyond the
    registry: every other event keeps it. *)
Definition touches_votes (ev : Event) : bool :=
  match ev with EvAddVote _ | EvOwnVote _ _ | EvPrune _ => true | _ => false end.

Lemma slash_registry now a percent jail e e' : slash_validator now a percent jail e = Some e' -> same_registry e e'.
Proof.
  apply try_validator_registry. intros v v' (w & <-%slash_stakes_identity & [= <-])%bind_Some.
  repeat case_match; by destruct w.
Qed.

Lemma punish_registry a e e' : punish_double_sign a e = Some e' -> same_registry e e'.
Proof.
  apply try_validator_registry. intros v v' (w & <-%slash_stakes_identity & [= <-])%bind_Some. by destruct w.
Qed.

Lemma scores_identities e : identities (update_contribution_scores e) = identities e.
Proof.
  unfold identities, update_contribution_scores. simpl. rewrite map_map. apply map_ext. by intros [].
Qed.

Lemma unjail_identities now e : identities (process_unjails now e) = identities e.
Proof.
  unfold identities, process_unjails. simpl. rewrite map_map. apply map_ext. intros [].
  unfold unjail. by case_match.
Qed.

Lemma work_registry proof task e : same_registry e (snd (process_work_proof proof task e)).
Proof.
  unfold process_work_proof, bind, gets, ok_or, fail, modify, ret.
  destruct (find_validator _ _); simpl; [|done]. repeat case_match; simplify_eq/=; try done.
  apply with_validator_registry. solve_identity.
Qed.

(** Who votes and leads, as opposed to what is known about them. *)
Definition keeps_registry (e e' : ConsensusEngine) : Prop :=
  identities e' = identities e /\ (forall s, genesis_seed e = Some s -> genesis_seed e' = Some s) /\
  config e' = config e /\ address e' = address e /\ validator_key e' = validator_key e.

Lemma same_keeps e e' : same_registry e e' -> keeps_registry e e'.
Proof. intros (H1 & _ & _ & H4 & H5 & H6 & H7 & _). unfold keeps_registry. rewrite H5. tauto. Qed.

Lemma keeps_trans e1 e2 e3 : keeps_registry e1 e2 -> keeps_registry e2 e3 -> keeps_registry e1 e3.
Proof. unfold keeps_registry. intros (-> & H1 & -> & -> & ->) (-> & H2 & -> & -> & ->). naive_solver. Qed.

Lemma start_epoch_keeps now n seed e : keeps_registry e (start_epoch now n seed e).
Proof. split; [unfold start_epoch; by rewrite scores_identities|done]. Qed.

Lemma uptime_registry a expected actual e : same_registry e (update_validator_uptime a expected actual e).
Proof. unfold update_validator_uptime. case_match; [done|]. apply with_validator_registry. solve_identity. Qed.

(** An event that does not register keeps who the validators are. *)
Lemma event_keeps ev e e' : apply_event ev e = Some e' -> registers ev = false -> keeps_registry e e'.
Proof.
  intros He Hr. destruct ev; try done; simpl in He;
    try (by apply same_keeps; eauto using slash_registry, punish_registry); injection He as <-;
    try (by apply same_keeps, with_validator_registry; solve_identity); try done.
  - split; [apply scores_identities|done].
  - unfold set_genesis_seed. destruct (genesis_seed e) eqn:Es; [done|]. by split_and!; [done|rewrite Es|..].
  - apply start_epoch_keeps.
  - unfold maybe_advance_epoch. repeat case_match; simpl; try done. apply start_epoch_keeps.
  - unfold add_vote. by case_match.
  - unfold try_record_own_vote. by case_match.
  - apply same_keeps, uptime_registry.
  - split; [apply unjail_identities|done].
  - apply same_keeps, work_registry.
Qed.

(** Histories without registrations. *)
Lemma history_keeps e evs e' :
  history e evs e' -> Forall (fun ev => registers ev = false) evs -> keeps_registry e e'.
Proof.
  induction 1 as [|e ev e1 evs e2 Hev _ IH]; intros Hf; [done|]. inversion Hf; subst.
  eapply keeps_trans; [by eapply event_keeps|by apply IH].
Qed.

(** Events that are not about votes keep the votes. *)
Lemma event_votes ev e e' :
  apply_event ev e = Some e' -> touches_votes ev = false ->
  pending_votes e' = pending_votes e /\ own_votes e' = own_votes e.
Proof.
  assert (Hsame : same_registry e e' -> pending_votes e' = pending_votes e /\ own_votes e' = own_votes e)
    by (intros (_ & ? & ? & _); done).
  intros He Hr. destruct ev; try done; simpl in He;
    try (by apply Hsame; eauto using slash_registry, punish_registry); injection He as <-; try done.
  - unfold set_genesis_seed. by case_match.
  - unfold maybe_advance_epoch. by repeat case_match.
  - unfold update_validator_uptime. by case_match.
  - apply Hsame, work_registry.
Qed.

(** ** Votes *)

(** The pending votes of a block are about that block, one per voter. *)
Definition votes_ok (e : ConsensusEngine) : Prop :=
  map_Forall (fun h vs => NoDup (map voter vs) /\ Forall (fun v => vote_block_hash v = h) vs) (pending_votes e).

Lemma add_vote_ok v e : votes_ok e -> votes_ok (add_vote v e).
Proof.
  intros Hok. unfold add_vote.
  assert (Hd : NoDup (map voter (default [] (pending_votes e !! vote_block_hash v))) /\
    Forall (fun v' => vote_block_hash v' = vote_block_hash v) (default [] (pending_votes e !! vote_block_hash v))).
  { destruct (pending_votes e !! vote_block_hash v) eqn:El; simpl; [by apply (Hok _ _ El)|].
    split; [apply NoDup_nil_2|constructor]. }
  destruct Hd as [Hnd Hb]. case_match eqn:Hex; unfold votes_ok; simpl; apply map_Forall_insert_2; try done.
  split; [|by apply Forall_app; repeat constructor].
  rewrite map_app. apply NoDup_app. split; [done|]. split; [|apply NoDup_singleton].
  intros a Ha ->%list_elem_of_singleton. apply list_elem_of_fmap in Ha as (v' & Heq & Hin).
  rewrite <-not_true_iff_false in Hex. apply Hex, existsb_exists. exists v'.
  split; [by apply list_elem_of_In|by apply bool_decide_eq_true].
Qed.

Lemma event_votes_ok ev e e' : apply_event ev e = Some e' -> votes_ok e -> votes_ok e'.
Proof.
  intros He Hok. destruct (touches_votes ev) eqn:Et.
  - destruct ev; try done; injection He as <-.
    + by apply add_vote_ok.
    + unfold try_record_own_vote. by case_match.
    + intros h vs [Hl _]%map_lookup_filter_Some. by apply Hok.
  - destruct (event_votes _ _ _ He Et) as [Hp _]. unfold votes_ok. by rewrite Hp.
Qed.

Lemma history_votes_ok e evs e' : history e evs e' -> votes_ok e -> votes_ok e'.
Proof. induction 1; eauto using event_votes_ok. Qed.

(** An own vote is remembered until its height is pruned. *)
Definition prunes_below (height : Z) (ev : Event) : Prop := match ev with EvPrune f => f < height | _ => True end.

Lemma event_own_vote ev e e' height h :
  apply_event ev e = Some e' -> prunes_below height ev ->
  own_votes e !! height = Some h -> own_votes e' !! height = Some h.
Proof.
  intros He Hp Ho. destruct (touches_votes ev) eqn:Et.
  - destruct ev; try done; injection He as <-.
    + unfold add_vote. by case_match.
    + unfold try_record_own_vote. case_match eqn:El; [done|]. simpl.
      rewrite lookup_insert_ne; [done|]. congruence.
    + unfold prune_old_votes. simpl. by apply map_lookup_filter_Some.
  - destruct (event_votes _ _ _ He Et) as [_ Heq]. by rewrite Heq.
Qed.

Lemma history_own_vote e evs e' height h :
  history e evs e' -> Forall (prunes_below height) evs ->
  own_votes e !! height = Some h -> own_votes e' !! height = Some h.
Proof.
  induction 1 as [|e ev e1 evs e2 Hev _ IH]; intros Hf Ho; [done|]. inversion Hf; subst.
  apply IH; [done|]. by eapply event_own_vote.
Qed.

(** *** Counting *)

(** Whether the node holds an accepting vote of [a] for the block. *)
Definition accepts (e : ConsensusEngine) (h : Hash) (a : Address) : bool :=
  existsb (fun v => is_accept v && bool_decide (voter v = a)) (default [] (pending_votes e !! h)).

Definition addresses (e : ConsensusEngine) : list Address := map v_address (validators e).

Lemma registered_iff e a : registered e a = true <-> a ∈ addresses e.
Proof.
  unfold registered, addresses. rewrite existsb_exists, list_elem_of_fmap.
  split; intros (v & H1 & H2).
  - exists v. apply bool_decide_eq_true in H2. split; [done|by apply list_elem_of_In].
  - exists v. split; [by apply list_elem_of_In|by apply bool_decide_eq_true].
Qed.

(** The voters that [accept_count] counts. *)
Definition counted (e : ConsensusEngine) (vs : list Vote) : list Address :=
  map voter (List.filter (fun v => is_accept v && registered e (voter v)) vs).

Lemma counted_sublist e vs : counted e vs `sublist_of` map voter vs.
Proof.
  unfold counted. induction vs as [|v vs IH]; [done|]. simpl. case_match; simpl; [by constructor|by apply sublist_cons].
Qed.

Lemma elem_of_counted e h vs a :
  pending_votes e !! h = Some vs -> a ∈ counted e vs <-> a ∈ addresses e /\ accepts e h a = true.
Proof.
  intros Hl. unfold counted, accepts. rewrite Hl. simpl. rewrite list_elem_of_fmap, existsb_exists. split.
  - intros (v & -> & Hin). apply list_elem_of_In, List.filter_In in Hin as [Hin [Ha Hr]%andb_true_iff].
    split; [by apply registered_iff|]. exists v. split; [done|]. rewrite Ha. by apply bool_decide_eq_true.
  - intros [Hr (v & Hin & [Ha Hv]%andb_true_iff)]. apply bool_decide_eq_true in Hv as <-. exists v. split; [done|].
    apply list_elem_of_In, List.filter_In. split; [done|]. rewrite Ha. by apply registered_iff.
Qed.

Lemma accept_count_counted e vs : accept_count e vs = Z.of_nat (length (counted e vs)).
Proof. unfold accept_count, counted. by rewrite length_map. Qed.

(** The count is the number of registered validators that accepted. *)
Definition accepters (e : ConsensusEngine) (h : Hash) : list Address :=
  filter (fun a => accepts e h a = true) (addresses e).

Lemma counted_nodup e h vs : votes_ok e -> pending_votes e !! h = Some vs -> NoDup (counted e vs).
Proof. intros Hok Hl. eapply sublist_NoDup; [|apply counted_sublist]. by apply (Hok _ _ Hl). Qed.

Lemma accept_count_accepters e h vs :
  votes_ok e -> NoDup (addresses e) -> pending_votes e !! h = Some vs ->
  accept_count e vs = Z.of_nat (length (accepters e h)).
Proof.
  intros Hok Hnd Hl. rewrite accept_count_counted. f_equal. apply Permutation_length, NoDup_Permutation.
  - by eapply counted_nodup.
  - by apply NoDup_filter.
  - intros a. rewrite (elem_of_counted _ _ _ _ Hl). unfold accepters. rewrite list_elem_of_filter. tauto.
Qed.

Lemma accept_count_range e h vs :
  votes_ok e -> pending_votes e !! h = Some vs -> 0 <= accept_count e vs <= Z.of_nat (length (validators e)).
Proof.
  intros Hok Hl. rewrite accept_count_counted. split; [lia|]. apply Nat2Z.inj_le.
  replace (length (validators e)) with (length (addresses e)) by apply length_map.
  apply submseteq_length, NoDup_submseteq; [by eapply counted_nodup|].
  intros a. rewrite (elem_of_counted _ _ _ _ Hl). tauto.
Qed.

(** Finality is the exact comparison of 100 accepting votes to 67 of the registered set. *)
Lemma check_finality_exact e h :
  votes_ok e -> finality_threshold (config e) = FINALITY_THRESHOLD -> Z.of_nat (length (validators e)) < 2 ^ 40 ->
  check_finality e h =
    match pending_votes e !! h with
    | Some vs => (0 <? Z.of_nat (length (validators e))) &&
                 (67 * Z.of_nat (length (validators e)) <=? 100 * accept_count e vs)
    | None => false
    end.
Proof.
  intros Hok Ht Hn. unfold check_finality. destruct (pending_votes e !! h) as [vs|] eqn:Hl; [|done].
  pose proof (accept_count_range e h vs Hok Hl) as Hr. set (n := Z.of_nat (length (validators e))) in *.
  destruct (n =? 0) eqn:E0; [by replace (0 <? n) with false by lia|].
  rewrite Ht. unfold FINALITY_THRESHOLD. rewrite f64_ratio_ge_67 by lia. by replace (0 <? n) with true by lia.
Qed.

(** Two sets of accepting validators overlap. *)
Lemma filter_overlap {A} (P Q : A -> Prop) `{forall x, Decision (P x)} `{forall x, Decision (Q x)} (l : list A) :
  (length (filter P l) + length (filter Q l) <= length l + length (filter (fun x => P x /\ Q x) l))%nat.
Proof.
  induction l as [|x l IH]; [done|].
  rewrite !filter_cons. repeat case_decide; simpl; try lia; tauto.
Qed.

(** ** The election *)

(** The leader is a function of who is registered, the genesis seed and the slot. *)
Lemma leader_determined e e' slot :
  identities e' = identities e -> genesis_seed e' = genesis_seed e ->
  select_producer e' slot = select_producer e slot.
Proof.
  intros Hid Hs. unfold select_producer, derive_epoch_seed, select_producer_with_seed, election_set. rewrite Hs.
  fold identity. change (fun v => (v_address v, v_public_key v)) with identity.
  fold (identities e') (identities e). by rewrite Hid.
Qed.

(** With validators and a seed every slot has a registered leader. *)
Lemma leader_exists e slot :
  validators e <> [] -> is_Some (genesis_seed e) ->
  exists a, select_producer e slot = Some a /\ a ∈ addresses e.
Proof.
  intros Hv [g Hg]. unfold select_producer, derive_epoch_seed. rewrite Hg. unfold select_producer_with_seed.
  assert (Hperm : election_set e ≡ₚ map identity (validators e)) by apply merge_sort_Permutation.
  assert (Hne : election_set e <> []).
  { intros Hnil. rewrite Hnil in Hperm. apply Permutation_nil_l in Hperm. by destruct (validators e). }
  rewrite bool_decide_false by done.
  set (idx := Z.to_nat _). assert (idx < length (election_set e))%nat as Hlt.
  { unfold idx. assert (0 < Z.of_nat (length (election_set e))) by (destruct (election_set e); simpl; [done|lia]).
    pose proof (Z.mod_pos_bound (u64_add slot (from_le (take 8 (blake3_hash (g ++ to_le 8 (epoch_of_slot slot))))))
      (Z.of_nat (length (election_set e))) ltac:(lia)). lia. }
  destruct (lookup_lt_is_Some_2 _ _ Hlt) as [[a k] Hak]. rewrite Hak. exists a. split; [done|].
  apply list_elem_of_lookup_2 in Hak. rewrite Hperm in Hak. apply list_elem_of_fmap in Hak as (v & [= -> ->] & Hin).
  apply list_elem_of_fmap. by exists v.
Qed.

(** ** Validation *)

(** The VRF proof of the block, under the epoch seed of a slot. *)
Definition vrf_ok (e : ConsensusEngine) (b : Block) (key : PublicKey) (slot : Z) : bool :=
  match derive_epoch_seed e (epoch_of_slot slot) with
  | Ok seed => bool_decide (key = PublicKey_ZERO) || is_ok (vrf_verify_with_seed key seed (h_vrf_proof (header b)))
  | _ => false
  end.

Definition leads (e : ConsensusEngine) (b : Block) (slot : Z) : bool :=
  bool_decide (select_producer e slot = Some (producer b)).

Lemma match_candidates_spec e b key cs m g :
  genesis_seed e = Some g ->
  exists m', match_candidates e b key cs m = Ok (m', existsb (fun c => leads e b c && vrf_ok e b key c) cs) /\
    (existsb (fun c => leads e b c && vrf_ok e b key c) cs = true -> m' = true).
Proof.
  intros Hg. revert m. induction cs as [|c cs IH]; intros m; simpl; [by eexists|].
  unfold leads at 1 3, vrf_ok at 1 3, select_producer, derive_epoch_seed. rewrite Hg.
  case_bool_decide; simpl; [|apply IH].
  destruct (bool_decide (key = PublicKey_ZERO) || _) eqn:Ev; simpl; [by exists true|apply IH].
Qed.

(** What a valid block is. *)
Record valid_block (e : ConsensusEngine) (now : Z) (b parent : Block) : Prop := {
  vb_number : number b = u64_add (number parent) 1;
  vb_parent : parent_hash_of b = block_hash parent;
  vb_future : timestamp b <= u64_add now MAX_TIMESTAMP_DRIFT_MS;
  vb_past : timestamp parent < timestamp b;
  vb_leader : exists v slot, find_validator (producer b) (validators e) = Some v /\
    slot ∈ candidate_slots (timestamp b) /\ select_producer e slot = Some (producer b) /\
    vrf_ok e b (v_public_key v) slot = true;
  vb_size : (length (transactions b) <= MAX_TRANSACTIONS_PER_BLOCK)%nat;
  vb_proofs : check_proofs b = Ok tt;
}.

Lemma candidates_exist e b key cs :
  existsb (fun c => leads e b c && vrf_ok e b key c) cs = true <->
  exists slot, slot ∈ cs /\ select_producer e slot = Some (producer b) /\ vrf_ok e b key slot = true.
Proof.
  rewrite existsb_exists. split; intros (c & H1 & H2); exists c.
  - apply andb_true_iff in H2 as [H2 H3]. apply bool_decide_eq_true in H2. split; [by apply list_elem_of_In|done].
  - destruct H2 as [H2 H3]. split; [by apply list_elem_of_In|]. unfold leads. by rewrite bool_decide_true, H3.
Qed.

Lemma select_producer_seed e slot a : select_producer e slot = Some a -> is_Some (genesis_seed e).
Proof. unfold select_producer, derive_epoch_seed. by destruct (genesis_seed e). Qed.

Lemma validate_block_valid e now b parent : validate_block e now b parent = Ok tt -> valid_block e now b parent.
Proof.
  unfold validate_block.
  destruct (negb (number b =? _)) eqn:E1; [done|]. destruct (negb (bool_decide _)) eqn:E2; [done|].
  destruct (_ <? timestamp b) eqn:E3; [done|]. destruct (timestamp b <=? _) eqn:E4; [done|].
  destruct (find_validator _ _) as [v|] eqn:Ev; [|done].
  destruct (genesis_seed e) as [g|] eqn:Eg.
  2: { unfold candidate_slots. simpl. unfold derive_epoch_seed. by rewrite Eg. }
  destruct (match_candidates_spec e b (v_public_key v) (candidate_slots (timestamp b)) false g Eg) as (m & -> & Hm).
  destruct (existsb _ _) eqn:Ex; [|by destruct m]. rewrite Hm by done. cbn [negb].
  destruct (bool_decide (MAX_TRANSACTIONS_PER_BLOCK < _)%nat) eqn:E5; [done|]. intros E6.
  apply bool_decide_eq_false in E5.
  apply negb_false_iff in E1, E2. apply bool_decide_eq_true in E2. apply candidates_exist in Ex as (slot & Hs).
  constructor; try done; [lia..| |lia]. exists v, slot. tauto.
Qed.

Lemma valid_block_validates e now b parent : valid_block e now b parent -> validate_block e now b parent = Ok tt.
Proof.
  intros [H1 H2 H3 H4 (v & slot & Ev & Hin & Hl & Hv) H5 H6]. unfold validate_block.
  rewrite H1, Z.eqb_refl, H2, bool_decide_true, Ev by done. cbn [negb].
  rewrite (proj2 (Z.ltb_ge _ _)), (proj2 (Z.leb_gt _ _)) by lia.
  destruct (select_producer_seed _ _ _ Hl) as [g Eg].
  destruct (match_candidates_spec e b (v_public_key v) (candidate_slots (timestamp b)) false g Eg) as (m & -> & Hm).
  assert (existsb (fun c => leads e b c && vrf_ok e b (v_public_key v) c) (candidate_slots (timestamp b)) = true) as Ex
    by (apply candidates_exist; eauto).
  rewrite Ex, Hm by done. cbn [negb]. rewrite bool_decide_false by lia. done.
Qed.

(** ** The rules for a block, apart from the code of the validation *)

(** A slot lasts 5 s and its leader has 1.5 s more. *)
Definition slot_open (slot ts : Z) : Prop := 0 <= slot /\ slot * 5000 <= ts < slot * 5000 + 5000 + 1500.

(** The seed of the epoch of a slot: an epoch is two slots. *)
Definition slot_seed (genesis : bytes) (slot : Z) : bytes := blake3_hash (genesis ++ to_le 8 (slot / 2)).

(** The leaders follow each other in the order of their addresses, from an
    offset that the seed of the epoch gives. *)
Definition leader (e : ConsensusEngine) (genesis : bytes) (slot : Z) (a : Address) : Prop :=
  exists l, l ≡ₚ addresses e /\ StronglySorted bytes_le l /\
    l !! Z.to_nat ((slot + from_le (take 8 (slot_seed genesis slot))) mod 2 ^ 64 mod Z.of_nat (length l)) = Some a.

Record block_rules (e : ConsensusEngine) (now : Z) (b parent : Block) : Prop := {
  br_number : number b = number parent + 1;
  br_parent : parent_hash_of b = block_hash parent;
  br_time : timestamp parent < timestamp b <= now + 1500;
  br_leader : exists genesis before v after slot, genesis_seed e = Some genesis /\
    validators e = before ++ v :: after /\ v_address v = producer b /\ producer b ∉ map v_address before /\
    slot_open slot (timestamp b) /\ leader e genesis slot (producer b) /\
    (v_public_key v = PublicKey_ZERO \/
     exists out, vrf_verify_with_seed (v_public_key v) (slot_seed genesis slot) (h_vrf_proof (header b)) = Ok out);
  br_size : Z.of_nat (length (transactions b)) <= 10000;
  br_proofs : 2 <= h_version (header b) \/ inference_proofs b <> [] ->
    h_proofs_root (header b) = merkle_root (proof_hashes (inference_proofs b)) /\
    (length (inference_proofs b) <= 500)%nat;
}.

Lemma candidate_slots_open ts slot : 0 <= ts -> slot ∈ candidate_slots ts <-> slot_open slot ts.
Proof.
  intros Hts. unfold candidate_slots, slot_open, slot_of_timestamp, BLOCK_INTERVAL_MS, MAX_TIMESTAMP_DRIFT_MS.
  pose proof (Z.div_mod ts 5000 ltac:(lia)). pose proof (Z.mod_pos_bound ts 5000 ltac:(lia)).
  set (k := ts / 5000) in *. set (r := ts mod 5000) in *. rewrite elem_of_cons.
  destruct (Z.ltb_spec r 1500), (Z.ltb_spec 0 k); cbn [andb]; rewrite ?list_elem_of_singleton, ?elem_of_nil; lia.
Qed.

Lemma election_sorted e : StronglySorted bytes_le (map fst (election_set e)).
Proof.
  unfold election_set.
  assert (StronglySorted addr_key_le (merge_sort addr_key_le (map (fun v => (v_address v, v_public_key v)) (validators e)))) as H.
  { assert (Transitive addr_key_le) by (intros x y z; apply (transitivity (R:=bytes_le))).
    assert (Total addr_key_le) by (intros x y; apply (total bytes_le)).
    by apply (StronglySorted_merge_sort addr_key_le). }
  induction H as [|x l' _ IH Hf]; simpl; [constructor|]. constructor; [done|]. by apply Forall_fmap.
Qed.

Lemma election_addresses e : map fst (election_set e) ≡ₚ addresses e.
Proof. unfold addresses, election_set. by rewrite merge_sort_Permutation, map_map. Qed.

Lemma leader_iff e genesis slot a :
  genesis_seed e = Some genesis -> leader e genesis slot a <-> select_producer e slot = Some a.
Proof.
  intros Hg. unfold select_producer, derive_epoch_seed. rewrite Hg. unfold select_producer_with_seed, leader.
  change (blake3_hash (genesis ++ to_le 8 (epoch_of_slot slot))) with (slot_seed genesis slot).
  change (u64_add slot (from_le (take 8 (slot_seed genesis slot))))
    with ((slot + from_le (take 8 (slot_seed genesis slot))) mod 2 ^ 64).
  rewrite <- (length_map fst (election_set e)), <- list_lookup_fmap. change (fst <$> election_set e) with (map fst (election_set e)).
  split.
  - intros (l & Hp & Hs & Hl). 
    assert (l = map fst (election_set e)) as ->.
    { apply (StronglySorted_unique bytes_le); [done|apply election_sorted|by rewrite election_addresses]. }
    rewrite bool_decide_false; [done|].
    intros Hnil. by rewrite Hnil in Hl.
  - case_bool_decide; [done|]. intros Hl. exists (map fst (election_set e)).
    split_and!; [apply election_addresses|apply election_sorted|done].
Qed.

Lemma find_validator_first a l v :
  find_validator a l = Some v <->
  exists before after, l = before ++ v :: after /\ v_address v = a /\ a ∉ map v_address before.
Proof.
  unfold find_validator. induction l as [|w l IH]; simpl.
  { split; [done|]. by intros ([] & ? & ? & _). }
  destruct (decide (v_address w = a)) as [Ha|Ha]; simpl.
  - split.
    + intros [= ->]. exists [], l. split_and!; [done|done|apply not_elem_of_nil].
    + intros ([|x before] & after & [= -> Hl] & Hv & Hn); [done|]. destruct Hn. simpl. rewrite Ha. left.
  - rewrite <- option_fmap_compose. unfold compose. cbn [snd].
    assert (forall o : option (nat * ValidatorNode), (fun x => (prod_map S id x).2) <$> o = snd <$> o) as -> by (by intros [[]|]).
    rewrite IH. split.
    + intros (before & after & -> & Hv & Hn). exists (w :: before), after. split_and!; [done|done|]. simpl.
      rewrite not_elem_of_cons. split; [congruence|done].
    + intros ([|x before] & after & [= -> Hl] & Hv & Hn); [done|]. exists before, after.
      split_and!; [done|done|]. simpl in Hn. by apply not_elem_of_cons in Hn as [_ Hn].
Qed.

Lemma check_proofs_iff b :
  check_proofs b = Ok tt <->
  (2 <= h_version (header b) \/ inference_proofs b <> [] ->
    h_proofs_root (header b) = merkle_root (proof_hashes (inference_proofs b)) /\
    (length (inference_proofs b) <= 500)%nat).
Proof.
  unfold check_proofs, MAX_INFERENCE_PROOFS_PER_BLOCK.
  destruct ((2 <=? h_version (header b)) || negb (bool_decide (inference_proofs b = []))) eqn:E.
  - apply orb_true_iff in E. rewrite Z.leb_le, negb_true_iff, bool_decide_eq_false in E.
    case_bool_decide as H1; cbn [negb]; [|split; [done|intros H; by destruct (H E)]].
    case_bool_decide as H2; (split; [|intros H; try (destruct (H E); lia)]); done || (intros _ _; split; [done|lia]).
  - apply orb_false_iff in E. rewrite Z.leb_gt, negb_false_iff, bool_decide_eq_true in E.
    split; [|done]. intros _ [?|?]; [lia|tauto].
Qed.

Lemma valid_block_rules e now b parent :
  in_u 64 (number parent + 1) -> in_u 64 (now + 1500) -> 0 <= timestamp b ->
  valid_block e now b parent <-> block_rules e now b parent.
Proof.
  intros Hn Hnow Hts.
  assert (u64_add (number parent) 1 = number parent + 1) as En by (by apply wrap_small).
  assert (u64_add now MAX_TIMESTAMP_DRIFT_MS = now + 1500) as Et by (by apply wrap_small).
  split; [intros [H1 H2 H3 H4 H5 H6 H7]|intros [H1 H2 H3 H4 H5 H6]].
  - destruct H5 as (v & slot & (before & after & Hv)%find_validator_first & Hin & Hl & Hvrf).
    destruct (select_producer_seed _ _ _ Hl) as [g Hg]. rewrite En in H1. rewrite Et in H3. constructor; try done; try lia.
    + exists g, before, v, after, slot. destruct_and!. split_and!; try done.
      * by apply candidate_slots_open.
      * by apply leader_iff.
      * unfold vrf_ok, derive_epoch_seed in Hvrf. rewrite Hg in Hvrf. apply orb_true_iff in Hvrf as [Hz|Hok].
        -- left. by apply bool_decide_eq_true in Hz.
        -- right. unfold slot_seed. change (slot / 2) with (epoch_of_slot slot).
           destruct (vrf_verify_with_seed _ _ _) as [out| | |]; [by exists out|done..].
    + unfold MAX_TRANSACTIONS_PER_BLOCK in *. lia.
    + by apply check_proofs_iff.
  - destruct H4 as (g & before & v & after & slot & Hg & Hv & Ha & Hfst & Ho & Hl & Hvrf).
    constructor; try done; rewrite ?En, ?Et; try lia.
    + exists v, slot. split_and!; [apply find_validator_first; by exists before, after|by apply candidate_slots_open|
        by apply (leader_iff e g)|]. unfold vrf_ok, derive_epoch_seed. rewrite Hg. apply orb_true_iff.
      destruct Hvrf as [Hz|[out Hok]]; [left; by apply bool_decide_eq_true|right].
      change (epoch_of_slot slot) with (slot / 2). fold (slot_seed g slot). by rewrite Hok.
    + unfold MAX_TRANSACTIONS_PER_BLOCK. lia.
    + by apply check_proofs_iff.
Qed.
End theory.
