(* ===== verification/EngineProps.v ===== *)
(** * Properties of the consensus engine

    Finality (the test in doubles is exact, two final blocks share a third of
    the voters, all votes finalise), votes (one per height until it is pruned),
    the election (frozen by everything but registration), blocks (what an
    elected validator produces validates elsewhere; what validation does not
    look at), slashing and jailing, and checkpoints. *)

From S2P Require Import Prelude Float64 Externals Codec Nibbles Storage Trie Types Crypto Blocks Pow Receipts.
From S2P Require Import StateDB StateOps Executor Scoring Engine EngineTheory.

Section props.
Context `{B : Blake3} `{ED : Ed25519} `{HX : HexCrate}.
Context `{BH : Borsh BlockHeader} `{BV : Borsh UnsignedVote} `{BI : Borsh UnsignedInferenceProof}.
Context `{BT : Borsh UnsignedTransaction} `{BR : Borsh Receipt}.
Context `{BN : Borsh ValidatorNode} `{BC : Borsh ValidatorCheckpoint} `{BE : Borsh DoubleSignEvidence}.

(** The engine of a node that started empty, with the default threshold. *)
Definition node (e : ConsensusEngine) : Prop :=
  exists c key a evs, finality_threshold c = FINALITY_THRESHOLD /\ history (engine_of c key a) evs e.

Lemma history_config e evs e' : history e evs e' -> config e' = config e.
Proof.
  induction 1 as [|e ev e1 evs e2 Hev _ IH]; [done|]. rewrite IH. destruct (registers ev) eqn:Er.
  - destruct ev; try done; by injection Hev as <-.
  - by destruct (event_keeps _ _ _ Hev Er) as (_ & _ & ? & _).
Qed.

Lemma node_ok e : node e -> votes_ok e /\ finality_threshold (config e) = FINALITY_THRESHOLD.
Proof.
  intros (c & key & a & evs & Hc & Hh). split; [|by rewrite (history_config _ _ _ Hh)].
  eapply history_votes_ok; [done|]. apply map_Forall_empty.
Qed.

(** The finality test on a node, by the number of accepting validators. *)
Lemma node_finality e h :
  node e -> NoDup (addresses e) -> 0 < Z.of_nat (length (validators e)) < 2 ^ 40 ->
  check_finality e h = (67 * Z.of_nat (length (validators e)) <=? 100 * Z.of_nat (length (accepters e h))).
Proof.
  intros [Hok Ht]%node_ok Hnd Hn. rewrite check_finality_exact by (done || lia).
  destruct (pending_votes e !! h) as [vs|] eqn:Hl.
  - rewrite (accept_count_accepters e h vs) by done. by replace (0 <? _) with true by lia.
  - replace (accepters e h) with (@nil Address); [symmetry; apply Z.leb_gt; simpl; lia|].
    unfold accepters, accepts. rewrite Hl. simpl. symmetry. by apply filter_none.
Qed.

(** C3 (liveness): a block is final exactly when 100 times the number of
    registered validators whose accepting vote the node holds reaches 67 times
    the number registered (the division in doubles never rounds across the
    threshold below [2^40] validators); so a block that all of them accept is
    final, and one accepted by two thirds or less is not. *)
Theorem finality_exact e h :
  node e -> NoDup (addresses e) -> 0 < Z.of_nat (length (validators e)) < 2 ^ 40 ->
  let n := Z.of_nat (length (validators e)) in
  let accepted := Z.of_nat (length (accepters e h)) in
  (check_finality e h = true <-> 67 * n <= 100 * accepted) /\
  (Forall (fun a => accepts e h a = true) (addresses e) -> check_finality e h = true) /\
  (3 * accepted <= 2 * n -> check_finality e h = false).
Proof.
  intros He Hnd Hn. simpl. rewrite (node_finality e h He Hnd Hn). split; [apply Z.leb_le|]. split.
  - intros Hall. apply Z.leb_le. unfold accepters. rewrite filter_all by done. unfold addresses. rewrite length_map. lia.
  - intros H3. apply Z.leb_gt. lia.
Qed.

(** C4 (safety): when two nodes with the same registered validators hold two
    blocks final, at least 34 in 100 of the validators have accepted both; so
    two conflicting blocks are never both final while fewer than that many
    vote for both. *)
Theorem finality_overlap e1 e2 h1 h2 :
  node e1 -> node e2 -> NoDup (addresses e1) -> addresses e2 ≡ₚ addresses e1 ->
  0 < Z.of_nat (length (validators e1)) < 2 ^ 40 ->
  check_finality e1 h1 = true -> check_finality e2 h2 = true ->
  34 * Z.of_nat (length (validators e1)) <=
    100 * Z.of_nat (length (filter (fun a => accepts e1 h1 a = true /\ accepts e2 h2 a = true) (addresses e1))).
Proof.
  intros He1 He2 Hnd Hperm Hn H1 H2.
  assert (Hlen : length (validators e2) = length (validators e1)).
  { rewrite <-(length_map v_address (validators e2)), <-(length_map v_address (validators e1)).
    by apply Permutation_length. }
  rewrite node_finality in H1 by done.
  rewrite node_finality in H2 by (done || by rewrite ?Hperm || by rewrite Hlen).
  apply Z.leb_le in H1, H2.
  pose proof (filter_overlap (fun a => accepts e1 h1 a = true) (fun a => accepts e2 h2 a = true) (addresses e1)) as Ho.
  assert (Hf2 : length (accepters e2 h2) = length (filter (fun a => accepts e2 h2 a = true) (addresses e1))).
  { apply Permutation_length. unfold accepters. by rewrite Hperm. }
  assert (length (addresses e1) = length (validators e1)) as Ha by apply length_map.
  unfold accepters in H1 at 1. rewrite Hf2, Hlen in H2. lia.
Qed.

(** C21 (invariant): once a node has recorded its vote at a height it never
    gets to record another there, whatever it does, until that height or a
    higher one is pruned; after that the record is gone and it votes again. *)
Theorem own_vote_once e height h e1 evs e2 h' :
  try_record_own_vote height h e = (true, e1) -> history e1 evs e2 ->
  (Forall (prunes_below height) evs -> try_record_own_vote height h' e2 = (false, e2)) /\
  (forall f, height <= f -> fst (try_record_own_vote height h' (prune_old_votes f e2)) = true).
Proof.
  intros Ht Hh. split.
  - intros Hp. unfold try_record_own_vote in *. destruct (own_votes e !! height); simplify_eq.
    rewrite (history_own_vote _ _ _ height h Hh Hp); [done|]. simpl. by rewrite lookup_insert_eq.
  - intros f Hf. unfold try_record_own_vote, prune_old_votes. simpl.
    rewrite map_lookup_filter_None_2; [done|]. right. intros x _ ?. simpl in *. lia.
Qed.

(** Slashing, jailing, scores, votes, epochs, delegation and
    every other event that is not a registration leave the leader of every slot
    unchanged, once the genesis seed is set. *)
Theorem election_frozen e evs e' seed slot :
  genesis_seed e = Some seed -> history e evs e' -> Forall (fun ev => registers ev = false) evs ->
  select_producer e' slot = select_producer e slot.
Proof.
  intros Hs Hh Hf. destruct (history_keeps _ _ _ Hh Hf) as (Hid & Hseed & _).
  apply leader_determined; [done|]. by rewrite Hs, (Hseed _ Hs).
Qed.

(** ** Blocks *)

(** C5 (functional): validation accepts a block exactly when the rules hold:
    it has the next number and the hash of its parent; its timestamp is after
    the parent's and at most 1.5 s ahead of the clock; the genesis seed is set,
    and its producer is registered and is, in the rotation of the registered
    addresses in order, the leader of a slot of 5 s that the timestamp is in or
    has left less than 1.5 s ago, with a VRF proof for the seed of that slot's
    epoch (not asked of a zero key); it has at most 10,000 transactions; and if
    its version is 2 or it has inference proofs, these are at most 500 and have
    the root of the header. Numbers and clock are below the maximum of a u64. *)
Theorem validate_block_exact e now b parent :
  in_u 64 (number parent + 1) -> in_u 64 (now + 1500) -> 0 <= timestamp b ->
  validate_block e now b parent = Ok tt <-> block_rules e now b parent.
Proof.
  intros Hn Hnow Hts. rewrite <- valid_block_rules by done. split; [apply validate_block_valid|apply valid_block_validates].
Qed.





(** What a block says besides its place in the schedule. *)
Definition forge (b : Block) (txs : list Transaction) (vs : list Vote) (sig : Signature)
    (state_root tx_root receipts_root : Hash) (score gas_limit gas_used : Z) (extra : bytes) : Block :=
  let h := header b in
  mkBlock (mkBlockHeader (h_version h) (h_number h) (h_parent_hash h) state_root tx_root receipts_root
      (h_proofs_root h) (h_producer h) score (h_vrf_proof h) (h_timestamp h) gas_limit gas_used extra)
    txs vs (inference_proofs b) sig.

(** C22 (safety): validation does not authenticate the producer. From a block
    that validates, anyone gets another one that validates by replacing the
    transactions, the state, transaction and receipt roots, the gas and the
    signature with anything: the signature and two of the roots are never
    checked, and the VRF proof depends on the epoch alone. *)
Theorem forged_block_validates e now b parent txs vs sig state_root tx_root receipts_root score gas_limit gas_used extra :
  validate_block e now b parent = Ok tt -> (length txs <= MAX_TRANSACTIONS_PER_BLOCK)%nat ->
  validate_block e now
    (forge b txs vs sig state_root tx_root receipts_root score gas_limit gas_used extra) parent = Ok tt.
Proof.
  intros [H1 H2 H3 H4 H5 _ H6]%validate_block_valid Htx. by apply valid_block_validates; constructor.
Qed.

(** ** Slashing *)

Lemma find_update_first a f l v :
  find_validator a l = Some v -> v_address (f v) = a -> find_validator a (update_first a f l) = Some (f v).
Proof.
  unfold find_validator. induction l as [|w l IH]; [done|]. cbn [list_find update_first].
  destruct (decide (v_address w = a)) as [Hw|Hw]; simpl.
  - intros [= ->] Hf. by rewrite decide_True.
  - intros Hl Hf. rewrite decide_False by done. destruct (list_find _ l) as [[i x]|] eqn:El; [|done].
    simpl in Hl. injection Hl as ->. specialize (IH eq_refl Hf).
    destruct (list_find _ (update_first a f l)) as [[j y]|]; [|done]. by injection IH as ->.
Qed.

Lemma find_update_other a b f l :
  b <> a -> (forall v, v_address v = a -> v_address (f v) = a) ->
  find_validator b (update_first a f l) = find_validator b l.
Proof.
  intros Hne Hf. unfold find_validator. induction l as [|w l IH]; [done|]. cbn [list_find update_first].
  destruct (decide (v_address w = a)) as [Hw|Hw]; cbn [list_find].
  - rewrite (Hf w Hw), !decide_False by congruence. done.
  - case_decide; [done|]. destruct (list_find _ l) as [[]|], (list_find _ (update_first a f l)) as [[]|]; done.
Qed.

Lemma set_jail_fields ij ju v :
  v_address (Val.set_jail ij ju v) = v_address v /\ v_is_jailed (Val.set_jail ij ju v) = ij /\
  v_jail_until (Val.set_jail ij ju v) = ju /\ v_stake (Val.set_jail ij ju v) = v_stake v /\
  v_delegated_stake (Val.set_jail ij ju v) = v_delegated_stake v.
Proof. by destruct v. Qed.

Lemma set_reputation_fields x v :
  v_address (Val.set_reputation x v) = v_address v /\ v_is_jailed (Val.set_reputation x v) = v_is_jailed v /\
  v_jail_until (Val.set_reputation x v) = v_jail_until v /\ v_stake (Val.set_reputation x v) = v_stake v /\
  v_delegated_stake (Val.set_reputation x v) = v_delegated_stake v.
Proof. by destruct v. Qed.

(** The stakes of a validator fit, also together. *)
Definition stakes_ok (v : ValidatorNode) : Prop :=
  0 <= v_stake v /\ 0 <= v_delegated_stake v /\ v_stake v + v_delegated_stake v < 2 ^ 256.

Lemma validator_stake_exact v : stakes_ok v -> Val.total_stake v = v_stake v + v_delegated_stake v.
Proof. intros (? & ? & ?). unfold Val.total_stake, u256_sat_add, sat_add, u_max. lia. Qed.

Lemma slash_stakes_exact v p :
  stakes_ok v -> 0 <= p <= 100 -> Val.total_stake v * p < 2 ^ 256 ->
  let s := Val.total_stake v * p / 100 in
  exists v', slash_stakes p v = Some v' /\ v_address v' = v_address v /\
    v_stake v' = Z.max 0 (v_stake v - s) /\
    v_delegated_stake v' = v_delegated_stake v - Z.max 0 (s - v_stake v) /\
    v_is_jailed v' = v_is_jailed v /\ v_jail_until v' = v_jail_until v /\ stakes_ok v'.
Proof.
  intros Hok Hp Hov s. pose proof (validator_stake_exact v Hok) as Ht. destruct Hok as (Hs & Hd & Hsum).
  assert (Hs2 : 0 <= s <= v_stake v + v_delegated_stake v).
  { unfold s. rewrite Ht in *. split; [apply Z.div_pos; lia|]. apply Z.div_le_upper_bound; nia. }
  unfold slash_stakes, u256_mul. rewrite checked_small by (split; [apply Z.mul_nonneg_nonneg; lia|done]).
  simpl. fold s. unfold u256_sat_sub, sat_sub. eexists. split; [done|].
  assert (Hset : forall x y, v_address (Val.set_stakes x y v) = v_address v /\ v_stake (Val.set_stakes x y v) = x /\
    v_delegated_stake (Val.set_stakes x y v) = y /\ v_is_jailed (Val.set_stakes x y v) = v_is_jailed v /\
    v_jail_until (Val.set_stakes x y v) = v_jail_until v) by (intros; by destruct v).
  unfold stakes_ok. repeat match goal with |- context [Val.set_stakes ?x ?y v] =>
    destruct (Hset x y) as (-> & -> & -> & -> & ->) end.
  destruct (Z.max 0 _ =? 0) eqn:E; split_and!; done || lia.
Qed.

(** The entry after [slash_validator]. *)
Lemma slash_validator_entry now a p jail e v :
  find_validator a (validators e) = Some v -> stakes_ok v -> 0 <= p <= 100 -> Val.total_stake v * p < 2 ^ 256 ->
  let s := Val.total_stake v * p / 100 in
  exists e' v', slash_validator now a p jail e = Some e' /\ find_validator a (validators e') = Some v' /\
    v_stake v' = Z.max 0 (v_stake v - s) /\ v_delegated_stake v' = v_delegated_stake v - Z.max 0 (s - v_stake v) /\
    stakes_ok v' /\
    (if 0 <? jail then v_is_jailed v' = true /\
       v_jail_until v' = (if jail =? JAIL_PERMANENT_MS then JAIL_PERMANENT_MS else sat_add 64 now jail)
     else v_is_jailed v' = v_is_jailed v /\ v_jail_until v' = v_jail_until v) /\
    (forall b, b <> a -> find_validator b (validators e') = find_validator b (validators e)).
Proof.
  intros Hf Hok Hp Hov s. destruct (find_validator_Some _ _ _ Hf) as [_ Ha].
  destruct (slash_stakes_exact v p Hok Hp Hov) as (w & Hw & Hwa & Hws & Hwd & Hwj & Hwu & Hwok).
  unfold slash_validator, try_validator. rewrite Hf. simpl. rewrite Hw. simpl.
  set (r := Val.set_reputation _ w). destruct (set_reputation_fields (minus_2000 (v_reputation w)) w) as (Hr1 & Hr2 & Hr3 & Hr4 & Hr5).
  fold r in Hr1, Hr2, Hr3, Hr4, Hr5.
  set (v' := if 0 <? jail then _ else r).
  assert (Hv' : v_address v' = a /\ v_stake v' = v_stake w /\ v_delegated_stake v' = v_delegated_stake w /\
    (if 0 <? jail then v_is_jailed v' = true /\
       v_jail_until v' = (if jail =? JAIL_PERMANENT_MS then JAIL_PERMANENT_MS else sat_add 64 now jail)
     else v_is_jailed v' = v_is_jailed v /\ v_jail_until v' = v_jail_until v)).
  { unfold v'. destruct (0 <? jail); [|split_and!; congruence].
    match goal with |- context [Val.set_jail ?x ?y r] => destruct (set_jail_fields x y r) as (-> & -> & -> & -> & ->) end.
    split_and!; congruence. }
  destruct Hv' as (H1 & H2 & H3 & H4). eexists _, v'. split; [done|]. split.
  { by apply (find_update_first a (fun _ => v') (validators e) v). }
  unfold stakes_ok in *. rewrite H2, H3. split_and!; try done; try lia.
  intros b Hb. apply find_update_other; [done|]. by intros.
Qed.

(** Slashing a registered validator takes exactly the given
    percentage of its total stake, rounded down, from the direct stake first
    and from the delegated stake only when that is used up; other validators
    keep theirs. *)
Theorem slash_takes_percentage now a p jail e v :
  find_validator a (validators e) = Some v -> stakes_ok v -> 0 <= p <= 100 -> Val.total_stake v * p < 2 ^ 256 ->
  exists e' v', slash_validator now a p jail e = Some e' /\ find_validator a (validators e') = Some v' /\
    Val.total_stake v' = Val.total_stake v - Val.total_stake v * p / 100 /\
    (v_delegated_stake v' < v_delegated_stake v -> v_stake v' = 0) /\
    (forall b, b <> a -> find_validator b (validators e') = find_validator b (validators e)).
Proof.
  intros Hf Hok Hp Hov.
  destruct (slash_validator_entry now a p jail e v Hf Hok Hp Hov) as (e' & v' & He & Hf' & Hs & Hd & Hok' & _ & Ho).
  exists e', v'. split; [done|]. split; [done|]. rewrite (validator_stake_exact v' Hok'), Hs, Hd.
  rewrite (validator_stake_exact v Hok) in *. destruct Hok as (? & ? & ?).
  set (s := (v_stake v + v_delegated_stake v) * p / 100) in *. split; [lia|]. split; [lia|done].
Qed.

Lemma unjail_find now a l v :
  find_validator a l = Some v -> find_validator a (map (unjail now) l) = Some (unjail now v).
Proof.
  unfold find_validator. induction l as [|w l IH]; [done|]. cbn [list_find map].
  assert (Ha : v_address (unjail now w) = v_address w) by (unfold unjail; case_match; by destruct w).
  rewrite Ha. case_decide; simpl; [by intros [= ->]|]. intros Hl.
  destruct (list_find _ l) as [[i x]|] eqn:El; [|done]. simpl in Hl. injection Hl as ->.
  specialize (IH eq_refl). destruct (list_find _ (map _ l)) as [[j y]|]; [|done]. by injection IH as ->.
Qed.

(** The jailing of a lesser offence replaces a permanent one: a
    permanently jailed validator that is slashed again with a finite jail is
    released when that has passed. *)
Theorem permanent_jail_lifted now a p jail e v :
  find_validator a (validators e) = Some v -> Val.is_permanently_jailed v = true ->
  stakes_ok v -> 0 <= p <= 100 -> Val.total_stake v * p < 2 ^ 256 ->
  0 <= now -> 0 < jail -> now + jail < JAIL_PERMANENT_MS ->
  exists e' v', slash_validator now a p jail e = Some e' /\
    find_validator a (validators (process_unjails (now + jail) e')) = Some v' /\ v_is_jailed v' = false.
Proof.
  intros Hf _ Hok Hp Hov Hnow Hj Hlt.
  destruct (slash_validator_entry now a p jail e v Hf Hok Hp Hov) as (e' & v' & He & Hf' & _ & _ & _ & Hjail & _).
  replace (0 <? jail) with true in Hjail by lia. destruct Hjail as [Hij Hju].
  replace (jail =? JAIL_PERMANENT_MS) with false in Hju by lia.
  exists e', (unjail (now + jail) v'). split; [done|]. split; [by apply unjail_find|].
  unfold JAIL_PERMANENT_MS in *. unfold unjail, Val.can_unjail, Val.is_permanently_jailed. rewrite Hij, Hju.
  unfold sat_add. replace (Z.min (now + jail) (u_max 64)) with (now + jail) by lia.
  replace (now + jail =? u_max 64) with false by lia. rewrite Z.leb_refl. simpl.
  by destruct (set_jail_fields false 0 v') as (_ & -> & _).
Qed.
End props.

(** ** Checkpoints *)

Section checkpoints.
Context `{ED : Ed25519} `{BN : Borsh ValidatorNode} `{BC : Borsh ValidatorCheckpoint} `{!BorshOk ValidatorCheckpoint}.
Context {Database : Type} `{RK : RocksOk Database}.

Lemma foldl_batch_put {A} (cf : CF) (k v : A -> bytes) (l : list A) (b : WriteBatch) :
  foldl (fun b x => batch_put b cf (k x) (v x)) b l = b ++ map (fun x => Put cf (k x) (v x)) l.
Proof.
  revert b. induction l as [|x l IH]; intros b; simpl; [by rewrite app_nil_r|].
  rewrite IH. unfold batch_put. by rewrite <-(assoc_L app).
Qed.

Lemma foldl_batch_delete (cf : CF) (ks : list bytes) (b : WriteBatch) :
  foldl (fun b k => batch_delete b cf k) b ks = b ++ map (Delete cf) ks.
Proof.
  revert b. induction ks as [|k ks IH]; intros b; simpl; [by rewrite app_nil_r|].
  rewrite IH. unfold batch_delete. by rewrite <-(assoc_L app).
Qed.

(** The checkpoints after the batch: the new one, the old ones that did not expire. *)
Lemma checkpoint_batch_get db c k :
  db_get (write_batch db (checkpoint_batch db c)) CHECKPOINTS k =
    if decide (k = epoch_key (cp_epoch c)) then Some (to_vec c)
    else if decide (k ∈ expired_checkpoints db (epoch_key (cp_epoch c))) then None
    else db_get db CHECKPOINTS k.
Proof.
  unfold checkpoint_batch. rewrite foldl_batch_delete, foldl_batch_put, write_batch_deletes.
  set (key := epoch_key (cp_epoch c)).
  assert (Hvals : forall op, op ∈ map (fun v => Put VALIDATORS (v_address v) (to_vec v)) (cp_validators c) ->
    op_key op <> (CHECKPOINTS, k)) by (by intros op (v & -> & _)%list_elem_of_fmap).
  assert (Hexp : key ∉ expired_checkpoints db key).
  { unfold expired_checkpoints. case_match; [|apply not_elem_of_nil].
    intros Hin%elem_of_take. destruct Hin as (i & Hi & _). apply list_elem_of_lookup_2 in Hi.
    apply list_elem_of_filter in Hi as [Hne _]. done. }
  destruct (decide (k = key)) as [->|Hk].
  - rewrite decide_False by tauto. by apply (write_batch_last_put db [] _).
  - case_decide as Hd; [by rewrite decide_True by tauto|]. rewrite decide_False by tauto.
    apply write_batch_untouched. intros op [Hop|Hop]%elem_of_app; [|by apply Hvals].
    apply list_elem_of_singleton in Hop as ->. simpl. congruence.
Qed.

Lemma db_iter_keys_nodup db cf : NoDup (map fst (db_iter db cf)).
Proof.
  pose proof (rocks_iter_sorted db cf) as Hs. unfold db_iter. induction Hs as [|x l Hs IH Hf]; [constructor|].
  simpl. constructor; [|done]. intros (y & Heq & Hin)%list_elem_of_fmap.
  rewrite Forall_forall in Hf. specialize (Hf y Hin). unfold before in Hf. by rewrite Heq, bytes_cmp_refl in Hf.
Qed.

Lemma checkpoint_count db c :
  (length (db_iter (write_batch db (checkpoint_batch db c)) CHECKPOINTS) <= CHECKPOINT_RETENTION)%nat.
Proof.
  set (db' := write_batch _ _). set (key := epoch_key (cp_epoch c)).
  set (existing := filter (fun k => k <> key) (map fst (db_iter db CHECKPOINTS))).
  set (kept := drop (S (length existing) - CHECKPOINT_RETENTION) existing).
  assert (Hsub : map fst (db_iter db' CHECKPOINTS) ⊆+ key :: kept).
  { apply NoDup_submseteq; [apply db_iter_keys_nodup|].
    intros k ([k' v] & -> & Hin)%list_elem_of_fmap. simpl. apply rocks_iter_elem in Hin.
    change (db_get db' CHECKPOINTS k' = Some v) in Hin. unfold db' in Hin. rewrite checkpoint_batch_get in Hin.
    destruct (decide (k' = epoch_key (cp_epoch c))) as [->|Hk]; [by left|right].
    case_decide as He; [done|].
    assert (Hex : k' ∈ existing).
    { apply list_elem_of_filter. split; [done|]. apply list_elem_of_fmap. exists (k', v). split; [done|].
      by apply rocks_iter_elem. }
    rewrite <-(take_drop (S (length existing) - CHECKPOINT_RETENTION) existing) in Hex.
    apply elem_of_app in Hex as [Hex|Hex]; [|done]. exfalso. apply He. unfold expired_checkpoints. fold key existing.
    case_bool_decide; [done|]. replace (S (length existing) - CHECKPOINT_RETENTION)%nat with 0%nat in Hex by lia.
    by apply not_elem_of_nil in Hex. }
  apply submseteq_length in Hsub. rewrite length_map in Hsub. simpl in Hsub. unfold kept in Hsub.
  rewrite length_drop in Hsub. unfold CHECKPOINT_RETENTION in *. lia.
Qed.

(** A checkpoint of an epoch not older than those stored is the
    one a restart loads, and restoring it gives back the validators, the epoch
    and its seed and the finalised height; at most 64 checkpoints are stored. *)
Theorem checkpoint_restores e now db height e0 :
  validators e <> [] ->
  (forall k v, db_get db CHECKPOINTS k = Some v -> bytes_le k (epoch_key (ep_number (current_epoch e)))) ->
  let '(c, db') := create_checkpoint e now db height in
  load_latest_checkpoint db' = Some c /\ load_checkpoint db' (ep_number (current_epoch e)) = Ok (Some c) /\
  (let e' := restore_from_checkpoint c e0 in
   validators e' = validators e /\ ep_number (current_epoch e') = ep_number (current_epoch e) /\
   ep_seed (current_epoch e') = ep_seed (current_epoch e) /\ finalized_height e' = finalized_height e) /\
  (length (db_iter db' CHECKPOINTS) <= CHECKPOINT_RETENTION)%nat.
Proof.
  intros Hv Hk. unfold create_checkpoint. set (c := mkCheckpoint _ _ _ _ _ _). set (db' := write_batch _ _).
  assert (Hget : db_get db' CHECKPOINTS (epoch_key (cp_epoch c)) = Some (to_vec c))
    by (unfold db'; by rewrite checkpoint_batch_get, decide_True).
  split; [|split; [|split; [done|apply checkpoint_count]]].
  - destruct (sorted_last (db_iter db' CHECKPOINTS) (epoch_key (cp_epoch c), to_vec c)) as [l Hl].
    + apply rocks_iter_sorted.
    + by apply rocks_iter_elem.
    + intros [k v] Hin%rocks_iter_elem. change (db_get db' CHECKPOINTS k = Some v) in Hin.
      unfold db' in Hin. rewrite checkpoint_batch_get in Hin. case_decide as E1; [left; congruence|].
      case_decide; [done|]. right. unfold before. simpl. apply Hk in Hin. unfold bytes_le, bytes_leb in Hin.
      destruct (bytes_cmp k _) eqn:Ec; [|done..]. by apply bytes_cmp_eq in Ec.
    + unfold load_latest_checkpoint, db_iter_reverse. unfold db_iter in Hl. rewrite Hl, rev_app_distr. simpl.
      rewrite from_slice_to_vec, !bool_decide_true by done. simpl. by rewrite bool_decide_false.
  - unfold load_checkpoint. change (ep_number (current_epoch e)) with (cp_epoch c). by rewrite Hget, from_slice_to_vec.
Qed.
End checkpoints.

(** ** Examples *)

(** A signature that carries its key, so that it verifies under it. *)
Definition toy_ed25519 : Ed25519 := {|
  SigningKey := Z;
  verifying_key k := [k];
  signing_key_sign k m := k :: m;
  verifying_key_ok _ := true;
  verifying_key_verify pk m s := bool_decide (s = pk ++ m);
|}.
Lemma toy_ed25519_ok : Ed25519Ok toy_ed25519.
Proof. split; [done|]. intros k m. by apply bool_decide_eq_true. Qed.

Definition header_borsh : Borsh BlockHeader := codec_borsh BlockHeader.
Definition vote_borsh : Borsh UnsignedVote := codec_borsh UnsignedVote.
Definition inference_borsh : Borsh UnsignedInferenceProof := codec_borsh UnsignedInferenceProof.
Definition validator_borsh : Borsh ValidatorNode := codec_borsh ValidatorNode.
Definition checkpoint_borsh : Borsh ValidatorCheckpoint := codec_borsh ValidatorCheckpoint.
Definition evidence_borsh : Borsh DoubleSignEvidence := codec_borsh DoubleSignEvidence.
Lemma checkpoint_borsh_ok : @BorshOk ValidatorCheckpoint checkpoint_borsh.
Proof. apply codec_borsh_ok. apply _. Qed.

(** The examples have no receipts. *)
Definition no_receipts : Borsh Receipt := {| to_vec _ := []; from_slice _ := None |}.

(** The bytes themselves, in place of their hexadecimal text. *)
Definition raw_hex : HexCrate := fun bs => bs.

Section examples.
#[local] Existing Instances tagged_blake3 toy_ed25519 toy_ed25519_ok raw_hex header_borsh vote_borsh inference_borsh
  validator_borsh checkpoint_borsh checkpoint_borsh_ok evidence_borsh unsigned_borsh no_receipts.

Definition ex_address (i : Z) : Address := replicate 20 i.
Definition ex_key (i : Z) : VrfKeypair := mkVrfKeypair i.
Definition ex_validator (i : Z) : ValidatorNode :=
  Val.default_with (ex_address i) (vrf_public_key (ex_key i)) (10000 * ONE_QFC) 1000 0.

(** Three validators, and the votes of some of them for two blocks. *)
Definition ex_start : ConsensusEngine := engine_of config_default (Some (ex_key 2)) (Some (ex_address 2)).
Definition ex_vote (h : Hash) (i : Z) : Vote := vote_accept h 1 (ex_address i) 0.
Definition ex_setup : list Event := [EvSeed (replicate 32 7); EvValidators (map ex_validator [3; 1; 2])].
Definition ex_run (evs : list Event) : ConsensusEngine := default ex_start (replay (ex_setup ++ evs) ex_start).

Definition ex_all : ConsensusEngine := ex_run (map (fun i => EvAddVote (ex_vote [1] i)) [1; 2; 3; 2]).
Definition ex_two : ConsensusEngine := ex_run (map (fun i => EvAddVote (ex_vote [1] i)) [1; 2]).
Definition ex_other : ConsensusEngine := ex_run (map (fun i => EvAddVote (ex_vote [2] i)) [3; 2; 1]).

Lemma ex_node evs : is_Some (replay (ex_setup ++ evs) ex_start) -> node (ex_run evs).
Proof.
  intros [e He]. exists config_default, (Some (ex_key 2)), (Some (ex_address 2)), (ex_setup ++ evs).
  split; [done|]. apply replay_history. unfold ex_run. change (engine_of _ _ _) with ex_start. by rewrite He.
Qed.

Lemma finality_exact_witness :
  check_finality ex_all [1] = true /\ check_finality ex_two [1] = false.
Proof.
  split.
  - apply (finality_exact ex_all [1]).
    + apply ex_node. vm_compute. eexists. reflexivity.
    + by_decide.
    + split; reflexivity.
    + by_decide.
  - apply (finality_exact ex_two [1]).
    + apply ex_node. vm_compute. eexists. reflexivity.
    + by_decide.
    + split; reflexivity.
    + vm_compute. discriminate.
Defined.

Lemma finality_overlap_witness :
  34 * 3 <= 100 * Z.of_nat (length (filter (fun a => accepts ex_all [1] a = true /\ accepts ex_other [2] a = true)
    (addresses ex_all))).
Proof.
  apply (finality_overlap ex_all ex_other [1] [2]).
  - apply ex_node. vm_compute. eexists. reflexivity.
  - apply ex_node. vm_compute. eexists. reflexivity.
  - by_decide.
  - reflexivity.
  - split; reflexivity.
  - vm_compute. reflexivity.
  - vm_compute. reflexivity.
Defined.

Lemma own_vote_once_witness :
  fst (try_record_own_vote 5 [9] (snd (try_record_own_vote 5 [8] ex_all))) = false.
Proof.
  destruct (own_vote_once ex_all 5 [8] (snd (try_record_own_vote 5 [8] ex_all)) []
    (snd (try_record_own_vote 5 [8] ex_all)) [9]) as [Hf _].
  - vm_compute. reflexivity.
  - constructor.
  - rewrite Hf by constructor. reflexivity.
Defined.

Lemma election_frozen_witness :
  select_producer (default ex_all (slash_validator 0 (ex_address 1) 50 1000 ex_all)) 12 = select_producer ex_all 12.
Proof.
  apply (election_frozen ex_all [EvSlash 0 (ex_address 1) 50 1000] _ (replicate 32 7) 12).
  - vm_compute. reflexivity.
  - apply replay_history. vm_compute. reflexivity.
  - by_decide.
Defined.

(** A parent at time 0, and the block of validator 2 in its slot. *)
Definition ex_parent : Block :=
  mkBlock (mkBlockHeader 1 6 [0] [0] [0] [0] [0] (ex_address 3) 0 VrfProof_default 0 0 0 []) [] [] [] [].
Definition ex_time : Z := 2 * BLOCK_INTERVAL_MS + 1500.
Definition ex_block : Block :=
  match produce_block ex_all ex_parent [] [] [5] 0 [] ex_time with Ok b => b | _ => ex_parent end.


Lemma validate_block_exact_witness :
  block_rules ex_two ex_time ex_block ex_parent /\
  ~ block_rules ex_two ex_time (forge ex_parent [] [] [] [1] [2] [3] 4 5 6 []) ex_parent.
Proof.
  split.
  - apply (validate_block_exact ex_two ex_time ex_block ex_parent); [by_decide|by_decide|by_decide|].
    vm_compute. reflexivity.
  - intros H. apply (validate_block_exact ex_two ex_time) in H; [|by_decide..]. by vm_compute in H.
Defined.

Lemma forged_block_validates_witness :
  validate_block ex_two ex_time (forge ex_block [] [] [] [1] [2] [3] 4 5 6 []) ex_parent = Ok tt.
Proof.
  apply (forged_block_validates ex_two ex_time ex_block ex_parent [] [] [] [1] [2] [3] 4 5 6 []).
  - vm_compute. reflexivity.
  - by_decide.
Defined.

Lemma slash_takes_percentage_witness : exists e' v',
  slash_validator 0 (ex_address 1) 50 1000 ex_all = Some e' /\ find_validator (ex_address 1) (validators e') = Some v' /\
  Val.total_stake v' = 10000 * ONE_QFC - 10000 * ONE_QFC * 50 / 100.
Proof.
  destruct (slash_takes_percentage 0 (ex_address 1) 50 1000 ex_all (ex_validator 1)) as (e' & v' & He & Hv & Ht & _).
  - vm_compute. reflexivity.
  - split_and!; by_decide.
  - lia.
  - by_decide.
  - exists e', v'. split; [exact He|]. split; [exact Hv|]. rewrite Ht. reflexivity.
Defined.

(** Validator 1, jailed for ever for signing twice. *)
Definition ex_jailed : ConsensusEngine := default ex_all (slash_validator 0 (ex_address 1) 50 JAIL_PERMANENT_MS ex_all).
Definition ex_jailed_validator : ValidatorNode := default (ex_validator 1) (find_validator (ex_address 1) (validators ex_jailed)).

Lemma permanent_jail_lifted_witness : exists e' v',
  slash_validator 10 (ex_address 1) 5 1000 ex_jailed = Some e' /\
  find_validator (ex_address 1) (validators (process_unjails 1010 e')) = Some v' /\ v_is_jailed v' = false.
Proof.
  apply (permanent_jail_lifted 10 (ex_address 1) 5 1000 ex_jailed ex_jailed_validator).
  - vm_compute. reflexivity.
  - vm_compute. reflexivity.
  - split_and!; by_decide.
  - lia.
  - by_decide.
  - lia.
  - lia.
  - by_decide.
Defined.

Lemma checkpoint_restores_witness :
  let '(c, db') := create_checkpoint ex_all 5 (∅ : RocksMap) 9 in
  load_latest_checkpoint db' = Some c /\ validators (restore_from_checkpoint c ex_start) = validators ex_all.
Proof.
  assert (Hne : validators ex_all <> []) by by_decide.
  assert (Hdb : forall k v, db_get (∅ : RocksMap) CHECKPOINTS k = Some v ->
    bytes_le k (epoch_key (ep_number (current_epoch ex_all)))) by discriminate.
  pose proof (checkpoint_restores ex_all 5 (∅ : RocksMap) 9 ex_start Hne Hdb) as H.
  destruct (create_checkpoint ex_all 5 (∅ : RocksMap) 9) as [c db'].
  split; [apply H|]. apply H.
Defined.
End examples.
