(* ===== verification/EngineTypes.v ===== *)
(** * The ranges of a validator's counters

    The fields of a registry entry are machine integers, and three of them are
    percentages scaled to 10000. Every event of the engine keeps both: the
    moving averages stay at or below 100%, the saturating and wrapping updates
    stay within their widths. *)

From S2P Require Import Prelude Float64 Externals Codec Nibbles Storage Trie Types Crypto Blocks Pow Receipts.
From S2P Require Import StateDB StateOps Executor Scoring Engine EngineTheory EngineProps.
From Stdlib Require Import SpecFloat.

(** A percentage scaled by 100. *)
Definition percentage (x : Z) : Prop := 0 <= x <= 10000.

Record validator_ok (v : ValidatorNode) : Prop := {
  ok_stake : in_u 256 (v_stake v);
  ok_delegated : in_u 256 (v_delegated_stake v);
  ok_delegators : in_u 32 (v_delegator_count v);
  ok_score : in_u 64 (v_contribution_score v);
  ok_uptime : percentage (v_uptime v);
  ok_accuracy : percentage (v_accuracy v);
  ok_latency : in_u 32 (v_avg_latency_ms v);
  ok_hashrate : in_u 64 (v_hashrate v);
  ok_memory : in_u 64 (v_gpu_memory_mb v);
  ok_benchmark : in_u 32 (v_benchmark_score v);
  ok_tier : in_u 8 (v_gpu_tier v);
  ok_inference : in_u 64 (v_inference_score v);
  ok_tasks : in_u 64 (v_tasks_completed v);
  ok_reputation : percentage (v_reputation v);
  ok_active : in_u 64 (v_last_active v);
  ok_jail : in_u 64 (v_jail_until v);
  ok_produced : in_u 64 (v_blocks_produced v);
  ok_valid : in_u 64 (v_valid_votes v);
  ok_invalid : in_u 64 (v_invalid_votes v);
}.

(** The arguments of an event are at their widths. *)
Definition event_ok (ev : Event) : Prop :=
  match ev with
  | EvValidators l => Forall validator_ok l
  | EvRestore c => Forall validator_ok (cp_validators c)
  | EvProduced now _ | EvVoted now _ _ => in_u 64 now
  | EvUptime _ expected actual => in_u 64 expected /\ in_u 64 actual
  | EvLatency _ ms => in_u 32 ms
  | EvSlash now _ percent jail_ms => in_u 64 now /\ in_u 8 percent /\ in_u 64 jail_ms
  | EvDelegate _ amount | EvUndelegate _ amount => in_u 256 amount
  | EvHashrate _ rate => in_u 64 rate
  | EvProfile _ _ score tier memory _ => in_u 32 score /\ in_u 8 tier /\ in_u 64 memory
  | EvReputation _ bps => in_u 32 bps
  | EvInference _ flops tasks => in_u 64 flops /\ in_u 64 tasks
  | EvWork proof task => in_u 64 (wp_work_count proof)
  | _ => True
  end.

Lemma f64_to_u64_range x : in_u 64 (f64_to_u64 x).
Proof.
  unfold in_u, f64_to_u64, u_max. destruct x as [|[]| |[] m e]; try lia.
  assert (0 <= Z.shiftl (Z.pos m) e) by (apply Z.shiftl_nonneg; lia). lia.
Qed.

Section ranges.
Context `{B : Blake3} `{ED : Ed25519} `{HX : HexCrate}.
Context `{BH : Borsh BlockHeader} `{BV : Borsh UnsignedVote} `{BI : Borsh UnsignedInferenceProof}.
Context `{BT : Borsh UnsignedTransaction} `{BR : Borsh Receipt}.
Context `{BN : Borsh ValidatorNode} `{BC : Borsh ValidatorCheckpoint} `{BE : Borsh DoubleSignEvidence}.

Definition registry_ok (e : ConsensusEngine) : Prop := Forall validator_ok (validators e).

Lemma update_first_ok a f l :
  (forall v, validator_ok v -> validator_ok (f v)) -> Forall validator_ok l -> Forall validator_ok (update_first a f l).
Proof.
  intros Hf. induction 1 as [|v l Hv Hl IH]; simpl; [constructor|]. case_decide; constructor; auto.
Qed.

Lemma with_validator_ok a f e :
  (forall v, validator_ok v -> validator_ok (f v)) -> registry_ok e -> registry_ok (with_validator a f e).
Proof. apply update_first_ok. Qed.

Lemma try_validator_ok a f e e' :
  (forall v v', validator_ok v -> f v = Some v' -> validator_ok v') ->
  try_validator a f e = Some e' -> registry_ok e -> registry_ok e'.
Proof.
  intros Hf. unfold try_validator. destruct (find_validator a (validators e)) as [v|] eqn:Ev; [|by intros [= <-]].
  intros (v' & Hv & [= <-])%bind_Some Hok. apply with_validator_ok; [|done]. intros _ _.
  eapply Hf; [|done]. apply find_validator_Some in Ev as [Hin _]. by eapply Forall_forall in Hok.
Qed.

(** [validator_case] opens an entry and leaves the fields that changed. *)
Ltac validator_case :=
  let w := fresh "w" in let Hok := fresh "Hok" in intros w Hok; destruct w; destruct Hok; simpl in *;
  constructor; simpl in *; try done; unfold percentage, in_u, u256_sat_add, u256_sat_sub, sat_add, sat_sub, u_max in *;
  try lia; try apply wrap_range; try lia.

Lemma produced_ok now a e : in_u 64 now -> registry_ok e -> registry_ok (record_block_produced now a e).
Proof.
  intros Hn. apply with_validator_ok. validator_case.
  pose proof (wrap_range 32 (v_reputation + 10) ltac:(lia)) as Hr. unfold u32_add, in_u in *. lia.
Qed.

(** The moving averages of percentages are percentages. *)
Lemma accuracy_up x : percentage x -> percentage (wrap 32 (u64_add (u64_mul x 99) 10000 / 100)).
Proof.
  unfold percentage, u64_add, u64_mul, wrap. intros Hx.
  rewrite (Z.mod_small (x * 99)), (Z.mod_small (x * 99 + 10000)) by lia.
  assert (0 <= (x * 99 + 10000) / 100 <= 10000)
    by (split; [apply Z.div_pos; lia|apply Z.div_le_upper_bound; lia]).
  rewrite Z.mod_small by lia. lia.
Qed.

Lemma accuracy_down x : percentage x -> percentage (wrap 32 (u64_mul x 99 / 100)).
Proof.
  unfold percentage, u64_mul, wrap. intros Hx. rewrite (Z.mod_small (x * 99)) by lia.
  assert (0 <= x * 99 / 100 <= 10000) by (split; [apply Z.div_pos; lia|apply Z.div_le_upper_bound; lia]).
  rewrite Z.mod_small by lia. lia.
Qed.

Lemma uptime_mean x y : percentage x -> percentage y -> percentage (wrap 32 (u64_add (u64_mul x 9) y / 10)).
Proof.
  unfold percentage, u64_add, u64_mul, wrap. intros Hx Hy.
  rewrite (Z.mod_small (x * 9)), (Z.mod_small (x * 9 + y)) by lia.
  assert (0 <= (x * 9 + y) / 10 <= 10000) by (split; [apply Z.div_pos; lia|apply Z.div_le_upper_bound; lia]).
  rewrite Z.mod_small by lia. lia.
Qed.

Lemma minus_2000_ok x : percentage x -> percentage (minus_2000 x).
Proof.
  unfold percentage, minus_2000, as_i32, wrap. intros Hx. replace (x <? 2 ^ 31) with true by lia.
  destruct (Z.le_gt_cases 2000 x).
  - rewrite Z.mod_small by lia. case_match; lia.
  - rewrite <-(Z.mod_unique (x - 2000) (2 ^ 32) (-1) (x - 2000 + 2 ^ 32)) by lia. case_match; lia.
Qed.

Lemma voted_ok now a valid e : in_u 64 now -> registry_ok e -> registry_ok (record_vote now a valid e).
Proof.
  intros Hn. apply with_validator_ok. intros v Hv. destruct valid; revert v Hv; validator_case.
  - by apply accuracy_up.
  - by apply accuracy_down.
Qed.

Lemma uptime_ok a expected actual e :
  in_u 64 expected -> registry_ok e -> registry_ok (update_validator_uptime a expected actual e).
Proof.
  intros Hx. unfold update_validator_uptime. case_match eqn:E0; [done|]. apply with_validator_ok. validator_case.
  apply uptime_mean; [done|]. unfold percentage. split; [|lia]. apply Z.min_glb; [|lia].
  apply Z.div_pos; [apply (wrap_range 64); lia|lia].
Qed.

Lemma slash_stakes_ok p v v' : validator_ok v -> slash_stakes p v = Some v' -> validator_ok v'.
Proof.
  intros Hv (x & Hx & (y & Hy & [= <-])%bind_Some)%bind_Some.
  assert (0 <= y) as Hy0.
  { unfold u256_div in Hy. injection Hy as <-. unfold u256_mul, checked in Hx.
    destruct (_ && _) eqn:E in Hx; [|done]. injection Hx as <-. apply Z.div_pos; lia. }
  clear Hx Hy. revert v Hv. validator_case; case_match; lia.
Qed.

Lemma slash_ok now a p jail e e' :
  in_u 64 now -> in_u 64 jail -> slash_validator now a p jail e = Some e' -> registry_ok e -> registry_ok e'.
Proof.
  intros Hn Hj. apply try_validator_ok. intros v v' Hv (w & Hw & [= <-])%bind_Some. apply slash_stakes_ok in Hw; [|done].
  assert (Hr : validator_ok (Val.set_reputation (minus_2000 (v_reputation w)) w)).
  { clear Hv. revert w Hw. validator_case. by apply minus_2000_ok. }
  case_match; [|done]. revert Hr. generalize (Val.set_reputation (minus_2000 (v_reputation w)) w).
  validator_case. unfold JAIL_PERMANENT_MS, u_max. case_match; lia.
Qed.

Lemma punish_ok a e e' : punish_double_sign a e = Some e' -> registry_ok e -> registry_ok e'.
Proof.
  apply try_validator_ok. intros v v' Hv (w & Hw & [= <-])%bind_Some. apply slash_stakes_ok in Hw; [|done].
  clear Hv. revert w Hw. validator_case.
Qed.

Lemma scores_ok e : registry_ok e -> registry_ok (update_contribution_scores e).
Proof.
  unfold registry_ok, update_contribution_scores. simpl. intros Hok. apply Forall_fmap. eapply Forall_impl; [done|].
  intros v Hv. unfold compose. pose proof (f64_to_u64_range) as Hr.
  unfold calculate_contribution_score, calculate_contribution_score_v2.
  match goal with |- context [f64_to_u64 ?x] => specialize (Hr x); generalize dependent (f64_to_u64 x) end.
  intros score Hs. revert v Hv. validator_case.
Qed.

Lemma unjails_ok now e : registry_ok e -> registry_ok (process_unjails now e).
Proof.
  unfold registry_ok, process_unjails. simpl. intros Hok. apply Forall_fmap. eapply Forall_impl; [done|].
  intros v Hv. unfold compose, unjail. case_match; [|done]. clear H. revert v Hv. validator_case.
Qed.

Lemma hashrate_range proof task : in_u 64 (wp_work_count proof) -> in_u 64 (calculate_hashrate proof task).
Proof.
  intros Hw. unfold calculate_hashrate.
  destruct (wp_work_count proof =? 0); [by unfold in_u|].
  assert (Hd : in_u 64 (u64_sub (mt_epoch_end task) (mt_epoch_start task))) by (apply wrap_range; lia).
  destruct (u64_sub _ _ / 1000 =? 0) eqn:E0; [by unfold in_u|].
  assert (0 <= u64_sub (mt_epoch_end task) (mt_epoch_start task) / 1000) by (apply Z.div_pos; unfold in_u in *; lia).
  set (d := u64_sub _ _ / 1000) in *. cbv zeta.
  assert (0 <= Z.shiftl 1 (Z.min (count_leading_zeros (mt_difficulty task)) 63)) as Hs
    by (apply Z.shiftl_nonneg; lia).
  set (x := sat_mul 64 _ _). assert (in_u 64 x).
  { unfold x, sat_mul, in_u, u_max in *. assert (0 <= wp_work_count proof * Z.shiftl 1 (Z.min (count_leading_zeros (mt_difficulty task)) 63))
      by (apply Z.mul_nonneg_nonneg; lia). lia. }
  unfold in_u in *. split; [apply Z.div_pos; lia|]. apply Z.div_lt_upper_bound; nia.
Qed.

Lemma work_ok proof task e :
  in_u 64 (wp_work_count proof) -> registry_ok e -> registry_ok (snd (process_work_proof proof task e)).
Proof.
  intros Hw Hok. pose proof (hashrate_range proof task Hw) as Hr.
  unfold process_work_proof, bind, gets, ok_or, fail, modify, ret.
  destruct (find_validator _ _); simpl; [|done]. repeat case_match; simplify_eq/=; try done.
  apply with_validator_ok; [|done]. validator_case.
Qed.

Lemma event_registry_ok ev e e' : event_ok ev -> apply_event ev e = Some e' -> registry_ok e -> registry_ok e'.
Proof.
  intros Hev He Hok. destruct ev; simpl in He, Hev; try (injection He as <-); try done; destruct_and?;
    eauto using scores_ok, produced_ok, voted_ok, uptime_ok, slash_ok, unjails_ok, punish_ok, work_ok;
    try (apply with_validator_ok; [|done]; validator_case).
  - unfold set_genesis_seed. by case_match.
  - unfold maybe_advance_epoch. repeat case_match; simpl; try done. by apply scores_ok.
  - unfold add_vote. by case_match.
  - unfold try_record_own_vote. by case_match.
  - case_match; lia.
Qed.

(** C23 (type): in every history of typed events the stakes, counters and
    timestamps of the registered validators stay within their integer widths,
    and uptime, accuracy and reputation stay percentages (at most 10000). *)
Theorem registry_stays_typed e evs e' :
  registry_ok e -> Forall event_ok evs -> history e evs e' -> registry_ok e'.
Proof.
  intros Hok Hf Hh. induction Hh as [|e ev e1 evs e2 Hev _ IH]; [done|]. inversion Hf; subst.
  apply IH; [|done]. by eapply event_registry_ok.
Qed.
End ranges.

(** ** Example *)

Section example.
#[local] Existing Instances tagged_blake3 toy_ed25519 raw_hex header_borsh vote_borsh inference_borsh
  validator_borsh checkpoint_borsh evidence_borsh unsigned_borsh no_receipts.

Lemma ex_validator_ok i : validator_ok (ex_validator i).
Proof. split; unfold percentage, in_u; simpl; unfold ONE_QFC; lia. Qed.

(** Registration, a produced block, a wrong vote, a slash and a release. *)
Definition ex_events : list Event :=
  ex_setup ++ [EvProduced 7 (ex_address 1); EvVoted 8 (ex_address 1) false; EvSlash 9 (ex_address 1) 50 1000; EvUnjail 2000].
Definition ex_late : ConsensusEngine := default ex_start (replay ex_events ex_start).

Lemma registry_stays_typed_witness : registry_ok ex_late.
Proof.
  apply (registry_stays_typed ex_start ex_events ex_late).
  - constructor.
  - unfold ex_events, ex_setup. simpl app. rewrite !Forall_cons, Forall_nil. cbn [event_ok]. unfold in_u.
    split_and!; try done; try lia. repeat (constructor; [apply ex_validator_ok|]). constructor.
  - apply replay_history. vm_compute. reflexivity.
Defined.
End example.
