(* ===== verification/Genesis.v ===== *)
(** * The genesis block (src/crates/qfc-chain/src/genesis.rs)

    The configuration with its addresses, keys and amounts as text, how they
    are parsed, and the genesis block. Text is a list of ASCII codes;
    hexadecimal decoding is the third-party crate hex, a parameter. *)

From S2P Require Import Prelude Externals Types Crypto Blocks Engine.
From Stdlib Require Import Ascii.

(** A string literal as its bytes. *)
Definition text (s : string) : bytes := map (fun c => Z.of_N (N_of_ascii c)) (String.list_ascii_of_string s).

(** [hex::decode] *)
Class HexDecode : Type := hex_decode : bytes -> option bytes.

Record GenesisValidator := mkGenesisValidator {
  gv_address : bytes;
  gv_public_key : bytes;
  gv_stake : bytes;
}.

(** [alloc] maps an address text to a balance text ([GenesisAllocation]). *)
Record GenesisConfig := mkGenesis {
  g_chain_id : Z;
  g_timestamp : Z;
  g_extra_data : bytes;
  g_alloc : gmap bytes bytes;
  g_validators : list GenesisValidator;
}.

(** [str::parse::<u128>]: an optional plus sign, then at least one digit, and
    no overflow. *)
Definition digit (c : Z) : option Z := if (48 <=? c) && (c <=? 57) then Some (c - 48) else None.
Fixpoint parse_digits (cs : bytes) (acc : Z) : option Z :=
  match cs with
  | [] => Some acc
  | c :: cs' =>
    d ← digit c;
    let acc' := 10 * acc + d in
    if acc' <? 2 ^ 128 then parse_digits cs' acc' else None
  end.
Definition parse_u128 (cs : bytes) : option Z :=
  match cs with
  | [] => None
  | 43 :: [] => None
  | 43 :: cs' => parse_digits cs' 0
  | _ => parse_digits cs 0
  end.

(** [strip_prefix("0x").unwrap_or(s)] *)
Definition strip_0x (cs : bytes) : bytes :=
  match cs with 48 :: 120 :: cs' => cs' | _ => cs end.

(** [from_slice] of a fixed-size byte array. *)
Definition sized (n : nat) (bs : bytes) : option bytes := if (length bs =? n)%nat then Some bs else None.

Section genesis.
Context `{HD : HexDecode}.

Definition parse_address (cs : bytes) : option Address := bs ← hex_decode (strip_0x cs); sized 20 bs.

Definition parse_allocations (g : GenesisConfig) : list (Address * Z) :=
  omap (fun '(addr_str, balance_str) =>
    a ← parse_address addr_str; b ← parse_u128 balance_str; Some (a, b)) (map_to_list (g_alloc g)).

Definition parse_validators (g : GenesisConfig) : list (Address * PublicKey * Z) :=
  omap (fun v =>
    a ← parse_address (gv_address v);
    pk_bytes ← hex_decode (gv_public_key v);
    let public_key := if (length pk_bytes =? 32)%nat then pk_bytes else PublicKey_ZERO in
    stake ← parse_u128 (gv_stake v);
    Some (a, public_key, stake)) (g_validators g).
End genesis.

Definition build_genesis_block (g : GenesisConfig) : Block :=
  mkBlock
    (mkBlockHeader BLOCK_VERSION 0 Hash_ZERO Hash_ZERO Hash_ZERO Hash_ZERO Hash_ZERO (replicate 20 0) 0
       VrfProof_default (g_timestamp g) DEFAULT_BLOCK_GAS_LIMIT 0 (g_extra_data g))
    [] [] [] Signature_ZERO.

(** [format!("0x{:040x}", i)] for the ten accounts of [dev]. *)
Definition dev_address (i : Z) : bytes :=
  text "0x" ++ replicate 39 48 ++ [if i <? 10 then 48 + i else 87 + i].

Definition ONE_BILLION_QFC : bytes := text "1000000000000000000000000000".
Definition DEV_VALIDATOR : bytes := text "0x1bff2fcb945733cc3012879cb9fab07928667062".
Definition TESTNET_VALIDATORS : list (bytes * bytes) :=
  [(text "0x8d1dd4291ea7fe924cd4b2e577f6c81f3e4025c8",
    text "7f225ba786bafc9374245d06ac28ec427543d05dff4b55bcbc08cf02ab94ea1d");
   (text "0x4a737feb30701eb86b708896bf6eff0fb7b2e0b2",
    text "ede3fe8baf9c26d9cff9af12bbc0b2fd74d390f5e5f2911a02870bccde37d506");
   (text "0xb560ab667adac60e0c9fd5c48b7d309cdf2be685",
    text "f4aba22b9a83084f549f63a34ddaf417fb46e759611ddb22e7b3cc6b207aabee")].
Definition FAUCET : bytes := text "0x10d7812fbe50096ae82569fdad35f79628bc0084".

Definition genesis_dev : GenesisConfig :=
  mkGenesis DEFAULT_CHAIN_ID 0 (text "QFC Dev Genesis")
    (list_to_map (map (fun a => (a, ONE_BILLION_QFC))
      (map dev_address [1; 2; 3; 4; 5; 6; 7; 8; 9; 10] ++ DEV_VALIDATOR :: map fst TESTNET_VALIDATORS ++ [FAUCET])))
    (map (fun '(a, k) => mkGenesisValidator a k (text "1000000"))
      ((DEV_VALIDATOR, text "8a88e3dd7409f195fd52db2d3cba5d72ca6709bf1d94121bf3748801b40f6f5c") :: TESTNET_VALIDATORS)).
Definition genesis_testnet : GenesisConfig := genesis_dev.

Definition genesis_hash `{B : Blake3} `{BH : Borsh BlockHeader} (genesis : Block) : Hash := blake3_hash (header_bytes genesis).
