(* ===== verification/Chain.v ===== *)
(** * The chain (src/crates/qfc-chain/src/chain.rs)

    The canonical chain and its branches in the database, the shared state
    transition, import with fork choice, reorganisation, finality and the
    lookups. The chain, its live state and the scratch states share one
    database: it is the field [db] of the live state, and a scratch state hands
    it back when it is dropped. The import lock makes an operation one step;
    the clock is an argument, read once per operation. The EVM is a parameter,
    as in Executor.v, with the ancestor lookup that the chain gives it modelled
    here. Error texts are the error values they print; the channel to the
    mempool is a list with its capacity. *)

From S2P Require Import Prelude Float64 Externals Codec Nibbles Storage Trie Types Crypto Blocks Receipts.
From S2P Require Import StateDB StateOps Executor Engine Genesis.

Definition MAX_REORG_DEPTH : Z := 64.
Definition BLOCKS_PER_EPOCH : Z := 3.

Inductive ChainError :=
| BlockNotFound (what : bytes)
| InvalidBlock (why : string)
| InvalidParent (expected : bytes) (actual : Hash)
| BlockAlreadyKnown
| GenesisAlreadyInitialized
| GenesisNotFound
| ChainIdMismatch (stored configured : Z)
| ChainStorage (why : string)
| ChainState (e : StateError)
| ChainConsensus (e : ConsensusError)
| ChainExecutor (e : ExecutorError).

Record ExecutionOutcome := mkOutcome {
  out_state_root : Hash;
  out_receipts : list Receipt;
  out_gas_used : Z;
}.

(** [evm_opcode_activation_height] is for the EVM only. *)
Record ChainConfig := mkChainConfig {
  cc_chain_id : Z;
  cc_genesis : GenesisConfig;
  cc_evm_opcode_activation_height : Z;
}.

Record EthTxMeta := mkEthTxMeta {
  em_eth_hash : Hash;
  em_v : Z;
  em_tx_type : Z;
  em_max_priority_fee_per_gas : option Z;
  em_max_fee_per_gas : option Z;
}.

(** A result of a read-only function. *)
Definition of_result {S E A} (r : Result E A) : ST S E A := fun s => (r, s).

(** ** Lookups *)

Section lookups.
Context `{B : Blake3}.
Context `{BH : Borsh BlockHeader} `{BB : Borsh BlockBody} `{BK : Borsh Block} `{BX : Borsh Transaction}
  `{BT : Borsh UnsignedTransaction} `{BR : Borsh Receipt} `{BM : Borsh EthTxMeta}.
Context {Database : Type} `{RK : RocksDB Database}.

Abbreviation R A := (Result ChainError A).

Definition get_block_by_number (d : Database) (n : Z) : R (option Block) :=
  let key := encode_block_number n in
  match db_get d BLOCK_HEADERS key with
  | None => Ok None
  | Some header_bytes =>
    match from_slice header_bytes with
    | None => Err (ChainStorage "header")
    | Some header =>
      match db_get d BLOCK_BODIES key with
      | None => Ok None
      | Some body_bytes =>
        match from_slice body_bytes with
        | None => Err (ChainStorage "body")
        | Some body =>
          Ok (Some (mkBlock header (body_transactions body) (body_votes body) (body_inference_proofs body)
            (body_signature body)))
        end
      end
    end
  end.

Definition get_block_by_hash (d : Database) (h : Hash) : R (option Block) :=
  match db_get d BLOCKS_BY_HASH h with
  | Some bs => match from_slice bs with Some block => Ok (Some block) | None => Err (ChainStorage "block") end
  | None =>
    match db_get d BLOCK_HASH_INDEX h with
    | None => Ok None
    | Some number_bytes =>
      if (length number_bytes =? 8)%nat then get_block_by_number d (from_be number_bytes) else Ok None
    end
  end.

Definition is_canonical (d : Database) (h : Hash) (n : Z) : R bool :=
  match get_block_by_number d n with
  | Ok (Some b) => Ok (bool_decide (block_hash b = h))
  | Ok None => Ok false
  | Err e => Err e
  | Panic => Panic
  | NoFuel => NoFuel
  end.

(** A record in a column family of its own, absent or well-formed. *)
Definition get_record {A} `{Borsh A} (d : Database) (cf : CF) (h : Hash) : R (option A) :=
  match db_get d cf h with
  | None => Ok None
  | Some bs => match from_slice bs with Some x => Ok (Some x) | None => Err (ChainStorage "record") end
  end.
Definition get_transaction (d : Database) (h : Hash) : R (option Transaction) := get_record d TRANSACTIONS h.
Definition get_receipt (d : Database) (h : Hash) : R (option Receipt) := get_record d RECEIPTS h.

Definition get_transaction_location (d : Database) (h : Hash) : option (Z * Z) :=
  bs ← db_get d TX_INDEX h; decode_tx_location bs.

Definition store_eth_tx_hash_mapping (d : Database) (eth_hash internal_hash : Hash) : Database :=
  db_put d ETH_TX_INDEX eth_hash internal_hash.
Definition store_eth_tx_meta (d : Database) (internal_hash : Hash) (meta : EthTxMeta) : Database :=
  db_put d ETH_TX_META internal_hash (to_vec meta).
Definition get_eth_tx_meta (d : Database) (internal_hash : Hash) : option EthTxMeta :=
  bs ← db_get d ETH_TX_META internal_hash; from_slice bs.
Definition translate_eth_hash (d : Database) (h : Hash) : R Hash :=
  match db_get d ETH_TX_INDEX h with
  | Some bs => match sized 32 bs with Some h' => Ok h' | None => Err (ChainStorage "Invalid internal hash") end
  | None => Ok h
  end.

Definition tx_hash (tx : Transaction) : Hash := blake3_hash (to_bytes_without_signature tx).

Definition canonical_tx_at (d : Database) (h : Hash) : R (option (Block * nat)) :=
  match get_transaction_location d h with
  | None => Ok None
  | Some (block_height, tx_index) =>
    match get_block_by_number d block_height with
    | Ok None => Ok None
    | Ok (Some block) =>
      let idx := Z.to_nat tx_index in
      match transactions block !! idx with
      | Some tx => if decide (tx_hash tx = h) then Ok (Some (block, idx)) else Ok None
      | None => Ok None
      end
    | Err e => Err e
    | Panic => Panic
    | NoFuel => NoFuel
    end
  end.

Definition get_receipt_with_block_info (d : Database) (h : Hash) : R (option (Receipt * Hash * Z)) :=
  match canonical_tx_at d h with
  | Ok None => Ok None
  | Ok (Some (block, _)) =>
    match get_receipt d h with
    | Ok None => Ok None
    | Ok (Some r) => Ok (Some (r, block_hash block, number block))
    | Err e => Err e
    | Panic => Panic
    | NoFuel => NoFuel
    end
  | Err e => Err e
  | Panic => Panic
  | NoFuel => NoFuel
  end.

(** ** The ancestor lookup of BLOCKHASH *)

(** The heights visited from one start. *)
Definition Visited : Type := option Hash * gmap Z Hash.

(** The walk, which caches every height on its way; [fuel] counts the blocks. *)
Fixpoint walk_back (fuel : nat) (d : Database) (cursor : Hash) (wanted : Z) (visited : gmap Z Hash) :
    option Hash * gmap Z Hash :=
  match fuel with
  | O => (None, visited)
  | S fuel' =>
    match db_get d BLOCKS_BY_HASH cursor ≫= from_slice with
    | None => (None, visited)
    | Some block =>
      let n := number block in
      let visited := <[n := cursor]> visited in
      if n =? wanted then (Some cursor, visited)
      else if (n <? wanted) || (n =? 0) then (None, visited)
      else walk_back fuel' d (parent_hash_of block) wanted visited
    end
  end.

Definition block_hash_lookup (fuel : nat) (d : Database) (start : Hash) (wanted : Z) (guard : Visited) :
    option Hash * Visited :=
  let visited := if decide (fst guard = Some start) then snd guard else ∅ in
  match visited !! wanted with
  | Some h => (Some h, (Some start, visited))
  | None => let (r, visited') := walk_back fuel d start wanted visited in (r, (Some start, visited'))
  end.

(** ** Batches *)

(** The writes of one block in the canonical index, the hash-keyed store and
    the transaction tables. *)
Definition tx_ops (n : Z) (i : nat) (tx : Transaction) : WriteBatch :=
  [Put TRANSACTIONS (tx_hash tx) (to_vec tx);
   Put TX_INDEX (tx_hash tx) (encode_tx_location n (wrap 32 (Z.of_nat i)))].
Definition append_block_to_batch (batch : WriteBatch) (b : Block) : WriteBatch :=
  let key := encode_block_number (number b) in
  batch ++
    [Put BLOCK_HEADERS key (to_vec (header b));
     Put BLOCK_BODIES key (to_vec (body_from_block b));
     Put BLOCK_HASH_INDEX (block_hash b) key;
     Put BLOCKS_BY_HASH (block_hash b) (to_vec b)] ++
    concat (imap (tx_ops (number b)) (transactions b)).

Definition append_receipts_and_head_to_batch (batch : WriteBatch) (b : Block) (receipts : list Receipt)
    (state_root : Hash) : WriteBatch :=
  batch ++ map (fun r => Put RECEIPTS (r_tx_hash r) (to_vec r)) receipts ++
    [Put METADATA LATEST_BLOCK_NUMBER (to_le 8 (number b)); Put METADATA LATEST_STATE_ROOT state_root].

Definition block_batch (batch : WriteBatch) (b : Block) (receipts : list Receipt) (state_root : Hash) : WriteBatch :=
  append_receipts_and_head_to_batch (append_block_to_batch batch b) b receipts state_root.
Definition commit_block (d : Database) (b : Block) (receipts : list Receipt) (state_root : Hash) : Hash * Database :=
  (block_hash b, write_batch d (block_batch batch_new b receipts state_root)).
End lookups.

(** ** The state transition *)

(** [total += gas_used * gas_price] panics on overflow. *)
Definition total_fees (txs : list Transaction) (receipts : list Receipt) : option Z :=
  foldl (fun total '(tx, r) =>
    t ← total; fee ← u256_mul (r_gas_used r) (tx_gas_price tx); u256_add t fee) (Some 0) (zip txs receipts).

Definition BLOCKS_PER_YEAR : Z := 365 * 24 * 60 * 60 * 1000 / BLOCK_INTERVAL_MS.

(** A percentage of the fees. *)
Definition fee_share (total_fees percent : Z) : option Z := x ← u256_mul total_fees percent; u256_div x 100.

Section rewards.
Context {St : Type} `{SO : !State.ops St}.

Definition apply_block_rewards (block_number : Z) (producer : Address) (total_fees : Z) : ST St ChainError unit :=
  let block_reward := block_reward_for_year (block_number / BLOCKS_PER_YEAR) in
  let! producer_fee_share := or_panic (fee_share total_fees FEE_PRODUCER_PERCENT) in
  let! reward := or_panic (u256_add block_reward producer_fee_share) in
  map_err ChainState (State.add_balance producer reward) ;;
  let! treasury_fee := or_panic (fee_share total_fees FEE_TREASURY_PERCENT) in
  if treasury_fee =? 0 then ret tt
  else map_err ChainState (State.add_balance TREASURY_ADDRESS treasury_fee).

Context `{B : Blake3} `{BT : Borsh UnsignedTransaction} `{ED : Ed25519}.
Context (evm_create : Executor -> Address -> Address -> bytes -> Z -> Z -> ST St ExecutorError EvmResult).
Context (evm_call : Executor -> Address -> Address -> Address -> bytes -> Z -> Z -> ST St ExecutorError EvmResult).

(** The executor with the block's context; the resolver of BLOCKHASH, below,
    is for the EVM. *)
Definition block_executor (c : ChainConfig) (parent : Hash) (block_number timestamp_ms : Z) : Executor :=
  set_evm_opcode_activation_height (cc_evm_opcode_activation_height c)
    (set_block_context block_number timestamp_ms DEFAULT_BLOCK_GAS_LIMIT parent (executor_new (cc_chain_id c))).

(** Undelegations, transactions and rewards, before the commit. *)
Definition execute_body (c : ChainConfig) (parent : Hash) (block_number timestamp_ms : Z) (producer : Address)
    (txs : list Transaction) : ST St ChainError (list Receipt * Z) :=
  map_err ChainExecutor (process_mature_undelegations (timestamp_ms / 1000)) ;;
  let! '(receipts, gas_used) := map_err ChainExecutor
    (execute_transactions evm_create evm_call (block_executor c parent block_number timestamp_ms) txs producer) in
  let! fees := or_panic (total_fees txs receipts) in
  apply_block_rewards block_number producer fees ;;
  ret (receipts, gas_used).
End rewards.

Section chain.
Context `{B : Blake3} `{ED : Ed25519} `{HX : HexCrate} `{HD : HexDecode}.
Context `{BN : Borsh TrieNode} `{BA : Borsh Account} `{BL : Borsh LegacyAccount} `{BU : Borsh Undelegation}.
Context `{BH : Borsh BlockHeader} `{BB : Borsh BlockBody} `{BK : Borsh Block} `{BX : Borsh Transaction}
  `{BT : Borsh UnsignedTransaction} `{BR : Borsh Receipt} `{BI : Borsh UnsignedInferenceProof}.
Context `{BV : Borsh ValidatorNode} `{BP : Borsh ValidatorCheckpoint} `{BE : Borsh DoubleSignEvidence}.
Context {C : Type -> Type -> Type} `{LC : LruCache C}.
Context {Database : Type} `{RK : RocksDB Database}.
Abbreviation SDB := (StateDB C Database).
Context (evm_create : Executor -> Address -> Address -> bytes -> Z -> Z -> ST SDB ExecutorError EvmResult).
Context (evm_call : Executor -> Address -> Address -> Address -> bytes -> Z -> Z -> ST SDB ExecutorError EvmResult).

(** A scratch state at the parent's root; what it writes stays in the database. *)
Definition execute_at (c : ChainConfig) (parent_state_root parent_hash : Hash) (block_number timestamp_ms : Z)
    (producer : Address) (txs : list Transaction) (d : Database) : Result ChainError ExecutionOutcome * Database :=
  let '(r, scratch) :=
    (let! '(receipts, gas_used) :=
       execute_body evm_create evm_call c parent_hash block_number timestamp_ms producer txs in
     let! root := map_err ChainState state_commit in
     ret (mkOutcome root receipts gas_used)) (state_with_root d parent_state_root) in
  (r, db scratch).

Definition execute_block (c : ChainConfig) (b : Block) (parent_state_root : Hash) (d : Database) :
    Result ChainError ExecutionOutcome * Database :=
  execute_at c parent_state_root (parent_hash_of b) (number b) (timestamp b) (producer b) (transactions b) d.

(** ** The chain *)

Record Chain := mkChain {
  ch_state : SDB;
  ch_consensus : ConsensusEngine;
  ch_config : ChainConfig;
  ch_head : option SealedBlock;
  ch_genesis_hash : option Hash;
  ch_finalized : Z * Hash;
  ch_sink : option (list Transaction * nat);
}.
Definition ch_db (x : Chain) : Database := db (ch_state x).

Definition set_ch_state (s : SDB) (x : Chain) : Chain :=
  mkChain s (ch_consensus x) (ch_config x) (ch_head x) (ch_genesis_hash x) (ch_finalized x) (ch_sink x).
Definition set_ch_consensus (e : ConsensusEngine) (x : Chain) : Chain :=
  mkChain (ch_state x) e (ch_config x) (ch_head x) (ch_genesis_hash x) (ch_finalized x) (ch_sink x).
Definition set_ch_head (h : SealedBlock) (x : Chain) : Chain :=
  mkChain (ch_state x) (ch_consensus x) (ch_config x) (Some h) (ch_genesis_hash x) (ch_finalized x) (ch_sink x).
Definition set_ch_genesis (h : Hash) (x : Chain) : Chain :=
  mkChain (ch_state x) (ch_consensus x) (ch_config x) (ch_head x) (Some h) (0, h) (ch_sink x).
Definition set_ch_finalized (f : Z * Hash) (x : Chain) : Chain :=
  mkChain (ch_state x) (ch_consensus x) (ch_config x) (ch_head x) (ch_genesis_hash x) f (ch_sink x).
Definition set_reorg_tx_sink (sink : list Transaction * nat) (x : Chain) : Chain :=
  mkChain (ch_state x) (ch_consensus x) (ch_config x) (ch_head x) (ch_genesis_hash x) (ch_finalized x) (Some sink).
Definition set_ch_db (d : Database) (x : Chain) : Chain := set_ch_state (set_db d (ch_state x)) x.
Definition on_consensus (f : ConsensusEngine -> ConsensusEngine) (x : Chain) : Chain :=
  set_ch_consensus (f (ch_consensus x)) x.

Abbreviation CM A := (ST Chain ChainError A).

(** A lookup in the database, and an execution on a scratch state. *)
Definition look {A} (f : Database -> Result ChainError A) : CM A := fun x => (f (ch_db x), x).
Definition scratch {A} (m : Database -> Result ChainError A * Database) : CM A := fun x =>
  let '(r, d) := m (ch_db x) in (r, set_ch_db d x).
(** A method of the live state. *)
Definition live {A} (m : ST SDB StateError A) : CM A := fun x =>
  let '(r, s) := map_err ChainState m (ch_state x) in (r, set_ch_state s x).

Definition maybe_create_checkpoint (now block_height : Z) (x : Chain) : Chain :=
  if negb (block_height mod BLOCKS_PER_EPOCH =? 0) then x
  else set_ch_db (snd (create_checkpoint (ch_consensus x) now (ch_db x) block_height)) x.

(** ** Genesis *)

Definition genesis_validator (v : Address * PublicKey * Z) : ValidatorNode :=
  let '(a, key, stake) := v in Val.default_with a key stake 1000 0.
Definition register_genesis_validators (x : Chain) : Chain :=
  let validators := map genesis_validator (parse_validators (cc_genesis (ch_config x))) in
  match validators with [] => x | _ => on_consensus (update_validators validators) x end.

Definition load_validator_checkpoint (x : Chain) : bool * Chain :=
  match load_latest_checkpoint (ch_db x) with
  | Some c => (true, on_consensus (restore_from_checkpoint c) x)
  | None => (false, x)
  end.

Fixpoint for_all {A} (f : A -> CM unit) (l : list A) : CM unit :=
  match l with [] => ret tt | y :: l' => f y ;; for_all f l' end.

(** The chain id in the database is the configured one. *)
Definition check_chain_id : CM unit := fun x =>
  match db_get (ch_db x) METADATA CHAIN_ID with
  | Some stored =>
    if (length stored =? 8)%nat && negb (from_le stored =? cc_chain_id (ch_config x))
    then (Err (ChainIdMismatch (from_le stored) (cc_chain_id (ch_config x))), x) else (Ok tt, x)
  | None => (Ok tt, x)
  end.

(** The head block and the live root of an existing chain. *)
Definition load_head : CM unit :=
  let! d := gets ch_db in
  match db_get d METADATA LATEST_BLOCK_NUMBER with
  | Some head_bytes =>
    if (length head_bytes =? 8)%nat then
      let! o := look (fun d => get_block_by_number d (from_le head_bytes)) in
      match o with
      | Some block => modify (set_ch_head (mkSealedBlock (block_hash block) block))
      | None => ret tt
      end
    else ret tt
  | None => ret tt
  end.
Definition restore_root : CM unit := modify (fun x =>
  match db_get (ch_db x) METADATA LATEST_STATE_ROOT with
  | Some bs => match sized 32 bs with Some root => set_ch_state (set_root root (ch_state x)) x | None => x end
  | None =>
    match ch_head x with
    | Some h => set_ch_state (set_root (state_root_of (sealed_block h)) (ch_state x)) x
    | None => x
    end
  end).

Definition load_chain (hash_bytes : bytes) : CM unit :=
  let! hash := ok_or (sized 32 hash_bytes) (ChainStorage "Invalid genesis hash in database") in
  modify (fun x => on_consensus (set_genesis_seed hash) (set_ch_genesis hash x)) ;;
  load_head ;;
  restore_root ;;
  modify (fun x => let '(restored, x) := load_validator_checkpoint x in
    if restored : bool then x else register_genesis_validators x).

Definition with_state_root (root : Hash) (b : Block) : Block :=
  let h := header b in
  mkBlock (mkBlockHeader (h_version h) (h_number h) (h_parent_hash h) root (h_transactions_root h) (h_receipts_root h)
      (h_proofs_root h) (h_producer h) (h_contribution_score h) (h_vrf_proof h) (h_timestamp h) (h_gas_limit h)
      (h_gas_used h) (h_extra_data h))
    (transactions b) (votes b) (inference_proofs b) (block_signature b).

Definition create_chain : CM unit :=
  let! g := gets (fun x => cc_genesis (ch_config x)) in
  for_all (fun '(a, balance) => live (set_balance a balance)) (parse_allocations g) ;;
  for_all (fun '(a, _, stake) => live (set_stake a stake)) (parse_validators g) ;;
  let! root := live state_commit in
  let genesis := with_state_root root (build_genesis_block g) in
  let hash := genesis_hash genesis in
  modify (fun x => set_ch_db (write_batch (ch_db x)
    (block_batch batch_new genesis [] root ++
     [Put METADATA GENESIS_HASH hash; Put METADATA CHAIN_ID (to_le 8 (cc_chain_id (ch_config x)))])) x) ;;
  modify (fun x => set_ch_head (mkSealedBlock hash genesis) (set_ch_genesis hash x)) ;;
  modify (on_consensus (set_genesis_seed hash)) ;;
  modify register_genesis_validators.

Definition init_genesis : CM unit :=
  check_chain_id ;;
  let! d := gets ch_db in
  match db_get d METADATA GENESIS_HASH with
  | Some hash_bytes => load_chain hash_bytes
  | None => create_chain
  end.

Definition chain_new (d : Database) (c : ChainConfig) (consensus : ConsensusEngine) : Result ChainError unit * Chain :=
  init_genesis (mkChain (state_new d) consensus c None None (0, Hash_ZERO) None).

(** ** Committing *)

Definition commit_canonical (now : Z) (b : Block) (receipts : list Receipt) (root : Hash) : CM Hash :=
  modify (fun x => set_ch_db (snd (commit_block (ch_db x) b receipts root)) x) ;;
  modify (fun x => set_ch_state (set_root root (ch_state x)) x) ;;
  modify (set_ch_head (mkSealedBlock (block_hash b) b)) ;;
  modify (on_consensus (record_block_produced now (producer b))) ;;
  modify (maybe_create_checkpoint now (number b)) ;;
  ret (block_hash b).

(** [format!("double_sign:{}:{}", height, validator)] *)
Definition store_double_sign_evidence (ev : DoubleSignEvidence) (x : Chain) : Chain :=
  set_ch_db (db_put (ch_db x) METADATA (text "double_sign:" ++ evidence_key ev) (to_vec ev)) x.

Definition record_finalized (height : Z) (h : Hash) (x : Chain) : Chain :=
  match is_canonical (ch_db x) h height with
  | Ok true =>
    let x := if fst (ch_finalized x) <? height then set_ch_finalized (height, h) x else x in
    on_consensus (set_finalized_height (Z.max height (finalized_height (ch_consensus x)))) x
  | _ => x
  end.

(** ** Reorganisation *)

(** The part of the branch off the canonical chain, tip first, and the common
    ancestor. *)
Fixpoint collect_branch (fuel : nat) (d : Database) (cursor_hash : Hash) (cursor : Block) (branch : list (Hash * Block)) :
    Result ChainError (list (Hash * Block) * Block) :=
  match fuel with
  | O => NoFuel
  | S fuel' =>
    match is_canonical d cursor_hash (number cursor) with
    | Ok true => Ok (branch, cursor)
    | Ok false =>
      let parent_hash := parent_hash_of cursor in
      match get_block_by_hash d parent_hash with
      | Ok (Some parent) => collect_branch fuel' d parent_hash parent (branch ++ [(cursor_hash, cursor)])
      | Ok None => Err (InvalidParent (text "existing branch ancestor") parent_hash)
      | Err e => Err e
      | Panic => Panic
      | NoFuel => NoFuel
      end
    | Err e => Err e
    | Panic => Panic
    | NoFuel => NoFuel
    end
  end.

(** A branch of blocks whose numbers fall by one reaches the canonical chain
    within as many steps. *)
Definition branch_fuel (tip : Block) : nat := S (S (Z.to_nat (number tip))).

Definition retains_finalized (finalized_height : Z) (recorded : Z * Hash) (ancestor : Block) (branch : list (Hash * Block)) : bool :=
  (finalized_height <=? number ancestor) ||
  ((fst recorded =? finalized_height) &&
   existsb (fun '(h, b) => (number b =? finalized_height) && bool_decide (h = snd recorded)) branch).

(** The branch from its oldest block, each against the root before it. *)
Fixpoint execute_branch (blocks : list Block) (parent_root : Hash) : CM (list (Block * ExecutionOutcome)) :=
  match blocks with
  | [] => ret []
  | b :: blocks' =>
    let! c := gets ch_config in
    let! outcome := scratch (execute_block c b parent_root) in
    if negb (bool_decide (out_state_root outcome = state_root_of b))
    then fail (InvalidBlock "state root mismatch re-executing branch block")
    else let! rest := execute_branch blocks' (out_state_root outcome) in ret ((b, outcome) :: rest)
  end.

(** The rows of an abandoned block; the transactions on the new branch stay. *)
Definition drop_ops (surviving : list Hash) (old : Block) : WriteBatch * list Transaction :=
  let gone := filter (fun tx => tx_hash tx ∉ surviving) (transactions old) in
  (Delete BLOCK_HASH_INDEX (block_hash old) ::
     concat (map (fun tx => [Delete RECEIPTS (tx_hash tx); Delete TX_INDEX (tx_hash tx); Delete TRANSACTIONS (tx_hash tx)]) gone),
   gone).

Fixpoint drop_old (d : Database) (surviving : list Hash) (heights : list Z) :
    Result ChainError (WriteBatch * list Transaction) :=
  match heights with
  | [] => Ok (batch_new, [])
  | n :: heights' =>
    match get_block_by_number d n, drop_old d surviving heights' with
    | Ok (Some old), Ok (batch, displaced) =>
      let '(ops, gone) := drop_ops surviving old in Ok (ops ++ batch, gone ++ displaced)
    | Ok None, Ok (batch, displaced) => Ok (batch, displaced)
    | Ok _, r => r
    | Err e, _ => Err e
    | Panic, _ => Panic
    | NoFuel, _ => NoFuel
    end
  end.

(** [try_send] drops what does not fit. *)
Definition try_send (capacity : nat) (queue : list Transaction) (tx : Transaction) : list Transaction :=
  if (length queue <? capacity)%nat then queue ++ [tx] else queue.
Definition send_displaced (displaced : list Transaction) (x : Chain) : Chain :=
  match ch_sink x with
  | Some (queue, capacity) => set_reorg_tx_sink (foldl (try_send capacity) queue displaced, capacity) x
  | None => x
  end.

Definition adopt (now : Z) (tip_hash : Hash) (tip : Block) (tip_root : Hash) (executed : list (Block * ExecutionOutcome))
    (x : Chain) : Chain :=
  let x := set_ch_state (set_root tip_root (ch_state x)) x in
  let x := set_ch_head (mkSealedBlock tip_hash tip) x in
  foldl (fun x '(b, _) =>
    maybe_create_checkpoint now (number b) (on_consensus (record_block_produced now (producer b)) x)) x executed.

Definition reorg_to (now : Z) (tip_hash : Hash) (tip : Block) : CM (list Transaction) :=
  let! o := gets ch_head in
  let! old_head := ok_or o GenesisNotFound in
  let! recorded := gets ch_finalized in
  let! engine := gets ch_consensus in
  let fin_height := Z.max (finalized_height engine) (fst recorded) in
  let! '(branch, ancestor) := look (fun d => collect_branch (branch_fuel tip) d tip_hash tip []) in
  if negb (retains_finalized fin_height recorded ancestor branch)
  then fail (InvalidBlock "reorg would abandon the finalized height") else
  let! executed := execute_branch (map snd (rev branch)) (state_root_of ancestor) in
  let surviving := concat (map (fun '(b, _) => map tx_hash (transactions b)) executed) in
  let! '(drops, displaced) := look (fun d => drop_old d surviving
    (seqZ (number ancestor + 1) (number (sealed_block old_head) - number ancestor))) in
  let batch := foldl (fun batch '(b, out) => block_batch batch b (out_receipts out) (out_state_root out)) drops executed in
  modify (fun x => set_ch_db (write_batch (ch_db x) batch) x) ;;
  let tip_root := match last executed with Some (_, out) => out_state_root out | None => state_root_of ancestor end in
  modify (adopt now tip_hash tip tip_root executed) ;;
  modify (send_displaced displaced) ;;
  ret displaced.

(** ** Import *)

Definition known (d : Database) (h : Hash) : bool :=
  db_contains d BLOCKS_BY_HASH h || db_contains d BLOCK_HASH_INDEX h.

(** Double-sign evidence of the block, processed and stored; a panic of the
    slashing arithmetic is the only way out. *)
Definition police (now : Z) (b : Block) : CM unit := fun x =>
  match check_double_sign (ch_consensus x) now b with
  | None => (Ok tt, x)
  | Some ev =>
    match process_double_sign_evidence ev (ch_consensus x) (ch_db x) with
    | None => (Panic, x)
    | Some (e, d) => (Ok tt, store_double_sign_evidence ev (set_ch_db d (set_ch_consensus e x)))
    end
  end.

(** The checks of [validate_block] and the execution, shared by both paths. *)
Definition validate (now : Z) (b parent : Block) : CM unit := fun x =>
  (match validate_block (ch_consensus x) now b parent with
   | Ok _ => Ok tt
   | Err e => Err (ChainConsensus e)
   | Panic => Panic
   | NoFuel => NoFuel
   end, x).
Definition check_proofs_root (b : Block) : CM unit :=
  if ((2 <=? h_version (header b)) || negb (bool_decide (inference_proofs b = []))) &&
     negb (bool_decide (h_proofs_root (header b) = merkle_root (proof_hashes (inference_proofs b))))
  then fail (InvalidBlock "Inference proofs root mismatch") else ret tt.
Definition execute_and_check (root_mismatch gas_mismatch : string) (b parent : Block) : CM ExecutionOutcome :=
  let! c := gets ch_config in
  let! outcome := scratch (execute_block c b (state_root_of parent)) in
  if negb (bool_decide (out_state_root outcome = state_root_of b)) then fail (InvalidBlock root_mismatch) else
  if negb (out_gas_used outcome =? gas_used_of b) then fail (InvalidBlock gas_mismatch) else
  ret outcome.

Definition better (b : Block) (head : SealedBlock) : bool :=
  (number (sealed_block head) <? number b) ||
  ((number b =? number (sealed_block head)) && bytes_ltb (block_hash b) (sealed_hash head)).

Definition import_block (now : Z) (b : Block) : CM Hash :=
  let h := block_hash b in
  let! d := gets ch_db in
  if known d h then fail BlockAlreadyKnown else
  police now b ;;
  modify (on_consensus (cache_block b)) ;;
  let! o := look (fun d => get_block_by_hash d (parent_hash_of b)) in
  let! parent := ok_or o (InvalidParent (text "existing block") (parent_hash_of b)) in
  validate now b parent ;;
  check_proofs_root b ;;
  let! outcome := execute_and_check "State root mismatch" "Gas used mismatch" b parent in
  modify (on_consensus (fun e =>
    foldl (fun e p => update_inference_score (ip_validator (ip_unsigned p)) (ip_flops_estimated (ip_unsigned p)) 1 e)
      e (inference_proofs b))) ;;
  let! oh := gets ch_head in
  let! head := ok_or oh GenesisNotFound in
  if bool_decide (parent_hash_of b = sealed_hash head) then
    commit_canonical now b (out_receipts outcome) (out_state_root outcome)
  else
    modify (fun x => set_ch_db (db_put (ch_db x) BLOCKS_BY_HASH h (to_vec b)) x) ;;
    (if better b head then let! _ := attempt (reorg_to now h b) in ret h else ret h).

Definition store_produced_block (now : Z) (b : Block) : CM unit :=
  let! oh := gets ch_head in
  let! head := ok_or oh GenesisNotFound in
  if negb (bool_decide (parent_hash_of b = sealed_hash head))
  then fail (InvalidParent (sealed_hash head) (parent_hash_of b)) else
  validate now b (sealed_block head) ;;
  let! outcome := execute_and_check "produced block state root mismatch (self-validation)"
    "produced block gas used mismatch (self-validation)" b (sealed_block head) in
  commit_canonical now b (out_receipts outcome) (out_state_root outcome) ;;
  ret tt.

(** ** Reads *)

Definition chain_block_number (x : Chain) : Z := match ch_head x with Some h => number (sealed_block h) | None => 0 end.
Definition state_at (n : Z) : CM SDB :=
  let! o := look (fun d => get_block_by_number d n) in
  let! b := ok_or o (BlockNotFound (decimal 20 n [])) in
  gets (fun x => state_with_root (ch_db x) (state_root_of b)).
Definition get_epoch (now : Z) (x : Chain) : Epoch * Chain :=
  let x := match genesis_seed (ch_consensus x) with
           | Some _ => on_consensus (fun e => snd (maybe_advance_epoch now e)) x
           | None => x
           end in
  (current_epoch (ch_consensus x), x).
End chain.
