(* ===== verification/ChainExec.v ===== *)
(** * Executing a block

    The state transition of a block (matured undelegations, transactions,
    rewards) on the state database, through its refinement to plain maps: what
    a block issues, and what a second execution on the same database gives. *)

From S2P Require Import Prelude Externals Nibbles Storage Trie TrieTree TrieTheory TrieMap Types Crypto Blocks Receipts.
From S2P Require Import StateDB StateTheory StateProps StateOps Executor ExecRefines ExecSpec ExecTheory ExecProps Genesis Chain.

Section rewards.
Context `{B : Blake3} `{BT : Borsh UnsignedTransaction} `{ED : Ed25519}.
Implicit Types X : model.

Definition block_reward (n : Z) : Z := block_reward_for_year (n / BLOCKS_PER_YEAR).
Definition share (fees percent : Z) : Z := fees * percent / 100.

(** The state after the rewards. *)
Definition rewarded (n : Z) (producer : Address) (fees : Z) (A : astate) : astate :=
  let A := credit producer (block_reward n + share fees FEE_PRODUCER_PERCENT) A in
  if share fees FEE_TREASURY_PERCENT =? 0 then A else credit TREASURY_ADDRESS (share fees FEE_TREASURY_PERCENT) A.

Lemma block_reward_range n : 0 <= n -> 0 <= block_reward n <= BLOCK_REWARD.
Proof.
  intros Hn. unfold block_reward, block_reward_for_year. assert (0 <= n / BLOCKS_PER_YEAR) by (apply Z.div_pos; done).
  assert (0 <= Z.shiftr BLOCK_REWARD (Z.min (n / BLOCKS_PER_YEAR) 4) <= BLOCK_REWARD).
  { rewrite Z.shiftr_div_pow2 by lia. split; [apply Z.div_pos; [done|lia]|].
    apply Z.div_le_upper_bound; [lia|]. assert (1 <= 2 ^ Z.min (n / BLOCKS_PER_YEAR) 4) by (apply (Z.pow_le_mono_r 2 0); lia).
    unfold BLOCK_REWARD. nia. }
  assert (0 <= MIN_BLOCK_REWARD <= BLOCK_REWARD) by (by vm_compute). lia.
Qed.

Lemma checked_ok x : 0 <= x < 2 ^ 256 -> checked x = Some x.
Proof. intros Hx. by apply checked_Some. Qed.

Lemma fee_share_exact fees p : 0 <= fees < 2 ^ 128 -> 0 <= p <= 100 -> fee_share fees p = Some (share fees p).
Proof.
  intros Hf Hp. unfold fee_share, share, u256_mul. rewrite checked_ok by nia. done.
Qed.

Lemma share_range fees p : 0 <= fees -> 0 <= p <= 100 -> 0 <= share fees p /\ 100 * share fees p <= fees * p.
Proof.
  intros Hf Hp. unfold share. split; [apply Z.div_pos; nia|]. apply Z.mul_div_le. lia.
Qed.

Lemma run_rewards n producer fees X :
  0 <= n -> addr_ok producer -> 0 <= fees < 2 ^ 128 ->
  apply_block_rewards n producer fees X = (Ok tt, set_cur (rewarded n producer fees (cur X)) X).
Proof.
  intros Hn Hp Hf. unfold apply_block_rewards. fold (block_reward n). pose proof (block_reward_range n Hn) as Hr.
  destruct (share_range fees FEE_PRODUCER_PERCENT ltac:(lia) ltac:(done)) as [S1 S2]. unfold FEE_PRODUCER_PERCENT in S2 at 2.
  rewrite (bind_or_panic _ _ _ _ (fee_share_exact fees FEE_PRODUCER_PERCENT Hf ltac:(done))).
  rewrite (bind_or_panic _ _ _ (block_reward n + share fees FEE_PRODUCER_PERCENT))
    by (unfold u256_add; apply checked_ok; unfold BLOCK_REWARD, ONE_QFC in Hr; lia).
  erewrite bind_ok; [|cbn [State.add_balance model_ops]; unfold m_write, with_addr; rewrite decide_True by done; done].
  rewrite (bind_or_panic _ _ _ _ (fee_share_exact fees FEE_TREASURY_PERCENT Hf ltac:(done))).
  unfold rewarded. destruct (share fees FEE_TREASURY_PERCENT =? 0); [done|].
  cbn [State.add_balance model_ops]. unfold m_write, with_addr. by rewrite decide_True by by_decide.
Qed.


End rewards.

Section block.
Context `{B : Blake3} {BC : CollisionFree B} `{BN : Borsh TrieNode} {BNok : BorshOk TrieNode}
  `{BA : Borsh Account} {BAok : BorshOk Account} `{BL : Borsh LegacyAccount}
  `{BU : Borsh Undelegation} {BUok : BorshOk Undelegation} `{BT : Borsh UnsignedTransaction} `{ED : Ed25519}.
Context {C : Type -> Type -> Type} `{LC : LruCache C} `{LS : !LruSpec C}.
Context {Database : Type} `{RK : RocksDB Database} {RKok : RocksOk Database}.
Abbreviation SDB := (StateDB C Database).
Context (evm_create : Executor -> Address -> Address -> bytes -> Z -> Z -> ST SDB ExecutorError EvmResult).
Context (evm_call : Executor -> Address -> Address -> Address -> bytes -> Z -> Z -> ST SDB ExecutorError EvmResult).
Implicit Types (s : SDB) (X : model).

Lemma body_refined d c parent n ts producer txs :
  refines d (execute_body evm_create evm_call c parent n ts producer txs)
    (execute_body no_create no_call c parent n ts producer txs).
Proof.
  unfold execute_body, apply_block_rewards. refine_prog; apply refines_map_err; [apply mature_refined|apply block_refined].
Qed.



(** ** Executing twice *)

(** Equal roots, equal accounts. *)
Lemma root_binds s1 s2 A1 A2 : state_ok s1 A1 -> state_ok s2 A2 -> root (trie s1) = root (trie s2) -> accs A1 = accs A2.
Proof.
  intros ((m1 & (_ & o1 & R1 & _ & H1) & D1) & _) ((m2 & (_ & o2 & R2 & _ & H2) & D2) & _) Heq.
  assert (o1 = o2) as -> by (eapply ohash_inj; [apply H1|congruence]).
  assert (m1 = m2) as -> by (by eapply holds_fun). apply map_eq. intros a. by rewrite (proj1 (D1 a)), (proj1 (D2 a)).
Qed.

(** A scratch state at a root of a database. *)
Lemma opened_sim (d : Database) r m A cs :
  trie_maps 20 d (with_root r : Trie C) m -> decodes m (accs A) ->
  (forall k, db_get d UNDELEGATIONS k = to_vec <$> unds A !! k) ->
  (forall k u, unds A !! k = Some u -> k = und_key u /\ addr_ok (u_delegator u)) ->
  (forall h, db_get d CODE h = cs !! h) -> sim (state_with_root d r : SDB) (mkModel A (accs A) cs).
Proof.
  intros Hm Hd Hu Hk Hc. split_and!; [|by exists m| |done].
  - split; [by exists m|]. split; [|done]. intros a acc. simpl. by rewrite lru_new_view.
  - intros h c. simpl. by rewrite lru_new_view.
Qed.

Lemma run_empty c parent n ts producer X :
  (forall k u, unds (cur X) !! k = Some u -> k = und_key u /\ addr_ok (u_delegator u)) -> addr_ok producer -> 0 <= n ->
  execute_body no_create no_call c parent n ts producer [] X =
    (Ok ([], 0), set_cur (credit producer (block_reward n) (foldl pay (cur X) (mature_of (ts / 1000) (cur X)))) X).
Proof.
  intros Hk Hp Hn. unfold execute_body. erewrite bind_ok; [|unfold map_err; rewrite (run_mature _ X Hk); done].
  erewrite bind_ok by done. cbv beta iota. erewrite bind_or_panic by done.
  erewrite bind_ok by (apply run_rewards; [done|done|lia]). unfold rewarded, share. simpl. by rewrite Z.add_0_r.
Qed.

Lemma execute_at_model s X c r parent n ts producer txs X' rs gas :
  s = state_with_root (db s) r -> sim s X -> execute_body no_create no_call c parent n ts producer txs X = (Ok (rs, gas), X') ->
  exists s' d', execute_at evm_create evm_call c r parent n ts producer txs (db s) =
      (Ok (mkOutcome (root (trie s')) rs gas), d') /\ state_ok s' (cur X') /\ db_grows (db s) d' /\
    (forall k, db_get d' UNDELEGATIONS k = to_vec <$> unds (cur X') !! k) /\ (forall h, db_get d' CODE h = codes X' !! h).
Proof.
  intros Hr Hs E. pose proof (body_refined (db s) c parent n ts producer txs s X Hs (db_grows_refl _)) as Hb.
  rewrite E in Hb. destruct Hb as (s1 & E1 & (Hok & _ & _ & Hcodes) & Hg).
  destruct (commit_spec s1 _ Hok) as (s2 & E2 & (_ & _ & Hu & _) & _ & _ & Hg2 & Hcf & _). exists s1, (db s2).
  split_and!; [|done|by eapply db_grows_trans|done|by intros h; rewrite Hcf].
  unfold execute_at. rewrite <- Hr. rewrite (bind_ok _ _ _ _ _ E1). unfold bind, map_err. by rewrite E2.
Qed.

Lemma credit_balance A a b x W :
  sane (account_of A a) -> owns (account_of A a) <= W -> 0 <= x -> 20 * (W + x) < 2 ^ 256 ->
  balance (account_of (credit b x A) a) = balance (account_of A a) + if decide (a = b) then x else 0.
Proof.
  intros Hs Ho Hx HW. unfold credit. rewrite account_of_upd. destruct (decide (a = b)) as [->|]; [|lia].
  unfold Acc.add_balance. simpl. apply sat_add_exact. unfold sane, account_ok, owns, in_u in *. lia.
Qed.

Lemma due_pos a us u : (forall v, v ∈ us -> 0 <= u_amount v) -> u ∈ us -> u_delegator u = a -> 0 < u_amount u -> 0 < due a us.
Proof.
  intros Hall Hu Ha Hpos. induction us as [|v us IH]; [by apply not_elem_of_nil in Hu|].
  assert (0 <= due a us) as Hrest.
  { clear -Hall. induction us as [|w us IH]; [done|]. unfold due in *. simpl. pose proof (Hall w ltac:(set_solver)).
    specialize (IH ltac:(set_solver)). case_decide; lia. }
  unfold due in *. simpl. pose proof (Hall v ltac:(set_solver)). apply elem_of_cons in Hu as [<-|Hu].
  - rewrite decide_True by done. lia.
  - specialize (IH ltac:(set_solver) Hu). case_decide; lia.
Qed.

(** The accounts after the two executions differ at the delegator. *)
Lemma paid_differs A producer n now u left :
  solvent A -> (forall k v, unds A !! k = Some v -> k = und_key v /\ addr_ok (u_delegator v)) -> 0 <= n ->
  20 * (wealth A + BLOCK_REWARD) < 2 ^ 256 -> u ∈ mature_of now A -> 0 < u_amount u ->
  accs (credit producer (block_reward n) (foldl pay A (mature_of now A))) <>
  accs (credit producer (block_reward n) (mkA (accs A) left)).
Proof.
  intros Hs Hk Hn Hroom Hu Hpos Heq. pose proof (block_reward_range n Hn) as Hr.
  destruct (mature_records now A) as [Hm Hnd]; [intros k v Hv; by apply Hk|].
  destruct (pay_all_step (mature_of now A) A Hs) as (W & H1 & _ & Hbal); [intros v Hv; by apply Hm|done|].
  assert (Hd : 0 < due (u_delegator u) (mature_of now A)).
  { apply (due_pos _ _ u); [|done|done|done]. intros v [Hv _]%Hm. destruct Hs as (_ & Hund & _). eauto. }
  set (a := u_delegator u) in *. set (A1 := foldl pay A (mature_of now A)) in *.
  pose proof (credit_balance A1 a producer (block_reward n) (wealth A) (sane_of A1 a H1)) as B1.
  pose proof (credit_balance (mkA (accs A) left) a producer (block_reward n) (wealth A) (sane_of A a Hs)) as B2.
  assert (account_of (credit producer (block_reward n) A1) a = account_of (credit producer (block_reward n) (mkA (accs A) left)) a) as E
    by (unfold account_of; by rewrite Heq).
  change (account_of (mkA (accs A) left) a) with (account_of A a) in B2. pose proof (owns_le_wealth A a Hs).
  pose proof (owns_le_wealth A1 a H1). rewrite E in B1. rewrite B2, Hbal in B1 by lia. lia.
Qed.

(** C15 (safety): executing a block is not repeatable, shown for a block
    without transactions. When an undelegation of a positive amount has matured
    at the time of the block, the scratch execution deletes its record from the
    database it shares with the node, so executing the same block a second time
    at the same parent root, as a producer does to store the block it has
    built, gives another state root: the record is gone, and the delegator is
    not paid. The parent state is the committed one, with solvent accounts. *)
Theorem execution_not_repeatable s X c parent n ts producer u :
  sim s X -> com X = accs (cur X) -> solvent (cur X) -> addr_ok producer -> 0 <= n ->
  20 * (wealth (cur X) + BLOCK_REWARD) < 2 ^ 256 -> u ∈ mature_of (ts / 1000) (cur X) -> 0 < u_amount u ->
  let exec := execute_at evm_create evm_call c (state_root s) parent n ts producer [] in
  exists out1 d1 out2 d2, exec (db s) = (Ok out1, d1) /\ exec d1 = (Ok out2, d2) /\
    out_state_root out1 <> out_state_root out2.
Proof.
  intros Hs Hcom Hsol Hp Hn Hroom Hu Hpos exec.
  destruct Hs as ((_ & _ & Hund & Hk) & (m & Hm & Hd) & _ & Hc). rewrite Hcom in Hd.
  set (s0 := state_with_root (db s) (state_root s) : SDB).
  assert (sim s0 (mkModel (cur X) (accs (cur X)) (codes X))) as H0 by (by eapply opened_sim).
  destruct (execute_at_model s0 _ c _ parent n ts producer [] _ _ _ eq_refl H0 (run_empty c parent n ts producer (mkModel (cur X) _ _) Hk Hp Hn))
    as (s1 & d1 & E1 & Hs1 & Hg1 & Hu1 & Hc1).
  destruct (mature_records (ts / 1000) (cur X)) as [Hmr Hnd]; [intros k v Hv; by apply Hk|].
  destruct (pay_all_step (mature_of (ts / 1000) (cur X)) (cur X) Hsol) as (_ & _ & Hun & _); [intros v Hv; by apply Hmr|done|].
  assert (Hleft := paid_records (ts / 1000) (cur X) Hmr ltac:(intros k v Hv; by apply Hk) Hun).
  set (A2 := mkA (accs (cur X)) (unds (foldl pay (cur X) (mature_of (ts / 1000) (cur X))))).
  assert (Hk2 : forall k v, unds A2 !! k = Some v -> k = und_key v /\ addr_ok (u_delegator v)) by (intros k v [Hv _]%Hleft; eauto).
  set (s2 := state_with_root d1 (state_root s) : SDB).
  assert (sim s2 (mkModel A2 (accs (cur X)) (codes X))) as H2.
  { apply (opened_sim d1 (state_root s) m A2); [by eapply (trie_maps_db_grows 20 (db s))|exact Hd|exact Hu1|exact Hk2|exact Hc1]. }
  destruct (execute_at_model s2 _ c _ parent n ts producer [] _ _ _ eq_refl H2 (run_empty c parent n ts producer (mkModel A2 _ _) Hk2 Hp Hn))
    as (s3 & d2 & E2 & Hs3 & _).
  eexists _, d1, _, d2. split; [exact E1|]. split; [exact E2|]. cbn [out_state_root]. intros Heq.
  pose proof (root_binds _ _ _ _ Hs1 Hs3 Heq) as Hacc. cbn [cur set_cur] in Hacc.
  rewrite (none_mature (ts / 1000) (cur X) A2 Hleft) in Hacc by (intros k v Hv; by apply Hk).
  by eapply paid_differs.
Qed.
End block.

Section examples.
#[local] Existing Instances tagged_blake3 tagged_blake3_ok node_borsh node_borsh_ok
  account_borsh account_borsh_ok no_legacy undelegation_borsh undelegation_borsh_ok unsigned_borsh any_signature.

Definition ex_config : ChainConfig := mkChainConfig DEFAULT_CHAIN_ID (mkGenesis DEFAULT_CHAIN_ID 0 [] ∅ []) 0.


Lemma execution_not_repeatable_witness : exists (s : StateDB Lru.t RocksMap) out1 d1 out2 d2,
  let exec := execute_at ex_evm_create ex_evm_call ex_config (state_root s) [] 5 (1000 * UNSTAKE_DELAY_SECS) ex_producer [] in
  exec (db s) = (Ok out1, d1) /\ exec d1 = (Ok out2, d2) /\ out_state_root out1 <> out_state_root out2.
Proof.
  destruct (ex_state [ex_record]) as [s Hs]; [by_decide|]. exists s.
  apply (execution_not_repeatable ex_evm_create ex_evm_call s (ex_model [ex_record]) ex_config [] 5 (1000 * UNSTAKE_DELAY_SECS)
    ex_producer ex_record Hs).
  - reflexivity.
  - by_decide.
  - by_decide.
  - lia.
  - by_decide.
  - by_decide.
  - by_decide.
Defined.
End examples.
