(* ===== verification/ChainFrame.v ===== *)
(** * What executing a block leaves alone

    A write batch is a sequence of writes; every operation of the state
    database, every transaction and so the execution of a block on a scratch
    state leaves the block tables of the shared database as they are. *)

From S2P Require Import Prelude Float64 Externals Codec Nibbles Storage Trie Types Crypto Blocks Receipts.
From S2P Require Import StateDB StateOps Executor Engine Genesis Chain.

(** ** Batches as sequences of writes *)

Section batches.
Context {Database : Type} `{RKok : RocksOk Database}.

(** The value of a key after a list of operations. *)
Definition op_value (op : BatchOp) : option bytes := match op with Put _ _ v => Some v | Delete _ _ => None end.
Definition after_ops (b : WriteBatch) (cf : CF) (k : bytes) (v : option bytes) : option bytes :=
  foldl (fun v op => if decide (op_key op = (cf, k)) then op_value op else v) v b.

Lemma write_batch_get d b cf k : db_get (write_batch d b) cf k = after_ops b cf k (db_get d cf k).
Proof.
  unfold db_get, write_batch, after_ops. induction b as [|op b IH] using rev_ind; [apply rocks_get_write_nil|].
  rewrite foldl_snoc, <- IH. destruct op; [apply rocks_get_write_put|apply rocks_get_write_delete].
Qed.

Lemma after_ops_app b1 b2 cf k v : after_ops (b1 ++ b2) cf k v = after_ops b2 cf k (after_ops b1 cf k v).
Proof. apply foldl_app. Qed.

Lemma after_ops_miss b cf k v : (forall op, op ∈ b -> op_key op <> (cf, k)) -> after_ops b cf k v = v.
Proof.
  unfold after_ops. revert v. induction b as [|op b IH]; intros v Hb; [done|]. simpl.
  rewrite decide_False; [apply IH; set_solver|]. apply Hb. left.
Qed.
Lemma after_ops_other b cf k v : (forall op, op ∈ b -> fst (op_key op) <> cf) -> after_ops b cf k v = v.
Proof. intros Hb. apply after_ops_miss. intros op Hop Heq. apply (Hb op Hop). by rewrite Heq. Qed.
End batches.

(** ** What execution leaves alone *)

Definition block_cf (cf : CF) : Prop := cf ∈ [BLOCK_HEADERS; BLOCK_BODIES; BLOCK_HASH_INDEX; BLOCKS_BY_HASH].
(** The rows of the metadata table a restart reads. *)
Definition META_KEYS : list bytes := [LATEST_BLOCK_NUMBER; LATEST_STATE_ROOT; GENESIS_HASH; CHAIN_ID].

Section frame.
Context {Database : Type} `{RK : RocksDB Database}.

Definition same_blocks (d d' : Database) : Prop := forall cf k, block_cf cf -> db_get d' cf k = db_get d cf k.

#[export] Instance same_blocks_refl : Reflexive same_blocks.
Proof. by intros d cf k _. Qed.
#[export] Instance same_blocks_trans : Transitive same_blocks.
Proof. intros d1 d2 d3 H1 H2 cf k Hcf. by rewrite H2, H1. Qed.

Definition same_chain (d d' : Database) : Prop :=
  same_blocks d d' /\ forall k, k ∈ META_KEYS -> db_get d' METADATA k = db_get d METADATA k.

#[export] Instance same_chain_refl : Reflexive same_chain.
Proof. by intros d. Qed.
#[export] Instance same_chain_trans : Transitive same_chain.
Proof. intros d1 d2 d3 [H1 M1] [H2 M2]. split; [by etrans|]. intros k Hk. by rewrite M2, M1. Qed.

Context {C : Type -> Type -> Type} {RKok : RocksOk Database}.

(** A write outside those rows. *)
Definition foreign (cf : CF) (k : bytes) : Prop := ~ block_cf cf /\ (cf = METADATA -> k ∉ META_KEYS).

Lemma foreign_cf cf k : ~ cf ∈ [BLOCK_HEADERS; BLOCK_BODIES; BLOCK_HASH_INDEX; BLOCKS_BY_HASH; METADATA] -> foreign cf k.
Proof. intros Hcf. split; [unfold block_cf; set_solver|]. intros ->. set_solver. Qed.

Lemma same_put d cf k v : foreign cf k -> same_chain d (db_put d cf k v).
Proof. intros [Hcf Hm]. split; [intros cf' k' H'|intros k' H']; rewrite db_get_put, decide_False; naive_solver. Qed.
Lemma same_delete d cf k : foreign cf k -> same_chain d (db_delete d cf k).
Proof. intros [Hcf Hm]. split; [intros cf' k' H'|intros k' H']; rewrite db_get_delete, decide_False; naive_solver. Qed.
Lemma same_write d b : (forall op, op ∈ b -> foreign (fst (op_key op)) (snd (op_key op))) -> same_chain d (write_batch d b).
Proof.
  intros Hb. split; [intros cf k Hcf|intros k Hk]; rewrite write_batch_get, after_ops_miss; try done;
    intros op Hop Heq; specialize (Hb op Hop); rewrite Heq in Hb; destruct Hb; naive_solver.
Qed.

(** Programs on the state that leave the block tables alone. *)
Definition keeps {E A} (m : ST (StateDB C Database) E A) : Prop := forall s, same_chain (db s) (db (snd (m s))).

Lemma keeps_ret {E A} (a : A) : keeps (ret a : ST _ E A).
Proof. by intros s. Qed.
Lemma keeps_fail {E A} (e : E) : keeps (fail e : ST _ E A).
Proof. by intros s. Qed.
Lemma keeps_panic {E A} : keeps (panic : ST _ E A).
Proof. by intros s. Qed.
Lemma keeps_gets {E A} (f : _ -> A) : keeps (gets f : ST _ E A).
Proof. by intros s. Qed.
Lemma keeps_or_panic {E A} (o : option A) : keeps (or_panic o : ST _ E A).
Proof. by destruct o. Qed.
Lemma keeps_ok_or {E A} (o : option A) (e : E) : keeps (ok_or o e).
Proof. by destruct o. Qed.
Lemma keeps_modify {E} f : (forall s, same_chain (db s) (db (f s))) -> keeps (modify f : ST _ E unit).
Proof. intros H s. apply H. Qed.
Lemma keeps_bind {E A A'} (m : ST _ E A) (k : A -> ST _ E A') : keeps m -> (forall a, keeps (k a)) -> keeps (bind m k).
Proof.
  intros Hm Hk s. specialize (Hm s). unfold bind. destruct (m s) as [[a| | |] s'] eqn:E1; simpl in Hm; try done.
  etrans; [exact Hm|apply Hk].
Qed.
Lemma keeps_map_err {E E' A} (f : E -> E') (m : ST _ E A) : keeps m -> keeps (map_err f m).
Proof. intros Hm s. specialize (Hm s). unfold map_err. by destruct (m s) as [[] s']. Qed.
Lemma keeps_attempt {E E' A} (m : ST _ E A) : keeps m -> keeps (attempt m : ST _ E' _).
Proof. intros Hm s. specialize (Hm s). unfold attempt. by destruct (m s) as [[] s']. Qed.
End frame.

Create HintDb keeps.
#[export] Hint Resolve keeps_ret keeps_fail keeps_panic keeps_gets keeps_or_panic keeps_ok_or keeps_map_err
  keeps_attempt : keeps.

(** Breaks a program into its parts. *)
Ltac keeps_prog :=
  repeat first
    [ solve [eauto with keeps]
    | apply keeps_map_err
    | apply keeps_attempt
    | apply keeps_bind; [|intros ?]
    | case_decide
    | match goal with
      | |- keeps (match ?x with _ => _ end) => destruct x
      | |- keeps (if ?x then _ else _) => destruct x
      | |- keeps (let '_ := ?x in _) => destruct x
      end ].

Section state_keeps.
Context `{B : Blake3} `{BN : Borsh TrieNode} `{BA : Borsh Account} `{BL : Borsh LegacyAccount} `{BU : Borsh Undelegation}.
Context {C : Type -> Type -> Type} `{LC : LruCache C}.
Context {Database : Type} `{RK : RocksDB Database} {RKok : RocksOk Database}.
Abbreviation SDB := (StateDB C Database).

Lemma keeps_on_trie {A} (m : Database -> ST (Trie C) TrieError A) : keeps (on_trie m : ST SDB _ _).
Proof. intros s. unfold on_trie. by destruct (m _ _). Qed.
#[local] Hint Resolve keeps_on_trie : keeps.

Lemma keeps_modify_same {E} (f : SDB -> SDB) : (forall s, db (f s) = db s) -> keeps (modify f : ST _ E unit).
Proof. intros H. apply keeps_modify. intros s. by rewrite H. Qed.

Lemma keeps_get_account a : keeps (get_account a : ST SDB _ _).
Proof.
  intros s. unfold get_account. destruct (lru_get a (account_cache s)) as [[acc|] c]; [done|].
  assert (keeps (bind (on_trie (fun d => get d a)) (fun o =>
      match o with
      | Some data =>
        match account_from_bytes data with
        | None => fail StateSerialization
        | Some account =>
          modify (fun s => set_account_cache (lru_put a account (account_cache s)) s);; ret account
        end
      | None => ret Acc.new_eoa
      end) : ST SDB _ _)) as H by (keeps_prog; by apply keeps_modify_same).
  apply (H (set_account_cache c s)).
Qed.
#[local] Hint Resolve keeps_get_account : keeps.

Lemma keeps_set_account a acc : keeps (set_account a acc : ST SDB _ _).
Proof. unfold set_account. keeps_prog. by apply keeps_modify_same. Qed.
#[local] Hint Resolve keeps_set_account : keeps.

Lemma keeps_update_account a f : keeps (update_account a f : ST SDB _ _).
Proof. unfold update_account. keeps_prog. Qed.
#[local] Hint Resolve keeps_update_account : keeps.

Lemma keeps_read {A} a (g : Account -> A) : keeps (let! acc := get_account a in ret (g acc) : ST SDB _ _).
Proof. keeps_prog. Qed.

Lemma keeps_sub_balance a x : keeps (sub_balance a x : ST SDB _ _).
Proof. unfold sub_balance. keeps_prog. Qed.
#[local] Hint Resolve keeps_sub_balance : keeps.

Lemma keeps_transfer a b x : keeps (transfer a b x : ST SDB _ _).
Proof. unfold transfer, add_balance. keeps_prog. Qed.

Lemma keeps_increment_nonce a : keeps (increment_nonce a : ST SDB _ _).
Proof. unfold increment_nonce. keeps_prog. Qed.

Lemma keeps_get_code a : keeps (get_code a : ST SDB _ _).
Proof.
  unfold get_code. keeps_prog. intros s. destruct (lru_get _ _) as [[]]; [done|].
  simpl. by destruct (db_get _ _ _).
Qed.

Lemma keeps_sub_delegation a x : keeps (sub_delegation_amount a x : ST SDB _ _).
Proof. unfold sub_delegation_amount. keeps_prog. Qed.

Lemma keeps_sum_accounts f l z : keeps (sum_accounts f l z : ST SDB _ _).
Proof. revert z. induction l as [|bs l IH]; intros z; simpl; keeps_prog. Qed.
#[local] Hint Resolve keeps_sum_accounts : keeps.

Lemma keeps_total_stake : keeps (get_total_stake : ST SDB _ _).
Proof. unfold get_total_stake, all_accounts. keeps_prog. Qed.
Lemma keeps_total_delegated v : keeps (get_total_delegated_to v : ST SDB _ _).
Proof. unfold get_total_delegated_to, all_accounts. keeps_prog. Qed.

Lemma keeps_store_undelegation u : keeps (store_undelegation u : ST SDB _ _).
Proof. apply keeps_modify. intros s. apply same_put, foreign_cf. set_solver. Qed.
Lemma keeps_delete_undelegation a v t : keeps (delete_undelegation a v t : ST SDB _ _).
Proof. apply keeps_modify. intros s. apply same_delete, foreign_cf. set_solver. Qed.
Lemma keeps_mature now : keeps (get_mature_undelegations now : ST SDB _ _).
Proof. apply keeps_gets. Qed.
Lemma keeps_revert snap : keeps (revert snap : ST SDB _ _).
Proof. by apply keeps_modify_same. Qed.

Lemma keeps_commit : keeps (state_commit : ST SDB _ _).
Proof.
  intros s. unfold state_commit, commit. simpl. apply same_write. intros op Hop.
  assert (Hputs : forall (l : list (Hash * TrieNode)) b, op ∈ foldl (fun b e => batch_put b STATE (fst e) (to_vec (snd e))) b l ->
    op ∈ b \/ fst (op_key op) = STATE).
  { intros l. induction l as [|e l IH]; intros b Hin; [by left|]. destruct (IH _ Hin) as [Hb|]; [|by right].
    unfold batch_put in Hb. apply elem_of_app in Hb as [|Hb]; [by left|]. right. by apply list_elem_of_singleton in Hb as ->. }
  destruct (Hputs _ _ Hop) as [Hn| ->]; [by apply not_elem_of_nil in Hn|]. apply foreign_cf. set_solver.
Qed.
End state_keeps.

#[export] Hint Resolve keeps_read keeps_update_account keeps_sub_balance keeps_transfer keeps_increment_nonce keeps_get_code
  keeps_sub_delegation keeps_total_stake keeps_total_delegated keeps_store_undelegation keeps_delete_undelegation
  keeps_mature keeps_revert keeps_commit : keeps.

(** The operations of the interface. *)
#[export] Hint Extern 1 (keeps (State.get_balance _)) => exact (keeps_read _ _) : keeps.
#[export] Hint Extern 1 (keeps (State.get_nonce _)) => exact (keeps_read _ _) : keeps.
#[export] Hint Extern 1 (keeps (State.get_stake _)) => exact (keeps_read _ _) : keeps.
#[export] Hint Extern 1 (keeps (State.get_delegation _)) => exact (keeps_read _ _) : keeps.
#[export] Hint Extern 1 (keeps (State.get_delegation_amount _ _)) => exact (keeps_read _ _) : keeps.
#[export] Hint Extern 1 (keeps (State.add_balance _ _)) => exact (keeps_update_account _ _) : keeps.
#[export] Hint Extern 1 (keeps (State.set_nonce _ _)) => exact (keeps_update_account _ _) : keeps.
#[export] Hint Extern 1 (keeps (State.set_stake _ _)) => exact (keeps_update_account _ _) : keeps.
#[export] Hint Extern 1 (keeps (State.set_contribution_score _ _)) => exact (keeps_update_account _ _) : keeps.
#[export] Hint Extern 1 (keeps (State.set_delegation _ _ _)) => exact (keeps_update_account _ _) : keeps.
#[export] Hint Extern 1 (keeps (State.add_delegation_amount _ _)) => exact (keeps_update_account _ _) : keeps.
#[export] Hint Extern 1 (keeps (State.sub_balance _ _)) => apply keeps_sub_balance : keeps.
#[export] Hint Extern 1 (keeps (State.transfer _ _ _)) => apply keeps_transfer : keeps.
#[export] Hint Extern 1 (keeps (State.increment_nonce _)) => apply keeps_increment_nonce : keeps.
#[export] Hint Extern 1 (keeps (State.get_code _)) => apply keeps_get_code : keeps.
#[export] Hint Extern 1 (keeps (State.sub_delegation_amount _ _)) => apply keeps_sub_delegation : keeps.
#[export] Hint Extern 1 (keeps (State.get_total_stake)) => apply keeps_total_stake : keeps.
#[export] Hint Extern 1 (keeps (State.get_total_delegated_to _)) => apply keeps_total_delegated : keeps.
#[export] Hint Extern 1 (keeps (State.store_undelegation _)) => apply keeps_store_undelegation : keeps.
#[export] Hint Extern 1 (keeps (State.delete_undelegation _ _ _)) => apply keeps_delete_undelegation : keeps.
#[export] Hint Extern 1 (keeps (State.get_mature_undelegations _)) => apply keeps_mature : keeps.
#[export] Hint Extern 1 (keeps (State.revert _)) => apply keeps_revert : keeps.

(** The EVM reads and writes accounts, code and storage only. *)
Class EvmKeeps {C Database} `{RocksDB Database}
    (evm_create : Executor -> Address -> Address -> bytes -> Z -> Z -> ST (StateDB C Database) ExecutorError EvmResult)
    (evm_call : Executor -> Address -> Address -> Address -> bytes -> Z -> Z -> ST (StateDB C Database) ExecutorError EvmResult) :
    Prop := {
  create_keeps e a b c x y : keeps (evm_create e a b c x y);
  call_keeps e a b c d x y : keeps (evm_call e a b c d x y);
}.

Section execution_keeps.
Context `{B : Blake3} `{ED : Ed25519}.
Context `{BN : Borsh TrieNode} `{BA : Borsh Account} `{BL : Borsh LegacyAccount} `{BU : Borsh Undelegation}.
Context `{BT : Borsh UnsignedTransaction}.
Context {C : Type -> Type -> Type} `{LC : LruCache C}.
Context {Database : Type} `{RK : RocksDB Database} {RKok : RocksOk Database}.
Abbreviation SDB := (StateDB C Database).
Context (evm_create : Executor -> Address -> Address -> bytes -> Z -> Z -> ST SDB ExecutorError EvmResult).
Context (evm_call : Executor -> Address -> Address -> Address -> bytes -> Z -> Z -> ST SDB ExecutorError EvmResult).
Context {EK : EvmKeeps evm_create evm_call}.
#[local] Hint Resolve create_keeps call_keeps : keeps.

Lemma keeps_cap v x : keeps (ensure_validator_stake_cap (St:=SDB) v x).
Proof. unfold ensure_validator_stake_cap, st. keeps_prog. Qed.
#[local] Hint Resolve keeps_cap : keeps.

Lemma keeps_validate e tx : keeps (validate_transaction (St:=SDB) e tx).
Proof. unfold validate_transaction, recover_sender, validate_type, st. keeps_prog. Qed.

Lemma keeps_dispatch e tx sender producer : keeps (dispatch evm_create evm_call e tx sender producer).
Proof.
  unfold dispatch, execute_transfer, execute_contract_create, execute_contract_call, execute_stake,
    execute_unstake, execute_validator_register, execute_validator_exit, execute_delegate, execute_undelegate,
    execute_claim_delegation_rewards, amount_or, st. keeps_prog.
Qed.
#[local] Hint Resolve keeps_validate keeps_dispatch : keeps.

Lemma keeps_execute e stx producer : keeps (execute evm_create evm_call e stx producer).
Proof. unfold execute, st. keeps_prog. Qed.
#[local] Hint Resolve keeps_execute : keeps.

Lemma keeps_process now : keeps (process_mature_undelegations (St:=SDB) now).
Proof.
  assert (forall us p, keeps (process_all (St:=SDB) us p)) as Hall.
  { induction us as [|u us IH]; intros p; simpl; unfold process_one, st; keeps_prog. }
  unfold process_mature_undelegations, st. keeps_prog.
Qed.

Lemma keeps_transactions e txs producer : keeps (execute_transactions evm_create evm_call e txs producer).
Proof.
  unfold execute_transactions. generalize 0%nat as i, (@nil Receipt) as rs, 0 as g.
  induction txs as [|tx txs IH]; intros i rs g; simpl; unfold execute_one; keeps_prog.
Qed.
#[local] Hint Resolve keeps_process keeps_transactions : keeps.

Lemma keeps_body c parent n ts producer txs : keeps (execute_body evm_create evm_call c parent n ts producer txs).
Proof. unfold execute_body, apply_block_rewards. keeps_prog. Qed.
#[local] Hint Resolve keeps_body : keeps.

(** Executing a block changes no block table. *)
Lemma execute_block_same c b root d : same_chain d (snd (execute_block evm_create evm_call c b root d)).
Proof.
  unfold execute_block, execute_at. set (m := bind _ _). assert (keeps m) as Hm by (unfold m; keeps_prog).
  specialize (Hm (state_with_root d root)). destruct (m (state_with_root d root)) as [r s]. exact Hm.
Qed.
End execution_keeps.
