(* ===== verification/ChainTheory.v ===== *)
(** * The tables of the chain and their invariant

    What a committed block does to the lookups, and the invariant of the chain:
    the canonical index is a linked list of stored blocks from genesis to the
    head that contains the finalised block, and every stored block has a stored
    parent with the number before. The invariant holds after every operation,
    whatever its outcome. *)

From S2P Require Import Prelude Float64 Externals Codec Nibbles Storage Trie Types Crypto Blocks Receipts.
From S2P Require Import StateDB StateOps Executor Engine EngineTheory Genesis Chain ChainFrame.

(** ** The tables *)

Section tables.
Context `{B : Blake3} {BC : CollisionFree B}.
Context `{BH : Borsh BlockHeader} {BHok : BorshOk BlockHeader} `{BB : Borsh BlockBody} {BBok : BorshOk BlockBody}
  `{BK : Borsh Block} {BKok : BorshOk Block} `{BX : Borsh Transaction} `{BT : Borsh UnsignedTransaction} `{BR : Borsh Receipt}.
Context {Database : Type} `{RK : RocksDB Database} {RKok : RocksOk Database}.

Lemma encode_block_number_inj n m : in_u 64 n -> in_u 64 m -> encode_block_number n = encode_block_number m -> n = m.
Proof.
  intros Hn Hm Heq. unfold encode_block_number in Heq. apply (f_equal from_be) in Heq.
  rewrite !from_to_be in Heq. change (256 ^ Z.of_nat 8) with (2 ^ 64) in Heq.
  unfold in_u in *. by rewrite !Z.mod_small in Heq by lia.
Qed.

Lemma block_hash_header b b' : block_hash b = block_hash b' -> header b = header b'.
Proof.
  unfold block_hash, blake3_hash, header_bytes. intros Heq%blake3_inj. by apply to_vec_inj.
Qed.

Lemma get_block_same d d' n : same_blocks d d' -> get_block_by_number d' n = get_block_by_number d n.
Proof. intros Hs. unfold get_block_by_number. rewrite !Hs by (unfold block_cf; set_solver). done. Qed.

(** A row of the hash-keyed store. *)
Definition stored (d : Database) (h : Hash) (b : Block) : Prop := db_get d BLOCKS_BY_HASH h = Some (to_vec b).

Lemma stored_inj d h b b' : stored d h b -> stored d h b' -> b = b'.
Proof.
  unfold stored. intros H1 H2. rewrite H1 in H2. injection H2 as H2. by apply to_vec_inj.
Qed.

(** The canonical blocks [canon], by number; rows of an older chain may be left
    above them, up to [H]. *)
Record tables_ok (d : Database) (canon : list Block) (H : nat) : Prop := {
  tk_stored h bs : db_get d BLOCKS_BY_HASH h = Some bs -> exists b, bs = to_vec b /\ block_hash b = h /\
    in_u 64 (number b) /\
    (canon !! 0%nat = Some b \/ exists p, stored d (parent_hash_of b) p /\ number b = number p + 1);
  tk_canon n b : canon !! n = Some b -> number b = Z.of_nat n /\ stored d (block_hash b) b;
  tk_link n b b' : canon !! n = Some b -> canon !! S n = Some b' -> parent_hash_of b' = block_hash b;
  tk_rows n b : canon !! n = Some b -> get_block_by_number d (Z.of_nat n) = Ok (Some b);
  tk_none n : (length canon <= n)%nat -> (H <= n)%nat -> in_u 64 (Z.of_nat n) -> get_block_by_number d (Z.of_nat n) = Ok None;
  tk_index h key : db_get d BLOCK_HASH_INDEX h = Some key ->
    exists n b, canon !! n = Some b /\ block_hash b = h /\ key = encode_block_number (Z.of_nat n);
}.

Lemma tables_same d d' canon H : same_blocks d d' -> tables_ok d canon H -> tables_ok d' canon H.
Proof.
  intros Hs [H1 H2 H3 H4 H5 H6].
  assert (Hst : forall h b, stored d' h b <-> stored d h b).
  { intros h b. unfold stored. rewrite Hs; [done|]. unfold block_cf. set_solver. }
  split.
  - intros h bs Hb. rewrite Hs in Hb by (unfold block_cf; set_solver).
    destruct (H1 h bs Hb) as (b & ? & ? & ? & Hp). exists b. split_and!; try done.
    destruct Hp as [|(p & Hp & ?)]; [by left|]. right. exists p. by rewrite Hst.
  - intros n b Hb. rewrite Hst. by apply H2.
  - done.
  - intros n b Hb. rewrite (get_block_same _ _ _ Hs). by apply H4.
  - intros n ???. rewrite (get_block_same _ _ _ Hs). by apply H5.
  - intros h key Hk. rewrite Hs in Hk by (unfold block_cf; set_solver). by apply H6.
Qed.

Lemma canon_u64 d canon H n b : tables_ok d canon H -> canon !! n = Some b -> in_u 64 (Z.of_nat n).
Proof.
  intros Hok Hb. destruct (tk_canon _ _ _ Hok _ _ Hb) as [<- Hs].
  destruct (tk_stored _ _ _ Hok _ _ Hs) as (b' & Heq & _ & Hu & _).
  by apply to_vec_inj in Heq as ->.
Qed.

(** Lookups by hash find exactly the stored blocks. *)
Lemma get_block_by_hash_spec d canon H h :
  tables_ok d canon H ->
  (exists b, get_block_by_hash d h = Ok (Some b) /\ stored d h b /\ block_hash b = h) \/
  (get_block_by_hash d h = Ok None /\ db_get d BLOCKS_BY_HASH h = None).
Proof.
  intros Hok. unfold get_block_by_hash. destruct (db_get d BLOCKS_BY_HASH h) as [bs|] eqn:Eb.
  - destruct (tk_stored _ _ _ Hok _ _ Eb) as (b & -> & Hh & _). left. exists b. by rewrite from_slice_to_vec.
  - right. split; [|done]. destruct (db_get d BLOCK_HASH_INDEX h) as [key|] eqn:Ei; [|done].
    destruct (tk_index _ _ _ Hok _ _ Ei) as (n & b & Hn & Hh & _).
    destruct (tk_canon _ _ _ Hok _ _ Hn) as [_ Hs]. unfold stored in Hs. rewrite Hh in Hs. congruence.
Qed.

Lemma get_stored d canon H h b : tables_ok d canon H -> stored d h b -> get_block_by_hash d h = Ok (Some b).
Proof. intros _ Hs. unfold get_block_by_hash. by rewrite Hs, from_slice_to_vec. Qed.

Lemma is_canonical_spec d canon h n :
  tables_ok d canon (length canon) -> in_u 64 n ->
  is_canonical d h n =
    Ok (match canon !! Z.to_nat n with Some b => bool_decide (block_hash b = h) | None => false end).
Proof.
  intros Hok Hn. unfold is_canonical. unfold in_u in Hn. rewrite <- (Z2Nat.id n) at 1 by lia.
  destruct (canon !! Z.to_nat n) as [b|] eqn:Hb; [by rewrite (tk_rows _ _ _ Hok _ _ Hb)|].
  apply lookup_ge_None in Hb. by rewrite (tk_none _ _ _ Hok (Z.to_nat n)) by (done || unfold in_u; lia).
Qed.

(** ** Committing a block *)

(** The operations on one block table. *)
Definition block_rows (b : Block) : WriteBatch :=
  [Put BLOCK_HEADERS (encode_block_number (number b)) (to_vec (header b));
   Put BLOCK_BODIES (encode_block_number (number b)) (to_vec (body_from_block b));
   Put BLOCK_HASH_INDEX (block_hash b) (encode_block_number (number b));
   Put BLOCKS_BY_HASH (block_hash b) (to_vec b)].

Lemma block_batch_rows batch b rs root cf k v :
  block_cf cf -> after_ops (block_batch batch b rs root) cf k v = after_ops (block_rows b) cf k (after_ops batch cf k v).
Proof.
  intros Hcf. unfold block_batch, append_receipts_and_head_to_batch, append_block_to_batch.
  rewrite !after_ops_app. rewrite (after_ops_other [_; _]), (after_ops_other (map _ _)), (after_ops_other (concat _)); [done|..].
  - intros op Hin%list_elem_of_In Heq. apply in_concat in Hin as (l & Hl & Hop).
    apply list_elem_of_In in Hl, Hop. apply elem_of_lookup_imap in Hl as (i & tx & -> & _).
    unfold block_cf in Hcf. unfold tx_ops in Hop. set_solver.
  - intros op (r & -> & _)%list_elem_of_fmap Heq. unfold block_cf in Hcf. simpl in Heq. set_solver.
  - intros op Hop Heq. unfold block_cf in Hcf. set_solver.
Qed.

(** A block's row of the hash-keyed store is free, or holds a block with its header. *)
Definition row_free (d : Database) (b : Block) : Prop :=
  forall bs, db_get d BLOCKS_BY_HASH (block_hash b) = Some bs -> exists b', bs = to_vec b' /\ header b' = header b.

Lemma get_block_rows d b n :
  in_u 64 n -> in_u 64 (number b) ->
  get_block_by_number (write_batch d (block_rows b)) n = if decide (n = number b) then Ok (Some b) else get_block_by_number d n.
Proof.
  intros Hn Hb. unfold get_block_by_number. rewrite !write_batch_get. unfold block_rows, after_ops. simpl.
  destruct (decide (n = number b)) as [->|Hne].
  - repeat (case_decide; try congruence). rewrite !from_slice_to_vec. by destruct b.
  - assert (encode_block_number (number b) <> encode_block_number n) as He
      by (intros Heq; apply Hne; symmetry; by apply encode_block_number_inj).
    repeat (case_decide; try congruence).
Qed.

Lemma stored_rows d b h b' :
  stored (write_batch d (block_rows b)) h b' <-> if decide (h = block_hash b) then b' = b else stored d h b'.
Proof.
  unfold stored. rewrite write_batch_get. unfold block_rows, after_ops. simpl.
  repeat (case_decide; try congruence); try done. split; [intros [= Heq]; symmetry; by apply to_vec_inj|by intros ->].
Qed.

Lemma header_fields b b' : header b = header b' -> number b = number b' /\ parent_hash_of b = parent_hash_of b' /\ block_hash b = block_hash b'.
Proof. unfold number, parent_hash_of, block_hash, header_bytes. by intros ->. Qed.

(** A committed child of the last canonical block extends the canonical chain. *)
Lemma tables_commit d canon H b p :
  tables_ok d canon H -> last canon = Some p -> parent_hash_of b = block_hash p ->
  number b = Z.of_nat (length canon) -> in_u 64 (number b) -> row_free d b ->
  tables_ok (write_batch d (block_rows b)) (canon ++ [b]) H.
Proof.
  intros Hok Hl Hpar Hnum Hu Hfree. destruct Hok as [H1 H2 H3 H4 H5 H6] eqn:Eok.
  assert (Hlast : canon !! pred (length canon) = Some p) by (by rewrite <- last_lookup).
  assert (Hlen : (0 < length canon)%nat) by (destruct canon; [done|simpl; lia]).
  assert (Hold : forall n b', canon !! n = Some b' -> block_hash b' <> block_hash b).
  { intros n b' Hn Heq. destruct (H2 n b' Hn) as [Hn' Hs]. unfold stored in Hs. rewrite Heq in Hs.
    destruct (Hfree _ Hs) as (b0 & Hb0%to_vec_inj & Hh). subst b0.
    destruct (header_fields _ _ Hh) as (Hnn & _). apply lookup_lt_Some in Hn. lia. }
  assert (Hst : forall h q, stored d h q -> exists q', stored (write_batch d (block_rows b)) h q' /\ number q' = number q).
  { intros h q Hq. destruct (decide (h = block_hash b)) as [->|Hne].
    - exists b. rewrite stored_rows, decide_True by done. split; [done|].
      destruct (Hfree _ Hq) as (b0 & Hb0%to_vec_inj & Hh). subst b0. by destruct (header_fields _ _ Hh).
    - exists q. by rewrite stored_rows, decide_False. }
  assert (Hmono : forall n b', canon !! n = Some b' -> (canon ++ [b]) !! n = Some b').
  { intros n b' Hn. by apply lookup_app_l_Some. }
  split.
  - intros h bs Hb. rewrite write_batch_get in Hb. unfold block_rows, after_ops in Hb. simpl in Hb.
    repeat (case_decide; try congruence); simplify_eq.
    + exists b. split_and!; try done. right. destruct (H2 _ _ Hlast) as [Hpn Hps].
      destruct (Hst _ _ Hps) as (p' & Hp' & Hn'). exists p'. rewrite Hpar. split; [done|]. lia.
    + destruct (H1 h bs Hb) as (b' & ? & ? & ? & Hp). exists b'. split_and!; try done.
      destruct Hp as [Hp|(q & Hq & Hn)]; [left; by apply Hmono|]. right.
      destruct (Hst _ _ Hq) as (q' & Hq' & Hn'). exists q'. split; [done|]. lia.
  - intros n b' [Hn|[Hn Hb]]%lookup_app_Some.
    + destruct (H2 n b' Hn) as [? Hs]. split; [done|]. rewrite stored_rows, decide_False; [done|by eapply Hold].
    + apply list_lookup_singleton_Some in Hb as [Hz <-]. split; [lia|]. by rewrite stored_rows, decide_True.
  - intros n b1 b2 Hb1 [Hb2|[Hn Hb2]]%lookup_app_Some.
    + apply lookup_app_Some in Hb1 as [Hb1|[Hn _]]; [by eapply H3|]. apply lookup_lt_Some in Hb2. lia.
    + apply list_lookup_singleton_Some in Hb2 as [Hz <-]. rewrite lookup_app_l in Hb1 by lia.
      replace n with (pred (length canon)) in Hb1 by lia. congruence.
  - intros n b' Hb'. pose proof (lookup_lt_Some _ _ _ Hb') as Hlt. rewrite length_app in Hlt. simpl in Hlt.
    rewrite get_block_rows by (done || unfold in_u in *; lia).
    apply lookup_app_Some in Hb' as [Hn|[Hn Hb]].
    + apply lookup_lt_Some in Hn as Hlt'. rewrite decide_False by lia. by apply H4.
    + apply list_lookup_singleton_Some in Hb as [Hz <-]. by rewrite decide_True by lia.
  - intros n Hn HH Hun. rewrite length_app in Hn. simpl in Hn. rewrite get_block_rows by done.
    rewrite decide_False by lia. apply H5; [lia|done|done].
  - intros h key Hk. rewrite write_batch_get in Hk. unfold block_rows, after_ops in Hk. simpl in Hk.
    repeat (case_decide; try congruence); simplify_eq.
    + exists (length canon), b. rewrite lookup_app_r, Nat.sub_diag by lia. split_and!; try done. by rewrite Hnum.
    + destruct (H6 h key Hk) as (n & b' & Hn & ?). exists n, b'. split; [by apply Hmono|done].
Qed.

(** A side block goes into the hash-keyed store only. *)
Lemma tables_put d canon H b p :
  tables_ok d canon H -> stored d (parent_hash_of b) p -> number b = number p + 1 -> in_u 64 (number b) ->
  db_get d BLOCKS_BY_HASH (block_hash b) = None ->
  tables_ok (db_put d BLOCKS_BY_HASH (block_hash b) (to_vec b)) canon H.
Proof.
  intros [H1 H2 H3 H4 H5 H6] Hp Hnum Hu Hnone.
  set (d' := db_put _ _ _ _). assert (Hst : forall h q, stored d h q -> stored d' h q).
  { intros h q Hq. unfold stored, d'. rewrite db_get_put. case_decide; [|done]. simplify_eq. unfold stored in Hq. congruence. }
  assert (Hrow : forall n, get_block_by_number d' n = get_block_by_number d n).
  { intros n. unfold get_block_by_number, d'. by rewrite !db_get_put, !decide_False. }
  split.
  - intros h bs Hb. unfold d' in Hb. rewrite db_get_put in Hb. case_decide; simplify_eq.
    + exists b. split_and!; try done. right. exists p. split; [by apply Hst|done].
    + destruct (H1 h bs Hb) as (b' & ? & ? & ? & Hq). exists b'. split_and!; try done.
      destruct Hq as [|(q & Hq & ?)]; [by left|]. right. exists q. split; [by apply Hst|done].
  - intros n b' Hn. destruct (H2 n b' Hn). split; [done|by apply Hst].
  - done.
  - intros n b' Hn. rewrite Hrow. by apply H4.
  - intros n ???. rewrite Hrow. by apply H5.
  - intros h key Hk. unfold d' in Hk. rewrite db_get_put, decide_False in Hk by congruence. by apply H6.
Qed.

(** ** The branch of a reorganisation *)

(** Blocks linked one after another on top of [p], all of them stored. *)
Fixpoint linked (d : Database) (p : Block) (l : list Block) : Prop :=
  match l with
  | [] => True
  | b :: l' => parent_hash_of b = block_hash p /\ number b = number p + 1 /\ in_u 64 (number b) /\
      stored d (block_hash b) b /\ linked d b l'
  end.

Lemma default_last {A} (p c : A) l : default p (last (c :: l)) = default c (last l).
Proof. by rewrite last_cons; destruct (last l). Qed.

Lemma linked_snoc d p l b :
  linked d p l -> parent_hash_of b = block_hash (default p (last l)) -> number b = number (default p (last l)) + 1 ->
  in_u 64 (number b) -> stored d (block_hash b) b -> linked d p (l ++ [b]).
Proof.
  revert p. induction l as [|c l IH]; intros p; [done|]. rewrite default_last.
  intros (? & ? & ? & ? & Hl) Hb Hn Hu Hs. simpl. split_and!; try done. by apply IH.
Qed.

Definition canonical (canon : list Block) (b : Block) : Prop := exists n, canon !! n = Some b.

(** The walk finds the canonical ancestor and the linked blocks above it. *)
Lemma collect_branch_spec d canon fuel b acc :
  tables_ok d canon (length canon) -> stored d (block_hash b) b -> (Z.to_nat (number b) + 1 < fuel)%nat ->
  exists br a, collect_branch fuel d (block_hash b) b acc = Ok (acc ++ br, a) /\ canonical canon a /\
    Forall (fun hb => fst hb = block_hash (snd hb) /\ ~ canonical canon (snd hb)) br /\
    linked d a (rev (map snd br)) /\ default a (last (rev (map snd br))) = b.
Proof.
  intros Hok. revert b acc. induction fuel as [|fuel IH]; intros b acc Hs Hf; [lia|]. cbn [collect_branch].
  destruct (tk_stored _ _ _ Hok _ _ Hs) as (b' & Hb'%to_vec_inj & _ & Hu & Hp). subst b'.
  rewrite (is_canonical_spec d canon) by done.
  assert (Hcan : match canon !! Z.to_nat (number b) with Some c => bool_decide (block_hash c = block_hash b) | None => false end = true <->
    canonical canon b).
  { split.
    - destruct (canon !! Z.to_nat (number b)) as [c|] eqn:Hc; [|done]. intros Heq%bool_decide_eq_true.
      destruct (tk_canon _ _ _ Hok _ _ Hc) as [_ Hsc]. rewrite Heq in Hsc.
      exists (Z.to_nat (number b)). rewrite Hc. f_equal. by eapply stored_inj.
    - intros [n Hn]. destruct (tk_canon _ _ _ Hok _ _ Hn) as [-> _]. rewrite Nat2Z.id, Hn. by apply bool_decide_eq_true. }
  destruct (match canon !! Z.to_nat (number b) with Some c => _ | None => _ end) eqn:Ec.
  { exists [], b. rewrite app_nil_r. split_and!; try done; by apply Hcan. }
  assert (Hnc : ~ canonical canon b) by (rewrite <- Hcan; done).
  destruct Hp as [H0|(p & Hp & Hn)]; [exfalso; apply Hnc; by exists 0%nat|].
  rewrite (get_stored _ _ _ _ _ Hok Hp).
  destruct (tk_stored _ _ _ Hok _ _ Hp) as (p' & Hp'%to_vec_inj & Hph & Hpu & _). subst p'. rewrite <- Hph.
  destruct (IH p (acc ++ [(block_hash b, b)])) as (br & a & E & Ha & Hf' & Hl & Hd);
    [by rewrite Hph|unfold in_u in *; lia|].
  exists ((block_hash b, b) :: br), a. rewrite E, <- (assoc_L app). split_and!; try done.
  - by constructor.
  - simpl. apply linked_snoc; try done; rewrite Hd; [by rewrite Hph|done].
  - simpl. by rewrite last_snoc.
Qed.

(** ** The abandoned blocks *)

#[local] Instance BatchOp_eq_dec : EqDecision BatchOp.
Proof. solve_decision. Defined.

Definition is_delete (op : BatchOp) : Prop := match op with Delete _ _ => True | Put _ _ _ => False end.

Lemma after_deletes ops cf k v :
  Forall is_delete ops -> after_ops ops cf k v = if decide (Delete cf k ∈ ops) then None else v.
Proof.
  intros Hd. induction ops as [|op ops IH] using rev_ind; [by rewrite decide_False by apply not_elem_of_nil|].
  apply Forall_app in Hd as [Hd Hop]. inversion Hop as [|?? Hop' _]; subst. destruct op as [|cf' k']; [done|].
  rewrite after_ops_app, IH by done. unfold after_ops. simpl.
  repeat case_decide; try done; exfalso; set_solver.
Qed.

Lemma drop_old_spec d canon surviving k m :
  tables_ok d canon (length canon) -> (k + m <= length canon)%nat ->
  exists ops gone, drop_old d surviving (seqZ (Z.of_nat k) (Z.of_nat m)) = Ok (ops, gone) /\
    Forall (fun op => is_delete op /\ fst (op_key op) ∈ [BLOCK_HASH_INDEX; RECEIPTS; TX_INDEX; TRANSACTIONS]) ops /\
    (forall n b, (k <= n < k + m)%nat -> canon !! n = Some b -> Delete BLOCK_HASH_INDEX (block_hash b) ∈ ops).
Proof.
  intros Hok. revert k. induction m as [|m IH]; intros k Hlen.
  { exists [], []. split; [done|]. split; [constructor|]. intros n b ?. lia. }
  rewrite Nat2Z.inj_succ, seqZ_cons by lia. rewrite Z.pred_succ. cbn [drop_old].
  destruct (lookup_lt_is_Some_2 canon k) as [b Hb]; [lia|].
  rewrite (tk_rows _ _ _ Hok _ _ Hb). rewrite <- Nat2Z.inj_succ.
  destruct (IH (S k)) as (ops & gone & -> & Hops & Hdel); [lia|].
  destruct (drop_ops surviving b) as [bops bgone] eqn:Ed. eexists _, _. split; [done|]. unfold drop_ops in Ed.
  injection Ed as <- <-. split.
  - apply Forall_app. split; [|done]. constructor; [by split; [|set_solver]|]. apply Forall_concat, Forall_fmap, Forall_true.
    intros tx. simpl. repeat constructor; simpl; set_solver.
  - intros n b' Hn Hb'. apply elem_of_app. destruct (decide (n = k)) as [->|Hne]; [|right; apply (Hdel n b'); [lia|done]].
    left. rewrite Hb in Hb'. injection Hb' as <-. left.
Qed.

(** What is left of the tables below the ancestor. *)
Lemma tables_drop d canon k ops :
  tables_ok d canon (length canon) -> (0 < k)%nat ->
  Forall (fun op => is_delete op /\ fst (op_key op) ∈ [BLOCK_HASH_INDEX; RECEIPTS; TX_INDEX; TRANSACTIONS]) ops ->
  (forall n b, (k <= n)%nat -> canon !! n = Some b -> Delete BLOCK_HASH_INDEX (block_hash b) ∈ ops) ->
  tables_ok (write_batch d ops) (take k canon) (length canon).
Proof.
  intros [H1 H2 H3 H4 H5 H6] Hk Hops Hdel.
  assert (Hsame : forall cf key, cf ∈ [BLOCK_HEADERS; BLOCK_BODIES; BLOCKS_BY_HASH] ->
    db_get (write_batch d ops) cf key = db_get d cf key).
  { intros cf key Hcf. rewrite write_batch_get, after_ops_other; [done|]. intros op Hop Heq.
    rewrite Forall_forall in Hops. destruct (Hops op Hop) as [_ Hc].
    rewrite Heq in Hc. clear -Hcf Hc. set_solver. }
  assert (Hrow : forall n, get_block_by_number (write_batch d ops) n = get_block_by_number d n).
  { intros n. unfold get_block_by_number. rewrite !Hsame by set_solver. done. }
  assert (Htake : forall n b, take k canon !! n = Some b -> canon !! n = Some b).
  { intros n b. rewrite lookup_take_Some. by intros [? _]. }
  split.
  - intros h bs Hb. rewrite Hsame in Hb by set_solver. destruct (H1 h bs Hb) as (b & ? & ? & ? & Hp).
    exists b. split_and!; try done. destruct Hp as [|(p & Hp & ?)]; [left; apply lookup_take_Some; by split; [|lia]|].
    right. exists p. unfold stored. by rewrite Hsame by set_solver.
  - intros n b Hb%Htake. destruct (H2 n b Hb). split; [done|]. unfold stored. by rewrite Hsame by set_solver.
  - intros n b b' Hb%Htake Hb'%Htake. by eapply H3.
  - intros n b Hb%Htake. rewrite Hrow. by apply H4.
  - intros n _ Hn Hu. rewrite Hrow. by apply H5.
  - intros h key Hkey. rewrite write_batch_get, after_deletes in Hkey
      by (eapply Forall_impl; [exact Hops|by intros ? []]).
    case_decide as Hin; [done|]. destruct (H6 h key Hkey) as (n & b & Hn & Hh & ->). exists n, b.
    split; [|done]. apply lookup_take_Some. split; [done|]. destruct (decide (k <= n)%nat) as [Hle|]; [|lia].
    exfalso. apply Hin. rewrite <- Hh. by apply (Hdel n b).
Qed.

(** ** The new branch *)

Definition commit_rows (d : Database) (bs : list Block) : Database := foldl (fun d b => write_batch d (block_rows b)) d bs.

Lemma linked_rows d p bs b : linked d p bs -> stored d (block_hash b) b -> linked (write_batch d (block_rows b)) p bs.
Proof.
  intros Hl Hb. revert p Hl. induction bs as [|c bs IH]; intros p; simpl; [done|].
  intros (? & ? & ? & Hc & Hl). split_and!; try done; [|by apply IH]. rewrite stored_rows. case_decide as Heq; [|done].
  rewrite Heq in Hc. by eapply stored_inj.
Qed.

Lemma tables_commit_all d canon H bs p :
  tables_ok d canon H -> last canon = Some p -> linked d p bs -> tables_ok (commit_rows d bs) (canon ++ bs) H.
Proof.
  revert d canon p. induction bs as [|b bs IH]; intros d canon p Hok Hl Hlk; simpl; [by rewrite app_nil_r|].
  destruct Hlk as (Hpar & Hn & Hu & Hs & Hlk). change (b :: bs) with ([b] ++ bs). rewrite (assoc_L app).
  assert (Hnum : number b = Z.of_nat (length canon)).
  { rewrite last_lookup in Hl. destruct (tk_canon _ _ _ Hok _ _ Hl) as [Hp _]. apply lookup_lt_Some in Hl. lia. }
  apply (IH _ _ b).
  - apply (tables_commit d canon H b p); try done. intros bs' Hbs. unfold stored in Hs. exists b. split; [congruence|done].
  - by rewrite last_snoc.
  - by apply linked_rows.
Qed.

Lemma tables_exact d canon H : tables_ok d canon H -> (H <= length canon)%nat -> tables_ok d canon (length canon).
Proof. intros [H1 H2 H3 H4 H5 H6] Hle. split; try done. intros n ???. apply H5; [done|lia|done]. Qed.

(** The batch of a reorganisation is the drops and then the blocks one by one. *)
Lemma reorg_batch_same d drops (executed : list (Block * ExecutionOutcome)) :
  same_blocks (commit_rows (write_batch d drops) (map fst executed))
    (write_batch d (foldl (fun batch '(b, out) => block_batch batch b (out_receipts out) (out_state_root out)) drops executed)).
Proof.
  intros cf k Hcf. induction executed as [|[b out] l IH] using rev_ind; [done|].
  rewrite foldl_snoc, map_app. unfold commit_rows. rewrite foldl_app. simpl. fold (commit_rows (write_batch d drops) (map fst l)).
  rewrite !write_batch_get, block_batch_rows by done. f_equal. by rewrite <- write_batch_get, IH.
Qed.

Lemma commit_block_same d b rs root : same_blocks (write_batch d (block_rows b)) (snd (commit_block d b rs root)).
Proof. intros cf k Hcf. unfold commit_block. simpl. by rewrite !write_batch_get, block_batch_rows. Qed.

Lemma linked_number d p bs : linked d p bs -> number (default p (last bs)) = number p + Z.of_nat (length bs).
Proof.
  revert p. induction bs as [|b bs IH]; intros p; [simpl; lia|]. rewrite default_last. simpl.
  intros (_ & Hn & _ & _ & Hl). rewrite (IH b Hl). lia.
Qed.

Lemma linked_stored d p bs b : linked d p bs -> b ∈ bs -> stored d (block_hash b) b.
Proof.
  revert p. induction bs as [|c bs IH]; intros p Hl Hin; [by apply not_elem_of_nil in Hin|].
  destruct Hl as (_ & _ & _ & Hs & Hl). apply elem_of_cons in Hin as [->|Hin]; [done|by eapply IH].
Qed.

Lemma linked_weaken d d' p bs : (forall h b, stored d h b -> stored d' h b) -> linked d p bs -> linked d' p bs.
Proof. intros Hs. revert p. induction bs as [|b bs IH]; intros p; simpl; [done|]. naive_solver. Qed.

(** The blocks of a finalised chain are never on the branch that leaves it. *)
Lemma retained_below d canon br a fin_height (recorded : Z * Hash) fb :
  tables_ok d canon (length canon) -> canonical canon fb -> (fst recorded <> 0 -> block_hash fb = snd recorded) ->
  0 <= number a ->
  Forall (fun hb => fst hb = block_hash (snd hb) /\ ~ canonical canon (snd hb)) br ->
  linked d a (rev (map snd br)) -> retains_finalized fin_height recorded a br = true -> fin_height <= number a.
Proof.
  intros Hok [n Hn] Hfb Ha Hbr Hl [Hle|[Hr Hex]%andb_prop]%orb_prop; [lia|]. apply Z.eqb_eq in Hr.
  destruct (decide (fst recorded = 0)) as [|Hz]; [lia|exfalso]. specialize (Hfb Hz).
  apply existsb_exists in Hex as ([h b] & Hin%list_elem_of_In & [_ Hh%bool_decide_eq_true]%andb_prop).
  rewrite Forall_forall in Hbr. destruct (Hbr _ Hin) as [Hhb Hnc]. simpl in *. apply Hnc. exists n.
  rewrite Hn. f_equal. destruct (tk_canon _ _ _ Hok _ _ Hn) as [_ Hs]. eapply stored_inj; [exact Hs|].
  replace (block_hash fb) with (block_hash b) by congruence. eapply linked_stored; [exact Hl|].
  rewrite <- Permutation_rev. apply list_elem_of_fmap. by exists (h, b).
Qed.

(** ** The rows a restart reads *)

Definition meta_ok (d : Database) (g b : Block) (chain_id : Z) : Prop :=
  db_get d METADATA GENESIS_HASH = Some (block_hash g) /\ db_get d METADATA CHAIN_ID = Some (to_le 8 chain_id) /\
  db_get d METADATA LATEST_BLOCK_NUMBER = Some (to_le 8 (number b)) /\
  db_get d METADATA LATEST_STATE_ROOT = Some (state_root_of b).

Lemma meta_same d d' g b cid : same_chain d d' -> meta_ok d g b cid -> meta_ok d' g b cid.
Proof. intros [_ Hm] (? & ? & ? & ?). split_and!; by rewrite Hm by (unfold META_KEYS; set_solver). Qed.

Lemma meta_batch batch b rs root k v :
  after_ops (block_batch batch b rs root) METADATA k v =
    (if decide (k = LATEST_STATE_ROOT) then Some root
     else if decide (k = LATEST_BLOCK_NUMBER) then Some (to_le 8 (number b)) else after_ops batch METADATA k v).
Proof.
  unfold block_batch, append_receipts_and_head_to_batch, append_block_to_batch.
  rewrite !after_ops_app. rewrite (after_ops_other (map _ _)), (after_ops_other (concat _)).
  - unfold after_ops. simpl. repeat case_decide; simplify_eq; done.
  - intros op Hin%list_elem_of_In Heq. apply in_concat in Hin as (l & Hl & Hop).
    apply list_elem_of_In in Hl, Hop. apply elem_of_lookup_imap in Hl as (i & tx & -> & _). unfold tx_ops in Hop. set_solver.
  - intros op (r & -> & _)%list_elem_of_fmap Heq. done.
Qed.

Lemma meta_rows d batch g b0 cid b rs :
  meta_ok (write_batch d batch) g b0 cid -> meta_ok (write_batch d (block_batch batch b rs (state_root_of b))) g b cid.
Proof. unfold meta_ok. rewrite !write_batch_get, !meta_batch. intros (? & ? & _ & _). by split_and!. Qed.

Lemma meta_branch d drops g b0 cid (executed : list (Block * ExecutionOutcome)) :
  meta_ok (write_batch d drops) g b0 cid -> Forall (fun e => out_state_root (snd e) = state_root_of (fst e)) executed ->
  meta_ok (write_batch d (foldl (fun batch '(b, out) => block_batch batch b (out_receipts out) (out_state_root out)) drops executed))
    g (default b0 (last (map fst executed))) cid.
Proof.
  intros Hm. induction executed as [|[b out] l IH] using rev_ind; [done|].
  intros [Hf Hb]%Forall_app. rewrite Forall_singleton in Hb.
  rewrite foldl_snoc, map_app. cbn [map fst]. rewrite last_snoc. simpl in Hb |- *. rewrite Hb. by eapply meta_rows, IH.
Qed.

Lemma meta_drops d drops g b cid :
  Forall (fun op => fst (op_key op) <> METADATA) drops -> meta_ok d g b cid -> meta_ok (write_batch d drops) g b cid.
Proof.
  rewrite Forall_forall. intros Hd (? & ? & ? & ?). split_and!; by rewrite write_batch_get, after_ops_other.
Qed.
End tables.
