(* ===== verification/ChainInv.v ===== *)
(** * Every operation of the chain keeps its invariant

    The invariant of ChainTheory.v for the chain's state, carried through
    import, reorganisation, production and finalisation with a small program
    logic: a failed operation keeps it as well, and what is at or below the
    finalised height never changes. *)

From S2P Require Import Prelude Float64 Externals Codec Nibbles Storage Trie Types Crypto Blocks Receipts.
From S2P Require Import StateDB StateOps Executor Engine EngineTheory Genesis Chain ChainFrame ChainTheory.

Section invariant.
Context `{B : Blake3} {BC : CollisionFree B} `{ED : Ed25519} `{HX : HexCrate}.
Context `{BN : Borsh TrieNode} `{BA : Borsh Account} `{BL : Borsh LegacyAccount} `{BU : Borsh Undelegation}.
Context `{BH : Borsh BlockHeader} {BHok : BorshOk BlockHeader} `{BB : Borsh BlockBody} {BBok : BorshOk BlockBody}
  `{BK : Borsh Block} {BKok : BorshOk Block} `{BX : Borsh Transaction}
  `{BT : Borsh UnsignedTransaction} `{BR : Borsh Receipt} `{BI : Borsh UnsignedInferenceProof}.
Context `{BV : Borsh ValidatorNode} `{BP : Borsh ValidatorCheckpoint} `{BE : Borsh DoubleSignEvidence}.
Context {C : Type -> Type -> Type} `{LC : LruCache C}.
Context {Database : Type} `{RK : RocksDB Database} {RKok : RocksOk Database}.
Abbreviation SDB := (StateDB C Database).
Context (evm_create : Executor -> Address -> Address -> bytes -> Z -> Z -> ST SDB ExecutorError EvmResult).
Context (evm_call : Executor -> Address -> Address -> Address -> bytes -> Z -> Z -> ST SDB ExecutorError EvmResult).
Context {EK : EvmKeeps evm_create evm_call}.
Abbreviation CH := (Chain (C:=C) (Database:=Database)).
Abbreviation CM A := (ST CH ChainError A).

Record chain_ok (x : CH) (canon : list Block) : Prop := {
  co_tables : tables_ok (ch_db x) canon (length canon);
  co_head : exists g b, canon !! 0%nat = Some g /\ last canon = Some b /\ ch_head x = Some (mkSealedBlock (block_hash b) b) /\
    state_root (ch_state x) = state_root_of b /\ meta_ok (ch_db x) g b (cc_chain_id (ch_config x));
  co_final : exists b, canon !! Z.to_nat (fst (ch_finalized x)) = Some b /\
    block_hash b = snd (ch_finalized x) /\ 0 <= fst (ch_finalized x);
}.

(** Steps that leave the blocks, the head, the finalised block and the live root alone. *)
Definition quiet (x x' : CH) : Prop :=
  same_chain (ch_db x) (ch_db x') /\ ch_head x' = ch_head x /\ ch_finalized x' = ch_finalized x /\
  state_root (ch_state x') = state_root (ch_state x) /\ ch_config x' = ch_config x.

Lemma quiet_refl x : quiet x x.
Proof. by split_and!. Qed.
Lemma quiet_trans x y z : quiet x y -> quiet y z -> quiet x z.
Proof. intros (? & ? & ? & ? & ?) (? & ? & ? & ? & ?). split_and!; [by etrans|congruence..]. Qed.
Lemma quiet_ok x x' canon : quiet x x' -> chain_ok x canon -> chain_ok x' canon.
Proof.
  intros (Hs & Hh & Hf & Hr & Hc) [H1 (g & b & Hg & Hl & Hb & Hroot & Hm) H3].
  split; rewrite ?Hh, ?Hf, ?Hr, ?Hc; [eapply tables_same; [apply Hs|done]| |done].
  exists g, b. split_and!; try done. by eapply meta_same.
Qed.
Lemma quiet_db d x : same_chain (ch_db x) d -> quiet x (set_ch_db d x).
Proof. intros Hs. by split_and!. Qed.
Lemma quiet_consensus f x : quiet x (on_consensus f x).
Proof. by split_and!. Qed.

Lemma checkpoint_batch_cf d c op : op ∈ checkpoint_batch d c -> foreign (fst (op_key op)) (snd (op_key op)).
Proof.
  unfold checkpoint_batch. intros Hop.
  assert (Hdel : forall (ks : list bytes) b, op ∈ foldl (fun b k => batch_delete b CHECKPOINTS k) b ks ->
    op ∈ b \/ fst (op_key op) = CHECKPOINTS).
  { intros ks. induction ks as [|k ks IH]; intros b Hin; [by left|]. destruct (IH _ Hin) as [Hb|]; [|by right].
    apply elem_of_app in Hb as [|Hb]; [by left|]. right. by apply list_elem_of_singleton in Hb as ->. }
  assert (Hput : forall (vs : list ValidatorNode) b, op ∈ foldl (fun b v => batch_put b VALIDATORS (v_address v) (to_vec v)) b vs ->
    op ∈ b \/ fst (op_key op) = VALIDATORS).
  { intros vs. induction vs as [|v vs IH]; intros b Hin; [by left|]. destruct (IH _ Hin) as [Hb|]; [|by right].
    apply elem_of_app in Hb as [|Hb]; [by left|]. right. by apply list_elem_of_singleton in Hb as ->. }
  apply Hdel in Hop as [Hop|Hop]; [|rewrite Hop; apply foreign_cf; set_solver].
  apply Hput in Hop as [Hop|Hop]; [|rewrite Hop; apply foreign_cf; set_solver].
  unfold batch_put, batch_new in Hop. apply list_elem_of_singleton in Hop as ->. apply foreign_cf. simpl. set_solver.
Qed.

Lemma quiet_checkpoint now n x : quiet x (maybe_create_checkpoint now n x).
Proof.
  unfold maybe_create_checkpoint. case_match; [apply quiet_refl|]. apply quiet_db. unfold create_checkpoint. simpl.
  apply same_write. intros op. apply checkpoint_batch_cf.
Qed.

(** ** A program logic *)

(** [f0] and [prefix]: the finalised height and the blocks up to it at the start. *)
Context (f0 : nat) (prefix : list Block).

Definition Inv (canon : list Block) (x : CH) : Prop :=
  chain_ok x canon /\ take (S f0) canon = prefix /\ (f0 <= Z.to_nat (fst (ch_finalized x)))%nat.
Definition J (x : CH) : Prop := exists canon, Inv canon x.

(** From [P] the program ends in [Q], or fails in [J]. *)
Definition ht {A} (P : CH -> Prop) (m : CM A) (Q : A -> CH -> Prop) : Prop :=
  forall x, P x -> match m x with (Ok a, x') => Q a x' | (_, x') => J x' end.

Lemma ht_ret {A} (P : CH -> Prop) (a : A) (Q : A -> CH -> Prop) : (forall x, P x -> Q a x) -> ht P (ret a) Q.
Proof. intros H x Hx. by apply H. Qed.
Lemma ht_fail {A} (P : CH -> Prop) e (Q : A -> CH -> Prop) : (forall x, P x -> J x) -> ht P (fail e) Q.
Proof. intros H x Hx. by apply H. Qed.
Lemma ht_bind {A A'} (P : CH -> Prop) (m : CM A) (k : A -> CM A') M Q :
  ht P m M -> (forall a, ht (M a) (k a) Q) -> ht P (bind m k) Q.
Proof.
  intros Hm Hk x Hx. specialize (Hm x Hx). unfold bind. destruct (m x) as [[a| | |] x']; try done. by apply Hk.
Qed.
Lemma ht_gets {A} (P : CH -> Prop) (f : CH -> A) : ht P (gets f) (fun a x => P x /\ a = f x).
Proof. by intros x Hx. Qed.
Lemma ht_modify (P : CH -> Prop) f (Q : unit -> CH -> Prop) : (forall x, P x -> Q tt (f x)) -> ht P (modify f) Q.
Proof. intros H x Hx. by apply H. Qed.
Lemma ht_ok_or {A} (P : CH -> Prop) (o : option A) e :
  (forall x, P x -> J x) -> ht P (ok_or o e) (fun a x => P x /\ o = Some a).
Proof. intros H. destruct o; [by apply ht_ret|by apply ht_fail]. Qed.
Lemma ht_conseq {A} (P P' : CH -> Prop) (m : CM A) (Q Q' : A -> CH -> Prop) :
  ht P' m Q' -> (forall x, P x -> P' x) -> (forall a x, Q' a x -> Q a x) -> ht P m Q.
Proof. intros Hm HP HQ x Hx. specialize (Hm x (HP x Hx)). destruct (m x) as [[] x']; auto. Qed.
Lemma ht_fact {A} (P : CH -> Prop) (R : Prop) (m : CM A) Q : (R -> ht P m Q) -> ht (fun x => P x /\ R) m Q.
Proof. intros H x [Hx Hr]. by apply H. Qed.

(** The facts on the tables that quiet steps keep. *)
Definition stable (P : CH -> Prop) : Prop := (forall x x', quiet x x' -> P x -> P x') /\ (forall x, P x -> J x).

Lemma ht_quiet {A} (P : CH -> Prop) (m : CM A) : stable P -> (forall x, quiet x (snd (m x))) -> ht P m (fun _ => P).
Proof.
  intros [Hq HJ] Hm x Hx. specialize (Hq _ _ (Hm x) Hx). destruct (m x) as [[] x']; simpl in *; auto.
Qed.

(** ** The steps *)

Lemma decimal_bytes fuel n acc : Forall (fun c => c <= 57) acc -> Forall (fun c => c <= 57) (decimal fuel n acc).
Proof.
  revert n acc. induction fuel as [|fuel IH]; intros n acc Hacc; [done|]. simpl. destruct (n <? 10) eqn:En.
  - constructor; [lia|done].
  - apply IH. constructor; [|done]. pose proof (Z.mod_pos_bound n 10). lia.
Qed.

(** No evidence row is one of the rows a restart reads. *)
Lemma evidence_foreign ev : foreign METADATA (evidence_key ev) /\ foreign METADATA (text "double_sign:" ++ evidence_key ev).
Proof.
  split; (split; [unfold block_cf; set_solver|intros _]); [|vm_compute text; simpl; set_solver].
  unfold evidence_key. pose proof (decimal_bytes 20 (ev_height ev) [] ltac:(constructor)) as Hd.
  destruct (decimal 20 _ _) as [|c l]; [simpl; set_solver|]. apply Forall_inv in Hd. unfold META_KEYS, LATEST_BLOCK_NUMBER,
    LATEST_STATE_ROOT, GENESIS_HASH, CHAIN_ID. rewrite !elem_of_cons. simpl. intros Hin.
  repeat (destruct Hin as [[= -> _]|Hin]; [lia|]). by apply not_elem_of_nil in Hin.
Qed.

Lemma quiet_police now b x : quiet x (snd (police now b x)).
Proof.
  unfold police. destruct (check_double_sign _ _ _) as [ev|]; [|apply quiet_refl].
  destruct (process_double_sign_evidence ev _ _) as [[e d]|] eqn:Ep; [|apply quiet_refl]. simpl.
  unfold process_double_sign_evidence in Ep. destruct (punish_double_sign _ _) as [e'|]; [|done]. simpl in Ep. simplify_eq.
  split_and!; [|done..]. unfold store_double_sign_evidence, ch_db. simpl.
  destruct (evidence_foreign ev) as [F1 F2]. etrans; [apply (same_put _ _ _ (to_vec ev) F1)|apply same_put, F2].
Qed.

Lemma quiet_validate now b p x : quiet x (snd (validate now b p x)).
Proof. apply quiet_refl. Qed.

Lemma quiet_scratch {A} (m : Database -> Result ChainError A * Database) x :
  (forall d, same_chain d (snd (m d))) -> quiet x (snd (scratch m x)).
Proof. intros Hm. unfold scratch. specialize (Hm (ch_db x)). destruct (m (ch_db x)). by apply quiet_db. Qed.

Lemma ht_validate P now b p :
  stable P -> ht P (validate now b p) (fun _ x => P x /\ number b = u64_add (number p) 1).
Proof.
  intros [_ HJ] x Hx. unfold validate. destruct (validate_block _ _ _ _) as [[]| | |] eqn:Ev; auto.
  split; [done|]. by apply validate_block_valid in Ev as [? ?].
Qed.

(** An executed block has the root and the gas it claims. *)
Lemma ht_execute_and_check P s1 s2 b p :
  stable P -> ht P (execute_and_check evm_create evm_call s1 s2 b p) (fun out x => P x /\ out_state_root out = state_root_of b).
Proof.
  intros Hst. unfold execute_and_check. eapply ht_bind; [apply ht_gets|]. intros c. simpl.
  eapply ht_bind; [eapply (ht_conseq _ P _ (fun _ => P) (fun _ => P)); [apply ht_quiet; [done|]|by intros x []|done]|].
  { intros x. apply quiet_scratch. intros d. by apply execute_block_same. }
  intros out. case_bool_decide; simpl; [|apply ht_fail, Hst]. case_match; [apply ht_fail, Hst|by apply ht_ret].
Qed.

Lemma stable_inv canon : stable (Inv canon).
Proof.
  split; [|by intros x; exists canon]. intros x x' Hq (Hok & Hp & Hf). split; [by eapply quiet_ok|]. split; [done|].
  by destruct Hq as (_ & _ & -> & _).
Qed.

Lemma stable_and P (R : Database -> Prop) :
  stable P -> (forall d d', same_blocks d d' -> R d -> R d') -> stable (fun x => P x /\ R (ch_db x)).
Proof. intros [H1 H2] HR. split; [|naive_solver]. intros x x' Hq [Hx Hr]. split; [eauto|]. eapply HR; [apply (proj1 Hq)|done]. Qed.

(** Extending the canonical chain. *)
Lemma inv_extend canon x x' b :
  Inv canon x -> tables_ok (ch_db x') (canon ++ [b]) (length (canon ++ [b])) ->
  ch_head x' = Some (mkSealedBlock (block_hash b) b) -> ch_finalized x' = ch_finalized x ->
  state_root (ch_state x') = state_root_of b ->
  (forall g p cid, meta_ok (ch_db x) g p cid -> meta_ok (ch_db x') g b cid) -> ch_config x' = ch_config x ->
  Inv (canon ++ [b]) x'.
Proof.
  intros ([H1 (g & p & Hg & _ & _ & _ & Hm) (fb & Hfb & Hfh & Hf0)] & Hp & Hf) Htab Hh Hfin Hr Hmeta Hcfg.
  apply lookup_lt_Some in Hfb as Hlt.
  split; [|rewrite Hfin; split; [|done]].
  - split; [done| |].
    + exists g, b. rewrite last_snoc, Hcfg. split_and!; try done; [by apply lookup_app_l_Some|eauto].
    + exists fb. rewrite Hfin. split; [by apply lookup_app_l_Some|done].
  - rewrite take_app_le by lia. done.
Qed.

Lemma ht_commit_canonical canon now b rs root :
  root = state_root_of b ->
  ht (fun x => Inv canon x /\ (exists p, last canon = Some p /\ parent_hash_of b = block_hash p) /\
               number b = Z.of_nat (length canon) /\ in_u 64 (number b) /\ row_free (ch_db x) b)
    (commit_canonical now b rs root) (fun _ => J).
Proof.
  intros -> x (Hinv & (p & Hl & Hp) & Hn & Hu & Hfree). unfold commit_canonical. simpl.
  exists (canon ++ [b]). set (x1 := set_ch_db _ x).
  assert (Ht : tables_ok (ch_db x1) (canon ++ [b]) (length (canon ++ [b]))).
  { apply (tables_same (write_batch (ch_db x) (block_rows b))); [apply commit_block_same|].
    apply (tables_exact _ _ (length canon)); [|rewrite length_app; lia].
    eapply tables_commit; try done. apply Hinv. }
  destruct (stable_inv (canon ++ [b])) as [Hq _]. eapply Hq.
  { eapply quiet_trans; [apply quiet_consensus|apply quiet_checkpoint]. }
  eapply (inv_extend canon x); try done. intros g p' cid Hm. unfold x1, ch_db. simpl. eapply meta_rows, meta_drops; [constructor|done].
Qed.

(** The branch is executed block by block, to the roots it claims. *)
Lemma ht_execute_branch P bs root :
  stable P -> ht P (execute_branch evm_create evm_call bs root)
    (fun ex x => P x /\ map fst ex = bs /\ Forall (fun e => out_state_root (snd e) = state_root_of (fst e)) ex).
Proof.
  intros Hst. revert root. induction bs as [|b bs IH]; intros root; cbn [execute_branch]; [by apply ht_ret|].
  eapply ht_bind; [apply ht_gets|]. intros c. simpl.
  eapply ht_bind; [eapply (ht_conseq _ P _ (fun _ => P) (fun _ => P)); [apply ht_quiet; [done|]|by intros x []|done]|].
  { intros x. apply quiet_scratch. intros d. by apply execute_block_same. }
  intros out. case_bool_decide; simpl; [|apply ht_fail, Hst].
  eapply ht_bind; [apply IH|]. intros ex. apply ht_ret. intros x (Hx & Hm & Hf). split; [done|]. simpl. rewrite Hm.
  split; [done|]. by constructor.
Qed.

(** ** Reorganisation *)

Lemma quiet_adopted now ex x :
  quiet x (foldl (fun x '(b, _) =>
    maybe_create_checkpoint now (number b) (on_consensus (record_block_produced now (producer b)) x)) x
    (ex : list (Block * ExecutionOutcome))).
Proof.
  revert x. induction ex as [|[b out] ex IH]; intros x; simpl; [apply quiet_refl|]. eapply quiet_trans; [|apply IH].
  eapply quiet_trans; [apply quiet_consensus|apply quiet_checkpoint].
Qed.

Lemma quiet_send l x : quiet x (send_displaced l x).
Proof. unfold send_displaced. destruct (ch_sink x) as [[]|]; by split_and!. Qed.

(** The tables after the batch of a reorganisation onto [bs] above block [k]. *)
Lemma reorg_tables d canon k a bs (executed : list (Block * ExecutionOutcome)) drops :
  tables_ok d canon (length canon) -> canon !! k = Some a -> linked d a bs -> map fst executed = bs ->
  (length canon <= S k + length bs)%nat ->
  Forall (fun op => is_delete op /\ fst (op_key op) ∈ [BLOCK_HASH_INDEX; RECEIPTS; TX_INDEX; TRANSACTIONS]) drops ->
  (forall n b, (S k <= n < S k + (length canon - S k))%nat -> canon !! n = Some b ->
    Delete BLOCK_HASH_INDEX (block_hash b) ∈ drops) ->
  let d' := write_batch d (foldl (fun batch '(b, out) => block_batch batch b (out_receipts out) (out_state_root out)) drops executed) in
  tables_ok d' (take (S k) canon ++ bs) (length (take (S k) canon ++ bs)).
Proof.
  intros Hok Ha Hl Hex Hlen Hdrops Hdel. apply lookup_lt_Some in Ha as Hlt.
  eapply tables_same; [apply reorg_batch_same|]. rewrite Hex. eapply tables_exact.
  - eapply tables_commit_all.
    + apply (tables_drop d canon (S k) drops Hok); [lia|done|]. intros n b Hn Hb. apply (Hdel n b); [|done].
      apply lookup_lt_Some in Hb. lia.
    + rewrite last_lookup, length_take, lookup_take_lt by lia. by replace (pred (S k `min` length canon)) with k by lia.
    + eapply linked_weaken; [|exact Hl]. intros h b. unfold stored. rewrite write_batch_get, after_ops_other; [done|].
      intros op Hop Heq. rewrite Forall_forall in Hdrops. destruct (Hdrops op Hop) as [_ Hc]. rewrite Heq in Hc.
      clear -Hc. set_solver.
  - rewrite length_app, length_take. lia.
Qed.

(** The state between the execution of the branch and the batch. *)
Definition executing (canon : list Block) (a : Block) (bs : list Block) (x : CH) : Prop :=
  Inv canon x /\ linked (ch_db x) a bs /\ fst (ch_finalized x) <= number a.

Lemma stable_executing canon a bs : stable (executing canon a bs).
Proof.
  split; [|intros x (Hinv & _); by exists canon]. intros x x' Hq (Hinv & Hl & Hf). destruct (stable_inv canon) as [Hs _].
  split; [by eapply Hs|]. destruct Hq as ([Hd _] & _ & -> & _). split; [|done]. eapply linked_weaken; [|done].
  intros h b. unfold stored. by rewrite Hd by (unfold block_cf; set_solver).
Qed.

(** The new canonical chain. *)
Lemma inv_adopt canon k a bs tip now root ex d x displaced :
  executing canon a bs x -> canon !! k = Some a -> last bs = Some tip -> root = state_root_of tip ->
  tables_ok d (take (S k) canon ++ bs) (length (take (S k) canon ++ bs)) ->
  (forall g p cid, meta_ok (ch_db x) g p cid -> meta_ok d g tip cid) ->
  J (send_displaced displaced (adopt now (block_hash tip) tip root ex (set_ch_db d x))).
Proof.
  intros ((Hok & Hpre & Hf0) & Hl & Hf) Ha Hlast -> Ht Hmeta. exists (take (S k) canon ++ bs).
  destruct (stable_inv (take (S k) canon ++ bs)) as [Hq _].
  eapply Hq; [apply quiet_send|]. eapply Hq; [apply quiet_adopted|].
  destruct Hok as [Htab (g & p & Hg & _ & _ & _ & Hm) (fb & Hfb & Hfh & Hfz)]. destruct (tk_canon _ _ _ Htab _ _ Ha) as [Hka _].
  apply lookup_lt_Some in Ha as Hlt. split; [|split; [|done]].
  - split; [done| |].
    + exists g, tip. split_and!; try done; [|by rewrite last_app, Hlast|by eapply Hmeta].
      apply lookup_app_l_Some. apply lookup_take_Some. split; [done|lia].
    + exists fb. simpl. split; [|done]. apply lookup_app_l_Some. apply lookup_take_Some. split; [done|lia].
  - rewrite take_app_le by (rewrite length_take; lia). rewrite take_take. by replace (S f0 `min` S k)%nat with (S f0) by lia.
Qed.

Lemma ht_reorg canon now tip head :
  last canon = Some head -> number head <= number tip -> ~ canonical canon tip ->
  ht (fun x => Inv canon x /\ stored (ch_db x) (block_hash tip) tip) (reorg_to evm_create evm_call now (block_hash tip) tip)
    (fun _ => J).
Proof.
  intros Hlast Hle Hnc x [Hinv Hst]. assert (Hok : chain_ok x canon) by apply Hinv.
  destruct Hok as [Htab (g & hd & _ & Hl & Hhead & _) (fb & Hfb & Hfh & Hf0)]. rewrite Hlast in Hl. injection Hl as <-.
  unfold reorg_to. rewrite bind_gets, Hhead. cbn [ok_or]. rewrite bind_ret, !bind_gets. unfold look at 1, bind at 1.
  destruct (collect_branch_spec (ch_db x) canon (branch_fuel tip) tip [] Htab Hst) as (br & a & -> & [k Ha] & Hbr & Hlk & Hd).
  { unfold branch_fuel. lia. }
  simpl app. set (fin := Z.max _ _). match goal with |- context [negb ?t] => destruct t eqn:Er end; cbn [negb].
  2: { simpl. by exists canon. }
  destruct (tk_canon _ _ _ Htab _ _ Ha) as [Hka _].
  eapply (retained_below (ch_db x) canon br a fin (ch_finalized x) fb Htab) in Er; [|by eexists|done|lia|done|done].
  rewrite <- map_rev in Hlk, Hd. set (bs := map snd (rev br)) in *.
  assert (Hbs : last bs = Some tip).
  { destruct (last bs) as [t|] eqn:El; [by simpl in Hd; subst|]. simpl in Hd.
    exfalso. apply Hnc. exists k. congruence. }
  assert (Hnum : number tip = number a + Z.of_nat (length bs)) by (rewrite <- Hd; by eapply linked_number).
  assert (Hhn : number head = Z.of_nat (length canon) - 1).
  { rewrite last_lookup in Hlast. destruct (tk_canon _ _ _ Htab _ _ Hlast) as [-> _]. apply lookup_lt_Some in Ha. lia. }
  eapply (ht_bind _ _ _ _ _ (ht_execute_branch (executing canon a bs) bs _ (stable_executing canon a bs))).
  2: { split; [done|]. split; [done|]. subst fin. lia. }
  clear x Hinv Hst Htab Hhead Hfb Hfh Hf0 Hlk fin Er. intros ex x (Hx & Hmap & Hroots).
  assert (Htab : tables_ok (ch_db x) canon (length canon)) by apply Hx. apply lookup_lt_Some in Ha as Hlt.
  simpl sealed_block. unfold look, bind at 1.
  replace (seqZ (number a + 1) _) with (seqZ (Z.of_nat (S k)) (Z.of_nat (length canon - S k))) by (f_equal; lia).
  destruct (drop_old_spec (ch_db x) canon (concat (map (fun '(b, _) => map tx_hash (transactions b)) ex)) (S k) (length canon - S k) Htab)
    as (drops & gone & -> & Hdrops & Hdel); [lia|]. rewrite !bind_modify. simpl.
  eapply inv_adopt; try done.
  - assert (Hle' : last ex = Some (tip, snd (default (tip, mkOutcome [] [] 0) (last ex)))).
    { rewrite <- Hmap, fmap_last in Hbs. destruct (last ex) as [[b o]|]; simplify_eq/=; done. }
    rewrite Hle'. apply last_Some_elem_of in Hle'. rewrite Forall_forall in Hroots. apply (Hroots _ Hle').
  - eapply (reorg_tables (ch_db x) canon k a bs ex drops); try done; [apply Hx|lia].
  - intros g0 p cid Hm. replace tip with (default p (last (map fst ex))) by (by rewrite Hmap, Hbs).
    apply meta_branch; [|done]. apply meta_drops; [|done]. eapply Forall_impl; [exact Hdrops|]. intros op [_ Hc] Heq. rewrite Heq in Hc.
    clear -Hc. set_solver.
Qed.

(** ** Import and production *)

Lemma ht_look {A} P (f : Database -> Result ChainError A) :
  (forall x, P x -> J x) -> ht P (look f) (fun a x => P x /\ f (ch_db x) = Ok a).
Proof. intros HJ x Hx. unfold look. destruct (f (ch_db x)) eqn:Ef; auto. Qed.

(** A block that is not known, with its parent in the store. *)
Definition importing (canon : list Block) (b p : Block) (x : CH) : Prop :=
  Inv canon x /\ db_get (ch_db x) BLOCKS_BY_HASH (block_hash b) = None /\ stored (ch_db x) (parent_hash_of b) p.

Lemma stable_new canon b : stable (fun x => Inv canon x /\ db_get (ch_db x) BLOCKS_BY_HASH (block_hash b) = None).
Proof.
  apply (stable_and (Inv canon) (fun d => db_get d BLOCKS_BY_HASH (block_hash b) = None)); [apply stable_inv|].
  intros d d' Hs. by rewrite Hs by (unfold block_cf; set_solver).
Qed.

Lemma stable_importing canon b p : stable (importing canon b p).
Proof.
  apply (stable_and (Inv canon) (fun d => db_get d BLOCKS_BY_HASH (block_hash b) = None /\ stored d (parent_hash_of b) p));
    [apply stable_inv|].
  intros d d' Hs. unfold stored. by rewrite !Hs by (unfold block_cf; set_solver).
Qed.

Lemma quiet_check_proofs_root b x : quiet x (snd (check_proofs_root b x : _ * CH)).
Proof. unfold check_proofs_root. case_match; apply quiet_refl. Qed.

(** A successor of a stored block, whose number does not wrap. *)
Lemma successor canon d H b p :
  tables_ok d canon H -> stored d (parent_hash_of b) p -> number b = u64_add (number p) 1 -> 0 < number b ->
  number b = number p + 1 /\ in_u 64 (number b).
Proof.
  intros Hok Hp Hn Hpos. destruct (tk_stored _ _ _ Hok _ _ Hp) as (p' & Hp'%to_vec_inj & _ & Hu & _). rewrite <- Hp' in Hu.
  unfold u64_add in Hn. unfold in_u in *. destruct (decide (number p + 1 < 2 ^ 64)) as [Hlt|Hge].
  - rewrite wrap_small in Hn by (unfold in_u; lia). lia.
  - exfalso. replace (number p + 1) with (2 ^ 64) in Hn by lia. change (wrap 64 (2 ^ 64)) with 0 in Hn. lia.
Qed.

(** The last step of an import: on the head, or on a branch. *)
Lemma ht_place canon now b p head out :
  number b = u64_add (number p) 1 -> 0 < number b -> out_state_root out = state_root_of b ->
  ht (fun x => importing canon b p x /\ ch_head x = Some head)
    (if bool_decide (parent_hash_of b = sealed_hash head) then
       commit_canonical now b (out_receipts out) (out_state_root out)
     else
       modify (fun x => set_ch_db (db_put (ch_db x) BLOCKS_BY_HASH (block_hash b) (to_vec b)) x) ;;
       (if better b head then let! _ := attempt (reorg_to evm_create evm_call now (block_hash b) b) in ret (block_hash b)
        else ret (block_hash b)))
    (fun _ => J).
Proof.
  intros Hn Hpos Hroot x ((Hinv & Hnone & Hp) & Hhead). assert (Hok : chain_ok x canon) by apply Hinv.
  destruct Hok as [Htab (g & hb & _ & Hl & Hh & _) _]. rewrite Hhead in Hh. injection Hh as ->. simpl sealed_hash.
  destruct (successor canon _ _ b p Htab Hp Hn Hpos) as [Hn1 Hu].
  assert (Hhb : number hb = Z.of_nat (length canon) - 1 /\ stored (ch_db x) (block_hash hb) hb).
  { rewrite last_lookup in Hl. destruct (tk_canon _ _ _ Htab _ _ Hl) as [-> ?]. apply lookup_lt_Some in Hl. split; [lia|done]. }
  destruct Hhb as [Hhn Hhs]. case_bool_decide as Hpar.
  - apply (ht_commit_canonical canon now b _ _ Hroot). split; [done|]. split; [by exists hb|].
    rewrite Hpar in Hp. rewrite (stored_inj _ _ _ _ Hp Hhs) in Hn1. split; [lia|]. split; [done|].
    intros bs Hbs. congruence.
  - rewrite bind_modify. set (x1 := set_ch_db _ x).
    assert (Hinv1 : Inv canon x1).
    { destruct Hinv as ([_ Hhd Hfin] & Hpre & Hf0). split; [|by split]. split; [by eapply tables_put| |done].
      destruct Hhd as (g' & p' & ? & ? & ? & ? & Hm). exists g', p'. split_and!; try done.
      revert Hm. unfold x1, meta_ok, ch_db. simpl. by rewrite !db_get_put, !decide_False by done. }
    destruct (better b _) eqn:Eb; [|by exists canon]. unfold better in Eb. cbn [sealed_block] in Eb.
    assert (Hst : stored (ch_db x1) (block_hash b) b).
    { unfold stored, x1, ch_db. simpl. by rewrite db_get_put, decide_True. }
    assert (Hnc : ~ canonical canon b).
    { intros [n Hcn]. destruct (tk_canon _ _ _ Htab _ _ Hcn) as [_ Hs]. unfold stored in Hs. congruence. }
    pose proof (ht_reorg canon now b hb Hl ltac:(lia) Hnc x1 (conj Hinv1 Hst)) as Hre.
    unfold bind, attempt. destruct (reorg_to _ _ _ _ _ _) as [[] x2]; done.
Qed.

Lemma ht_import canon now b :
  0 < number b -> ht (Inv canon) (import_block evm_create evm_call now b) (fun _ => J).
Proof.
  intros Hpos. unfold import_block. eapply ht_bind; [apply ht_gets|]. intros d. simpl.
  destruct (known d (block_hash b)) eqn:Ek; [apply ht_fail; intros x []; by exists canon|].
  eapply (ht_conseq _ (fun x => Inv canon x /\ db_get (ch_db x) BLOCKS_BY_HASH (block_hash b) = None) _ (fun _ => J) (fun _ => J));
    [|intros x [Hx ->]; split; [done|]|done].
  2: { unfold known, db_contains in Ek. apply orb_false_elim in Ek as [Ek _]. apply bool_decide_eq_false in Ek.
       by apply eq_None_not_Some in Ek. }
  pose proof (stable_new canon b) as Hst.
  eapply ht_bind; [apply ht_quiet; [exact Hst|intros x; apply quiet_police]|]. intros ?. cbn beta.
  eapply ht_bind; [apply ht_quiet; [exact Hst|intros x; apply quiet_consensus]|]. intros ?. cbn beta.
  eapply ht_bind; [apply ht_look, Hst|]. intros o. simpl.
  eapply ht_bind; [apply ht_ok_or; intros x [Hx _]; by apply Hst|]. intros p. simpl.
  eapply (ht_conseq _ (importing canon b p) _ (fun _ => J) (fun _ => J)); [|intros x [[[Hx Hn] Hg] ->]|done].
  2: { destruct (get_block_by_hash_spec (ch_db x) canon _ (parent_hash_of b) (co_tables _ _ (proj1 Hx)))
         as [(q & Hq & Hs & _)|[Hq _]]; rewrite Hg in Hq; simplify_eq. split; [exact Hx|]. by split. }
  pose proof (stable_importing canon b p) as Hst'.
  eapply ht_bind; [apply (ht_validate _ _ _ _ Hst')|]. intros ?. cbn beta. apply ht_fact. intros Hn.
  eapply ht_bind; [apply ht_quiet; [exact Hst'|intros x; apply quiet_check_proofs_root]|]. intros ?. cbn beta.
  eapply ht_bind; [apply (ht_execute_and_check _ _ _ _ _ Hst')|]. intros out. apply ht_fact. intros Hroot.
  eapply ht_bind; [apply ht_quiet; [exact Hst'|intros x; apply quiet_consensus]|]. intros ?. cbn beta.
  eapply ht_bind; [apply ht_gets|]. intros oh. simpl.
  eapply ht_bind; [apply ht_ok_or; intros x [Hx _]; by apply Hst'|]. intros head.
  eapply ht_conseq; [by apply (ht_place canon now b p head out)|intros x [[Hx ->] ?]; done|done].
Qed.

(** A block is new to the hash-keyed store, or shares the header of the block there. *)
Lemma row_free_stored d canon H b : tables_ok d canon H -> row_free d b.
Proof.
  intros Hok bs Hbs. destruct (tk_stored _ _ _ Hok _ _ Hbs) as (b' & -> & Hh & _). exists b'. split; [done|].
  by apply block_hash_header.
Qed.

Lemma ht_store_produced canon now b :
  0 < number b -> ht (Inv canon) (store_produced_block evm_create evm_call now b) (fun _ => J).
Proof.
  intros Hpos. unfold store_produced_block. pose proof (stable_inv canon) as Hst.
  eapply ht_bind; [apply ht_gets|]. intros oh. simpl.
  eapply ht_bind; [apply ht_ok_or; intros x [Hx _]; by apply Hst|]. intros head. simpl.
  eapply (ht_conseq _ (fun x => Inv canon x /\ exists p, last canon = Some p /\ head = mkSealedBlock (block_hash p) p) _ (fun _ => J) (fun _ => J));
    [|intros x [[Hx ->] Hh]; split; [done|]|done].
  2: { destruct (co_head _ _ (proj1 Hx)) as (g & p & _ & Hl & Hhd & _). exists p. split; [done|congruence]. }
  apply ht_fact. intros (p & Hl & ->). simpl sealed_hash. simpl sealed_block.
  case_bool_decide as Hpar; cbn [negb]; [|apply ht_fail, Hst].
  eapply ht_bind; [apply (ht_validate _ _ _ _ Hst)|]. intros ?. apply ht_fact. intros Hn.
  eapply ht_bind; [apply (ht_execute_and_check _ _ _ _ _ Hst)|]. intros out. apply ht_fact. intros Hroot.
  eapply (ht_bind _ _ _ (fun _ => J)); [|intros ?; by apply ht_ret].
  eapply ht_conseq; [apply (ht_commit_canonical canon now b _ _ Hroot)| |done].
  intros x Hx. assert (Htab : tables_ok (ch_db x) canon (length canon)) by apply Hx.
  rewrite last_lookup in Hl. destruct (tk_canon _ _ _ Htab _ _ Hl) as [Hpn Hps].
  destruct (successor canon _ _ b p Htab ltac:(by rewrite Hpar) Hn Hpos) as [Hn1 Hu]. apply lookup_lt_Some in Hl as Hlt.
  split; [done|]. split; [exists p; by rewrite last_lookup|]. split; [lia|]. split; [done|]. by eapply row_free_stored.
Qed.

(** Only a canonical block is recorded as final, and the height only grows. *)
Lemma inv_finalized canon h hash x : in_u 64 h -> Inv canon x -> Inv canon (record_finalized h hash x).
Proof.
  intros Hh Hinv. unfold record_finalized. rewrite (is_canonical_spec _ canon hash h) by (apply Hinv || done).
  destruct (canon !! Z.to_nat h) as [b|] eqn:Eb; [|done]. case_bool_decide as Hb; [|done].
  destruct (stable_inv canon) as [Hq _]. eapply Hq; [apply quiet_consensus|].
  destruct (Z.ltb_spec (fst (ch_finalized x)) h) as [Hlt|]; [|done]. unfold in_u in Hh.
  destruct Hinv as ([Htab Hhd _] & Hp & Hf). split; [|simpl; split; [done|lia]]. split; [done|done|].
  exists b. simpl. split_and!; [done|done|lia].
Qed.
End invariant.
