(* ===== verification/ChainExample.v ===== *)
(** * A small chain

    Concrete instances of the third-party interfaces (the code of Codec.v for
    every record, a hash without collisions, signatures that carry their key)
    and a node with three validators, on which the theorems of the chain are
    applied. *)

From S2P Require Import Prelude Float64 Externals Codec Nibbles Storage Trie Types Crypto Blocks Receipts.
From S2P Require Import StateDB StateOps Executor Engine EngineProps Genesis Chain ChainFrame.

(** ** Codes of the records *)

Ltac codec := apply codec_via_ok; intros []; done.

Definition tx_types : list TransactionType :=
  [Transfer; ContractCreate; ContractCall; Stake; Unstake; ValidatorRegister; ValidatorExit; Delegate; Undelegate;
   ClaimDelegationRewards; InferenceTask].
Definition tx_type_index (t : TransactionType) : Z :=
  match t with
  | Transfer => 0 | ContractCreate => 1 | ContractCall => 2 | Stake => 3 | Unstake => 4 | ValidatorRegister => 5
  | ValidatorExit => 6 | Delegate => 7 | Undelegate => 8 | ClaimDelegationRewards => 9 | InferenceTask => 10
  end.
#[export] Instance codec_tx_type : Codec TransactionType :=
  codec_via tx_type_index (fun i => nth (Z.to_nat i) tx_types Transfer).
#[export] Instance codec_tx_type_ok : CodecOk TransactionType.
Proof. codec. Qed.

#[export] Instance codec_transaction : Codec Transaction :=
  codec_via
    (fun t => (tx_type t, tx_chain_id t, tx_nonce t, tx_to t, tx_value t, tx_data t, tx_gas_limit t, tx_gas_price t,
               tx_public_key t, tx_signature t))
    (fun '(a, b, c, d, e, f, g, h, i, j) => mkTransaction a b c d e f g h i j).
#[export] Instance codec_transaction_ok : CodecOk Transaction.
Proof. codec. Qed.

#[export] Instance codec_unsigned : Codec UnsignedTransaction :=
  codec_via
    (fun t => (un_tx_type t, un_chain_id t, un_nonce t, un_to t, un_value t, un_data t, un_gas_limit t, un_gas_price t,
               un_public_key t))
    (fun '(a, b, c, d, e, f, g, h, i) => mkUnsigned a b c d e f g h i).
#[export] Instance codec_unsigned_ok : CodecOk UnsignedTransaction.
Proof. codec. Qed.

#[export] Instance codec_body : Codec BlockBody :=
  codec_via (fun b => (body_transactions b, body_votes b, body_inference_proofs b, body_signature b))
    (fun '(a, b, c, d) => mkBlockBody a b c d).
#[export] Instance codec_body_ok : CodecOk BlockBody.
Proof. codec. Qed.

#[export] Instance codec_block : Codec Block :=
  codec_via (fun b => (header b, transactions b, votes b, inference_proofs b, block_signature b))
    (fun '(h, a, b, c, d) => mkBlock h a b c d).
#[export] Instance codec_block_ok : CodecOk Block.
Proof. codec. Qed.

#[export] Instance codec_account_type : Codec AccountType :=
  codec_via (fun t => match t with EOA => 0 | Contract => 1 | Validator => 2 end)
    (fun i => if i =? 0 then EOA else if i =? 1 then Contract else Validator).
#[export] Instance codec_account_type_ok : CodecOk AccountType.
Proof. codec. Qed.

#[export] Instance codec_account : Codec Account :=
  codec_via
    (fun a => (account_type a, balance a, nonce a, code_hash a, storage_root a, stake a, contribution_score a,
               delegated_to a, delegated_amount a, storage_deposit a, last_active_epoch a, storage_slot_count a,
               is_dormant a))
    (fun '(a, b, c, d, e, f, g, h, i, j, k, l, m) => mkAccount a b c d e f g h i j k l m).
#[export] Instance codec_account_ok : CodecOk Account.
Proof. codec. Qed.

#[export] Instance codec_undelegation : Codec Undelegation :=
  codec_via (fun u => (u_delegator u, u_validator u, u_amount u, u_unlock_at u)) (fun '(a, b, c, d) => mkUndelegation a b c d).
#[export] Instance codec_undelegation_ok : CodecOk Undelegation.
Proof. codec. Qed.

#[export] Instance codec_node : Codec TrieNode :=
  codec_via
    (fun n => match n with
              | Empty => (0, [], [], [], None)
              | Leaf k v => (1, k, v, [], None)
              | Extension k c => (2, k, c, [], None)
              | Branch cs v => (3, [], [], cs, v)
              end)
    (fun '(t, a, b, cs, v) =>
       if t =? 0 then Empty else if t =? 1 then Leaf a b else if t =? 2 then Extension a b else Branch cs v).
#[export] Instance codec_node_ok : CodecOk TrieNode.
Proof. codec. Qed.

Definition node_code : Borsh TrieNode := codec_borsh TrieNode.
Definition account_code : Borsh Account := codec_borsh Account.
Definition undelegation_code : Borsh Undelegation := codec_borsh Undelegation.
Definition transaction_code : Borsh Transaction := codec_borsh Transaction.
Definition unsigned_code : Borsh UnsignedTransaction := codec_borsh UnsignedTransaction.
Definition body_code : Borsh BlockBody := codec_borsh BlockBody.
Definition block_code : Borsh Block := codec_borsh Block.
Lemma header_borsh_ok : @BorshOk BlockHeader header_borsh.
Proof. apply codec_borsh_ok. apply _. Qed.
Lemma body_code_ok : @BorshOk BlockBody body_code.
Proof. apply codec_borsh_ok. apply _. Qed.
Lemma block_code_ok : @BorshOk Block block_code.
Proof. apply codec_borsh_ok. apply _. Qed.

(** ** Genesis *)

Definition raw_decode : HexDecode := fun bs => Some bs.
Definition small_genesis : GenesisConfig := mkGenesis DEFAULT_CHAIN_ID 0 [] ∅ [].
Definition small_config : ChainConfig := mkChainConfig DEFAULT_CHAIN_ID small_genesis 0.
Definition genesis_block : Block := build_genesis_block small_genesis.

(** Injective; the hash of the genesis block has 32 bytes. *)
Definition small_blake3 : Blake3 := fun bs =>
  if decide (bs = enc (header genesis_block)) then replicate 32 9 else 1 :: bs.
Lemma small_blake3_ok : CollisionFree small_blake3.
Proof.
  split; unfold blake3, small_blake3.
  - intros x y. repeat case_decide; simplify_eq; try done; by intros [= ->].
  - intros x. by case_decide.
Qed.

(** ** A node *)

Section node.
#[local] Existing Instances small_blake3 toy_ed25519 raw_hex raw_decode node_code account_code no_legacy undelegation_code
  header_borsh body_code block_code transaction_code unsigned_code no_receipts inference_borsh validator_borsh
  checkpoint_borsh evidence_borsh.
Abbreviation CH := (Chain (C:=Lru.t) (Database:=RocksMap)).

Definition no_evm_create (e : Executor) (a b : Address) (c : bytes) (x y : Z) :
  ST (StateDB Lru.t RocksMap) ExecutorError EvmResult := fail EvmError.
Definition no_evm_call (e : Executor) (a b c : Address) (d : bytes) (x y : Z) :
  ST (StateDB Lru.t RocksMap) ExecutorError EvmResult := fail EvmError.
#[export] Instance no_evm_keeps : EvmKeeps no_evm_create no_evm_call.
Proof. by split. Qed.

Definition small_engine (i : Z) : ConsensusEngine := engine_of config_default (Some (mkVrfKeypair i)) (Some (ex_address i)).
Definition three : ConsensusEngine -> ConsensusEngine := update_validators (map ex_validator [3; 1; 2]).

(** Validator [i] starts, and learns of the three validators. *)
Definition started (i : Z) : CH := on_consensus three (snd (chain_new (∅ : RocksMap) small_config (small_engine i))).

(** The block validator [i] produces on a node's head, at a time. *)
Definition produce (i t : Z) (x : CH) : Block :=
  match ch_head x with
  | None => genesis_block
  | Some h =>
    let parent := sealed_block h in
    match execute_at no_evm_create no_evm_call (ch_config x) (state_root_of parent) (block_hash parent) (number parent + 1) t
            (ex_address i) [] (ch_db x) with
    | (Ok out, _) =>
      match produce_block (ch_consensus (on_consensus three (started i))) parent [] (out_receipts out) (out_state_root out) (out_gas_used out) [] t with
      | Ok b => b
      | _ => genesis_block
      end
    | _ => genesis_block
    end
  end.

Definition at_slot (k : Z) : Z := k * BLOCK_INTERVAL_MS + 1500.
Definition stores (t : Z) (b : Block) (x : CH) : CH := snd (store_produced_block no_evm_create no_evm_call t b x).
Definition imports (t : Z) (b : Block) (x : CH) : CH := snd (import_block no_evm_create no_evm_call t b x).

(** Two branches from genesis: validator 3 first, or validators 1 and 2. *)
Definition a1 : Block := produce 3 (at_slot 1) (started 3).
Definition c1 : Block := produce 1 (at_slot 2) (started 1).
Definition c2 : Block := produce 2 (at_slot 3) (stores (at_slot 2) c1 (started 1)).
Definition home : CH := stores (at_slot 1) a1 (started 3).

(** Validator 3 leaves its own block for the longer branch, and finalises it. *)
Definition forked : CH := imports (at_slot 3) c2 (imports (at_slot 2) c1 home).
Definition settled : CH := record_finalized 2 (block_hash c2) forked.

(** Two more blocks on the abandoned one, and their import. *)
Definition a2 : Block := produce 1 (at_slot 5) home.
Definition a3 : Block := produce 2 (at_slot 6) (stores (at_slot 5) a2 home).
Definition attacked (x : CH) : CH := imports (at_slot 6) a3 (imports (at_slot 5) a2 x).

Example fork_heads :
  (chain_block_number home, chain_block_number forked) = (1, 2) /\
  (chain_block_number (attacked forked), chain_block_number (attacked settled)) = (3, 2).
Proof. split; vm_compute; reflexivity. Qed.
End node.
