(* ===== verification/ChainProps.v ===== *)
(** * The canonical chain over the life of a node

    Genesis, restart and every sequence of imports, produced blocks and
    finalisations: the chain a node serves is one linked list of blocks from
    genesis to its head, and what was finalised stays. *)

From S2P Require Import Prelude Float64 Externals Codec Nibbles Storage Trie Types Crypto Blocks Receipts.
From S2P Require Import StateDB StateOps Executor Engine EngineTheory Genesis Chain ChainFrame ChainTheory ChainInv.
From S2P Require Import EngineProps ChainExample.

Section life.
Context `{B : Blake3} {BC : CollisionFree B} `{ED : Ed25519} `{HX : HexCrate} `{HD : HexDecode}.
Context `{BN : Borsh TrieNode} `{BA : Borsh Account} `{BL : Borsh LegacyAccount} `{BU : Borsh Undelegation}.
Context `{BH : Borsh BlockHeader} {BHok : BorshOk BlockHeader} `{BB : Borsh BlockBody} {BBok : BorshOk BlockBody}
  `{BK : Borsh Block} {BKok : BorshOk Block} `{BX : Borsh Transaction}
  `{BT : Borsh UnsignedTransaction} `{BR : Borsh Receipt} `{BI : Borsh UnsignedInferenceProof}.
Context `{BV : Borsh ValidatorNode} `{BP : Borsh ValidatorCheckpoint} `{BE : Borsh DoubleSignEvidence}.
Context {C : Type -> Type -> Type} `{LC : LruCache C}.
Context {Database : Type} `{RK : RocksDB Database} {RKok : RocksOk Database}.
Abbreviation SDB := (StateDB C Database).
Context (evm_create : Executor -> Address -> Address -> bytes -> Z -> Z -> ST SDB ExecutorError EvmResult).
Context (evm_call : Executor -> Address -> Address -> Address -> bytes -> Z -> Z -> ST SDB ExecutorError EvmResult).
Context {EK : EvmKeeps evm_create evm_call}.
Abbreviation CH := (Chain (C:=C) (Database:=Database)).
Abbreviation CM A := (ST CH ChainError A).


(** ** Genesis and restart *)

Definition fresh (d : Database) : Prop :=
  (forall cf k, block_cf cf -> db_get d cf k = None) /\ db_get d METADATA GENESIS_HASH = None.

(** What the methods of the live state leave alone. *)
Definition set_up (x x' : CH) : Prop := same_chain (ch_db x) (ch_db x') /\ ch_config x' = ch_config x.

Lemma live_set_up {A} (m : ST SDB StateError A) x : keeps m -> set_up x (snd (live m x)).
Proof.
  intros Hm. unfold live. specialize (keeps_map_err ChainState m Hm (ch_state x)) as Hk.
  destruct (map_err ChainState m (ch_state x)) as [r s]. by split.
Qed.

Lemma set_up_trans x y z : set_up x y -> set_up y z -> set_up x z.
Proof. intros [] []. split; [by etrans|congruence]. Qed.

Lemma all_set_up {A} (f : A -> CM unit) l x :
  (forall a y, set_up y (snd (f a y))) -> set_up x (snd (for_all f l x)).
Proof.
  intros Hf. revert x. induction l as [|a l IH]; intros x; [by split|]. cbn [for_all]. unfold bind.
  pose proof (Hf a x) as H1. destruct (f a x) as [[[]| | |] x1]; try done. by eapply set_up_trans.
Qed.

(** The balances and stakes of the genesis accounts, committed. *)
Lemma genesis_state x y z r x1 g :
  for_all (fun '(a, balance) => live (set_balance a balance)) (parse_allocations g) x = (Ok tt, y) ->
  for_all (fun '(a, _, stake) => live (set_stake a stake)) (parse_validators g) y = (Ok tt, z) ->
  live state_commit z = (Ok r, x1) -> set_up x x1 /\ state_root (ch_state x1) = r.
Proof.
  intros E1 E2 E3. split; [|unfold live, map_err, state_commit in E3; by simplify_eq/=].
  apply (set_up_trans x y); [|apply (set_up_trans y z)].
  - apply (f_equal snd) in E1. simpl in E1. rewrite <- E1. apply all_set_up. intros [] w. apply live_set_up, keeps_update_account.
  - apply (f_equal snd) in E2. simpl in E2. rewrite <- E2. apply all_set_up. intros [[]] w. apply live_set_up, keeps_update_account.
  - pose proof (live_set_up state_commit z keeps_commit) as H. by rewrite E3 in H.
Qed.

Lemma get_block_fresh d n : (forall cf k, block_cf cf -> db_get d cf k = None) -> get_block_by_number d n = Ok None.
Proof. intros Hd. unfold get_block_by_number. by rewrite Hd by (unfold block_cf; set_solver). Qed.

(** The tables after the genesis batch. *)
Lemma genesis_tables d g :
  (forall cf k, block_cf cf -> db_get d cf k = None) -> number g = 0 -> tables_ok (write_batch d (block_rows g)) [g] 1.
Proof.
  intros Hd Hn. split.
  - intros h bs Hb. rewrite write_batch_get, Hd in Hb by (unfold block_cf; set_solver).
    unfold block_rows, after_ops in Hb. simpl in Hb. repeat (case_decide; try congruence). simplify_eq.
    exists g. rewrite Hn. split_and!; [done..|by left].
  - intros [|n] b Hb; simplify_eq/=. split; [done|]. rewrite stored_rows, decide_True; done.
  - by intros n b b' Hb Hb'.
  - intros [|n] b Hb; simplify_eq/=. rewrite get_block_rows by (rewrite ?Hn; done). by rewrite decide_True.
  - intros n Hl _ Hu. rewrite get_block_rows by (rewrite ?Hn; done). simpl in Hl. rewrite decide_False by lia.
    by apply get_block_fresh.
  - intros h key Hk. rewrite write_batch_get, Hd in Hk by (unfold block_cf; set_solver).
    unfold block_rows, after_ops in Hk. simpl in Hk. repeat (case_decide; try congruence). simplify_eq.
    exists 0%nat, g. by rewrite Hn.
Qed.

Lemma quiet_genesis f (x : CH) : quiet x (register_genesis_validators (on_consensus f x)).
Proof. unfold register_genesis_validators. case_match; [apply quiet_consensus|]. eapply quiet_trans; apply quiet_consensus. Qed.

(** The rows of the genesis batch. *)
Lemma genesis_batch d g cid :
  (forall cf k, block_cf cf -> db_get d cf k = None) -> number g = 0 ->
  let d' := write_batch d (block_batch batch_new g [] (state_root_of g) ++
     [Put METADATA GENESIS_HASH (block_hash g); Put METADATA CHAIN_ID (to_le 8 cid)]) in
  tables_ok d' [g] 1 /\ meta_ok d' g g cid.
Proof.
  intros Hd Hn d'. split.
  - eapply tables_same; [|by apply genesis_tables]. intros cf k Hcf. unfold d'.
    rewrite !write_batch_get, after_ops_app, (after_ops_other [_; _]), block_batch_rows by (try done; unfold block_cf in *; set_solver).
    done.
  - unfold meta_ok, d'. rewrite !write_batch_get, !after_ops_app, !meta_batch. by split_and!.
Qed.

Lemma create_chain_ok x x' :
  fresh (ch_db x) -> create_chain x = (Ok tt, x') -> exists g, chain_ok x' [g].
Proof.
  intros [Hd _] Hc. unfold create_chain in Hc. rewrite bind_gets in Hc.
  apply bind_inv_ok in Hc as ([] & y & E1 & Hc). apply bind_inv_ok in Hc as ([] & z & E2 & Hc).
  apply bind_inv_ok in Hc as (r & x1 & E3 & Hc). destruct (genesis_state _ _ _ _ _ _ E1 E2 E3) as [[[Hs Hm] Hcfg] Hroot].
  set (g := with_state_root r _) in Hc. exists g. rewrite !bind_modify in Hc. unfold modify in Hc. injection Hc as <-.
  eapply quiet_ok; [apply quiet_genesis|].
  destruct (genesis_batch (ch_db x1) g (cc_chain_id (ch_config x1))) as [Ht Hmeta]; [|done|].
  { intros cf k Hcf. by rewrite Hs, Hd. }
  split; [done| |].
  - by exists g, g.
  - exists g. by split_and!.
Qed.

(** A restart reads the chain back. *)
Definition rows_sized (d : Database) : Prop := forall k v,
  k = GENESIS_HASH \/ k = LATEST_STATE_ROOT -> db_get d METADATA k = Some v -> length v = 32%nat.

Lemma sized_ok n bs : length bs = n -> sized n bs = Some bs.
Proof. unfold sized. intros <-. by rewrite Nat.eqb_refl. Qed.

Lemma check_chain_id_ok (x : CH) v : db_get (ch_db x) METADATA CHAIN_ID = Some (to_le 8 v) -> in_u 64 v ->
  cc_chain_id (ch_config x) = v -> check_chain_id x = (Ok tt, x).
Proof.
  intros Hid Hv Hc. unfold check_chain_id. rewrite Hid, length_to_le, from_to_le, Hc. unfold in_u in Hv.
  rewrite Z.mod_small by lia. by rewrite Z.eqb_refl.
Qed.

Lemma quiet_restored (x : CH) : quiet x (let '(restored, y) := load_validator_checkpoint x in
  if restored : bool then y else register_genesis_validators y).
Proof.
  unfold load_validator_checkpoint. destruct (load_latest_checkpoint _); [apply quiet_consensus|].
  unfold register_genesis_validators. case_match; [apply quiet_refl|apply quiet_consensus].
Qed.

Lemma load_head_ok (x : CH) canon b :
  tables_ok (ch_db x) canon (length canon) -> last canon = Some b ->
  db_get (ch_db x) METADATA LATEST_BLOCK_NUMBER = Some (to_le 8 (number b)) ->
  load_head x = (Ok tt, set_ch_head (mkSealedBlock (block_hash b) b) x).
Proof.
  intros Htab Hl Hm. rewrite last_lookup in Hl. destruct (tk_canon _ _ _ Htab _ _ Hl) as [Hn Hs].
  pose proof (canon_u64 _ _ _ _ _ Htab Hl) as Hu. unfold in_u in Hu.
  unfold load_head. rewrite bind_gets, Hm, length_to_le, Nat.eqb_refl. unfold look, bind.
  rewrite from_to_le, Hn, Z.mod_small by lia. by rewrite (tk_rows _ _ _ Htab _ _ Hl).
Qed.

Lemma restart_ok (x : CH) canon e :
  chain_ok x canon -> rows_sized (ch_db x) -> in_u 64 (cc_chain_id (ch_config x)) ->
  exists x', chain_new (ch_db x) (ch_config x) e = (Ok tt, x') /\ chain_ok x' canon /\ ch_db x' = ch_db x /\
    ch_head x' = ch_head x /\ state_root (ch_state x') = state_root (ch_state x) /\ fst (ch_finalized x') = 0.
Proof.
  intros [Htab (g & b & Hg & Hl & Hh & Hr & M1 & M2 & M3 & M4) Hf] Hsz Hcid. unfold chain_new, init_genesis.
  set (x0 := mkChain _ _ _ _ _ _ _).
  rewrite (bind_ok _ _ _ _ _ (check_chain_id_ok x0 _ M2 Hcid eq_refl)), bind_gets. change (ch_db x0) with (ch_db x). rewrite M1.
  unfold load_chain. rewrite (sized_ok 32 _ (Hsz _ _ (or_introl eq_refl) M1)). cbn [ok_or]. rewrite bind_ret, bind_modify.
  set (x1 := on_consensus _ _). rewrite (bind_ok _ _ _ _ _ (load_head_ok x1 canon b Htab Hl M3)).
  set (x2 := set_ch_head _ _). unfold restore_root. rewrite bind_modify. change (ch_db x2) with (ch_db x). rewrite M4.
  rewrite (sized_ok 32 _ (Hsz _ _ (or_intror eq_refl) M4)). unfold modify. set (x3 := set_ch_state _ x2).
  pose proof (quiet_restored x3) as Hq. eexists. split; [reflexivity|].
  assert (Hok : chain_ok x3 canon).
  { split; [done|exists g, b; by split_and!|]. exists g. by split_and!. }
  split; [by eapply quiet_ok|]. destruct Hq as (_ & H1 & H2 & H3 & _). rewrite H1, H2, H3, Hh, Hr. split; [|done].
  unfold load_validator_checkpoint, register_genesis_validators. by repeat case_match; simplify_eq/=.
Qed.

(** ** The life of a node *)

(** What a running node does with its chain; the consensus engine is shared
    with the rest of the node and may change at any time. *)
Inductive running : CH -> CH -> Prop :=
| run_import x now b : 0 < number b -> running x (snd (import_block evm_create evm_call now b x))
| run_store x now b : 0 < number b -> running x (snd (store_produced_block evm_create evm_call now b x))
| run_finalized x h hash : in_u 64 h -> running x (record_finalized h hash x)
| run_consensus x f : running x (on_consensus f x)
| run_sink x sink : running x (set_reorg_tx_sink sink x).

(** A node starts on a fresh database, runs, and restarts on its own. *)
Inductive reachable : CH -> Prop :=
| reach_new d c e x : fresh d -> chain_new d c e = (Ok tt, x) -> reachable x
| reach_run x x' : reachable x -> running x x' -> reachable x'
| reach_restart x e r x' :
    reachable x -> rows_sized (ch_db x) -> in_u 64 (cc_chain_id (ch_config x)) ->
    chain_new (ch_db x) (ch_config x) e = (r, x') -> reachable x'.

Lemma ht_end {A} f0 prefix canon (m : CM A) x :
  ht f0 prefix (Inv f0 prefix canon) m (fun _ => J f0 prefix) -> Inv f0 prefix canon x -> J f0 prefix (snd (m x)).
Proof. intros Hm Hx. specialize (Hm x Hx). by destruct (m x) as [[] x']. Qed.

Lemma running_inv f0 prefix x x' : running x x' -> J f0 prefix x -> J f0 prefix x'.
Proof.
  intros Hr [canon Hinv]. destruct Hr as [x now b Hb|x now b Hb|x h hash Hh|x f|x sink].
  - eapply ht_end; [by eapply ht_import|done].
  - eapply ht_end; [by eapply ht_store_produced|done].
  - exists canon. by apply inv_finalized.
  - exists canon. by eapply (proj1 (stable_inv f0 prefix canon)); [apply quiet_consensus|].
  - exists canon. by eapply (proj1 (stable_inv f0 prefix canon)); [|done].
Qed.

Lemma reachable_chain_ok x : reachable x -> exists canon, chain_ok x canon.
Proof.
  induction 1 as [d c e x Hd Hnew|x x' _ [canon Hok] Hrun|x e r x' _ [canon Hok] Hsz Hid Hnew].
  - unfold chain_new, init_genesis in Hnew. apply bind_inv_ok in Hnew as ([] & y & Hid & Hnew).
    assert (y = mkChain (state_new d) e c None None (0, Hash_ZERO) None) as ->.
    { unfold check_chain_id in Hid. repeat case_match; simplify_eq; done. }
    rewrite bind_gets in Hnew. change (ch_db _) with d in Hnew. rewrite (proj2 Hd) in Hnew.
    edestruct create_chain_ok as [g Hg]; [|exact Hnew|by exists [g]]. exact Hd.
  - destruct (running_inv 0 (take 1 canon) x x' Hrun) as (canon' & Hok' & _); [exists canon; split_and!; [done..|lia]|].
    by exists canon'.
  - destruct (restart_ok x canon e Hok Hsz Hid) as (x1 & E1 & Hx1 & _). exists canon. congruence.
Qed.

(** What a node serves is the list [canon]. *)
Record served (x : CH) (canon : list Block) : Prop := {
  sv_blocks n : in_u 64 n -> get_block_by_number (ch_db x) n = Ok (canon !! Z.to_nat n);
  sv_number n b : canon !! n = Some b -> number b = Z.of_nat n;
  sv_link n b b' : canon !! n = Some b -> canon !! S n = Some b' -> parent_hash_of b' = block_hash b;
  sv_hash n b : canon !! n = Some b -> get_block_by_hash (ch_db x) (block_hash b) = Ok (Some b);
  sv_head : exists b, last canon = Some b /\ ch_head x = Some (mkSealedBlock (block_hash b) b) /\
    state_root (ch_state x) = state_root_of b;
  sv_final : 0 <= fst (ch_finalized x) < Z.of_nat (length canon) /\
    is_canonical (ch_db x) (snd (ch_finalized x)) (fst (ch_finalized x)) = Ok true;
}.

Lemma served_ok x canon : chain_ok x canon -> served x canon.
Proof.
  intros [Htab (g & b & Hg & Hl & Hh & Hr & _) (fb & Hfb & Hfh & Hf0)]. split.
  - intros n Hn. unfold in_u in Hn. rewrite <- (Z2Nat.id n) at 1 by lia.
    destruct (canon !! Z.to_nat n) as [c|] eqn:Ec; [by apply (tk_rows _ _ _ Htab)|].
    apply lookup_ge_None in Ec. apply (tk_none _ _ _ Htab); [done..|unfold in_u; lia].
  - intros n c Hc. by apply (tk_canon _ _ _ Htab).
  - apply (tk_link _ _ _ Htab).
  - intros n c Hc. eapply get_stored; [done|]. by eapply (tk_canon _ _ _ Htab).
  - by exists b.
  - pose proof (canon_u64 _ _ _ _ _ Htab Hfb) as Hu. apply lookup_lt_Some in Hfb as Hlt. split; [lia|].
    rewrite (is_canonical_spec _ canon) by (done || (unfold in_u in *; lia)). by rewrite Hfb, bool_decide_eq_true_2.
Qed.

(** C8 (invariant): whatever a node does with its chain -- start on a fresh
    database, import blocks of any shape from anywhere, reorganise, store the
    blocks it produced, record finality, restart, failed operations included --
    it serves one list of blocks: numbered from 0 without gaps, each the child
    of the one before, found by number and by hash, nothing above the head; the
    head is its last block, the live state stands at the head's root, and the
    finalised block is on it. *)
Theorem chain_stays_linked x : reachable x -> exists canon, served x canon.
Proof. intros [canon Hok]%reachable_chain_ok. exists canon. by apply served_ok. Qed.

(** C9 (safety): a finalised block and everything below it never change: no
    sequence of imports, reorganisations, produced blocks or finalisations of a
    running node alters what it serves at or below the finalised height. *)
Theorem finalized_never_reorged x x' n :
  reachable x -> rtc running x x' -> 0 <= n <= fst (ch_finalized x) ->
  exists b, get_block_by_number (ch_db x) n = Ok (Some b) /\ get_block_by_number (ch_db x') n = Ok (Some b).
Proof.
  intros [canon Hok]%reachable_chain_ok Hrun Hn. set (f := Z.to_nat (fst (ch_finalized x))).
  assert (HJ : J f (take (S f) canon) x) by (exists canon; split_and!; [done..|unfold f; lia]).
  assert (HJ' : J f (take (S f) canon) x').
  { clear Hok Hn. subst f. revert HJ. generalize (Z.to_nat (fst (ch_finalized x))), (take (S (Z.to_nat (fst (ch_finalized x)))) canon).
    induction Hrun as [|x y z Hxy _ IH]; intros f l Hl; [done|]. apply IH. by eapply running_inv. }
  destruct HJ' as (canon' & Hok' & Hp & _). destruct (served_ok _ _ Hok) as [S1 _ _ _ _ [Sf _]].
  destruct (lookup_lt_is_Some_2 canon (Z.to_nat n)) as [b Hb]; [lia|].
  pose proof (canon_u64 _ _ _ _ _ (co_tables _ _ Hok) Hb) as Hu. rewrite Z2Nat.id in Hu by lia.
  exists b. rewrite S1, Hb by done. split; [done|]. rewrite (sv_blocks _ _ (served_ok _ _ Hok')) by done.
  f_equal. rewrite <- Hb. rewrite <- (lookup_take_lt canon' (S f)), <- (lookup_take_lt canon (S f)) by lia. by rewrite Hp.
Qed.

(** C39 (roundtrip): a node that restarts on its database finds the chain it
    left: the same head, the live state at the same root, the same blocks; only
    the finalised height starts again at genesis. *)
Theorem restart_restores x e :
  reachable x -> rows_sized (ch_db x) -> in_u 64 (cc_chain_id (ch_config x)) ->
  exists x' g, chain_new (ch_db x) (ch_config x) e = (Ok tt, x') /\ ch_head x' = ch_head x /\
    state_root (ch_state x') = state_root (ch_state x) /\
    (forall n, get_block_by_number (ch_db x') n = get_block_by_number (ch_db x) n) /\
    get_block_by_number (ch_db x) 0 = Ok (Some g) /\ ch_finalized x' = (0, block_hash g).
Proof.
  intros [canon Hok]%reachable_chain_ok Hsz Hid. destruct (restart_ok x canon e Hok Hsz Hid) as (x' & E & Hok' & Hdb & Hh & Hr & Hf).
  destruct (co_final _ _ Hok') as (g & Hg & Hgh & _). rewrite Hf in Hg. exists x', g. split_and!; try done.
  - intros n. by rewrite Hdb.
  - by rewrite (sv_blocks _ _ (served_ok _ _ Hok)), <- Hg.
  - rewrite (surjective_pairing (ch_finalized x')). congruence.
Qed.
End life.

(** ** The small chain *)

Section examples.
#[local] Existing Instances small_blake3 small_blake3_ok toy_ed25519 raw_hex raw_decode node_code account_code no_legacy
  undelegation_code header_borsh header_borsh_ok body_code body_code_ok block_code block_code_ok transaction_code
  unsigned_code no_receipts inference_borsh validator_borsh checkpoint_borsh evidence_borsh.
Abbreviation reach := (reachable no_evm_create no_evm_call).

Lemma started_reachable i : fst (chain_new (∅ : RocksMap) small_config (small_engine i) : _ * Chain (C:=Lru.t)) = Ok tt -> reach (started i).
Proof.
  intros Hi. eapply reach_run; [|apply run_consensus]. eapply (reach_new _ _ (∅ : RocksMap)); [by split|].
  rewrite (surjective_pairing (chain_new _ _ _)), Hi. reflexivity.
Qed.

Lemma imports_reachable t b x : 0 < number b -> reach x -> reach (imports t b x).
Proof. intros Hb Hx. exact (reach_run _ _ _ _ Hx (run_import _ _ x t b Hb)). Qed.
Lemma stores_reachable t b x : 0 < number b -> reach x -> reach (stores t b x).
Proof. intros Hb Hx. exact (reach_run _ _ _ _ Hx (run_store _ _ x t b Hb)). Qed.

Lemma forked_reachable : reach forked.
Proof.
  apply imports_reachable; [apply Z.ltb_lt; vm_compute; reflexivity|].
  apply imports_reachable; [apply Z.ltb_lt; vm_compute; reflexivity|].
  apply stores_reachable; [apply Z.ltb_lt; vm_compute; reflexivity|].
  apply started_reachable. vm_compute. reflexivity.
Qed.

Lemma chain_stays_linked_witness : exists canon, served forked canon.
Proof. apply (chain_stays_linked no_evm_create no_evm_call forked), forked_reachable. Defined.

Lemma finalized_never_reorged_witness : exists b,
  get_block_by_number (ch_db settled) 2 = Ok (Some b) /\ get_block_by_number (ch_db (attacked settled)) 2 = Ok (Some b).
Proof.
  apply (finalized_never_reorged no_evm_create no_evm_call settled (attacked settled) 2).
  - exact (reach_run _ _ _ _ forked_reachable (run_finalized _ _ forked 2 (block_hash c2) ltac:(by_decide))).
  - eapply rtc_l; [apply (run_import _ _ settled (at_slot 5) a2); apply Z.ltb_lt; vm_compute; reflexivity|].
    eapply rtc_once, (run_import _ _ (imports (at_slot 5) a2 settled) (at_slot 6) a3). apply Z.ltb_lt; vm_compute; reflexivity.
  - split; apply Z.leb_le; vm_compute; reflexivity.
Defined.

Lemma restart_restores_witness : exists x' g,
  chain_new (ch_db (started 3)) (ch_config (started 3)) (small_engine 1) = (Ok tt, x') /\ ch_head x' = ch_head (started 3) /\
  ch_finalized x' = (0, block_hash g).
Proof.
  destruct (restart_restores no_evm_create no_evm_call (started 3) (small_engine 1)) as (x' & g & H1 & H2 & _ & _ & _ & H3).
  - apply started_reachable. vm_compute. reflexivity.
  - intros k v [->| ->] Hv; vm_compute in Hv; by injection Hv as <-.
  - by_decide.
  - exists x', g. exact (conj H1 (conj H2 H3)).
Defined.
End examples.
