(* ===== verification/ChainReads.v ===== *)
(** * Walking back over the stored blocks

    The two walks over parents in the chain: the search of a reorganisation for
    the common ancestor, which ends at a canonical block on every stored
    branch, and the cached lookup behind BLOCKHASH, which answers with the
    ancestors of the block it starts from. *)

From S2P Require Import Prelude Float64 Externals Codec Nibbles Storage Trie Types Crypto Blocks Receipts.
From S2P Require Import StateDB StateOps Executor Engine EngineTheory Genesis Chain ChainFrame ChainTheory ChainInv.
From S2P Require Import EngineProps ChainExample ChainProps.

Section walks.
Context `{B : Blake3} {BC : CollisionFree B} `{ED : Ed25519} `{HX : HexCrate} `{HD : HexDecode}.
Context `{BN : Borsh TrieNode} `{BA : Borsh Account} `{BL : Borsh LegacyAccount} `{BU : Borsh Undelegation}.
Context `{BH : Borsh BlockHeader} {BHok : BorshOk BlockHeader} `{BB : Borsh BlockBody} {BBok : BorshOk BlockBody}
  `{BK : Borsh Block} {BKok : BorshOk Block} `{BX : Borsh Transaction}
  `{BT : Borsh UnsignedTransaction} `{BR : Borsh Receipt} `{BI : Borsh UnsignedInferenceProof}.
Context `{BV : Borsh ValidatorNode} `{BP : Borsh ValidatorCheckpoint} `{BE : Borsh DoubleSignEvidence}.
Context {C : Type -> Type -> Type} `{LC : LruCache C}.
Context {Database : Type} `{RK : RocksDB Database} {RKok : RocksOk Database}.
Abbreviation SDB := (StateDB C Database).
Context (evm_create : Executor -> Address -> Address -> bytes -> Z -> Z -> ST SDB ExecutorError EvmResult).
Context (evm_call : Executor -> Address -> Address -> Address -> bytes -> Z -> Z -> ST SDB ExecutorError EvmResult).
Context {EK : EvmKeeps evm_create evm_call}.
Abbreviation CH := (Chain (C:=C) (Database:=Database)).
Abbreviation CM A := (ST CH ChainError A).



(** The blocks from genesis to a stored block, by number. *)
Record lineage (d : Database) (l : list Block) : Prop := {
  ln_number n b : l !! n = Some b -> number b = Z.of_nat n;
  ln_stored n b : l !! n = Some b -> stored d (block_hash b) b;
  ln_link n b b' : l !! n = Some b -> l !! S n = Some b' -> parent_hash_of b' = block_hash b;
}.

Lemma lineage_snoc d l p b :
  lineage d l -> last l = Some p -> parent_hash_of b = block_hash p -> number b = number p + 1 -> stored d (block_hash b) b ->
  lineage d (l ++ [b]).
Proof.
  intros [H1 H2 H3] Hp Hpar Hn Hs. rewrite last_lookup in Hp. pose proof (H1 _ _ Hp) as Hpn. apply lookup_lt_Some in Hp as Hlt.
  split.
  - intros n c [Hc|[Hlen Hc]]%lookup_app_Some; [eauto|]. apply list_lookup_singleton_Some in Hc as [Hz <-]. lia.
  - intros n c [Hc|[Hlen Hc]]%lookup_app_Some; [eauto|]. by apply list_lookup_singleton_Some in Hc as [_ <-].
  - intros n c c' Hc [Hc'|[Hlen Hc']]%lookup_app_Some.
    + rewrite lookup_app_l in Hc by (apply lookup_lt_Some in Hc'; lia). eauto.
    + apply list_lookup_singleton_Some in Hc' as [Hz <-]. rewrite lookup_app_l in Hc by lia.
      assert (n = pred (length l)) as -> by lia. congruence.
Qed.

Lemma lineage_of d canon H b :
  tables_ok d canon H -> stored d (block_hash b) b -> exists l, lineage d l /\ last l = Some b.
Proof.
  intros Hok. remember (Z.to_nat (number b)) as k eqn:Ek. revert b Ek. induction k as [k IH] using lt_wf_ind. intros b -> Hs.
  destruct (tk_stored _ _ _ Hok _ _ Hs) as (b' & Hb%to_vec_inj & _ & Hu & [Hg|(p & Hp & Hn)]); rewrite <- Hb in *.
  - exists [b]. split; [|done]. destruct (tk_canon _ _ _ Hok _ _ Hg) as [Hn _]. split.
    + intros n c Hc. by apply list_lookup_singleton_Some in Hc as [-> <-].
    + intros n c Hc. by apply list_lookup_singleton_Some in Hc as [-> <-].
    + by intros n c c' Hc Hc'.
  - destruct (tk_stored _ _ _ Hok _ _ Hp) as (p' & Hp'%to_vec_inj & Hph & Hpu & _). rewrite <- Hp' in *.
    unfold in_u in *. destruct (IH (Z.to_nat (number p)) ltac:(lia) p eq_refl) as (l & Hl & Hlast); [by rewrite Hph|].
    exists (l ++ [b]). split; [|by rewrite last_snoc]. by eapply lineage_snoc.
Qed.

(** ** BLOCKHASH *)

(** Cached heights are right. *)
Definition visited_ok (l : list Block) (v : gmap Z Hash) : Prop :=
  forall n h, v !! n = Some h -> 0 <= n /\ block_hash <$> l !! Z.to_nat n = Some h.

Lemma walk_back_ok d l m b wanted v fuel :
  lineage d l -> l !! m = Some b -> 0 <= wanted -> (m < fuel)%nat -> visited_ok l v ->
  exists v', walk_back fuel d (block_hash b) wanted v =
    (if decide (wanted <= Z.of_nat m) then block_hash <$> l !! Z.to_nat wanted else None, v') /\ visited_ok l v'.
Proof.
  intros Hl Hb Hw. revert m b v Hb. induction fuel as [|fuel IH]; intros m b v Hb Hf Hv; [lia|]. cbn [walk_back].
  pose proof (ln_stored _ _ Hl _ _ Hb) as Hs. unfold stored in Hs. rewrite Hs. simpl. rewrite from_slice_to_vec.
  rewrite (ln_number _ _ Hl _ _ Hb).
  assert (Hv' : visited_ok l (<[Z.of_nat m := block_hash b]> v)).
  { intros n h [[<- <-]|[_ Hn]]%lookup_insert_Some; [|by apply Hv]. rewrite Nat2Z.id, Hb. split; [lia|done]. }
  destruct (Z.eqb_spec (Z.of_nat m) wanted) as [<-|Hne].
  { rewrite decide_True, Nat2Z.id, Hb by lia. eexists. by split. }
  destruct (Z.ltb_spec (Z.of_nat m) wanted) as [Hlt|Hge]; [rewrite decide_False by lia; by eexists|]. cbn [orb].
  destruct (Z.eqb_spec (Z.of_nat m) 0) as [Hz|Hz]; [lia|]. rewrite (decide_True (P := wanted <= Z.of_nat m)) by lia.
  destruct m as [|m]; [lia|]. destruct (lookup_lt_is_Some_2 l m) as [p Hp]; [apply lookup_lt_Some in Hb; lia|].
  rewrite (ln_link _ _ Hl _ _ _ Hp Hb). destruct (IH m p _ Hp ltac:(lia) Hv') as (v2 & E & H2).
  rewrite decide_True in E by lia. by exists v2.
Qed.

(** A sequence of lookups from one block, through the cache. *)
Fixpoint lookups (fuel : nat) (d : Database) (start : Hash) (wanted : list Z) (guard : Visited) : list (option Hash) :=
  match wanted with
  | [] => []
  | w :: wanted' =>
    let (r, guard') := block_hash_lookup fuel d start w guard in r :: lookups fuel d start wanted' guard'
  end.

Lemma lookups_ok d l b wanted guard :
  lineage d l -> last l = Some b -> Forall (fun w => 0 <= w) wanted ->
  (fst guard = Some (block_hash b) -> visited_ok l (snd guard)) ->
  lookups (S (Z.to_nat (number b))) d (block_hash b) wanted guard = map (fun w => block_hash <$> l !! Z.to_nat w) wanted.
Proof.
  intros Hl Hb Hw. rewrite last_lookup in Hb. pose proof (ln_number _ _ Hl _ _ Hb) as Hn. revert guard.
  induction Hw as [|w wanted Hw _ IH]; intros guard Hg; [done|]. cbn [lookups map]. unfold block_hash_lookup.
  set (v := if decide _ then _ else _). assert (Hv : visited_ok l v).
  { unfold v. case_decide; [auto|]. intros n h. by rewrite lookup_empty. }
  destruct (v !! w) as [h|] eqn:Eh.
  - destruct (Hv w h Eh) as [_ ->]. f_equal. by apply IH.
  - destruct (walk_back_ok d l _ b w v (S (Z.to_nat (number b))) Hl Hb Hw ltac:(lia) Hv) as (v' & -> & Hv').
    f_equal; [|by apply IH]. case_decide as Hd; [done|]. symmetry. apply fmap_None, lookup_ge_None.
    apply lookup_lt_Some in Hb. lia.
Qed.

(** BLOCKHASH sees the ancestors of its own block. On a
    reachable chain every stored block, canonical or on a side branch, has one
    list of ancestors back to genesis, and any sequence of lookups from it,
    answered from the shared cache or by a walk, gives at every height the hash
    of the ancestor there, and nothing above it. *)
Theorem blockhash_exact x b :
  reachable evm_create evm_call x -> get_block_by_hash (ch_db x) (block_hash b) = Ok (Some b) ->
  exists l, lineage (ch_db x) l /\ last l = Some b /\ forall wanted, Forall (fun w => 0 <= w) wanted ->
    lookups (S (Z.to_nat (number b))) (ch_db x) (block_hash b) wanted (None, ∅) =
      map (fun w => block_hash <$> l !! Z.to_nat w) wanted.
Proof.
  intros Hx Hb. destruct (reachable_chain_ok evm_create evm_call x Hx) as [canon [Htab _ _]].
  destruct (get_block_by_hash_spec _ _ _ (block_hash b) Htab) as [(b' & E & Hs & _)|[E _]]; rewrite Hb in E; [injection E as <-|done].
  destruct (lineage_of _ _ _ _ Htab Hs) as (l & Hl & Hlast). exists l. split_and!; [done|done|].
  intros wanted Hw. by apply lookups_ok.
Qed.

(** ** The common ancestor *)

(** The search for the common ancestor ends. From every
    stored block of a reachable chain the loop over parents stops after at most
    as many steps as the block's number, at a block of the canonical chain, and
    has collected the blocks above it, newest first, none of them canonical. *)
Theorem reorg_walk_ends x tip :
  reachable evm_create evm_call x -> get_block_by_hash (ch_db x) (block_hash tip) = Ok (Some tip) ->
  exists branch a, collect_branch (branch_fuel tip) (ch_db x) (block_hash tip) tip [] = Ok (branch, a) /\
    get_block_by_number (ch_db x) (number a) = Ok (Some a) /\ number tip = number a + Z.of_nat (length branch) /\
    Forall (fun '(h, b) => h = block_hash b /\ is_canonical (ch_db x) h (number b) = Ok false) branch.
Proof.
  intros Hx Hb. destruct (reachable_chain_ok evm_create evm_call x Hx) as [canon [Htab _ _]].
  destruct (get_block_by_hash_spec _ _ _ (block_hash tip) Htab) as [(b' & E & Hs & _)|[E _]]; rewrite Hb in E; [injection E as <-|done].
  destruct (collect_branch_spec (ch_db x) canon (branch_fuel tip) tip [] Htab Hs) as (br & a & E2 & [k Ha] & Hbr & Hlk & Hd).
  { unfold branch_fuel. lia. }
  exists br, a. split; [done|]. destruct (tk_canon _ _ _ Htab _ _ Ha) as [Hka _]. split_and!.
  - rewrite Hka. by apply (tk_rows _ _ _ Htab).
  - rewrite <- Hd, (linked_number _ _ _ Hlk), length_rev, length_map. done.
  - rewrite !Forall_forall in *. intros [h c] Hin. destruct (Hbr _ Hin) as [Hh Hnc]. simpl in *. split; [done|].
    assert (Hsc : stored (ch_db x) (block_hash c) c).
    { eapply linked_stored; [exact Hlk|]. rewrite <- Permutation_rev. apply list_elem_of_fmap. by exists (h, c). }
    destruct (tk_stored _ _ _ Htab _ _ Hsc) as (c' & Hc'%to_vec_inj & _ & Hu & _). rewrite <- Hc' in Hu.
    rewrite (is_canonical_spec _ canon) by done. f_equal. destruct (canon !! Z.to_nat (number c)) as [q|] eqn:Eq; [|done].
    apply bool_decide_eq_false. intros Heq. apply Hnc. exists (Z.to_nat (number c)). rewrite Eq. f_equal.
    destruct (tk_canon _ _ _ Htab _ _ Eq) as [_ Hsq]. rewrite Heq, Hh in Hsq. by eapply stored_inj.
Qed.
End walks.

Section examples.
#[local] Existing Instances small_blake3 small_blake3_ok toy_ed25519 raw_hex raw_decode node_code account_code no_legacy
  undelegation_code header_borsh header_borsh_ok body_code body_code_ok block_code block_code_ok transaction_code
  unsigned_code no_receipts inference_borsh validator_borsh checkpoint_borsh evidence_borsh.

(** The abandoned block of the fork is still an ancestor of nothing but itself. *)
Lemma blockhash_exact_witness : exists l, lineage (ch_db forked) l /\ last l = Some a1.
Proof.
  destruct (blockhash_exact no_evm_create no_evm_call forked a1 forked_reachable) as (l & Hl & Hlast & _).
  - vm_compute. reflexivity.
  - exists l. exact (conj Hl Hlast).
Defined.

Lemma reorg_walk_ends_witness : exists branch a,
  collect_branch (branch_fuel a1) (ch_db forked) (block_hash a1) a1 [] = Ok (branch, a) /\
  number a1 = number a + Z.of_nat (length branch).
Proof.
  destruct (reorg_walk_ends no_evm_create no_evm_call forked a1 forked_reachable) as (br & a & E & _ & Hn & _).
  - vm_compute. reflexivity.
  - exists br, a. exact (conj E Hn).
Defined.
End examples.
