(* ===== verification/QvmMemory.v ===== *)
(** * Values and memory of the QVM (src/crates/qfc-qvm/src: value.rs, memory.rs)

    The virtual machine of QuantumScript. A value is a tagged union; the machine
    has an operand stack of bounded depth, call frames with local variables, a
    linear memory of at most 1 MB, the slots of contract storage with their
    original values, and a heap of boxed values. [H256] and [H160] are byte
    lists; [usize] is 64 bits wide. A [String] is its UTF-8 bytes. *)

From S2P Require Import Prelude Externals.

(** ** Values (value.rs) *)

Inductive ValueRef :=
| RefLocal (i : Z)
| RefStorage (slot : bytes)
| RefMemory (offset : Z)
| RefField (r : ValueRef) (name : bytes)
| RefIndex (r : ValueRef) (i : Z).

#[export] Instance ValueRef_eq_dec : EqDecision ValueRef.
Proof. solve_decision. Defined.

Inductive Value :=
| VU256 (n : Z)
| VBool (b : bool)
| VAddress (a : bytes)
| VBytes32 (h : bytes)
| VBytes (b : bytes)
| VString (s : bytes)
| VTuple (vs : list Value)
| VArray (vs : list Value)
| VStruct (type_name : bytes) (fields : list (bytes * Value))
| VResource (type_name : bytes) (fields : list (bytes * Value)) (id : Z)
| VRef (r : ValueRef)
| VRefMut (r : ValueRef)
| VUnit
| VNone.

(** The derived [PartialEq]. *)
Fixpoint value_eqb (a b : Value) {struct a} : bool :=
  let list_eqb := fix go (l l' : list Value) {struct l} : bool :=
    match l, l' with
    | [], [] => true
    | x :: l, y :: l' => value_eqb x y && go l l'
    | _, _ => false
    end in
  let fields_eqb := fix go (l l' : list (bytes * Value)) {struct l} : bool :=
    match l, l' with
    | [], [] => true
    | (n, x) :: l, (m, y) :: l' => bool_decide (n = m) && value_eqb x y && go l l'
    | _, _ => false
    end in
  match a, b with
  | VU256 n, VU256 m => n =? m
  | VBool p, VBool q => Bool.eqb p q
  | VAddress x, VAddress y | VBytes32 x, VBytes32 y | VBytes x, VBytes y | VString x, VString y => bool_decide (x = y)
  | VTuple l, VTuple l' | VArray l, VArray l' => list_eqb l l'
  | VStruct t l, VStruct t' l' => bool_decide (t = t') && fields_eqb l l'
  | VResource t l i, VResource t' l' i' => bool_decide (t = t') && fields_eqb l l' && (i =? i')
  | VRef r, VRef r' | VRefMut r, VRefMut r' => bool_decide (r = r')
  | VUnit, VUnit | VNone, VNone => true
  | _, _ => false
  end.

Definition value_from_u64 (n : Z) : Value := VU256 n.
Definition value_zero : Value := VU256 0.
Definition is_truthy (v : Value) : bool :=
  match v with
  | VBool b => b
  | VU256 n => negb (n =? 0)
  | VUnit | VNone => false
  | VBytes b | VString b => negb (bool_decide (b = []))
  | VArray a => match a with [] => false | _ => true end
  | _ => true
  end.
Definition type_name (v : Value) : string :=
  match v with
  | VU256 _ => "u256" | VBool _ => "bool" | VAddress _ => "address" | VBytes32 _ => "bytes32" | VBytes _ => "bytes"
  | VString _ => "string" | VTuple _ => "tuple" | VArray _ => "array" | VStruct _ _ => "struct"
  | VResource _ _ _ => "resource" | VRef _ => "ref" | VRefMut _ => "ref_mut" | VUnit => "()" | VNone => "none"
  end.
Definition as_u256 (v : Value) : option Z :=
  match v with VU256 n => Some n | VBool b => Some (if b then 1 else 0) | _ => None end.
Definition as_bool (v : Value) : option bool :=
  match v with VBool b => Some b | VU256 n => Some (negb (n =? 0)) | _ => None end.

Definition as_address (v : Value) : option bytes :=
  match v with VAddress a => Some a | VU256 n => Some (drop 12 (to_be 32 n)) | _ => None end.
Definition as_bytes (v : Value) : option bytes :=
  match v with VBytes b => Some b | VBytes32 h => Some h | _ => None end.

Definition H256_zero : bytes := replicate 32 0.
Definition H160_zero : bytes := replicate 20 0.

(** Types of values. *)
Inductive ResourceAbility := AbCopy | AbDrop | AbStore | AbKey.
Inductive ValueType :=
| TU256 | TU128 | TU64 | TU32 | TU16 | TU8 | TI256 | TI128 | TI64 | TI32 | TI16 | TI8
| TBool | TAddress | TBytes32 | TBytes | TString
| TTuple (types : list ValueType)
| TArray (elem : ValueType) (len : Z)
| TSlice (elem : ValueType)
| TStruct (name : bytes)
| TResource (name : bytes) (abilities : list ResourceAbility)
| TRef (t : ValueType)
| TRefMut (t : ValueType)
| TUnit | TNever.

(** Bytes in the storage layout; the sum and the product are on [usize]. *)
Fixpoint storage_size (t : ValueType) : Z :=
  match t with
  | TU256 | TI256 | TBytes32 => 32
  | TU128 | TI128 => 16
  | TU64 | TI64 => 8
  | TU32 | TI32 => 4
  | TU16 | TI16 => 2
  | TU8 | TI8 | TBool => 1
  | TAddress => 20
  | TTuple types => foldl (fun acc n => u64_add acc n) 0 (map storage_size types)
  | TArray elem len => u64_mul (storage_size elem) len
  | _ => 32
  end.

(** The slot of a value in storage, and back by its type. *)
Definition to_slot (v : Value) : bytes :=
  match v with
  | VU256 n => to_be 32 n
  | VBool b => replicate 31 0 ++ [if b then 1 else 0]
  | VAddress a => replicate 12 0 ++ a
  | VBytes32 h => h
  | _ => H256_zero
  end.
Definition from_slot (slot : bytes) (ty : ValueType) : Value :=
  match ty with
  | TU256 => VU256 (from_be slot)
  | TBool => VBool (negb (default 0 (slot !! 31%nat) =? 0))
  | TAddress => VAddress (take 20 (drop 12 slot))
  | TBytes32 => VBytes32 slot
  | _ => VU256 (from_be slot)
  end.

(** ** Memory (memory.rs) *)

Inductive MemoryError :=
| StackOverflow (max : nat) | StackUnderflow | OutOfMemory (requested available : Z) | InvalidAccess (offset : Z)
| LocalOutOfBounds (index max : Z) | AllocationFailed.

Definition MAX_STACK_DEPTH : nat := 1024.
Definition MAX_MEMORY_SIZE : Z := 1024 * 1024.
Definition MAX_LOCALS : Z := 256.

Abbreviation MR A := (Result MemoryError A).

(** The operand stack, its top first. *)
Module Stack.
Record t := mk { values : list Value; max_depth : nat }.
Definition with_max_depth (max_depth : nat) : t := mk [] max_depth.
Definition new : t := with_max_depth MAX_STACK_DEPTH.
Definition clear (s : t) : t := mk [] (max_depth s).
Definition push (v : Value) (s : t) : MR t :=
  if (max_depth s <=? length (values s))%nat then Err (StackOverflow (max_depth s)) else Ok (mk (v :: values s) (max_depth s)).
Definition pop (s : t) : MR (Value * t) :=
  match values s with [] => Err StackUnderflow | v :: l => Ok (v, mk l (max_depth s)) end.
Definition peek_at (depth : nat) (s : t) : MR Value :=
  match values s !! depth with Some v => Ok v | None => Err StackUnderflow end.
Definition peek (s : t) : MR Value := peek_at 0 s.
Definition dup_at (depth : nat) (s : t) : MR t :=
  match peek_at depth s with Ok v => push v s | Err e => Err e | Panic => Panic | NoFuel => NoFuel end.
Definition dup (s : t) : MR t := dup_at 0 s.
Definition swap_at (depth : nat) (s : t) : MR t :=
  match values s !! 0%nat, values s !! depth with
  | Some a, Some b => Ok (mk (<[0%nat := b]> (<[depth := a]> (values s))) (max_depth s))
  | _, _ => Err StackUnderflow
  end.
Definition swap (s : t) : MR t := swap_at 1 s.
(** The oldest of the popped values comes first. *)
Definition pop_n (n : nat) (s : t) : MR (list Value * t) :=
  if (length (values s) <? n)%nat then Err StackUnderflow
  else Ok (rev (take n (values s)), mk (drop n (values s)) (max_depth s)).
End Stack.

Module Frame.
Record t := mk {
  function : bytes;
  pc : Z;
  locals : list Value;
  stack_base : Z;
  return_pc : Z;
  is_constructor : bool;
  gas_limit : Z;
  gas_used : Z;
}.
Definition new (f : bytes) (base : Z) : t := mk f 0 [] base 0 false (u_max 64) 0.
Definition set_pc (p : Z) (f : t) : t :=
  mk (function f) p (locals f) (stack_base f) (return_pc f) (is_constructor f) (gas_limit f) (gas_used f).
Definition set_locals (l : list Value) (f : t) : t :=
  mk (function f) (pc f) l (stack_base f) (return_pc f) (is_constructor f) (gas_limit f) (gas_used f).
Definition get_local (i : Z) (f : t) : MR Value :=
  match locals f !! Z.to_nat i with
  | Some v => Ok v
  | None => Err (LocalOutOfBounds i (Z.of_nat (length (locals f))))
  end.
Definition set_local (i : Z) (v : Value) (f : t) : MR t :=
  if MAX_LOCALS <=? i then Err (LocalOutOfBounds i MAX_LOCALS)
  else
    let extended := locals f ++ replicate (S (Z.to_nat i) - length (locals f)) VUnit in
    Ok (set_locals (<[Z.to_nat i := v]> extended) f).
Definition use_gas (amount : Z) (f : t) : bool * t :=
  if gas_limit f <? sat_add 64 (gas_used f) amount then (false, f)
  else (true, mk (function f) (pc f) (locals f) (stack_base f) (return_pc f) (is_constructor f) (gas_limit f)
                (gas_used f + amount)).
End Frame.

Module Memory.
Record t := mk { data : bytes; max_size : Z }.
Definition with_max_size (max_size : Z) : t := mk [] max_size.
Definition new : t := with_max_size MAX_MEMORY_SIZE.
Definition clear (m : t) : t := mk [] (max_size m).
Definition size (m : t) : Z := Z.of_nat (length (data m)).
Definition expand (offset n : Z) (m : t) : MR t :=
  let required := sat_add 64 offset n in
  if max_size m <? required then Err (OutOfMemory required (max_size m))
  else if size m <? required then Ok (mk (data m ++ replicate (Z.to_nat (required - size m)) 0) (max_size m))
  else Ok m.
Definition read (offset n : Z) (m : t) : MR bytes :=
  if size m <? sat_add 64 offset n then Err (InvalidAccess offset)
  else Ok (take (Z.to_nat n) (drop (Z.to_nat offset) (data m))).
Definition splice (offset : nat) (bs d : bytes) : bytes := take offset d ++ bs ++ drop (offset + length bs) d.
Definition write (offset : Z) (bs : bytes) (m : t) : MR t :=
  match expand offset (Z.of_nat (length bs)) m with
  | Ok m' => Ok (mk (splice (Z.to_nat offset) bs (data m')) (max_size m'))
  | Err e => Err e
  | Panic => Panic
  | NoFuel => NoFuel
  end.
Definition read_u256 (offset : Z) (m : t) : MR Z :=
  match read offset 32 m with Ok bs => Ok (from_be bs) | Err e => Err e | Panic => Panic | NoFuel => NoFuel end.
Definition write_u256 (offset v : Z) (m : t) : MR t := write offset (to_be 32 v) m.
Definition read_byte (offset : Z) (m : t) : MR Z :=
  match data m !! Z.to_nat offset with Some b => Ok b | None => Err (InvalidAccess offset) end.
Definition write_byte (offset v : Z) (m : t) : MR t := write offset [v] m.
(** [src + size] wraps; a wrapped end is behind its start and panics. *)
Definition copy_within (src dst n : Z) (m : t) : MR t :=
  match expand dst n m with
  | Ok m' =>
    let e := wrap 64 (src + n) in
    if size m' <? e then Err (InvalidAccess src)
    else if e <? src then Panic
    else Ok (mk (splice (Z.to_nat dst) (take (Z.to_nat n) (drop (Z.to_nat src) (data m'))) (data m')) (max_size m'))
  | Err e => Err e
  | Panic => Panic
  | NoFuel => NoFuel
  end.
End Memory.

Module Slots.
Record t := mk { slots : gmap bytes bytes; original : gmap bytes bytes; transient : gmap bytes bytes }.
Definition new : t := mk ∅ ∅ ∅.
Definition load (k : bytes) (s : t) : bytes := default H256_zero (slots s !! k).
Definition store (k v : bytes) (s : t) : t :=
  mk (<[k := v]> (slots s))
    (match original s !! k with Some _ => original s | None => <[k := load k s]> (original s) end) (transient s).
Definition original_value (k : bytes) (s : t) : bytes := default (load k s) (original s !! k).
Definition tload (k : bytes) (s : t) : bytes := default H256_zero (transient s !! k).
Definition tstore (k v : bytes) (s : t) : t := mk (slots s) (original s) (<[k := v]> (transient s)).
Definition clear_transient (s : t) : t := mk (slots s) (original s) ∅.
(** In the order of the hash map, which the model leaves to [map_to_list]. *)
Definition get_modified (s : t) : list (bytes * bytes) := map_to_list (slots s).
Definition commit (s : t) : t := mk (slots s) ∅ (transient s).
Definition undo (e : bytes * bytes) (m : gmap bytes bytes) : gmap bytes bytes :=
  if decide (snd e = H256_zero) then delete (fst e) m else <[fst e := snd e]> m.
Definition revert (s : t) : t := mk (foldr undo (slots s) (map_to_list (original s))) ∅ (transient s).
End Slots.

Module Heap.
Record t := mk { objects : list (option Value); free_list : list nat; next_id : Z }.
Definition new : t := mk [] [] 0.
Definition alloc (v : Value) (h : t) : nat * t :=
  match free_list h with
  | i :: l => (i, mk (<[i := Some v]> (objects h)) l (next_id h))
  | [] => (length (objects h), mk (objects h ++ [Some v]) [] (next_id h))
  end.
Definition get (i : nat) (h : t) : option Value := mjoin (objects h !! i).
(** A write through the reference [get_mut] returns. *)
Definition get_mut (i : nat) (f : Value -> Value) (h : t) : option t :=
  match objects h !! i with
  | Some (Some v) => Some (mk (<[i := Some (f v)]> (objects h)) (free_list h) (next_id h))
  | _ => None
  end.
Definition free (i : nat) (h : t) : option Value * t :=
  match objects h !! i with
  | Some (Some v) => (Some v, mk (<[i := None]> (objects h)) (i :: free_list h) (next_id h))
  | _ => (None, h)
  end.
Definition next_resource_id (h : t) : Z * t := (next_id h, mk (objects h) (free_list h) (u64_add (next_id h) 1)).
End Heap.
