(* ===== verification/QvmGas.v ===== *)
(** * Instructions and gas of the QVM (src/crates/qfc-qvm/src/gas.rs, src/crates/qfc-qsc/src/codegen/mod.rs)

    The opcodes and instructions the compiler emits, the price list, and the gas
    meter: a [u64] counter with a limit, a refund and the set of warm slots. *)

From S2P Require Import Prelude QvmMemory.

(** ** Opcodes *)

Inductive Opcode :=
| OpPush | OpPop | OpDup | OpSwap
| OpAdd | OpSub | OpMul | OpDiv | OpMod | OpPow | OpNeg
| OpEq | OpNe | OpLt | OpLe | OpGt | OpGe
| OpAnd | OpOr | OpNot
| OpBitAnd | OpBitOr | OpBitXor | OpBitNot | OpShl | OpShr
| OpLoad | OpStore | OpLoadLocal | OpStoreLocal
| OpSLoad | OpSStore
| OpJump | OpJumpIf | OpJumpIfNot | OpCall | OpReturn | OpRevert
| OpAddress | OpBalance | OpCaller | OpCallValue | OpOrigin | OpGasPrice | OpBlockHash | OpCoinbase | OpTimestamp | OpBlockNumber | OpDifficulty | OpGasLimit | OpChainId | OpSelfBalance | OpGas
| OpExternalCall | OpStaticCall | OpDelegateCall | OpCreate | OpCreate2
| OpLog0 | OpLog1 | OpLog2 | OpLog3 | OpLog4
| OpKeccak256 | OpSha256 | OpRipemd160 | OpEcrecover
| OpResourceCreate | OpResourceDestroy | OpResourceMove | OpResourceCopy | OpResourceBorrow | OpResourceBorrowMut
| OpParallelStart | OpParallelEnd | OpStateRead | OpStateWrite
| OpNop | OpHalt.

#[export] Instance Opcode_eq_dec : EqDecision Opcode.
Proof. solve_decision. Defined.

(** The byte of an opcode ([#[repr(u8)]]). *)
Definition opcode_byte (o : Opcode) : Z :=
  match o with
  | OpPush => 1 | OpPop => 2 | OpDup => 3 | OpSwap => 4
  | OpAdd => 16 | OpSub => 17 | OpMul => 18 | OpDiv => 19 | OpMod => 20 | OpPow => 21 | OpNeg => 22
  | OpEq => 32 | OpNe => 33 | OpLt => 34 | OpLe => 35 | OpGt => 36 | OpGe => 37
  | OpAnd => 48 | OpOr => 49 | OpNot => 50
  | OpBitAnd => 64 | OpBitOr => 65 | OpBitXor => 66 | OpBitNot => 67 | OpShl => 68 | OpShr => 69
  | OpLoad => 80 | OpStore => 81 | OpLoadLocal => 82 | OpStoreLocal => 83
  | OpSLoad => 96 | OpSStore => 97
  | OpJump => 112 | OpJumpIf => 113 | OpJumpIfNot => 114 | OpCall => 115 | OpReturn => 116 | OpRevert => 117
  | OpAddress => 128 | OpBalance => 129 | OpCaller => 130 | OpCallValue => 131 | OpOrigin => 132 | OpGasPrice => 133 | OpBlockHash => 134 | OpCoinbase => 135 | OpTimestamp => 136 | OpBlockNumber => 137 | OpDifficulty => 138 | OpGasLimit => 139 | OpChainId => 140 | OpSelfBalance => 141 | OpGas => 142
  | OpExternalCall => 144 | OpStaticCall => 145 | OpDelegateCall => 146 | OpCreate => 147 | OpCreate2 => 148
  | OpLog0 => 160 | OpLog1 => 161 | OpLog2 => 162 | OpLog3 => 163 | OpLog4 => 164
  | OpKeccak256 => 176 | OpSha256 => 177 | OpRipemd160 => 178 | OpEcrecover => 179
  | OpResourceCreate => 192 | OpResourceDestroy => 193 | OpResourceMove => 194 | OpResourceCopy => 195 | OpResourceBorrow => 196 | OpResourceBorrowMut => 197
  | OpParallelStart => 208 | OpParallelEnd => 209 | OpStateRead => 210 | OpStateWrite => 211
  | OpNop => 254 | OpHalt => 255
  end.

Record Instruction := mkInstruction { opcode : Opcode; operand : option bytes }.

Definition instr_encode (i : Instruction) : bytes := opcode_byte (opcode i) :: default [] (operand i).

(** ** Prices *)

Inductive GasError := OutOfGas (required available : Z) | LimitExceeded (limit : Z) | InvalidCalculation.

Record GasCosts := mkGasCosts {
  g_zero : Z; g_base : Z; g_very_low : Z; g_low : Z; g_mid : Z; g_high : Z;
  memory_word : Z; memory_copy : Z;
  sload_cold : Z; sload_warm : Z; sstore_set : Z; sstore_reset : Z; sstore_clear_refund : Z;
  call_base : Z; call_value : Z; call_new_account : Z; call_stipend : Z;
  create : Z; create2 : Z; init_code_word : Z;
  keccak256_word : Z; sha256_word : Z; ecrecover : Z;
  g_log : Z; log_topic : Z; log_data : Z;
  resource_create : Z; resource_destroy : Z; resource_move : Z; resource_borrow : Z; parallel_hint : Z;
}.

Definition gas_costs_default : GasCosts := {|
  g_zero := 0; g_base := 2; g_very_low := 3; g_low := 5; g_mid := 8; g_high := 10;
  memory_word := 3; memory_copy := 3;
  sload_cold := 2100; sload_warm := 100; sstore_set := 20000; sstore_reset := 2900; sstore_clear_refund := 4800;
  call_base := 100; call_value := 9000; call_new_account := 25000; call_stipend := 2300;
  create := 32000; create2 := 32000; init_code_word := 2;
  keccak256_word := 6; sha256_word := 12; ecrecover := 3000;
  g_log := 375; log_topic := 375; log_data := 8;
  resource_create := 100; resource_destroy := 50; resource_move := 20; resource_borrow := 10; parallel_hint := 5;
|}.

Definition opcode_cost (c : GasCosts) (o : Opcode) : Z :=
  match o with
  | OpNop => g_zero c
  | OpPop | OpDup | OpSwap => g_base c
  | OpAdd | OpSub | OpNot | OpLt | OpGt | OpEq | OpAnd | OpOr | OpBitAnd | OpBitOr | OpBitXor | OpBitNot => g_very_low c
  | OpMul | OpDiv | OpMod | OpShl | OpShr | OpNe | OpLe | OpGe | OpNeg => g_low c
  | OpPush | OpLoadLocal | OpStoreLocal => g_mid c
  | OpPow => g_high c
  | OpLoad | OpStore => memory_word c
  | OpSLoad => sload_warm c
  | OpSStore => sstore_reset c
  | OpJump | OpJumpIf | OpJumpIfNot => g_mid c
  | OpCall => call_base c
  | OpReturn | OpRevert | OpHalt => g_zero c
  | OpAddress | OpCaller | OpCallValue | OpOrigin | OpGasPrice | OpCoinbase | OpTimestamp | OpBlockNumber | OpDifficulty
  | OpGasLimit | OpChainId | OpSelfBalance | OpGas => g_base c
  | OpBalance | OpBlockHash => sload_warm c
  | OpExternalCall | OpStaticCall | OpDelegateCall => call_base c
  | OpCreate | OpCreate2 => create c
  | OpLog0 => g_log c
  | OpLog1 => u64_add (g_log c) (log_topic c)
  | OpLog2 => u64_add (g_log c) (u64_mul (log_topic c) 2)
  | OpLog3 => u64_add (g_log c) (u64_mul (log_topic c) 3)
  | OpLog4 => u64_add (g_log c) (u64_mul (log_topic c) 4)
  | OpKeccak256 | OpSha256 | OpRipemd160 => g_mid c
  | OpEcrecover => ecrecover c
  | OpResourceCreate => resource_create c
  | OpResourceDestroy => resource_destroy c
  | OpResourceMove => resource_move c
  | OpResourceCopy => u64_mul (resource_move c) 2
  | OpResourceBorrow | OpResourceBorrowMut => resource_borrow c
  | OpParallelStart | OpParallelEnd | OpStateRead | OpStateWrite => parallel_hint c
  end.

Definition memory_cost (c : GasCosts) (words : Z) : Z :=
  sat_add 64 (sat_mul 64 words (memory_word c)) (sat_mul 64 words words / 512).
Definition memory_expansion_cost (c : GasCosts) (current_words new_words : Z) : Z :=
  if new_words <=? current_words then 0 else sat_sub (memory_cost c new_words) (memory_cost c current_words).

(** Price and refund of a write, by which of the original, current and new values are zero. *)
Definition sstore_cost (c : GasCosts) (original_is_zero current_is_zero new_is_zero : bool) : Z * Z :=
  if original_is_zero then
    if new_is_zero then (sload_warm c, 0) else (sstore_set c, 0)
  else if current_is_zero then
    if new_is_zero then (sload_warm c, 0) else (sstore_set c, 0)
  else if new_is_zero then (sstore_reset c, sstore_clear_refund c)
  else (sstore_reset c, 0).

Definition log_cost (c : GasCosts) (topics data_size : Z) : Z :=
  sat_add 64 (sat_add 64 (g_log c) (sat_mul 64 (log_topic c) topics)) (sat_mul 64 (log_data c) data_size).
Definition hash_cost (c : GasCosts) (data_size cost_per_word : Z) : Z :=
  sat_add 64 (g_mid c) (sat_mul 64 cost_per_word ((data_size + 31) / 32)).

(** ** The gas meter *)

Module Gas.
Record t := mk {
  limit : Z;
  used : Z;
  refund : Z;
  costs : GasCosts;
  warm_slots : gset bytes;
  warm_accounts : gset bytes;
}.
Definition with_costs (limit : Z) (costs : GasCosts) : t := mk limit 0 0 costs ∅ ∅.
Definition new (limit : Z) : t := with_costs limit gas_costs_default.
Definition remaining (g : t) : Z := sat_sub (limit g) (used g).
(** At most a fifth of the used gas is refunded. *)
Definition effective_used (g : t) : Z := sat_sub (used g) (Z.max 0 (Z.min (refund g) (used g / 5))).
Definition consume (amount : Z) (g : t) : Result GasError unit * t :=
  let new_used := sat_add 64 (used g) amount in
  if limit g <? new_used then (Err (OutOfGas amount (remaining g)), g)
  else (Ok tt, mk (limit g) new_used (refund g) (costs g) (warm_slots g) (warm_accounts g)).
(** Saturating addition on [i64]. *)
Definition add_refund (amount : Z) (g : t) : t :=
  mk (limit g) (used g) (Z.max (- 2 ^ 63) (Z.min (refund g + amount) (2 ^ 63 - 1))) (costs g) (warm_slots g)
    (warm_accounts g).
Definition consume_opcode (o : Opcode) (g : t) : Result GasError unit * t := consume (opcode_cost (costs g) o) g.
(** Whether the slot was warm, and the meter with the slot warm. *)
Definition warm_slot (slot : bytes) (g : t) : bool * t :=
  (bool_decide (slot ∈ warm_slots g),
   mk (limit g) (used g) (refund g) (costs g) ({[slot]} ∪ warm_slots g) (warm_accounts g)).
Definition consume_sload (slot : bytes) (g : t) : Result GasError unit * t :=
  let '(warm, g) := warm_slot slot g in
  consume (if warm then sload_warm (costs g) else sload_cold (costs g)) g.
Definition consume_sstore (slot : bytes) (original_is_zero current_is_zero new_is_zero : bool) (g : t) :
    Result GasError unit * t :=
  let '(_, g) := warm_slot slot g in
  let '(cost, refund) := sstore_cost (costs g) original_is_zero current_is_zero new_is_zero in
  (consume cost ;; modify (add_refund refund)) g.
Definition warm_account (address : bytes) (g : t) : bool * t :=
  (bool_decide (address ∈ warm_accounts g),
   mk (limit g) (used g) (refund g) (costs g) (warm_slots g) ({[address]} ∪ warm_accounts g)).
Definition consume_memory_expansion (current_words new_words : Z) (g : t) : Result GasError unit * t :=
  consume (memory_expansion_cost (costs g) current_words new_words) g.
Definition reset (new_limit : Z) (g : t) : t := mk new_limit 0 0 (costs g) ∅ ∅.
End Gas.
