(* ===== verification/Qvm.v ===== *)
(** * The QVM interpreter (src/crates/qfc-qvm/src/executor.rs)

    The machine of [Executor]: operand stack, memory, storage, frames, gas,
    logs and the tracker of linear resources. [execute_instruction] runs one
    instruction and answers with a [ControlFlow]; [vm_run] is the main loop and
    [vm_execute] the entry point. The arms of [execute_instruction] are grouped
    as in the source. The last frame of the source's vector comes first. *)

From S2P Require Import Prelude Externals QvmMemory QvmGas.

Inductive ExecutionError :=
| EGas (e : GasError)
| EMemory (e : MemoryError)
| EInvalidOpcode (o : Z)
| ETypeError (expected found : string)
| EDivisionByZero
| EOverflow
| EInvalidJump (target : Z)
| ECallDepthExceeded (max : Z)
| EUndefinedFunction (name : bytes)
| EResourceError (msg : string)
| ERevert (msg : string)
| EHalt
| EInternal (msg : string).

Definition MAX_CALL_DEPTH : nat := 1024.

Record ExecutionContext := mkContext {
  cx_address : bytes;
  cx_caller : bytes;
  cx_value : Z;
  cx_calldata : bytes;
  cx_origin : bytes;
  cx_gas_price : Z;
  cx_block_number : Z;
  cx_timestamp : Z;
  cx_coinbase : bytes;
  cx_difficulty : Z;
  cx_gas_limit : Z;
  cx_chain_id : Z;
  cx_is_static : bool;
}.

Definition context_default : ExecutionContext :=
  mkContext H160_zero H160_zero 0 [] H160_zero 0 0 0 H160_zero 0 (u_max 64) 1 false.

Record VmLog := mkVmLog { vl_address : bytes; vl_topics : list bytes; vl_data : bytes }.

Record ExecutionOutput := mkOutput {
  out_data : bytes;
  out_value : option Value;
  out_gas_used : Z;
  out_gas_refund : Z;
  out_logs : list VmLog;
  out_storage_changes : list (bytes * bytes);
  out_success : bool;
}.

(** ** The tracker of linear resources *)

Record ResourceInfo := mkResourceInfo { ri_type_name : bytes; ri_owner : Z; ri_created_at : Z }.
Record BorrowInfo := mkBorrowInfo { bi_resource_id : Z; bi_is_mutable : bool; bi_borrower : Z }.

Module Tracker.
Record t := mk { resources : gmap Z ResourceInfo; borrows : gmap Z BorrowInfo; next_id : Z }.
Definition new : t := mk ∅ ∅ 0.
Definition create (type_name : bytes) (owner pc : Z) (r : t) : Z * t :=
  (next_id r, mk (<[next_id r := mkResourceInfo type_name owner pc]> (resources r)) (borrows r) (u64_add (next_id r) 1)).
Definition borrowed (id : Z) (r : t) : bool :=
  existsb (fun e => bi_resource_id (snd e) =? id) (map_to_list (borrows r)).
Definition destroy (id : Z) (r : t) : Result ExecutionError t :=
  if borrowed id r then Err (EResourceError "cannot destroy borrowed resource")
  else Ok (mk (delete id (resources r)) (borrows r) (next_id r)).
Definition conflict (id : Z) (is_mutable : bool) (b : BorrowInfo) : bool :=
  (bi_resource_id b =? id) && (is_mutable || bi_is_mutable b).
Definition borrow (id borrower : Z) (is_mutable : bool) (r : t) : Result ExecutionError t :=
  match resources r !! id with
  | None => Err (EResourceError "resource does not exist")
  | Some _ =>
    if existsb (fun e => conflict id is_mutable (snd e)) (map_to_list (borrows r))
    then Err (EResourceError "conflicting borrow")
    else Ok (mk (resources r) (<[id := mkBorrowInfo id is_mutable borrower]> (borrows r)) (next_id r))
  end.
Definition release (id borrower : Z) (r : t) : t :=
  mk (resources r) (filter (fun e => ~ (bi_resource_id e.2 = id /\ bi_borrower e.2 = borrower)) (borrows r)) (next_id r).
Definition transfer (id new_owner : Z) (r : t) : Result ExecutionError t :=
  if borrowed id r then Err (EResourceError "cannot transfer borrowed resource")
  else
    match resources r !! id with
    | Some i =>
      Ok (mk (<[id := mkResourceInfo (ri_type_name i) new_owner (ri_created_at i)]> (resources r)) (borrows r) (next_id r))
    | None => Err (EResourceError "resource does not exist")
    end.
(** The message of the source also names the first leaked id its hash map yields. *)
Definition check_frame_exit (frame_index : Z) (r : t) : Result ExecutionError unit :=
  if existsb (fun e => ri_owner (snd e) =? frame_index) (map_to_list (resources r))
  then Err (EResourceError "resource leaked on frame exit") else Ok tt.
End Tracker.

(** ** The machine *)

Record Vm := mkVm {
  vstack : Stack.t;
  vmemory : Memory.t;
  vstorage : Slots.t;
  vheap : Heap.t;
  vframes : list Frame.t;
  vgas : Gas.t;
  vcontext : ExecutionContext;
  vlogs : list VmLog;
  vreturn_data : bytes;
  vresources : Tracker.t;
  vcontracts : gmap bytes (list Instruction);
}.

Definition vm_new (gas_limit : Z) : Vm :=
  mkVm Stack.new Memory.new Slots.new Heap.new [] (Gas.new gas_limit) context_default [] [] Tracker.new ∅.
Definition with_context (c : ExecutionContext) (v : Vm) : Vm :=
  mkVm (vstack v) (vmemory v) (vstorage v) (vheap v) (vframes v) (vgas v) c (vlogs v) (vreturn_data v) (vresources v)
    (vcontracts v).
Definition load_contract (name : bytes) (code : list Instruction) (v : Vm) : Vm :=
  mkVm (vstack v) (vmemory v) (vstorage v) (vheap v) (vframes v) (vgas v) (vcontext v) (vlogs v) (vreturn_data v)
    (vresources v) (<[name := code]> (vcontracts v)).

Definition set_stack (s : Stack.t) (v : Vm) : Vm :=
  mkVm s (vmemory v) (vstorage v) (vheap v) (vframes v) (vgas v) (vcontext v) (vlogs v) (vreturn_data v) (vresources v)
    (vcontracts v).
Definition set_memory (m : Memory.t) (v : Vm) : Vm :=
  mkVm (vstack v) m (vstorage v) (vheap v) (vframes v) (vgas v) (vcontext v) (vlogs v) (vreturn_data v) (vresources v)
    (vcontracts v).
Definition set_storage (s : Slots.t) (v : Vm) : Vm :=
  mkVm (vstack v) (vmemory v) s (vheap v) (vframes v) (vgas v) (vcontext v) (vlogs v) (vreturn_data v) (vresources v)
    (vcontracts v).
Definition set_frames (f : list Frame.t) (v : Vm) : Vm :=
  mkVm (vstack v) (vmemory v) (vstorage v) (vheap v) f (vgas v) (vcontext v) (vlogs v) (vreturn_data v) (vresources v)
    (vcontracts v).
Definition set_gas (g : Gas.t) (v : Vm) : Vm :=
  mkVm (vstack v) (vmemory v) (vstorage v) (vheap v) (vframes v) g (vcontext v) (vlogs v) (vreturn_data v) (vresources v)
    (vcontracts v).
Definition set_logs (l : list VmLog) (v : Vm) : Vm :=
  mkVm (vstack v) (vmemory v) (vstorage v) (vheap v) (vframes v) (vgas v) (vcontext v) l (vreturn_data v) (vresources v)
    (vcontracts v).
Definition set_resources (r : Tracker.t) (v : Vm) : Vm :=
  mkVm (vstack v) (vmemory v) (vstorage v) (vheap v) (vframes v) (vgas v) (vcontext v) (vlogs v) (vreturn_data v) r
    (vcontracts v).

Abbreviation VM A := (ST Vm ExecutionError A).

(** The [?] of a component's result, its error converted by [From]. *)
Definition zoom {C E A} (get : Vm -> C) (set : C -> Vm -> Vm) (conv : E -> ExecutionError) (m : ST C E A) : VM A :=
  fun v =>
    match m (get v) with
    | (Ok a, c) => (Ok a, set c v)
    | (Err e, c) => (Err (conv e), set c v)
    | (Panic, c) => (Panic, set c v)
    | (NoFuel, c) => (NoFuel, set c v)
    end.
(** An operation that leaves the component as it was when it fails. *)
Definition update {C E} (f : C -> Result E C) : ST C E unit :=
  fun c =>
    match f c with
    | Ok c' => (Ok tt, c')
    | Err e => (Err e, c)
    | Panic => (Panic, c)
    | NoFuel => (NoFuel, c)
    end.
Definition query {C E A} (f : C -> Result E A) : ST C E A := fun c => (f c, c).

Definition on_stack {A} (m : ST Stack.t MemoryError A) : VM A := zoom vstack set_stack EMemory m.
Definition on_memory {A} (m : ST Memory.t MemoryError A) : VM A := zoom vmemory set_memory EMemory m.
Definition on_gas {A} (m : ST Gas.t GasError A) : VM A := zoom vgas set_gas EGas m.
Definition on_resources {A} (m : ST Tracker.t ExecutionError A) : VM A := zoom vresources set_resources id m.

Definition push (x : Value) : VM unit := on_stack (update (Stack.push x)).
Definition pop : VM Value :=
  on_stack (fun s => match Stack.pop s with Ok (x, s') => (Ok x, s') | Err e => (Err e, s) | Panic => (Panic, s) | NoFuel => (NoFuel, s) end).

Definition pop_u256 : VM Z :=
  let! value := pop in ok_or (as_u256 value) (ETypeError "u256" (type_name value)).
Definition pop_bool : VM bool :=
  let! value := pop in ok_or (as_bool value) (ETypeError "bool" (type_name value)).
Definition pop_h256 : VM bytes :=
  let! value := pop in
  match value with
  | VBytes32 h => ret h
  | VU256 n => ret (to_be 32 n)
  | _ => fail (ETypeError "bytes32" (type_name value))
  end.
(** [U256::as_usize] panics above [usize::MAX]. *)
Definition as_usize (n : Z) : VM Z := or_panic (if n <? 2 ^ 64 then Some n else None).
Definition pop_usize : VM Z := let! n := pop_u256 in as_usize n.

Definition current_frame : VM Frame.t := let! fs := gets vframes in ok_or (head fs) (EInternal "no frame").
Definition frame_index : VM Z := let! fs := gets vframes in ret (u64_sub (Z.of_nat (length fs)) 1).

(** [32 - operand.len()] is no index of the buffer when the operand is longer than it. *)
Definition decode_push_value (instr : Instruction) : VM Value :=
  match operand instr with
  | Some op =>
    if (length op =? 32)%nat then ret (VU256 (from_be op))
    else if (32 <? length op)%nat then panic
    else ret (VU256 (from_be (replicate (32 - length op) 0 ++ op)))
  | None => ret value_zero
  end.
Definition decode_u16 (instr : Instruction) : VM Z :=
  match operand instr with
  | Some (a :: b :: _) => ret (from_be [a; b])
  | _ => ret 0
  end.

(** The check of [String::from_utf8]. *)
Definition continuation (b : Z) : bool := (128 <=? b) && (b <=? 191).
Definition second_byte (a b : Z) : bool :=
  if a =? 224 then (160 <=? b) && (b <=? 191)
  else if a =? 237 then (128 <=? b) && (b <=? 159)
  else if a =? 240 then (144 <=? b) && (b <=? 191)
  else if a =? 244 then (128 <=? b) && (b <=? 143)
  else continuation b.
Fixpoint utf8_valid (bs : bytes) : bool :=
  match bs with
  | [] => true
  | a :: r =>
    if a <? 128 then utf8_valid r
    else if (194 <=? a) && (a <=? 223) then match r with b :: r => continuation b && utf8_valid r | _ => false end
    else if (224 <=? a) && (a <=? 239) then
      match r with b :: c :: r => second_byte a b && continuation c && utf8_valid r | _ => false end
    else if (240 <=? a) && (a <=? 244) then
      match r with
      | b :: c :: d :: r => second_byte a b && continuation c && continuation d && utf8_valid r
      | _ => false
      end
    else false
  end.
Definition decode_string (instr : Instruction) : VM bytes :=
  match operand instr with
  | Some op => if utf8_valid op then ret op else fail (EInternal "invalid string")
  | None => ret []
  end.

(** Square and multiply; 256 rounds shift any exponent to zero. *)
Fixpoint pow_loop (fuel : nat) (result base exp : Z) : Result ExecutionError Z :=
  if exp =? 0 then Ok result
  else
    match fuel with
    | O => NoFuel
    | S fuel =>
      pow_loop fuel (if Z.land exp 1 =? 1 then wrap 256 (result * base) else result) (wrap 256 (base * base))
        (Z.shiftr exp 1)
    end.
Definition pow_u256 (base exp : Z) : VM Z :=
  if exp =? 0 then ret 1
  else if base =? 0 then ret 0
  else query (fun _ => pow_loop 256 1 base exp).

Definition call_function (name : bytes) : VM unit :=
  let! fs := gets vframes in
  if (MAX_CALL_DEPTH <=? length fs)%nat then fail (ECallDepthExceeded (Z.of_nat MAX_CALL_DEPTH)) else ret tt.

Fixpoint pop_topics (n : nat) : VM (list bytes) :=
  match n with
  | O => ret []
  | S n => let! t := pop_h256 in let! ts := pop_topics n in ret (t :: ts)
  end.
Definition emit_log (topic_count : nat) : VM unit :=
  let! size := pop_usize in
  let! offset := pop_usize in
  let! topics := pop_topics topic_count in
  let! data := on_memory (query (Memory.read offset size)) in
  modify (fun v => set_logs (vlogs v ++ [mkVmLog (cx_address (vcontext v)) (rev topics) data]) v).

(** ** Instructions *)

Inductive ControlFlow := Continue | Jump (target : Z) | Return | Halt | Revert (msg : string).

Definition binop (f : Z -> Z -> Value) : VM unit :=
  let! b := pop_u256 in let! a := pop_u256 in push (f a b).

Section Instructions.
Context `{B : Blake3}.

Definition exec_stack (instr : Instruction) : VM unit :=
  match opcode instr with
  | OpPush => let! value := decode_push_value instr in push value
  | OpPop => pop ;; ret tt
  | OpDup => on_stack (update Stack.dup)
  | _ => on_stack (update Stack.swap)
  end.

Definition exec_arith (o : Opcode) : VM unit :=
  match o with
  | OpAdd => binop (fun a b => VU256 (wrap 256 (a + b)))
  | OpSub => binop (fun a b => VU256 (wrap 256 (a - b)))
  | OpMul => binop (fun a b => VU256 (wrap 256 (a * b)))
  | OpDiv => binop (fun a b => if b =? 0 then value_zero else VU256 (a / b))
  | OpMod => binop (fun a b => if b =? 0 then value_zero else VU256 (a mod b))
  | OpPow => let! exp := pop_u256 in let! base := pop_u256 in let! result := pow_u256 base exp in push (VU256 result)
  | _ => let! a := pop_u256 in push (VU256 (wrap 256 (0 - a)))
  end.

Definition exec_compare (o : Opcode) : VM unit :=
  match o with
  | OpEq => let! b := pop in let! a := pop in push (VBool (value_eqb a b))
  | OpNe => let! b := pop in let! a := pop in push (VBool (negb (value_eqb a b)))
  | OpLt => binop (fun a b => VBool (a <? b))
  | OpLe => binop (fun a b => VBool (a <=? b))
  | OpGt => binop (fun a b => VBool (b <? a))
  | _ => binop (fun a b => VBool (b <=? a))
  end.

Definition exec_logic (o : Opcode) : VM unit :=
  match o with
  | OpAnd => let! b := pop_bool in let! a := pop_bool in push (VBool (a && b))
  | OpOr => let! b := pop_bool in let! a := pop_bool in push (VBool (a || b))
  | _ => let! a := pop_bool in push (VBool (negb a))
  end.

Definition exec_bitwise (o : Opcode) : VM unit :=
  match o with
  | OpBitAnd => binop (fun a b => VU256 (Z.land a b))
  | OpBitOr => binop (fun a b => VU256 (Z.lor a b))
  | OpBitXor => binop (fun a b => VU256 (Z.lxor a b))
  | OpBitNot => let! a := pop_u256 in push (VU256 (u_max 256 - a))
  | OpShl => binop (fun a shift => if 256 <=? shift then value_zero else VU256 (wrap 256 (Z.shiftl a shift)))
  | _ => binop (fun a shift => if 256 <=? shift then value_zero else VU256 (Z.shiftr a shift))
  end.

Definition set_current (f : Frame.t) : VM unit :=
  modify (fun v => set_frames (match vframes v with [] => [] | _ :: fs => f :: fs end) v).

Definition exec_memory (instr : Instruction) : VM unit :=
  match opcode instr with
  | OpLoad =>
    let! offset := pop_usize in
    let! value := on_memory (query (Memory.read_u256 offset)) in
    push (VU256 value)
  | OpStore =>
    let! value := pop_u256 in
    let! offset := pop_usize in
    on_memory (update (Memory.write_u256 offset value))
  | OpLoadLocal =>
    let! index := decode_u16 instr in
    let! frame := current_frame in
    let! value := map_err EMemory (query (fun _ => Frame.get_local index frame)) in
    push value
  | _ =>
    let! index := decode_u16 instr in
    let! value := pop in
    let! frame := current_frame in
    let! frame := map_err EMemory (query (fun _ => Frame.set_local index value frame)) in
    set_current frame
  end.

Definition is_zero_slot (h : bytes) : bool := bool_decide (h = H256_zero).

Definition exec_storage (o : Opcode) : VM unit :=
  match o with
  | OpSLoad =>
    let! key := pop_h256 in
    on_gas (Gas.consume_sload key) ;;
    let! value := gets (fun v => Slots.load key (vstorage v)) in
    push (VU256 (from_be value))
  | _ =>
    let! is_static := gets (fun v => cx_is_static (vcontext v)) in
    if (is_static : bool) then fail (EResourceError "cannot write storage in static call")
    else
      let! value := pop_u256 in
      let! key := pop_h256 in
      let! original := gets (fun v => Slots.original_value key (vstorage v)) in
      let! current := gets (fun v => Slots.load key (vstorage v)) in
      on_gas (Gas.consume_sstore key (is_zero_slot original) (is_zero_slot current) (value =? 0)) ;;
      modify (fun v => set_storage (Slots.store key (to_be 32 value) (vstorage v)) v)
  end.

Definition exec_control (instr : Instruction) : VM ControlFlow :=
  match opcode instr with
  | OpJump => let! target := decode_u16 instr in ret (Jump target)
  | OpJumpIf =>
    let! target := decode_u16 instr in
    let! cond := pop in
    ret (if is_truthy cond then Jump target else Continue)
  | OpJumpIfNot =>
    let! target := decode_u16 instr in
    let! cond := pop in
    ret (if negb (is_truthy cond) then Jump target else Continue)
  | OpCall =>
    let! name := decode_string instr in
    call_function name ;; ret Continue
  | OpReturn =>
    let! i := frame_index in
    on_resources (query (Tracker.check_frame_exit i)) ;;
    ret Return
  | OpRevert => ret (Revert "execution reverted")
  | _ => ret Halt
  end.

Definition exec_info (o : Opcode) : VM unit :=
  let! c := gets vcontext in
  match o with
  | OpAddress => push (VAddress (cx_address c))
  | OpBalance => push value_zero
  | OpCaller => push (VAddress (cx_caller c))
  | OpCallValue => push (VU256 (cx_value c))
  | OpOrigin => push (VAddress (cx_origin c))
  | OpGasPrice => push (VU256 (cx_gas_price c))
  | OpBlockHash => push (VBytes32 H256_zero)
  | OpCoinbase => push (VAddress (cx_coinbase c))
  | OpTimestamp => push (value_from_u64 (cx_timestamp c))
  | OpBlockNumber => push (value_from_u64 (cx_block_number c))
  | OpDifficulty => push (VU256 (cx_difficulty c))
  | OpGasLimit => push (value_from_u64 (cx_gas_limit c))
  | OpChainId => push (value_from_u64 (cx_chain_id c))
  | OpSelfBalance => push value_zero
  | _ => let! g := gets vgas in push (value_from_u64 (Gas.remaining g))
  end.

Definition topic_count (o : Opcode) : nat :=
  match o with OpLog1 => 1 | OpLog2 => 2 | OpLog3 => 3 | OpLog4 => 4 | _ => 0 end.
Definition exec_log (o : Opcode) : VM unit :=
  let! is_static := gets (fun v => cx_is_static (vcontext v)) in
  if (is_static : bool) then fail (EResourceError "cannot emit log in static call") else emit_log (topic_count o).

(** [Keccak256] hashes with BLAKE3; the others answer zero. *)
Definition exec_crypto (o : Opcode) : VM unit :=
  match o with
  | OpKeccak256 =>
    let! size := pop_usize in
    let! offset := pop_usize in
    let! data := on_memory (query (Memory.read offset size)) in
    push (VBytes32 (blake3 data))
  | _ => push (VBytes32 H256_zero)
  end.

Definition borrow_top (is_mutable : bool) : VM unit :=
  let! resource := on_stack (query Stack.peek) in
  match resource with
  | VResource _ _ id => let! borrower := frame_index in on_resources (update (Tracker.borrow id borrower is_mutable))
  | _ => ret tt
  end.
Definition exec_resource (instr : Instruction) : VM unit :=
  match opcode instr with
  | OpResourceCreate =>
    let! name := decode_string instr in
    let! owner := frame_index in
    let! frame := current_frame in
    let! id := on_resources (fun r => let '(id, r) := Tracker.create name owner (Frame.pc frame) r in (Ok id, r)) in
    push (VResource name [] id)
  | OpResourceDestroy =>
    let! resource := pop in
    match resource with
    | VResource _ _ id => on_resources (update (Tracker.destroy id))
    | _ => fail (ETypeError "resource" (type_name resource))
    end
  | OpResourceMove =>
    let! resource := pop in
    match resource with
    | VResource _ _ id =>
      let! new_owner := frame_index in
      on_resources (update (Tracker.transfer id new_owner)) ;;
      push resource
    | _ => fail (ETypeError "resource" (type_name resource))
    end
  | OpResourceBorrow => borrow_top false
  | OpResourceBorrowMut => borrow_top true
  | _ => fail (EResourceError "resource copy requires Copy ability")
  end.

(** Calls and creations are not carried out: they push a fixed answer. *)
Definition exec_external (o : Opcode) : VM unit :=
  match o with
  | OpExternalCall | OpStaticCall | OpDelegateCall => push (VBool true)
  | _ => push (VAddress H160_zero)
  end.

Definition execute_instruction (instr : Instruction) : VM ControlFlow :=
  match opcode instr with
  | OpPush | OpPop | OpDup | OpSwap => exec_stack instr ;; ret Continue
  | OpAdd | OpSub | OpMul | OpDiv | OpMod | OpPow | OpNeg => exec_arith (opcode instr) ;; ret Continue
  | OpEq | OpNe | OpLt | OpLe | OpGt | OpGe => exec_compare (opcode instr) ;; ret Continue
  | OpAnd | OpOr | OpNot => exec_logic (opcode instr) ;; ret Continue
  | OpBitAnd | OpBitOr | OpBitXor | OpBitNot | OpShl | OpShr => exec_bitwise (opcode instr) ;; ret Continue
  | OpLoad | OpStore | OpLoadLocal | OpStoreLocal => exec_memory instr ;; ret Continue
  | OpSLoad | OpSStore => exec_storage (opcode instr) ;; ret Continue
  | OpJump | OpJumpIf | OpJumpIfNot | OpCall | OpReturn | OpRevert | OpHalt => exec_control instr
  | OpAddress | OpBalance | OpCaller | OpCallValue | OpOrigin | OpGasPrice | OpBlockHash | OpCoinbase | OpTimestamp
  | OpBlockNumber | OpDifficulty | OpGasLimit | OpChainId | OpSelfBalance | OpGas => exec_info (opcode instr) ;; ret Continue
  | OpLog0 | OpLog1 | OpLog2 | OpLog3 | OpLog4 => exec_log (opcode instr) ;; ret Continue
  | OpKeccak256 | OpSha256 | OpRipemd160 | OpEcrecover => exec_crypto (opcode instr) ;; ret Continue
  | OpResourceCreate | OpResourceDestroy | OpResourceMove | OpResourceBorrow | OpResourceBorrowMut | OpResourceCopy =>
    exec_resource instr ;; ret Continue
  | OpParallelStart | OpParallelEnd | OpStateRead | OpStateWrite => ret Continue
  | OpExternalCall | OpStaticCall | OpDelegateCall | OpCreate | OpCreate2 => exec_external (opcode instr) ;; ret Continue
  | OpNop => ret Continue
  end.

(** ** The main loop *)

Definition jump_to (target : Z) (v : Vm) : Vm :=
  match vframes v with [] => v | f :: fs => set_frames (Frame.set_pc target f :: fs) v end.

(** The effect of a [ControlFlow] on the loop: go on, or leave it with an error. *)
Definition follow (c : ControlFlow) : VM unit :=
  match c with
  | Continue => ret tt
  | Jump target => modify (jump_to target)
  | Return => modify (fun v => set_frames (tail (vframes v)) v)
  | Halt => fail EHalt
  | Revert msg => fail (ERevert msg)
  end.

(** One round of the loop with the current frame. *)
Definition vm_step (code : list Instruction) (frame : Frame.t) : VM unit :=
  match code !! Z.to_nat (Frame.pc frame) with
  | None => modify (fun v => set_frames (tail (vframes v)) v)
  | Some instr =>
    modify (jump_to (u64_add (Frame.pc frame) 1)) ;;
    on_gas (Gas.consume_opcode (opcode instr)) ;;
    let! c := execute_instruction instr in
    follow c
  end.

Fixpoint vm_run (fuel : nat) (code : list Instruction) : VM unit :=
  let! fs := gets vframes in
  match fs with
  | [] => ret tt
  | frame :: _ =>
    match fuel with
    | O => nofuel
    | S fuel => vm_step code frame ;; vm_run fuel code
    end
  end.

(** The output carries the value left on top of the stack, which is popped. *)
Definition collect (success : bool) : VM ExecutionOutput :=
  let! value := attempt pop in
  let! v := gets id in
  ret (mkOutput (vreturn_data v) (match value with inl x => Some x | inr _ => None end) (Gas.used (vgas v))
         (Gas.refund (vgas v)) (vlogs v) (Slots.get_modified (vstorage v)) success).

Definition main : bytes := [109; 97; 105; 110].

Definition vm_execute (fuel : nat) (code : list Instruction) : VM ExecutionOutput :=
  modify (fun v => set_frames (Frame.new main 0 :: vframes v) v) ;;
  let! result := attempt (vm_run fuel code) in
  let! output := collect (match result with inl _ => true | inr _ => false end) in
  match result with
  | inl _ => ret output
  | inr EHalt => ret output
  | inr (ERevert _) =>
    ret (mkOutput (out_data output) (out_value output) (out_gas_used output) (out_gas_refund output) (out_logs output)
           (out_storage_changes output) false)
  | inr e => fail e
  end.
End Instructions.
