(* ===== verification/QvmTheory.v ===== *)
(** * Invariant of the QVM and the logic of its instructions

    [vm_ok] is the typing and bounds invariant of the machine. [sat P v m Q]
    says that [m], run on [v], keeps the invariant, changes only what an
    instruction may change ([keeps]), panics only if [P], never runs out of
    fuel, and answers with a value in [Q]. Every instruction is shown to satisfy
    it, and the loop follows by a measure on gas and program counters. *)

From S2P Require Import Prelude Externals QvmMemory QvmGas Qvm.

(** ** Equality of values *)

Fixpoint value_ind' (P : Value -> Prop)
    (Hscalar : forall v, (match v with VTuple _ | VArray _ | VStruct _ _ | VResource _ _ _ => False | _ => True end) -> P v)
    (Htuple : forall l, Forall P l -> P (VTuple l)) (Harray : forall l, Forall P l -> P (VArray l))
    (Hstruct : forall t l, Forall (fun e => P (snd e)) l -> P (VStruct t l))
    (Hres : forall t l i, Forall (fun e => P (snd e)) l -> P (VResource t l i)) (v : Value) : P v :=
  let IH := value_ind' P Hscalar Htuple Harray Hstruct Hres in
  let all := fix go (l : list Value) : Forall P l :=
    match l with [] => @Forall_nil_2 _ P | x :: l => @Forall_cons_2 _ P x l (IH x) (go l) end in
  let all_snd := fix go (l : list (bytes * Value)) : Forall (fun e => P (snd e)) l :=
    match l with
    | [] => @Forall_nil_2 _ (fun e => P (snd e))
    | x :: l => @Forall_cons_2 _ (fun e => P (snd e)) x l (IH (snd x)) (go l)
    end in
  match v with
  | VTuple l => Htuple l (all l)
  | VArray l => Harray l (all l)
  | VStruct t l => Hstruct t l (all_snd l)
  | VResource t l i => Hres t l i (all_snd l)
  | VU256 n => Hscalar (VU256 n) I
  | VBool b => Hscalar (VBool b) I
  | VAddress a => Hscalar (VAddress a) I
  | VBytes32 h => Hscalar (VBytes32 h) I
  | VBytes b => Hscalar (VBytes b) I
  | VString s => Hscalar (VString s) I
  | VRef r => Hscalar (VRef r) I
  | VRefMut r => Hscalar (VRefMut r) I
  | VUnit => Hscalar VUnit I
  | VNone => Hscalar VNone I
  end.

Lemma value_list_eqb_eq l :
  Forall (fun a => forall b, value_eqb a b = true <-> a = b) l ->
  forall l', (fix go (l l' : list Value) {struct l} : bool :=
    match l, l' with [], [] => true | x :: l, y :: l' => value_eqb x y && go l l' | _, _ => false end) l l' = true <-> l = l'.
Proof.
  induction 1 as [|x l Hx _ IH]; intros [|y l']; try done.
  rewrite andb_true_iff, Hx, IH. naive_solver.
Qed.

Lemma value_fields_eqb_eq l :
  Forall (fun e => forall b, value_eqb (snd e) b = true <-> snd e = b) l ->
  forall l', (fix go (l l' : list (bytes * Value)) {struct l} : bool :=
    match l, l' with
    | [], [] => true
    | (n, x) :: l, (m, y) :: l' => bool_decide (n = m) && value_eqb x y && go l l'
    | _, _ => false
    end) l l' = true <-> l = l'.
Proof.
  induction 1 as [|[n x] l Hx _ IH]; intros [|[m y] l']; try done.
  rewrite !andb_true_iff, bool_decide_eq_true, IH. simpl in Hx. rewrite Hx. naive_solver.
Qed.

Lemma value_eqb_eq a b : value_eqb a b = true <-> a = b.
Proof.
  revert b. induction a as [v Hv|l IH|l IH|t l IH|t l i IH] using value_ind'; intros b.
  - destruct v; try done; destruct b; simpl; try done;
      rewrite ?Z.eqb_eq, ?Bool.eqb_true_iff, ?bool_decide_eq_true; naive_solver.
  - destruct b; try done. cbn [value_eqb]. rewrite value_list_eqb_eq by done. naive_solver.
  - destruct b; try done. cbn [value_eqb]. rewrite value_list_eqb_eq by done. naive_solver.
  - destruct b; try done. cbn [value_eqb]. rewrite andb_true_iff, bool_decide_eq_true, value_fields_eqb_eq by done.
    naive_solver.
  - destruct b; try done. cbn [value_eqb].
    rewrite !andb_true_iff, bool_decide_eq_true, value_fields_eqb_eq, Z.eqb_eq by done. naive_solver.
Qed.

#[export] Instance Value_eq_dec : EqDecision Value.
Proof. refine (fun a b => cast_if (decide (value_eqb a b = true))); by rewrite <-value_eqb_eq. Defined.

(** ** The invariant *)

Definition word_ok (h : bytes) : Prop := length h = 32%nat /\ bytes_ok h.

Fixpoint value_ok (v : Value) : Prop :=
  match v with
  | VU256 n => in_u 256 n
  | VAddress a => length a = 20%nat /\ bytes_ok a
  | VBytes32 h => word_ok h
  | VBytes b | VString b => bytes_ok b
  | VTuple l | VArray l => foldr (fun x P => value_ok x /\ P) True l
  | VStruct _ l | VResource _ l _ => foldr (fun e P => value_ok (snd e) /\ P) True l
  | _ => True
  end.

Definition stack_ok (s : Stack.t) : Prop :=
  Forall value_ok (Stack.values s) /\ (length (Stack.values s) <= Stack.max_depth s)%nat /\
  Stack.max_depth s = MAX_STACK_DEPTH.
Definition memory_ok (m : Memory.t) : Prop :=
  bytes_ok (Memory.data m) /\ Memory.size m <= Memory.max_size m /\ Memory.max_size m = MAX_MEMORY_SIZE.
Definition slots_ok (s : Slots.t) : Prop :=
  map_Forall (fun _ => word_ok) (Slots.slots s) /\ map_Forall (fun _ => word_ok) (Slots.original s).
Definition frame_ok (f : Frame.t) : Prop :=
  in_u 64 (Frame.pc f) /\ Forall value_ok (Frame.locals f) /\ Z.of_nat (length (Frame.locals f)) <= MAX_LOCALS.
(** The limit is not [u64::MAX]: there the saturating sum of [consume] never
    exceeds it, and gas does not run out. *)
Definition gas_ok (g : Gas.t) : Prop :=
  Gas.costs g = gas_costs_default /\ 0 <= Gas.used g <= Gas.limit g /\ Gas.limit g < u_max 64.
Definition address_ok (a : bytes) : Prop := length a = 20%nat /\ bytes_ok a.
Record context_ok (c : ExecutionContext) : Prop := {
  cok_address : address_ok (cx_address c);
  cok_caller : address_ok (cx_caller c);
  cok_origin : address_ok (cx_origin c);
  cok_coinbase : address_ok (cx_coinbase c);
  cok_value : in_u 256 (cx_value c);
  cok_gas_price : in_u 256 (cx_gas_price c);
  cok_difficulty : in_u 256 (cx_difficulty c);
  cok_block_number : in_u 64 (cx_block_number c);
  cok_timestamp : in_u 64 (cx_timestamp c);
  cok_gas_limit : in_u 64 (cx_gas_limit c);
  cok_chain_id : in_u 64 (cx_chain_id c);
}.

Record vm_ok (v : Vm) : Prop := {
  ok_stack : stack_ok (vstack v);
  ok_memory : memory_ok (vmemory v);
  ok_slots : slots_ok (vstorage v);
  ok_frames : Forall frame_ok (vframes v);
  ok_gas : gas_ok (vgas v);
  ok_context : context_ok (vcontext v);
}.

(** The operands of the code are bytes, and a slice is shorter than [isize::MAX]. *)
Definition code_ok (code : list Instruction) : Prop :=
  Forall (fun i => bytes_ok (default [] (operand i))) code /\ Z.of_nat (length code) < 2 ^ 63.

(** What no instruction changes: the context, the heap, the contracts, the
    positions of the frames, the limit and the prices; gas only grows, and in a
    static call storage and logs stay as they are. *)
Record keeps (v v' : Vm) : Prop := {
  k_context : vcontext v' = vcontext v;
  k_heap : vheap v' = vheap v;
  k_contracts : vcontracts v' = vcontracts v;
  k_return : vreturn_data v' = vreturn_data v;
  k_pcs : map Frame.pc (vframes v') = map Frame.pc (vframes v);
  k_limit : Gas.limit (vgas v') = Gas.limit (vgas v);
  k_used : Gas.used (vgas v) <= Gas.used (vgas v');
  k_static : cx_is_static (vcontext v) = true -> vstorage v' = vstorage v /\ vlogs v' = vlogs v;
}.

#[export] Instance keeps_preorder : PreOrder keeps.
Proof.
  split; [by constructor|].
  intros u v w [? ? ? ? ? ? ? Hs] [Hc ? ? ? ? ? ? Hs']. constructor; try congruence; [lia|].
  intros H. destruct (Hs H) as [??], Hs' as [??]; [congruence|]. split; congruence.
Qed.

(** ** The logic *)

Definition outcome {A} (P : Prop) (Q : A -> Prop) (r : Result ExecutionError A) : Prop :=
  match r with Ok a => Q a | Err _ => True | Panic => P | NoFuel => False end.
Definition sat {A} (P : Prop) (v : Vm) (m : VM A) (Q : A -> Prop) : Prop :=
  outcome P Q (fst (m v)) /\ vm_ok (snd (m v)) /\ keeps v (snd (m v)).
Definition safe {A} (P : Prop) (m : VM A) (Q : A -> Prop) : Prop := forall v, vm_ok v -> sat P v m Q.

Section logic.
Context {A B : Type} (P : Prop).
Implicit Types (Q : A -> Prop) (R : B -> Prop).

Lemma sat_bind v (m : VM A) (k : A -> VM B) Q R :
  sat P v m Q -> (forall a v1, vm_ok v1 -> keeps v v1 -> Q a -> sat P v1 (k a) R) -> sat P v (bind m k) R.
Proof.
  unfold sat, bind. destruct (m v) as [[a|e| |] v1]; simpl; intros (Hm & Hok & Hk) Hn; try done.
  destruct (Hn a v1 Hok Hk Hm) as (? & ? & ?). split_and!; [done..|]. by transitivity v1.
Qed.

Lemma safe_bind (m : VM A) (k : A -> VM B) Q R :
  safe P m Q -> (forall a, Q a -> safe P (k a) R) -> safe P (bind m k) R.
Proof. intros Hm Hk v Hv. eapply sat_bind; [by apply Hm|]. intros. by apply Hk. Qed.

Lemma safe_ret (a : A) Q : Q a -> safe P (ret a) Q.
Proof. intros ? v ?. split_and!; [done..|]. by simpl. Qed.

Lemma safe_fail e Q : safe P (fail e) Q.
Proof. intros v ?. split_and!; [done..|]. by simpl. Qed.

Lemma safe_panic Q : P -> safe P panic Q.
Proof. intros ? v ?. split_and!; [done..|]. by simpl. Qed.

Lemma safe_gets (f : Vm -> A) Q : (forall v, vm_ok v -> Q (f v)) -> safe P (gets f) Q.
Proof. intros Hf v ?. split_and!; [by apply Hf|done|]. by simpl. Qed.

Lemma safe_ok_or (o : option A) e Q : (forall a, o = Some a -> Q a) -> safe P (ok_or o e) Q.
Proof. destruct o; intros H; [apply safe_ret; auto|apply safe_fail]. Qed.

Lemma safe_weaken (m : VM A) Q Q' : safe P m Q -> (forall a, Q a -> Q' a) -> safe P m Q'.
Proof. intros Hm HQ v Hv. destruct (Hm v Hv) as (Ho & ? & ?). split_and!; [|done..]. destruct (fst (m v)); naive_solver. Qed.
End logic.

(** ** Components *)

Definition good {C A} (ok : C -> Prop) (Q : A -> Prop) {E} (m : ST C E A) : Prop :=
  forall c, ok c -> ok (snd (m c)) /\ match fst (m c) with Ok a => Q a | Err _ => True | _ => False end.

Lemma good_update {C E} (ok : C -> Prop) (f : C -> Result E C) :
  (forall c, ok c -> match f c with Ok c' => ok c' | Err _ => True | _ => False end) ->
  good ok (fun _ => True) (update f).
Proof. intros Hf c Hc. specialize (Hf c Hc). unfold update. by destruct (f c). Qed.

Lemma good_query {C E A} (ok : C -> Prop) (Q : A -> Prop) (f : C -> Result E A) :
  (forall c, ok c -> match f c with Ok a => Q a | Err _ => True | _ => False end) -> good ok Q (query f).
Proof. intros Hf c Hc. split; [done|]. by apply Hf. Qed.

Section components.
Context {A : Type} (P : Prop) (Q : A -> Prop).

Lemma safe_on_stack (m : ST Stack.t MemoryError A) : good stack_ok Q m -> safe P (on_stack m) Q.
Proof.
  intros Hm v [Hs ? ? ? ? ?]. specialize (Hm _ Hs). unfold sat, on_stack, zoom.
  destruct (m (vstack v)) as [[] s']; simpl in *; destruct Hm as [??]; split_and!; try done.
Qed.

Lemma safe_on_memory (m : ST Memory.t MemoryError A) : good memory_ok Q m -> safe P (on_memory m) Q.
Proof.
  intros Hm v [? Hs ? ? ? ?]. specialize (Hm _ Hs). unfold sat, on_memory, zoom.
  destruct (m (vmemory v)) as [[] s']; simpl in *; destruct Hm as [??]; split_and!; try done.
Qed.

Lemma safe_on_resources (m : ST Tracker.t ExecutionError A) : good (fun _ => True) Q m -> safe P (on_resources m) Q.
Proof.
  intros Hm v [? ? ? ? ? ?]. specialize (Hm (vresources v) I). unfold sat, on_resources, zoom.
  destruct (m (vresources v)) as [[] s']; simpl in *; destruct Hm as [??]; split_and!; try done.
Qed.

Lemma safe_on_gas (m : ST Gas.t GasError A) :
  good gas_ok Q m -> (forall g, gas_ok g -> Gas.limit (snd (m g)) = Gas.limit g /\ Gas.used g <= Gas.used (snd (m g))) ->
  safe P (on_gas m) Q.
Proof.
  intros Hm Hk v [? ? ? ? Hs ?]. specialize (Hm _ Hs). specialize (Hk _ Hs) as [? ?]. unfold sat, on_gas, zoom.
  destruct (m (vgas v)) as [[] s']; simpl in *; destruct Hm as [??]; split_and!; done.
Qed.
End components.

Lemma stack_push_ok x : value_ok x -> good stack_ok (fun _ => True) (update (Stack.push x)).
Proof.
  intros Hx. apply good_update. intros s (Hv & Hl & Hm). unfold Stack.push. destruct (Nat.leb_spec (Stack.max_depth s) (length (Stack.values s))); [done|].
  split_and!; simpl; [by constructor|lia|done].
Qed.

Lemma stack_peek_ok i s x : stack_ok s -> Stack.peek_at i s = Ok x -> value_ok x.
Proof.
  intros (Hv & _ & _). unfold Stack.peek_at. destruct (Stack.values s !! i) eqn:E; [|done]. intros [= <-].
  by eapply Forall_lookup_1.
Qed.

Lemma stack_dup_ok : good stack_ok (fun _ => True) (update Stack.dup).
Proof.
  apply good_update. intros s Hs. unfold Stack.dup, Stack.dup_at.
  destruct (Stack.peek_at 0 s) eqn:E; try done; [|unfold Stack.peek_at in E; by destruct (_ !! _)..].
  pose proof (stack_push_ok _ (stack_peek_ok _ _ _ Hs E) s Hs) as Hp. unfold update in Hp.
  destruct (Stack.push _ s); simpl in Hp; tauto.
Qed.

Lemma stack_swap_ok : good stack_ok (fun _ => True) (update Stack.swap).
Proof.
  apply good_update. intros s (Hv & Hl & Hm). unfold Stack.swap, Stack.swap_at.
  destruct (Stack.values s !! 0%nat) as [a|] eqn:Ea; [|done].
  destruct (Stack.values s !! 1%nat) as [b|] eqn:Eb; [|done].
  split_and!; simpl; [|by rewrite !length_insert|done].
  apply Forall_insert; [apply Forall_insert; [done|]|]; by eapply Forall_lookup_1.
Qed.

Lemma stack_pop_ok : good stack_ok value_ok
  (fun s => match Stack.pop s with
            | Ok (x, s') => (Ok x, s') | Err e => (@Err MemoryError _ e, s) | Panic => (Panic, s) | NoFuel => (NoFuel, s)
            end).
Proof.
  intros s (Hv & Hl & Hm). unfold Stack.pop. destruct (Stack.values s) as [|x l] eqn:E; simpl.
  - unfold stack_ok. rewrite E. naive_solver.
  - apply Forall_cons in Hv as [??]. simpl in Hl. split; [|done]. split_and!; simpl; [done|lia|done].
Qed.

Lemma sat64_small m o n : 0 <= o -> 0 <= n -> memory_ok m -> sat_add 64 o n <= Memory.max_size m -> sat_add 64 o n = o + n.
Proof. unfold sat_add, u_max, memory_ok. intros ??(_ & _ & ->). unfold MAX_MEMORY_SIZE. lia. Qed.

Lemma memory_expand_ok o n m :
  0 <= o -> 0 <= n -> memory_ok m ->
  match Memory.expand o n m with
  | Ok m' => memory_ok m' /\ o + n <= Memory.size m' /\
             Memory.data m' = Memory.data m ++ replicate (Z.to_nat (o + n - Memory.size m)) 0
  | Err _ => Memory.max_size m < sat_add 64 o n
  | _ => False
  end.
Proof.
  intros Ho Hn Hm. unfold Memory.expand. destruct (Z.ltb_spec (Memory.max_size m) (sat_add 64 o n)); [done|].
  rewrite (sat64_small m) in * by done. destruct Hm as (Hb & Hs & Hmax).
  destruct (Z.ltb_spec (Memory.size m) (o + n)) as [Hlt|Hge].
  - unfold memory_ok, Memory.size in *. simpl. rewrite length_app, length_replicate. split_and!; try done; try lia.
    unfold bytes_ok. rewrite Forall_app. split; [done|]. apply Forall_replicate. unfold is_byte. lia.
  - split_and!; [done..|]. replace (Z.to_nat (o + n - Memory.size m)) with 0%nat by lia. simpl. by rewrite app_nil_r.
Qed.

Lemma memory_write_ok o bs m :
  0 <= o -> bytes_ok bs -> memory_ok m ->
  match Memory.write o bs m with Ok m' => memory_ok m' | Err _ => True | _ => False end.
Proof.
  intros Ho Hbs Hm. pose proof (memory_expand_ok o (Z.of_nat (length bs)) m Ho ltac:(lia) Hm) as He.
  unfold Memory.write. destruct (Memory.expand _ _ m) as [m'| | |]; try done.
  destruct He as ((Hb & Hs & Hmax) & Hsize & _). unfold memory_ok, Memory.splice, Memory.size, bytes_ok in *. simpl.
  rewrite !Forall_app, !length_app, length_take, length_drop.
  split_and!; auto using Forall_take, Forall_drop. lia.
Qed.

Lemma memory_read_ok o n : 0 <= o -> good memory_ok bytes_ok (query (Memory.read o n)).
Proof.
  intros Ho. apply good_query. intros m (Hb & _). unfold Memory.read. destruct (_ <? _); [done|].
  unfold bytes_ok in *. auto using Forall_take, Forall_drop.
Qed.

Lemma from_be_word h : bytes_ok h -> (length h <= 32)%nat -> in_u 256 (from_be h).
Proof.
  intros Hb Hl. unfold in_u, from_be. pose proof (from_le_range (rev h) (Forall_rev Hb)) as Hr.
  rewrite length_rev in Hr. split; [lia|]. eapply Z.lt_le_trans; [apply Hr|].
  change (2 ^ 256) with (256 ^ 32). apply Z.pow_le_mono_r; lia.
Qed.

Lemma memory_read_u256_ok o : 0 <= o -> good memory_ok (in_u 256) (query (Memory.read_u256 o)).
Proof.
  intros Ho. apply good_query. intros m Hm. unfold Memory.read_u256.
  pose proof (memory_read_ok o 32 Ho m Hm) as [_ Hr]. unfold query in Hr. simpl in Hr.
  destruct (Memory.read o 32 m) as [bs| | |] eqn:E; try done. apply from_be_word; [done|].
  unfold Memory.read in E. destruct (_ <? _); [done|]. injection E as <-. rewrite length_take. lia.
Qed.

Lemma consume_ok c : 0 <= c -> good gas_ok (fun _ => True) (Gas.consume c).
Proof.
  intros Hc g (Hd & Hu & Hl). unfold Gas.consume.
  destruct (Z.ltb_spec (Gas.limit g) (sat_add 64 (Gas.used g) c)); simpl; [by split_and!|].
  split; [|done]. split_and!; simpl; try done; unfold sat_add, u_max in *; lia.
Qed.

Lemma consume_kept c g :
  0 <= c -> gas_ok g ->
  Gas.limit (snd (Gas.consume c g)) = Gas.limit g /\ Gas.used g <= Gas.used (snd (Gas.consume c g)) /\
  Gas.costs (snd (Gas.consume c g)) = Gas.costs g /\
  (fst (Gas.consume c g) = Ok tt -> Gas.used (snd (Gas.consume c g)) = Gas.used g + c).
Proof.
  intros Hc (Hd & Hu & Hl). unfold Gas.consume.
  destruct (Z.ltb_spec (Gas.limit g) (sat_add 64 (Gas.used g) c)) as [|Hle]; simpl; split_and!; try done;
    unfold sat_add, u_max in *; lia.
Qed.

Lemma consume_sload_ok slot :
  good gas_ok (fun _ => True) (Gas.consume_sload slot) /\
  forall g, gas_ok g -> Gas.limit (snd (Gas.consume_sload slot g)) = Gas.limit g /\
                        Gas.used g <= Gas.used (snd (Gas.consume_sload slot g)).
Proof.
  assert (H : forall g, gas_ok g ->
    0 <= (if fst (Gas.warm_slot slot g) then sload_warm (Gas.costs g) else sload_cold (Gas.costs g)) /\
    gas_ok (snd (Gas.warm_slot slot g))).
  { intros g Hg. split; [|exact Hg]. destruct Hg as (-> & _). by case_match. }
  split; intros g Hg; destruct (H g Hg) as [Hc Hw].
  - apply (consume_ok _ Hc (snd (Gas.warm_slot slot g)) Hw).
  - destruct (consume_kept _ (snd (Gas.warm_slot slot g)) Hc Hw) as (? & ? & _). done.
Qed.

Lemma sstore_cost_default a b c : 0 < fst (sstore_cost gas_costs_default a b c).
Proof. by destruct a, b, c. Qed.

Lemma consume_sstore_ok slot a b c :
  good gas_ok (fun _ => True) (Gas.consume_sstore slot a b c) /\
  forall g, gas_ok g -> Gas.limit (snd (Gas.consume_sstore slot a b c g)) = Gas.limit g /\
                        Gas.used g <= Gas.used (snd (Gas.consume_sstore slot a b c g)).
Proof.
  assert (H : forall g, gas_ok g -> gas_ok (snd (Gas.consume_sstore slot a b c g)) /\
    (match fst (Gas.consume_sstore slot a b c g) with Ok _ | Err _ => True | _ => False end) /\
    Gas.limit (snd (Gas.consume_sstore slot a b c g)) = Gas.limit g /\
    Gas.used g <= Gas.used (snd (Gas.consume_sstore slot a b c g))).
  { intros g Hg. unfold Gas.consume_sstore. cbn [Gas.warm_slot]. set (g1 := Gas.mk _ _ _ _ _ _).
    assert (Hg1 : gas_ok g1) by exact Hg.
    pose proof (sstore_cost_default a b c) as Hpos. rewrite <-(proj1 Hg1) in Hpos.
    destruct (sstore_cost (Gas.costs g1) a b c) as [cost refund] eqn:E. simpl in Hpos.
    destruct (consume_ok cost ltac:(lia) g1 Hg1) as [H1 H2].
    destruct (consume_kept cost g1 ltac:(lia) Hg1) as (H3 & H4 & _). unfold bind.
    destruct (Gas.consume cost g1) as [[] g2]; simpl in *; done. }
  split; intros g Hg; destruct (H g Hg) as (? & ? & ? & ?); [|done]. split; [done|].
  by destruct (fst _).
Qed.

(** ** Stack access *)

Section access.
Context (P : Prop).
Abbreviation anyhow := (fun _ : unit => True).

Lemma safe_push x : value_ok x -> safe P (push x) anyhow.
Proof. intros. by apply safe_on_stack, stack_push_ok. Qed.

Lemma safe_pop : safe P pop value_ok.
Proof. apply safe_on_stack, stack_pop_ok. Qed.

Lemma safe_pop_u256 : safe P pop_u256 (in_u 256).
Proof.
  eapply safe_bind; [apply safe_pop|]. intros v Hv. apply safe_ok_or. intros n.
  destruct v as [| [] | | | | | | | | | | | |]; simpl in *; intros [= <-]; done.
Qed.

Lemma safe_pop_bool : safe P pop_bool (fun _ => True).
Proof. eapply safe_bind; [apply safe_pop|]. intros v Hv. by apply safe_ok_or. Qed.

Lemma to_be_word n : word_ok (to_be 32 n).
Proof. split; auto with qfc. Qed.

Lemma safe_pop_h256 : safe P pop_h256 word_ok.
Proof.
  eapply safe_bind; [apply safe_pop|].
  intros v Hv. destruct v; try apply safe_fail; apply safe_ret; [apply to_be_word|done].
Qed.

Lemma safe_pop_usize : P -> safe P pop_usize (in_u 64).
Proof.
  intros HP. eapply safe_bind; [apply safe_pop_u256|]. intros n [Hn _]. unfold as_usize.
  destruct (Z.ltb_spec n (2 ^ 64)); [by apply safe_ret|by apply safe_panic].
Qed.

Lemma safe_binop f :
  (forall a b, in_u 256 a -> in_u 256 b -> value_ok (f a b)) -> safe P (binop f) anyhow.
Proof.
  intros Hf. eapply safe_bind; [apply safe_pop_u256|]. intros b Hb.
  eapply safe_bind; [apply safe_pop_u256|]. intros a Ha. apply safe_push. auto.
Qed.

Lemma safe_frame_index : safe P frame_index (fun _ => True).
Proof. eapply safe_bind; [by apply (safe_gets _ _ (fun _ => True))|]. intros. by apply safe_ret. Qed.

Lemma safe_current_frame : safe P current_frame frame_ok.
Proof.
  eapply safe_bind; [by apply (safe_gets _ _ (Forall frame_ok)), ok_frames|].
  intros fs Hfs. apply safe_ok_or. intros f. destruct fs; simpl; [done|]. intros [= <-].
  by apply Forall_cons in Hfs as [??].
Qed.
End access.
