(* ===== verification/QvmSafety.v ===== *)
(** * Every instruction of the QVM is safe

    [execute_instruction] satisfies the logic of [QvmTheory]: it keeps the
    invariant, changes only what it may, and panics only for the instructions
    [may_panic] lists. The loop [vm_run] then ends within [vm_fuel] rounds. *)

From S2P Require Import Prelude Externals QvmMemory QvmGas Qvm QvmTheory.

(** The instructions that convert a word of the stack to [usize], and a push of more than 32 bytes. *)
Definition may_panic (i : Instruction) : bool :=
  match opcode i with
  | OpLoad | OpStore | OpLog0 | OpLog1 | OpLog2 | OpLog3 | OpLog4 | OpKeccak256 => true
  | OpPush => (32 <? length (default [] (operand i)))%nat
  | _ => false
  end.

(** A jump has a price, and its target is a [u16]. *)
Definition flow_ok (i : Instruction) (c : ControlFlow) : Prop :=
  match c with Jump t => in_u 64 t /\ 0 < opcode_cost gas_costs_default (opcode i) | _ => True end.

Lemma pow_step r b e :
  0 <= e -> (r * b ^ (Z.b2z (Z.odd e))) * (b * b) ^ (Z.shiftr e 1) = r * b ^ e.
Proof.
  intros He. rewrite Z.shiftr_div_pow2 by lia. change (2 ^ 1) with 2. rewrite <-Z.pow_2_r, <-Z.pow_mul_r by (try lia; apply Z.div_pos; lia).
  rewrite <-Z.mul_assoc, <-Z.pow_add_r by (pose proof (Z.div_pos e 2); destruct (Z.odd e); simpl; lia).
  do 2 f_equal. rewrite <-Z.div2_div. pose proof (Z.div2_odd e). lia.
Qed.

Lemma pow_mod_l m b e : 0 < m -> 0 <= e -> (b mod m) ^ e mod m = b ^ e mod m.
Proof.
  intros Hm. revert e. apply natlike_ind; [done|]. intros e He IH. rewrite !Z.pow_succ_r by done.
  rewrite Z.mul_mod, IH, <-Z.mul_mod, Z.mul_mod_idemp_l by lia. done.
Qed.

Lemma pow_loop_spec fuel r b e :
  in_u 256 r -> 0 <= e < 2 ^ Z.of_nat fuel -> pow_loop fuel r b e = Ok (wrap 256 (r * b ^ e)).
Proof.
  revert r b e. induction fuel as [|fuel IH]; intros r b e Hr He.
  - replace e with 0 by (simpl in He; lia). cbn. f_equal. rewrite Z.mul_1_r. symmetry. by apply wrap_small.
  - cbn [pow_loop]. destruct (Z.eqb_spec e 0) as [->|Hne].
    { f_equal. rewrite Z.pow_0_r, Z.mul_1_r. symmetry. by apply wrap_small. }
    rewrite IH.
    + f_equal. rewrite <-(pow_step r b e) by lia. change 1 with (Z.ones 1) at 1. rewrite Z.land_ones by lia.
      change (2 ^ 1) with 2. rewrite Zmod_odd. unfold wrap. rewrite <-Z.mul_mod_idemp_r by lia.
      rewrite pow_mod_l by (try lia; apply Z.shiftr_nonneg; lia). rewrite Z.mul_mod_idemp_r by lia.
      destruct (Z.odd e); simpl.
      * rewrite Z.mul_mod_idemp_l by lia. by rewrite Z.pow_1_r.
      * by rewrite Z.mul_1_r.
    + case_match; [by apply wrap_range|done].
    + rewrite Z.shiftr_div_pow2 by lia. change (2 ^ 1) with 2. rewrite Nat2Z.inj_succ, Z.pow_succ_r in He by lia.
      split; [apply Z.div_pos; lia|]. apply Z.div_lt_upper_bound; lia.
Qed.

Lemma bits_in_u w x : 0 <= w -> 0 <= x -> (forall i, w <= i -> Z.testbit x i = false) -> in_u w x.
Proof.
  intros Hw Hx Hb. split; [done|]. apply Z.nle_gt. intros Hge.
  assert (Hpos : 0 < x) by (pose proof (Z.pow_pos_nonneg 2 w); lia).
  pose proof (Z.bit_log2 x Hpos) as Ht. rewrite Hb in Ht; [done|].
  rewrite <-(Z.log2_pow2 w) by done. by apply Z.log2_le_mono.
Qed.

Lemma in_u_bits w x i : in_u w x -> w <= i -> 0 <= w -> Z.testbit x i = false.
Proof.
  intros [H1 H2] Hi Hw. destruct (Z.eq_dec x 0) as [->|]; [apply Z.bits_0|].
  apply Z.bits_above_log2; [done|]. apply Z.log2_lt_pow2; [lia|]. eapply Z.lt_le_trans; [done|].
  apply Z.pow_le_mono_r; lia.
Qed.

Lemma land_in_u a b : in_u 256 a -> in_u 256 b -> in_u 256 (Z.land a b).
Proof.
  intros Ha Hb. apply bits_in_u; [lia|apply Z.land_nonneg; left; apply Ha|].
  intros i Hi. rewrite Z.land_spec, (in_u_bits 256 a) by (done || lia). done.
Qed.

Lemma lor_in_u a b : in_u 256 a -> in_u 256 b -> in_u 256 (Z.lor a b).
Proof.
  intros Ha Hb. apply bits_in_u; [lia|apply Z.lor_nonneg; split; [apply Ha|apply Hb]|].
  intros i Hi. rewrite Z.lor_spec, (in_u_bits 256 a), (in_u_bits 256 b) by (done || lia). done.
Qed.

Lemma lxor_in_u a b : in_u 256 a -> in_u 256 b -> in_u 256 (Z.lxor a b).
Proof.
  intros Ha Hb. apply bits_in_u; [lia|apply Z.lxor_nonneg; split; intros; [apply Hb|apply Ha]|].
  intros i Hi. rewrite Z.lxor_spec, (in_u_bits 256 a), (in_u_bits 256 b) by (done || lia). done.
Qed.

Lemma shiftr_in_u a n : in_u 256 a -> 0 <= n -> in_u 256 (Z.shiftr a n).
Proof.
  intros [H1 H2] Hn. rewrite Z.shiftr_div_pow2 by done. pose proof (Z.pow_pos_nonneg 2 n). split; [apply Z.div_pos; lia|].
  apply Z.div_lt_upper_bound; nia.
Qed.

Create HintDb qvm.
#[export] Hint Resolve safe_push safe_pop safe_pop_u256 safe_pop_bool safe_pop_h256 safe_frame_index safe_current_frame
  safe_fail to_be_word : qvm.

(** Runs the next binding of an instruction with a lemma of the database. *)
Ltac sstep := eapply safe_bind; [solve [eauto with qvm]|intros ? ?; cbn beta].

Section instructions.
Context `{B : Blake3} `{!Digest32 B}.
Context (i : Instruction) (Hi : bytes_ok (default [] (operand i))).
Abbreviation P := (may_panic i = true).
Abbreviation done_ := (fun _ : unit => True).

Lemma safe_decode_push : opcode i = OpPush -> safe P (decode_push_value i) value_ok.
Proof.
  intros Ho. unfold decode_push_value, may_panic. rewrite Ho. destruct (operand i) as [op|]; [|by apply safe_ret].
  simpl in *. destruct (Nat.eqb_spec (length op) 32); [by apply safe_ret, from_be_word; [|lia]|].
  destruct (Nat.ltb_spec 32 (length op)); [by apply safe_panic|].
  apply safe_ret. apply from_be_word.
  - unfold bytes_ok. apply Forall_app. split; [|done]. by apply Forall_replicate.
  - rewrite length_app, length_replicate. lia.
Qed.

Lemma safe_decode_u16 P' : safe P' (decode_u16 i) (in_u 64).
Proof.
  unfold decode_u16. destruct (operand i) as [[|a [|b l]]|]; try (by apply safe_ret).
  apply safe_ret. simpl in Hi. apply Forall_cons in Hi as [Ha Hl]. apply Forall_cons in Hl as [Hb _].
  unfold is_byte in *. unfold in_u, from_be. simpl. lia.
Qed.

Lemma safe_decode_string P' : safe P' (decode_string i) (fun _ => True).
Proof. unfold decode_string. destruct (operand i); [case_match|]; auto using safe_ret, safe_fail. Qed.

Lemma safe_exec_stack : (opcode i = OpPush \/ opcode i = OpPop \/ opcode i = OpDup \/ opcode i = OpSwap) ->
  safe P (exec_stack i) done_.
Proof.
  intros Ho. unfold exec_stack. destruct Ho as [Ho|[Ho|[Ho|Ho]]]; rewrite Ho.
  - eapply safe_bind; [by apply safe_decode_push|]. auto with qvm.
  - sstep. by apply safe_ret.
  - apply safe_on_stack, stack_dup_ok.
  - apply safe_on_stack, stack_swap_ok.
Qed.

Lemma safe_pow a b P' : in_u 256 a -> in_u 256 b -> safe P' (pow_u256 a b) (in_u 256).
Proof.
  intros Ha Hb. unfold pow_u256. destruct (b =? 0); [by apply safe_ret|]. destruct (a =? 0); [by apply safe_ret|].
  intros v Hv. pose proof (pow_loop_spec 256 1 a b ltac:(done) Hb) as E. unfold query, sat. cbn [fst snd]. rewrite E.
  split_and!; [by apply wrap_range|done|reflexivity].
Qed.

Lemma safe_exec_arith o P' : safe P' (exec_arith o) done_.
Proof.
  assert (Hneg : safe P' (let! a := pop_u256 in push (VU256 (wrap 256 (0 - a)))) done_).
  { sstep. apply safe_push. by apply wrap_range. }
  destruct o; try exact Hneg; cbn [exec_arith];
    try (apply safe_binop; intros a b Ha Hb; simpl; try (by apply wrap_range)).
  - destruct (Z.eqb_spec b 0); [done|]. simpl. unfold in_u in *. split; [apply Z.div_pos; lia|].
    apply Z.div_lt_upper_bound; [lia|]. nia.
  - destruct (Z.eqb_spec b 0); [done|]. simpl. unfold in_u in *. pose proof (Z.mod_pos_bound a b ltac:(lia)). lia.
  - sstep. sstep. eapply safe_bind; [by apply safe_pow|]. auto with qvm.
Qed.

Lemma safe_exec_compare o P' : safe P' (exec_compare o) done_.
Proof.
  assert (Hge : safe P' (binop (fun a b => VBool (b <=? a))) done_) by (by apply safe_binop).
  destruct o; try exact Hge; cbn [exec_compare]; try (by apply safe_binop); sstep; sstep; by apply safe_push.
Qed.

Lemma safe_exec_logic o P' : safe P' (exec_logic o) done_.
Proof.
  assert (Hnot : safe P' (let! a := pop_bool in push (VBool (negb a))) done_) by (sstep; by apply safe_push).
  destruct o; try exact Hnot; cbn [exec_logic]; sstep; sstep; by apply safe_push.
Qed.

Lemma safe_exec_bitwise o P' : safe P' (exec_bitwise o) done_.
Proof.
  assert (Hshr : safe P' (binop (fun a s => if 256 <=? s then value_zero else VU256 (Z.shiftr a s))) done_).
  { apply safe_binop. intros a b Ha Hb. case_match; [done|]. apply shiftr_in_u; [done|apply Hb]. }
  destruct o; try exact Hshr; cbn [exec_bitwise]; try (apply safe_binop; intros a b Ha Hb; simpl).
  - by apply land_in_u.
  - by apply lor_in_u.
  - by apply lxor_in_u.
  - eapply safe_bind; [apply safe_pop_u256|]. intros a [Ha Ha']. apply safe_push. unfold value_ok, in_u, u_max. lia.
  - case_match; [done|]. by apply wrap_range.
Qed.

Lemma frame_set_local_ok j x f f' :
  0 <= j -> value_ok x -> frame_ok f -> Frame.set_local j x f = Ok f' -> frame_ok f' /\ Frame.pc f' = Frame.pc f.
Proof.
  intros Hj Hx (Hpc & Hl & Hn). unfold Frame.set_local. destruct (Z.leb_spec MAX_LOCALS j); [done|]. intros [= <-].
  split; [|done]. split_and!; simpl; [done| |].
  - apply Forall_insert; [|done]. apply Forall_app. split; [done|]. by apply Forall_replicate.
  - rewrite length_insert, length_app, length_replicate. lia.
Qed.

Lemma safe_set_local j x P' :
  0 <= j -> value_ok x ->
  safe P' (let! frame := current_frame in
           let! frame := map_err EMemory (query (fun _ => Frame.set_local j x frame)) in set_current frame) done_.
Proof.
  intros Hj Hx v [? ? ? Hf ? ?]. unfold sat, bind, current_frame, bind, gets, ok_or.
  destruct (vframes v) as [|f fs] eqn:E; simpl; [by split_and!; [|constructor; rewrite ?E|]|].
  apply Forall_cons in Hf as [Hf Hfs]. unfold map_err, query.
  destruct (Frame.set_local j x f) as [f'| | |] eqn:Es; simpl;
    [|by split_and!; [|constructor; rewrite ?E; [..|constructor| |]|]|by unfold Frame.set_local in Es; case_match..].
  destruct (frame_set_local_ok _ _ _ _ Hj Hx Hf Es) as [Hf' Hpc]. rewrite E.
  split_and!; [done| |]; constructor; simpl; try done; [by constructor|]. rewrite E. simpl. by rewrite Hpc.
Qed.

Lemma safe_exec_memory : (opcode i = OpLoad \/ opcode i = OpStore \/ opcode i = OpLoadLocal \/ opcode i = OpStoreLocal) ->
  safe P (exec_memory i) done_.
Proof.
  intros Ho. unfold exec_memory, may_panic. destruct Ho as [Ho|[Ho|[Ho|Ho]]]; rewrite Ho.
  - eapply safe_bind; [by apply safe_pop_usize|]. intros o [Ho' _].
    eapply safe_bind; [by apply safe_on_memory, memory_read_u256_ok|]. auto with qvm.
  - sstep. eapply safe_bind; [by apply safe_pop_usize|]. intros o [Ho' _].
    apply safe_on_memory, good_update. intros m Hm. apply memory_write_ok; auto with qfc.
  - eapply safe_bind; [apply safe_decode_u16|]. intros j Hj. sstep. apply (safe_bind _ _ _ value_ok).
    + unfold Frame.get_local. intros v Hv. unfold map_err, query, sat.
      destruct (Frame.locals a !! Z.to_nat j) eqn:E; simpl; split_and!; try done. destruct H as (_ & Hl & _).
      by eapply Forall_lookup_1.
    + auto with qvm.
  - eapply safe_bind; [apply safe_decode_u16|]. intros j [Hj _]. sstep. by apply safe_set_local.
Qed.
Lemma slots_load_ok k s : slots_ok s -> word_ok (Slots.load k s).
Proof.
  intros [Hs _]. unfold Slots.load. destruct (Slots.slots s !! k) eqn:E; [by apply (Hs k)|]. by split; [|by_decide].
Qed.

Lemma slots_store_ok k x s : word_ok x -> slots_ok s -> slots_ok (Slots.store k x s).
Proof.
  intros Hx Hs. pose proof (slots_load_ok k s Hs) as Hl. destruct Hs as [Hs Ho]. split; simpl.
  - by apply map_Forall_insert_2.
  - case_match; [done|]. by apply map_Forall_insert_2.
Qed.

Lemma safe_sload P' : safe P' (exec_storage OpSLoad) done_.
Proof.
  cbn [exec_storage]. sstep. eapply safe_bind; [apply safe_on_gas; apply consume_sload_ok|]. intros _ _.
  eapply safe_bind; [apply (safe_gets _ _ word_ok); intros; by apply slots_load_ok, ok_slots|].
  intros w [Hl Hb]. apply safe_push, from_be_word; [done|lia].
Qed.

Lemma safe_sstore P' : safe P' (exec_storage OpSStore) done_.
Proof.
  intros v Hv. cbn [exec_storage]. unfold sat at 1. rewrite bind_gets. cbn beta.
  destruct (cx_is_static (vcontext v)) eqn:Es; [by apply safe_fail|].
  assert (Hns : forall w, keeps v w -> cx_is_static (vcontext w) = false) by (intros w Hk; by rewrite (k_context _ _ Hk)).
  eapply sat_bind; [by apply safe_pop_u256|]. intros x v1 H1 K1 Hx.
  eapply sat_bind; [by apply safe_pop_h256|]. intros k v2 H2 K2 Hk. unfold sat. rewrite !bind_gets. cbn beta.
  eapply sat_bind; [apply safe_on_gas; [apply consume_sstore_ok..|done]|]. intros _ v3 H3 K3 _.
  assert (E3 : cx_is_static (vcontext v3) = false) by (apply Hns; by do 2 (etransitivity; [done|])).
  split_and!; [done| |]; simpl.
  - destruct H3. constructor; simpl; try done. apply slots_store_ok; [apply to_be_word|done].
  - constructor; simpl; try done. by rewrite E3.
Qed.

Lemma safe_exec_control P' : safe P' (exec_control i) (flow_ok i).
Proof.
  assert (Hret : forall c, match c with Jump _ => False | _ => True end -> safe P' (ret c) (flow_ok i)).
  { intros c Hc. apply safe_ret. by destruct c. }
  unfold exec_control. destruct (opcode i) eqn:Ho; try (by apply Hret).
  - eapply safe_bind; [apply safe_decode_u16|]. intros t Ht. apply safe_ret. unfold flow_ok. by rewrite Ho.
  - eapply safe_bind; [apply safe_decode_u16|]. intros t Ht. sstep. case_match; [|by apply Hret].
    apply safe_ret. unfold flow_ok. by rewrite Ho.
  - eapply safe_bind; [apply safe_decode_u16|]. intros t Ht. sstep. case_match; [|by apply Hret].
    apply safe_ret. unfold flow_ok. by rewrite Ho.
  - eapply safe_bind; [apply safe_decode_string|]. intros name _. apply (safe_bind _ _ _ done_); [|auto].
    eapply safe_bind; [by apply (safe_gets _ _ (fun _ => True))|]. intros fs _.
    case_match; [apply safe_fail|by apply safe_ret].
  - sstep. apply (safe_bind _ _ _ done_); [|auto]. apply safe_on_resources, good_query.
    intros r _. unfold Tracker.check_frame_exit. by destruct (existsb _ _).
Qed.

Lemma value_word64 n : in_u 64 n -> value_ok (value_from_u64 n).
Proof. unfold value_from_u64, value_ok, in_u. lia. Qed.

Lemma safe_exec_info o P' : safe P' (exec_info o) done_.
Proof.
  eapply safe_bind; [apply (safe_gets _ _ context_ok), ok_context|]. intros c [].
  assert (Hgas : safe P' (let! g := gets vgas in push (value_from_u64 (Gas.remaining g))) done_).
  { eapply safe_bind; [apply (safe_gets _ _ gas_ok), ok_gas|]. intros g (_ & Hu & Hl). apply safe_push, value_word64.
    unfold Gas.remaining, sat_sub, in_u, u_max in *. lia. }
  destruct o; try exact Hgas; apply safe_push; try done; try (by apply value_word64). by split; [|by_decide].
Qed.

Lemma safe_pop_topics n P' : safe P' (pop_topics n) (Forall word_ok).
Proof.
  induction n as [|n IH]; cbn [pop_topics]; [by apply safe_ret|].
  sstep. eapply safe_bind; [exact IH|]. intros ts Hts. apply safe_ret. by constructor.
Qed.

Lemma safe_exec_log o : P -> safe P (exec_log o) done_.
Proof.
  intros HP v Hv. unfold exec_log, sat at 1. rewrite bind_gets. cbn beta.
  destruct (cx_is_static (vcontext v)) eqn:Es; [by apply safe_fail|].
  eapply sat_bind; [by apply safe_pop_usize|]. intros size v1 H1 K1 _.
  eapply sat_bind; [by apply safe_pop_usize|]. intros off v2 H2 K2 [Ho _].
  eapply sat_bind; [by apply safe_pop_topics|]. intros ts v3 H3 K3 _.
  eapply sat_bind; [apply safe_on_memory; [by apply memory_read_ok|done]|]. intros d v4 H4 K4 _.
  assert (K : keeps v v4) by (by do 3 (etransitivity; [done|])).
  split_and!; [done| |]; simpl; [by destruct H4; constructor|]. constructor; simpl; try done.
  by rewrite (k_context _ _ K), Es.
Qed.

Lemma safe_exec_crypto o : (o = OpKeccak256 -> P) -> safe P (exec_crypto o) done_.
Proof.
  intros HP. assert (Hz : safe P (push (VBytes32 H256_zero)) done_) by (apply safe_push; by split; [|by_decide]).
  destruct o; try exact Hz. cbn [exec_crypto].
  eapply safe_bind; [by apply safe_pop_usize, HP|]. intros size _.
  eapply safe_bind; [by apply safe_pop_usize, HP|]. intros off [Ho _].
  eapply safe_bind; [by apply safe_on_memory, memory_read_ok|]. intros d _.
  apply safe_push. split; [apply blake3_length|apply blake3_bytes].
Qed.

Lemma safe_borrow_top mut P' : safe P' (borrow_top mut) done_.
Proof.
  unfold borrow_top. eapply (safe_bind _ _ _ value_ok).
  - apply safe_on_stack, good_query. intros s Hs. pose proof (stack_peek_ok 0 s) as Hp. unfold Stack.peek.
    destruct (Stack.peek_at 0 s) eqn:E; [by eapply Hp|done|unfold Stack.peek_at in E; by case_match..].
  - intros x _. destruct x; try (by apply safe_ret). sstep. apply safe_on_resources, good_update.
    intros r _. unfold Tracker.borrow. destruct (Tracker.resources r !! _); [|done]. by destruct (existsb _ _).
Qed.

Lemma safe_exec_resource P' : safe P' (exec_resource i) done_.
Proof.
  unfold exec_resource. destruct (opcode i); try apply safe_fail; try apply safe_borrow_top.
  - eapply safe_bind; [apply safe_decode_string|]. intros name _. sstep. sstep.
    apply (safe_bind _ _ _ (fun _ => True)); [by apply safe_on_resources|]. intros id _. by apply safe_push.
  - sstep. destruct a; try apply safe_fail. apply safe_on_resources, good_update. intros r _.
    unfold Tracker.destroy. by destruct (Tracker.borrowed _ _).
  - sstep. destruct a; try apply safe_fail. sstep. apply (safe_bind _ _ _ done_); [|intros _ _; by apply safe_push].
    apply safe_on_resources, good_update. intros r _. unfold Tracker.transfer. destruct (Tracker.borrowed _ _); [done|].
    by destruct (Tracker.resources r !! _).
Qed.

Lemma safe_exec_external o P' : safe P' (exec_external o) done_.
Proof.
  assert (Hz : safe P' (push (VAddress H160_zero)) done_) by (apply safe_push; by split; [|by_decide]).
  by destruct o; try exact Hz; apply safe_push.
Qed.

(** Every instruction keeps the invariant and only panics where [may_panic] says. *)
Lemma safe_execute_instruction : safe P (execute_instruction i) (flow_ok i).
Proof.
  assert (Hc : forall m : VM unit, safe P m done_ -> safe P (m ;; ret Continue) (flow_ok i)).
  { intros m Hm. eapply safe_bind; [exact Hm|]. intros _ _. by apply safe_ret. }
  assert (Hp : safe P (ret Continue) (flow_ok i)) by (by apply safe_ret).
  unfold execute_instruction. destruct (opcode i) eqn:Ho;
    first [exact Hp | apply safe_exec_control | apply Hc];
    first [apply safe_exec_arith | apply safe_exec_compare | apply safe_exec_logic | apply safe_exec_bitwise
          | apply safe_sload | apply safe_sstore | apply safe_exec_info | apply safe_exec_resource
          | apply safe_exec_external | apply safe_exec_stack; rewrite Ho; tauto | apply safe_exec_memory; rewrite Ho; tauto
          | apply safe_exec_log; unfold may_panic; by rewrite Ho
          | apply safe_exec_crypto; unfold may_panic; rewrite Ho; done].
Qed.
End instructions.

(** ** The loop *)

(** What a run keeps: as [keeps], for any positions of the frames. *)
Record advances (v v' : Vm) : Prop := {
  a_context : vcontext v' = vcontext v;
  a_heap : vheap v' = vheap v;
  a_contracts : vcontracts v' = vcontracts v;
  a_limit : Gas.limit (vgas v') = Gas.limit (vgas v);
  a_used : Gas.used (vgas v) <= Gas.used (vgas v');
  a_static : cx_is_static (vcontext v) = true -> vstorage v' = vstorage v /\ vlogs v' = vlogs v;
}.

#[export] Instance advances_preorder : PreOrder advances.
Proof.
  split; [by constructor|].
  intros u v w [? ? ? ? ? Hs] [Hc ? ? ? ? Hs']. constructor; try congruence; [lia|].
  intros H. destruct (Hs H) as [??], Hs' as [??]; [congruence|]. split; congruence.
Qed.

Lemma keeps_advances v v' : keeps v v' -> advances v v'.
Proof. intros []. by constructor. Qed.

Lemma set_frames_advances fs v : advances v (set_frames fs v).
Proof. by constructor. Qed.

(** The potential: gas at the price of a full pass over the code, and what is
    left of the code in every frame. *)
Definition rest_of (n pc : Z) : Z := n + 1 - Z.min pc n.
Definition potential (code : list Instruction) (v : Vm) : Z :=
  let n := Z.of_nat (length code) in
  (Gas.limit (vgas v) - Gas.used (vgas v)) * (n + 2) + foldr (fun pc a => rest_of n pc + a) 0 (map Frame.pc (vframes v)).
Definition vm_fuel (code : list Instruction) (v : Vm) : nat := Z.to_nat (potential code v).

Lemma opcode_cost_nonneg o : 0 <= opcode_cost gas_costs_default o.
Proof. by destruct o. Qed.

Lemma rest_of_pos n pc : 0 < rest_of n pc.
Proof. unfold rest_of. lia. Qed.

Lemma frames_weight_nonneg n pcs : 0 <= n -> 0 <= foldr (fun pc a => rest_of n pc + a) 0 pcs.
Proof. intros Hn. induction pcs as [|pc pcs IH]; simpl; [done|]. pose proof (rest_of_pos n pc). lia. Qed.

Lemma potential_nonneg code v : vm_ok v -> 0 <= potential code v.
Proof.
  intros [_ _ _ _ (_ & Hu & _) _]. unfold potential. pose proof (frames_weight_nonneg (Z.of_nat (length code)) (map Frame.pc (vframes v))). nia.
Qed.

Section loop.
Context `{B : Blake3} `{!Digest32 B} (code : list Instruction) (Hcode : code_ok code).
Abbreviation n := (Z.of_nat (length code)).
Abbreviation can_panic := (exists i, i ∈ code /\ may_panic i = true).

(** A round ends in a machine that has advanced, with less potential if the loop goes on. *)
Definition round_ok (v : Vm) (r : Result ExecutionError unit * Vm) : Prop :=
  vm_ok (snd r) /\ advances v (snd r) /\
  match fst r with Ok _ => potential code (snd r) < potential code v | Err _ => True | Panic => can_panic | NoFuel => False end.

Lemma pop_frame_round v f fs :
  vm_ok v -> vframes v = f :: fs -> round_ok v (Ok tt, set_frames (tail (vframes v)) v).
Proof.
  intros [? ? ? Hf ? ?] E. split_and!; simpl; [|by constructor|].
  - constructor; simpl; try done. rewrite E in *. by apply Forall_cons in Hf as [_ ?].
  - unfold potential. simpl. rewrite E. simpl. pose proof (rest_of_pos n (Frame.pc f)). lia.
Qed.

Lemma charge_spec o v :
  vm_ok v ->
  let r := on_gas (Gas.consume_opcode o) v in
  vm_ok (snd r) /\ keeps v (snd r) /\
  match fst r with
  | Ok _ => Gas.used (vgas (snd r)) = Gas.used (vgas v) + opcode_cost gas_costs_default o
  | Err _ => True
  | _ => False
  end.
Proof.
  intros Hv r. pose proof (ok_gas _ Hv) as Hg. pose proof (opcode_cost_nonneg o) as Hnn. rewrite <-(proj1 Hg) in Hnn |- *.
  pose proof (consume_ok _ Hnn _ Hg) as [H1 H2]. pose proof (consume_kept _ _ Hnn Hg) as (H3 & H4 & _ & H5).
  unfold r, on_gas, zoom, Gas.consume_opcode. destruct Hv.
  destruct (Gas.consume _ _) as [[[]|e| |] g]; simpl in *; try done; split_and!; try done; auto.
Qed.

Lemma follow_round i f fs v v2 c v3 :
  vframes v = f :: fs -> vm_ok v -> vm_ok v2 -> vm_ok v3 ->
  0 <= Frame.pc f < n -> map Frame.pc (vframes v2) = Frame.pc f + 1 :: map Frame.pc fs ->
  advances v v2 -> Gas.used (vgas v2) = Gas.used (vgas v) + opcode_cost gas_costs_default (opcode i) ->
  keeps v2 v3 -> flow_ok i c -> round_ok v (follow c v3).
Proof.
  intros E Hv H2 H3 Hpc Epc A2 Eu K3 Hc. pose proof (opcode_cost_nonneg (opcode i)) as Hcost.
  assert (A3 : advances v v3) by (etransitivity; [done|by apply keeps_advances]).
  assert (Epc3 : map Frame.pc (vframes v3) = Frame.pc f + 1 :: map Frame.pc fs) by (by rewrite (k_pcs _ _ K3)).
  pose proof (k_used _ _ K3) as Hu. pose proof (a_limit _ _ A3) as Hl.
  assert (Hg3 : Gas.used (vgas v3) <= Gas.limit (vgas v3)) by (destruct H3 as [_ _ _ _ (_ & [_ ?] & _) _]; done).
  destruct (vframes v3) as [|f3 fs3] eqn:E3; [done|]. simpl in Epc3. injection Epc3 as Epc3 Epcs.
  pose proof (ok_frames _ H3) as Hf3. rewrite E3 in Hf3. apply Forall_cons in Hf3 as [Hf3 Hfs3].
  pose proof (frames_weight_nonneg n (map Frame.pc fs)) as Hw.
  destruct c as [|t| | |msg]; unfold round_ok, follow, modify, ret, fail; cbn [fst snd]; try (by split_and!).
  - split_and!; try done. unfold potential. rewrite E3, E. simpl. rewrite Epc3, Epcs.
    assert (rest_of n (Frame.pc f + 1) < rest_of n (Frame.pc f)) by (unfold rest_of; lia). nia.
  - destruct Hc as [Ht Hcpos]. unfold jump_to. rewrite E3. split_and!.
    + destruct H3. constructor; simpl; try done. constructor; [|done]. destruct Hf3 as (_ & ? & ?). by split_and!.
    + etransitivity; [done|]. apply set_frames_advances.
    + unfold potential. simpl. rewrite E. simpl. rewrite Epcs.
      assert (rest_of n t <= n + rest_of n (Frame.pc f)) by (unfold rest_of, in_u in *; lia). nia.
  - split_and!.
    + destruct H3. constructor; simpl; try done. by rewrite E3.
    + etransitivity; [done|]. apply set_frames_advances.
    + unfold potential. simpl. rewrite E, E3. simpl. rewrite Epcs. pose proof (rest_of_pos n (Frame.pc f)). nia.
Qed.

Lemma vm_step_round f fs v : vm_ok v -> vframes v = f :: fs -> round_ok v (vm_step code f v).
Proof.
  intros Hv E. pose proof (ok_frames _ Hv) as Hf. rewrite E in Hf. apply Forall_cons in Hf as [(Hpc & Hl & Hn) Hfs].
  unfold vm_step. destruct (code !! Z.to_nat (Frame.pc f)) as [i|] eqn:Ei; [|by eapply pop_frame_round].
  destruct Hcode as [Hbytes Hlen]. pose proof (lookup_lt_Some _ _ _ Ei) as Hlt.
  assert (Hpc' : 0 <= Frame.pc f < n) by (destruct Hpc; lia).
  assert (Hpanic : may_panic i = true -> can_panic) by (intros; exists i; split; [by eapply list_elem_of_lookup_2|done]).
  assert (Hi : bytes_ok (default [] (operand i))) by exact (Forall_lookup_1 _ _ _ _ Hbytes Ei).
  rewrite bind_modify. set (v1 := jump_to _ v).
  assert (E1 : v1 = set_frames (Frame.set_pc (Frame.pc f + 1) f :: fs) v).
  { unfold v1, jump_to. rewrite E. unfold u64_add. rewrite wrap_small by (unfold in_u; lia). done. }
  assert (H1 : vm_ok v1).
  { rewrite E1. destruct Hv. constructor; simpl; try done. constructor; [|done]. split_and!; [unfold in_u; simpl; lia|done..]. }
  assert (A1 : advances v v1) by (rewrite E1; apply set_frames_advances).
  destruct (charge_spec (opcode i) v1 H1) as (H2 & K2 & Ho). unfold bind at 1.
  destruct (on_gas _ v1) as [[[]|e| |] v2] eqn:Eg; simpl in H2, K2, Ho; try done.
  2: { split_and!; [done| |done]. etransitivity; [done|by apply keeps_advances]. }
  destruct (safe_execute_instruction i Hi v2 H2) as (Hr & H3 & K3). unfold bind.
  assert (A3 : advances v (snd (execute_instruction i v2))).
  { etransitivity; [exact A1|]. etransitivity; by apply keeps_advances. }
  destruct (execute_instruction i v2) as [[c|e| |] v3]; simpl in *; [|by split_and!|by split_and!; [..|apply Hpanic]|done].
  eapply (follow_round i f fs v v2); try done.
  - rewrite (k_pcs _ _ K2), E1. done.
  - etransitivity; [exact A1|by apply keeps_advances].
  - rewrite Ho, E1. done.
Qed.

Lemma vm_run_ok fuel v :
  vm_ok v -> (vm_fuel code v <= fuel)%nat ->
  vm_ok (snd (vm_run fuel code v)) /\ advances v (snd (vm_run fuel code v)) /\
  match fst (vm_run fuel code v) with Panic => can_panic | NoFuel => False | _ => True end.
Proof.
  revert v. induction fuel as [|fuel IH]; intros v Hv Hfuel; pose proof (potential_nonneg code v Hv) as Hp;
    cbn [vm_run]; rewrite bind_gets; cbn beta; destruct (vframes v) as [|f fs] eqn:E; try done.
  - exfalso. unfold vm_fuel in Hfuel. unfold potential in *. rewrite E in *. simpl in *. pose proof (rest_of_pos n (Frame.pc f)).
    pose proof (frames_weight_nonneg n (map Frame.pc fs)). destruct Hv as [_ _ _ _ (_ & Hu & _) _]. nia.
  - destruct (vm_step_round f fs v Hv E) as (H1 & A1 & Hr). unfold bind.
    destruct (vm_step code f v) as [[[]|e| |] v1]; simpl in *; try done.
    destruct (IH v1 H1) as (H2 & A2 & Hr2); [unfold vm_fuel in *; pose proof (potential_nonneg code v1 H1); lia|].
    split_and!; [done| |done]. by transitivity v1.
Qed.
End loop.
