(* ===== verification/QvmProps.v ===== *)
(** * Theorems about the QVM

    Executions end, stay within their gas and only panic on a listed set of
    instructions; a static call writes nothing; exponentiation is exact modulo
    2^256; [Storage::revert] undoes any series of writes. Two theorems show what
    the interpreter does not enforce: a reverted execution keeps its writes in
    the machine and in its output, and resources can be duplicated and leaked. *)

From S2P Require Import Prelude Externals QvmMemory QvmGas Qvm QvmTheory QvmSafety.

(** The machine with the frame [execute] pushes. *)
Definition entered (v : Vm) : Vm := set_frames (Frame.new main 0 :: vframes v) v.

Lemma entered_ok v : vm_ok v -> vm_ok (entered v).
Proof. intros []. constructor; simpl; try done. constructor; [|done]. by split_and!. Qed.

Lemma entered_advances v : advances v (entered v).
Proof. apply set_frames_advances. Qed.

(** The output of [execute] is read off the machine; collecting it pops one value. *)
Lemma collect_run b v :
  exists value st, collect b v =
    (Ok (mkOutput (vreturn_data v) value (Gas.used (vgas v)) (Gas.refund (vgas v)) (vlogs v)
           (Slots.get_modified (vstorage v)) b), set_stack st v).
Proof.
  unfold collect, bind, attempt, pop, on_stack, zoom, Stack.pop. destruct (Stack.values (vstack v)); eauto.
Qed.

Lemma collect_ok b v : vm_ok v -> vm_ok (snd (collect b v)) /\ advances v (snd (collect b v)).
Proof.
  intros Hv. destruct (safe_pop False v Hv) as (Ho & H1 & K1). unfold collect, bind, attempt.
  destruct (pop v) as [[x|e| |] v1]; simpl in *; try done; (split; [done|by apply keeps_advances]).
Qed.

Section execution.
Context `{B : Blake3} `{!Digest32 B}.

Lemma vm_execute_ok fuel code v :
  vm_ok v -> code_ok code -> (vm_fuel code (entered v) <= fuel)%nat ->
  let r := vm_execute fuel code v in
  vm_ok (snd r) /\ advances v (snd r) /\
  match fst r with
  | Ok out => out_gas_used out = Gas.used (vgas (snd r)) /\ out_logs out = vlogs (snd r)
  | Err _ => True
  | Panic => exists i, i ∈ code /\ may_panic i = true
  | NoFuel => False
  end.
Proof.
  intros Hv Hcode Hfuel. destruct (vm_run_ok code Hcode fuel (entered v) (entered_ok _ Hv) Hfuel) as (H1 & A1 & Hr).
  unfold vm_execute. rewrite bind_modify. fold (entered v). unfold bind, attempt.
  assert (A : advances v (snd (vm_run fuel code (entered v)))) by (etransitivity; [apply entered_advances|done]).
  destruct (vm_run fuel code (entered v)) as [[u|e| |] v1]; simpl in *; try done.
  - destruct (collect_ok true v1 H1) as [H2 A2]. destruct (collect_run true v1) as (value & st & Ec). rewrite Ec in *. simpl in *. unfold ret. cbn. split_and!; [done|by transitivity v1|done..].
  - destruct (collect_ok false v1 H1) as [H2 A2]. destruct (collect_run false v1) as (value & st & Ec). rewrite Ec in *. simpl in *.
    destruct e; unfold ret, fail; cbn; split_and!; try done; by transitivity v1.
Qed.

(** C17 (termination, bounds): an execution of the QVM ends. From any machine in
    its invariant and any code, [execute] needs at most [vm_fuel] rounds of its
    loop: gas limit times the length of the code, and a pass for every frame.
    The machine is again in its invariant (typed stack, at most 1024 values, at
    most 1 MB of memory, 256 locals), the gas used did not fall and is within
    the limit, the output reports it, and the only instructions that can panic
    are those of [may_panic]. The limit must be below [u64::MAX], where
    saturation would let gas last for ever. *)
Theorem vm_execute_ends fuel code v :
  vm_ok v -> code_ok code -> (vm_fuel code (entered v) <= fuel)%nat ->
  exists r v', vm_execute fuel code v = (r, v') /\ r <> NoFuel /\ vm_ok v' /\
    Gas.used (vgas v) <= Gas.used (vgas v') <= Gas.limit (vgas v) /\
    (forall out, r = Ok out -> out_gas_used out = Gas.used (vgas v')) /\
    (r = Panic -> exists i, i ∈ code /\ may_panic i = true).
Proof.
  intros Hv Hc Hf. destruct (vm_execute_ok fuel code v Hv Hc Hf) as (H1 & A1 & Hr).
  destruct (vm_execute fuel code v) as [r v'] eqn:E. simpl in *. exists r, v'.
  destruct A1 as [_ _ _ Al Au _]. pose proof (ok_gas _ H1) as (_ & Hu & _).
  split_and!; try done; try lia; destruct r; naive_solver.
Qed.

(** C18 (safety): a static call is read-only. Whatever the code does, an
    execution with [is_static] leaves storage and logs as they were, and the
    logs of its output are those from before. *)
Theorem vm_static_readonly fuel code v :
  vm_ok v -> code_ok code -> (vm_fuel code (entered v) <= fuel)%nat -> cx_is_static (vcontext v) = true ->
  vstorage (snd (vm_execute fuel code v)) = vstorage v /\ vlogs (snd (vm_execute fuel code v)) = vlogs v /\
  forall out, fst (vm_execute fuel code v) = Ok out -> out_logs out = vlogs v.
Proof.
  intros Hv Hc Hf Hs. destruct (vm_execute_ok fuel code v Hv Hc Hf) as (_ & A1 & Hr).
  destruct (a_static _ _ A1 Hs) as [E1 E2]. split_and!; [done..|]. intros out Eo. rewrite Eo in Hr.
  rewrite <-E2. apply Hr.
Qed.
End execution.

(** [pow_u256] is exponentiation modulo 2^256. Its square and
    multiply loop ends within 256 rounds for every base and exponent, with the
    exact power reduced to a word. *)
Theorem pow_u256_exact base exp v :
  in_u 256 base -> in_u 256 exp -> pow_u256 base exp v = (Ok (base ^ exp mod 2 ^ 256), v).
Proof.
  intros Hb He. unfold pow_u256. destruct (Z.eqb_spec exp 0) as [->|Hne]; [done|].
  destruct (Z.eqb_spec base 0) as [->|_]; [by rewrite Z.pow_0_l by (destruct He; lia)|].
  unfold query. rewrite pow_loop_spec by (done || exact He). by rewrite Z.mul_1_l.
Qed.

(** ** Storage *)

Lemma undo_other m l k : k ∉ l.*1 -> foldr Slots.undo m l !! k = m !! k.
Proof.
  induction l as [|[j w] l IH]; [done|]. rewrite fmap_cons, not_elem_of_cons. intros [Hne Hk].
  cbn [foldr]. unfold Slots.undo at 1. simpl in *. case_decide.
  - rewrite lookup_delete_ne by done. auto.
  - rewrite lookup_insert_ne by done. auto.
Qed.

Lemma undo_same m l k w :
  NoDup l.*1 -> (k, w) ∈ l -> foldr Slots.undo m l !! k = if decide (w = H256_zero) then None else Some w.
Proof.
  induction l as [|[j u] l IH]; [by intros _ ?%not_elem_of_nil|]. rewrite fmap_cons, NoDup_cons, elem_of_cons.
  intros [Hj Hl] [[= <- <-]|Hin]; cbn [foldr]; unfold Slots.undo at 1; simpl in *.
  - case_decide; [apply lookup_delete_eq|apply lookup_insert_eq].
  - assert (j <> k) by (intros ->; apply Hj; by apply (list_elem_of_fmap_2' fst _ (k, w))).
    destruct (decide (u = H256_zero)); [rewrite lookup_delete_ne by done|rewrite lookup_insert_ne by done]; auto.
Qed.

(** A slot was written and its first value is recorded, or it is as it was. *)
Definition tracks (s0 s : Slots.t) : Prop :=
  forall k, match Slots.original s !! k with
            | Some w => w = Slots.load k s0
            | None => Slots.slots s !! k = Slots.slots s0 !! k
            end.

Lemma store_tracks s0 s k x : tracks s0 s -> tracks s0 (Slots.store k x s).
Proof.
  intros H j. specialize (H j). unfold Slots.store. simpl. destruct (decide (j = k)) as [->|Hne].
  - destruct (Slots.original s !! k) eqn:E; [by rewrite E|]. rewrite lookup_insert_eq. unfold Slots.load. by rewrite H.
  - rewrite (lookup_insert_ne (Slots.slots s)) by done.
    destruct (Slots.original s !! k) eqn:E; [done|]. by rewrite lookup_insert_ne.
Qed.

Lemma revert_tracks s0 s k : tracks s0 s -> Slots.load k (Slots.revert s) = Slots.load k s0.
Proof.
  intros H. specialize (H k). unfold Slots.load at 1. simpl. destruct (Slots.original s !! k) as [w|] eqn:E.
  - rewrite (undo_same _ _ k w); [|apply NoDup_fst_map_to_list|by apply elem_of_map_to_list].
    case_decide; simpl; congruence.
  - rewrite undo_other, H; [done|]. intros ([? w] & -> & Hin)%list_elem_of_fmap. apply elem_of_map_to_list in Hin.
    simpl in *. congruence.
Qed.

(** The writes of a transaction, in order. *)
Definition store_all (writes : list (bytes * bytes)) (s : Slots.t) : Slots.t :=
  foldl (fun s e => Slots.store (fst e) (snd e) s) s writes.

(** [Storage::revert] undoes a transaction. After any series of
    writes to a storage whose changes were committed, however often a slot was
    written and whatever it held, every slot loads its value from before, and
    nothing is left to undo. *)
Theorem slots_revert_restores writes s :
  Slots.original s = ∅ ->
  (forall k, Slots.load k (Slots.revert (store_all writes s)) = Slots.load k s) /\
  Slots.original (Slots.revert (store_all writes s)) = ∅.
Proof.
  intros Ho. split; [|done]. intros k. apply revert_tracks.
  assert (H : forall s', tracks s s' -> tracks s (store_all writes s')).
  { induction writes as [|e l IH]; intros s' Hs; [done|]. by apply IH, store_tracks. }
  apply H. intros j. by rewrite Ho, lookup_empty.
Qed.

(** ** What is not enforced *)

Definition instr (o : Opcode) : Instruction := mkInstruction o None.
Definition push_word (n : Z) : Instruction := mkInstruction OpPush (Some (to_be 32 n)).

Lemma from_to_word n : in_u 256 n -> from_be (to_be 32 n) = n.
Proof. intros Hn. rewrite from_to_be. change (256 ^ Z.of_nat 32) with (2 ^ 256). by apply Z.mod_small. Qed.

(** Puts the machine of a run into normal form, field by field. *)
Ltac norm_state :=
  cbv beta iota delta [vstack vmemory vstorage vheap vframes vgas vcontext vlogs vreturn_data vresources vcontracts set_stack
    set_memory set_storage set_frames set_gas set_logs set_resources entered jump_to vm_new Stack.values Stack.max_depth
    Stack.new Gas.limit Gas.used Gas.refund Gas.costs Gas.warm_slots Gas.warm_accounts Gas.new Frame.function Frame.pc
    Frame.locals Frame.new Frame.set_pc].

Section not_enforced.
Context `{B : Blake3}.

Lemma decode_push_word n v : in_u 256 n -> decode_push_value (push_word n) v = (Ok (VU256 n), v).
Proof. intros Hn. unfold decode_push_value, push_word. cbn [operand]. by rewrite length_to_be, from_to_word. Qed.

Lemma vm_run_round fuel code v f fs i v2 c v3 :
  vframes v = f :: fs -> code !! Z.to_nat (Frame.pc f) = Some i ->
  on_gas (Gas.consume_opcode (opcode i)) (jump_to (u64_add (Frame.pc f) 1) v) = (Ok tt, v2) ->
  execute_instruction i v2 = (Ok c, v3) -> vm_run (S fuel) code v = (follow c ;; vm_run fuel code) v3.
Proof.
  intros E Ei Eg Ex. cbn [vm_run]. rewrite bind_gets. cbn beta. rewrite E. unfold vm_step. rewrite Ei.
  unfold bind, modify. rewrite Eg, Ex. done.
Qed.

Lemma vm_run_continue fuel code v f fs i v2 v3 :
  vframes v = f :: fs -> code !! Z.to_nat (Frame.pc f) = Some i ->
  on_gas (Gas.consume_opcode (opcode i)) (jump_to (u64_add (Frame.pc f) 1) v) = (Ok tt, v2) ->
  execute_instruction i v2 = (Ok Continue, v3) -> vm_run (S fuel) code v = vm_run fuel code v3.
Proof. intros E Ei Eg Ex. by rewrite (vm_run_round _ _ _ _ _ _ _ _ _ E Ei Eg Ex). Qed.

Lemma execute_push n v v' :
  in_u 256 n -> push (VU256 n) v = (Ok tt, v') -> execute_instruction (push_word n) v = (Ok Continue, v').
Proof.
  intros Hn Hp. change (execute_instruction (push_word n)) with
    ((let! value := decode_push_value (push_word n) in push value) ;; ret Continue : VM ControlFlow).
  unfold bind. by rewrite decode_push_word, Hp.
Qed.

Lemma execute_sstore v1 v x key s g' :
  cx_is_static (vcontext v) = false -> Stack.values (vstack v) = VU256 x :: VU256 key :: s ->
  v1 = set_stack (Stack.mk s (Stack.max_depth (vstack v))) v ->
  Gas.consume_sstore (to_be 32 key) (is_zero_slot (Slots.original_value (to_be 32 key) (vstorage v)))
    (is_zero_slot (Slots.load (to_be 32 key) (vstorage v))) (x =? 0) (vgas v) = (Ok tt, g') ->
  execute_instruction (instr OpSStore) v =
    (Ok Continue, set_storage (Slots.store (to_be 32 key) (to_be 32 x) (vstorage v)) (set_gas g' v1)).
Proof.
  intros Hs Ev -> Hg. change (execute_instruction (instr OpSStore)) with (exec_storage OpSStore ;; ret Continue : VM ControlFlow).
  cbn [exec_storage]. unfold bind at 1. rewrite bind_gets. cbn beta. rewrite Hs.
  unfold pop_u256, pop_h256, pop, on_stack, zoom, Stack.pop, bind, gets, modify, on_gas, ok_or. rewrite Ev. simpl.
  unfold zoom. simpl. by rewrite Hg.
Qed.

(** A reverted execution keeps its writes. A contract that stores a
    non-zero word and then reverts ends with [success = false], but its output
    still lists the write among the storage changes, and the machine's storage
    holds it: [execute] never calls [Storage::revert]. *)
Theorem vm_revert_leaves_writes key x :
  in_u 256 key -> in_u 256 x -> x <> 0 ->
  exists out v', vm_execute 10 [push_word key; push_word x; instr OpSStore; instr OpRevert] (vm_new 100000) = (Ok out, v') /\
    out_success out = false /\ out_storage_changes out = [(to_be 32 key, to_be 32 x)] /\
    Slots.load (to_be 32 key) (vstorage v') = to_be 32 x.
Proof.
  intros Hk Hx Hne. set (code := [_; _; _; _]).
  assert (Hrun : exists v1, vm_run 10 code (entered (vm_new 100000)) = (Err (ERevert "execution reverted"), v1) /\
    vstorage v1 = Slots.store (to_be 32 key) (to_be 32 x) Slots.new).
  { eexists. split.
    - erewrite vm_run_continue; [|reflexivity..|by apply execute_push; [|reflexivity]]. norm_state.
      erewrite vm_run_continue; [|reflexivity..|by apply execute_push; [|reflexivity]]. norm_state.
      erewrite vm_run_continue; [|reflexivity..|]. 2: { norm_state. eapply execute_sstore; [reflexivity..|]. apply Z.eqb_neq in Hne. rewrite Hne. reflexivity. }
      norm_state. erewrite vm_run_round; [|reflexivity..]. reflexivity.
    - reflexivity. }
  destruct Hrun as (v1 & Er & Es). unfold vm_execute. rewrite bind_modify. fold (entered (vm_new 100000)).
  unfold bind at 1. unfold attempt at 1. rewrite Er. destruct (collect_run false v1) as (value & st & Ec).
  rewrite (bind_ok _ _ _ _ _ Ec). eexists _, _. split; [reflexivity|]. cbn [out_success out_storage_changes].
  rewrite Es. split_and!; [done| |].
  - apply map_to_list_singleton.
  - cbn [vstorage set_stack]. rewrite Es. unfold Slots.load. cbn [Slots.slots Slots.store]. by rewrite lookup_insert_eq.
Qed.

Definition create_resource (name : bytes) : Instruction := mkInstruction OpResourceCreate (Some name).

Lemma execute_create name v v' :
  utf8_valid name = true ->
  (let! owner := frame_index in
   let! frame := current_frame in
   let! id := on_resources (fun r => let '(id, r) := Tracker.create name owner (Frame.pc frame) r in (Ok id, r)) in
   push (VResource name [] id)) v = (Ok tt, v') ->
  execute_instruction (create_resource name) v = (Ok Continue, v').
Proof.
  intros Hu Hr. unfold execute_instruction. cbn [create_resource opcode]. unfold exec_resource, decode_string, create_resource.
  cbn [opcode operand]. rewrite Hu. unfold bind at 1. rewrite bind_ret. cbn beta. rewrite Hr. done.
Qed.

(** Resources are not linear. [Dup] copies a resource value and the
    tracker does not notice: after [ResourceCreate], [Dup], [ResourceDestroy] and
    [Return] the execution succeeds with a resource as its value that no longer
    exists. And code that ends without [Return] leaks its resource: the execution
    succeeds while the tracker still holds it. *)
Theorem vm_resources_not_linear name :
  utf8_valid name = true ->
  (exists out v', vm_execute 10 [create_resource name; instr OpDup; instr OpResourceDestroy; instr OpReturn] (vm_new 100000) =
     (Ok out, v') /\ out_success out = true /\ out_value out = Some (VResource name [] 0) /\
     Tracker.resources (vresources v') = ∅) /\
  (exists out v', vm_execute 10 [create_resource name] (vm_new 100000) = (Ok out, v') /\ out_success out = true /\
     Tracker.resources (vresources v') = {[0 := mkResourceInfo name 0 1]}).
Proof.
  intros Hu. split.
  - set (code := [_; _; _; _]). unfold vm_execute. rewrite bind_modify. fold (entered (vm_new 100000)).
    unfold bind at 1. unfold attempt at 1.
    erewrite vm_run_continue; [|reflexivity..|apply execute_create; [done|reflexivity]].
    eexists _, _. split; [vm_compute; reflexivity|]. done.
  - set (code := [_]). unfold vm_execute. rewrite bind_modify. fold (entered (vm_new 100000)).
    unfold bind at 1. unfold attempt at 1.
    erewrite vm_run_continue; [|reflexivity..|apply execute_create; [done|reflexivity]].
    eexists _, _. split; [vm_compute; reflexivity|]. done.
Qed.
End not_enforced.

(** ** Witnesses *)

Section witnesses.

(** A digest of 32 bytes: the input cut or filled up, byte by byte. *)
Definition cut_blake3 : Blake3 := fun bs => to_be 32 (from_be bs).
Lemma cut_blake3_ok : Digest32 cut_blake3.
Proof. split; intros; unfold blake3, cut_blake3; auto with qfc. Qed.
#[local] Existing Instances cut_blake3 cut_blake3_ok.

Lemma vm_new_ok gas : 0 <= gas < u_max 64 -> vm_ok (vm_new gas).
Proof.
  intros Hg. assert (Ha : address_ok H160_zero) by (split; [done|by_decide]).
  constructor; simpl; try done.
  - split_and!; simpl; [constructor|lia|done].
  - split_and!; [constructor|done..].
  - split_and!; simpl; [done|lia..].
Qed.

(** A loop that jumps to its own start. *)
Definition ex_spin : list Instruction := [push_word 1; mkInstruction OpJumpIf (Some [0; 0])].

Lemma ex_spin_ok : code_ok ex_spin.
Proof. split; [repeat constructor; by_decide|done]. Qed.

Lemma vm_execute_ends_witness :
  exists r v', vm_execute 402 ex_spin (vm_new 99) = (r, v') /\ r <> NoFuel /\ Gas.used (vgas v') <= 99.
Proof.
  destruct (vm_execute_ends 402 ex_spin (vm_new 99)) as (r & v' & E & Hn & _ & [_ Hu] & _).
  - apply vm_new_ok. unfold u_max. lia.
  - exact ex_spin_ok.
  - vm_compute. lia.
  - exists r, v'. exact (conj E (conj Hn Hu)).
Defined.

Definition ex_static : Vm :=
  with_context (mkContext H160_zero H160_zero 0 [] H160_zero 0 0 0 H160_zero 0 0 1 true) (vm_new 99).
Lemma ex_static_ok : vm_ok ex_static.
Proof.
  destruct (vm_new_ok 99 ltac:(unfold u_max; lia)) as [? ? ? ? ? []]. by constructor.
Qed.

Lemma vm_static_readonly_witness :
  vstorage (snd (vm_execute 402 ex_spin ex_static)) = Slots.new /\ vlogs (snd (vm_execute 402 ex_spin ex_static)) = [].
Proof.
  destruct (vm_static_readonly 402 ex_spin ex_static) as (Hs & Hl & _).
  - exact ex_static_ok.
  - exact ex_spin_ok.
  - vm_compute. lia.
  - reflexivity.
  - exact (conj Hs Hl).
Defined.

Lemma pow_u256_exact_witness : pow_u256 3 200 (vm_new 0) = (Ok (3 ^ 200 mod 2 ^ 256), vm_new 0).
Proof. apply (pow_u256_exact 3 200 (vm_new 0)); unfold in_u; lia. Defined.

Lemma slots_revert_restores_witness :
  Slots.load [1] (Slots.revert (store_all [([1], to_be 32 7); ([2], to_be 32 5); ([1], to_be 32 9)] Slots.new)) = H256_zero.
Proof.
  destruct (slots_revert_restores [([1], to_be 32 7); ([2], to_be 32 5); ([1], to_be 32 9)] Slots.new) as [H _].
  - reflexivity.
  - rewrite (H [1]). reflexivity.
Defined.

Lemma vm_revert_leaves_writes_witness :
  exists out v', vm_execute 10 [push_word 1; push_word 7; instr OpSStore; instr OpRevert] (vm_new 100000) = (Ok out, v') /\
    out_success out = false /\ out_storage_changes out = [(to_be 32 1, to_be 32 7)].
Proof.
  destruct (vm_revert_leaves_writes 1 7) as (out & v' & H1 & H2 & H3 & _).
  - unfold in_u. lia.
  - unfold in_u. lia.
  - lia.
  - exists out, v'. exact (conj H1 (conj H2 H3)).
Defined.

Lemma vm_resources_not_linear_witness :
  exists out v', vm_execute 10 [create_resource [65]] (vm_new 100000) = (Ok out, v') /\ out_success out = true.
Proof.
  destruct (vm_resources_not_linear [65]) as [_ (out & v' & H1 & H2 & _)].
  - reflexivity.
  - exists out, v'. exact (conj H1 H2).
Defined.
End witnesses.
