(* ===== verification/Bridge.v ===== *)
(** * The Ethereum bridge (src/crates/qfc-bridge/src: types.rs, validator.rs, relayer.rs)

    The relayer follows deposits (tokens locked on Ethereum, minted here) and
    withdrawals (burned here, unlocked there) and collects signatures of the
    bridge validators. A method of [BridgeRelayer] is a step in [ST]; the
    validator set changes a deposit or withdrawal it is handed. Log lines are
    left out. *)

From S2P Require Import Prelude Externals.

(** ** Types (types.rs) *)

Inductive BridgeError :=
| DepositNotFound (id : Hash)
| WithdrawalNotFound (id : Hash)
| DuplicateDeposit (id : Hash)
| InsufficientSignatures (have need : nat)
| InvalidValidator (a : Address)
| AlreadySigned (a : Address)
| AlreadyCompleted
| InvalidAmount
| BridgePaused.

Inductive DepositStatus := DepPending | DepConfirmed | DepMinting | DepCompleted | DepFailed.
Inductive WithdrawalStatus := WdPending | WdSigning | WdSubmitted | WdCompleted | WdFailed.

#[export] Instance DepositStatus_eq_dec : EqDecision DepositStatus.
Proof. solve_decision. Defined.
#[export] Instance WithdrawalStatus_eq_dec : EqDecision WithdrawalStatus.
Proof. solve_decision. Defined.

Record BridgeDeposit := mkDeposit {
  deposit_id : Hash;
  dep_eth_tx_hash : Hash;
  dep_eth_block_number : Z;
  dep_eth_sender : Address;
  dep_qfc_recipient : Address;
  dep_token_address : Address;
  dep_amount : Z;
  dep_required_confirmations : Z;
  dep_status : DepositStatus;
  dep_signatures : list (Address * bytes);
  dep_observed_at : Z;
}.

Record BridgeWithdrawal := mkWithdrawal {
  withdrawal_id : Hash;
  wd_qfc_tx_hash : Hash;
  wd_qfc_block_number : Z;
  wd_qfc_sender : Address;
  wd_eth_recipient : Address;
  wd_token_address : Address;
  wd_amount : Z;
  wd_status : WithdrawalStatus;
  wd_signatures : list (Address * bytes);
  wd_observed_at : Z;
  wd_eth_unlock_tx : option Hash;
}.

Definition set_dep_status (s : DepositStatus) (d : BridgeDeposit) : BridgeDeposit :=
  mkDeposit (deposit_id d) (dep_eth_tx_hash d) (dep_eth_block_number d) (dep_eth_sender d) (dep_qfc_recipient d)
    (dep_token_address d) (dep_amount d) (dep_required_confirmations d) s (dep_signatures d) (dep_observed_at d).
Definition add_dep_signature (v : Address) (sig : bytes) (d : BridgeDeposit) : BridgeDeposit :=
  mkDeposit (deposit_id d) (dep_eth_tx_hash d) (dep_eth_block_number d) (dep_eth_sender d) (dep_qfc_recipient d)
    (dep_token_address d) (dep_amount d) (dep_required_confirmations d) (dep_status d) (dep_signatures d ++ [(v, sig)])
    (dep_observed_at d).
Definition set_wd_status (s : WithdrawalStatus) (w : BridgeWithdrawal) : BridgeWithdrawal :=
  mkWithdrawal (withdrawal_id w) (wd_qfc_tx_hash w) (wd_qfc_block_number w) (wd_qfc_sender w) (wd_eth_recipient w)
    (wd_token_address w) (wd_amount w) s (wd_signatures w) (wd_observed_at w) (wd_eth_unlock_tx w).
Definition add_wd_signature (v : Address) (sig : bytes) (w : BridgeWithdrawal) : BridgeWithdrawal :=
  mkWithdrawal (withdrawal_id w) (wd_qfc_tx_hash w) (wd_qfc_block_number w) (wd_qfc_sender w) (wd_eth_recipient w)
    (wd_token_address w) (wd_amount w) (wd_status w) (wd_signatures w ++ [(v, sig)]) (wd_observed_at w)
    (wd_eth_unlock_tx w).
Definition set_wd_unlock (tx : Hash) (w : BridgeWithdrawal) : BridgeWithdrawal :=
  mkWithdrawal (withdrawal_id w) (wd_qfc_tx_hash w) (wd_qfc_block_number w) (wd_qfc_sender w) (wd_eth_recipient w)
    (wd_token_address w) (wd_amount w) (wd_status w) (wd_signatures w) (wd_observed_at w) (Some tx).

(** ** The validator set (validator.rs) *)

Record BridgeValidatorSet := mkValidatorSet { bridge_validators : gset Address; bridge_threshold : nat }.

(** The assertions compare the threshold with the length of the vector, before
    duplicates are merged; [None] is a failed assertion. *)
Definition validator_set_new (validators : list Address) (threshold : nat) : option BridgeValidatorSet :=
  match validators with
  | [] => Some (mkValidatorSet ∅ 0)
  | _ =>
    if (threshold <=? length validators)%nat && (0 <? threshold)%nat
    then Some (mkValidatorSet (list_to_set validators) threshold) else None
  end.

Definition is_bridge_validator (vs : BridgeValidatorSet) (a : Address) : bool := bool_decide (a ∈ bridge_validators vs).
Definition has_signed (a : Address) (sigs : list (Address * bytes)) : bool :=
  existsb (fun s => bool_decide (fst s = a)) sigs.

(** The answer says whether the threshold is met. *)
Definition vs_sign_deposit (vs : BridgeValidatorSet) (v : Address) (sig : bytes) (d : BridgeDeposit) :
    Result BridgeError bool * BridgeDeposit :=
  if negb (is_bridge_validator vs v) then (Err (InvalidValidator v), d)
  else if decide (dep_status d = DepCompleted) then (Err AlreadyCompleted, d)
  else if has_signed v (dep_signatures d) then (Err (AlreadySigned v), d)
  else
    let d := add_dep_signature v sig d in
    if (bridge_threshold vs <=? length (dep_signatures d))%nat then (Ok true, set_dep_status DepMinting d)
    else (Ok false, d).

Definition vs_sign_withdrawal (vs : BridgeValidatorSet) (v : Address) (sig : bytes) (w : BridgeWithdrawal) :
    Result BridgeError bool * BridgeWithdrawal :=
  if negb (is_bridge_validator vs v) then (Err (InvalidValidator v), w)
  else if decide (wd_status w = WdCompleted) then (Err AlreadyCompleted, w)
  else if has_signed v (wd_signatures w) then (Err (AlreadySigned v), w)
  else
    let w := add_wd_signature v sig w in
    if (bridge_threshold vs <=? length (wd_signatures w))%nat then (Ok true, set_wd_status WdSubmitted w)
    else (Ok false, w).

(** ** The relayer (relayer.rs) *)

Record RelayerConfig := mkRelayerConfig { eth_confirmations : Z; cfg_validators : list Address; cfg_threshold : nat }.

Record BridgeRelayer := mkRelayer {
  deposits : gmap Hash BridgeDeposit;
  withdrawals : gmap Hash BridgeWithdrawal;
  relayer_set : BridgeValidatorSet;
  relayer_config : RelayerConfig;
  bridge_paused : bool;
  total_deposits : Z;
  total_withdrawals : Z;
  total_value_locked : Z;
}.

Definition relayer_new (c : RelayerConfig) : option BridgeRelayer :=
  vs ← validator_set_new (cfg_validators c) (cfg_threshold c);
  Some (mkRelayer ∅ ∅ vs c false 0 0 0).

Definition set_deposit (id : Hash) (d : BridgeDeposit) (r : BridgeRelayer) : BridgeRelayer :=
  mkRelayer (<[id := d]> (deposits r)) (withdrawals r) (relayer_set r) (relayer_config r) (bridge_paused r)
    (total_deposits r) (total_withdrawals r) (total_value_locked r).
Definition set_withdrawal (id : Hash) (w : BridgeWithdrawal) (r : BridgeRelayer) : BridgeRelayer :=
  mkRelayer (deposits r) (<[id := w]> (withdrawals r)) (relayer_set r) (relayer_config r) (bridge_paused r)
    (total_deposits r) (total_withdrawals r) (total_value_locked r).
Definition set_paused (b : bool) (r : BridgeRelayer) : BridgeRelayer :=
  mkRelayer (deposits r) (withdrawals r) (relayer_set r) (relayer_config r) b
    (total_deposits r) (total_withdrawals r) (total_value_locked r).
Definition count_deposit (amount : Z) (r : BridgeRelayer) : BridgeRelayer :=
  mkRelayer (deposits r) (withdrawals r) (relayer_set r) (relayer_config r) (bridge_paused r)
    (u64_add (total_deposits r) 1) (total_withdrawals r) (wrap 128 (total_value_locked r + amount)).
Definition count_withdrawal (amount : Z) (r : BridgeRelayer) : BridgeRelayer :=
  mkRelayer (deposits r) (withdrawals r) (relayer_set r) (relayer_config r) (bridge_paused r)
    (total_deposits r) (u64_add (total_withdrawals r) 1) (sat_sub (total_value_locked r) amount).

Abbreviation BR A := (ST BridgeRelayer BridgeError A).

Definition unless_paused : BR unit :=
  let! p := gets bridge_paused in if (p : bool) then fail BridgePaused else ret tt.
Definition find_deposit (id : Hash) : BR BridgeDeposit :=
  let! ds := gets deposits in ok_or (ds !! id) (DepositNotFound id).
Definition find_withdrawal (id : Hash) : BR BridgeWithdrawal :=
  let! ws := gets withdrawals in ok_or (ws !! id) (WithdrawalNotFound id).

Definition observe_deposit (id eth_tx : Hash) (eth_block : Z) (sender recipient token : Address) (amount now : Z) : BR unit :=
  unless_paused ;;
  if amount =? 0 then fail InvalidAmount
  else
    let! ds := gets deposits in
    match ds !! id with
    | Some _ => fail (DuplicateDeposit id)
    | None =>
      let! c := gets relayer_config in
      modify (set_deposit id (mkDeposit id eth_tx eth_block sender recipient token amount (eth_confirmations c)
                                DepPending [] now))
    end.

Definition confirm_deposit (id : Hash) : BR unit :=
  let! d := find_deposit id in
  if decide (dep_status d = DepPending) then modify (set_deposit id (set_dep_status DepConfirmed d))
  else fail AlreadyCompleted.

Definition sign_deposit (id : Hash) (v : Address) (sig : bytes) : BR bool :=
  unless_paused ;;
  let! d := find_deposit id in
  let! vs := gets relayer_set in
  let '(result, d') := vs_sign_deposit vs v sig d in
  modify (set_deposit id d') ;; (fun r => (result, r)).

Definition complete_deposit (id : Hash) : BR Z :=
  let! d := find_deposit id in
  if decide (dep_status d = DepMinting) then
    modify (set_deposit id (set_dep_status DepCompleted d)) ;;
    modify (count_deposit (dep_amount d)) ;;
    ret (dep_amount d)
  else fail AlreadyCompleted.

Definition observe_withdrawal (id qfc_tx : Hash) (qfc_block : Z) (sender recipient token : Address) (amount now : Z) :
    BR unit :=
  unless_paused ;;
  if amount =? 0 then fail InvalidAmount
  else modify (set_withdrawal id (mkWithdrawal id qfc_tx qfc_block sender recipient token amount WdPending [] now None)).

Definition start_signing_withdrawal (id : Hash) : BR unit :=
  let! w := find_withdrawal id in
  modify (set_withdrawal id (set_wd_status WdSigning w)).

Definition sign_withdrawal (id : Hash) (v : Address) (sig : bytes) : BR bool :=
  unless_paused ;;
  let! w := find_withdrawal id in
  let! vs := gets relayer_set in
  let '(result, w') := vs_sign_withdrawal vs v sig w in
  modify (set_withdrawal id w') ;; (fun r => (result, r)).

Definition complete_withdrawal (id unlock_tx : Hash) : BR Z :=
  let! w := find_withdrawal id in
  modify (set_withdrawal id (set_wd_unlock unlock_tx (set_wd_status WdCompleted w))) ;;
  modify (count_withdrawal (wd_amount w)) ;;
  ret (wd_amount w).

Definition pause : BR unit := modify (set_paused true).
Definition unpause : BR unit := modify (set_paused false).

Record BridgeStatus := mkBridgeStatus {
  st_active : bool;
  st_validator_count : nat;
  st_threshold : nat;
  st_total_deposits : Z;
  st_total_withdrawals : Z;
  st_pending_deposits : nat;
  st_pending_withdrawals : nat;
  st_total_value_locked : bytes;
}.

Definition deposit_is_pending (d : BridgeDeposit) : bool :=
  match dep_status d with DepPending | DepConfirmed | DepMinting => true | _ => false end.
Definition withdrawal_is_pending (w : BridgeWithdrawal) : bool :=
  match wd_status w with WdPending | WdSigning | WdSubmitted => true | _ => false end.
Definition pending_deposits (r : BridgeRelayer) : list BridgeDeposit :=
  filter (fun d => deposit_is_pending d = true) (map snd (map_to_list (deposits r))).
Definition pending_withdrawals (r : BridgeRelayer) : list BridgeWithdrawal :=
  filter (fun w => withdrawal_is_pending w = true) (map snd (map_to_list (withdrawals r))).

(** The locked value is printed in decimal; 39 digits are enough for 128 bits. *)
Definition bridge_status (r : BridgeRelayer) : BridgeStatus :=
  mkBridgeStatus (negb (bridge_paused r)) (size (bridge_validators (relayer_set r))) (bridge_threshold (relayer_set r))
    (total_deposits r) (total_withdrawals r) (length (pending_deposits r)) (length (pending_withdrawals r))
    (decimal 39 (total_value_locked r) []).
