(* ===== verification/BridgeProps.v ===== *)
(** * Theorems about the bridge

    Runs of the relayer are lists of calls. Over every run a deposit is minted
    only with a threshold of signatures of distinct validators, and at most
    once; withdrawals have no such guard. *)

From S2P Require Import Prelude Externals Bridge.

(** A call of a method of the relayer. *)
Inductive BridgeCall :=
| CObserveDeposit (id eth_tx : Hash) (eth_block : Z) (sender recipient token : Address) (amount now : Z)
| CConfirmDeposit (id : Hash)
| CSignDeposit (id : Hash) (v : Address) (sig : bytes)
| CCompleteDeposit (id : Hash)
| CObserveWithdrawal (id qfc_tx : Hash) (qfc_block : Z) (sender recipient token : Address) (amount now : Z)
| CStartSigning (id : Hash)
| CSignWithdrawal (id : Hash) (v : Address) (sig : bytes)
| CCompleteWithdrawal (id unlock_tx : Hash)
| CPause
| CUnpause.

(** The effect of a call, whether it succeeds or fails. *)
Definition bridge_call (c : BridgeCall) (r : BridgeRelayer) : BridgeRelayer :=
  match c with
  | CObserveDeposit id tx b s q t a n => snd (observe_deposit id tx b s q t a n r)
  | CConfirmDeposit id => snd (confirm_deposit id r)
  | CSignDeposit id v sig => snd (sign_deposit id v sig r)
  | CCompleteDeposit id => snd (complete_deposit id r)
  | CObserveWithdrawal id tx b s q t a n => snd (observe_withdrawal id tx b s q t a n r)
  | CStartSigning id => snd (start_signing_withdrawal id r)
  | CSignWithdrawal id v sig => snd (sign_withdrawal id v sig r)
  | CCompleteWithdrawal id tx => snd (complete_withdrawal id tx r)
  | CPause => snd (pause r)
  | CUnpause => snd (unpause r)
  end.

(** What the call lets the node mint for deposit [id]: the amount that
    [complete_deposit] returns. *)
Definition mints (id : Hash) (c : BridgeCall) (r : BridgeRelayer) : Z :=
  match c with
  | CCompleteDeposit id' =>
    if decide (id' = id) then match fst (complete_deposit id r) with Ok a => a | _ => 0 end else 0
  | _ => 0
  end.

Fixpoint bridge_run (cs : list BridgeCall) (r : BridgeRelayer) : BridgeRelayer :=
  match cs with [] => r | c :: cs => bridge_run cs (bridge_call c r) end.
Fixpoint minted (id : Hash) (cs : list BridgeCall) (r : BridgeRelayer) : Z :=
  match cs with [] => 0 | c :: cs => mints id c r + minted id cs (bridge_call c r) end.

(** ** The invariant of deposits *)

Record deposit_ok (vs : BridgeValidatorSet) (id : Hash) (d : BridgeDeposit) : Prop := {
  dok_id : deposit_id d = id;
  dok_distinct : NoDup (map fst (dep_signatures d));
  dok_validators : Forall (fun s => fst s ∈ bridge_validators vs) (dep_signatures d);
  dok_threshold : dep_status d = DepMinting \/ dep_status d = DepCompleted ->
                  (bridge_threshold vs <= length (dep_signatures d))%nat;
  dok_amount : dep_amount d <> 0;
}.

Definition deposits_ok (r : BridgeRelayer) : Prop := map_Forall (deposit_ok (relayer_set r)) (deposits r).

(** What was minted for a deposit, read off its record. *)
Definition settled_amount (id : Hash) (r : BridgeRelayer) : Z :=
  match deposits r !! id with
  | Some d => if decide (dep_status d = DepCompleted) then dep_amount d else 0
  | None => 0
  end.

Lemma has_signed_spec v sigs : has_signed v sigs = false <-> v ∉ map fst sigs.
Proof.
  unfold has_signed. rewrite <-not_true_iff_false, existsb_exists, list_elem_of_In. rewrite in_map_iff.
  split; intros H [s Hs]; apply H; exists s; rewrite ?bool_decide_eq_true in *; tauto.
Qed.

Lemma vs_sign_deposit_ok vs v sig id d :
  deposit_ok vs id d -> dep_status d <> DepCompleted ->
  let d' := snd (vs_sign_deposit vs v sig d) in
  deposit_ok vs id d' /\ dep_amount d' = dep_amount d /\ dep_status d' <> DepCompleted.
Proof.
  intros [Hid Hn Hv Ht Ha] Hc. unfold vs_sign_deposit.
  destruct (is_bridge_validator vs v) eqn:Eb; simpl; [|by split_and!].
  rewrite decide_False by done. destruct (has_signed v (dep_signatures d)) eqn:Es; simpl; [by split_and!|].
  apply has_signed_spec in Es. apply bool_decide_eq_true in Eb.
  assert (Hn' : NoDup (map fst (dep_signatures d ++ [(v, sig)]))).
  { rewrite map_app. apply NoDup_app. split_and!; [done|set_solver|apply NoDup_singleton]. }
  assert (Hv' : Forall (fun s => fst s ∈ bridge_validators vs) (dep_signatures d ++ [(v, sig)])).
  { apply Forall_app. split; [done|]. by constructor. }
  destruct (Nat.leb_spec (bridge_threshold vs) (length (dep_signatures d ++ [(v, sig)]))) as [Hle|Hlt]; simpl.
  - split_and!; [by constructor|done..].
  - split_and!; [|done..]. constructor; simpl; try done. intros [Hs|Hs]; [|done]. rewrite length_app in *. simpl in *.
    specialize (Ht (or_introl Hs)). lia.
Qed.

(** A call's effect on the deposits: none, or one record replaced. *)
Definition call_ok (c : BridgeCall) (r : BridgeRelayer) : Prop :=
  let r' := bridge_call c r in
  relayer_set r' = relayer_set r /\ deposits_ok r' /\ forall id, settled_amount id r' = settled_amount id r + mints id c r.

Lemma call_ok_same c r :
  deposits (bridge_call c r) = deposits r -> relayer_set (bridge_call c r) = relayer_set r ->
  (forall id, mints id c r = 0) -> deposits_ok r -> call_ok c r.
Proof.
  intros Ed Es Hm Hr. unfold call_ok, deposits_ok, settled_amount in *. rewrite Ed, Es. split_and!; [done..|].
  intros id. rewrite Hm. lia.
Qed.

Lemma call_ok_update c r id d' :
  deposits (bridge_call c r) = <[id := d']> (deposits r) -> relayer_set (bridge_call c r) = relayer_set r ->
  deposit_ok (relayer_set r) id d' ->
  (forall id', id' <> id -> mints id' c r = 0) ->
  (if decide (dep_status d' = DepCompleted) then dep_amount d' else 0) = settled_amount id r + mints id c r ->
  deposits_ok r -> call_ok c r.
Proof.
  intros Ed Es Hd Hm Ha Hr. unfold call_ok, deposits_ok, settled_amount in *. rewrite Ed, Es.
  split_and!; [done|by apply map_Forall_insert_2|]. intros id'. destruct (decide (id' = id)) as [->|Hne].
  - rewrite lookup_insert_eq. exact Ha.
  - rewrite lookup_insert_ne, Hm by done. lia.
Qed.

Lemma settled_open id r d :
  deposits r !! id = Some d -> dep_status d <> DepCompleted -> settled_amount id r = 0.
Proof. intros E H. unfold settled_amount. rewrite E. by rewrite decide_False. Qed.

Lemma observe_deposit_ok id tx b s q t a n r : deposits_ok r -> call_ok (CObserveDeposit id tx b s q t a n) r.
Proof.
  intros Hr. set (c := CObserveDeposit _ _ _ _ _ _ _ _).
  destruct (bridge_paused r) eqn:Ep; [|destruct (Z.eqb_spec a 0) as [Ha|Ha]; [|destruct (deposits r !! id) as [d|] eqn:Ed]].
  1-3: apply call_ok_same; try done; simpl; unfold observe_deposit, unless_paused, bind, gets; rewrite Ep; try done;
    subst; simpl; try done; destruct (a =? 0); try done; by rewrite Ed.
  eapply call_ok_update; try done; simpl; unfold observe_deposit, unless_paused, bind, gets; rewrite ?Ep;
    apply Z.eqb_neq in Ha; rewrite ?Ha; simpl; rewrite ?Ed; try done.
  - constructor; simpl; try done; [apply NoDup_nil_2|by intros [|]|by apply Z.eqb_neq].
  - unfold settled_amount. by rewrite Ed.
Qed.

Lemma confirm_deposit_ok id r : deposits_ok r -> call_ok (CConfirmDeposit id) r.
Proof.
  intros Hr. destruct (deposits r !! id) as [d|] eqn:Ed.
  2: { apply call_ok_same; try done; simpl; unfold confirm_deposit, find_deposit, bind, gets; by rewrite Ed. }
  destruct (decide (dep_status d = DepPending)) as [Hp|Hp].
  2: { apply call_ok_same; try done; simpl; unfold confirm_deposit, find_deposit, bind, gets; rewrite Ed; simpl;
       by rewrite decide_False. }
  assert (E : bridge_call (CConfirmDeposit id) r = set_deposit id (set_dep_status DepConfirmed d) r).
  { simpl. unfold confirm_deposit, find_deposit, bind, gets. rewrite Ed. simpl. by rewrite decide_True. }
  destruct (Hr id d Ed) as [? ? ? ? ?].
  eapply call_ok_update; rewrite ?E; simpl; try done.
  - constructor; simpl; try done. by intros [|].
  - by rewrite (settled_open id r d) by (done || congruence).
Qed.

Lemma sign_deposit_ok id v sig r : deposits_ok r -> call_ok (CSignDeposit id v sig) r.
Proof.
  intros Hr. destruct (bridge_paused r) eqn:Ep.
  { apply call_ok_same; try done; simpl; unfold sign_deposit, unless_paused, bind, gets; by rewrite Ep. }
  destruct (deposits r !! id) as [d|] eqn:Ed.
  2: { apply call_ok_same; try done; simpl; unfold sign_deposit, unless_paused, find_deposit, bind, gets;
       rewrite Ep; simpl; by rewrite Ed. }
  assert (E : bridge_call (CSignDeposit id v sig) r = set_deposit id (snd (vs_sign_deposit (relayer_set r) v sig d)) r).
  { simpl. unfold sign_deposit, unless_paused, find_deposit, bind, gets. rewrite Ep. simpl. rewrite Ed. simpl.
    by destruct (vs_sign_deposit _ v sig d). }
  pose proof (Hr id d Ed) as Hd. destruct (decide (dep_status d = DepCompleted)) as [Hc|Hc].
  - assert (E' : snd (vs_sign_deposit (relayer_set r) v sig d) = d).
    { unfold vs_sign_deposit. destruct (negb _); [done|]. by rewrite decide_True. }
    rewrite E' in E. eapply call_ok_update; rewrite ?E; try done. unfold settled_amount. rewrite Ed.
    rewrite decide_True by done. simpl. lia.
  - destruct (vs_sign_deposit_ok (relayer_set r) v sig id d Hd Hc) as (H1 & H2 & H3).
    eapply call_ok_update; rewrite ?E; try done. rewrite (settled_open id r d) by done. by rewrite decide_False.
Qed.

Lemma complete_deposit_ok id r : deposits_ok r -> call_ok (CCompleteDeposit id) r.
Proof.
  intros Hr. destruct (deposits r !! id) as [d|] eqn:Ed.
  2: { apply call_ok_same; try done; simpl; unfold complete_deposit, find_deposit, bind, gets; try (by rewrite Ed).
       intros id'. case_decide as Hi; [subst|done]. by rewrite Ed. }
  destruct (decide (dep_status d = DepMinting)) as [Hp|Hp].
  2: { apply call_ok_same; try done; simpl; unfold complete_deposit, find_deposit, bind, gets;
       [rewrite Ed; simpl; by rewrite decide_False..|]. intros id'. case_decide as Hi; [subst|done].
       rewrite Ed. simpl. by rewrite decide_False. }
  assert (E : complete_deposit id r = (Ok (dep_amount d), count_deposit (dep_amount d) (set_deposit id (set_dep_status DepCompleted d) r))).
  { unfold complete_deposit, find_deposit, bind, gets. rewrite Ed. simpl. by rewrite decide_True. }
  destruct (Hr id d Ed) as [? ? ? Ht ?].
  eapply call_ok_update; simpl; rewrite ?E; simpl; try done.
  - constructor; simpl; try done. intros _. apply Ht. by left.
  - intros id' Hne. by rewrite decide_False.
  - rewrite !decide_True by done. rewrite (settled_open id r d) by (done || congruence). simpl. lia.
Qed.

Lemma bridge_call_ok c r : deposits_ok r -> call_ok c r.
Proof.
  intros Hr. destruct c;
    [by apply observe_deposit_ok|by apply confirm_deposit_ok|by apply sign_deposit_ok|by apply complete_deposit_ok|..];
    apply call_ok_same; try done; simpl;
    unfold observe_withdrawal, start_signing_withdrawal, sign_withdrawal, complete_withdrawal, find_withdrawal,
      unless_paused, bind, gets;
    destruct (bridge_paused r); simpl; try done; try (by destruct (amount =? 0));
    destruct (withdrawals r !! id); simpl; try done; by destruct (vs_sign_withdrawal _ _ _ _).
Qed.

Lemma bridge_run_ok cs r :
  deposits_ok r ->
  relayer_set (bridge_run cs r) = relayer_set r /\ deposits_ok (bridge_run cs r) /\
  forall id, settled_amount id (bridge_run cs r) = settled_amount id r + minted id cs r.
Proof.
  revert r. induction cs as [|c cs IH]; intros r Hr; simpl; [split_and!; try done; intros; lia|].
  destruct (bridge_call_ok c r Hr) as (E1 & H1 & S1). destruct (IH _ H1) as (E2 & H2 & S2).
  split_and!; [congruence|done|]. intros id. rewrite S2, S1. lia.
Qed.

(** ** Theorems *)

(** C31 (invariant): a deposit is minted once, and only with enough signatures.
    Over every sequence of calls on a new relayer, in any order and whether they
    succeed or fail: if [complete_deposit] ever let the node mint for a deposit,
    the sum of what it returned for that deposit is exactly the amount of the
    deposit, its record is completed, and at least a threshold of distinct
    bridge validators, and nobody else, signed it. *)
Theorem bridge_mints_once c r0 cs id :
  relayer_new c = Some r0 -> minted id cs r0 <> 0 ->
  exists d, deposits (bridge_run cs r0) !! id = Some d /\ dep_status d = DepCompleted /\
    minted id cs r0 = dep_amount d /\
    let signers := list_to_set (map fst (dep_signatures d)) : gset Address in
    signers ⊆ bridge_validators (relayer_set r0) /\ (bridge_threshold (relayer_set r0) <= size signers)%nat.
Proof.
  intros Hn Hm. unfold relayer_new in Hn. destruct (validator_set_new _ _) as [vs|]; [|done]. injection Hn as <-.
  set (r0 := mkRelayer _ _ _ _ _ _ _ _) in *.
  destruct (bridge_run_ok cs r0) as (Es & Hok & Hs); [by intros i d Hd; simpl in Hd|].
  specialize (Hs id). unfold settled_amount at 2 in Hs. simpl in Hs. rewrite lookup_empty in Hs. unfold settled_amount in Hs.
  destruct (deposits (bridge_run cs r0) !! id) as [d|] eqn:Ed; [|lia]. destruct (decide _) as [Hc|]; [|lia].
  exists d. destruct (Hok id d Ed) as [_ Hnd Hv Ht _]. rewrite Es in *. cbv zeta. split_and!; [done..|lia| |].
  - intros a Ha. apply elem_of_list_to_set, list_elem_of_fmap in Ha as (s & -> & Hin). by eapply Forall_forall in Hv.
  - rewrite size_list_to_set, length_map by done. apply Ht. by right.
Qed.

(** C40 (error): a withdrawal has no such guard. Whatever its status, however few
    validators signed it, and even while the bridge is paused,
    [complete_withdrawal] succeeds for every known withdrawal, and it succeeds
    again: both calls return the full amount and both take it off the locked
    value. *)
Theorem bridge_withdraws_twice r id w tx tx' :
  withdrawals r !! id = Some w ->
  exists r1 r2, complete_withdrawal id tx r = (Ok (wd_amount w), r1) /\
    complete_withdrawal id tx' r1 = (Ok (wd_amount w), r2) /\
    total_value_locked r2 = sat_sub (sat_sub (total_value_locked r) (wd_amount w)) (wd_amount w) /\
    total_withdrawals r2 = u64_add (u64_add (total_withdrawals r) 1) 1.
Proof.
  intros Hw. eexists _, _. split_and!.
  - unfold complete_withdrawal, find_withdrawal, bind, gets. rewrite Hw. reflexivity.
  - unfold complete_withdrawal, find_withdrawal, bind, gets. simpl. rewrite lookup_insert_eq. reflexivity.
  - done.
  - done.
Qed.

(** ** Witnesses *)

Definition ex_bridge : RelayerConfig := mkRelayerConfig 12 [[1]; [2]; [3]] 2.
Definition ex_bridge_calls : list BridgeCall :=
  [CObserveDeposit [7] [8] 100 [9] [10] [11] 500 0; CConfirmDeposit [7]; CSignDeposit [7] [1] []; CCompleteDeposit [7];
   CSignDeposit [7] [1] [5]; CSignDeposit [7] [3] []; CCompleteDeposit [7]; CCompleteDeposit [7]].

Definition ex_relayer : BridgeRelayer :=
  mkRelayer ∅ ∅ (mkValidatorSet (list_to_set [[1]; [2]; [3]]) 2) ex_bridge false 0 0 0.

Lemma bridge_mints_once_witness : minted [7] ex_bridge_calls ex_relayer = 500.
Proof.
  destruct (bridge_mints_once ex_bridge ex_relayer ex_bridge_calls [7]) as (d & Hd & _ & Hm & _).
  - reflexivity.
  - vm_compute. discriminate.
  - rewrite Hm. vm_compute in Hd. injection Hd as <-. reflexivity.
Defined.

Definition ex_burned : BridgeRelayer :=
  bridge_run [CObserveWithdrawal [4] [5] 1 [6] [7] [8] 300 0; CPause] (mkRelayer ∅ ∅ (mkValidatorSet ∅ 0) ex_bridge false 1 0 1000).

Lemma bridge_withdraws_twice_witness :
  exists r1 r2, complete_withdrawal [4] [1] ex_burned = (Ok 300, r1) /\ complete_withdrawal [4] [2] r1 = (Ok 300, r2) /\
    total_value_locked r2 = 400.
Proof.
  destruct (bridge_withdraws_twice ex_burned [4] (mkWithdrawal [4] [5] 1 [6] [7] [8] 300 WdPending [] 0 None) [1] [2]) as (r1 & r2 & H1 & H2 & H3 & _).
  - vm_compute. reflexivity.
  - exists r1, r2. exact (conj H1 (conj H2 H3)).
Defined.
