(* ===== verification/Ps.v ===== *)
(** * The parameter server: updates, clocks, aggregation
      (src/crates/qfc-ps/src: types.rs, lib.rs, clock.rs, aggregate.rs)

    Workers push updates for ranges of model parameters. A clock per worker
    bounds staleness, a buffer keeps one accumulated entry per range and worker,
    and at the end of an epoch a robust rule reduces the entries of a range to
    one delta. The texts of error messages are left out. *)

From S2P Require Import Prelude Externals Float64 Float32.

(** ** Sorting *)

(** [sort_by] and [sort_by_key] are stable: equal elements keep their order. *)
Section stable_sort.
Context {A : Type} (leb : A -> A -> bool).
Fixpoint sort_insert (x : A) (l : list A) : list A :=
  match l with [] => [x] | y :: l' => if leb x y then x :: l else y :: sort_insert x l' end.
Definition stable_sort (l : list A) : list A := foldr sort_insert [] l.
End stable_sort.

(** ** Types (types.rs, lib.rs) *)

Record ParamRange := mkRange { r_start : Z; r_end : Z }.

#[export] Instance ParamRange_eq_dec : EqDecision ParamRange.
Proof. solve_decision. Defined.
#[export] Instance ParamRange_countable : Countable ParamRange.
Proof.
  refine (inj_countable' (fun r => (r_start r, r_end r)) (fun p => mkRange (fst p) (snd p)) _). by intros [].
Defined.

Inductive PsError :=
| InvalidRange
| InvalidUpdate
| StaleUpdate (worker_clock floor bound : Z)
| EpochClosed (epoch : Z)
| EpochMismatch (expected got : Z)
| WorkerCapExceeded (cap : Z)
| AggregationFailed
| ConfigInvalid
| PsStorage.

Definition range_new (s e : Z) : Result PsError ParamRange := if e <=? s then Err InvalidRange else Ok (mkRange s e).
Definition range_len (r : ParamRange) : Z := u64_sub (r_end r) (r_start r).
Definition range_is_empty (r : ParamRange) : bool := r_end r <=? r_start r.
Definition range_covers (r o : ParamRange) : bool := (r_start r <=? r_start o) && (r_end o <=? r_end r).
Definition range_overlaps (r o : ParamRange) : bool := (r_start r <? r_end o) && (r_start o <? r_end r).
(** The derived order: by start, then by end. *)
Definition range_leb (a b : ParamRange) : bool :=
  (r_start a <? r_start b) || ((r_start a =? r_start b) && (r_end a <=? r_end b)).

Record ParamUpdate := mkUpdate {
  u_worker : Address;
  u_epoch : Z;
  u_clock : Z;
  u_range : ParamRange;
  u_values : list f32;
  u_flops : Z;
}.

Definition update_validate (u : ParamUpdate) : Result PsError unit :=
  if range_is_empty (u_range u) then Err InvalidRange
  else if negb (Z.of_nat (length (u_values u)) =? range_len (u_range u)) then Err InvalidUpdate
  else if negb (forallb f32_is_finite (u_values u)) then Err InvalidUpdate
  else Ok tt.

(** The bytes that are hashed. *)
Definition update_bytes (u : ParamUpdate) : bytes :=
  u_worker u ++ to_be 8 (u_epoch u) ++ to_be 8 (u_clock u) ++ to_be 8 (r_start (u_range u)) ++ to_be 8 (r_end (u_range u)) ++
  concat (map f32_to_le_bytes (u_values u)) ++ to_be 8 (u_flops u).
Definition update_hash `{Blake3} (u : ParamUpdate) : Hash := blake3 (update_bytes u).

Record AcceptanceRecord := mkRecord {
  a_worker : Address;
  a_epoch : Z;
  a_clock : Z;
  a_range : ParamRange;
  a_update_hash : Hash;
  a_flops : Z;
}.
Definition for_update `{Blake3} (u : ParamUpdate) : AcceptanceRecord :=
  mkRecord (u_worker u) (u_epoch u) (u_clock u) (u_range u) (update_hash u) (u_flops u).

Record PsConfig := mkPsConfig {
  trim_beta : f64;
  staleness_bound : Z;
  spot_check_rate : f64;
  slash_multiple : Z;
  snapshot_retention : Z;
  max_workers_per_range : Z;
}.
Definition ps_config_default : PsConfig := mkPsConfig (f64_lit 2 10) 3 (f64_lit 5 100) 40 4 64.

(** ** The clocks (clock.rs) *)

Module Ssp.
Record t := mk { bound : Z; clocks : gmap Address Z }.
Definition new (bound : Z) : t := mk bound ∅.
Definition register_worker (w : Address) (c : t) : t :=
  match clocks c !! w with Some _ => c | None => mk (bound c) (<[w := 0]> (clocks c)) end.
Definition worker_clock (w : Address) (c : t) : option Z := clocks c !! w.
(** The entry of an unknown worker is created before the check. *)
Definition advance (w : Address) (clock : Z) (c : t) : Result PsError unit * t :=
  let c := register_worker w c in
  if clock <? default 0 (clocks c !! w) then (Err InvalidUpdate, c)
  else (Ok tt, mk (bound c) (<[w := clock]> (clocks c))).
Definition values (c : t) : list Z := map snd (map_to_list (clocks c)).
Definition min_clock (c : t) : Z := match values c with [] => 0 | x :: l => foldr Z.min x l end.
Definition fastest_clock (c : t) : Z := match values c with [] => 0 | x :: l => foldr Z.max x l end.
Definition admit_clock (clock : Z) (c : t) : Result PsError unit :=
  let floor := sat_sub (fastest_clock c) (bound c) in
  if clock <? floor then Err (StaleUpdate clock floor (bound c)) else Ok tt.
Definition barrier (c : t) : gmap Address Z * t := (clocks c, mk (bound c) ∅).
End Ssp.

(** ** The buffer (aggregate.rs) *)

Record UpdateBuffer := mkBuffer { buffer_cap : Z; buffered : gmap ParamRange (list ParamUpdate) }.
Definition buffer_new (cap : Z) : UpdateBuffer := mkBuffer cap ∅.

(** An update folded into the entry of its worker. *)
Definition accumulate (old u : ParamUpdate) : ParamUpdate :=
  mkUpdate (u_worker old) (u_epoch old) (u_clock u) (u_range old)
    (zip_with f32_add (u_values old) (u_values u) ++ drop (length (u_values u)) (u_values old))
    (sat_add 64 (u_flops old) (u_flops u)).

Definition same_worker (u v : ParamUpdate) : bool := bool_decide (u_worker v = u_worker u).
Fixpoint find_worker (u : ParamUpdate) (l : list ParamUpdate) : option (nat * ParamUpdate) :=
  match l with
  | [] => None
  | v :: l => if same_worker u v then Some (0%nat, v) else match find_worker u l with Some (i, x) => Some (S i, x) | None => None end
  end.

(** [entry().or_default()] leaves an empty list behind when the update is refused. *)
Definition buffer_add (u : ParamUpdate) (b : UpdateBuffer) : Result PsError unit * UpdateBuffer :=
  match update_validate u with
  | Ok _ =>
    let entry := default [] (buffered b !! u_range u) in
    let put l := mkBuffer (buffer_cap b) (<[u_range u := l]> (buffered b)) in
    match find_worker u entry with
    | Some (i, old) =>
      if u_clock u <=? u_clock old then (Err InvalidUpdate, put entry)
      else (Ok tt, put (<[i := accumulate old u]> entry))
    | None =>
      if (0 <? buffer_cap b) && (buffer_cap b <=? Z.of_nat (length entry)) then
        (Err (WorkerCapExceeded (buffer_cap b)), put entry)
      else (Ok tt, put (entry ++ [u]))
    end
  | Err e => (Err e, b)
  | Panic => (Panic, b)
  | NoFuel => (NoFuel, b)
  end.

Definition worker_leb (u v : ParamUpdate) : bool := bytes_leb (u_worker u) (u_worker v).
Definition updates_for (r : ParamRange) (b : UpdateBuffer) : list ParamUpdate :=
  stable_sort worker_leb (default [] (buffered b !! r)).
Definition buffer_ranges (b : UpdateBuffer) : list ParamRange := stable_sort range_leb (map fst (map_to_list (buffered b))).
Definition buffer_len (b : UpdateBuffer) : nat := sum_list (map (fun e => length (snd e)) (map_to_list (buffered b))).
Definition buffer_clear (b : UpdateBuffer) : UpdateBuffer := mkBuffer (buffer_cap b) ∅.

(** ** Aggregation rules *)

(** The trait [AggregationRule]. *)
Record AggregationRule := mkRule {
  aggregate : list ParamUpdate -> ParamRange -> Result PsError (list f32);
  min_updates : Result PsError Z;
}.

Fixpoint check_each (r : ParamRange) (us : list ParamUpdate) : Result PsError Z :=
  match us with
  | [] => Ok (range_len r)
  | u :: us =>
    if negb (bool_decide (u_range u = r)) then Err AggregationFailed
    else if negb (Z.of_nat (length (u_values u)) =? range_len r) then Err AggregationFailed
    else check_each r us
  end.
Definition check_inputs (us : list ParamUpdate) (r : ParamRange) : Result PsError Z :=
  match us with [] => Err AggregationFailed | _ => check_each r us end.

(** Parameter [j] of every update. *)
Definition column (us : list ParamUpdate) (j : nat) : list f32 := map (fun u => default f32_zero (u_values u !! j)) us.

(** [(beta * n as f64).ceil() as usize] *)
Definition trim_count (beta : f64) (n : Z) : Z := rounded_to_u 64 (f64_ceil (f64_mul beta (f64_of n))).
Definition trimmed (trim n : Z) (col : list f32) : list f32 :=
  take (Z.to_nat (n - 2 * trim)) (drop (Z.to_nat trim) (stable_sort total_leb col)).
Definition trimmed_mean (beta : f64) (us : list ParamUpdate) (r : ParamRange) : Result PsError (list f32) :=
  match check_inputs us r with
  | Ok dim =>
    let n := Z.of_nat (length us) in
    let trim := trim_count beta n in
    let kept := sat_sub n (u64_mul 2 trim) in
    if kept =? 0 then Err AggregationFailed
    else if n <? 2 * trim then Panic
    else Ok (map (fun j => f32_of_f64 (f64_div (f64_sum (map f64_of_f32 (trimmed trim n (column us j)))) (f64_of kept)))
               (seq 0 (Z.to_nat dim)))
  | Err e => Err e
  | Panic => Panic
  | NoFuel => NoFuel
  end.

Definition trimmed_mean_new (beta : f64) : Result PsError f64 :=
  if f64_leb (f64_of 0) beta && f64_ltb beta (f64_lit 5 10) then Ok beta else Err AggregationFailed.

(** [(1..).find(..)]: the first count that leaves something; [fuel] counts are tried. *)
Fixpoint find_min (fuel : nat) (beta : f64) (n : Z) : Result PsError Z :=
  match fuel with
  | O => NoFuel
  | S fuel => if 1 <=? sat_sub n (u64_mul 2 (trim_count beta n)) then Ok n else find_min fuel beta (n + 1)
  end.
Definition TrimmedMean (fuel : nat) (beta : f64) : AggregationRule := mkRule (trimmed_mean beta) (find_min fuel beta 1).

(** The plain mean, for trusted clusters. *)
Definition mean_aggregate (us : list ParamUpdate) (r : ParamRange) : Result PsError (list f32) :=
  match check_inputs us r with
  | Ok dim =>
    Ok (map (fun j => f32_of_f64 (f64_div (f64_sum (map f64_of_f32 (column us j))) (f64_of (Z.of_nat (length us)))))
          (seq 0 (Z.to_nat dim)))
  | Err e => Err e
  | Panic => Panic
  | NoFuel => NoFuel
  end.
Definition Mean : AggregationRule := mkRule mean_aggregate (Ok 1).

(** [PsConfig::validate] *)
Definition config_validate (fuel : nat) (c : PsConfig) : Result PsError unit :=
  match trimmed_mean_new (trim_beta c) with
  | Ok beta =>
    match find_min fuel beta 1 with
    | Ok m =>
      if max_workers_per_range c <? m then Err ConfigInvalid
      else if slash_multiple c <? 1 then Err ConfigInvalid
      else if staleness_bound c <? 1 then Err ConfigInvalid
      else Ok tt
    | Err e => Err e
    | Panic => Panic
    | NoFuel => NoFuel
    end
  | Err _ => Err ConfigInvalid
  | Panic => Panic
  | NoFuel => NoFuel
  end.
