(* ===== verification/PsService.v ===== *)
(** * The parameter server: the shard store and the service
      (src/crates/qfc-ps/src: kv.rs, service.rs)

    A shard owns a range of parameters, stored in rows of [CHUNK] singles under
    big-endian chunk numbers in a database of its own. The service admits
    pushes, and at the end of an epoch aggregates the buffer into the store and
    hands out the acceptance records. Failures of the database itself are not
    modelled; a row of the wrong length is. *)

From S2P Require Import Prelude Externals Float64 Float32 Storage Ps.

(** ** The store (kv.rs) *)

Definition CHUNK : Z := 1024.
Definition PARAMS_CF : CF := STATE.

Definition encode_chunk (chunk : list f32) : bytes := concat (map f32_to_le_bytes chunk).
Fixpoint decode_singles (n : nat) (bs : bytes) : list f32 :=
  match n with O => [] | S n => f32_of_bits (from_le (take 4 bs)) :: decode_singles n (drop 4 bs) end.
Definition decode_chunk (bs : bytes) : Result PsError (list f32) :=
  if Z.of_nat (length bs) =? CHUNK * 4 then Ok (decode_singles (Z.to_nat CHUNK) bs) else Err PsStorage.

Section store.
Context {Database : Type} `{RK : RocksDB Database} `{B : Blake3}.

Record ShardStore := mkStore { store_db : Database; owned_range : ParamRange }.

Definition check_owned (s : ShardStore) (r : ParamRange) : Result PsError unit :=
  if range_covers (owned_range s) r then Ok tt else Err InvalidRange.
Definition chunk_key (idx : Z) : bytes := to_be 8 idx.
Definition load_chunk (s : ShardStore) (idx : Z) : Result PsError (list f32) :=
  match db_get (store_db s) PARAMS_CF (chunk_key idx) with
  | Some bs => decode_chunk bs
  | None => Ok (replicate (Z.to_nat CHUNK) f32_zero)
  end.

(** The chunks a range touches, and the part of the range in a chunk. *)
Definition chunks_of (r : ParamRange) : list Z :=
  let first := r_start r / CHUNK in
  let last := u64_sub (r_end r) 1 / CHUNK in
  seqZ first (last - first + 1).
Definition part_lo (r : ParamRange) (idx : Z) : Z := Z.max (r_start r) (idx * CHUNK).
Definition part_hi (r : ParamRange) (idx : Z) : Z := Z.min (r_end r) (sat_add 64 (idx * CHUNK) CHUNK).
Definition slice {A} (a b : Z) (l : list A) : list A := take (Z.to_nat (b - a)) (drop (Z.to_nat a) l).

Definition modify_chunk (r : ParamRange) (values : list f32) (f : f32 -> f32 -> f32) (idx : Z) (chunk : list f32) :
    list f32 :=
  let a := part_lo r idx - idx * CHUNK in
  let b := part_hi r idx - idx * CHUNK in
  take (Z.to_nat a) chunk ++
  zip_with f (slice a b chunk) (slice (part_lo r idx - r_start r) (part_hi r idx - r_start r) values) ++
  drop (Z.to_nat b) chunk.

Fixpoint modify_batch (s : ShardStore) (r : ParamRange) (values : list f32) (f : f32 -> f32 -> f32) (idxs : list Z)
    (batch : WriteBatch) : Result PsError WriteBatch :=
  match idxs with
  | [] => Ok batch
  | idx :: idxs =>
    match load_chunk s idx with
    | Ok chunk =>
      modify_batch s r values f idxs
        (batch_put batch PARAMS_CF (chunk_key idx) (encode_chunk (modify_chunk r values f idx chunk)))
    | Err e => Err e
    | Panic => Panic
    | NoFuel => NoFuel
    end
  end.

Definition modify_range (r : ParamRange) (values : list f32) (f : f32 -> f32 -> f32) (s : ShardStore) :
    Result PsError unit * ShardStore :=
  match check_owned s r with
  | Ok _ =>
    if negb (Z.of_nat (length values) =? range_len r) then (Err InvalidUpdate, s)
    else
      match modify_batch s r values f (chunks_of r) batch_new with
      | Ok batch => (Ok tt, mkStore (write_batch (store_db s) batch) (owned_range s))
      | Err e => (Err e, s)
      | Panic => (Panic, s)
      | NoFuel => (NoFuel, s)
      end
  | Err e => (Err e, s)
  | Panic => (Panic, s)
  | NoFuel => (NoFuel, s)
  end.

Definition set_range (r : ParamRange) (values : list f32) (s : ShardStore) : Result PsError unit * ShardStore :=
  modify_range r values (fun _ v => v) s.
Definition apply_delta (r : ParamRange) (delta : list f32) (s : ShardStore) : Result PsError unit * ShardStore :=
  modify_range r delta f32_add s.

(** The parts of a range, read chunk by chunk in key order. *)
Fixpoint read_parts (s : ShardStore) (r : ParamRange) (idxs : list Z) : Result PsError (list (list f32)) :=
  match idxs with
  | [] => Ok []
  | idx :: idxs =>
    match load_chunk s idx with
    | Ok chunk =>
      match read_parts s r idxs with
      | Ok parts => Ok (slice (part_lo r idx - idx * CHUNK) (part_hi r idx - idx * CHUNK) chunk :: parts)
      | Err e => Err e
      | Panic => Panic
      | NoFuel => NoFuel
      end
    | Err e => Err e
    | Panic => Panic
    | NoFuel => NoFuel
    end
  end.

(** A buffer of zeros is filled with the parts of the stored rows, one after the
    other; the part of a row that was never written stays zero. *)
Definition get_range (s : ShardStore) (r : ParamRange) : Result PsError (list f32) :=
  match check_owned s r with
  | Ok _ => match read_parts s r (chunks_of r) with Ok parts => Ok (concat parts) | Err e => Err e | Panic => Panic | NoFuel => NoFuel end
  | Err e => Err e
  | Panic => Panic
  | NoFuel => NoFuel
  end.

Definition params_hash (s : ShardStore) : Result PsError Hash :=
  match read_parts s (owned_range s) (chunks_of (owned_range s)) with
  | Ok parts => Ok (blake3 (concat (map encode_chunk parts)))
  | Err e => Err e
  | Panic => Panic
  | NoFuel => NoFuel
  end.
End store.
Arguments ShardStore Database : clear implicits.

(** ** The service (service.rs) *)

Record EpochOutcome := mkOutcome { o_epoch : Z; o_params_hash : Hash; o_accepted : list AcceptanceRecord }.

Fixpoint dedup_ranges (l : list ParamRange) : list ParamRange :=
  match l with
  | x :: (y :: _) as l' => if bool_decide (x = y) then dedup_ranges l' else x :: dedup_ranges l'
  | _ => l
  end.
Fixpoint windows_overlap (l : list ParamRange) : bool :=
  match l with x :: (y :: _) as l' => range_overlaps x y || windows_overlap l' | _ => false end.

Section service.
Context {Database : Type} `{RK : RocksDB Database} `{B : Blake3}.

Record ShardService := mkService {
  sv_store : ShardStore Database;
  sv_config : PsConfig;
  sv_epoch : Z;
  sv_clock : Ssp.t;
  sv_buffer : UpdateBuffer;
  sv_ranges : list ParamRange;
  sv_max_steps : Z;
  sv_accepted : list AcceptanceRecord;
}.

Definition service_new (fuel : nat) (store : ShardStore Database) (config : PsConfig) (epoch : Z)
    (ranges : list ParamRange) (max_steps : Z) : Result PsError ShardService :=
  match config_validate fuel config with
  | Ok _ =>
    match ranges with
    | [] => Err InvalidRange
    | _ =>
      let ranges := dedup_ranges (stable_sort range_leb ranges) in
      if negb (forallb (range_covers (owned_range store)) ranges) then Err InvalidRange
      else if windows_overlap ranges then Err InvalidRange
      else Ok (mkService store config epoch (Ssp.new (staleness_bound config)) (buffer_new (max_workers_per_range config))
                 ranges max_steps [])
    end
  | Err e => Err e
  | Panic => Panic
  | NoFuel => NoFuel
  end.

Definition set_sv_store (x : ShardStore Database) (s : ShardService) : ShardService :=
  mkService x (sv_config s) (sv_epoch s) (sv_clock s) (sv_buffer s) (sv_ranges s) (sv_max_steps s) (sv_accepted s).
Definition set_sv_clock (x : Ssp.t) (s : ShardService) : ShardService :=
  mkService (sv_store s) (sv_config s) (sv_epoch s) x (sv_buffer s) (sv_ranges s) (sv_max_steps s) (sv_accepted s).
Definition set_sv_buffer (x : UpdateBuffer) (s : ShardService) : ShardService :=
  mkService (sv_store s) (sv_config s) (sv_epoch s) (sv_clock s) x (sv_ranges s) (sv_max_steps s) (sv_accepted s).
Definition set_sv_epoch (x : Z) (s : ShardService) : ShardService :=
  mkService (sv_store s) (sv_config s) x (sv_clock s) (sv_buffer s) (sv_ranges s) (sv_max_steps s) (sv_accepted s).
Definition set_sv_accepted (x : list AcceptanceRecord) (s : ShardService) : ShardService :=
  mkService (sv_store s) (sv_config s) (sv_epoch s) (sv_clock s) (sv_buffer s) (sv_ranges s) (sv_max_steps s) x.

Abbreviation SV A := (ST ShardService PsError A).

Definition lift {A} (r : Result PsError A) : SV A := fun s => (r, s).
Definition on_store {A} (m : ST (ShardStore Database) PsError A) : SV A :=
  fun s => let '(r, x) := m (sv_store s) in (r, set_sv_store x s).
Definition on_clock {A} (m : ST Ssp.t PsError A) : SV A :=
  fun s => let '(r, x) := m (sv_clock s) in (r, set_sv_clock x s).
Definition on_buffer {A} (m : ST UpdateBuffer PsError A) : SV A :=
  fun s => let '(r, x) := m (sv_buffer s) in (r, set_sv_buffer x s).

(** [worker_clock().map_or(0, |c| c + 1)] *)
Definition expected_clock (w : Address) (s : ShardService) : Z :=
  match Ssp.worker_clock w (sv_clock s) with None => 0 | Some c => u64_add c 1 end.

Definition ps_push (u : ParamUpdate) : SV AcceptanceRecord :=
  let! s := gets id in
  if negb (u_epoch u =? sv_epoch s) then
    fail (if u_epoch u <? sv_epoch s then EpochClosed (u_epoch u) else EpochMismatch (sv_epoch s) (u_epoch u))
  else
    lift (update_validate u) ;;
    if negb (bool_decide (u_range u ∈ sv_ranges s)) then fail InvalidRange
    else if (0 <? sv_max_steps s) && (sv_max_steps s <=? u_clock u) then fail InvalidUpdate
    else if negb (u_clock u =? expected_clock (u_worker u) s) then fail InvalidUpdate
    else
      lift (Ssp.admit_clock (u_clock u) (sv_clock s)) ;;
      on_buffer (buffer_add u) ;;
      on_clock (Ssp.advance (u_worker u) (u_clock u)) ;;
      modify (fun s => set_sv_accepted (sv_accepted s ++ [for_update u]) s) ;;
      ret (for_update u).

Definition ps_pull (r : ParamRange) : SV (list f32) := let! s := gets sv_store in lift (get_range s r).

(** The deltas of the buffered ranges, in order; a range with too few workers is skipped. *)
Fixpoint apply_ranges (rule : AggregationRule) (rs : list ParamRange) : SV unit :=
  match rs with
  | [] => ret tt
  | r :: rs =>
    let! updates := gets (fun s => updates_for r (sv_buffer s)) in
    let! least := lift (min_updates rule) in
    if Z.of_nat (length updates) <? least then apply_ranges rule rs
    else
      let! delta := lift (aggregate rule updates r) in
      on_store (apply_delta r delta) ;;
      apply_ranges rule rs
  end.

Definition end_epoch_with_rule (rule : AggregationRule) : SV EpochOutcome :=
  let! closed := gets sv_epoch in
  let! rs := gets (fun s => buffer_ranges (sv_buffer s)) in
  apply_ranges rule rs ;;
  modify (fun s => set_sv_buffer (buffer_clear (sv_buffer s)) s) ;;
  modify (fun s => set_sv_clock (snd (Ssp.barrier (sv_clock s))) s) ;;
  modify (fun s => set_sv_epoch (u64_add (sv_epoch s) 1) s) ;;
  let! accepted := gets sv_accepted in
  modify (set_sv_accepted []) ;;
  let! s := gets sv_store in
  let! h := lift (params_hash s) in
  ret (mkOutcome closed h accepted).

Definition end_epoch (fuel : nat) : SV EpochOutcome :=
  let! c := gets sv_config in
  let! beta := lift (trimmed_mean_new (trim_beta c)) in
  end_epoch_with_rule (TrimmedMean fuel beta).
End service.
Arguments ShardService Database : clear implicits.
