(* ===== verification/PsTheory.v ===== *)
(** * Theory of the parameter server

    Sorting, the trimmed mean, and the invariant of the service over pushes. *)

From S2P Require Import Prelude Externals Float64 Float32 Storage Ps PsService.

(** ** Sorting *)

Section sorting.
Context {A : Type} (leb : A -> A -> bool).
Definition sort_le (x y : A) : Prop := leb x y = true.

Lemma sort_insert_perm x l : sort_insert leb x l ≡ₚ x :: l.
Proof.
  induction l as [|y l IH]; simpl; [done|]. destruct (leb x y); [done|]. rewrite IH. constructor.
Qed.

Lemma stable_sort_perm l : stable_sort leb l ≡ₚ l.
Proof. induction l as [|x l IH]; simpl; [done|]. by rewrite sort_insert_perm, IH. Qed.

Lemma stable_sort_length l : length (stable_sort leb l) = length l.
Proof. by rewrite stable_sort_perm. Qed.

Context (leb_total : forall x y, leb x y = true \/ leb y x = true).
Context (leb_trans : forall x y z, leb x y = true -> leb y z = true -> leb x z = true).

Lemma sort_insert_sorted x l : StronglySorted sort_le l -> StronglySorted sort_le (sort_insert leb x l).
Proof.
  induction 1 as [|y l Hl IH Hy]; simpl; [by repeat constructor|].
  destruct (leb x y) eqn:E.
  - constructor; [by constructor|]. constructor; [done|]. eapply Forall_impl; [exact Hy|]. intros z. by apply leb_trans.
  - constructor; [done|]. rewrite sort_insert_perm. constructor; [|done]. by destruct (leb_total x y); [congruence|].
Qed.

Lemma stable_sort_sorted l : StronglySorted sort_le (stable_sort leb l).
Proof. induction l; simpl; [constructor|by apply sort_insert_sorted]. Qed.

(** The sorted list does not depend on the order of the input when equal keys are equal elements. *)
Lemma stable_sort_unique l l' :
  l ≡ₚ l' -> (forall x y, x ∈ l -> y ∈ l -> leb x y = true -> leb y x = true -> x = y) ->
  stable_sort leb l = stable_sort leb l'.
Proof.
  intros Hp Hu. apply (StronglySorted_unique_strong sort_le).
  - intros x y Hx Hy. rewrite stable_sort_perm in Hx. rewrite stable_sort_perm, <-Hp in Hy. by apply Hu.
  - apply stable_sort_sorted.
  - apply stable_sort_sorted.
  - by rewrite !stable_sort_perm.
Qed.
End sorting.

Lemma total_leb_total x y : total_leb x y = true \/ total_leb y x = true.
Proof. unfold total_leb. rewrite !Z.leb_le. lia. Qed.
Lemma total_leb_trans x y z : total_leb x y = true -> total_leb y z = true -> total_leb x z = true.
Proof. unfold total_leb. rewrite !Z.leb_le. lia. Qed.

Lemma range_leb_total x y : range_leb x y = true \/ range_leb y x = true.
Proof. unfold range_leb. rewrite !orb_true_iff, !andb_true_iff, !Z.ltb_lt, !Z.leb_le, !Z.eqb_eq. lia. Qed.
Lemma range_leb_trans x y z : range_leb x y = true -> range_leb y z = true -> range_leb x z = true.
Proof. unfold range_leb. rewrite !orb_true_iff, !andb_true_iff, !Z.ltb_lt, !Z.leb_le, !Z.eqb_eq. lia. Qed.

(** ** The trimmed mean *)

(** In a sorted list with at most [t] bad elements, what is left after [t] are
    cut off at both ends lies between two good elements. *)
Section trimming.
Context (P : f32 -> Prop) `{!forall x, Decision (P x)}.

Lemma good_in_prefix l t :
  (length (filter (fun x => ~ P x) l) <= t)%nat -> (t < length l)%nat -> exists a, a ∈ take (S t) l /\ P a.
Proof.
  intros Hb Ht. destruct (decide (Exists P (take (S t) l))) as [He|Hn].
  - apply Exists_exists in He as (a & ? & ?). eauto.
  - exfalso. assert (Hall : Forall (fun x => ~ P x) (take (S t) l)) by (by apply not_Exists_Forall in Hn; [|apply _]).
    assert (Hf : filter (fun x => ~ P x) l = take (S t) l ++ filter (fun x => ~ P x) (drop (S t) l)).
    { rewrite <-(take_drop (S t) l) at 1. rewrite filter_app. f_equal. by apply filter_all. }
    rewrite Hf, length_app, length_take in Hb. lia.
Qed.
End trimming.

Lemma sorted_lookup_le l i j x y :
  StronglySorted (sort_le total_leb) l -> l !! i = Some x -> l !! j = Some y -> (i <= j)%nat -> total_key x <= total_key y.
Proof.
  intros Hs Hi Hj Hle. destruct (decide (i = j)) as [->|Hne]; [simplify_eq; lia|].
  revert i j Hi Hj Hle Hne. induction Hs as [|z l Hl IH Hz]; intros i j Hi Hj Hle Hne; [done|].
  destruct j as [|j]; [lia|]. destruct i as [|i]; simpl in *.
  - simplify_eq. apply list_elem_of_lookup_2 in Hj. eapply Forall_forall in Hz; [|done]. by apply Z.leb_le.
  - eapply IH; try done; lia.
Qed.

(** At most [t] elements of the column are not [good]: every kept value lies between two good ones. *)
Lemma trimmed_between (good : f32 -> Prop) `{!forall x, Decision (good x)} col t v :
  0 <= t -> Z.of_nat (length (filter (fun x => ~ good x) col)) <= t ->
  v ∈ trimmed t (Z.of_nat (length col)) col ->
  exists a b, a ∈ col /\ b ∈ col /\ good a /\ good b /\ total_key a <= total_key v <= total_key b.
Proof.
  intros Ht Hb Hv. set (n := length col) in *. unfold trimmed in Hv. set (s := stable_sort total_leb col) in *.
  assert (Hlen : length s = n) by apply stable_sort_length.
  assert (Hs : StronglySorted (sort_le total_leb) s) by (apply stable_sort_sorted; [apply total_leb_total|apply total_leb_trans]).
  apply list_elem_of_lookup in Hv as [k Hk]. apply lookup_take_Some in Hk as [Hk Hlt]. rewrite lookup_drop in Hk.
  assert (Hp : s ≡ₚ col) by apply stable_sort_perm.
  assert (Hbs : (length (filter (fun x => ~ good x) s) <= Z.to_nat t)%nat) by (rewrite Hp; lia).
  assert (Hbr : (length (filter (fun x => ~ good x) (reverse s)) <= Z.to_nat t)%nat) by (by rewrite reverse_Permutation).
  destruct (good_in_prefix good s (Z.to_nat t) Hbs) as (a & Ha & Hga); [lia|].
  destruct (good_in_prefix good (reverse s) (Z.to_nat t) Hbr) as (b & Hb' & Hgb); [rewrite length_reverse; lia|].
  apply list_elem_of_lookup in Ha as [i Hi]. apply lookup_take_Some in Hi as [Hi Hi'].
  apply list_elem_of_lookup in Hb' as [j Hj]. apply lookup_take_Some in Hj as [Hj Hj'].
  apply reverse_lookup_Some in Hj as [Hj Hjl].
  exists a, b. split_and!; try done.
  - rewrite <-Hp. by eapply list_elem_of_lookup_2.
  - rewrite <-Hp. by eapply list_elem_of_lookup_2.
  - eapply (sorted_lookup_le s i _ a v Hs Hi Hk). lia.
  - eapply (sorted_lookup_le s _ _ v b Hs Hk Hj). lia.
Qed.

(** *** The rule does not depend on the order of the updates *)

Definition fits (r : ParamRange) (u : ParamUpdate) : Prop := u_range u = r /\ Z.of_nat (length (u_values u)) = range_len r.

Lemma check_each_spec r us :
  (Forall (fits r) us /\ check_each r us = Ok (range_len r)) \/
  (~ Forall (fits r) us /\ check_each r us = Err AggregationFailed).
Proof.
  induction us as [|u us IH]; simpl; [by left|].
  rewrite Forall_cons. unfold fits at 1 3. case_bool_decide as Hr; simpl; [|right; naive_solver].
  destruct (Z.eqb_spec (Z.of_nat (length (u_values u))) (range_len r)) as [Hl|Hl]; simpl; [|right; naive_solver].
  destruct IH as [[Hf ->]|[Hf ->]]; [left|right]; naive_solver.
Qed.

Lemma check_inputs_perm r us us' : us ≡ₚ us' -> check_inputs us r = check_inputs us' r.
Proof.
  intros Hp. unfold check_inputs. destruct us as [|u us]; [by apply Permutation_nil_l in Hp; subst|].
  destruct us' as [|u' us']; [by apply Permutation_nil_r in Hp|].
  destruct (check_each_spec r (u :: us)) as [[Hf ->]|[Hf ->]], (check_each_spec r (u' :: us')) as [[Hf' ->]|[Hf' ->]]; try done;
    by rewrite Hp in Hf.
Qed.

(** Every value of an update is a single. *)
Definition singles (u : ParamUpdate) : Prop := Forall f32_valid (u_values u).

Lemma column_valid us j : Forall singles us -> Forall f32_valid (column us j).
Proof.
  intros Hs. unfold column. apply Forall_map. eapply Forall_impl; [exact Hs|]. intros u Hu; simpl.
  destruct (u_values u !! j) eqn:E; [by eapply Forall_lookup_1|done].
Qed.

Lemma column_sort_perm us us' j :
  Forall singles us -> us ≡ₚ us' -> stable_sort total_leb (column us j) = stable_sort total_leb (column us' j).
Proof.
  intros Hs Hp. apply stable_sort_unique; [apply total_leb_total|apply total_leb_trans|by unfold column; rewrite Hp|].
  pose proof (column_valid us j Hs) as Hv. rewrite Forall_forall in Hv. unfold total_leb.
  intros x y Hx Hy Hxy Hyx. apply total_key_inj; [by apply Hv..|]. lia.
Qed.

Lemma trimmed_mean_perm beta us us' r :
  Forall singles us -> us ≡ₚ us' -> trimmed_mean beta us r = trimmed_mean beta us' r.
Proof.
  intros Hs Hp. unfold trimmed_mean, trimmed. rewrite (check_inputs_perm r us us' Hp).
  assert (Hl : length us = length us') by (by rewrite Hp). rewrite Hl.
  destruct (check_inputs us' r); try done. repeat case_match; try done. f_equal. apply map_ext. intros j.
  by rewrite (column_sort_perm us us' j Hs Hp).
Qed.

#[export] Instance f32_eq_dec : EqDecision f32.
Proof. intros x y. unfold f32 in *. solve_decision. Defined.

(** The results and the shape of an aggregation that returns. *)
Lemma trimmed_mean_ok beta us r delta :
  in_u 64 (Z.of_nat (length us)) -> trimmed_mean beta us r = Ok delta ->
  let n := Z.of_nat (length us) in
  let t := trim_count beta n in
  Forall (fits r) us /\ 0 <= t /\ 2 * t < n /\ Z.of_nat (length delta) = Z.max 0 (range_len r) /\
  forall j, (j < length delta)%nat ->
    delta !! j = Some (f32_of_f64 (f64_div (f64_sum (map f64_of_f32 (trimmed t n (column us j)))) (f64_of (n - 2 * t)))).
Proof.
  intros Hn. unfold trimmed_mean, check_inputs. destruct us as [|u us]; [done|].
  destruct (check_each_spec r (u :: us)) as [[Hf ->]|[_ ->]]; [|done].
  set (n := Z.of_nat (length (u :: us))) in *. cbv zeta. set (t := trim_count beta n).
  assert (Ht : 0 <= t) by (unfold t, trim_count, rounded_to_u, u_max; destruct (f64_ceil _) as [|[]|]; lia).
  destruct (Z.eqb_spec (sat_sub n (u64_mul 2 t)) 0) as [|Hk]; [done|]. destruct (Z.ltb_spec n (2 * t)) as [|Hle]; [done|].
  assert (Hw : u64_mul 2 t = 2 * t) by (unfold u64_mul, wrap; apply Z.mod_small; unfold in_u in Hn; lia).
  rewrite Hw in *. unfold sat_sub in *. injection 1 as <-. rewrite length_map, length_seq.
  split_and!; [done|done|lia|lia|]. intros j Hj. rewrite list_lookup_fmap, lookup_seq_lt by done. simpl.
  by replace (Z.max 0 (n - 2 * t)) with (n - 2 * t) by lia.
Qed.

Lemma filter_map_le {A B} (f : A -> B) (P : B -> Prop) (Q : A -> Prop) `{!forall x, Decision (P x)} `{!forall x, Decision (Q x)} l :
  (forall x, x ∈ l -> P (f x) -> Q x) -> (length (filter P (map f l)) <= length (filter Q l))%nat.
Proof.
  induction l as [|x l IH]; intros Hpq; [done|]. simpl map. rewrite !filter_cons.
  assert (length (filter P (map f l)) <= length (filter Q l))%nat by (apply IH; set_solver).
  destruct (decide (P (f x))), (decide (Q x)); simpl; try lia. exfalso. set_solver.
Qed.

(** ** The invariant of the service *)

(** The clocks of a worker's records, and the clock its next push must carry. *)
Definition clocks_of (w : Address) (l : list AcceptanceRecord) : list Z := map a_clock (filter (fun a => a_worker a = w) l).
Definition next_clock (w : Address) (c : Ssp.t) : Z := match Ssp.clocks c !! w with None => 0 | Some k => k + 1 end.

Section service_invariant.
Context {Database : Type} `{RK : RocksDB Database} `{B : Blake3}.
Abbreviation Service := (ShardService Database).

(** The buffered updates of a range: one per worker, of the range's length, at most [cap]. *)
Record entry_ok (cap : Z) (c : Ssp.t) (r : ParamRange) (l : list ParamUpdate) : Prop := {
  entry_fits : Forall (fits r) l;
  entry_workers : NoDup (map u_worker l);
  entry_cap : 0 < cap -> Z.of_nat (length l) <= cap;
  entry_clocks : forall u, u ∈ l -> u_clock u < next_clock (u_worker u) c;
}.

Record sv_inv (ranges : list ParamRange) (steps cap : Z) (s : Service) : Prop := {
  inv_ranges : sv_ranges s = ranges;
  inv_steps : sv_max_steps s = steps;
  inv_cap : buffer_cap (sv_buffer s) = cap;
  inv_clock : forall w k, Ssp.clocks (sv_clock s) !! w = Some k -> 0 <= k < steps;
  inv_accepted : forall w, clocks_of w (sv_accepted s) = seqZ 0 (next_clock w (sv_clock s));
  inv_records : Forall (fun a => a_epoch a = sv_epoch s /\ a_range a ∈ ranges) (sv_accepted s);
  inv_buffer : forall r l, buffered (sv_buffer s) !! r = Some l -> r ∈ ranges /\ entry_ok cap (sv_clock s) r l;
}.

Lemma find_worker_spec u l :
  match find_worker u l with
  | Some (i, v) => l !! i = Some v /\ u_worker v = u_worker u
  | None => u_worker u ∉ map u_worker l
  end.
Proof.
  induction l as [|v l IH]; simpl; [set_solver|]. unfold same_worker. case_bool_decide as E; [done|].
  destruct (find_worker u l) as [[i x]|]; [done|]. set_solver.
Qed.

Lemma accumulate_fits r old u : fits r old -> fits r u -> fits r (accumulate old u).
Proof.
  intros [Hr Hl] [_ Hl']. split; [done|]. simpl. rewrite length_app, length_zip_with, length_drop. lia.
Qed.

Lemma update_validate_ok u : update_validate u = Ok tt -> fits (u_range u) u.
Proof.
  unfold update_validate, fits. destruct (range_is_empty _); [done|].
  destruct (Z.eqb_spec (Z.of_nat (length (u_values u))) (range_len (u_range u))); done.
Qed.

Lemma next_clock_insert w w' k c :
  next_clock w' (Ssp.mk (Ssp.bound c) (<[w := k]> (Ssp.clocks c))) = if decide (w = w') then k + 1 else next_clock w' c.
Proof. unfold next_clock; simpl. destruct (decide (w = w')) as [->|]; by rewrite ?lookup_insert_eq, ?lookup_insert_ne. Qed.

Definition buffer_ok (ranges : list ParamRange) (cap : Z) (c : Ssp.t) (b : UpdateBuffer) : Prop :=
  buffer_cap b = cap /\ forall r l, buffered b !! r = Some l -> r ∈ ranges /\ entry_ok cap c r l.

Lemma entry_ok_mono cap c c' r l :
  (forall w, next_clock w c <= next_clock w c') -> entry_ok cap c r l -> entry_ok cap c' r l.
Proof. intros Hm []. split; try done. intros u Hu. eapply Z.lt_le_trans; [by eauto|apply Hm]. Qed.

Lemma buffer_put_ok ranges cap c c' b r l :
  (forall w, next_clock w c <= next_clock w c') -> buffer_ok ranges cap c b -> r ∈ ranges -> entry_ok cap c' r l ->
  buffer_ok ranges cap c' (mkBuffer (buffer_cap b) (<[r := l]> (buffered b))).
Proof.
  intros Hm [Hc Hb] Hr Hl. split; [done|]. intros r' l'. simpl. rewrite lookup_insert_Some.
  intros [[<- <-]|[_ H']]; [done|]. apply Hb in H' as [? ?]. eauto using entry_ok_mono.
Qed.

Lemma entry_default ranges cap c b r : buffer_ok ranges cap c b -> entry_ok cap c r (default [] (buffered b !! r)).
Proof.
  intros [_ Hb]. destruct (buffered b !! r) eqn:E; [by apply Hb in E as [_ ?]|]. simpl. split; [done|constructor|simpl; lia|set_solver].
Qed.

(** The entry after a push is buffered. *)
Lemma entry_replace cap c c' l i old u :
  (forall w, next_clock w c <= next_clock w c') -> u_clock u < next_clock (u_worker u) c' -> fits (u_range u) u ->
  entry_ok cap c (u_range u) l -> l !! i = Some old -> u_worker old = u_worker u ->
  entry_ok cap c' (u_range u) (<[i := accumulate old u]> l).
Proof.
  intros Hm Hu Hf [Hl Hn Hc Hk] Hi Hw. split.
  - apply Forall_insert; [done|]. apply accumulate_fits; [by eapply Forall_lookup_1|done].
  - rewrite (list_fmap_insert u_worker), (list_insert_id (u_worker <$> l)); [done|]. by rewrite list_lookup_fmap, Hi.
  - by rewrite length_insert.
  - intros v Hv. apply list_elem_of_lookup in Hv as [j Hj]. apply list_lookup_insert_Some in Hj as [(_ & <- & _)|[_ Hj]]; simpl.
    + by rewrite Hw.
    + eapply Z.lt_le_trans; [|apply Hm]. eapply Hk, list_elem_of_lookup_2, Hj.
Qed.

Lemma entry_append cap c c' l u :
  (forall w, next_clock w c <= next_clock w c') -> u_clock u < next_clock (u_worker u) c' -> fits (u_range u) u ->
  (0 < cap -> Z.of_nat (length l) < cap) -> u_worker u ∉ map u_worker l ->
  entry_ok cap c (u_range u) l -> entry_ok cap c' (u_range u) (l ++ [u]).
Proof.
  intros Hm Hu Hf Hlt Hn [Hl Hd Hc Hk]. split.
  - by apply Forall_app_2; [|apply Forall_singleton].
  - rewrite map_app. apply NoDup_app. split_and!; [done|set_solver|apply NoDup_singleton].
  - rewrite length_app. simpl. lia.
  - intros v Hv. apply elem_of_app in Hv as [Hv|Hv]; [|by apply list_elem_of_singleton in Hv as ->]. eapply Z.lt_le_trans; [by eauto|apply Hm].
Qed.

Lemma buffer_add_ok ranges cap c c' u b res b' :
  (forall w, next_clock w c <= next_clock w c') -> u_clock u < next_clock (u_worker u) c' ->
  u_range u ∈ ranges -> buffer_ok ranges cap c b -> buffer_add u b = (res, b') ->
  (res = Ok tt /\ buffer_ok ranges cap c' b') \/ ((exists e, res = Err e) /\ buffer_ok ranges cap c b').
Proof.
  intros Hm Hu Hr Hb. unfold buffer_add. destruct (update_validate u) as [[]|e| |] eqn:Ev.
  2: by intros [= <- <-]; right; eauto.
  2,3: unfold update_validate in Ev; by repeat case_match.
  apply update_validate_ok in Ev. pose proof (entry_default ranges cap c b (u_range u) Hb) as He.
  set (l := default [] _) in *. pose proof (find_worker_spec u l) as Hf.
  assert (Hput : buffer_ok ranges cap c (mkBuffer (buffer_cap b) (<[u_range u := l]> (buffered b))))
    by (by apply (buffer_put_ok ranges cap c)).
  destruct (find_worker u l) as [[i old]|].
  - destruct Hf as [Hi Hw]. destruct (u_clock u <=? u_clock old); intros [= <- <-]; [right; eauto|left; split; [done|]].
    apply (buffer_put_ok ranges cap c); try done. by eapply entry_replace.
  - pose proof (proj1 Hb) as Hcap.
    destruct ((0 <? buffer_cap b) && (buffer_cap b <=? Z.of_nat (length l))) eqn:E; intros [= <- <-]; [right; eauto|left; split; [done|]].
    apply (buffer_put_ok ranges cap c); try done. eapply entry_append; try done. lia.
Qed.

Lemma sv_buffer_ok ranges steps cap s :
  sv_inv ranges steps cap s -> buffer_ok ranges cap (sv_clock s) (sv_buffer s).
Proof. by intros []. Qed.

Lemma clocks_of_app w l a :
  clocks_of w (l ++ [a]) = clocks_of w l ++ if decide (a_worker a = w) then [a_clock a] else [].
Proof. unfold clocks_of. rewrite filter_app, map_app, filter_cons. by case_decide. Qed.

Definition advanced (u : ParamUpdate) (c : Ssp.t) : Ssp.t := Ssp.mk (Ssp.bound c) (<[u_worker u := u_clock u]> (Ssp.clocks c)).

Lemma advance_next u c :
  u_clock u = next_clock (u_worker u) c -> Ssp.advance (u_worker u) (u_clock u) c = (Ok tt, advanced u c).
Proof.
  unfold next_clock, Ssp.advance, Ssp.register_worker, advanced. intros E. destruct (Ssp.clocks c !! u_worker u) as [k|] eqn:Ec; simpl.
  - rewrite Ec. simpl. destruct (Z.ltb_spec (u_clock u) k); [lia|done].
  - rewrite lookup_insert_eq. simpl. destruct (Z.ltb_spec (u_clock u) 0); [lia|]. by rewrite insert_insert_eq.
Qed.

Lemma next_clock_advanced u c w : u_clock u = next_clock (u_worker u) c -> next_clock w c <= next_clock w (advanced u c).
Proof. intros E. unfold advanced. rewrite next_clock_insert. case_decide; subst; lia. Qed.

Lemma accept_inv ranges steps cap u s b :
  sv_inv ranges steps cap s -> u_epoch u = sv_epoch s -> u_range u ∈ ranges -> 0 <= u_clock u < steps ->
  u_clock u = next_clock (u_worker u) (sv_clock s) -> buffer_ok ranges cap (advanced u (sv_clock s)) b ->
  sv_inv ranges steps cap
    (set_sv_accepted (sv_accepted s ++ [for_update u]) (set_sv_clock (advanced u (sv_clock s)) (set_sv_buffer b s))).
Proof.
  intros [Hr Hs Hc Hk Ha Hrec Hb] He Hur Hu Hn [Hbc Hbb]. split; simpl; try done.
  - intros w k [[_ <-]|[_ H']]%lookup_insert_Some; [done|by eapply Hk].
  - intros w. rewrite clocks_of_app, Ha. unfold advanced. rewrite next_clock_insert. simpl.
    destruct (decide (u_worker u = w)) as [<-|]; [|by rewrite app_nil_r].
    rewrite seqZ_app by lia. by rewrite Hn.
  - apply Forall_app. split; [done|]. by apply Forall_singleton.
Qed.

Lemma sv_inv_buffer ranges steps cap s b :
  sv_inv ranges steps cap s -> buffer_ok ranges cap (sv_clock s) b -> sv_inv ranges steps cap (set_sv_buffer b s).
Proof. by intros [] []. Qed.

Lemma expected_clock_next ranges steps cap w s :
  sv_inv ranges steps cap s -> steps < 2 ^ 64 -> expected_clock w s = next_clock w (sv_clock s).
Proof.
  intros Hi Hs. unfold expected_clock, next_clock, Ssp.worker_clock. destruct (Ssp.clocks _ !! w) as [k|] eqn:E; [|done].
  apply (inv_clock _ _ _ _ Hi) in E. unfold u64_add, wrap. apply Z.mod_small. lia.
Qed.

Lemma ps_push_inv ranges steps cap u s res s' :
  0 < steps < 2 ^ 64 -> sv_inv ranges steps cap s -> ps_push u s = (res, s') ->
  sv_inv ranges steps cap s' /\ sv_epoch s' = sv_epoch s /\
  match res with
  | Ok a => a = for_update u /\ sv_accepted s' = sv_accepted s ++ [a]
  | Err _ => sv_accepted s' = sv_accepted s
  | _ => False
  end.
Proof.
  intros Hst Hi. unfold ps_push, lift, on_buffer, on_clock, gets, modify, fail, ret, bind. simpl.
  pose proof (inv_ranges _ _ _ _ Hi) as Hr. pose proof (inv_steps _ _ _ _ Hi) as Hs.
  destruct (Z.eqb_spec (u_epoch u) (sv_epoch s)) as [He|]; simpl; [|by intros [= <- <-]].
  destruct (update_validate u) as [[]|e| |] eqn:Ev; [|by intros [= <- <-]|unfold update_validate in Ev; by repeat case_match..].
  case_bool_decide as Hur; simpl; [|by intros [= <- <-]].
  destruct (Z.ltb_spec 0 (sv_max_steps s)); [|lia]. destruct (Z.leb_spec (sv_max_steps s) (u_clock u)); simpl; [by intros [= <- <-]|].
  destruct (Z.eqb_spec (u_clock u) (expected_clock (u_worker u) s)) as [Hx|]; simpl; [|by intros [= <- <-]].
  rewrite (expected_clock_next ranges steps cap) in Hx by (done || lia).
  unfold Ssp.admit_clock. destruct (u_clock u <? _); [by intros [= <- <-]|].
  destruct (buffer_add u (sv_buffer s)) as [rb b'] eqn:Eb.
  assert (Hpos : 0 <= u_clock u).
  { rewrite Hx. unfold next_clock. destruct (_ !! _) eqn:E; [apply (inv_clock _ _ _ _ Hi) in E|]; lia. }
  destruct (buffer_add_ok ranges cap (sv_clock s) (advanced u (sv_clock s)) u (sv_buffer s) rb b') as [[-> Hb']|[[e ->] Hb']];
    [by intros w; apply next_clock_advanced|unfold advanced; rewrite next_clock_insert, decide_True by done; lia|by subst
    |by eapply sv_buffer_ok|done| |].
  - rewrite advance_next by done. intros [= <- <-]. split_and!; [|done..]. apply accept_inv; try done; [by subst|lia].
  - intros [= <- <-]. split_and!; [|done..]. by apply sv_inv_buffer.
Qed.

Lemma apply_ranges_frame rule rs s : exists x, snd (apply_ranges rule rs s) = set_sv_store x s.
Proof.
  revert s. induction rs as [|r rs IH]; intros s; simpl; [by exists (sv_store s); destruct s|].
  unfold lift, on_store, gets, bind. simpl. destruct (min_updates rule) as [least|e| |]; try (by exists (sv_store s); destruct s).
  destruct (_ <? least); [apply IH|]. destruct (aggregate rule _ r) as [delta|e| |]; try (by exists (sv_store s); destruct s).
  destruct (apply_delta r delta (sv_store s)) as [[[]|e| |] x]; simpl; try by eexists.
  destruct (IH (set_sv_store x s)) as [y ->]. by exists y.
Qed.

Lemma sv_inv_store ranges steps cap s x : sv_inv ranges steps cap s -> sv_inv ranges steps cap (set_sv_store x s).
Proof. by intros []. Qed.

(** The state a closed epoch leaves. *)
Definition next_epoch (s : Service) : Service :=
  mkService (sv_store s) (sv_config s) (u64_add (sv_epoch s) 1) (Ssp.mk (Ssp.bound (sv_clock s)) ∅)
    (buffer_clear (sv_buffer s)) (sv_ranges s) (sv_max_steps s) [].

Lemma next_epoch_inv ranges steps cap s : sv_inv ranges steps cap s -> sv_inv ranges steps cap (next_epoch s).
Proof. intros []. split; try done. Qed.

Lemma end_epoch_with_rule_inv rule ranges steps cap s res s' :
  sv_inv ranges steps cap s -> end_epoch_with_rule rule s = (res, s') ->
  sv_inv ranges steps cap s' /\
  match res with
  | Ok o => o_epoch o = sv_epoch s /\ o_accepted o = sv_accepted s /\ sv_epoch s' = u64_add (sv_epoch s) 1 /\ sv_accepted s' = []
  | _ => True
  end.
Proof.
  intros Hi. unfold end_epoch_with_rule, bind, gets, modify, lift, ret. simpl.
  destruct (apply_ranges_frame rule (buffer_ranges (sv_buffer s)) s) as [x Hx].
  destruct (apply_ranges rule _ s) as [ra s1]. simpl in Hx. subst s1.
  destruct ra as [[]|e| |]; try (intros [= <- <-]; split; [by apply sv_inv_store|done]). simpl.
  assert (Hn : sv_inv ranges steps cap (next_epoch (set_sv_store x s))) by (by apply next_epoch_inv, sv_inv_store).
  destruct (params_hash x); intros [= <- <-]; (split; [exact Hn|done]).
Qed.

Lemma service_new_inv fuel store config epoch ranges steps s :
  service_new fuel store config epoch ranges steps = Ok s ->
  let rs := dedup_ranges (stable_sort range_leb ranges) in
  config_validate fuel config = Ok tt /\ Forall (fun r => range_covers (owned_range store) r = true) rs /\
  windows_overlap rs = false /\ owned_range (sv_store s) = owned_range store /\ sv_epoch s = epoch /\
  sv_accepted s = [] /\ sv_config s = config /\ sv_inv rs steps (max_workers_per_range config) s.
Proof.
  unfold service_new. destruct (config_validate fuel config) as [[]|e| |]; try done. destruct ranges as [|r0 ranges]; [done|].
  cbv zeta. set (rs := dedup_ranges _). destruct (forallb _ rs) eqn:Ef; [|done]. simpl.
  destruct (windows_overlap rs) eqn:Ew; [done|]. injection 1 as <-. split_and!; try done.
  by apply Forall_forall; intros r Hr; rewrite forallb_forall in Ef; apply Ef, list_elem_of_In.
Qed.
End service_invariant.

(** ** The memory of the buffer *)

Lemma dedup_elem x l : x ∈ dedup_ranges l <-> x ∈ l.
Proof.
  induction l as [|y l IH]; [done|]. destruct l as [|z l]; [done|]. change (dedup_ranges (y :: z :: l))
    with (if bool_decide (y = z) then dedup_ranges (z :: l) else y :: dedup_ranges (z :: l)).
  case_bool_decide; [subst; rewrite IH; set_solver|]. rewrite !elem_of_cons, IH, elem_of_cons. done.
Qed.

Lemma dedup_sorted l : StronglySorted (sort_le range_leb) l -> StronglySorted (sort_le range_leb) (dedup_ranges l).
Proof.
  induction 1 as [|y l Hl IH Hy]; [constructor|]. destruct l as [|z l]; [by repeat constructor|].
  change (dedup_ranges (y :: z :: l)) with (if bool_decide (y = z) then dedup_ranges (z :: l) else y :: dedup_ranges (z :: l)).
  case_bool_decide; [done|]. constructor; [done|]. apply Forall_forall. intros x Hx. rewrite dedup_elem in Hx.
  by rewrite Forall_forall in Hy; apply Hy.
Qed.

(** A range as [ParamRange::new] makes it. *)
Definition range_wf (r : ParamRange) : Prop := 0 <= r_start r < r_end r /\ r_end r < 2 ^ 64.
Definition span (r : ParamRange) : Z := r_end r - r_start r.
Definition total_span (l : list ParamRange) : Z := foldr (fun r n => span r + n) 0 l.

Lemma range_len_span r : range_wf r -> range_len r = span r.
Proof. intros [? ?]. unfold range_len, span, u64_sub, wrap. apply Z.mod_small. lia. Qed.

(** Sorted ranges whose neighbours do not overlap are disjoint, and their lengths add up to at most the span. *)
Lemma disjoint_span hi l x :
  StronglySorted (sort_le range_leb) (x :: l) -> windows_overlap (x :: l) = false -> Forall range_wf (x :: l) ->
  Forall (fun r => r_end r <= hi) (x :: l) ->
  total_span (x :: l) <= hi - r_start x /\ Forall (fun y => r_end x <= r_start y) l.
Proof.
  revert x. induction l as [|y l IH]; intros x Hs Hw Hf Hh.
  - inv Hh. inv Hf. unfold span, range_wf in *. simpl. unfold span. split; [lia|constructor].
  - change (windows_overlap (x :: y :: l)) with (range_overlaps x y || windows_overlap (y :: l)) in Hw.
    apply orb_false_iff in Hw as [Ho Hw]. apply StronglySorted_inv in Hs as [Hs Hx].
    apply Forall_cons in Hf as [Hfx Hf]. apply Forall_cons in Hh as [Hhx Hh].
    destruct (IH y Hs Hw Hf Hh) as [Hsum Hd]. apply Forall_cons in Hx as [Hxy _]. apply Forall_cons in Hf as [Hfy _].
    assert (Hb : r_end x <= r_start y).
    { unfold range_overlaps, sort_le, range_leb, range_wf in *. lia. }
    change (total_span (x :: y :: l)) with (span x + total_span (y :: l)). unfold span at 1. split; [lia|].
    constructor; [done|]. eapply Forall_impl; [exact Hd|]. unfold range_wf in *. simpl. lia.
Qed.

Lemma disjoint_NoDup hi l :
  StronglySorted (sort_le range_leb) l -> windows_overlap l = false -> Forall range_wf l ->
  Forall (fun r => r_end r <= hi) l -> NoDup l.
Proof.
  induction l as [|x l IH]; intros Hs Hw Hf Hh; [constructor|].
  destruct (disjoint_span hi l x Hs Hw Hf Hh) as [_ Hd]. constructor.
  - intros Hx. rewrite Forall_forall in Hd. apply Hd in Hx. apply Forall_cons in Hf as [Hf _]. unfold range_wf in Hf. lia.
  - inv Hs. inv Hf. inv Hh. apply IH; try done. destruct l as [|y l]; [done|]. by apply orb_false_iff in Hw as [_ ?].
Qed.

Definition entry_values (l : list ParamUpdate) : Z := foldr (fun u n => Z.of_nat (length (u_values u)) + n) 0 l.
Definition buffer_values (b : UpdateBuffer) : Z := foldr (fun e n => entry_values (snd e) + n) 0 (map_to_list (buffered b)).

Lemma total_span_app l k : total_span (l ++ k) = total_span l + total_span k.
Proof. induction l as [|r l IH]; simpl; [done|]. rewrite IH. lia. Qed.

#[export] Instance total_span_perm : Proper ((≡ₚ) ==> (=)) total_span.
Proof. induction 1; simpl; lia. Qed.

Lemma total_span_submseteq l k : l ⊆+ k -> Forall range_wf k -> total_span l <= total_span k.
Proof.
  intros [k' Hp]%submseteq_Permutation Hf. rewrite Hp in Hf. apply Forall_app in Hf as [_ Hf].
  rewrite Hp, total_span_app. clear Hp. enough (0 <= total_span k') by lia.
  induction Hf as [|r k' Hr Hk' IH]; simpl; [lia|]. unfold range_wf, span in *. lia.
Qed.

Lemma entry_values_le c cap r l : 0 < cap -> range_wf r -> entry_ok cap c r l -> entry_values l <= cap * span r.
Proof.
  intros Hc Hr [Hf _ Hl _]. specialize (Hl Hc). rewrite <-(range_len_span r Hr).
  assert (Hv : entry_values l = Z.of_nat (length l) * range_len r).
  { clear Hl. induction Hf as [|u l Hu Hf IH]; simpl; [done|]. destruct Hu as [_ Hu]. lia. }
  rewrite Hv. apply Z.mul_le_mono_nonneg_r; [|done]. rewrite range_len_span by done. unfold range_wf, span in *. lia.
Qed.

(** The buffered values are bounded by the worker cap and the lengths of the registered ranges. *)
Lemma buffer_values_le ranges c cap b :
  0 < cap -> Forall range_wf ranges -> NoDup ranges -> buffer_ok ranges cap c b ->
  buffer_values b <= cap * total_span ranges.
Proof.
  intros Hc Hw Hn [_ Hb]. unfold buffer_values. set (L := map_to_list (buffered b)).
  assert (HL : Forall (fun e => fst e ∈ ranges /\ entry_ok cap c (fst e) (snd e)) L).
  { apply Forall_forall. intros [r l] He. apply elem_of_map_to_list in He. by apply Hb. }
  transitivity (cap * total_span (map fst L)).
  - clearbody L. induction HL as [|[r l] L [Hr He] HL IH]; simpl in *; [lia|].
    rewrite Forall_forall in Hw. pose proof (entry_values_le c cap r l Hc (Hw r Hr) He). lia.
  - apply Z.mul_le_mono_nonneg_l; [lia|]. apply total_span_submseteq; [|done]. apply NoDup_submseteq.
    + apply NoDup_fst_map_to_list.
    + intros r Hr. apply list_elem_of_fmap in Hr as (e & -> & He). rewrite Forall_forall in HL. by apply HL in He as [? _].
Qed.

(** ** Histories of a service *)

Inductive PsCall := Push (u : ParamUpdate) | Pull (r : ParamRange) | EndEpoch.

(** The records of a closed epoch: its epoch, registered ranges, and for every worker the steps 0, 1, 2, ... *)
Record outcome_ok (ranges : list ParamRange) (steps : Z) (o : EpochOutcome) : Prop := {
  outcome_records : Forall (fun a => a_epoch a = o_epoch o /\ a_range a ∈ ranges) (o_accepted o);
  outcome_clocks : forall w, exists k, 0 <= k <= steps /\ clocks_of w (o_accepted o) = seqZ 0 k;
}.

Section histories.
Context {Database : Type} `{RK : RocksDB Database} `{B : Blake3}.
Abbreviation Service := (ShardService Database).

Definition ps_call (fuel : nat) (c : PsCall) (s : Service) : list EpochOutcome * Service :=
  match c with
  | Push u => ([], snd (ps_push u s))
  | Pull r => ([], snd (ps_pull r s))
  | EndEpoch => let '(res, s') := end_epoch fuel s in (match res with Ok o => [o] | _ => [] end, s')
  end.
Fixpoint ps_run (fuel : nat) (cs : list PsCall) (s : Service) : list EpochOutcome * Service :=
  match cs with
  | [] => ([], s)
  | c :: cs => let '(o, s) := ps_call fuel c s in let '(os, s) := ps_run fuel cs s in (o ++ os, s)
  end.

Lemma next_clock_range ranges steps cap (s : Service) w : 0 < steps -> sv_inv ranges steps cap s -> 0 <= next_clock w (sv_clock s) <= steps.
Proof. intros Hs Hi. unfold next_clock. destruct (_ !! _) eqn:E; [apply (inv_clock _ _ _ _ Hi) in E|]; lia. Qed.

Lemma ps_call_inv fuel c ranges steps cap s os s' :
  0 < steps < 2 ^ 64 -> sv_inv ranges steps cap s -> ps_call fuel c s = (os, s') ->
  sv_inv ranges steps cap s' /\ Forall (outcome_ok ranges steps) os.
Proof.
  intros Hs Hi. destruct c as [u|r|]; simpl.
  - intros [= <- <-]. destruct (ps_push u s) as [res s1] eqn:E. by destruct (ps_push_inv ranges steps cap u s res s1 Hs Hi E).
  - unfold ps_pull, gets, lift, bind. simpl. by intros [= <- <-].
  - unfold end_epoch, gets, lift, bind. simpl. destruct (trimmed_mean_new _) as [beta|e| |]; try by intros [= <- <-].
    destruct (end_epoch_with_rule _ s) as [res s1] eqn:E.
    destruct (end_epoch_with_rule_inv _ ranges steps cap s res s1 Hi E) as [Hi' Hr]. intros [= <- <-]. split; [done|].
    destruct res as [o|e| |]; [|done..]. destruct Hr as (He & Ha & _). apply Forall_singleton. split; rewrite Ha.
    + rewrite He. apply (inv_records _ _ _ _ Hi).
    + intros w. exists (next_clock w (sv_clock s)). split; [by eapply next_clock_range; [lia|]|apply (inv_accepted _ _ _ _ Hi)].
Qed.

Lemma ps_run_inv fuel cs ranges steps cap s os s' :
  0 < steps < 2 ^ 64 -> sv_inv ranges steps cap s -> ps_run fuel cs s = (os, s') ->
  sv_inv ranges steps cap s' /\ Forall (outcome_ok ranges steps) os.
Proof.
  intros Hs. revert s os. induction cs as [|c cs IH]; intros s os Hi; simpl; [by intros [= <- <-]|].
  destruct (ps_call fuel c s) as [o s1] eqn:Ec. destruct (ps_run fuel cs s1) as [os1 s2] eqn:Er. intros [= <- <-].
  destruct (ps_call_inv _ _ _ _ _ _ _ _ Hs Hi Ec) as [Hi1 Ho]. destruct (IH _ _ Hi1 Er) as [Hi2 Hos].
  split; [done|by apply Forall_app].
Qed.

Lemma find_min_ge fuel beta n m : find_min fuel beta n = Ok m -> n <= m.
Proof.
  revert n. induction fuel as [|fuel IH]; intros n; simpl; [done|]. case_match; [intros [= <-]; lia|].
  intros H'%IH. lia.
Qed.

Lemma config_cap fuel c : config_validate fuel c = Ok tt -> 0 < max_workers_per_range c.
Proof.
  unfold config_validate. destruct (trimmed_mean_new _) as [beta|e| |]; try done.
  destruct (find_min fuel beta 1) as [m|e| |] eqn:Em; try done. apply find_min_ge in Em.
  destruct (Z.ltb_spec (max_workers_per_range c) m); [done|]. intros _. lia.
Qed.
End histories.

Lemma outcome_unique ranges steps o a b :
  outcome_ok ranges steps o -> a ∈ o_accepted o -> b ∈ o_accepted o -> a_worker a = a_worker b -> a_clock a = a_clock b -> a = b.
Proof.
  intros [_ Hc] Ha Hb Hw Hk. destruct (Hc (a_worker a)) as (k & _ & E). unfold clocks_of in E.
  assert (Hn : NoDup (map a_clock (filter (fun x => a_worker x = a_worker a) (o_accepted o)))) by (rewrite E; apply NoDup_seqZ).
  revert Hn. assert (Ha' : a ∈ filter (fun x => a_worker x = a_worker a) (o_accepted o)) by (by apply list_elem_of_filter).
  assert (Hb' : b ∈ filter (fun x => a_worker x = a_worker a) (o_accepted o)) by (by apply list_elem_of_filter).
  revert Ha' Hb'. generalize (filter (fun x => a_worker x = a_worker a) (o_accepted o)) as l. clear -Hk.
  induction l as [|x l IH]; [set_solver|]. rewrite !elem_of_cons. simpl. intros Hx Hy [Hn Hd]%NoDup_cons.
  destruct Hx as [->|Hx], Hy as [->|Hy]; try done; [exfalso; apply Hn|exfalso; apply Hn|by apply IH].
  - rewrite Hk. apply list_elem_of_fmap. eauto.
  - rewrite <-Hk. apply list_elem_of_fmap. eauto.
Qed.

Lemma covered_span ranges o :
  Forall range_wf ranges -> range_wf o -> Forall (fun r => range_covers o r = true) (dedup_ranges (stable_sort range_leb ranges)) ->
  windows_overlap (dedup_ranges (stable_sort range_leb ranges)) = false ->
  total_span (dedup_ranges (stable_sort range_leb ranges)) <= span o.
Proof.
  intros Hw Ho Hc Hov. set (rs := dedup_ranges _) in *.
  assert (Hs : StronglySorted (sort_le range_leb) rs)
    by (apply dedup_sorted, stable_sort_sorted; [apply range_leb_total|apply range_leb_trans]).
  assert (Hwf : Forall range_wf rs).
  { apply Forall_forall. intros r Hr. rewrite Forall_forall in Hw. apply Hw. by rewrite <-(stable_sort_perm range_leb), <-dedup_elem. }
  clearbody rs. destruct rs as [|x rs]; [unfold span, range_wf in *; simpl; lia|].
  destruct (disjoint_span (r_end o) rs x) as [Hsum _]; try done.
  - eapply Forall_impl; [exact Hc|]. unfold range_covers. simpl. lia.
  - apply Forall_cons in Hc as [Hx _]. unfold range_covers in Hx. unfold span in *. lia.
Qed.
