(* ===== verification/PsStore.v ===== *)
(** * Theory of the shard store: rows of singles as one array

    The parameters of a shard are stored in rows of [CHUNK] values; reading and
    modifying a range behaves as on one array of parameters. *)

From S2P Require Import Prelude Externals Float64 Float32 Storage Ps PsService PsTheory.

(** ** Singles and their bytes *)

Lemma f32_of_to_bits x : f32_valid x -> f32_of_bits (f32_bits x) = x.
Proof.
  intros Hx. destruct x as [[]|[]| |s m e]; try reflexivity. apply f32_valid_finite in Hx. unfold f32_of_bits, f32_bits.
  destruct (Z.ltb_spec (Z.pos m) (2 ^ 23)) as [Hm|Hm].
  - assert (e = -149) as -> by lia. set (b := (if s then 2 ^ 31 else 0) + Z.pos m).
    assert (Hf : (b / 2 ^ 23) mod 256 = 0).
    { replace (b / 2 ^ 23) with (if s then 256 else 0); [by destruct s|]. apply Z.div_unique_pos with (Z.pos m); unfold b; destruct s; lia. }
    assert (Hr : b mod 2 ^ 23 = Z.pos m) by (symmetry; apply Z.mod_unique_pos with (if s then 256 else 0); unfold b; destruct s; lia).
    rewrite Hf, Hr. simpl. f_equal. unfold b. destruct s; lia.
  - assert (He : -149 <= e <= 104 /\ Z.pos m < 2 ^ 24) by lia.
    set (b := (if s then 2 ^ 31 else 0) + ((e + 150) * 2 ^ 23 + (Z.pos m - 2 ^ 23))).
    assert (Hq : b / 2 ^ 23 = (if s then 256 else 0) + (e + 150)).
    { symmetry. apply Z.div_unique_pos with (Z.pos m - 2 ^ 23); unfold b; destruct s; lia. }
    assert (Hf : (b / 2 ^ 23) mod 256 = e + 150).
    { rewrite Hq. symmetry. apply Z.mod_unique_pos with (if s then 1 else 0); destruct s; lia. }
    assert (Hr : b mod 2 ^ 23 = Z.pos m - 2 ^ 23).
    { symmetry. apply Z.mod_unique_pos with ((if s then 256 else 0) + (e + 150)); unfold b; destruct s; lia. }
    rewrite Hf, Hr. destruct (Z.eqb_spec (e + 150) 255); [lia|]. destruct (Z.eqb_spec (e + 150) 0); [lia|].
    replace (Z.pos m - 2 ^ 23 + 2 ^ 23) with (Z.pos m) by lia. f_equal; [unfold b; destruct s; lia|lia].
Qed.

Lemma decode_encode_singles l : Forall f32_valid l -> decode_singles (length l) (encode_chunk l) = l.
Proof.
  unfold encode_chunk. induction 1 as [|x l Hx Hl IH]; [done|]. cbn [length decode_singles map concat].
  rewrite take_app_length', drop_app_length' by (unfold f32_to_le_bytes; by rewrite length_to_le).
  rewrite IH. f_equal. unfold f32_to_le_bytes. rewrite from_to_le. pose proof (f32_bits_range x Hx) as Hr. unfold in_u in Hr.
  change (256 ^ Z.of_nat 4) with (2 ^ 32). rewrite Z.mod_small by done. by apply f32_of_to_bits.
Qed.

Lemma encode_chunk_length l : length (encode_chunk l) = (4 * length l)%nat.
Proof.
  unfold encode_chunk. induction l as [|x l IH]; [done|]. cbn [map concat]. rewrite length_app, IH.
  unfold f32_to_le_bytes. rewrite length_to_le. simpl. lia.
Qed.

(** A row as it is stored. *)
Definition row_ok (c : list f32) : Prop := Z.of_nat (length c) = CHUNK /\ Forall f32_valid c.

Lemma decode_encode_chunk c : row_ok c -> decode_chunk (encode_chunk c) = Ok c.
Proof.
  intros [Hl Hv]. unfold decode_chunk. rewrite encode_chunk_length.
  destruct (Z.eqb_spec (Z.of_nat (4 * length c)) (CHUNK * 4)); [|lia]. f_equal.
  rewrite <-Hl, Nat2Z.id. by apply decode_encode_singles.
Qed.

Lemma CHUNK_pos : 0 < CHUNK.
Proof. done. Qed.

(** Quotient and remainder of [x] by the chunk size, for [lia]. *)
Ltac chunk_facts x := pose proof (Z.div_mod x CHUNK); pose proof (Z.mod_pos_bound x CHUNK CHUNK_pos).

(** ** The store as an array *)

Section array.
Context {Database : Type} `{RK : RocksOk Database} `{B : Blake3}.
Abbreviation Store := (ShardStore Database).

Definition store_ok (s : Store) : Prop :=
  forall idx bs, in_u 64 idx -> db_get (store_db s) PARAMS_CF (chunk_key idx) = Some bs -> exists c, row_ok c /\ bs = encode_chunk c.

Definition row (s : Store) (idx : Z) : list f32 := match load_chunk s idx with Ok c => c | _ => [] end.
Definition param (s : Store) (i : Z) : f32 := default f32_zero (row s (i / CHUNK) !! Z.to_nat (i mod CHUNK)).

Lemma load_row s idx : store_ok s -> in_u 64 idx -> load_chunk s idx = Ok (row s idx) /\ row_ok (row s idx).
Proof.
  intros Hs Hi. unfold row, load_chunk. destruct (db_get _ _ _) as [bs|] eqn:E.
  - destruct (Hs idx bs Hi E) as (c & Hc & ->). by rewrite decode_encode_chunk.
  - split; [done|]. split; [by rewrite length_replicate, Z2Nat.id|]. by apply Forall_replicate.
Qed.

Lemma chunk_key_inj i j : in_u 64 i -> in_u 64 j -> chunk_key i = chunk_key j -> i = j.
Proof.
  unfold in_u, chunk_key. intros Hi Hj E. apply (f_equal from_be) in E. rewrite !from_to_be in E.
  by rewrite !Z.mod_small in E by done.
Qed.

(** ** Chunks of a range *)

(** The end of the part in chunk [idx]: the saturating addition does not show. *)
Lemma part_hi_min r idx : range_wf r -> part_hi r idx = Z.min (r_end r) ((idx + 1) * CHUNK).
Proof. unfold range_wf, part_hi, sat_add, u_max, CHUNK. lia. Qed.

Definition first_chunk (r : ParamRange) : Z := r_start r / CHUNK.
Definition last_chunk (r : ParamRange) : Z := (r_end r - 1) / CHUNK.

Lemma chunks_of_seq r : range_wf r -> chunks_of r = seqZ (first_chunk r) (last_chunk r - first_chunk r + 1).
Proof.
  intros [? ?]. unfold chunks_of, first_chunk, last_chunk. f_equal. unfold u64_sub, wrap. rewrite Z.mod_small by lia. lia.
Qed.

Lemma chunk_bounds r idx :
  range_wf r -> first_chunk r <= idx <= last_chunk r ->
  in_u 64 idx /\ idx * CHUNK <= part_lo r idx < part_hi r idx /\ part_hi r idx <= (idx + 1) * CHUNK /\
  r_start r <= part_lo r idx /\ part_hi r idx <= r_end r.
Proof.
  intros Hr Hi. rewrite part_hi_min by done. unfold range_wf, first_chunk, last_chunk, part_lo, in_u in *.
  chunk_facts (r_start r). chunk_facts (r_end r - 1).
  unfold CHUNK in *. lia.
Qed.

(** The next part begins where a part ends. *)
Lemma part_next r idx :
  range_wf r -> first_chunk r <= idx < last_chunk r -> part_hi r idx = part_lo r (idx + 1).
Proof.
  intros Hr Hi. rewrite part_hi_min by done. unfold range_wf, first_chunk, last_chunk, part_lo in *.
  chunk_facts (r_start r). chunk_facts (r_end r - 1).
  unfold CHUNK in *. lia.
Qed.

Lemma part_ends r : range_wf r -> part_lo r (first_chunk r) = r_start r /\ part_hi r (last_chunk r) = r_end r.
Proof.
  intros Hr. rewrite part_hi_min by done. unfold range_wf, first_chunk, last_chunk, part_lo in *.
  chunk_facts (r_start r). chunk_facts (r_end r - 1).
  unfold CHUNK in *. lia.
Qed.

(** Parameter [i] lies in the part of its chunk exactly when it lies in the range. *)
Lemma in_part r i :
  range_wf r -> r_start r <= i < r_end r ->
  first_chunk r <= i / CHUNK <= last_chunk r /\ part_lo r (i / CHUNK) <= i < part_hi r (i / CHUNK).
Proof.
  intros Hr Hi. rewrite part_hi_min by done. unfold range_wf, first_chunk, last_chunk, part_lo in *.
  chunk_facts i.
  split; [split; apply Z.div_le_mono; unfold CHUNK in *; lia|]. unfold CHUNK in *. lia.
Qed.

(** ** Reading *)

Lemma slice_lookup {A} a b (l : list A) k :
  0 <= a -> slice a b l !! k = if decide (Z.of_nat k < b - a) then l !! (Z.to_nat a + k)%nat else None.
Proof.
  intros Ha. unfold slice. case_decide.
  - rewrite lookup_take_lt by lia. by rewrite lookup_drop.
  - by rewrite lookup_take_ge by lia.
Qed.

Lemma slice_length {A} a b (l : list A) : 0 <= a -> b <= Z.of_nat (length l) -> Z.of_nat (length (slice a b l)) = Z.max 0 (b - a).
Proof. intros Ha Hb. unfold slice. rewrite length_take, length_drop. lia. Qed.

Lemma div_in_chunk idx i : idx * CHUNK <= i < (idx + 1) * CHUNK -> i / CHUNK = idx /\ i mod CHUNK = i - idx * CHUNK.
Proof. intros Hi. chunk_facts i. unfold CHUNK in *. lia. Qed.

Definition params (s : Store) (a b : Z) : list f32 := map (param s) (seqZ a (b - a)).

Lemma params_app s a b c : a <= b <= c -> params s a c = params s a b ++ params s b c.
Proof.
  intros Hb. unfold params. rewrite <-map_app. f_equal. replace (c - a) with ((b - a) + (c - b)) by lia.
  rewrite seqZ_app by lia. by replace (a + (b - a)) with b by lia.
Qed.

(** The part of a row holds the parameters of that part. *)
Lemma slice_params s idx lo hi :
  store_ok s -> in_u 64 idx -> idx * CHUNK <= lo <= hi -> hi <= (idx + 1) * CHUNK ->
  slice (lo - idx * CHUNK) (hi - idx * CHUNK) (row s idx) = params s lo hi.
Proof.
  intros Hs Hi Hlo Hhi. destruct (load_row s idx Hs Hi) as [_ [Hlen _]]. apply list_eq. intros k. rewrite slice_lookup by lia.
  unfold params. rewrite list_lookup_fmap. case_decide as Hk.
  - rewrite lookup_seqZ_lt by lia. simpl. unfold param. destruct (div_in_chunk idx (lo + Z.of_nat k)) as [-> ->]; [lia|].
    destruct (lookup_lt_is_Some_2 (row s idx) (Z.to_nat (lo + Z.of_nat k - idx * CHUNK))) as [x Hx]; [unfold CHUNK in *; lia|].
    rewrite Hx. simpl. by replace (Z.to_nat (lo - idx * CHUNK) + k)%nat with (Z.to_nat (lo + Z.of_nat k - idx * CHUNK)) by lia.
  - by rewrite lookup_seqZ_ge by lia.
Qed.

Lemma read_parts_spec s r n idx :
  range_wf r -> store_ok s -> first_chunk r <= idx -> idx + Z.of_nat n <= last_chunk r ->
  exists parts, read_parts s r (seqZ idx (Z.of_nat (S n))) = Ok parts /\
    concat parts = params s (part_lo r idx) (part_hi r (idx + Z.of_nat n)).
Proof.
  intros Hr Hs. revert idx. induction n as [|n IH]; intros idx Hf Hl;
    destruct (chunk_bounds r idx Hr) as (Hi & Hlo & Hhi & _ & _); [lia| |lia|];
    destruct (load_row s idx Hs Hi) as [El _];
    (rewrite seqZ_cons by lia); cbn [read_parts]; rewrite El.
  - eexists. split; [done|]. simpl. rewrite app_nil_r, Z.add_0_r. apply slice_params; [done..|lia|lia].
  - replace (Z.pred (Z.of_nat (S (S n)))) with (Z.of_nat (S n)) by lia.
    destruct (IH (Z.succ idx)) as (parts & -> & Hp); [lia..|]. eexists. split; [done|]. cbn [concat]. rewrite Hp.
    rewrite slice_params by (done || lia). rewrite (part_next r idx) by (done || lia).
    replace (idx + Z.of_nat (S n)) with (Z.succ idx + Z.of_nat n) by lia. change (idx + 1) with (Z.succ idx).
    symmetry. apply params_app. pose proof (part_next r idx Hr ltac:(lia)) as Hn.
    destruct (chunk_bounds r (Z.succ idx + Z.of_nat n) Hr) as (_ & Hlo' & _); [lia|].
    change (idx + 1) with (Z.succ idx) in Hn. split; [lia|]. unfold part_lo in *. unfold CHUNK in *. lia.
Qed.

Lemma get_range_spec s r :
  range_wf r -> store_ok s -> range_covers (owned_range s) r = true -> get_range s r = Ok (params s (r_start r) (r_end r)).
Proof.
  intros Hr Hs Hc. unfold get_range, check_owned. rewrite Hc, chunks_of_seq by done.
  assert (Hle : first_chunk r <= last_chunk r) by (apply Z.div_le_mono; [done|unfold range_wf in Hr; lia]).
  destruct (read_parts_spec s r (Z.to_nat (last_chunk r - first_chunk r)) (first_chunk r)) as (parts & E & Hp); [done..|lia|].
  replace (Z.of_nat (S (Z.to_nat (last_chunk r - first_chunk r)))) with (last_chunk r - first_chunk r + 1) in E by lia.
  rewrite E, Hp. replace (first_chunk r + _) with (last_chunk r) by lia. by destruct (part_ends r Hr) as [-> ->].
Qed.

(** ** Modifying *)

Section modify.
Context (r : ParamRange) (values : list f32) (f : f32 -> f32 -> f32).
Hypothesis Hr : range_wf r.
Hypothesis Hvals : Z.of_nat (length values) = span r.

Definition new_value (i : Z) (old : f32) : f32 :=
  if (r_start r <=? i) && (i <? r_end r) then f old (default f32_zero (values !! Z.to_nat (i - r_start r))) else old.

Lemma modify_chunk_length idx c :
  first_chunk r <= idx <= last_chunk r -> Z.of_nat (length c) = CHUNK -> length (modify_chunk r values f idx c) = length c.
Proof.
  intros Hi Hc. destruct (chunk_bounds r idx Hr Hi) as (_ & Hlo & Hhi & Hs & He). unfold modify_chunk, span in *.
  rewrite !length_app, length_take, length_zip_with, length_drop.
  pose proof (slice_length (part_lo r idx - idx * CHUNK) (part_hi r idx - idx * CHUNK) c).
  pose proof (slice_length (part_lo r idx - r_start r) (part_hi r idx - r_start r) values). lia.
Qed.

Lemma modify_chunk_lookup idx c k x :
  first_chunk r <= idx <= last_chunk r -> Z.of_nat (length c) = CHUNK -> c !! k = Some x ->
  modify_chunk r values f idx c !! k = Some (new_value (idx * CHUNK + Z.of_nat k) x).
Proof.
  intros Hi Hc Hx. destruct (chunk_bounds r idx Hr Hi) as (_ & Hlo & Hhi & Hs & He). pose proof (lookup_lt_Some _ _ _ Hx) as Hk.
  unfold modify_chunk, new_value, span in *. set (lo := part_lo r idx) in *. set (hi := part_hi r idx) in *.
  pose proof (slice_length (lo - idx * CHUNK) (hi - idx * CHUNK) c) as Hl1.
  pose proof (slice_length (lo - r_start r) (hi - r_start r) values) as Hl2.
  assert (Hlo' : lo = Z.max (r_start r) (idx * CHUNK)) by done.
  assert (Hhi' : hi = Z.min (r_end r) ((idx + 1) * CHUNK)) by (by apply part_hi_min).
  destruct (decide (Z.of_nat k < lo - idx * CHUNK)) as [Hb|Hb]; [|destruct (decide (Z.of_nat k < hi - idx * CHUNK)) as [Hm|Hm]].
  - rewrite lookup_app_l by (rewrite length_take; lia). rewrite lookup_take_lt by lia. rewrite Hx. f_equal.
    destruct (Z.leb_spec (r_start r) (idx * CHUNK + Z.of_nat k)); [lia|done].
  - rewrite lookup_app_r by (rewrite length_take; lia). rewrite length_take.
    rewrite lookup_app_l by (rewrite length_zip_with; lia).
    rewrite lookup_zip_with, !slice_lookup, !decide_True by lia.
    destruct (Z.leb_spec (r_start r) (idx * CHUNK + Z.of_nat k)); [|lia].
    destruct (Z.ltb_spec (idx * CHUNK + Z.of_nat k) (r_end r)); [|lia]. simpl.
    replace (Z.to_nat (lo - idx * CHUNK) + _)%nat with k by lia. rewrite Hx. simpl.
    replace (Z.to_nat (lo - r_start r) + _)%nat with (Z.to_nat (idx * CHUNK + Z.of_nat k - r_start r)) by lia.
    destruct (lookup_lt_is_Some_2 values (Z.to_nat (idx * CHUNK + Z.of_nat k - r_start r))) as [v ->]; [lia|done].
  - rewrite lookup_app_r by (rewrite length_take; lia). rewrite lookup_app_r by (rewrite length_take, length_zip_with; lia).
    rewrite lookup_drop, length_take, length_zip_with.
    replace (Z.to_nat (hi - idx * CHUNK) + _)%nat with k by lia. rewrite Hx. f_equal.
    destruct (Z.ltb_spec (idx * CHUNK + Z.of_nat k) (r_end r)); [unfold CHUNK in *; lia|]. by rewrite andb_false_r.
Qed.

Definition put_row (s : Store) (idx : Z) : BatchOp :=
  Put PARAMS_CF (chunk_key idx) (encode_chunk (modify_chunk r values f idx (row s idx))).

Lemma modify_batch_spec s idxs batch :
  store_ok s -> Forall (in_u 64) idxs -> modify_batch s r values f idxs batch = Ok (batch ++ map (put_row s) idxs).
Proof.
  intros Hs Hi. revert batch. induction Hi as [|idx idxs Hi _ IH]; intros batch; simpl; [by rewrite app_nil_r|].
  destruct (load_row s idx Hs Hi) as [-> _]. rewrite IH. unfold batch_put. by rewrite <-(assoc_L app).
Qed.

(** The rows after the batch is written. *)
Lemma write_rows s idxs idx :
  Forall (in_u 64) idxs -> NoDup idxs -> in_u 64 idx ->
  db_get (write_batch (store_db s) (map (put_row s) idxs)) PARAMS_CF (chunk_key idx) =
  if decide (idx ∈ idxs) then Some (encode_chunk (modify_chunk r values f idx (row s idx)))
  else db_get (store_db s) PARAMS_CF (chunk_key idx).
Proof.
  intros Hall Hnd Hi. rewrite Forall_forall in Hall.
  assert (Hother : forall l, (forall j, j ∈ l -> j ∈ idxs /\ j <> idx) ->
    forall op, op ∈ map (put_row s) l -> op_key op <> (PARAMS_CF, chunk_key idx)).
  { intros l Hl op (j & -> & Hj)%list_elem_of_fmap E. apply Hl in Hj as [Hj Hne]. apply (f_equal snd) in E.
    apply chunk_key_inj in E; [done|by apply Hall|done]. }
  case_decide as Hin.
  - apply list_elem_of_split in Hin as (l1 & l2 & ->). rewrite map_app. simpl. apply NoDup_app in Hnd as (_ & _ & Hnd).
    apply NoDup_cons in Hnd as [Hnd _]. apply write_batch_last_put, Hother. set_solver.
  - apply write_batch_untouched, Hother. set_solver.
Qed.

Hypothesis Hf : forall x v, f32_valid x -> v ∈ values -> f32_valid (f x v).

Lemma modify_chunk_ok idx c : first_chunk r <= idx <= last_chunk r -> row_ok c -> row_ok (modify_chunk r values f idx c).
Proof.
  intros Hi [Hl Hv]. split; [by rewrite modify_chunk_length|]. apply Forall_lookup. intros k y Hy.
  pose proof (lookup_lt_Some _ _ _ Hy) as Hk. rewrite modify_chunk_length in Hk by done.
  destruct (lookup_lt_is_Some_2 c k Hk) as [x Hx]. rewrite (modify_chunk_lookup idx c k x) in Hy by done. injection Hy as <-.
  assert (f32_valid x) by (by eapply Forall_lookup_1 in Hv). unfold new_value. set (i := idx * CHUNK + Z.of_nat k).
  destruct (Z.leb_spec (r_start r) i), (Z.ltb_spec i (r_end r)); simpl; try done. apply Hf; [done|].
  destruct (lookup_lt_is_Some_2 values (Z.to_nat (i - r_start r))) as [v Hval]; [unfold span in *; lia|]. rewrite Hval. simpl.
  by eapply list_elem_of_lookup_2.
Qed.

Definition modified (s : Store) : Store := mkStore (write_batch (store_db s) (map (put_row s) (chunks_of r))) (owned_range s).

Lemma chunks_in idx : idx ∈ chunks_of r <-> first_chunk r <= idx <= last_chunk r.
Proof. rewrite chunks_of_seq by done. rewrite elem_of_seqZ. lia. Qed.

Lemma chunks_range : Forall (in_u 64) (chunks_of r).
Proof. apply Forall_forall. intros idx Hi%chunks_in. by destruct (chunk_bounds r idx Hr Hi). Qed.

Lemma chunks_nodup : NoDup (chunks_of r).
Proof. rewrite chunks_of_seq by done. apply NoDup_seqZ. Qed.

Lemma modified_row s idx :
  store_ok s -> in_u 64 idx ->
  row (modified s) idx = if decide (idx ∈ chunks_of r) then modify_chunk r values f idx (row s idx) else row s idx.
Proof.
  intros Hs Hi. unfold row at 1, load_chunk. cbn [modified store_db].
  rewrite write_rows by (apply chunks_range || apply chunks_nodup || done).
  case_decide as Hin; [|done]. rewrite decode_encode_chunk; [done|]. apply modify_chunk_ok; [by apply chunks_in|].
  by apply load_row.
Qed.

Lemma modified_ok s : store_ok s -> store_ok (modified s).
Proof.
  intros Hs idx bs Hi. cbn [modified store_db].
  rewrite write_rows by (apply chunks_range || apply chunks_nodup || done).
  case_decide as Hin; [|by apply Hs]. injection 1 as <-. eexists. split; [|done]. apply modify_chunk_ok; [by apply chunks_in|].
  by apply load_row.
Qed.

Lemma modified_param s i : store_ok s -> in_u 64 i -> param (modified s) i = new_value i (param s i).
Proof.
  intros Hs Hi. chunk_facts i. assert (Hc : in_u 64 (i / CHUNK)) by (unfold in_u, CHUNK in *; lia).
  unfold param. rewrite modified_row by done. destruct (load_row s _ Hs Hc) as [_ [Hl _]].
  destruct (lookup_lt_is_Some_2 (row s (i / CHUNK)) (Z.to_nat (i mod CHUNK))) as [x Hx]; [lia|].
  case_decide as Hin.
  - rewrite (modify_chunk_lookup _ _ _ x) by (try done; by apply chunks_in). rewrite Hx. simpl. f_equal. lia.
  - rewrite Hx. simpl. unfold new_value. destruct (Z.leb_spec (r_start r) i), (Z.ltb_spec i (r_end r)); try done.
    exfalso. apply Hin, chunks_in. by apply in_part.
Qed.

Lemma modify_range_spec s :
  store_ok s ->
  modify_range r values f s = if range_covers (owned_range s) r then (Ok tt, modified s) else (Err InvalidRange, s).
Proof.
  intros Hs. unfold modify_range, check_owned. destruct (range_covers _ r); [|done].
  rewrite range_len_span by done. rewrite Hvals, Z.eqb_refl. simpl.
  rewrite modify_batch_spec by (done || apply chunks_range). done.
Qed.
End modify.
End array.
