(* ===== verification/PsProps.v ===== *)
(** * Properties of the parameter server *)

From S2P Require Import Prelude Externals Float64 Float32 Storage Ps PsService PsTheory PsStore.

(** ** The trimmed mean *)

(** The values honest workers sent for parameter [j]. *)
Definition honest_value (honest : Address -> bool) (us : list ParamUpdate) (j : nat) (x : f32) : Prop :=
  exists u, u ∈ us /\ honest (u_worker u) = true /\ u_values u !! j = Some x.

(** The workers that are not honest. *)
Definition dishonest (honest : Address -> bool) (us : list ParamUpdate) : list ParamUpdate :=
  filter (fun u => honest (u_worker u) = false) us.

(** C26 (safety): with at most [ceil(beta n)] dishonest workers among the [n] that
    sent an update, the trimmed mean returns, for every parameter, the mean of a
    non-empty list of values that each lie between two honest workers' values in
    the order of [f32::total_cmp]; and it does not depend on the order in which
    the updates arrived. *)
Theorem trimmed_mean_robust (honest : Address -> bool) beta us us' r delta :
  in_u 64 (Z.of_nat (length us)) -> Forall singles us -> us ≡ₚ us' ->
  Z.of_nat (length (dishonest honest us)) <= trim_count beta (Z.of_nat (length us)) ->
  trimmed_mean beta us r = Ok delta ->
  trimmed_mean beta us' r = Ok delta /\ Z.of_nat (length delta) = Z.max 0 (range_len r) /\
  forall j, (j < length delta)%nat -> exists kept,
    kept <> [] /\
    delta !! j = Some (f32_of_f64 (f64_div (f64_sum (map f64_of_f32 kept)) (f64_of (Z.of_nat (length kept))))) /\
    forall v, v ∈ kept -> exists lo hi,
      honest_value honest us j lo /\ honest_value honest us j hi /\ total_key lo <= total_key v <= total_key hi.
Proof.
  intros Hn Hs Hp Hd Hok. rewrite <-(trimmed_mean_perm beta us us' r Hs Hp).
  destruct (trimmed_mean_ok beta us r delta Hn Hok) as (Hf & Ht & Htn & Hlen & Hj). split_and!; [done..|].
  intros j Hlt. specialize (Hj j Hlt). set (t := trim_count beta _) in *. set (n := Z.of_nat (length us)) in *.
  assert (Hk : Z.of_nat (length (trimmed t n (column us j))) = n - 2 * t).
  { unfold trimmed. rewrite length_take, length_drop, stable_sort_length. unfold column. rewrite length_map. lia. }
  exists (trimmed t n (column us j)). rewrite Hk. split_and!; [intros E; rewrite E in Hk; simpl in Hk; lia|done|].
  intros v Hv.
  set (good x := Exists (fun u => honest (u_worker u) = true /\ u_values u !! j = Some x) us).
  assert (Hg : forall x, good x -> honest_value honest us j x) by (intros x Hx; apply Exists_exists in Hx; naive_solver).
  destruct (trimmed_between good (column us j) t v) as (a & b & _ & _ & Ha & Hb & Hab); [done| | |by eauto 10].
  - etransitivity; [|exact Hd]. apply inj_le. apply filter_map_le. intros u Hu Hbad.
    destruct (honest (u_worker u)) eqn:Eh; [|done]. exfalso. apply Hbad, Exists_exists. exists u. split_and!; [done..|].
    rewrite Forall_forall in Hf. destruct (Hf u Hu) as [_ Hl].
    destruct (lookup_lt_is_Some_2 (u_values u) j) as [x ->]; [lia|done].
  - unfold column. by rewrite length_map.
Qed.

(** Three workers, one of which sends 10^30. *)
Definition ex_worker (k : Z) : Address := replicate 19 0 ++ [k].
Definition ex_update (k x : Z) : ParamUpdate :=
  mkUpdate (ex_worker k) 0 0 (mkRange 0 2) [f32_of_f64 (f64_of x); f32_of_f64 (f64_of (x + 1))] 10.
Definition ex_updates : list ParamUpdate := [ex_update 1 1; ex_update 2 (10 ^ 30); ex_update 3 3].

Lemma trimmed_mean_robust_witness :
  exists delta, trimmed_mean (f64_lit 2 10) ex_updates (mkRange 0 2) = Ok delta /\
    map total_key delta = map (fun x => total_key (f32_of_f64 (f64_of x))) [3; 4] /\
    trimmed_mean (f64_lit 2 10) (reverse ex_updates) (mkRange 0 2) = Ok delta.
Proof.
  eexists. split; [vm_compute; reflexivity|]. split; [vm_compute; reflexivity|].
  refine (proj1 (trimmed_mean_robust (fun w => negb (bool_decide (w = ex_worker 2))) (f64_lit 2 10) ex_updates _ (mkRange 0 2) _ _ _ _ _ _)).
  - vm_compute. split; [discriminate|reflexivity].
  - repeat constructor.
  - by rewrite reverse_Permutation.
  - vm_compute. discriminate.
  - vm_compute. reflexivity.
Defined.

(** ** The shard store *)

Section shard_store.
Context {Database : Type} `{RK : RocksOk Database} `{B : Blake3}.

Definition inside (r : ParamRange) (i : Z) : bool := (r_start r <=? i) && (i <? r_end r).

(** C28 (refinement): the rows of the shard store behave as one array of
    parameters. Setting a range in the owned range replaces exactly its
    parameters, applying a delta adds to exactly them, rows stay well-formed,
    reading any range returns the parameters of the array in order, also across
    rows, and what was set is read back. Outside the owned range nothing is
    changed or read. *)
Theorem shard_store_array (s : ShardStore Database) r values :
  store_ok s -> range_wf r -> Forall f32_valid values -> Z.of_nat (length values) = span r ->
  if range_covers (owned_range s) r then
    exists s1 s2, set_range r values s = (Ok tt, s1) /\ apply_delta r values s = (Ok tt, s2) /\
      store_ok s1 /\ store_ok s2 /\ get_range s1 r = Ok values /\
      (forall i, in_u 64 i ->
         let v := default f32_zero (values !! Z.to_nat (i - r_start r)) in
         param s1 i = (if inside r i then v else param s i) /\
         param s2 i = (if inside r i then f32_add (param s i) v else param s i)) /\
      (forall r', range_wf r' -> range_covers (owned_range s) r' = true ->
         get_range s1 r' = Ok (map (param s1) (seqZ (r_start r') (span r'))) /\
         get_range s2 r' = Ok (map (param s2) (seqZ (r_start r') (span r'))))
  else
    set_range r values s = (Err InvalidRange, s) /\ apply_delta r values s = (Err InvalidRange, s) /\
    get_range s r = Err InvalidRange.
Proof.
  intros Hs Hr Hv Hl. rewrite Forall_forall in Hv. unfold set_range, apply_delta.
  rewrite !modify_range_spec by done. destruct (range_covers _ r) eqn:Hc; [|unfold get_range, check_owned; by rewrite Hc].
  set (s1 := modified r values (fun _ v => v) s). set (s2 := modified r values f32_add s).
  assert (H1 : store_ok s1) by (apply modified_ok; eauto). assert (H2 : store_ok s2) by (apply modified_ok; eauto using f32_add_valid).
  assert (P1 : forall i, in_u 64 i -> param s1 i = if inside r i then default f32_zero (values !! Z.to_nat (i - r_start r)) else param s i)
    by (intros i Hi; unfold s1; rewrite modified_param; eauto).
  assert (P2 : forall i, in_u 64 i -> param s2 i = new_value r values f32_add i (param s i))
    by (intros i Hi; apply modified_param; eauto using f32_add_valid).
  exists s1, s2. split_and!; [done..| | |].
  - rewrite get_range_spec by done. f_equal. apply list_eq. intros k. unfold params. rewrite list_lookup_fmap. fold (span r).
    destruct (decide (Z.of_nat k < span r)).
    + rewrite lookup_seqZ_lt by done. simpl. unfold range_wf, span in *. rewrite P1 by (unfold in_u; lia).
      unfold inside. destruct (Z.leb_spec (r_start r) (r_start r + Z.of_nat k)); [|lia].
      destruct (Z.ltb_spec (r_start r + Z.of_nat k) (r_end r)); [|lia]. simpl.
      replace (Z.to_nat _) with k by lia. by destruct (lookup_lt_is_Some_2 values k) as [x ->]; [lia|].
    + rewrite lookup_seqZ_ge by lia. symmetry. apply lookup_ge_None. lia.
  - intros i Hi. cbv zeta. split; [by apply P1|by apply P2].
  - intros r' Hr' Hc'. split; by apply get_range_spec.
Qed.
End shard_store.

Lemma shard_store_array_witness :
  let s := mkStore (∅ : RocksMap) (mkRange 0 5000) in
  let values := map (fun k => f32_of_f64 (f64_of k)) [7; 8; 9; 10] in
  range_covers (owned_range s) (mkRange 1022 1026) = true /\
  exists s1, set_range (mkRange 1022 1026) values s = (Ok tt, s1) /\ get_range s1 (mkRange 1022 1026) = Ok values.
Proof.
  intros s values. split; [reflexivity|].
  assert (Hs : store_ok s) by (intros idx bs _; discriminate).
  pose proof (shard_store_array s (mkRange 1022 1026) values Hs) as H.
  destruct H as (s1 & s2 & E1 & _ & _ & _ & E2 & _); [repeat constructor; by vm_compute|repeat constructor|reflexivity|].
  exists s1. exact (conj E1 E2).
Defined.

(** ** The accounting of the service *)

Section accounting.
Context {Database : Type} `{RK : RocksDB Database} `{B : Blake3}.

(** C27 (invariant): whatever workers push, pull and close on a new service whose
    ranges and step ceiling are well-formed, the records of every closed epoch
    name that epoch and registered ranges, and number each worker's accepted
    steps 0, 1, 2, ... without gap or repetition, never past the ceiling; the same
    holds of the open epoch. In the buffer a range has one entry per worker and at
    most the configured number of them, and all buffered values together are at
    most that number times the length of the owned range. *)
Theorem service_accounting fuel store config epoch ranges steps (s0 s : ShardService Database) cs outcomes :
  service_new fuel store config epoch ranges steps = Ok s0 ->
  Forall range_wf ranges -> range_wf (owned_range store) -> 0 < steps < 2 ^ 64 ->
  ps_run fuel cs s0 = (outcomes, s) ->
  Forall (outcome_ok ranges steps) outcomes /\
  outcome_ok ranges steps (mkOutcome (sv_epoch s) [] (sv_accepted s)) /\
  (forall r l, buffered (sv_buffer s) !! r = Some l ->
     r ∈ ranges /\ NoDup (map u_worker l) /\ Z.of_nat (length l) <= max_workers_per_range config) /\
  buffer_values (sv_buffer s) <= max_workers_per_range config * span (owned_range store).
Proof.
  intros Hnew Hw How Hs Hrun.
  destruct (service_new_inv _ _ _ _ _ _ _ Hnew) as (Hcfg & Hcov & Hov & _ & _ & _ & _ & Hi0).
  set (rs := dedup_ranges (stable_sort range_leb ranges)) in *.
  destruct (ps_run_inv fuel cs rs steps _ s0 outcomes s Hs Hi0 Hrun) as [Hi Ho]. apply config_cap in Hcfg.
  assert (Hrs : forall r, r ∈ rs <-> r ∈ ranges) by (intros r; unfold rs; by rewrite dedup_elem, stable_sort_perm).
  assert (Hwf : Forall range_wf rs) by (apply Forall_forall; intros r Hr%Hrs; rewrite Forall_forall in Hw; by apply Hw).
  assert (Hsub : forall o, outcome_ok rs steps o -> outcome_ok ranges steps o).
  { intros o [Hr Hc]. split; [|done]. eapply Forall_impl; [exact Hr|]. intros a [? ?%Hrs]. done. }
  split_and!.
  - eapply Forall_impl; [exact Ho|]. apply Hsub.
  - apply Hsub. split; [apply (inv_records _ _ _ _ Hi)|]. intros w. exists (next_clock w (sv_clock s)).
    split; [by eapply next_clock_range; [lia|]|apply (inv_accepted _ _ _ _ Hi)].
  - intros r l Hl. apply (inv_buffer _ _ _ _ Hi) in Hl as [Hr [_ Hn Hc _]]. split_and!; [by apply Hrs|done|by apply Hc].
  - etransitivity; [eapply buffer_values_le; [done|exact Hwf| |by eapply sv_buffer_ok]|].
    + eapply (disjoint_NoDup (r_end (owned_range store))); [|done..|].
      * apply dedup_sorted, stable_sort_sorted; [apply range_leb_total|apply range_leb_trans].
      * eapply Forall_impl; [exact Hcov|]. unfold range_covers. simpl. lia.
    + apply Z.mul_le_mono_nonneg_l; [lia|]. by apply covered_span.
Qed.
End accounting.

#[local] Instance ex_blake3 : Blake3 := fun bs => bs.
Definition ex_store : ShardStore RocksMap := mkStore (∅ : RocksMap) (mkRange 0 4).
Definition ex_service : Result PsError (ShardService RocksMap) :=
  service_new 10 ex_store ps_config_default 0 [mkRange 2 4; mkRange 0 2] 5.
Definition ex_push (k clock x : Z) : PsCall :=
  Push (mkUpdate (ex_worker k) 0 clock (mkRange 0 2) [f32_of_f64 (f64_of x); f32_of_f64 (f64_of (x + 1))] 10).
(** Worker 1 makes two steps, repeats one of them and is refused; then the epoch is closed. *)
Definition ex_calls : list PsCall :=
  [ex_push 1 0 1; ex_push 2 0 7; ex_push 1 1 2; ex_push 1 1 2; ex_push 3 0 3; Pull (mkRange 0 4); EndEpoch; Pull (mkRange 0 2)].
Definition ex_s0 : ShardService RocksMap :=
  mkService ex_store ps_config_default 0 (Ssp.new 3) (buffer_new 64) [mkRange 0 2; mkRange 2 4] 5 [].
Lemma ex_config : config_validate 10 ps_config_default = Ok tt.
Proof. vm_compute. reflexivity. Qed.
Lemma ex_service_new : ex_service = Ok ex_s0.
Proof. unfold ex_service, service_new. rewrite ex_config. reflexivity. Qed.

Definition steps_of (o : EpochOutcome) : list (Address * Z) := map (fun a => (a_worker a, a_clock a)) (o_accepted o).

Lemma ex_run_steps :
  map steps_of (fst (ps_run 10 ex_calls ex_s0)) = [[(ex_worker 1, 0); (ex_worker 2, 0); (ex_worker 1, 1); (ex_worker 3, 0)]].
Proof. vm_compute. reflexivity. Qed.

Lemma service_accounting_witness :
  exists outcomes s, ps_run 10 ex_calls ex_s0 = (outcomes, s) /\
    map steps_of outcomes = [[(ex_worker 1, 0); (ex_worker 2, 0); (ex_worker 1, 1); (ex_worker 3, 0)]] /\
    Forall (outcome_ok [mkRange 2 4; mkRange 0 2] 5) outcomes.
Proof.
  pose proof ex_run_steps as Hsteps. destruct (ps_run 10 ex_calls ex_s0) as [outcomes s] eqn:E.
  exists outcomes, s. split; [reflexivity|]. split; [exact Hsteps|].
  refine (proj1 (service_accounting 10 ex_store ps_config_default 0 [mkRange 2 4; mkRange 0 2] 5 ex_s0 s ex_calls outcomes _ _ _ _ E)).
  - exact ex_service_new.
  - repeat constructor; by vm_compute.
  - repeat constructor; by vm_compute.
  - lia.
Defined.
