(* ===== verification/Settlement.v ===== *)
(** * Settlement of a training epoch
      (src/crates/qfc-ai-coordinator/src/settlement.rs)

    A closed epoch of the parameter server becomes a commitment, the rewards of
    the workers and the slashes of the penalised ones. The function only computes
    what is to change; the job is read through its identifier alone. *)

From S2P Require Import Prelude Externals Types Float64 Float32 Ps PsService.

(** Validator offences and the result of a slash (qfc-types, validator.rs). *)
Inductive SlashableOffense := DoubleSign | InvalidBlock | Censorship | Offline | FalseVote | InvalidInference | InvalidTraining.
Record SlashResult := mkSlash { sl_validator : Address; sl_offense : SlashableOffense; sl_amount : Z; sl_jail_until : Z }.

(** A failed verification's penalty (training_verification.rs). *)
Record TrainingPenalty := mkPenalty {
  p_worker : Address;
  p_job_id : Hash;
  p_epoch : Z;
  p_slash_amount : Z;
  p_void_epoch_records : bool;
  p_jail_duration_ms : Z;
}.

Inductive SettlementError :=
| RecordEpochMismatch (worker : Address) (record_epoch epoch : Z)
| PenaltyEpochMismatch (worker : Address) (penalty_epoch epoch : Z)
| PenaltyJobMismatch (worker : Address) (penalty_job job_id : Hash)
| SettlementStorage.

Record TrainingEpochCommit := mkCommit {
  cm_job_id : Hash;
  cm_epoch : Z;
  cm_params_hash : Hash;
  cm_records_root : Hash;
  cm_accepted_count : Z;
  cm_total_flops : Z;
}.
Record RewardCredit := mkCredit { rc_worker : Address; rc_amount : Z }.
Record EpochSettlement := mkSettlement {
  es_commit : TrainingEpochCommit;
  es_rewards : list RewardCredit;
  es_slashes : list SlashResult;
  es_verifier_reserve_wei : Z;
  es_verifier_budget_flops : Z;
}.

Section settlement.
Context `{B : Blake3}.

Definition commit_bytes (c : TrainingEpochCommit) : bytes :=
  cm_job_id c ++ to_be 8 (cm_epoch c) ++ cm_params_hash c ++ cm_records_root c ++ to_be 8 (cm_accepted_count c) ++
  to_be 8 (cm_total_flops c).
Definition commit_hash (c : TrainingEpochCommit) : Hash := blake3 (commit_bytes c).

(** [Ordering::then], and the order [sort_by] sees. *)
Definition then_cmp (c d : comparison) : comparison := match c with Eq => d | _ => c end.
Definition cmp_leb (c : comparison) : bool := match c with Gt => false | _ => true end.

Definition record_cmp (a b : AcceptanceRecord) : comparison :=
  then_cmp (bytes_cmp (a_worker a) (a_worker b))
    (then_cmp (a_epoch a ?= a_epoch b)
       (then_cmp (a_clock a ?= a_clock b)
          (then_cmp (r_start (a_range a) ?= r_start (a_range b))
             (then_cmp (r_end (a_range a) ?= r_end (a_range b)) (bytes_cmp (a_update_hash a) (a_update_hash b)))))).
Definition record_bytes (r : AcceptanceRecord) : bytes :=
  a_worker r ++ to_be 8 (a_epoch r) ++ to_be 8 (a_clock r) ++ to_be 8 (r_start (a_range r)) ++ to_be 8 (r_end (a_range r)) ++
  a_update_hash r ++ to_be 8 (a_flops r).
Definition records_root (records : list AcceptanceRecord) : Hash :=
  blake3 (concat (map record_bytes (stable_sort (fun a b => cmp_leb (record_cmp a b)) records))).

Definition penalty_to_slash (now_ms : Z) (p : TrainingPenalty) : SlashResult :=
  mkSlash (p_worker p) InvalidTraining (p_slash_amount p) (sat_add 64 now_ms (p_jail_duration_ms p)).
Definition slash_cmp (a b : SlashResult) : comparison :=
  then_cmp (bytes_cmp (sl_validator a) (sl_validator b))
    (then_cmp (sl_amount a ?= sl_amount b) (sl_jail_until a ?= sl_jail_until b)).

(** ** The validation loops *)

Fixpoint check_records (epoch : Z) (l : list AcceptanceRecord) : Result SettlementError unit :=
  match l with
  | [] => Ok tt
  | r :: l => if negb (a_epoch r =? epoch) then Err (RecordEpochMismatch (a_worker r) (a_epoch r) epoch) else check_records epoch l
  end.
Fixpoint check_penalties (epoch : Z) (job_id : Hash) (l : list TrainingPenalty) : Result SettlementError unit :=
  match l with
  | [] => Ok tt
  | p :: l =>
    if negb (p_epoch p =? epoch) then Err (PenaltyEpochMismatch (p_worker p) (p_epoch p) epoch)
    else if negb (bool_decide (p_job_id p = job_id)) then Err (PenaltyJobMismatch (p_worker p) (p_job_id p) job_id)
    else check_penalties epoch job_id l
  end.

(** ** The split of the pool *)

Definition spot_bps (config : PsConfig) : Z :=
  rounded_to_u 128 (rounded_clamp 0 10000 (f64_round_half_away (f64_mul (spot_check_rate config) (f64_of 10000)))).
(** [U256::from(a) * U256::from(b) / U256::from(c)]; [None] is a panic. *)
Definition mul_div (a b c : Z) : option Z := x ← u256_mul a b; u256_div x c.

Definition voided (penalties : list TrainingPenalty) : list Address :=
  map p_worker (filter (fun p => p_void_epoch_records p = true) penalties).

(** [*worker_flops.entry(bytes).or_insert(0) += f; total_flops += f], for the records that are not voided. *)
Definition count_flops (void : list Address) (acc : gmap Address Z * Z) (r : AcceptanceRecord) : gmap Address Z * Z :=
  if bool_decide (a_worker r ∈ void) then acc
  else (<[a_worker r := wrap 128 (default 0 (fst acc !! a_worker r) + a_flops r)]> (fst acc), wrap 128 (snd acc + a_flops r)).

Fixpoint reward_credits (worker_pool total : Z) (l : list (Address * Z)) : option (list RewardCredit) :=
  match l with
  | [] => Some []
  | (w, flops) :: l =>
    amount ← (if total =? 0 then Some 0 else q ← mul_div worker_pool flops total; Some (low_u128 q));
    rest ← reward_credits worker_pool total l;
    Some (if 0 <? amount then mkCredit w amount :: rest else rest)
  end.

Definition settle_epoch (outcome : EpochOutcome) (job_id : Hash) (penalties : list TrainingPenalty) (reward_pool : Z)
    (config : PsConfig) (now_ms : Z) : Result SettlementError EpochSettlement :=
  match check_records (o_epoch outcome) (o_accepted outcome) with
  | Ok _ =>
    match check_penalties (o_epoch outcome) job_id penalties with
    | Ok _ =>
      let void := voided penalties in
      let total_accepted := foldl (fun acc r => sat_add 64 acc (a_flops r)) 0 (o_accepted outcome) in
      let commit := mkCommit job_id (o_epoch outcome) (o_params_hash outcome) (records_root (o_accepted outcome))
                      (wrap 64 (Z.of_nat (length (o_accepted outcome)))) total_accepted in
      let p_bps := spot_bps config in
      match
        reserve ← mul_div reward_pool p_bps 10000;
        let worker_pool := wrap 128 (reward_pool - low_u128 reserve) in
        let '(worker_flops, total) := foldl (count_flops void) (∅, 0) (o_accepted outcome) in
        rewards ← reward_credits worker_pool total (btree_entries bytes_le worker_flops);
        budget ← mul_div total_accepted p_bps 10000;
        Some (mkSettlement commit rewards (stable_sort (fun a b => cmp_leb (slash_cmp a b)) (map (penalty_to_slash now_ms) penalties))
                (low_u128 reserve) (wrap 64 budget))
      with
      | Some s => Ok s
      | None => Panic
      end
    | Err e => Err e
    | Panic => Panic
    | NoFuel => NoFuel
    end
  | Err e => Err e
  | Panic => Panic
  | NoFuel => NoFuel
  end.
End settlement.
