(* ===== verification/SettlementTheory.v ===== *)
(** * Theory of settlement

    Lawful comparisons, the sums of the work done, and the split of the pool. *)

From S2P Require Import Prelude Externals Types Float64 Float32 Ps PsService PsTheory Settlement.

(** ** Comparisons *)

(** What [Ord::cmp] promises. *)
Class LawfulCmp {A} (cmp : A -> A -> comparison) : Prop := {
  cmp_antisym : forall a b, cmp b a = CompOpp (cmp a b);
  cmp_lt_trans : forall a b c, cmp a b = Lt -> cmp b c = Lt -> cmp a c = Lt;
  cmp_eq_cong : forall a b c, cmp a b = Eq -> cmp a c = cmp b c;
}.

#[export] Instance bytes_cmp_lawful : LawfulCmp bytes_cmp.
Proof.
  split; [apply bytes_cmp_antisym|apply bytes_cmp_lt_trans|]. by intros a b c ->%bytes_cmp_eq.
Qed.

#[export] Instance Z_compare_lawful : LawfulCmp Z.compare.
Proof.
  split; [apply Z.compare_antisym| |]; intros a b c.
  - rewrite !Z.compare_lt_iff. lia.
  - by intros ->%Z.compare_eq.
Qed.

#[export] Instance comap_lawful {A K} (f : A -> K) cmp : LawfulCmp cmp -> LawfulCmp (fun a b => cmp (f a) (f b)).
Proof. intros []. split; eauto. Qed.

#[export] Instance then_lawful {A} (c d : A -> A -> comparison) :
  LawfulCmp c -> LawfulCmp d -> LawfulCmp (fun a b => then_cmp (c a b) (d a b)).
Proof.
  intros Hc Hd. split; intros a b.
  - rewrite (cmp_antisym (cmp := c) a b), (cmp_antisym (cmp := d) a b). by destruct (c a b).
  - intros x. destruct (c a b) eqn:E1; simpl; try done.
    + rewrite <-(cmp_eq_cong a b x E1). destruct (c a x); simpl; try done. apply cmp_lt_trans.
    + intros _. destruct (c b x) eqn:E2; simpl; try done; intros _.
      * assert (c a x = Lt) as ->; [|done]. assert (c x b = Eq) as E3 by (rewrite (cmp_antisym (cmp := c) b x), E2; done).
        rewrite (cmp_antisym (cmp := c) x a), (cmp_eq_cong (cmp := c) x b a E3), (cmp_antisym (cmp := c) a b), E1. done.
      * by rewrite (cmp_lt_trans a b x E1 E2).
  - intros x. destruct (c a b) eqn:E1; simpl; try done. intros E2.
    by rewrite (cmp_eq_cong a b x E1), (cmp_eq_cong a b x E2).
Qed.

Section lawful.
Context {A : Type} (cmp : A -> A -> comparison) `{!LawfulCmp cmp}.

Lemma cmp_leb_total a b : cmp_leb (cmp a b) = true \/ cmp_leb (cmp b a) = true.
Proof. rewrite (cmp_antisym a b). destruct (cmp a b); auto. Qed.

Lemma cmp_leb_trans a b c : cmp_leb (cmp a b) = true -> cmp_leb (cmp b c) = true -> cmp_leb (cmp a c) = true.
Proof.
  destruct (cmp a b) eqn:E1; simpl; try done; intros _.
  - by rewrite (cmp_eq_cong a b c E1).
  - destruct (cmp b c) eqn:E2; simpl; try done; intros _; [|by rewrite (cmp_lt_trans a b c E1 E2)].
    assert (cmp c b = Eq) as E3 by (rewrite (cmp_antisym b c), E2; done).
    by rewrite (cmp_antisym c a), (cmp_eq_cong c b a E3), (cmp_antisym a b), E1.
Qed.

Lemma cmp_leb_eq a b : cmp_leb (cmp a b) = true -> cmp_leb (cmp b a) = true -> cmp a b = Eq.
Proof. rewrite (cmp_antisym a b). by destruct (cmp a b). Qed.

(** Sorting forgets the order of the input when elements that compare equal are equal. *)
Lemma cmp_sort_perm l l' :
  l ≡ₚ l' -> (forall x y, x ∈ l -> y ∈ l -> cmp x y = Eq -> x = y) ->
  stable_sort (fun a b => cmp_leb (cmp a b)) l = stable_sort (fun a b => cmp_leb (cmp a b)) l'.
Proof.
  intros Hp Hu. apply stable_sort_unique; [apply cmp_leb_total|apply cmp_leb_trans|done|].
  intros x y Hx Hy H1 H2. apply Hu; [done..|]. by apply cmp_leb_eq.
Qed.
End lawful.

#[export] Instance record_cmp_lawful : LawfulCmp record_cmp.
Proof. unfold record_cmp. repeat first [apply then_lawful | apply (comap_lawful _ bytes_cmp) | apply (comap_lawful _ Z.compare)]; apply _. Qed.
#[export] Instance slash_cmp_lawful : LawfulCmp slash_cmp.
Proof. unfold slash_cmp. repeat first [apply then_lawful | apply (comap_lawful _ bytes_cmp) | apply (comap_lawful _ Z.compare)]; apply _. Qed.

Lemma then_cmp_eq c d : then_cmp c d = Eq -> c = Eq /\ d = Eq.
Proof. by destruct c. Qed.

Lemma record_cmp_eq a b : record_cmp a b = Eq -> a_worker a = a_worker b /\ a_clock a = a_clock b.
Proof.
  unfold record_cmp. intros [Hw [_ [Hc _]%then_cmp_eq]%then_cmp_eq]%then_cmp_eq.
  apply bytes_cmp_eq in Hw. by apply Z.compare_eq in Hc.
Qed.

(** ** Sums of work *)

Definition sum_flops (l : list AcceptanceRecord) : Z := foldr (fun a n => a_flops a + n) 0 l.
Definition paid (void : list Address) (l : list AcceptanceRecord) : list AcceptanceRecord := filter (fun a => a_worker a ∉ void) l.
Definition of_worker (w : Address) (l : list AcceptanceRecord) : list AcceptanceRecord := filter (fun a => a_worker a = w) l.
Definition flops_ok (l : list AcceptanceRecord) : Prop := Forall (fun a => in_u 64 (a_flops a)) l /\ Z.of_nat (length l) < 2 ^ 64.

#[export] Instance sum_flops_perm : Proper ((≡ₚ) ==> (=)) sum_flops.
Proof. induction 1; simpl; lia. Qed.

Lemma sum_flops_app l k : sum_flops (l ++ k) = sum_flops l + sum_flops k.
Proof. induction l; simpl; lia. Qed.

Lemma sum_flops_range l : Forall (fun a => in_u 64 (a_flops a)) l -> 0 <= sum_flops l <= Z.of_nat (length l) * (2 ^ 64 - 1).
Proof. induction 1 as [|a l Ha Hl IH]; simpl; [lia|]. unfold in_u in *. lia. Qed.

Lemma sum_flops_filter (P : AcceptanceRecord -> Prop) `{!forall a, Decision (P a)} l :
  Forall (fun a => in_u 64 (a_flops a)) l -> 0 <= sum_flops (filter P l) <= sum_flops l.
Proof.
  induction 1 as [|a l Ha Hl IH]; [simpl; lia|]. rewrite filter_cons. unfold in_u in *. case_decide; simpl; lia.
Qed.

Lemma Forall_filtered {A} (P Q : A -> Prop) `{!forall a, Decision (P a)} l : Forall Q l -> Forall Q (filter P l).
Proof. rewrite !Forall_forall. intros Hl x [_ Hx]%list_elem_of_filter. by apply Hl. Qed.

Lemma flops_ok_sum l : flops_ok l -> 0 <= sum_flops l < 2 ^ 128.
Proof. intros [Hf Hn]. pose proof (sum_flops_range l Hf). lia. Qed.

(** The sum over the entries of a map. *)
Definition entries_sum (l : list (Address * Z)) : Z := foldr (fun e n => snd e + n) 0 l.
#[export] Instance entries_sum_perm : Proper ((≡ₚ) ==> (=)) entries_sum.
Proof. induction 1; simpl; lia. Qed.

Lemma entries_sum_insert (m : gmap Address Z) w x :
  entries_sum (map_to_list (<[w := x]> m)) = entries_sum (map_to_list m) - default 0 (m !! w) + x.
Proof.
  destruct (m !! w) as [y|] eqn:E; simpl.
  - rewrite <-(insert_delete_eq m w x), map_to_list_insert by apply lookup_delete_eq.
    rewrite <-(insert_id m w y E) at 2. rewrite <-insert_delete_eq, map_to_list_insert by apply lookup_delete_eq. simpl. lia.
  - rewrite map_to_list_insert by done. simpl. lia.
Qed.

(** What the counting loop computes: the work of each worker that is paid, and its total. *)
Definition counted (void : list Address) (l : list AcceptanceRecord) (acc : gmap Address Z * Z) : Prop :=
  snd acc = sum_flops (paid void l) /\ entries_sum (map_to_list (fst acc)) = snd acc /\
  forall w, fst acc !! w = if decide (of_worker w (paid void l) = []) then None else Some (sum_flops (of_worker w (paid void l))).

Lemma count_flops_step void l a acc :
  flops_ok (l ++ [a]) -> counted void l acc -> counted void (l ++ [a]) (count_flops void acc a).
Proof.
  intros Hok (Ht & Hs & Hm). pose proof (flops_ok_sum _ Hok) as Hr. destruct Hok as [Hf _].
  pose proof (sum_flops_filter (fun a => a_worker a ∉ void) _ Hf) as Hp. fold (paid void (l ++ [a])) in Hp.
  pose proof (Forall_filtered (fun a => a_worker a ∉ void) _ _ Hf) as Hfp. fold (paid void (l ++ [a])) in Hfp.
  pose proof (sum_flops_filter (fun b => a_worker b = a_worker a) _ Hfp) as Hw. fold (of_worker (a_worker a) (paid void (l ++ [a]))) in Hw.
  unfold counted, count_flops. unfold paid in *. rewrite filter_app, filter_cons, filter_nil in *. case_bool_decide as Hv.
  { rewrite decide_False, app_nil_r in * by tauto. done. }
  rewrite decide_True in * by done. rewrite !sum_flops_app in *. simpl in *.
  set (p := filter (fun a => a_worker a ∉ void) l) in *.
  assert (Hd : default 0 (fst acc !! a_worker a) = sum_flops (of_worker (a_worker a) p)).
  { rewrite Hm. case_decide as E; [by rewrite E|done]. }
  assert (Hof : forall w, of_worker w (p ++ [a]) = of_worker w p ++ if decide (a_worker a = w) then [a] else [])
    by (intros w; unfold of_worker; by rewrite filter_app, filter_cons, filter_nil).
  rewrite Hof, decide_True, sum_flops_app in Hw by done. simpl in Hw.
  unfold wrap. rewrite Hd, !Z.mod_small by lia. split_and!; [lia|rewrite entries_sum_insert, Hd; lia|].
  intros w. rewrite Hof. destruct (decide (a_worker a = w)) as [<-|Hne].
  - rewrite lookup_insert_eq, decide_False by (intros []%app_nil; done). f_equal. rewrite sum_flops_app. simpl. lia.
  - by rewrite lookup_insert_ne, app_nil_r, Hm.
Qed.

Lemma count_flops_spec void l : flops_ok l -> counted void l (foldl (count_flops void) (∅, 0) l).
Proof.
  induction l as [|a l IH] using rev_ind; intros Hok; [done|]. rewrite foldl_app. simpl. apply count_flops_step; [done|].
  apply IH. destruct Hok as [Hf Hn]. apply Forall_app in Hf as [Hf _]. rewrite length_app in Hn. split; [done|lia].
Qed.

Lemma counted_unique void l l' acc acc' : l ≡ₚ l' -> counted void l acc -> counted void l' acc' -> acc = acc'.
Proof.
  intros Hp (Ht & _ & Hm) (Ht' & _ & Hm'). destruct acc as [m t], acc' as [m' t']. simpl in *.
  assert (Hpp : paid void l ≡ₚ paid void l') by (unfold paid; by rewrite Hp).
  f_equal; [|by rewrite Ht, Ht', Hpp]. apply map_eq. intros w. rewrite Hm, Hm'.
  assert (Hw : of_worker w (paid void l) ≡ₚ of_worker w (paid void l')) by (unfold of_worker; by rewrite Hpp).
  destruct (decide (of_worker w (paid void l) = [])) as [E|E], (decide (of_worker w (paid void l') = [])) as [E'|E']; try done.
  - rewrite E in Hw. by apply Permutation_nil_l in Hw.
  - rewrite E' in Hw. by apply Permutation_nil_r in Hw.
  - by rewrite Hw.
Qed.

(** ** The split of the pool *)

Definition share (pool total flops : Z) : Z := if total =? 0 then 0 else pool * flops / total.
Definition credit (pool total : Z) (e : Address * Z) : option RewardCredit :=
  if 0 <? share pool total (snd e) then Some (mkCredit (fst e) (share pool total (snd e))) else None.
Definition credit_sum (l : list RewardCredit) : Z := foldr (fun c n => rc_amount c + n) 0 l.

Lemma mul_div_ok a b c : in_u 128 a -> in_u 128 b -> 0 < c -> mul_div a b c = Some (a * b / c).
Proof.
  unfold in_u, mul_div, u256_mul, checked, u256_div. intros Ha Hb Hc.
  assert (a * b < 2 ^ 128 * 2 ^ 128) by nia. change (2 ^ 128 * 2 ^ 128) with (2 ^ 256) in *.
  rewrite (proj2 (Z.leb_le 0 (a * b))), (proj2 (Z.ltb_lt (a * b) (2 ^ 256))) by nia.
  simpl. by destruct (Z.eqb_spec c 0); [lia|].
Qed.

Lemma pool_share_range pool total f : 0 <= pool -> 0 <= f <= total -> 0 <= share pool total f <= pool.
Proof.
  intros Hp Hf. unfold share. destruct (Z.eqb_spec total 0); [lia|]. split; [apply Z.div_pos; nia|].
  apply Z.div_le_upper_bound; nia.
Qed.

Lemma reward_credits_ok pool total l :
  in_u 128 pool -> in_u 128 total -> Forall (fun e => 0 <= snd e <= total) l ->
  reward_credits pool total l = Some (omap (credit pool total) l).
Proof.
  intros Hp Ht. induction 1 as [|[w f] l Hf Hl IH]; [done|]. simpl in Hf. cbn [reward_credits omap list_omap].
  rewrite IH. generalize (omap (credit pool total) l) as rest. intros rest. unfold credit. simpl. pose proof (pool_share_range pool total f (proj1 Hp) Hf) as Hr. unfold share in *.
  destruct (Z.eqb_spec total 0) as [|Hne]; [done|]. unfold in_u in *.
  rewrite mul_div_ok by (unfold in_u; lia). simpl. unfold low_u128, wrap. rewrite Z.mod_small by lia. by destruct (0 <? _).
Qed.

Lemma credit_sum_omap pool total l :
  0 <= pool -> Forall (fun e => 0 <= snd e <= total) l ->
  credit_sum (omap (credit pool total) l) = foldr (fun e n => share pool total (snd e) + n) 0 l.
Proof.
  intros Hp. induction 1 as [|e l He Hl IH]; [done|]. cbn [omap list_omap foldr]. unfold credit at 1.
  pose proof (pool_share_range pool total (snd e) Hp He). destruct (Z.ltb_spec 0 (share pool total (snd e))); simpl; rewrite IH; lia.
Qed.

(** The shares lose less than one unit per worker to rounding. *)
Lemma shares_bounds pool total l :
  0 < total -> let s := foldr (fun e n => share pool total (snd e) + n) 0 l in
  total * s <= pool * entries_sum l <= total * s + (total - 1) * Z.of_nat (length l).
Proof.
  intros Ht. induction l as [|e l IH]; simpl; [lia|]. unfold share at 1 3. destruct (Z.eqb_spec total 0); [lia|].
  pose proof (Z.div_mod (pool * snd e) total). pose proof (Z.mod_pos_bound (pool * snd e) total). simpl in IH. nia.
Qed.

(** ** The settlement of a well-formed epoch *)

Section settled.
Context `{B : Blake3}.

Definition inputs_ok (o : EpochOutcome) (job_id : Hash) (penalties : list TrainingPenalty) : Prop :=
  Forall (fun a => a_epoch a = o_epoch o) (o_accepted o) /\
  Forall (fun p => p_epoch p = o_epoch o /\ p_job_id p = job_id) penalties.

Definition reserve_of (pool : Z) (config : PsConfig) : Z := pool * spot_bps config / 10000.
Definition total_accepted (l : list AcceptanceRecord) : Z := foldl (fun acc r => sat_add 64 acc (a_flops r)) 0 l.
Definition settled (o : EpochOutcome) (job_id : Hash) (penalties : list TrainingPenalty) (pool : Z) (config : PsConfig)
    (now_ms : Z) : EpochSettlement :=
  let counts := foldl (count_flops (voided penalties)) (∅, 0) (o_accepted o) in
  mkSettlement
    (mkCommit job_id (o_epoch o) (o_params_hash o) (records_root (o_accepted o)) (wrap 64 (Z.of_nat (length (o_accepted o))))
       (total_accepted (o_accepted o)))
    (omap (credit (pool - reserve_of pool config) (snd counts)) (btree_entries bytes_le (fst counts)))
    (stable_sort (fun a b => cmp_leb (slash_cmp a b)) (map (penalty_to_slash now_ms) penalties))
    (reserve_of pool config) (wrap 64 (total_accepted (o_accepted o) * spot_bps config / 10000)).

Lemma check_records_ok epoch l :
  (Forall (fun a => a_epoch a = epoch) l /\ check_records epoch l = Ok tt) \/
  (~ Forall (fun a => a_epoch a = epoch) l /\ exists e, check_records epoch l = Err e).
Proof.
  induction l as [|a l IH]; simpl; [by left|]. rewrite Forall_cons. destruct (Z.eqb_spec (a_epoch a) epoch); simpl; [|right; naive_solver].
  destruct IH as [[? ->]|[? [e' ->]]]; [left|right]; naive_solver.
Qed.

Lemma check_penalties_ok epoch job l :
  (Forall (fun p => p_epoch p = epoch /\ p_job_id p = job) l /\ check_penalties epoch job l = Ok tt) \/
  (~ Forall (fun p => p_epoch p = epoch /\ p_job_id p = job) l /\ exists e, check_penalties epoch job l = Err e).
Proof.
  induction l as [|p l IH]; simpl; [by left|]. rewrite Forall_cons.
  destruct (Z.eqb_spec (p_epoch p) epoch); simpl; [|right; naive_solver]. case_bool_decide; simpl; [|right; naive_solver].
  destruct IH as [[? ->]|[? [e' ->]]]; [left|right]; naive_solver.
Qed.

Lemma spot_bps_range config : 0 <= spot_bps config <= 10000.
Proof. apply clamp_range; [lia|]. by vm_compute. Qed.

Lemma reserve_range pool config : 0 <= pool -> 0 <= reserve_of pool config <= pool.
Proof.
  intros Hp. pose proof (spot_bps_range config). unfold reserve_of.
  split; [apply Z.div_pos; nia|]. apply Z.div_le_upper_bound; nia.
Qed.

Lemma counted_entries void l acc :
  flops_ok l -> counted void l acc -> Forall (fun e => 0 <= snd e <= snd acc) (btree_entries bytes_le (fst acc)).
Proof.
  intros [Hf _] (Ht & _ & Hm). apply Forall_forall. intros [w f] He. apply btree_entries_elem in He. simpl.
  rewrite Hm in He. case_decide; [done|]. injection He as <-. rewrite Ht.
  apply (sum_flops_filter (fun b => a_worker b = w)). by apply Forall_filtered.
Qed.

Lemma total_accepted_range l : Forall (fun a => in_u 64 (a_flops a)) l -> in_u 64 (total_accepted l).
Proof.
  unfold total_accepted. intros Hl. assert (H0 : in_u 64 0) by (unfold in_u; lia). revert H0. generalize 0 as acc.
  induction Hl as [|a l Ha Hl IH]; intros acc Hacc; [done|]. simpl. apply IH.
  unfold sat_add, in_u, u_max in *. lia.
Qed.

Lemma settle_epoch_spec o job penalties pool config now :
  flops_ok (o_accepted o) -> in_u 128 pool ->
  (inputs_ok o job penalties /\ settle_epoch o job penalties pool config now = Ok (settled o job penalties pool config now)) \/
  (~ inputs_ok o job penalties /\ exists e, settle_epoch o job penalties pool config now = Err e).
Proof.
  intros Hok Hp. unfold settle_epoch, inputs_ok.
  destruct (check_records_ok (o_epoch o) (o_accepted o)) as [[Hr ->]|[Hr [e ->]]]; [|right; naive_solver].
  destruct (check_penalties_ok (o_epoch o) job penalties) as [[Hs ->]|[Hs [e ->]]]; [left; split; [done|]|right; naive_solver].
  pose proof (spot_bps_range config) as Hb. pose proof (reserve_range pool config (proj1 Hp)) as Hre.
  pose proof (count_flops_spec (voided penalties) _ Hok) as Hc. pose proof (counted_entries _ _ _ Hok Hc) as He.
  pose proof (total_accepted_range _ (proj1 Hok)) as Hta. fold (total_accepted (o_accepted o)).
  unfold settled. cbv zeta. destruct (foldl _ _ _) as [m total]. simpl in *. destruct Hc as [Ht _]. simpl in Ht.
  pose proof (sum_flops_filter (fun a => a_worker a ∉ voided penalties) _ (proj1 Hok)) as Hpf.
  pose proof (flops_ok_sum _ Hok). unfold in_u in *. fold (paid (voided penalties) (o_accepted o)) in Hpf.
  rewrite (mul_div_ok pool) by (unfold in_u; lia). simpl. fold (reserve_of pool config).
  assert (Hlow : low_u128 (reserve_of pool config) = reserve_of pool config) by (apply Z.mod_small; lia).
  assert (Hwp : wrap 128 (pool - reserve_of pool config) = pool - reserve_of pool config) by (apply Z.mod_small; lia).
  rewrite Hlow, Hwp.
  rewrite reward_credits_ok by (unfold in_u; lia || done). simpl. by rewrite mul_div_ok by (unfold in_u; lia).
Qed.
End settled.

(** ** Independence of the order of the inputs *)

Lemma total_accepted_sum l :
  Forall (fun a => in_u 64 (a_flops a)) l -> total_accepted l = Z.min (sum_flops l) (u_max 64).
Proof.
  unfold total_accepted. intros Hl.
  enough (forall acc, 0 <= acc <= u_max 64 ->
    foldl (fun acc r => sat_add 64 acc (a_flops r)) acc l = Z.min (acc + sum_flops l) (u_max 64)) as He
    by (rewrite He; [done|unfold u_max; lia]).
  induction Hl as [|a l Ha Hl IH]; intros acc Hacc; simpl; [lia|]. pose proof (sum_flops_range l Hl).
  unfold in_u in *. rewrite IH; unfold sat_add, u_max in *; lia.
Qed.

Lemma paid_same void void' l : (forall w, w ∈ void <-> w ∈ void') -> paid void l = paid void' l.
Proof. intros Hv. unfold paid. apply list_filter_iff. intros a. by rewrite Hv. Qed.

Lemma counted_same void void' l acc : (forall w, w ∈ void <-> w ∈ void') -> counted void l acc -> counted void' l acc.
Proof. intros Hv. unfold counted. by rewrite (paid_same void void' l Hv). Qed.

Lemma slash_eq now p q :
  slash_cmp (penalty_to_slash now p) (penalty_to_slash now q) = Eq -> penalty_to_slash now p = penalty_to_slash now q.
Proof.
  unfold slash_cmp, penalty_to_slash. simpl. intros [Hw [Ha Hj]%then_cmp_eq]%then_cmp_eq.
  apply bytes_cmp_eq in Hw. apply Z.compare_eq in Ha, Hj. by rewrite Hw, Ha, Hj.
Qed.

Lemma flops_ok_perm l l' : l ≡ₚ l' -> flops_ok l -> flops_ok l'.
Proof. intros Hp [Hf Hn]. split; by rewrite <-Hp. Qed.

Lemma settled_perm `{B : Blake3} ranges steps o acc' job penalties penalties' pool config now :
  outcome_ok ranges steps o -> flops_ok (o_accepted o) -> o_accepted o ≡ₚ acc' -> penalties ≡ₚ penalties' ->
  settled o job penalties pool config now =
  settled (mkOutcome (o_epoch o) (o_params_hash o) acc') job penalties' pool config now.
Proof.
  intros Ho Hf Ha Hp. unfold settled. cbv zeta. cbn [o_epoch o_params_hash o_accepted].
  assert (Hroot : records_root (o_accepted o) = records_root acc').
  { unfold records_root. do 3 f_equal. apply (cmp_sort_perm record_cmp); [done|].
    intros x y Hx Hy [Hw Hc]%record_cmp_eq. by eapply outcome_unique. }
  assert (Htot : total_accepted (o_accepted o) = total_accepted acc').
  { rewrite !total_accepted_sum; [by rewrite Ha|rewrite <-Ha|]; apply Hf. }
  assert (Hcnt : foldl (count_flops (voided penalties)) (∅, 0) (o_accepted o) = foldl (count_flops (voided penalties')) (∅, 0) acc').
  { eapply (counted_unique (voided penalties')); [exact Ha| |apply count_flops_spec; by eapply flops_ok_perm].
    eapply counted_same; [|by apply count_flops_spec]. intros w. unfold voided. by rewrite Hp. }
  assert (Hsl : stable_sort (fun a b => cmp_leb (slash_cmp a b)) (map (penalty_to_slash now) penalties) =
                stable_sort (fun a b => cmp_leb (slash_cmp a b)) (map (penalty_to_slash now) penalties')).
  { apply (cmp_sort_perm slash_cmp); [by rewrite Hp|]. intros x y Hx Hy.
    apply list_elem_of_fmap in Hx as (p & -> & _). apply list_elem_of_fmap in Hy as (q & -> & _). apply slash_eq. }
  assert (Hlen : length (o_accepted o) = length acc') by (by rewrite Ha).
  by rewrite Hroot, Htot, Hcnt, Hsl, Hlen.
Qed.

Lemma inputs_ok_perm o acc' job penalties penalties' :
  o_accepted o ≡ₚ acc' -> penalties ≡ₚ penalties' -> inputs_ok o job penalties ->
  inputs_ok (mkOutcome (o_epoch o) (o_params_hash o) acc') job penalties'.
Proof. intros Ha Hp [H1 H2]. split; simpl; [by rewrite <-Ha|by rewrite <-Hp]. Qed.

(** ** The rewards *)

Lemma counted_some void l acc w f :
  counted void l acc -> fst acc !! w = Some f <->
  of_worker w (paid void l) <> [] /\ f = sum_flops (of_worker w (paid void l)).
Proof. intros (_ & _ & Hm). rewrite Hm. case_decide; naive_solver. Qed.

Lemma of_worker_nonempty w l : of_worker w l <> [] <-> w ∈ map a_worker l.
Proof.
  rewrite list_elem_of_fmap. split.
  - intros Hn. destruct (of_worker w l) as [|a k] eqn:E; [done|].
    assert (Ha : a ∈ of_worker w l) by (rewrite E; set_solver). apply list_elem_of_filter in Ha as [<- ?]. eauto.
  - intros (a & -> & Ha) E. assert (Hin : a ∈ of_worker (a_worker a) l) by (by apply list_elem_of_filter).
    rewrite E in Hin. set_solver.
Qed.

Lemma counted_size void l acc :
  counted void l acc -> length (btree_entries bytes_le (fst acc)) = size (list_to_set (map a_worker (paid void l)) : gset Address).
Proof.
  intros Hc. unfold btree_entries. rewrite merge_sort_Permutation.
  rewrite length_map_to_list, <-size_dom. f_equal. apply set_eq. intros w. rewrite elem_of_dom, elem_of_list_to_set, <-of_worker_nonempty.
  unfold is_Some. setoid_rewrite (counted_some void l acc w _ Hc). naive_solver.
Qed.

Lemma credits_elem void l acc pool w a :
  counted void l acc ->
  mkCredit w a ∈ omap (credit pool (snd acc)) (btree_entries bytes_le (fst acc)) <->
  w ∈ map a_worker (paid void l) /\ 0 < a /\ a = share pool (sum_flops (paid void l)) (sum_flops (of_worker w (paid void l))).
Proof.
  intros Hc. rewrite list_elem_of_omap. pose proof (proj1 Hc) as Ht. rewrite Ht. rewrite <-of_worker_nonempty. split.
  - intros ([w' f] & He & Hcr). apply btree_entries_elem, (counted_some void l acc w' f Hc) in He as [Hn ->].
    unfold credit in Hcr. simpl in Hcr. destruct (Z.ltb_spec 0 (share pool (sum_flops (paid void l)) (sum_flops (of_worker w' (paid void l))))); [|done].
    injection Hcr as <- <-. done.
  - intros (Hn & Hpos & ->). exists (w, sum_flops (of_worker w (paid void l))). split.
    + by apply btree_entries_elem, (counted_some void l acc w _ Hc).
    + unfold credit. simpl. by destruct (Z.ltb_spec 0 (share pool (sum_flops (paid void l)) (sum_flops (of_worker w (paid void l))))); [|lia].
Qed.

Lemma credits_nodup pool total (L : list (Address * Z)) :
  NoDup (map fst L) -> NoDup (map rc_worker (omap (credit pool total) L)).
Proof.
  induction L as [|e L IH]; [done|]. simpl. intros [Hn Hd]%NoDup_cons. unfold credit at 1.
  destruct (0 <? _); simpl; [|by apply IH]. constructor; [|by apply IH]. intros Hin. apply Hn.
  apply list_elem_of_fmap in Hin as (c & Ec & Hin). apply list_elem_of_omap in Hin as (e' & He' & Hcr).
  unfold credit in Hcr. destruct (0 <? share _ _ (snd e')); [|done]. injection Hcr as <-. simpl in Ec. rewrite Ec.
  apply list_elem_of_fmap. eauto.
Qed.

Lemma credits_sum void l acc pool :
  flops_ok l -> 0 <= pool -> counted void l acc ->
  let sum := credit_sum (omap (credit pool (snd acc)) (btree_entries bytes_le (fst acc))) in
  0 <= sum <= pool /\
  (0 < sum_flops (paid void l) -> pool < sum + Z.of_nat (size (list_to_set (map a_worker (paid void l)) : gset Address))).
Proof.
  intros Hok Hp Hc. pose proof (counted_entries void l acc Hok Hc) as He. cbv zeta.
  rewrite (credit_sum_omap pool (snd acc) _ Hp He), <-(counted_size void l acc Hc).
  destruct Hc as (Ht & Hs & _). rewrite <-Ht. set (L := btree_entries bytes_le (fst acc)) in *.
  assert (HL : entries_sum L = snd acc) by (unfold L, btree_entries; by rewrite merge_sort_Permutation).
  assert (H0 : 0 <= foldr (fun e n => share pool (snd acc) (snd e) + n) 0 L).
  { clear -He Hp. induction He as [|e L H HL IH]; simpl; [lia|]. pose proof (pool_share_range pool (snd acc) (snd e) Hp H). lia. }
  destruct (decide (0 < snd acc)) as [Hpos|Hz].
  - pose proof (shares_bounds pool (snd acc) L Hpos) as [Hlo Hhi]. rewrite HL in *.
    assert (HL0 : (0 < length L)%nat) by (destruct L; [simpl in HL; lia|simpl; lia]). nia.
  - split; [|lia]. split; [done|]. clear -He Hz Hp.
    assert (Hsum : foldr (fun e n => share pool (snd acc) (snd e) + n) 0 L = 0).
    { induction He as [|e L H HL IH]; simpl; [done|]. unfold share at 1. destruct (Z.eqb_spec (snd acc) 0); lia. }
    lia.
Qed.
