(* ===== verification/SettlementProps.v ===== *)
(** * Properties of settlement *)

From S2P Require Import Prelude Externals Types Float64 Float32 Storage Ps PsService PsTheory PsProps Settlement SettlementTheory.

Section properties.
Context `{B : Blake3}.

(** C24 (invariant): what a settled epoch pays out never exceeds the reward pool:
    rewards and the verifiers' reserve add up to at most the pool, and rounding
    leaves less than one unit per paid worker behind. Exactly the workers that no
    voiding penalty names are paid, once each, their share of the rest of the
    pool in proportion to the work of their records. *)
Theorem settlement_conserves o job penalties pool config now s :
  flops_ok (o_accepted o) -> in_u 128 pool -> settle_epoch o job penalties pool config now = Ok s ->
  let p := paid (voided penalties) (o_accepted o) in
  let reserve := es_verifier_reserve_wei s in
  0 <= reserve <= pool /\
  0 <= credit_sum (es_rewards s) /\ credit_sum (es_rewards s) + reserve <= pool /\
  (0 < sum_flops p ->
     pool < credit_sum (es_rewards s) + reserve + Z.of_nat (size (list_to_set (map a_worker p) : gset Address))) /\
  NoDup (map rc_worker (es_rewards s)) /\
  forall w a, mkCredit w a ∈ es_rewards s <->
    w ∈ map a_worker p /\ 0 < a /\ a = share (pool - reserve) (sum_flops p) (sum_flops (of_worker w p)).
Proof.
  intros Hok Hp Hs. destruct (settle_epoch_spec o job penalties pool config now Hok Hp) as [[_ E]|[_ [e E]]]; rewrite E in Hs; [|done].
  injection Hs as <-. cbv zeta. unfold settled. cbn [es_rewards es_verifier_reserve_wei].
  pose proof (reserve_range pool config (proj1 Hp)) as Hr. pose proof (count_flops_spec (voided penalties) _ Hok) as Hc.
  pose proof (credits_sum _ _ _ (pool - reserve_of pool config) Hok ltac:(lia) Hc) as [Hsum Hrest]. cbv zeta in *.
  split_and!; [lia..| |intros w a; by apply credits_elem].
  apply credits_nodup, btree_entries_keys_nodup.
Qed.

(** C25 (equivalence): every epoch a parameter server closes can be settled, and
    two operators that hold its records and the same penalties in different
    orders obtain the same settlement: the same commitment, rewards and slashes. *)
Theorem service_settles {Database : Type} `{RK : RocksDB Database} fuel store config epoch ranges steps
    (s0 s : ShardService Database) cs outcomes o acc' job penalties penalties' pool now :
  service_new fuel store config epoch ranges steps = Ok s0 -> 0 < steps < 2 ^ 64 ->
  ps_run fuel cs s0 = (outcomes, s) -> o ∈ outcomes -> flops_ok (o_accepted o) -> in_u 128 pool ->
  Forall (fun p => p_epoch p = o_epoch o /\ p_job_id p = job) penalties ->
  o_accepted o ≡ₚ acc' -> penalties ≡ₚ penalties' ->
  exists st, settle_epoch o job penalties pool config now = Ok st /\
    settle_epoch (mkOutcome (o_epoch o) (o_params_hash o) acc') job penalties' pool config now = Ok st.
Proof.
  intros Hnew Hs Hrun Ho Hf Hp Hpen Ha Hpp.
  destruct (service_new_inv _ _ _ _ _ _ _ Hnew) as (_ & _ & _ & _ & _ & _ & _ & Hi0).
  destruct (ps_run_inv fuel cs _ steps _ s0 outcomes s Hs Hi0 Hrun) as [_ Hos].
  rewrite Forall_forall in Hos. specialize (Hos o Ho).
  assert (Hin : inputs_ok o job penalties).
  { split; [|done]. eapply Forall_impl; [apply (outcome_records _ _ _ Hos)|]. by intros a [? _]. }
  destruct (settle_epoch_spec o job penalties pool config now Hf Hp) as [[_ ->]|[Hn _]]; [|done].
  eexists. split; [done|]. rewrite (settled_perm _ steps o acc' job penalties penalties' pool config now Hos Hf Ha Hpp).
  destruct (settle_epoch_spec (mkOutcome (o_epoch o) (o_params_hash o) acc') job penalties' pool config now) as [[_ ->]|[Hn _]];
    [by eapply flops_ok_perm|done|done|]. destruct Hn. by apply inputs_ok_perm with (penalties := penalties).
Qed.
End properties.

(** Three workers, of which the second is penalised. *)
#[local] Instance settle_blake3 : Blake3 := fun bs => bs.
Definition ex_record (k clock flops : Z) : AcceptanceRecord := mkRecord (ex_worker k) 0 clock (mkRange 0 2) [k] flops.
Definition ex_outcome : EpochOutcome := mkOutcome 0 [9] [ex_record 1 0 10; ex_record 2 0 50; ex_record 1 1 20; ex_record 3 0 40].
Definition ex_penalties : list TrainingPenalty := [mkPenalty (ex_worker 2) [7] 0 400 true 21600000].

Lemma settlement_conserves_witness :
  exists s, settle_epoch ex_outcome [7] ex_penalties 1001 ps_config_default 5 = Ok s /\
    es_rewards s = [mkCredit (ex_worker 1) 407; mkCredit (ex_worker 3) 543] /\ es_verifier_reserve_wei s = 50 /\
    credit_sum (es_rewards s) + es_verifier_reserve_wei s <= 1001.
Proof.
  eexists. split; [vm_compute; reflexivity|]. split; [vm_compute; reflexivity|]. split; [vm_compute; reflexivity|].
  refine (proj1 (proj2 (proj2 (settlement_conserves ex_outcome [7] ex_penalties 1001 ps_config_default 5 _ _ _ _)))).
  - split; [repeat constructor; by vm_compute|by vm_compute].
  - split; by vm_compute.
  - vm_compute. reflexivity.
Defined.

Lemma ex_run_outcome :
  map (fun o => (o_epoch o, map a_flops (o_accepted o))) (fst (ps_run 10 ex_calls ex_s0)) = [(0, [10; 10; 10; 10])].
Proof. vm_compute. reflexivity. Qed.

Lemma service_settles_witness :
  exists outcomes s o, ps_run 10 ex_calls ex_s0 = (outcomes, s) /\ outcomes = [o] /\
    exists st, settle_epoch o [7] ex_penalties 1001 ps_config_default 5 = Ok st /\
      settle_epoch (mkOutcome (o_epoch o) (o_params_hash o) (reverse (o_accepted o))) [7] ex_penalties 1001 ps_config_default 5 = Ok st.
Proof.
  pose proof ex_run_outcome as Ho. destruct (ps_run 10 ex_calls ex_s0) as [outcomes s] eqn:E. simpl in Ho.
  destruct outcomes as [|o [|o' os]]; try discriminate Ho. injection Ho as He Hf. exists [o], s, o. split; [reflexivity|]. split; [reflexivity|].
  refine (service_settles 10 ex_store ps_config_default 0 [mkRange 2 4; mkRange 0 2] 5 ex_s0 s ex_calls [o] o _ [7] ex_penalties _ 1001 5
    ex_service_new _ E _ _ _ _ _ _).
  - lia.
  - apply list_elem_of_singleton. reflexivity.
  - split.
    + apply (Forall_map a_flops (in_u 64)). rewrite Hf. repeat constructor; by vm_compute.
    + rewrite <-(length_map a_flops), Hf. reflexivity.
  - split; by vm_compute.
  - rewrite He. repeat constructor.
  - symmetry. apply reverse_Permutation.
  - reflexivity.
Defined.
