(* ===== verification/Wp.v ===== *)
(** * Weakest preconditions of stateful code

    [wp m Q s]: run from [s], the code neither panics nor runs out of fuel, and
    where it returns normally the value and the state satisfy [Q]. An error of
    the code itself is an admissible outcome. [wlp m Q s] asks only for the
    values returned. *)

From S2P Require Import Prelude.

Section wp.
Context {S E : Type}.

Definition wp {A} (m : ST S E A) (Q : A -> S -> Prop) (s : S) : Prop :=
  match m s with (Ok a, s') => Q a s' | (Err _, _) => True | _ => False end.

Lemma wp_ret {A} (a : A) Q s : Q a s -> wp (ret a) Q s.
Proof. done. Qed.
Lemma wp_fail {A} e (Q : A -> S -> Prop) s : wp (fail e) Q s.
Proof. done. Qed.
Lemma wp_gets {A} (f : S -> A) Q s : Q (f s) s -> wp (gets f) Q s.
Proof. done. Qed.
Lemma wp_modify (f : S -> S) (Q : unit -> S -> Prop) s : Q tt (f s) -> wp (modify f) Q s.
Proof. done. Qed.
Lemma wp_or_panic {A} (o : option A) a (Q : A -> S -> Prop) s : o = Some a -> Q a s -> wp (or_panic o) Q s.
Proof. by intros ->. Qed.

Lemma wp_bind {A B} (m : ST S E A) (k : A -> ST S E B) Q s : wp m (fun a s' => wp (k a) Q s') s -> wp (bind m k) Q s.
Proof. unfold wp, bind. by destruct (m s) as [[a|e| |] s']. Qed.

Lemma wp_mono {A} (m : ST S E A) (P Q : A -> S -> Prop) s : wp m P s -> (forall a s', P a s' -> Q a s') -> wp m Q s.
Proof. unfold wp. destruct (m s) as [[a|e| |] s']; auto. Qed.

(** The outcome of a run that starts in [s]. *)
Lemma wp_result {A} (m : ST S E A) Q s :
  wp m Q s -> (exists a s', m s = (Ok a, s') /\ Q a s') \/ (exists e s', m s = (Err e, s')).
Proof. unfold wp. destruct (m s) as [[a|e| |] s']; naive_solver. Qed.

Definition wlp {A} (m : ST S E A) (Q : A -> S -> Prop) (s : S) : Prop :=
  match m s with (Ok a, s') => Q a s' | _ => True end.

Lemma wlp_ret {A} (a : A) Q s : Q a s -> wlp (ret a) Q s.
Proof. done. Qed.
Lemma wlp_gets {A} (f : S -> A) Q s : Q (f s) s -> wlp (gets f) Q s.
Proof. done. Qed.
Lemma wlp_modify (f : S -> S) (Q : unit -> S -> Prop) s : Q tt (f s) -> wlp (modify f) Q s.
Proof. done. Qed.
Lemma wlp_bind {A B} (m : ST S E A) (k : A -> ST S E B) Q s : wlp m (fun a s' => wlp (k a) Q s') s -> wlp (bind m k) Q s.
Proof. unfold wlp, bind. by destruct (m s) as [[a|e| |] s']. Qed.
Lemma wlp_any {A} (m : ST S E A) (Q : A -> S -> Prop) s : (forall a s', Q a s') -> wlp m Q s.
Proof. intros HQ. unfold wlp. destruct (m s) as [[a|e| |] s']; auto. Qed.
Lemma wlp_mono {A} (m : ST S E A) (P Q : A -> S -> Prop) s : wlp m P s -> (forall a s', P a s' -> Q a s') -> wlp m Q s.
Proof. unfold wlp. destruct (m s) as [[a|e| |] s']; auto. Qed.
Lemma wlp_run {A} (m : ST S E A) Q s a s' : m s = (Ok a, s') -> wlp m Q s -> Q a s'.
Proof. unfold wlp. by intros ->. Qed.
End wp.
