(* ===== verification/QscTokens.v ===== *)
(** * Tokens of QuantumScript
      (src/crates/qfc-qsc/src/lexer/token.rs)

    A character is its code point and a string a list of characters; offsets
    into the source count the bytes of its UTF-8 encoding. *)

From stdpp Require Import strings.
From S2P Require Import Prelude.

Abbreviation chars := (list Z).

(** The characters of a literal of the source text. *)
Definition str (s : string) : chars := map (fun a => Z.of_nat (Ascii.nat_of_ascii a)) (String.list_ascii_of_string s).
Definition ch (s : string) : Z := hd 0 (str s).

(** ** Spans *)

Record Span := mkSpan { sp_start : Z; sp_end : Z; sp_line : Z; sp_column : Z }.
Definition span_merge (a b : Span) : Span :=
  mkSpan (Z.min (sp_start a) (sp_start b)) (Z.max (sp_end a) (sp_end b)) (Z.min (sp_line a) (sp_line b))
    (if sp_line a <=? sp_line b then sp_column a else sp_column b).
Definition span_default : Span := mkSpan 0 0 1 1.

(** ** Token kinds *)

Module Tok.
Inductive TokenKind :=
| IntLiteral (s : chars) | FloatLiteral (s : chars) | StringLiteral (s : chars) | ByteStringLiteral (b : bytes)
| BoolLiteral (b : bool) | AddressLiteral (s : chars) | Identifier (s : chars) | Contract | Interface | Library
| Module_ | Import_ | From_ | As | Pub | Extern | Bool | U8 | U16 | U32 | U64 | U128 | U256 | I8 | I16 | I32 | I64
| I128 | I256 | Address | Bytes | String_ | Mapping | Vec_ | Option_ | Result_ | Resource | Copy | Drop | Store | Key
| Move_ | Fn | Pure | View | Payable | Parallel | Constructor | Fallback | Receive | Returns | Modifier | Event
| Error | Emit | Revert | If | Else | Match | For | While | Loop | Break | Continue | Return | In | Let | Mut | Const
| Static | Storage | Memory | Calldata | Spec | Invariant | Requires | Ensures | Assert | Assume | Forall | Exists
| Self_ | Super | Impl | Trait | Where | Type_ | Struct | Enum | Plus | Minus | Star | Slash | Percent | StarStar
| EqEq | NotEq | Lt | Gt | LtEq | GtEq | And | Or | Not | Ampersand | Pipe | Caret | Tilde | Shl | Shr | Eq | PlusEq
| MinusEq | StarEq | SlashEq | PercentEq | AmpersandEq | PipeEq | CaretEq | ShlEq | ShrEq | Arrow | FatArrow
| Question | Colon | ColonColon | Dot | DotDot | DotDotEq | At | Hash | Dollar | LParen | RParen | LBracket | RBracket
| LBrace | RBrace | Comma | Semi | Underscore | Eof | Newline | DocComment (s : chars) | Comment.
End Tok.
Abbreviation TokenKind := Tok.TokenKind.

(** [std::mem::discriminant], and the payload as a list. *)
Definition discriminant (k : TokenKind) : Z :=
  match k with
  | Tok.IntLiteral _ => 0 | Tok.FloatLiteral _ => 1 | Tok.StringLiteral _ => 2 | Tok.ByteStringLiteral _ => 3
  | Tok.BoolLiteral _ => 4 | Tok.AddressLiteral _ => 5 | Tok.Identifier _ => 6 | Tok.Contract => 7
  | Tok.Interface => 8 | Tok.Library => 9 | Tok.Module_ => 10 | Tok.Import_ => 11 | Tok.From_ => 12 | Tok.As => 13
  | Tok.Pub => 14 | Tok.Extern => 15 | Tok.Bool => 16 | Tok.U8 => 17 | Tok.U16 => 18 | Tok.U32 => 19 | Tok.U64 => 20
  | Tok.U128 => 21 | Tok.U256 => 22 | Tok.I8 => 23 | Tok.I16 => 24 | Tok.I32 => 25 | Tok.I64 => 26 | Tok.I128 => 27
  | Tok.I256 => 28 | Tok.Address => 29 | Tok.Bytes => 30 | Tok.String_ => 31 | Tok.Mapping => 32 | Tok.Vec_ => 33
  | Tok.Option_ => 34 | Tok.Result_ => 35 | Tok.Resource => 36 | Tok.Copy => 37 | Tok.Drop => 38 | Tok.Store => 39
  | Tok.Key => 40 | Tok.Move_ => 41 | Tok.Fn => 42 | Tok.Pure => 43 | Tok.View => 44 | Tok.Payable => 45
  | Tok.Parallel => 46 | Tok.Constructor => 47 | Tok.Fallback => 48 | Tok.Receive => 49 | Tok.Returns => 50
  | Tok.Modifier => 51 | Tok.Event => 52 | Tok.Error => 53 | Tok.Emit => 54 | Tok.Revert => 55 | Tok.If => 56
  | Tok.Else => 57 | Tok.Match => 58 | Tok.For => 59 | Tok.While => 60 | Tok.Loop => 61 | Tok.Break => 62
  | Tok.Continue => 63 | Tok.Return => 64 | Tok.In => 65 | Tok.Let => 66 | Tok.Mut => 67 | Tok.Const => 68
  | Tok.Static => 69 | Tok.Storage => 70 | Tok.Memory => 71 | Tok.Calldata => 72 | Tok.Spec => 73
  | Tok.Invariant => 74 | Tok.Requires => 75 | Tok.Ensures => 76 | Tok.Assert => 77 | Tok.Assume => 78
  | Tok.Forall => 79 | Tok.Exists => 80 | Tok.Self_ => 81 | Tok.Super => 82 | Tok.Impl => 83 | Tok.Trait => 84
  | Tok.Where => 85 | Tok.Type_ => 86 | Tok.Struct => 87 | Tok.Enum => 88 | Tok.Plus => 89 | Tok.Minus => 90
  | Tok.Star => 91 | Tok.Slash => 92 | Tok.Percent => 93 | Tok.StarStar => 94 | Tok.EqEq => 95 | Tok.NotEq => 96
  | Tok.Lt => 97 | Tok.Gt => 98 | Tok.LtEq => 99 | Tok.GtEq => 100 | Tok.And => 101 | Tok.Or => 102 | Tok.Not => 103
  | Tok.Ampersand => 104 | Tok.Pipe => 105 | Tok.Caret => 106 | Tok.Tilde => 107 | Tok.Shl => 108 | Tok.Shr => 109
  | Tok.Eq => 110 | Tok.PlusEq => 111 | Tok.MinusEq => 112 | Tok.StarEq => 113 | Tok.SlashEq => 114
  | Tok.PercentEq => 115 | Tok.AmpersandEq => 116 | Tok.PipeEq => 117 | Tok.CaretEq => 118 | Tok.ShlEq => 119
  | Tok.ShrEq => 120 | Tok.Arrow => 121 | Tok.FatArrow => 122 | Tok.Question => 123 | Tok.Colon => 124
  | Tok.ColonColon => 125 | Tok.Dot => 126 | Tok.DotDot => 127 | Tok.DotDotEq => 128 | Tok.At => 129
  | Tok.Hash => 130 | Tok.Dollar => 131 | Tok.LParen => 132 | Tok.RParen => 133 | Tok.LBracket => 134
  | Tok.RBracket => 135 | Tok.LBrace => 136 | Tok.RBrace => 137 | Tok.Comma => 138 | Tok.Semi => 139
  | Tok.Underscore => 140 | Tok.Eof => 141 | Tok.Newline => 142 | Tok.DocComment _ => 143 | Tok.Comment => 144
  end.
Definition payload (k : TokenKind) : list Z :=
  match k with
  | Tok.IntLiteral s | Tok.FloatLiteral s | Tok.StringLiteral s | Tok.ByteStringLiteral s | Tok.AddressLiteral s
  | Tok.Identifier s | Tok.DocComment s => s
  | Tok.BoolLiteral b => if b then [1] else []
  | _ => []
  end.

Definition token_of (d : Z) (p : list Z) : TokenKind :=
  match d with
  | 0 => Tok.IntLiteral p | 1 => Tok.FloatLiteral p | 2 => Tok.StringLiteral p | 3 => Tok.ByteStringLiteral p
  | 4 => Tok.BoolLiteral match p with [] => false | _ => true end | 5 => Tok.AddressLiteral p | 6 => Tok.Identifier p
  | 7 => Tok.Contract | 8 => Tok.Interface | 9 => Tok.Library | 10 => Tok.Module_ | 11 => Tok.Import_
  | 12 => Tok.From_ | 13 => Tok.As | 14 => Tok.Pub | 15 => Tok.Extern | 16 => Tok.Bool | 17 => Tok.U8 | 18 => Tok.U16
  | 19 => Tok.U32 | 20 => Tok.U64 | 21 => Tok.U128 | 22 => Tok.U256 | 23 => Tok.I8 | 24 => Tok.I16 | 25 => Tok.I32
  | 26 => Tok.I64 | 27 => Tok.I128 | 28 => Tok.I256 | 29 => Tok.Address | 30 => Tok.Bytes | 31 => Tok.String_
  | 32 => Tok.Mapping | 33 => Tok.Vec_ | 34 => Tok.Option_ | 35 => Tok.Result_ | 36 => Tok.Resource | 37 => Tok.Copy
  | 38 => Tok.Drop | 39 => Tok.Store | 40 => Tok.Key | 41 => Tok.Move_ | 42 => Tok.Fn | 43 => Tok.Pure
  | 44 => Tok.View | 45 => Tok.Payable | 46 => Tok.Parallel | 47 => Tok.Constructor | 48 => Tok.Fallback
  | 49 => Tok.Receive | 50 => Tok.Returns | 51 => Tok.Modifier | 52 => Tok.Event | 53 => Tok.Error | 54 => Tok.Emit
  | 55 => Tok.Revert | 56 => Tok.If | 57 => Tok.Else | 58 => Tok.Match | 59 => Tok.For | 60 => Tok.While
  | 61 => Tok.Loop | 62 => Tok.Break | 63 => Tok.Continue | 64 => Tok.Return | 65 => Tok.In | 66 => Tok.Let
  | 67 => Tok.Mut | 68 => Tok.Const | 69 => Tok.Static | 70 => Tok.Storage | 71 => Tok.Memory | 72 => Tok.Calldata
  | 73 => Tok.Spec | 74 => Tok.Invariant | 75 => Tok.Requires | 76 => Tok.Ensures | 77 => Tok.Assert
  | 78 => Tok.Assume | 79 => Tok.Forall | 80 => Tok.Exists | 81 => Tok.Self_ | 82 => Tok.Super | 83 => Tok.Impl
  | 84 => Tok.Trait | 85 => Tok.Where | 86 => Tok.Type_ | 87 => Tok.Struct | 88 => Tok.Enum | 89 => Tok.Plus
  | 90 => Tok.Minus | 91 => Tok.Star | 92 => Tok.Slash | 93 => Tok.Percent | 94 => Tok.StarStar | 95 => Tok.EqEq
  | 96 => Tok.NotEq | 97 => Tok.Lt | 98 => Tok.Gt | 99 => Tok.LtEq | 100 => Tok.GtEq | 101 => Tok.And | 102 => Tok.Or
  | 103 => Tok.Not | 104 => Tok.Ampersand | 105 => Tok.Pipe | 106 => Tok.Caret | 107 => Tok.Tilde | 108 => Tok.Shl
  | 109 => Tok.Shr | 110 => Tok.Eq | 111 => Tok.PlusEq | 112 => Tok.MinusEq | 113 => Tok.StarEq | 114 => Tok.SlashEq
  | 115 => Tok.PercentEq | 116 => Tok.AmpersandEq | 117 => Tok.PipeEq | 118 => Tok.CaretEq | 119 => Tok.ShlEq
  | 120 => Tok.ShrEq | 121 => Tok.Arrow | 122 => Tok.FatArrow | 123 => Tok.Question | 124 => Tok.Colon
  | 125 => Tok.ColonColon | 126 => Tok.Dot | 127 => Tok.DotDot | 128 => Tok.DotDotEq | 129 => Tok.At
  | 130 => Tok.Hash | 131 => Tok.Dollar | 132 => Tok.LParen | 133 => Tok.RParen | 134 => Tok.LBracket
  | 135 => Tok.RBracket | 136 => Tok.LBrace | 137 => Tok.RBrace | 138 => Tok.Comma | 139 => Tok.Semi
  | 140 => Tok.Underscore | 141 => Tok.Eof | 142 => Tok.Newline | 143 => Tok.DocComment p | _ => Tok.Comment
  end.

Lemma token_of_code k : token_of (discriminant k) (payload k) = k.
Proof. destruct k; try reflexivity. by match goal with b : bool |- _ => destruct b end. Qed.

#[export] Instance TokenKind_eq_dec : EqDecision TokenKind.
Proof.
  intros k k'. destruct (decide (discriminant k = discriminant k' /\ payload k = payload k')) as [[Hd Hp]|Hn]; [left|right].
  - rewrite <-(token_of_code k), <-(token_of_code k'). by rewrite Hd, Hp.
  - intros ->. by apply Hn.
Defined.

Record Token := mkToken { tk_kind : TokenKind; tk_span : Span }.

(** ** Keywords *)

Definition keywords : list (string * TokenKind) :=
  [("contract", Tok.Contract); ("interface", Tok.Interface); ("library", Tok.Library); ("module", Tok.Module_);
   ("import", Tok.Import_); ("from", Tok.From_); ("as", Tok.As); ("pub", Tok.Pub); ("extern", Tok.Extern);
   ("bool", Tok.Bool); ("u8", Tok.U8); ("u16", Tok.U16); ("u32", Tok.U32); ("u64", Tok.U64); ("u128", Tok.U128);
   ("u256", Tok.U256); ("i8", Tok.I8); ("i16", Tok.I16); ("i32", Tok.I32); ("i64", Tok.I64); ("i128", Tok.I128);
   ("i256", Tok.I256); ("address", Tok.Address); ("bytes", Tok.Bytes); ("string", Tok.String_);
   ("mapping", Tok.Mapping); ("Vec", Tok.Vec_); ("Option", Tok.Option_); ("Result", Tok.Result_);
   ("resource", Tok.Resource); ("copy", Tok.Copy); ("drop", Tok.Drop); ("store", Tok.Store); ("key", Tok.Key);
   ("move", Tok.Move_); ("fn", Tok.Fn); ("pure", Tok.Pure); ("view", Tok.View); ("payable", Tok.Payable);
   ("parallel", Tok.Parallel); ("constructor", Tok.Constructor); ("fallback", Tok.Fallback); ("receive", Tok.Receive);
   ("returns", Tok.Returns); ("modifier", Tok.Modifier); ("event", Tok.Event); ("error", Tok.Error);
   ("emit", Tok.Emit); ("revert", Tok.Revert); ("if", Tok.If); ("else", Tok.Else); ("match", Tok.Match);
   ("for", Tok.For); ("while", Tok.While); ("loop", Tok.Loop); ("break", Tok.Break); ("continue", Tok.Continue);
   ("return", Tok.Return); ("in", Tok.In); ("let", Tok.Let); ("mut", Tok.Mut); ("const", Tok.Const);
   ("static", Tok.Static); ("storage", Tok.Storage); ("memory", Tok.Memory); ("calldata", Tok.Calldata);
   ("spec", Tok.Spec); ("invariant", Tok.Invariant); ("requires", Tok.Requires); ("ensures", Tok.Ensures);
   ("assert", Tok.Assert); ("assume", Tok.Assume); ("forall", Tok.Forall); ("exists", Tok.Exists);
   ("self", Tok.Self_); ("super", Tok.Super); ("impl", Tok.Impl); ("trait", Tok.Trait); ("where", Tok.Where);
   ("type", Tok.Type_); ("struct", Tok.Struct); ("enum", Tok.Enum); ("true", Tok.BoolLiteral true);
   ("false", Tok.BoolLiteral false)].
Definition keyword_from_str (s : chars) : option TokenKind :=
  match List.find (fun e => bool_decide (str (fst e) = s)) keywords with Some (_, k) => Some k | None => None end.

Definition is_keyword (k : TokenKind) : bool :=
  match k with
  | Tok.Contract | Tok.Interface | Tok.Library | Tok.Module_ | Tok.Import_ | Tok.From_ | Tok.As | Tok.Pub
  | Tok.Extern | Tok.Bool | Tok.U8 | Tok.U16 | Tok.U32 | Tok.U64 | Tok.U128 | Tok.U256 | Tok.I8 | Tok.I16 | Tok.I32
  | Tok.I64 | Tok.I128 | Tok.I256 | Tok.Address | Tok.Bytes | Tok.String_ | Tok.Mapping | Tok.Vec_ | Tok.Option_
  | Tok.Result_ | Tok.Resource | Tok.Copy | Tok.Drop | Tok.Store | Tok.Key | Tok.Move_ | Tok.Fn | Tok.Pure | Tok.View
  | Tok.Payable | Tok.Parallel | Tok.Constructor | Tok.Fallback | Tok.Receive | Tok.Returns | Tok.Modifier
  | Tok.Event | Tok.Error | Tok.Emit | Tok.Revert | Tok.If | Tok.Else | Tok.Match | Tok.For | Tok.While | Tok.Loop
  | Tok.Break | Tok.Continue | Tok.Return | Tok.In | Tok.Let | Tok.Mut | Tok.Const | Tok.Static | Tok.Storage
  | Tok.Memory | Tok.Calldata | Tok.Spec | Tok.Invariant | Tok.Requires | Tok.Ensures | Tok.Assert | Tok.Assume
  | Tok.Forall | Tok.Exists | Tok.Self_ | Tok.Super | Tok.Impl | Tok.Trait | Tok.Where | Tok.Type_ | Tok.Struct
  | Tok.Enum => true
  | _ => false
  end.

(** ** Display *)

Definition display (k : TokenKind) : chars :=
  match k with
  | Tok.IntLiteral s | Tok.FloatLiteral s | Tok.AddressLiteral s | Tok.Identifier s => s
  | Tok.StringLiteral s => [34] ++ s ++ [34]
  | Tok.ByteStringLiteral _ => [98; 34] ++ str "..." ++ [34]
  | Tok.BoolLiteral b => if b then str "true" else str "false"
  | Tok.DocComment s => str "/// " ++ s
  | Tok.Contract => str "contract" | Tok.Interface => str "interface" | Tok.Library => str "library"
  | Tok.Module_ => str "module" | Tok.Import_ => str "import" | Tok.From_ => str "from" | Tok.As => str "as"
  | Tok.Pub => str "pub" | Tok.Extern => str "extern" | Tok.Bool => str "bool" | Tok.U8 => str "u8"
  | Tok.U16 => str "u16" | Tok.U32 => str "u32" | Tok.U64 => str "u64" | Tok.U128 => str "u128"
  | Tok.U256 => str "u256" | Tok.I8 => str "i8" | Tok.I16 => str "i16" | Tok.I32 => str "i32" | Tok.I64 => str "i64"
  | Tok.I128 => str "i128" | Tok.I256 => str "i256" | Tok.Address => str "address" | Tok.Bytes => str "bytes"
  | Tok.String_ => str "string" | Tok.Mapping => str "mapping" | Tok.Vec_ => str "Vec" | Tok.Option_ => str "Option"
  | Tok.Result_ => str "Result" | Tok.Resource => str "resource" | Tok.Copy => str "copy" | Tok.Drop => str "drop"
  | Tok.Store => str "store" | Tok.Key => str "key" | Tok.Move_ => str "move" | Tok.Fn => str "fn"
  | Tok.Pure => str "pure" | Tok.View => str "view" | Tok.Payable => str "payable" | Tok.Parallel => str "parallel"
  | Tok.Constructor => str "constructor" | Tok.Fallback => str "fallback" | Tok.Receive => str "receive"
  | Tok.Returns => str "returns" | Tok.Modifier => str "modifier" | Tok.Event => str "event"
  | Tok.Error => str "error" | Tok.Emit => str "emit" | Tok.Revert => str "revert" | Tok.If => str "if"
  | Tok.Else => str "else" | Tok.Match => str "match" | Tok.For => str "for" | Tok.While => str "while"
  | Tok.Loop => str "loop" | Tok.Break => str "break" | Tok.Continue => str "continue" | Tok.Return => str "return"
  | Tok.In => str "in" | Tok.Let => str "let" | Tok.Mut => str "mut" | Tok.Const => str "const"
  | Tok.Static => str "static" | Tok.Storage => str "storage" | Tok.Memory => str "memory"
  | Tok.Calldata => str "calldata" | Tok.Spec => str "spec" | Tok.Invariant => str "invariant"
  | Tok.Requires => str "requires" | Tok.Ensures => str "ensures" | Tok.Assert => str "assert"
  | Tok.Assume => str "assume" | Tok.Forall => str "forall" | Tok.Exists => str "exists" | Tok.Self_ => str "self"
  | Tok.Super => str "super" | Tok.Impl => str "impl" | Tok.Trait => str "trait" | Tok.Where => str "where"
  | Tok.Type_ => str "type" | Tok.Struct => str "struct" | Tok.Enum => str "enum" | Tok.Plus => str "+"
  | Tok.Minus => str "-" | Tok.Star => str "*" | Tok.Slash => str "/" | Tok.Percent => str "%"
  | Tok.StarStar => str "**" | Tok.EqEq => str "==" | Tok.NotEq => str "!=" | Tok.Lt => str "<" | Tok.Gt => str ">"
  | Tok.LtEq => str "<=" | Tok.GtEq => str ">=" | Tok.And => str "&&" | Tok.Or => str "||" | Tok.Not => str "!"
  | Tok.Ampersand => str "&" | Tok.Pipe => str "|" | Tok.Caret => str "^" | Tok.Tilde => str "~"
  | Tok.Shl => str "<<" | Tok.Shr => str ">>" | Tok.Eq => str "=" | Tok.PlusEq => str "+=" | Tok.MinusEq => str "-="
  | Tok.StarEq => str "*=" | Tok.SlashEq => str "/=" | Tok.PercentEq => str "%=" | Tok.AmpersandEq => str "&="
  | Tok.PipeEq => str "|=" | Tok.CaretEq => str "^=" | Tok.ShlEq => str "<<=" | Tok.ShrEq => str ">>="
  | Tok.Arrow => str "->" | Tok.FatArrow => str "=>" | Tok.Question => str "?" | Tok.Colon => str ":"
  | Tok.ColonColon => str "::" | Tok.Dot => str "." | Tok.DotDot => str ".." | Tok.DotDotEq => str "..="
  | Tok.At => str "@" | Tok.Hash => str "#" | Tok.Dollar => str "$" | Tok.LParen => str "(" | Tok.RParen => str ")"
  | Tok.LBracket => str "[" | Tok.RBracket => str "]" | Tok.LBrace => str "{" | Tok.RBrace => str "}"
  | Tok.Comma => str "," | Tok.Semi => str ";" | Tok.Underscore => str "_" | Tok.Eof => str "<EOF>"
  | Tok.Newline => str "<NEWLINE>" | Tok.Comment => str "<COMMENT>"
  end.
