(* ===== verification/QscLexer.v ===== *)
(** * The lexer of QuantumScript
      (src/crates/qfc-qsc/src/lexer/mod.rs)

    The lexer walks over the characters of the source, counts bytes, lines and
    columns, and cuts tokens. A loop of the source runs here with as much fuel as
    characters are left, plus one. [char::is_alphanumeric] asks the Unicode
    tables, which are a parameter; a slice of the source that does not begin and
    end between characters would panic. *)

From stdpp Require Import strings.
From S2P Require Import Prelude QscTokens.

(** ** Characters *)

(** The Unicode tables: [char::is_alphanumeric]. *)
Class UnicodeTables := is_alphanumeric : Z -> bool.

(** ASCII letters are alphanumeric. *)
Class UnicodeOk (U : UnicodeTables) : Prop :=
  ascii_alphanumeric c : (ch "a" <= c <= ch "z" \/ ch "A" <= c <= ch "Z") -> is_alphanumeric c = true.

Definition len_utf8 (c : Z) : Z := if c <? 128 then 1 else if c <? 2048 then 2 else if c <? 65536 then 3 else 4.
Definition is_char (c : Z) : bool := ((0 <=? c) && (c <? 55296)) || ((57344 <=? c) && (c <? 1114112)).
Definition in_chars (a b c : Z) : bool := (a <=? c) && (c <=? b).
Definition is_ascii_digit (c : Z) : bool := in_chars (ch "0") (ch "9") c.
Definition is_ascii_hexdigit (c : Z) : bool := is_ascii_digit c || in_chars (ch "a") (ch "f") c || in_chars (ch "A") (ch "F") c.
(** [to_digit(16)] of a hexadecimal digit. *)
Definition hex_value (c : Z) : Z :=
  if is_ascii_digit c then c - ch "0" else if in_chars (ch "a") (ch "f") c then c - ch "a" + 10 else c - ch "A" + 10.
(** [char::from_u32(x).unwrap_or(REPLACEMENT_CHARACTER)] *)
Definition char_or_replacement (x : Z) : Z := if is_char x then x else 65533.

Definition NEWLINE : Z := 10.
Definition QUOTE : Z := 34.
Definition BACKSLASH : Z := 92.

(** [&source[n..]] and [&source[a..b]]; [None] is the panic of a slice inside a character. *)
Fixpoint str_from (n : Z) (s : chars) : option chars :=
  if n =? 0 then Some s
  else match s with [] => None | c :: s => if n <? len_utf8 c then None else str_from (n - len_utf8 c) s end.
Fixpoint str_take (n : Z) (s : chars) : option chars :=
  if n =? 0 then Some []
  else match s with
       | [] => None
       | c :: s => if n <? len_utf8 c then None else match str_take (n - len_utf8 c) s with Some t => Some (c :: t) | None => None end
       end.
Definition str_slice (a b : Z) (s : chars) : option chars := r ← str_from a s; str_take (b - a) r.
Definition remove_underscores (s : chars) : chars := filter (fun c => c <> ch "_") s.

(** ** The state *)

Inductive LexerError :=
| UnexpectedChar (c line column : Z)
| UnterminatedString (line column : Z)
| UnterminatedBlockComment (line column : Z)
| InvalidEscapeSequence (c line column : Z)
| InvalidNumber (line column : Z)
| InvalidHexDigit (line column : Z)
| InvalidAddressLiteral (line column : Z).

Record Lexer := mkLexer {
  lx_source : chars;
  lx_chars : chars;
  lx_pos : Z;
  lx_line : Z;
  lx_column : Z;
  lx_token_start : Z;
  lx_token_line : Z;
  lx_token_column : Z;
}.

Definition lexer_new (source : chars) : Lexer := mkLexer source source 0 1 1 0 1 1.

Section lexer.
Context `{U : UnicodeTables}.
Abbreviation LX A := (ST Lexer LexerError A).

(** ** Helpers *)

Definition peek : LX (option Z) := gets (fun l => head (lx_chars l)).
Definition peek_nth (n : nat) : LX (option Z) :=
  let! l := gets id in
  let! r := or_panic (str_from (lx_pos l) (lx_source l)) in
  ret (r !! n).

(** The state after a character. *)
Definition step_char (c : Z) (rest : chars) (l : Lexer) : Lexer :=
  mkLexer (lx_source l) rest (lx_pos l + len_utf8 c)
    (if c =? NEWLINE then wrap 32 (lx_line l + 1) else lx_line l)
    (if c =? NEWLINE then 1 else wrap 32 (lx_column l + 1))
    (lx_token_start l) (lx_token_line l) (lx_token_column l).
Definition advance : LX unit :=
  modify (fun l => match lx_chars l with [] => l | c :: rest => step_char c rest l end).
Definition advance_if (expected : Z) : LX bool :=
  let! c := peek in
  if bool_decide (c = Some expected) then advance ;; ret true else ret false.
Definition mark_token_start : LX unit :=
  modify (fun l => mkLexer (lx_source l) (lx_chars l) (lx_pos l) (lx_line l) (lx_column l) (lx_pos l) (lx_line l) (lx_column l)).
Definition make_token (kind : TokenKind) : LX Token :=
  gets (fun l => mkToken kind (mkSpan (lx_token_start l) (lx_pos l) (lx_token_line l) (lx_token_column l))).
Definition token_text : LX chars :=
  let! l := gets id in or_panic (str_slice (lx_token_start l) (lx_pos l) (lx_source l)).
Definition fail_here {A} (e : Z -> Z -> LexerError) : LX A := let! l := gets id in fail (e (lx_line l) (lx_column l)).

(** Fuel for a loop that reads characters. *)
Definition chars_left : LX nat := gets (fun l => S (length (lx_chars l))).

(** [while let Some(c) = self.peek() { if p(c) { advance } else { break } }] *)
Fixpoint eat_while_loop (fuel : nat) (p : Z -> bool) : LX unit :=
  match fuel with
  | O => nofuel
  | S fuel =>
    let! c := peek in
    match c with
    | Some c => if p c then advance ;; eat_while_loop fuel p else ret tt
    | None => ret tt
    end
  end.
Definition eat_while (p : Z -> bool) : LX unit := let! n := chars_left in eat_while_loop n p.

(** ** White space and comments *)

Definition skip_line_comment : LX unit := advance ;; advance ;; eat_while (fun c => negb (c =? NEWLINE)).

Fixpoint block_comment_loop (fuel : nat) (depth start_line start_column : Z) : LX unit :=
  match fuel with
  | O => nofuel
  | S fuel =>
    if depth <=? 0 then ret tt
    else
      let! a := peek in
      let! b := peek_nth 1 in
      match a with
      | None => fail (UnterminatedBlockComment start_line start_column)
      | Some c =>
        if (c =? ch "/") && bool_decide (b = Some (ch "*")) then
          advance ;; advance ;; block_comment_loop fuel (depth + 1) start_line start_column
        else if (c =? ch "*") && bool_decide (b = Some (ch "/")) then
          advance ;; advance ;; block_comment_loop fuel (depth - 1) start_line start_column
        else advance ;; block_comment_loop fuel depth start_line start_column
      end
  end.
Definition skip_block_comment : LX unit :=
  let! l := gets id in
  advance ;; advance ;;
  let! n := chars_left in
  block_comment_loop n 1 (lx_line l) (lx_column l).

Definition is_white (c : Z) : bool := (c =? 32) || (c =? 9) || (c =? 13) || (c =? NEWLINE).

Fixpoint skip_loop (fuel : nat) : LX unit :=
  match fuel with
  | O => nofuel
  | S fuel =>
    let! c := peek in
    match c with
    | Some c =>
      if is_white c then advance ;; skip_loop fuel
      else if c =? ch "/" then
        let! d := peek_nth 1 in
        if bool_decide (d = Some (ch "/")) then skip_line_comment ;; skip_loop fuel
        else if bool_decide (d = Some (ch "*")) then skip_block_comment ;; skip_loop fuel
        else ret tt
      else ret tt
    | None => ret tt
    end
  end.
Definition skip_whitespace_and_comments : LX unit := let! n := chars_left in skip_loop n.

(** ** Identifiers and numbers *)

Definition lex_single (kind : TokenKind) : LX Token := advance ;; make_token kind.

Definition lex_identifier : LX Token :=
  eat_while (fun c => is_alphanumeric c || (c =? ch "_")) ;;
  let! text := token_text in
  make_token (default (Tok.Identifier text) (keyword_from_str text)).

(** The exponent of a float, after [e] or [E] has been seen. *)
Definition lex_exponent : LX unit :=
  advance ;;
  let! s := peek in
  (if bool_decide (s = Some (ch "+")) || bool_decide (s = Some (ch "-")) then advance else ret tt) ;;
  eat_while is_ascii_digit.
Definition at_exponent : LX bool :=
  let! c := peek in ret (bool_decide (c = Some (ch "e")) || bool_decide (c = Some (ch "E"))).
Definition is_digit_or_underscore (c : Z) : bool := is_ascii_digit c || (c =? ch "_").

Definition lex_decimal_number : LX Token :=
  eat_while is_digit_or_underscore ;;
  let! c := peek in
  let! fraction :=
    (if bool_decide (c = Some (ch ".")) then
       let! d := peek_nth 1 in ret (match d with Some d => is_ascii_digit d | None => false end)
     else ret false) in
  if fraction then
    advance ;;
    eat_while is_digit_or_underscore ;;
    let! e := at_exponent in
    (if (e : bool) then lex_exponent else ret tt) ;;
    let! text := token_text in
    make_token (Tok.FloatLiteral (remove_underscores text))
  else
    let! e := at_exponent in
    if (e : bool) then
      lex_exponent ;;
      let! text := token_text in
      make_token (Tok.FloatLiteral (remove_underscores text))
    else
      let! text := token_text in
      make_token (Tok.IntLiteral (remove_underscores text)).

Definition lex_hex_number : LX Token :=
  advance ;; advance ;;
  let! hex_start := gets lx_pos in
  eat_while (fun c => is_ascii_hexdigit c || (c =? ch "_")) ;;
  let! l := gets id in
  let! digits := or_panic (str_slice hex_start (lx_pos l) (lx_source l)) in
  let! text := token_text in
  if Z.of_nat (length (remove_underscores digits)) =? 40 then make_token (Tok.AddressLiteral text)
  else make_token (Tok.IntLiteral text).

Definition lex_binary_number : LX Token :=
  advance ;; advance ;;
  eat_while (fun c => (c =? ch "0") || (c =? ch "1") || (c =? ch "_")) ;;
  let! text := token_text in make_token (Tok.IntLiteral text).
Definition lex_octal_number : LX Token :=
  advance ;; advance ;;
  eat_while (fun c => in_chars (ch "0") (ch "7") c || (c =? ch "_")) ;;
  let! text := token_text in make_token (Tok.IntLiteral text).

Definition lex_number : LX Token :=
  let! c := peek in
  if bool_decide (c = Some (ch "0")) then
    let! d := peek_nth 1 in
    if bool_decide (d = Some (ch "x")) || bool_decide (d = Some (ch "X")) then lex_hex_number
    else if bool_decide (d = Some (ch "b")) || bool_decide (d = Some (ch "B")) then lex_binary_number
    else if bool_decide (d = Some (ch "o")) || bool_decide (d = Some (ch "O")) then lex_octal_number
    else lex_decimal_number
  else lex_decimal_number.

(** ** Strings *)

Fixpoint read_hex_escape (count : nat) (value : Z) : LX Z :=
  match count with
  | O => ret value
  | S count =>
    let! c := peek in
    match c with
    | Some c =>
      if is_ascii_hexdigit c then advance ;; read_hex_escape count (wrap 32 (value * 16 + hex_value c))
      else fail_here InvalidHexDigit
    | None => fail_here InvalidHexDigit
    end
  end.

Fixpoint unicode_escape_loop (fuel : nat) (value count : Z) : LX Z :=
  match fuel with
  | O => nofuel
  | S fuel =>
    let! c := peek in
    match c with
    | Some c =>
      if c =? ch "}" then advance ;; ret value
      else if negb (is_ascii_hexdigit c) then fail_here InvalidHexDigit
      else
        advance ;;
        if 6 <? count + 1 then fail_here InvalidHexDigit
        else unicode_escape_loop fuel (wrap 32 (value * 16 + hex_value c)) (count + 1)
    | None => ret value
    end
  end.
Definition read_unicode_escape : LX Z := let! n := chars_left in unicode_escape_loop n 0 0.

(** The escapes that strings and byte strings share. *)
Definition simple_escape (c : Z) : option Z :=
  if c =? ch "n" then Some 10 else if c =? ch "r" then Some 13 else if c =? ch "t" then Some 9
  else if c =? BACKSLASH then Some BACKSLASH else if c =? QUOTE then Some QUOTE else if c =? ch "0" then Some 0 else None.

(** An escape, after the backslash. *)
Definition string_escape (start_line start_column : Z) : LX Z :=
  let! c := peek in
  match c with
  | None => fail (UnterminatedString start_line start_column)
  | Some c =>
    match simple_escape c with
    | Some v => advance ;; ret v
    | None =>
      if c =? ch "x" then advance ;; let! hex := read_hex_escape 2 0 in ret (char_or_replacement hex)
      else if c =? ch "u" then
        advance ;;
        let! open := advance_if (ch "{") in
        if (open : bool) then let! hex := read_unicode_escape in ret (char_or_replacement hex)
        else fail_here (InvalidEscapeSequence (ch "u"))
      else fail_here (InvalidEscapeSequence c)
    end
  end.

Fixpoint string_loop (fuel : nat) (start_line start_column : Z) (value : chars) : LX chars :=
  match fuel with
  | O => nofuel
  | S fuel =>
    let! c := peek in
    match c with
    | None => fail (UnterminatedString start_line start_column)
    | Some c =>
      if c =? NEWLINE then fail (UnterminatedString start_line start_column)
      else if c =? QUOTE then advance ;; ret value
      else if c =? BACKSLASH then
        advance ;; let! v := string_escape start_line start_column in string_loop fuel start_line start_column (value ++ [v])
      else advance ;; string_loop fuel start_line start_column (value ++ [c])
    end
  end.
Definition lex_string : LX Token :=
  let! l := gets id in
  advance ;;
  let! n := chars_left in
  let! value := string_loop n (lx_line l) (lx_column l) [] in
  make_token (Tok.StringLiteral value).

Definition byte_escape (start_line start_column : Z) : LX Z :=
  let! c := peek in
  match c with
  | None => fail (UnterminatedString start_line start_column)
  | Some c =>
    match simple_escape c with
    | Some v => advance ;; ret v
    | None =>
      if c =? ch "x" then advance ;; let! hex := read_hex_escape 2 0 in ret (wrap 8 hex)
      else fail_here (InvalidEscapeSequence c)
    end
  end.

Fixpoint byte_string_loop (fuel : nat) (start_line start_column : Z) (value : bytes) : LX bytes :=
  match fuel with
  | O => nofuel
  | S fuel =>
    let! c := peek in
    match c with
    | None => fail (UnterminatedString start_line start_column)
    | Some c =>
      if c =? NEWLINE then fail (UnterminatedString start_line start_column)
      else if c =? QUOTE then advance ;; ret value
      else if c =? BACKSLASH then
        advance ;; let! v := byte_escape start_line start_column in byte_string_loop fuel start_line start_column (value ++ [v])
      else if c <? 128 then advance ;; byte_string_loop fuel start_line start_column (value ++ [c])
      else fail_here (UnexpectedChar c)
    end
  end.
Definition lex_byte_string : LX Token :=
  let! l := gets id in
  advance ;; advance ;;
  let! n := chars_left in
  let! value := byte_string_loop n (lx_line l) (lx_column l) [] in
  make_token (Tok.ByteStringLiteral value).

(** ** Operators *)

(** [if self.advance_if(expected) { Ok(make_token(kind)) } else { .. }] *)
Definition alt (expected : Z) (yes other : LX Token) : LX Token :=
  let! b := advance_if expected in if (b : bool) then yes else other.

Definition lex_plus : LX Token := advance ;; alt (ch "=") (make_token Tok.PlusEq) (make_token Tok.Plus).
Definition lex_minus : LX Token :=
  advance ;; alt (ch ">") (make_token Tok.Arrow) (alt (ch "=") (make_token Tok.MinusEq) (make_token Tok.Minus)).
Definition lex_star : LX Token :=
  advance ;; alt (ch "*") (make_token Tok.StarStar) (alt (ch "=") (make_token Tok.StarEq) (make_token Tok.Star)).
Definition lex_slash : LX Token := advance ;; alt (ch "=") (make_token Tok.SlashEq) (make_token Tok.Slash).
Definition lex_percent : LX Token := advance ;; alt (ch "=") (make_token Tok.PercentEq) (make_token Tok.Percent).
Definition lex_eq : LX Token :=
  advance ;; alt (ch "=") (make_token Tok.EqEq) (alt (ch ">") (make_token Tok.FatArrow) (make_token Tok.Eq)).
Definition lex_bang : LX Token := advance ;; alt (ch "=") (make_token Tok.NotEq) (make_token Tok.Not).
Definition lex_lt : LX Token :=
  advance ;;
  alt (ch "<") (alt (ch "=") (make_token Tok.ShlEq) (make_token Tok.Shl))
    (alt (ch "=") (make_token Tok.LtEq) (make_token Tok.Lt)).
Definition lex_gt : LX Token :=
  advance ;;
  alt (ch ">") (alt (ch "=") (make_token Tok.ShrEq) (make_token Tok.Shr))
    (alt (ch "=") (make_token Tok.GtEq) (make_token Tok.Gt)).
Definition lex_ampersand : LX Token :=
  advance ;; alt (ch "&") (make_token Tok.And) (alt (ch "=") (make_token Tok.AmpersandEq) (make_token Tok.Ampersand)).
Definition lex_pipe : LX Token :=
  advance ;; alt (ch "|") (make_token Tok.Or) (alt (ch "=") (make_token Tok.PipeEq) (make_token Tok.Pipe)).
Definition lex_caret : LX Token := advance ;; alt (ch "=") (make_token Tok.CaretEq) (make_token Tok.Caret).
Definition lex_colon : LX Token := advance ;; alt (ch ":") (make_token Tok.ColonColon) (make_token Tok.Colon).
Definition lex_dot : LX Token :=
  advance ;; alt (ch ".") (alt (ch "=") (make_token Tok.DotDotEq) (make_token Tok.DotDot)) (make_token Tok.Dot).

(** The characters that begin an operator or are a token of their own. *)
Definition operators : list (Z * LX Token) :=
  [(ch "+", lex_plus); (ch "-", lex_minus); (ch "*", lex_star); (ch "/", lex_slash); (ch "%", lex_percent);
   (ch "=", lex_eq); (ch "!", lex_bang); (ch "<", lex_lt); (ch ">", lex_gt); (ch "&", lex_ampersand);
   (ch "|", lex_pipe); (ch "^", lex_caret); (ch "~", lex_single Tok.Tilde); (ch "?", lex_single Tok.Question);
   (ch ":", lex_colon); (ch ".", lex_dot); (ch "@", lex_single Tok.At); (ch "#", lex_single Tok.Hash);
   (ch "$", lex_single Tok.Dollar); (ch "(", lex_single Tok.LParen); (ch ")", lex_single Tok.RParen);
   (ch "[", lex_single Tok.LBracket); (ch "]", lex_single Tok.RBracket); (ch "{", lex_single Tok.LBrace);
   (ch "}", lex_single Tok.RBrace); (ch ",", lex_single Tok.Comma); (ch ";", lex_single Tok.Semi)].
Definition operator (c : Z) : option (LX Token) :=
  match List.find (fun e => fst e =? c) operators with Some (_, m) => Some m | None => None end.

Definition is_ident_start (c : Z) : bool := in_chars (ch "a") (ch "z") c || in_chars (ch "A") (ch "Z") c || (c =? ch "_").

(** ** The lexer *)

Definition next_token : LX Token :=
  skip_whitespace_and_comments ;;
  mark_token_start ;;
  let! c := peek in
  match c with
  | None => make_token Tok.Eof
  | Some c =>
    let! byte_string := (if c =? ch "b" then let! d := peek_nth 1 in ret (bool_decide (d = Some QUOTE)) else ret false) in
    if (byte_string : bool) then lex_byte_string
    else if is_ident_start c then lex_identifier
    else if is_ascii_digit c then lex_number
    else if c =? QUOTE then lex_string
    else match operator c with Some lex => lex | None => fail_here (UnexpectedChar c) end
  end.

(** A run has at most one token more than characters. *)
Fixpoint tokenize_loop (fuel : nat) (tokens : list Token) : LX (list Token) :=
  match fuel with
  | O => nofuel
  | S fuel =>
    let! token := next_token in
    if bool_decide (tk_kind token = Tok.Eof) then ret (tokens ++ [token]) else tokenize_loop fuel (tokens ++ [token])
  end.
Definition tokenize (source : chars) : Result LexerError (list Token) :=
  fst (tokenize_loop (S (length source)) [] (lexer_new source)).
End lexer.
