(* ===== verification/QscAst.v ===== *)
(** * The syntax tree of QuantumScript
      (src/crates/qfc-qsc/src/ast/mod.rs)

    A statement can hold an item, so the whole tree is one mutual definition.
    A struct of the source is a type with one constructor. *)

From S2P Require Import Prelude QscTokens.

Record Ident := mkIdent { id_name : chars; id_span : Span }.
Inductive Visibility := VisPrivate | VisPublic.

Inductive PrimitiveType :=
| PtBool | PtU8 | PtU16 | PtU32 | PtU64 | PtU128 | PtU256 | PtI8 | PtI16 | PtI32 | PtI64 | PtI128 | PtI256
| PtAddress | PtBytes | PtString.
Inductive ResourceAbility := AbCopy | AbDrop | AbStore | AbKey.

Inductive BinaryOp :=
| OpAdd | OpSub | OpMul | OpDiv | OpRem | OpPow
| OpEq | OpNe | OpLt | OpLe | OpGt | OpGe
| OpAnd | OpOr
| OpBitAnd | OpBitOr | OpBitXor | OpShl | OpShr
| OpAssign | OpAddAssign | OpSubAssign | OpMulAssign | OpDivAssign | OpRemAssign
| OpBitAndAssign | OpBitOrAssign | OpBitXorAssign | OpShlAssign | OpShrAssign.
Inductive UnaryOp := OpNeg | OpNot | OpBitNot.

Inductive Literal :=
| LitInt (s : chars) (ty : option PrimitiveType)
| LitFloat (s : chars)
| LitString (s : chars)
| LitByteString (b : bytes)
| LitBool (b : bool)
| LitAddress (s : chars).

Record ImportPath := mkImportPath { ip_segments : list Ident; ip_span : Span }.
Record ImportItem := mkImportItem { im_id : Z; im_span : Span; im_path : ImportPath; im_alias : option Ident }.
Record ExprPath := mkExprPath { ep_segments : list Ident; ep_span : Span }.

#[local] Unset Elimination Schemes.
Inductive Item :=
| ItImport (i : ImportItem)
| ItContract (c : ContractDef)
| ItInterface (i : InterfaceDef)
| ItLibrary (l : LibraryDef)
| ItStruct (s : StructDef)
| ItEnum (e : EnumDef)
| ItTypeAlias (t : TypeAlias)
| ItConst (c : ConstItem)
| ItFunction (f : FunctionDef)
with ContractDef :=
| mkContractDef (id : Z) (span : Span) (name : Ident) (generics : option Generics) (inherits : list TypePath) (items : list ContractItem)
with ContractItem :=
| CiStorage (s : StorageBlock)
| CiEvent (e : EventDef)
| CiError (e : ErrorDef)
| CiModifier (m : ModifierDef)
| CiFunction (f : FunctionDef)
| CiConstructor (c : ConstructorDef)
| CiFallback (f : FallbackDef)
| CiReceive (r : ReceiveDef)
| CiConst (c : ConstItem)
| CiStruct (s : StructDef)
| CiEnum (e : EnumDef)
with InterfaceDef :=
| mkInterfaceDef (id : Z) (span : Span) (name : Ident) (generics : option Generics) (extends : list TypePath) (items : list InterfaceItem)
with InterfaceItem :=
| IiFunction (f : FunctionSig)
| IiEvent (e : EventDef)
| IiError (e : ErrorDef)
with LibraryDef :=
| mkLibraryDef (id : Z) (span : Span) (name : Ident) (items : list LibraryItem)
with LibraryItem :=
| LiFunction (f : FunctionDef)
| LiStruct (s : StructDef)
| LiConst (c : ConstItem)
with StorageBlock :=
| mkStorageBlock (id : Z) (span : Span) (fields : list StorageField)
with StorageField :=
| mkStorageField (id : Z) (span : Span) (visibility : Visibility) (name : Ident) (ty : Ty) (default : option Expr)
with EventDef :=
| mkEventDef (id : Z) (span : Span) (name : Ident) (fields : list EventField)
with EventField :=
| mkEventField (id : Z) (span : Span) (indexed : bool) (name : Ident) (ty : Ty)
with ErrorDef :=
| mkErrorDef (id : Z) (span : Span) (name : Ident) (fields : list ErrorField)
with ErrorField :=
| mkErrorField (id : Z) (span : Span) (name : Ident) (ty : Ty)
with FunctionDef :=
| mkFunctionDef (id : Z) (span : Span) (sig : FunctionSig) (body : Block) (specs : list SpecBlock)
with FunctionSig :=
| mkFunctionSig (id : Z) (span : Span) (visibility : Visibility) (modifiers : FunctionModifiers) (name : Ident)
    (generics : option Generics) (params : list Param) (return_type : option Ty)
with FunctionModifiers :=
| mkFunctionModifiers (is_pure is_view is_payable is_parallel : bool) (custom_modifiers : list ModifierCall)
with ModifierCall :=
| mkModifierCall (name : Ident) (args : list Expr) (span : Span)
with Param :=
| mkParam (id : Z) (span : Span) (pattern : Pattern) (ty : Ty)
with ConstructorDef :=
| mkConstructorDef (id : Z) (span : Span) (visibility : Visibility) (modifiers : FunctionModifiers) (params : list Param) (body : Block)
with FallbackDef :=
| mkFallbackDef (id : Z) (span : Span) (body : Block)
with ReceiveDef :=
| mkReceiveDef (id : Z) (span : Span) (body : Block)
with ModifierDef :=
| mkModifierDef (id : Z) (span : Span) (name : Ident) (params : list Param) (body : Block)
with Ty :=
| mkTy (id : Z) (span : Span) (kind : TypeKind)
with TypeKind :=
| TyPrimitive (p : PrimitiveType)
| TyPath (p : TypePath)
| TyArray (elem : Ty) (size : Expr)
| TySlice (elem : Ty)
| TyTuple (types : list Ty)
| TyMapping (key value : Ty)
| TyOption (inner : Ty)
| TyResult (ok err : Ty)
| TyReference (inner : Ty) (is_mut : bool)
| TyResource (inner : Ty) (abilities : list ResourceAbility)
| TyFunction (params : list Ty) (return_type : option Ty)
| TyInfer
| TyNever
| TySelfType
with TypePath :=
| mkTypePath (segments : list PathSegment) (span : Span)
with PathSegment :=
| mkPathSegment (ident : Ident) (generics : option (list Ty)) (span : Span)
with StructDef :=
| mkStructDef (id : Z) (span : Span) (visibility : Visibility) (name : Ident) (generics : option Generics)
    (abilities : list ResourceAbility) (fields : list StructField)
with StructField :=
| mkStructField (id : Z) (span : Span) (visibility : Visibility) (name : Ident) (ty : Ty)
with EnumDef :=
| mkEnumDef (id : Z) (span : Span) (visibility : Visibility) (name : Ident) (generics : option Generics) (variants : list EnumVariant)
with EnumVariant :=
| mkEnumVariant (id : Z) (span : Span) (name : Ident) (fields : VariantFields)
with VariantFields :=
| VfUnit
| VfTuple (types : list Ty)
| VfStruct (fields : list StructField)
with TypeAlias :=
| mkTypeAlias (id : Z) (span : Span) (visibility : Visibility) (name : Ident) (generics : option Generics) (ty : Ty)
with ConstItem :=
| mkConstItem (id : Z) (span : Span) (visibility : Visibility) (name : Ident) (ty : Ty) (value : Expr)
with Generics :=
| mkGenerics (params : list GenericParam) (where_clause : option WhereClause) (span : Span)
with GenericParam :=
| GpType (t : TypeParam)
| GpConst (c : ConstParam)
with TypeParam :=
| mkTypeParam (id : Z) (span : Span) (name : Ident) (bounds : list TypeBound) (default : option Ty)
with ConstParam :=
| mkConstParam (id : Z) (span : Span) (name : Ident) (ty : Ty) (default : option Expr)
with TypeBound :=
| mkTypeBound (path : TypePath) (span : Span)
with WhereClause :=
| mkWhereClause (predicates : list WherePredicate) (span : Span)
with WherePredicate :=
| mkWherePredicate (ty : Ty) (bounds : list TypeBound) (span : Span)
with Stmt :=
| mkStmt (id : Z) (span : Span) (kind : StmtKind)
with StmtKind :=
| StLocal (l : LocalStmt)
| StExpr (e : Expr)
| StSemi (e : Expr)
| StItem (i : Item)
| StEmpty
with LocalStmt :=
| mkLocalStmt (id : Z) (span : Span) (pattern : Pattern) (ty : option Ty) (init : option Expr) (is_mutable : bool)
with Block :=
| mkBlock (id : Z) (span : Span) (stmts : list Stmt)
with Expr :=
| mkExpr (id : Z) (span : Span) (kind : ExprKind)
with ExprKind :=
| ExLiteral (l : Literal)
| ExPath (p : ExprPath)
| ExBinary (op : BinaryOp) (a b : Expr)
| ExUnary (op : UnaryOp) (e : Expr)
| ExCall (f : Expr) (args : list Expr)
| ExMethodCall (e : Expr) (method : Ident) (args : list Expr)
| ExField (e : Expr) (field : Ident)
| ExIndex (e i : Expr)
| ExCast (e : Expr) (ty : Ty)
| ExReference (e : Expr) (is_mut : bool)
| ExDeref (e : Expr)
| ExBlock (b : Block)
| ExIf (cond : Expr) (then_block : Block) (else_branch : option Expr)
| ExMatch (e : Expr) (arms : list MatchArm)
| ExFor (p : Pattern) (iter : Expr) (body : Block)
| ExWhile (cond : Expr) (body : Block)
| ExLoop (body : Block)
| ExBreak (value : option Expr)
| ExContinue
| ExReturn (value : option Expr)
| ExTuple (elements : list Expr)
| ExArray (elements : list Expr)
| ExArrayRepeat (e count : Expr)
| ExStruct (path : TypePath) (fields : list FieldInit)
| ExRange (from to : option Expr) (inclusive : bool)
| ExClosure (params : list ClosureParam) (body : Expr)
| ExMove (e : Expr)
| ExEmit (path : TypePath) (fields : list FieldInit)
| ExRevert (path : TypePath) (fields : list FieldInit)
| ExAssert (cond : Expr) (msg : option Expr)
| ExTry (e : Expr)
| ExParen (e : Expr)
| ExAwait (e : Expr)
with FieldInit :=
| mkFieldInit (name : Ident) (value : option Expr) (span : Span)
with MatchArm :=
| mkMatchArm (pattern : Pattern) (guard : option Expr) (body : Expr) (span : Span)
with ClosureParam :=
| mkClosureParam (pattern : Pattern) (ty : option Ty) (span : Span)
with Pattern :=
| mkPattern (id : Z) (span : Span) (kind : PatternKind)
with PatternKind :=
| PaWildcard
| PaIdent (i : Ident) (is_mut : bool)
| PaLiteral (l : Literal)
| PaTuple (patterns : list Pattern)
| PaStruct (path : TypePath) (fields : list FieldPattern)
| PaTupleStruct (path : TypePath) (patterns : list Pattern)
| PaOr (patterns : list Pattern)
| PaRef (p : Pattern) (is_mut : bool)
| PaRange (a b : Pattern) (inclusive : bool)
| PaRest
| PaPath (p : TypePath)
with FieldPattern :=
| mkFieldPattern (name : Ident) (pattern : option Pattern) (span : Span)
with SpecBlock :=
| mkSpecBlock (id : Z) (span : Span) (items : list SpecItem)
with SpecItem :=
| SiRequires (e : Expr)
| SiEnsures (e : Expr)
| SiInvariant (e : Expr)
| SiAssume (e : Expr)
| SiAssert (e : Expr).

Record SourceFile := mkSourceFile { sf_id : Z; sf_span : Span; sf_items : list Item }.

Definition expr_span (e : Expr) : Span := let '(mkExpr _ span _) := e in span.
Definition block_span (b : Block) : Span := let '(mkBlock _ span _) := b in span.
Definition type_path_span (p : TypePath) : Span := let '(mkTypePath _ span) := p in span.
