(* ===== verification/QscParser.v ===== *)
(** * The parser of QuantumScript
      (src/crates/qfc-qsc/src/parser/mod.rs)

    A recursive descent over the tokens, with a precedence climbing for binary
    operators. The nonterminals that call themselves are tied through the record
    [Rec]: a call through it costs one unit of fuel, and the source makes such a
    call only after it has consumed a token. A loop of the source runs with as
    much fuel as tokens are left. *)

From stdpp Require Import strings.
From S2P Require Import Prelude QscTokens QscAst.

Inductive ParseError :=
| UnexpectedToken (expected found : chars) (line column : Z)
| UnexpectedEof
| InvalidExpression (line column : Z)
| InvalidPattern (line column : Z)
| InvalidType (line column : Z)
| ExpectedIdentifier (line column : Z)
| DuplicateModifier (name : chars) (line column : Z).

Record Parser := mkParser { ps_tokens : list Token; ps_pos : nat; ps_next_node_id : Z }.
Definition parser_new (tokens : list Token) : Parser := mkParser tokens 0 0.

Abbreviation PR A := (ST Parser ParseError A).

(** ** Helpers *)

Definition next_id : PR Z :=
  let! id := gets ps_next_node_id in
  modify (fun p => mkParser (ps_tokens p) (ps_pos p) (wrap 32 (ps_next_node_id p + 1))) ;;
  ret id.
(** The token at the position, or the last one; without tokens it panics. *)
Definition current : PR Token :=
  let! p := gets id in
  or_panic (match ps_tokens p !! ps_pos p with Some t => Some t | None => last (ps_tokens p) end).
Definition current_kind : PR TokenKind := let! t := current in ret (tk_kind t).
Definition current_span : PR Span := let! t := current in ret (tk_span t).
Definition is_eof : PR bool := let! k := current_kind in ret (bool_decide (k = Tok.Eof)).
Definition advance_token : PR Token :=
  let! t := current in
  modify (fun p => if (ps_pos p <? length (ps_tokens p) - 1)%nat then mkParser (ps_tokens p) (S (ps_pos p)) (ps_next_node_id p) else p) ;;
  ret t.
Definition check (kind : TokenKind) : PR bool := let! k := current_kind in ret (discriminant k =? discriminant kind).
Definition check_keyword (kind : TokenKind) : PR bool := let! k := current_kind in ret (bool_decide (k = kind)).
Definition eat (kind : TokenKind) : PR bool :=
  let! b := check kind in if (b : bool) then advance_token ;; ret true else ret false.
Definition fail_at {A} (e : Z -> Z -> ParseError) : PR A := let! s := current_span in fail (e (sp_line s) (sp_column s)).
Definition unexpected {A} (expected : chars) : PR A :=
  let! s := current_span in
  let! k := current_kind in
  fail (UnexpectedToken expected (display k) (sp_line s) (sp_column s)).
Definition expect (kind : TokenKind) : PR Token :=
  let! b := check kind in if (b : bool) then advance_token else unexpected (display kind).
Definition expect_identifier : PR Ident :=
  let! k := current_kind in
  match k with
  | Tok.Identifier name => let! s := current_span in advance_token ;; ret (mkIdent name s)
  | _ => fail_at ExpectedIdentifier
  end.

(** [start.merge(self.current_span())] *)
Definition span_from (start : Span) : PR Span := let! s := current_span in ret (span_merge start s).

(** Fuel for a loop that consumes tokens. *)
Definition tokens_left : PR nat := gets (fun p => S (length (ps_tokens p) - ps_pos p)).

(** [while self.eat(sep) { v.push(item()?) }] *)
Fixpoint eat_loop {A} (fuel : nat) (sep : TokenKind) (item : PR A) (acc : list A) : PR (list A) :=
  match fuel with
  | O => nofuel
  | S fuel =>
    let! b := eat sep in
    if (b : bool) then let! x := item in eat_loop fuel sep item (acc ++ [x]) else ret acc
  end.
Definition many_eat {A} (sep : TokenKind) (item : PR A) (acc : list A) : PR (list A) :=
  let! n := tokens_left in eat_loop n sep item acc.

(** [while self.eat(sep) { if self.check(close) { break } v.push(item()?) }] *)
Fixpoint trailing_loop {A} (fuel : nat) (sep close : TokenKind) (item : PR A) (acc : list A) : PR (list A) :=
  match fuel with
  | O => nofuel
  | S fuel =>
    let! b := eat sep in
    if (b : bool) then
      let! c := check close in
      if (c : bool) then ret acc else let! x := item in trailing_loop fuel sep close item (acc ++ [x])
    else ret acc
  end.
Definition many_trailing {A} (sep close : TokenKind) (item : PR A) (acc : list A) : PR (list A) :=
  let! n := tokens_left in trailing_loop n sep close item acc.

(** [if !self.check(close) { v.push(item()?); while self.eat(sep) { .. } }] *)
Definition list_trailing {A} (sep close : TokenKind) (item : PR A) : PR (list A) :=
  let! c := check close in
  if (c : bool) then ret [] else let! x := item in many_trailing sep close item [x].

(** [while !self.check(RBrace) && !self.is_eof() { v.push(item()?) }] *)
Fixpoint until_brace_loop {A} (fuel : nat) (item : PR A) (acc : list A) : PR (list A) :=
  match fuel with
  | O => nofuel
  | S fuel =>
    let! c := check Tok.RBrace in
    if (c : bool) then ret acc
    else
      let! e := is_eof in
      if (e : bool) then ret acc else let! x := item in until_brace_loop fuel item (acc ++ [x])
  end.
Definition until_brace {A} (item : PR A) : PR (list A) := let! n := tokens_left in until_brace_loop n item [].

(** [if self.eat(kind) { Some(item()?) } else { None }] *)
Definition eat_opt {A} (kind : TokenKind) (item : PR A) : PR (option A) :=
  let! b := eat kind in if (b : bool) then let! x := item in ret (Some x) else ret None.

Definition parse_visibility : PR Visibility := let! b := eat Tok.Pub in ret (if (b : bool) then VisPublic else VisPrivate).

(** ** The recursive nonterminals *)

Record Rec := mkRec {
  r_type : PR Ty;
  r_pattern : PR Pattern;
  r_expr : Z -> PR Expr;
  r_unary : PR Expr;
  r_if : PR Expr;
}.
Definition no_rec : Rec := mkRec nofuel nofuel (fun _ => nofuel) nofuel nofuel.

Section parsers.
Context (R : Rec).

(** ** Types *)

Definition parse_path_segment : PR PathSegment :=
  let! start := current_span in
  let! ident := expect_identifier in
  let! lt := eat Tok.Lt in
  let! generics :=
    (if (lt : bool) then
       let! t := r_type R in
       let! types := many_eat Tok.Comma (r_type R) [t] in
       expect Tok.Gt ;;
       ret (Some types)
     else ret None) in
  let! span := span_from start in
  ret (mkPathSegment ident generics span).
Definition parse_type_path : PR TypePath :=
  let! start := current_span in
  let! first := parse_path_segment in
  let! segments := many_eat Tok.ColonColon parse_path_segment [first] in
  let! span := span_from start in
  ret (mkTypePath segments span).

Definition primitive_of (k : TokenKind) : option PrimitiveType :=
  match k with
  | Tok.Bool => Some PtBool | Tok.U8 => Some PtU8 | Tok.U16 => Some PtU16 | Tok.U32 => Some PtU32 | Tok.U64 => Some PtU64
  | Tok.U128 => Some PtU128 | Tok.U256 => Some PtU256 | Tok.I8 => Some PtI8 | Tok.I16 => Some PtI16 | Tok.I32 => Some PtI32
  | Tok.I64 => Some PtI64 | Tok.I128 => Some PtI128 | Tok.I256 => Some PtI256 | Tok.Address => Some PtAddress
  | Tok.Bytes => Some PtBytes | Tok.String_ => Some PtString
  | _ => None
  end.

(** The kinds of types that begin with a token of their own, after that token. *)
Definition parse_mapping_type : PR TypeKind :=
  advance_token ;; expect Tok.LParen ;;
  let! key := r_type R in
  expect Tok.FatArrow ;;
  let! value := r_type R in
  expect Tok.RParen ;;
  ret (TyMapping key value).
Definition parse_angle_type (mk : Ty -> TypeKind) : PR TypeKind :=
  advance_token ;; expect Tok.Lt ;;
  let! inner := r_type R in
  expect Tok.Gt ;;
  ret (mk inner).
Definition parse_result_type : PR TypeKind :=
  advance_token ;; expect Tok.Lt ;;
  let! ok := r_type R in
  expect Tok.Comma ;;
  let! err := r_type R in
  expect Tok.Gt ;;
  ret (TyResult ok err).
Definition parse_reference_type : PR TypeKind :=
  advance_token ;;
  let! is_mut := eat Tok.Mut in
  let! inner := r_type R in
  ret (TyReference inner is_mut).
Definition parse_array_type : PR TypeKind :=
  advance_token ;;
  let! elem := r_type R in
  let! semi := eat Tok.Semi in
  if (semi : bool) then
    let! size := r_expr R 0 in
    expect Tok.RBracket ;;
    ret (TyArray elem size)
  else expect Tok.RBracket ;; ret (TySlice elem).
Definition parse_tuple_type : PR TypeKind :=
  advance_token ;;
  let! types := list_trailing Tok.Comma Tok.RParen (r_type R) in
  expect Tok.RParen ;;
  ret (TyTuple types).
Definition parse_function_type : PR TypeKind :=
  advance_token ;; expect Tok.LParen ;;
  let! c := check Tok.RParen in
  let! params := (if (c : bool) then ret [] else let! t := r_type R in many_eat Tok.Comma (r_type R) [t]) in
  expect Tok.RParen ;;
  let! return_type := eat_opt Tok.Arrow (r_type R) in
  ret (TyFunction params return_type).

Definition parse_type_kind (k : TokenKind) : PR TypeKind :=
  match primitive_of k with
  | Some p => advance_token ;; ret (TyPrimitive p)
  | None =>
    match k with
    | Tok.Mapping => parse_mapping_type
    | Tok.Option_ => parse_angle_type TyOption
    | Tok.Result_ => parse_result_type
    | Tok.Vec_ => parse_angle_type TySlice
    | Tok.Ampersand => parse_reference_type
    | Tok.LBracket => parse_array_type
    | Tok.LParen => parse_tuple_type
    | Tok.Self_ => advance_token ;; ret TySelfType
    | Tok.Fn => parse_function_type
    | Tok.Identifier _ => let! path := parse_type_path in ret (TyPath path)
    | _ => fail_at InvalidType
    end
  end.
Definition parse_type : PR Ty :=
  let! start := current_span in
  let! k := current_kind in
  let! kind := parse_type_kind k in
  let! id := next_id in
  let! span := span_from start in
  ret (mkTy id span kind).

(** ** Patterns *)

Fixpoint field_patterns_loop (fuel : nat) (acc : list FieldPattern) : PR (list FieldPattern) :=
  match fuel with
  | O => nofuel
  | S fuel =>
    let! c := check Tok.RBrace in
    if (c : bool) then ret acc
    else
      let! e := is_eof in
      if (e : bool) then ret acc
      else
        let! start := current_span in
        let! rest := eat Tok.DotDot in
        if (rest : bool) then ret acc
        else
          let! name := expect_identifier in
          let! pattern := eat_opt Tok.Colon (r_pattern R) in
          let! span := span_from start in
          let! comma := eat Tok.Comma in
          if (comma : bool) then field_patterns_loop fuel (acc ++ [mkFieldPattern name pattern span])
          else ret (acc ++ [mkFieldPattern name pattern span])
  end.
Definition parse_field_patterns : PR (list FieldPattern) := let! n := tokens_left in field_patterns_loop n [].

(** A pattern that begins with a name. *)
Definition parse_name_pattern (name : chars) (start : Span) : PR PatternKind :=
  let! s := current_span in
  advance_token ;;
  let ident := mkIdent name s in
  let path := mkTypePath [mkPathSegment ident None start] start in
  let! brace := check Tok.LBrace in
  let! paren := check Tok.LParen in
  if (brace : bool) || paren then
    let! b := eat Tok.LBrace in
    if (b : bool) then
      let! fields := parse_field_patterns in
      expect Tok.RBrace ;;
      ret (PaStruct path fields)
    else
      advance_token ;;
      let! patterns := list_trailing Tok.Comma Tok.RParen (r_pattern R) in
      expect Tok.RParen ;;
      ret (PaTupleStruct path patterns)
  else ret (PaIdent ident false).
Definition parse_tuple_pattern : PR PatternKind :=
  advance_token ;;
  let! c := check Tok.RParen in
  if (c : bool) then advance_token ;; ret (PaTuple [])
  else
    let! p := r_pattern R in
    let! patterns := many_trailing Tok.Comma Tok.RParen (r_pattern R) [p] in
    expect Tok.RParen ;;
    ret (PaTuple patterns).

Definition parse_pattern_kind (k : TokenKind) (start : Span) : PR PatternKind :=
  match k with
  | Tok.Underscore => advance_token ;; ret PaWildcard
  | Tok.Mut => advance_token ;; let! ident := expect_identifier in ret (PaIdent ident true)
  | Tok.Identifier name => parse_name_pattern name start
  | Tok.LParen => parse_tuple_pattern
  | Tok.IntLiteral s => advance_token ;; ret (PaLiteral (LitInt s None))
  | Tok.StringLiteral s => advance_token ;; ret (PaLiteral (LitString s))
  | Tok.BoolLiteral b => advance_token ;; ret (PaLiteral (LitBool b))
  | Tok.DotDot => advance_token ;; ret PaRest
  | Tok.Ampersand =>
    advance_token ;;
    let! is_mut := eat Tok.Mut in
    let! inner := r_pattern R in
    ret (PaRef inner is_mut)
  | _ => fail_at InvalidPattern
  end.

(** [loop { alternatives.push(..); if !self.eat(Pipe) { break } }] *)
Fixpoint alternatives_loop (fuel : nat) (acc : list Pattern) : PR (list Pattern) :=
  match fuel with
  | O => nofuel
  | S fuel =>
    let! p := r_pattern R in
    let! b := eat Tok.Pipe in
    if (b : bool) then alternatives_loop fuel (acc ++ [p]) else ret (acc ++ [p])
  end.
Definition parse_pattern : PR Pattern :=
  let! start := current_span in
  let! k := current_kind in
  let! kind := parse_pattern_kind k start in
  let! pipe := eat Tok.Pipe in
  if (pipe : bool) then
    let! id := next_id in
    let! span := span_from start in
    let! n := tokens_left in
    let! alternatives := alternatives_loop n [mkPattern id span kind] in
    let! id := next_id in
    let! span := span_from start in
    ret (mkPattern id span (PaOr alternatives))
  else
    let! id := next_id in
    let! span := span_from start in
    ret (mkPattern id span kind).

(** ** Statements *)

Definition parse_local_stmt : PR LocalStmt :=
  let! start := current_span in
  expect Tok.Let ;;
  let! is_mutable := eat Tok.Mut in
  let! pattern := r_pattern R in
  let! ty := eat_opt Tok.Colon (r_type R) in
  let! init := eat_opt Tok.Eq (r_expr R 0) in
  expect Tok.Semi ;;
  let! id := next_id in
  let! span := span_from start in
  ret (mkLocalStmt id span pattern ty init is_mutable).
Definition parse_stmt : PR Stmt :=
  let! start := current_span in
  let! k := current_kind in
  let! kind :=
    (match k with
     | Tok.Let => let! l := parse_local_stmt in ret (StLocal l)
     | Tok.Semi => advance_token ;; ret StEmpty
     | _ =>
       let! expr := r_expr R 0 in
       let! semi := eat Tok.Semi in
       ret (if (semi : bool) then StSemi expr else StExpr expr)
     end) in
  let! id := next_id in
  let! span := span_from start in
  ret (mkStmt id span kind).
Definition parse_block : PR Block :=
  let! start := current_span in
  expect Tok.LBrace ;;
  let! stmts := until_brace parse_stmt in
  expect Tok.RBrace ;;
  let! id := next_id in
  let! span := span_from start in
  ret (mkBlock id span stmts).

(** ** Expressions *)

(** [Ok(Expr { id: self.next_id(), span: start.merge(self.current_span()), kind })] *)
Definition finish (start : Span) (kind : ExprKind) : PR Expr :=
  let! id := next_id in
  let! span := span_from start in
  ret (mkExpr id span kind).

Definition parse_call_args : PR (list Expr) := list_trailing Tok.Comma Tok.RParen (r_expr R 0).

Fixpoint field_inits_loop (fuel : nat) (acc : list FieldInit) : PR (list FieldInit) :=
  match fuel with
  | O => nofuel
  | S fuel =>
    let! c := check Tok.RBrace in
    if (c : bool) then ret acc
    else
      let! e := is_eof in
      if (e : bool) then ret acc
      else
        let! start := current_span in
        let! name := expect_identifier in
        let! value := eat_opt Tok.Colon (r_expr R 0) in
        let! span := span_from start in
        let! comma := eat Tok.Comma in
        if (comma : bool) then field_inits_loop fuel (acc ++ [mkFieldInit name value span])
        else ret (acc ++ [mkFieldInit name value span])
  end.
Definition parse_field_inits : PR (list FieldInit) := let! n := tokens_left in field_inits_loop n [].

Definition parse_path_expr : PR Expr :=
  let! start := current_span in
  let! k := current_kind in
  let! first :=
    (match k with
     | Tok.Identifier name => let! s := current_span in advance_token ;; ret (mkIdent name s)
     | Tok.Self_ => let! s := current_span in advance_token ;; ret (mkIdent (str "self") s)
     | Tok.Super => let! s := current_span in advance_token ;; ret (mkIdent (str "super") s)
     | _ => fail (ExpectedIdentifier (sp_line start) (sp_column start))
     end) in
  let! segments := many_eat Tok.ColonColon expect_identifier [first] in
  let! brace := check Tok.LBrace in
  if (brace : bool) && (1 <=? length segments)%nat then
    let! span := span_from start in
    let path := mkTypePath (map (fun i => mkPathSegment i None (id_span i)) segments) span in
    advance_token ;;
    let! fields := parse_field_inits in
    expect Tok.RBrace ;;
    finish start (ExStruct path fields)
  else
    let! id := next_id in
    let! span := span_from start in
    let! span' := span_from start in
    ret (mkExpr id span (ExPath (mkExprPath segments span'))).

Definition parse_if_expr : PR Expr :=
  let! start := current_span in
  expect Tok.If ;;
  let! condition := r_expr R 0 in
  let! then_block := parse_block in
  let! e := eat Tok.Else in
  let! else_branch :=
    (if (e : bool) then
       let! c := check_keyword Tok.If in
       if (c : bool) then let! x := r_if R in ret (Some x)
       else
         let! block := parse_block in
         let! id := next_id in
         ret (Some (mkExpr id (block_span block) (ExBlock block)))
     else ret None) in
  finish start (ExIf condition then_block else_branch).

Definition parse_match_arm : PR MatchArm :=
  let! start := current_span in
  let! pattern := r_pattern R in
  let! guard := eat_opt Tok.If (r_expr R 0) in
  expect Tok.FatArrow ;;
  let! body := r_expr R 0 in
  eat Tok.Comma ;;
  let! span := span_from start in
  ret (mkMatchArm pattern guard body span).
Definition parse_match_expr : PR Expr :=
  let! start := current_span in
  expect Tok.Match ;;
  let! scrutinee := r_expr R 0 in
  expect Tok.LBrace ;;
  let! arms := until_brace parse_match_arm in
  expect Tok.RBrace ;;
  finish start (ExMatch scrutinee arms).
Definition parse_for_expr : PR Expr :=
  let! start := current_span in
  expect Tok.For ;;
  let! pattern := r_pattern R in
  expect Tok.In ;;
  let! iter := r_expr R 0 in
  let! body := parse_block in
  finish start (ExFor pattern iter body).
Definition parse_while_expr : PR Expr :=
  let! start := current_span in
  expect Tok.While ;;
  let! condition := r_expr R 0 in
  let! body := parse_block in
  finish start (ExWhile condition body).
Definition parse_loop_expr : PR Expr :=
  let! start := current_span in
  expect Tok.Loop ;;
  let! body := parse_block in
  finish start (ExLoop body).

(** A literal: its span is that of the token. *)
Definition parse_literal (start : Span) (l : Literal) : PR Expr :=
  advance_token ;;
  let! id := next_id in
  ret (mkExpr id start (ExLiteral l)).

Definition parse_paren_expr (start : Span) : PR Expr :=
  advance_token ;;
  let! c := check Tok.RParen in
  if (c : bool) then advance_token ;; finish start (ExTuple [])
  else
    let! expr := r_expr R 0 in
    let! comma := eat Tok.Comma in
    if (comma : bool) then
      let! c := check Tok.RParen in
      let! elements :=
        (if (c : bool) then ret [expr]
         else let! e := r_expr R 0 in many_trailing Tok.Comma Tok.RParen (r_expr R 0) [expr; e]) in
      expect Tok.RParen ;;
      finish start (ExTuple elements)
    else expect Tok.RParen ;; finish start (ExParen expr).

Definition parse_bracket_expr (start : Span) : PR Expr :=
  advance_token ;;
  let! c := check Tok.RBracket in
  if (c : bool) then advance_token ;; finish start (ExArray [])
  else
    let! first := r_expr R 0 in
    let! semi := eat Tok.Semi in
    if (semi : bool) then
      let! count := r_expr R 0 in
      expect Tok.RBracket ;;
      finish start (ExArrayRepeat first count)
    else
      let! elements := many_trailing Tok.Comma Tok.RBracket (r_expr R 0) [first] in
      expect Tok.RBracket ;;
      finish start (ExArray elements).

(** [break] and [return]: no value before one of the [stops]. *)
Definition parse_jump (start : Span) (stops : list TokenKind) (mk : option Expr -> ExprKind) : PR Expr :=
  advance_token ;;
  let! k := current_kind in
  let! value :=
    (if existsb (fun s => discriminant k =? discriminant s) stops then ret None
     else let! e := r_expr R 0 in ret (Some e)) in
  finish start (mk value).

(** [emit] and [revert]. *)
Definition parse_emit (start : Span) (mk : TypePath -> list FieldInit -> ExprKind) : PR Expr :=
  advance_token ;;
  let! path := parse_type_path in
  expect Tok.LBrace ;;
  let! fields := parse_field_inits in
  expect Tok.RBrace ;;
  finish start (mk path fields).

Definition parse_primary_expr : PR Expr :=
  let! start := current_span in
  let! k := current_kind in
  match k with
  | Tok.IntLiteral s => parse_literal start (LitInt s None)
  | Tok.FloatLiteral s => parse_literal start (LitFloat s)
  | Tok.StringLiteral s => parse_literal start (LitString s)
  | Tok.ByteStringLiteral b => parse_literal start (LitByteString b)
  | Tok.BoolLiteral b => parse_literal start (LitBool b)
  | Tok.AddressLiteral s => parse_literal start (LitAddress s)
  | Tok.LParen => parse_paren_expr start
  | Tok.LBracket => parse_bracket_expr start
  | Tok.LBrace => let! block := parse_block in finish start (ExBlock block)
  | Tok.If => parse_if_expr
  | Tok.Match => parse_match_expr
  | Tok.For => parse_for_expr
  | Tok.While => parse_while_expr
  | Tok.Loop => parse_loop_expr
  | Tok.Break => parse_jump start [Tok.Semi; Tok.RBrace; Tok.Comma] ExBreak
  | Tok.Continue => advance_token ;; let! id := next_id in ret (mkExpr id start ExContinue)
  | Tok.Return => parse_jump start [Tok.Semi; Tok.RBrace] ExReturn
  | Tok.Emit => parse_emit start ExEmit
  | Tok.Revert => parse_emit start ExRevert
  | Tok.Move_ => advance_token ;; let! e := r_expr R 0 in finish start (ExMove e)
  | Tok.Identifier _ | Tok.Self_ | Tok.Super => parse_path_expr
  | _ => fail_at InvalidExpression
  end.

Fixpoint postfix_loop (fuel : nat) (expr : Expr) : PR Expr :=
  match fuel with
  | O => nofuel
  | S fuel =>
    let start := expr_span expr in
    let! k := current_kind in
    match k with
    | Tok.LParen =>
      advance_token ;;
      let! args := parse_call_args in
      expect Tok.RParen ;;
      let! e := finish start (ExCall expr args) in
      postfix_loop fuel e
    | Tok.LBracket =>
      advance_token ;;
      let! index := r_expr R 0 in
      expect Tok.RBracket ;;
      let! e := finish start (ExIndex expr index) in
      postfix_loop fuel e
    | Tok.Dot =>
      advance_token ;;
      let! field := expect_identifier in
      let! c := check Tok.LParen in
      if (c : bool) then
        advance_token ;;
        let! args := parse_call_args in
        expect Tok.RParen ;;
        let! e := finish start (ExMethodCall expr field args) in
        postfix_loop fuel e
      else let! e := finish start (ExField expr field) in postfix_loop fuel e
    | Tok.Question => advance_token ;; let! e := finish start (ExTry expr) in postfix_loop fuel e
    | Tok.As =>
      advance_token ;;
      let! ty := r_type R in
      let! e := finish start (ExCast expr ty) in
      postfix_loop fuel e
    | _ => ret expr
    end
  end.
Definition parse_postfix_expr : PR Expr :=
  let! expr := parse_primary_expr in
  let! n := tokens_left in
  postfix_loop n expr.

(** A prefix operator and its operand. *)
Definition parse_prefix (start : Span) (mk : Expr -> ExprKind) : PR Expr :=
  let! expr := r_unary R in
  let! id := next_id in
  ret (mkExpr id (span_merge start (expr_span expr)) (mk expr)).
Definition parse_unary_expr : PR Expr :=
  let! start := current_span in
  let! k := current_kind in
  match k with
  | Tok.Minus => advance_token ;; parse_prefix start (ExUnary OpNeg)
  | Tok.Not => advance_token ;; parse_prefix start (ExUnary OpNot)
  | Tok.Tilde => advance_token ;; parse_prefix start (ExUnary OpBitNot)
  | Tok.Ampersand => advance_token ;; let! is_mut := eat Tok.Mut in parse_prefix start (fun e => ExReference e is_mut)
  | Tok.Star => advance_token ;; parse_prefix start ExDeref
  | _ => parse_postfix_expr
  end.

Definition binary_op (k : TokenKind) : option BinaryOp :=
  match k with
  | Tok.Plus => Some OpAdd | Tok.Minus => Some OpSub | Tok.Star => Some OpMul | Tok.Slash => Some OpDiv | Tok.Percent => Some OpRem
  | Tok.StarStar => Some OpPow | Tok.EqEq => Some OpEq | Tok.NotEq => Some OpNe | Tok.Lt => Some OpLt | Tok.LtEq => Some OpLe
  | Tok.Gt => Some OpGt | Tok.GtEq => Some OpGe | Tok.And => Some OpAnd | Tok.Or => Some OpOr | Tok.Ampersand => Some OpBitAnd
  | Tok.Pipe => Some OpBitOr | Tok.Caret => Some OpBitXor | Tok.Shl => Some OpShl | Tok.Shr => Some OpShr | Tok.Eq => Some OpAssign
  | Tok.PlusEq => Some OpAddAssign | Tok.MinusEq => Some OpSubAssign | Tok.StarEq => Some OpMulAssign
  | Tok.SlashEq => Some OpDivAssign | Tok.PercentEq => Some OpRemAssign | Tok.AmpersandEq => Some OpBitAndAssign
  | Tok.PipeEq => Some OpBitOrAssign | Tok.CaretEq => Some OpBitXorAssign | Tok.ShlEq => Some OpShlAssign | Tok.ShrEq => Some OpShrAssign
  | _ => None
  end.
Definition binary_precedence (op : BinaryOp) : Z * Z :=
  match op with
  | OpAssign | OpAddAssign | OpSubAssign | OpMulAssign | OpDivAssign | OpRemAssign | OpBitAndAssign | OpBitOrAssign
  | OpBitXorAssign | OpShlAssign | OpShrAssign => (2, 1)
  | OpOr => (4, 5)
  | OpAnd => (6, 7)
  | OpEq | OpNe | OpLt | OpLe | OpGt | OpGe => (8, 9)
  | OpBitOr => (10, 11)
  | OpBitXor => (12, 13)
  | OpBitAnd => (14, 15)
  | OpShl | OpShr => (16, 17)
  | OpAdd | OpSub => (18, 19)
  | OpMul | OpDiv | OpRem => (20, 21)
  | OpPow => (23, 22)
  end.

Fixpoint binary_loop (fuel : nat) (min_prec : Z) (left : Expr) : PR Expr :=
  match fuel with
  | O => nofuel
  | S fuel =>
    let! k := current_kind in
    match binary_op k with
    | None => ret left
    | Some op =>
      let '(left_prec, right_prec) := binary_precedence op in
      if left_prec <? min_prec then ret left
      else
        advance_token ;;
        let! right := r_expr R right_prec in
        let! id := next_id in
        binary_loop fuel min_prec (mkExpr id (span_merge (expr_span left) (expr_span right)) (ExBinary op left right))
    end
  end.
Definition parse_expr_with_precedence (min_prec : Z) : PR Expr :=
  let! left := parse_unary_expr in
  let! n := tokens_left in
  binary_loop n min_prec left.
Definition parse_expr : PR Expr := parse_expr_with_precedence 0.

(** ** Generics *)

Definition parse_type_bound : PR TypeBound := let! path := parse_type_path in ret (mkTypeBound path (type_path_span path)).
Definition parse_type_bounds : PR (list TypeBound) :=
  let! b := parse_type_bound in many_eat Tok.Plus parse_type_bound [b].
Definition parse_where_predicate : PR WherePredicate :=
  let! start := current_span in
  let! ty := parse_type in
  expect Tok.Colon ;;
  let! bounds := parse_type_bounds in
  let! span := span_from start in
  ret (mkWherePredicate ty bounds span).
Definition parse_where_clause : PR WhereClause :=
  let! start := current_span in
  expect Tok.Where ;;
  let! p := parse_where_predicate in
  let! predicates := many_trailing Tok.Comma Tok.LBrace parse_where_predicate [p] in
  let! span := span_from start in
  ret (mkWhereClause predicates span).
Definition parse_generic_param : PR GenericParam :=
  let! c := check_keyword Tok.Const in
  if (c : bool) then
    advance_token ;;
    let! start := current_span in
    let! name := expect_identifier in
    expect Tok.Colon ;;
    let! ty := parse_type in
    let! default := eat_opt Tok.Eq parse_expr in
    let! id := next_id in
    let! span := span_from start in
    ret (GpConst (mkConstParam id span name ty default))
  else
    let! start := current_span in
    let! name := expect_identifier in
    let! colon := eat Tok.Colon in
    let! bounds := (if (colon : bool) then parse_type_bounds else ret []) in
    let! default := eat_opt Tok.Eq parse_type in
    let! id := next_id in
    let! span := span_from start in
    ret (GpType (mkTypeParam id span name bounds default)).
Definition parse_optional_generics : PR (option Generics) :=
  let! lt := check Tok.Lt in
  if negb lt then ret None
  else
    let! start := current_span in
    advance_token ;;
    let! params := list_trailing Tok.Comma Tok.Gt parse_generic_param in
    expect Tok.Gt ;;
    let! w := check_keyword Tok.Where in
    let! where_clause := (if (w : bool) then let! c := parse_where_clause in ret (Some c) else ret None) in
    let! span := span_from start in
    ret (Some (mkGenerics params where_clause span)).

(** ** Structs, enums, constants *)

Definition parse_struct_field : PR StructField :=
  let! start := current_span in
  let! visibility := parse_visibility in
  let! name := expect_identifier in
  expect Tok.Colon ;;
  let! ty := parse_type in
  expect Tok.Comma ;;
  let! id := next_id in
  let! span := span_from start in
  ret (mkStructField id span visibility name ty).

Definition ability_of (k : TokenKind) : option ResourceAbility :=
  match k with
  | Tok.Copy => Some AbCopy | Tok.Drop => Some AbDrop | Tok.Store => Some AbStore | Tok.Key => Some AbKey
  | _ => None
  end.
Fixpoint abilities_loop (fuel : nat) (acc : list ResourceAbility) : PR (list ResourceAbility) :=
  match fuel with
  | O => nofuel
  | S fuel =>
    let! k := current_kind in
    match ability_of k with
    | None => ret acc
    | Some a =>
      advance_token ;;
      let! plus := eat Tok.Plus in
      if (plus : bool) then abilities_loop fuel (acc ++ [a]) else ret (acc ++ [a])
    end
  end.
Definition parse_abilities : PR (list ResourceAbility) :=
  let! colon := eat Tok.Colon in
  if (colon : bool) then let! n := tokens_left in abilities_loop n [] else ret [].

Definition parse_struct (visibility : Visibility) : PR StructDef :=
  let! start := current_span in
  let! is_resource := eat Tok.Resource in
  (if (is_resource : bool) then ret tt else expect Tok.Struct ;; ret tt) ;;
  let! name := expect_identifier in
  let! generics := parse_optional_generics in
  let! abilities := (if (is_resource : bool) then parse_abilities else ret []) in
  expect Tok.LBrace ;;
  let! fields := until_brace parse_struct_field in
  expect Tok.RBrace ;;
  let! id := next_id in
  let! span := span_from start in
  ret (mkStructDef id span visibility name generics abilities fields).

Definition parse_enum_variant : PR EnumVariant :=
  let! start := current_span in
  let! name := expect_identifier in
  let! paren := check Tok.LParen in
  let! brace := check Tok.LBrace in
  let! fields :=
    (if (paren : bool) then
       advance_token ;;
       let! types := list_trailing Tok.Comma Tok.RParen parse_type in
       expect Tok.RParen ;;
       ret (VfTuple types)
     else if (brace : bool) then
       advance_token ;;
       let! fields := until_brace parse_struct_field in
       expect Tok.RBrace ;;
       ret (VfStruct fields)
     else ret VfUnit) in
  eat Tok.Comma ;;
  let! id := next_id in
  let! span := span_from start in
  ret (mkEnumVariant id span name fields).
Definition parse_enum (visibility : Visibility) : PR EnumDef :=
  let! start := current_span in
  expect Tok.Enum ;;
  let! name := expect_identifier in
  let! generics := parse_optional_generics in
  expect Tok.LBrace ;;
  let! variants := until_brace parse_enum_variant in
  expect Tok.RBrace ;;
  let! id := next_id in
  let! span := span_from start in
  ret (mkEnumDef id span visibility name generics variants).
Definition parse_type_alias (visibility : Visibility) : PR TypeAlias :=
  let! start := current_span in
  expect Tok.Type_ ;;
  let! name := expect_identifier in
  let! generics := parse_optional_generics in
  expect Tok.Eq ;;
  let! ty := parse_type in
  expect Tok.Semi ;;
  let! id := next_id in
  let! span := span_from start in
  ret (mkTypeAlias id span visibility name generics ty).
Definition parse_const (visibility : Visibility) : PR ConstItem :=
  let! start := current_span in
  expect Tok.Const ;;
  let! name := expect_identifier in
  expect Tok.Colon ;;
  let! ty := parse_type in
  expect Tok.Eq ;;
  let! value := parse_expr in
  expect Tok.Semi ;;
  let! id := next_id in
  let! span := span_from start in
  ret (mkConstItem id span visibility name ty value).

(** ** Storage, events and errors *)

Definition parse_storage_field : PR StorageField :=
  let! start := current_span in
  let! visibility := parse_visibility in
  let! name := expect_identifier in
  expect Tok.Colon ;;
  let! ty := parse_type in
  let! default := eat_opt Tok.Eq parse_expr in
  expect Tok.Comma ;;
  let! id := next_id in
  let! span := span_from start in
  ret (mkStorageField id span visibility name ty default).
Definition parse_storage_block : PR StorageBlock :=
  let! start := current_span in
  expect Tok.Storage ;;
  expect Tok.LBrace ;;
  let! fields := until_brace parse_storage_field in
  expect Tok.RBrace ;;
  let! id := next_id in
  let! span := span_from start in
  ret (mkStorageBlock id span fields).

Definition parse_event_field : PR EventField :=
  let! start := current_span in
  let! hash := eat Tok.Hash in
  let! indexed :=
    (if (hash : bool) then
       expect Tok.LBracket ;;
       let! attr := expect_identifier in
       expect Tok.RBracket ;;
       ret (bool_decide (id_name attr = str "indexed"))
     else ret false) in
  let! name := expect_identifier in
  expect Tok.Colon ;;
  let! ty := parse_type in
  expect Tok.Comma ;;
  let! id := next_id in
  let! span := span_from start in
  ret (mkEventField id span indexed name ty).
Definition parse_event : PR EventDef :=
  let! start := current_span in
  expect Tok.Event ;;
  let! name := expect_identifier in
  expect Tok.LBrace ;;
  let! fields := until_brace parse_event_field in
  expect Tok.RBrace ;;
  let! id := next_id in
  let! span := span_from start in
  ret (mkEventDef id span name fields).
Definition parse_error_field : PR ErrorField :=
  let! start := current_span in
  let! name := expect_identifier in
  expect Tok.Colon ;;
  let! ty := parse_type in
  expect Tok.Comma ;;
  let! id := next_id in
  let! span := span_from start in
  ret (mkErrorField id span name ty).
Definition parse_error_def : PR ErrorDef :=
  let! start := current_span in
  expect Tok.Error ;;
  let! name := expect_identifier in
  expect Tok.LBrace ;;
  let! fields := until_brace parse_error_field in
  expect Tok.RBrace ;;
  let! id := next_id in
  let! span := span_from start in
  ret (mkErrorDef id span name fields).

(** ** Specifications *)

Definition parse_spec_clause (mk : Expr -> SpecItem) : PR SpecItem :=
  advance_token ;;
  let! expr := parse_expr in
  expect Tok.Semi ;;
  ret (mk expr).
Definition parse_spec_item : PR SpecItem :=
  let! k := current_kind in
  match k with
  | Tok.Requires => parse_spec_clause SiRequires
  | Tok.Ensures => parse_spec_clause SiEnsures
  | Tok.Invariant => parse_spec_clause SiInvariant
  | Tok.Assume => parse_spec_clause SiAssume
  | Tok.Assert => parse_spec_clause SiAssert
  | _ => unexpected (str "spec item")
  end.
Definition parse_spec_block : PR SpecBlock :=
  let! start := current_span in
  expect Tok.Spec ;;
  expect Tok.LBrace ;;
  let! items := until_brace parse_spec_item in
  expect Tok.RBrace ;;
  let! id := next_id in
  let! span := span_from start in
  ret (mkSpecBlock id span items).

(** ** Functions *)

Fixpoint modifiers_loop (fuel : nat) (pure view payable parallel : bool) : PR FunctionModifiers :=
  match fuel with
  | O => nofuel
  | S fuel =>
    let! k := current_kind in
    match k with
    | Tok.Pure => advance_token ;; modifiers_loop fuel true view payable parallel
    | Tok.View => advance_token ;; modifiers_loop fuel pure true payable parallel
    | Tok.Payable => advance_token ;; modifiers_loop fuel pure view true parallel
    | Tok.Parallel => advance_token ;; modifiers_loop fuel pure view payable true
    | _ => ret (mkFunctionModifiers pure view payable parallel [])
    end
  end.
Definition parse_function_modifiers : PR FunctionModifiers :=
  let! n := tokens_left in modifiers_loop n false false false false.

Definition parse_param : PR Param :=
  let! start := current_span in
  let! pattern := parse_pattern in
  expect Tok.Colon ;;
  let! ty := parse_type in
  let! id := next_id in
  let! span := span_from start in
  ret (mkParam id span pattern ty).
Definition parse_params : PR (list Param) := list_trailing Tok.Comma Tok.RParen parse_param.

Definition parse_function_sig_with_visibility (visibility : Visibility) : PR FunctionSig :=
  let! start := current_span in
  let! modifiers := parse_function_modifiers in
  expect Tok.Fn ;;
  let! name := expect_identifier in
  let! generics := parse_optional_generics in
  expect Tok.LParen ;;
  let! params := parse_params in
  expect Tok.RParen ;;
  let! return_type := eat_opt Tok.Arrow parse_type in
  let! id := next_id in
  let! span := span_from start in
  ret (mkFunctionSig id span visibility modifiers name generics params return_type).
Definition parse_function_sig : PR FunctionSig :=
  let! visibility := parse_visibility in parse_function_sig_with_visibility visibility.

(** [while self.check_keyword(Spec) { specs.push(..) }] *)
Fixpoint specs_loop (fuel : nat) (acc : list SpecBlock) : PR (list SpecBlock) :=
  match fuel with
  | O => nofuel
  | S fuel =>
    let! b := check_keyword Tok.Spec in
    if (b : bool) then let! s := parse_spec_block in specs_loop fuel (acc ++ [s]) else ret acc
  end.
Definition parse_function (visibility : Visibility) : PR FunctionDef :=
  let! start := current_span in
  let! sig := parse_function_sig_with_visibility visibility in
  let! body := parse_block in
  let! n := tokens_left in
  let! specs := specs_loop n [] in
  let! id := next_id in
  let! span := span_from start in
  ret (mkFunctionDef id span sig body specs).
Definition parse_constructor (visibility : Visibility) : PR ConstructorDef :=
  let! start := current_span in
  expect Tok.Constructor ;;
  let! modifiers := parse_function_modifiers in
  expect Tok.LParen ;;
  let! params := parse_params in
  expect Tok.RParen ;;
  let! body := parse_block in
  let! id := next_id in
  let! span := span_from start in
  ret (mkConstructorDef id span visibility modifiers params body).
Definition parse_fallback : PR FallbackDef :=
  let! start := current_span in
  expect Tok.Fallback ;;
  let! body := parse_block in
  let! id := next_id in
  let! span := span_from start in
  ret (mkFallbackDef id span body).
Definition parse_receive : PR ReceiveDef :=
  let! start := current_span in
  expect Tok.Receive ;;
  let! body := parse_block in
  let! id := next_id in
  let! span := span_from start in
  ret (mkReceiveDef id span body).
Definition parse_modifier : PR ModifierDef :=
  let! start := current_span in
  expect Tok.Modifier ;;
  let! name := expect_identifier in
  expect Tok.LParen ;;
  let! params := parse_params in
  expect Tok.RParen ;;
  let! body := parse_block in
  let! id := next_id in
  let! span := span_from start in
  ret (mkModifierDef id span name params body).

(** ** Items *)

Definition map_ok {A B} (f : A -> B) (m : PR A) : PR B := let! x := m in ret (f x).
(** The tokens a function can begin with. *)
Definition starts_function (k : TokenKind) : bool :=
  match k with Tok.Fn | Tok.Pure | Tok.View | Tok.Payable | Tok.Parallel => true | _ => false end.
Definition starts_struct (k : TokenKind) : bool := match k with Tok.Struct | Tok.Resource => true | _ => false end.

Definition parse_import_path : PR ImportPath :=
  let! start := current_span in
  let! first := expect_identifier in
  let! segments := many_eat Tok.ColonColon expect_identifier [first] in
  let! span := span_from start in
  ret (mkImportPath segments span).
Definition parse_import : PR ImportItem :=
  let! start := current_span in
  expect Tok.Import_ ;;
  let! path := parse_import_path in
  let! alias := eat_opt Tok.As expect_identifier in
  expect Tok.Semi ;;
  let! id := next_id in
  let! span := span_from start in
  ret (mkImportItem id span path alias).

(** [: A, B, ..] after a contract or an interface. *)
Definition parse_parents : PR (list TypePath) :=
  let! colon := eat Tok.Colon in
  if (colon : bool) then let! p := parse_type_path in many_eat Tok.Comma parse_type_path [p] else ret [].

Definition parse_contract_item : PR ContractItem :=
  let! visibility := parse_visibility in
  let! k := current_kind in
  if starts_struct k then map_ok CiStruct (parse_struct visibility)
  else if starts_function k then map_ok CiFunction (parse_function visibility)
  else
    match k with
    | Tok.Storage => map_ok CiStorage parse_storage_block
    | Tok.Event => map_ok CiEvent parse_event
    | Tok.Error => map_ok CiError parse_error_def
    | Tok.Modifier => map_ok CiModifier parse_modifier
    | Tok.Constructor => map_ok CiConstructor (parse_constructor visibility)
    | Tok.Fallback => map_ok CiFallback parse_fallback
    | Tok.Receive => map_ok CiReceive parse_receive
    | Tok.Const => map_ok CiConst (parse_const visibility)
    | Tok.Enum => map_ok CiEnum (parse_enum visibility)
    | _ => unexpected (str "contract item")
    end.
Definition parse_contract : PR ContractDef :=
  let! start := current_span in
  expect Tok.Contract ;;
  let! name := expect_identifier in
  let! generics := parse_optional_generics in
  let! inherits := parse_parents in
  expect Tok.LBrace ;;
  let! items := until_brace parse_contract_item in
  expect Tok.RBrace ;;
  let! id := next_id in
  let! span := span_from start in
  ret (mkContractDef id span name generics inherits items).

Definition parse_interface_item : PR InterfaceItem :=
  let! k := current_kind in
  match k with
  | Tok.Event => map_ok IiEvent parse_event
  | Tok.Error => map_ok IiError parse_error_def
  | _ => map_ok IiFunction parse_function_sig
  end.
Definition parse_interface : PR InterfaceDef :=
  let! start := current_span in
  expect Tok.Interface ;;
  let! name := expect_identifier in
  let! generics := parse_optional_generics in
  let! extends := parse_parents in
  expect Tok.LBrace ;;
  let! items := until_brace parse_interface_item in
  expect Tok.RBrace ;;
  let! id := next_id in
  let! span := span_from start in
  ret (mkInterfaceDef id span name generics extends items).

Definition parse_library_item : PR LibraryItem :=
  let! visibility := parse_visibility in
  let! k := current_kind in
  if starts_struct k then map_ok LiStruct (parse_struct visibility)
  else
    match k with
    | Tok.Const => map_ok LiConst (parse_const visibility)
    | _ => map_ok LiFunction (parse_function visibility)
    end.
Definition parse_library : PR LibraryDef :=
  let! start := current_span in
  expect Tok.Library ;;
  let! name := expect_identifier in
  expect Tok.LBrace ;;
  let! items := until_brace parse_library_item in
  expect Tok.RBrace ;;
  let! id := next_id in
  let! span := span_from start in
  ret (mkLibraryDef id span name items).

Definition parse_item : PR Item :=
  let! visibility := parse_visibility in
  let! k := current_kind in
  if starts_struct k then map_ok ItStruct (parse_struct visibility)
  else if starts_function k then map_ok ItFunction (parse_function visibility)
  else
    match k with
    | Tok.Import_ => map_ok ItImport parse_import
    | Tok.Contract => map_ok ItContract parse_contract
    | Tok.Interface => map_ok ItInterface parse_interface
    | Tok.Library => map_ok ItLibrary parse_library
    | Tok.Enum => map_ok ItEnum (parse_enum visibility)
    | Tok.Type_ => map_ok ItTypeAlias (parse_type_alias visibility)
    | Tok.Const => map_ok ItConst (parse_const visibility)
    | _ => unexpected (str "item")
    end.

(** [while !self.is_eof() { items.push(self.parse_item()?) }] *)
Fixpoint items_loop (fuel : nat) (acc : list Item) : PR (list Item) :=
  match fuel with
  | O => nofuel
  | S fuel =>
    let! e := is_eof in
    if (e : bool) then ret acc else let! i := parse_item in items_loop fuel (acc ++ [i])
  end.
Definition parse_file_body : PR SourceFile :=
  let! start := current_span in
  let! n := tokens_left in
  let! items := items_loop n [] in
  let! end_span := current_span in
  let! id := next_id in
  ret (mkSourceFile id (span_merge start end_span) items).
End parsers.

(** ** Tying the knot *)

Fixpoint rec_parsers (fuel : nat) : Rec :=
  match fuel with
  | O => no_rec
  | S fuel =>
    let R := rec_parsers fuel in
    mkRec (parse_type R) (parse_pattern R) (parse_expr_with_precedence R) (parse_unary_expr R) (parse_if_expr R)
  end.

Definition parse_file : PR SourceFile :=
  let! n := tokens_left in parse_file_body (rec_parsers n).
Definition parse_tokens (tokens : list Token) : Result ParseError SourceFile := fst (parse_file (parser_new tokens)).
