(* ===== verification/QscLexerTheory.v ===== *)
(** * Theory of the lexer

    The lexer cuts the source without losing a character: between tokens there
    is only white space and comments, every token has the text and the position
    it claims, and the lexer always returns. *)

From stdpp Require Import strings.
From S2P Require Import Prelude QscTokens QscLexer Wp.

(** ** Positions *)

Definition bytes_of (s : chars) : Z := foldr (fun c n => len_utf8 c + n) 0 s.
Definition step_position (p : Z * Z) (c : Z) : Z * Z :=
  if c =? NEWLINE then (wrap 32 (fst p + 1), 1) else (fst p, wrap 32 (snd p + 1)).
(** The line and the column after the text [s]. *)
Definition position (s : chars) : Z * Z := foldl step_position (1, 1) s.

Lemma len_utf8_pos c : 1 <= len_utf8 c.
Proof. unfold len_utf8. repeat case_match; lia. Qed.

Lemma bytes_of_app a b : bytes_of (a ++ b) = bytes_of a + bytes_of b.
Proof. induction a as [|c a IH]; simpl; [done|]. rewrite IH. lia. Qed.

Lemma bytes_of_nonneg s : 0 <= bytes_of s.
Proof. induction s as [|c s IH]; simpl; [lia|]. pose proof (len_utf8_pos c). lia. Qed.

Lemma str_from_app a b : str_from (bytes_of a) (a ++ b) = Some b.
Proof.
  induction a as [|c a IH]; [by destruct b|]. pose proof (len_utf8_pos c). pose proof (bytes_of_nonneg a).
  cbn [bytes_of foldr str_from app]. fold (bytes_of a). destruct (Z.eqb_spec (len_utf8 c + bytes_of a) 0); [lia|].
  destruct (Z.ltb_spec (len_utf8 c + bytes_of a) (len_utf8 c)); [lia|].
  by replace (len_utf8 c + bytes_of a - len_utf8 c) with (bytes_of a) by lia.
Qed.

Lemma str_take_app a b : str_take (bytes_of a) (a ++ b) = Some a.
Proof.
  induction a as [|c a IH]; [by destruct b|]. pose proof (len_utf8_pos c). pose proof (bytes_of_nonneg a).
  cbn [bytes_of foldr str_take app]. fold (bytes_of a). destruct (Z.eqb_spec (len_utf8 c + bytes_of a) 0); [lia|].
  destruct (Z.ltb_spec (len_utf8 c + bytes_of a) (len_utf8 c)); [lia|].
  replace (len_utf8 c + bytes_of a - len_utf8 c) with (bytes_of a) by lia. by rewrite IH.
Qed.

Lemma str_slice_app a b c : str_slice (bytes_of a) (bytes_of (a ++ b)) (a ++ b ++ c) = Some b.
Proof.
  unfold str_slice. rewrite str_from_app. simpl. rewrite bytes_of_app.
  replace (bytes_of a + bytes_of b - bytes_of a) with (bytes_of b) by lia. apply str_take_app.
Qed.

(** ** The state of the lexer *)

(** [before] has been cut, [text] is the token so far, [rest] is to come. *)
Record at_text (before text rest : chars) (l : Lexer) : Prop := {
  at_source : lx_source l = before ++ text ++ rest;
  at_chars : lx_chars l = rest;
  at_pos : lx_pos l = bytes_of (before ++ text);
  at_position : (lx_line l, lx_column l) = position (before ++ text);
  at_start : lx_token_start l = bytes_of before;
  at_start_position : (lx_token_line l, lx_token_column l) = position before;
}.

(** The span of a token. *)
Definition span_of (before text : chars) : Span :=
  mkSpan (bytes_of before) (bytes_of (before ++ text)) (fst (position before)) (snd (position before)).

Section lexer_rules.
Context `{U : UnicodeTables}.
Implicit Types (before text rest : chars) (l : Lexer).

Lemma wp_peek (Q : option Z -> Lexer -> Prop) before text rest l :
  at_text before text rest l -> Q (head rest) l -> wp peek Q l.
Proof. intros H ?. apply wp_gets. by rewrite (at_chars _ _ _ _ H). Qed.

Lemma wp_peek_nth n (Q : option Z -> Lexer -> Prop) before text rest l :
  at_text before text rest l -> Q (rest !! n) l -> wp (peek_nth n) Q l.
Proof.
  intros H HQ. unfold peek_nth. apply wp_bind, wp_gets, wp_bind. eapply wp_or_panic; [|by apply wp_ret].
  unfold id. rewrite (at_pos _ _ _ _ H), (at_source _ _ _ _ H), (assoc_L app). apply str_from_app.
Qed.

Lemma step_at before text c rest l : at_text before text (c :: rest) l -> at_text before (text ++ [c]) rest (step_char c rest l).
Proof.
  intros []. split; simpl; try done.
  - by rewrite at_source0, <-(assoc_L app).
  - rewrite at_pos0, (assoc_L app before), (bytes_of_app (before ++ text)). simpl. lia.
  - rewrite (assoc_L app). unfold position in *. rewrite foldl_app. simpl. rewrite <-at_position0. unfold step_position. simpl.
    by destruct (c =? NEWLINE).
Qed.

Lemma wp_advance (Q : unit -> Lexer -> Prop) before text c rest l :
  at_text before text (c :: rest) l -> (forall l', at_text before (text ++ [c]) rest l' -> Q tt l') -> wp advance Q l.
Proof. intros H HQ. apply wp_modify. rewrite (at_chars _ _ _ _ H). by apply HQ, step_at. Qed.

Lemma wp_chars_left (Q : nat -> Lexer -> Prop) before text rest l :
  at_text before text rest l -> Q (S (length rest)) l -> wp chars_left Q l.
Proof. intros H ?. apply wp_gets. by rewrite (at_chars _ _ _ _ H). Qed.

Lemma wp_advance_if e (Q : bool -> Lexer -> Prop) before text rest l :
  at_text before text rest l ->
  (forall rest' l', rest = e :: rest' -> at_text before (text ++ [e]) rest' l' -> Q true l') ->
  (head rest <> Some e -> Q false l) -> wp (advance_if e) Q l.
Proof.
  intros H Hy Hn. unfold advance_if. apply wp_bind. eapply wp_peek; [done|]. case_bool_decide as Hh; [|by apply wp_ret, Hn].
  destruct rest as [|c rest]; [done|]. injection Hh as ->. apply wp_bind. eapply wp_advance; [done|].
  intros l' H'. apply wp_ret. by eapply Hy.
Qed.

Lemma wp_make_token k (Q : Token -> Lexer -> Prop) before text rest l :
  at_text before text rest l -> Q (mkToken k (span_of before text)) l -> wp (make_token k) Q l.
Proof.
  intros [] HQ. apply wp_gets. unfold span_of in HQ. rewrite at_start0, at_pos0. by rewrite <-at_start_position0 in HQ.
Qed.

Lemma wp_token_text (Q : chars -> Lexer -> Prop) before text rest l :
  at_text before text rest l -> Q text l -> wp token_text Q l.
Proof.
  intros H HQ. unfold token_text. apply wp_bind, wp_gets. eapply wp_or_panic; [|done].
  unfold id. rewrite (at_start _ _ _ _ H), (at_pos _ _ _ _ H), (at_source _ _ _ _ H). apply str_slice_app.
Qed.

Lemma wp_fail_here {A} e (Q : A -> Lexer -> Prop) l : wp (fail_here e) Q l.
Proof. done. Qed.

Lemma wp_eat_while_loop p n (Q : unit -> Lexer -> Prop) before text rest l :
  at_text before text rest l -> (length rest < n)%nat ->
  (forall t rest' l', rest = t ++ rest' -> Forall (fun c => p c = true) t -> (forall c, head rest' = Some c -> p c = false) ->
     at_text before (text ++ t) rest' l' -> Q tt l') ->
  wp (eat_while_loop n p) Q l.
Proof.
  revert text rest l. induction n as [|n IH]; intros text rest l H Hn HQ; [lia|]. simpl. apply wp_bind. eapply wp_peek; [done|].
  destruct rest as [|c rest]; simpl.
  - apply wp_ret. apply (HQ [] []); try done. by rewrite app_nil_r.
  - destruct (p c) eqn:Ep.
    + apply wp_bind. eapply wp_advance; [done|]. intros l' H'. eapply IH; [done|simpl in Hn; lia|].
      intros t rest' l'' -> Ht Hh H''. apply (HQ (c :: t) rest'); try done; [by constructor|]. by rewrite <-(assoc_L app) in H''.
    + apply wp_ret. apply (HQ [] (c :: rest)); try done; [by intros ? [= <-]|]. by rewrite app_nil_r.
Qed.

Lemma wp_eat_while p (Q : unit -> Lexer -> Prop) before text rest l :
  at_text before text rest l ->
  (forall t rest' l', rest = t ++ rest' -> Forall (fun c => p c = true) t -> (forall c, head rest' = Some c -> p c = false) ->
     at_text before (text ++ t) rest' l' -> Q tt l') ->
  wp (eat_while p) Q l.
Proof. intros H HQ. unfold eat_while. apply wp_bind. eapply wp_chars_left; [done|]. eapply wp_eat_while_loop; eauto. Qed.

(** ** White space and comments *)

Definition starts (a b : Z) (s : chars) : Prop := exists s', s = a :: b :: s'.

(** The rest of a block comment of nesting depth [n]. *)
Inductive block_text : nat -> chars -> Prop :=
| block_done : block_text 0 []
| block_open n s : block_text (S (S n)) s -> block_text (S n) (ch "/" :: ch "*" :: s)
| block_close n s : block_text n s -> block_text (S n) (ch "*" :: ch "/" :: s)
| block_char n c s :
    ~ starts (ch "/") (ch "*") (c :: s) -> ~ starts (ch "*") (ch "/") (c :: s) -> block_text (S n) s -> block_text (S n) (c :: s).

Inductive trivia : chars -> Prop :=
| trivia_nil : trivia []
| trivia_white c s : is_white c = true -> trivia s -> trivia (c :: s)
| trivia_line t s : Forall (fun c => negb (c =? NEWLINE) = true) t -> trivia s -> trivia (ch "/" :: ch "/" :: t ++ s)
| trivia_block t s : block_text 1 t -> trivia s -> trivia (ch "/" :: ch "*" :: t ++ s).

Lemma wp_block_comment n depth a b (Q : unit -> Lexer -> Prop) before text rest l :
  at_text before text rest l -> (length rest < n)%nat ->
  (forall t rest' l', rest = t ++ rest' -> block_text depth t -> at_text before (text ++ t) rest' l' -> Q tt l') ->
  wp (block_comment_loop n (Z.of_nat depth) a b) Q l.
Proof.
  revert depth text rest l. induction n as [|n IH]; intros depth text rest l H Hn HQ; [lia|]. cbn [block_comment_loop].
  destruct depth as [|depth].
  { simpl. apply wp_ret. apply (HQ [] rest); [done|constructor|]. by rewrite app_nil_r. }
  destruct (Z.leb_spec (Z.of_nat (S depth)) 0); [lia|]. apply wp_bind. eapply wp_peek; [done|].
  apply wp_bind. eapply wp_peek_nth; [done|]. destruct rest as [|c rest]; [apply wp_fail|]. simpl.
  assert (Hone : ~ (c = ch "/" /\ rest !! 0%nat = Some (ch "*")) -> ~ (c = ch "*" /\ rest !! 0%nat = Some (ch "/")) ->
    wp (advance ;; block_comment_loop n (Z.of_nat (S depth)) a b) Q l).
  { intros Hno Hnc. apply wp_bind. eapply wp_advance; [done|]. intros l1 H1. eapply IH; [done|simpl in Hn; lia|].
    intros t rest' l' -> Ht H'. apply (HQ (c :: t) rest'); [done| |by rewrite <-(assoc_L app) in H'].
    constructor; [| |done]; intros (s' & [= -> ->]); [apply Hno|apply Hnc]; done. }
  assert (Htwo : forall d depth', rest !! 0%nat = Some d ->
    (forall t, block_text depth' t -> block_text (S depth) (c :: d :: t)) ->
    wp (advance ;; advance ;; block_comment_loop n (Z.of_nat depth') a b) Q l).
  { intros d depth' Hd Hb. destruct rest as [|d' rest]; [done|]. injection Hd as ->.
    apply wp_bind. eapply wp_advance; [done|]. intros l1 H1. apply wp_bind. eapply wp_advance; [done|]. intros l2 H2.
    eapply IH; [done|simpl in Hn; lia|]. intros t rest' l' -> Ht H'. apply (HQ (c :: d :: t) rest'); [done|by apply Hb|].
    by rewrite <-!(assoc_L app) in H'. }
  destruct (Z.eqb_spec c (ch "/")) as [->|]; simpl.
  - case_bool_decide as Hd.
    + replace (Z.of_nat (S depth) + 1) with (Z.of_nat (S (S depth))) by lia. eapply Htwo; [done|]. by constructor.
    + destruct (Z.eqb_spec (ch "/") (ch "*")); [done|]. by apply Hone; intros [? ?].
  - destruct (Z.eqb_spec c (ch "*")) as [->|]; simpl; [|by apply Hone; intros [? ?]].
    case_bool_decide as Hd; [|by apply Hone; intros [? ?]].
    replace (Z.of_nat (S depth) - 1) with (Z.of_nat depth) by lia. eapply Htwo; [done|]. by constructor.
Qed.

Lemma wp_skip_line (Q : unit -> Lexer -> Prop) before text rest l :
  at_text before text (ch "/" :: ch "/" :: rest) l ->
  (forall t rest' l', rest = t ++ rest' -> Forall (fun c => negb (c =? NEWLINE) = true) t ->
     at_text before (text ++ ch "/" :: ch "/" :: t) rest' l' -> Q tt l') ->
  wp skip_line_comment Q l.
Proof.
  intros H HQ. unfold skip_line_comment. apply wp_bind. eapply wp_advance; [done|]. intros l1 H1.
  apply wp_bind. eapply wp_advance; [done|]. intros l2 H2. eapply wp_eat_while; [done|].
  intros t rest' l' -> Ht _ H'. eapply HQ; [done|done|]. by rewrite <-!(assoc_L app) in H'.
Qed.

Lemma wp_skip_block (Q : unit -> Lexer -> Prop) before text rest l :
  at_text before text (ch "/" :: ch "*" :: rest) l ->
  (forall t rest' l', rest = t ++ rest' -> block_text 1 t ->
     at_text before (text ++ ch "/" :: ch "*" :: t) rest' l' -> Q tt l') ->
  wp skip_block_comment Q l.
Proof.
  intros H HQ. unfold skip_block_comment. apply wp_bind, wp_gets. apply wp_bind. eapply wp_advance; [done|]. intros l1 H1.
  apply wp_bind. eapply wp_advance; [done|]. intros l2 H2. apply wp_bind. eapply wp_chars_left; [done|].
  apply (wp_block_comment _ 1 _ _ _ _ _ _ _ H2); [lia|]. intros t rest' l' -> Ht H'. eapply HQ; [done|done|].
  by rewrite <-!(assoc_L app) in H'.
Qed.

Lemma wp_skip_loop n (Q : unit -> Lexer -> Prop) before text rest l :
  at_text before text rest l -> (length rest < n)%nat ->
  (forall t rest' l', rest = t ++ rest' -> trivia t -> at_text before (text ++ t) rest' l' -> Q tt l') ->
  wp (skip_loop n) Q l.
Proof.
  revert text rest l. induction n as [|n IH]; intros text rest l H Hn HQ; [lia|]. cbn [skip_loop].
  assert (Hstop : Q tt l) by (apply (HQ [] rest); [done|constructor|by rewrite app_nil_r]).
  apply wp_bind. eapply wp_peek; [done|]. destruct rest as [|c rest]; [by apply wp_ret|]. simpl. destruct (is_white c) eqn:Ew.
  { apply wp_bind. eapply wp_advance; [done|]. intros l1 H1. eapply IH; [done|simpl in Hn; lia|].
    intros t rest' l' -> Ht H'. apply (HQ (c :: t) rest'); [done|by constructor|]. by rewrite <-(assoc_L app) in H'. }
  destruct (Z.eqb_spec c (ch "/")) as [->|]; [|by apply wp_ret]. apply wp_bind. eapply wp_peek_nth; [done|]. simpl.
  case_bool_decide as H1; [|case_bool_decide as H2; [|by apply wp_ret]]; (destruct rest as [|d rest]; [done|]).
  - injection H1 as ->. apply wp_bind. eapply wp_skip_line; [done|]. intros t rest' l' -> Ht H'.
    eapply IH; [done|simpl in Hn; rewrite length_app in Hn; lia|]. intros t2 rest2 l2 -> Ht2 H2'.
    apply (HQ (ch "/" :: ch "/" :: t ++ t2) rest2); [by simpl; rewrite <-(assoc_L app)|by constructor|].
    by rewrite <-(assoc_L app) in H2'.
  - injection H2 as ->. apply wp_bind. eapply wp_skip_block; [done|]. intros t rest' l' -> Ht H'.
    eapply IH; [done|simpl in Hn; rewrite length_app in Hn; lia|]. intros t2 rest2 l2 -> Ht2 H2'.
    apply (HQ (ch "/" :: ch "*" :: t ++ t2) rest2); [by simpl; rewrite <-(assoc_L app)|by constructor|].
    by rewrite <-(assoc_L app) in H2'.
Qed.

(** ** Tokens and their texts *)

(** The text of a token: a name or number stands for itself, a string is
    delimited, and every other token is written as it is displayed. *)
Definition kind_text (k : TokenKind) (text : chars) : Prop :=
  match k with
  | Tok.Identifier s => s = text /\ keyword_from_str text = None
  | Tok.IntLiteral s | Tok.FloatLiteral s => s = text \/ s = remove_underscores text
  | Tok.AddressLiteral s => s = text
  | Tok.StringLiteral _ => exists body, text = [QUOTE] ++ body ++ [QUOTE]
  | Tok.ByteStringLiteral _ => exists body, text = [ch "b"; QUOTE] ++ body ++ [QUOTE]
  | _ => text = display k
  end.

Definition good (before input : chars) (tok : Token) (l : Lexer) : Prop :=
  exists text rest, input = text ++ rest /\ text <> [] /\ at_text before text rest l /\
    tk_span tok = span_of before text /\ kind_text (tk_kind tok) text /\ tk_kind tok <> Tok.Eof.

Lemma wp_make_good k before input text rest l :
  at_text before text rest l -> input = text ++ rest -> text <> [] -> kind_text k text -> k <> Tok.Eof ->
  wp (make_token k) (good before input) l.
Proof. intros H Hi Hn Hk He. eapply wp_make_token; [done|]. exists text, rest. done. Qed.

Lemma wp_alt e yes other before text rest l (Q : Token -> Lexer -> Prop) :
  at_text before text rest l ->
  (forall rest' l', rest = e :: rest' -> at_text before (text ++ [e]) rest' l' -> wp yes Q l') ->
  (head rest <> Some e -> wp other Q l) -> wp (alt e yes other) Q l.
Proof. intros H Hy Hn. unfold alt. apply wp_bind. eapply wp_advance_if; [done|eauto|eauto]. Qed.

(** Operators: follow the characters, then compare the text with the display. *)
Ltac lex_op :=
  lazymatch goal with
  | H : at_text _ _ _ ?l |- wp (advance ;; _) _ ?l => apply wp_bind; eapply wp_advance; [exact H|]; clear H; intros ? H; lex_op
  | H : at_text _ _ _ ?l |- wp (alt _ _ _) _ ?l =>
    eapply wp_alt; [exact H|intros ? ? -> ?; clear H; lex_op|intros _; lex_op]
  | H : at_text _ _ _ ?l |- wp (make_token _) _ ?l => eapply wp_make_good; [exact H|reflexivity|done|reflexivity|done]
  end.

Lemma operator_good c lex before rest l :
  operator c = Some lex -> at_text before [] (c :: rest) l -> wp lex (good before (c :: rest)) l.
Proof.
  unfold operator. intros Hf H. destruct (List.find _ operators) as [[c' m]|] eqn:E; [|done]. injection Hf as ->.
  apply List.find_some in E as [Hin Hc]. apply Z.eqb_eq in Hc. simpl in Hc. subst c'.
  unfold operators, lex_single, lex_plus, lex_minus, lex_star, lex_slash, lex_percent, lex_eq, lex_bang, lex_lt, lex_gt,
    lex_ampersand, lex_pipe, lex_caret, lex_colon, lex_dot in Hin.
  repeat (destruct Hin as [[= <- <-]|Hin]; [lex_op|]). done.
Qed.

(** Reading goes on: some text [t] has been consumed. *)
Definition moved (before text rest : chars) (l : Lexer) : Prop :=
  exists t rest', rest = t ++ rest' /\ at_text before (text ++ t) rest' l.

Lemma moved_refl before text rest l : at_text before text rest l -> moved before text rest l.
Proof. intros H. exists [], rest. split; [done|]. by rewrite app_nil_r. Qed.

Lemma moved_cons before text c rest l : moved before (text ++ [c]) rest l -> moved before text (c :: rest) l.
Proof. intros (t & rest' & -> & H). exists (c :: t), rest'. split; [done|]. by rewrite <-(assoc_L app) in H. Qed.

(** A move that reads at least one character leaves a shorter rest. *)
Lemma moved_inv before text rest l :
  moved before text rest l -> exists t rest', rest = t ++ rest' /\ at_text before (text ++ t) rest' l /\ (length rest' <= length rest)%nat.
Proof. intros (t & rest' & -> & H). exists t, rest'. rewrite length_app. split_and!; [done..|lia]. Qed.

(** *** Strings *)

Lemma wp_read_hex_escape n v before text rest l :
  at_text before text rest l -> wp (read_hex_escape n v) (fun _ => moved before text rest) l.
Proof.
  revert v text rest l. induction n as [|n IH]; intros v text rest l H; simpl; [by apply wp_ret, moved_refl|].
  apply wp_bind. eapply wp_peek; [done|]. destruct rest as [|c rest]; [done|]. simpl. destruct (is_ascii_hexdigit c); [|done].
  apply wp_bind. eapply wp_advance; [done|]. intros l' H'. eapply wp_mono; [by apply IH|]. intros ? l'' Hm. by apply moved_cons.
Qed.

Lemma wp_unicode_escape n v k before text rest l :
  at_text before text rest l -> (length rest < n)%nat -> wp (unicode_escape_loop n v k) (fun _ => moved before text rest) l.
Proof.
  revert v k text rest l. induction n as [|n IH]; intros v k text rest l H Hn; [lia|]. simpl.
  apply wp_bind. eapply wp_peek; [done|]. destruct rest as [|c rest]; simpl; [by apply wp_ret, moved_refl|].
  destruct (c =? ch "}").
  { apply wp_bind. eapply wp_advance; [done|]. intros l' H'. by apply wp_ret, moved_cons, moved_refl. }
  destruct (is_ascii_hexdigit c); simpl; [|done]. apply wp_bind. eapply wp_advance; [done|]. intros l' H'.
  destruct (6 <? k + 1); [done|]. eapply wp_mono; [apply IH; [done|simpl in Hn; lia]|]. intros ? l'' Hm. by apply moved_cons.
Qed.

Lemma wp_string_escape a b before text rest l :
  at_text before text rest l -> wp (string_escape a b) (fun _ => moved before text rest) l.
Proof.
  intros H. unfold string_escape. apply wp_bind. eapply wp_peek; [done|]. destruct rest as [|c rest]; [done|]. cbn [head].
  destruct (simple_escape c).
  { apply wp_bind. eapply wp_advance; [done|]. intros l' H'. by apply wp_ret, moved_cons, moved_refl. }
  destruct (c =? ch "x").
  { apply wp_bind. eapply wp_advance; [done|]. intros l' H'. apply wp_bind. eapply wp_mono; [by apply wp_read_hex_escape|].
    intros x l'' Hm. by apply wp_ret, moved_cons. }
  destruct (c =? ch "u"); [|done]. apply wp_bind. eapply wp_advance; [done|]. intros l' H'. apply wp_bind.
  eapply wp_advance_if; [done| |done]. intros rest' l'' -> H''. apply wp_bind. unfold read_unicode_escape. apply wp_bind.
  eapply wp_chars_left; [done|]. eapply wp_mono; [apply wp_unicode_escape; [done|lia]|]. intros x l3 Hm.
  by apply wp_ret, moved_cons, moved_cons.
Qed.

Lemma wp_byte_escape a b before text rest l :
  at_text before text rest l -> wp (byte_escape a b) (fun _ => moved before text rest) l.
Proof.
  intros H. unfold byte_escape. apply wp_bind. eapply wp_peek; [done|]. destruct rest as [|c rest]; [done|]. cbn [head].
  destruct (simple_escape c).
  { apply wp_bind. eapply wp_advance; [done|]. intros l' H'. by apply wp_ret, moved_cons, moved_refl. }
  destruct (c =? ch "x"); [|done]. apply wp_bind. eapply wp_advance; [done|]. intros l' H'. apply wp_bind.
  eapply wp_mono; [by apply wp_read_hex_escape|]. intros x l'' Hm. by apply wp_ret, moved_cons.
Qed.

(** The body of a string and its closing quote. *)
Definition closed (before text rest : chars) (l : Lexer) : Prop :=
  exists body rest', rest = body ++ [QUOTE] ++ rest' /\ at_text before (text ++ body ++ [QUOTE]) rest' l.

Lemma closed_quote before text rest l : at_text before (text ++ [QUOTE]) rest l -> closed before text (QUOTE :: rest) l.
Proof. intros H. exists [], rest. done. Qed.

Lemma closed_app before text t rest l : closed before (text ++ t) rest l -> closed before text (t ++ rest) l.
Proof.
  intros (body & rest' & -> & H). exists (t ++ body), rest'. rewrite <-!(assoc_L app) in *. done.
Qed.

Lemma wp_string_loop n a b v before text rest l :
  at_text before text rest l -> (length rest < n)%nat -> wp (string_loop n a b v) (fun _ => closed before text rest) l.
Proof.
  revert v text rest l. induction n as [|n IH]; intros v text rest l H Hn; [lia|]. cbn [string_loop].
  apply wp_bind. eapply wp_peek; [done|]. destruct rest as [|c rest]; [done|]. simpl. simpl in Hn.
  destruct (c =? NEWLINE); [done|]. destruct (Z.eqb_spec c QUOTE) as [->|].
  { apply wp_bind. eapply wp_advance; [done|]. intros l' H'. by apply wp_ret, closed_quote. }
  destruct (c =? BACKSLASH); (apply wp_bind; eapply wp_advance; [done|]; intros l' H').
  - apply wp_bind. eapply wp_mono; [by apply wp_string_escape|]. intros x l'' (t & rest' & -> & Ht & Hle)%moved_inv.
    eapply wp_mono; [apply IH; [done|rewrite length_app in *; lia]|]. intros ? l3 Hc.
    apply (closed_app _ _ [c]). by apply closed_app.
  - eapply wp_mono; [apply IH; [done|lia]|]. intros ? l3 Hc. by apply (closed_app _ _ [c]).
Qed.

Lemma wp_byte_string_loop n a b v before text rest l :
  at_text before text rest l -> (length rest < n)%nat -> wp (byte_string_loop n a b v) (fun _ => closed before text rest) l.
Proof.
  revert v text rest l. induction n as [|n IH]; intros v text rest l H Hn; [lia|]. cbn [byte_string_loop].
  apply wp_bind. eapply wp_peek; [done|]. destruct rest as [|c rest]; [done|]. simpl. simpl in Hn.
  destruct (c =? NEWLINE); [done|]. destruct (Z.eqb_spec c QUOTE) as [->|].
  { apply wp_bind. eapply wp_advance; [done|]. intros l' H'. by apply wp_ret, closed_quote. }
  destruct (c =? BACKSLASH); [|destruct (c <? 128); [|done]]; (apply wp_bind; eapply wp_advance; [done|]; intros l' H').
  - apply wp_bind. eapply wp_mono; [by apply wp_byte_escape|]. intros x l'' (t & rest' & -> & Ht & Hle)%moved_inv.
    eapply wp_mono; [apply IH; [done|rewrite length_app in *; lia]|]. intros ? l3 Hc.
    apply (closed_app _ _ [c]). by apply closed_app.
  - eapply wp_mono; [apply IH; [done|lia]|]. intros ? l3 Hc. by apply (closed_app _ _ [c]).
Qed.

Lemma string_good before rest l :
  at_text before [] (QUOTE :: rest) l -> wp lex_string (good before (QUOTE :: rest)) l.
Proof.
  intros H. unfold lex_string. apply wp_bind, wp_gets, wp_bind. eapply wp_advance; [done|]. intros l1 H1.
  apply wp_bind. eapply wp_chars_left; [done|]. apply wp_bind. eapply wp_mono; [apply wp_string_loop; [done|lia]|].
  intros v l2 (body & rest' & -> & H2). eapply wp_make_good; [done|by simpl; rewrite <-(assoc_L app)|done|by exists body|done].
Qed.

Lemma byte_string_good before rest l :
  at_text before [] (ch "b" :: QUOTE :: rest) l -> wp lex_byte_string (good before (ch "b" :: QUOTE :: rest)) l.
Proof.
  intros H. unfold lex_byte_string. apply wp_bind, wp_gets, wp_bind. eapply wp_advance; [done|]. intros l1 H1.
  apply wp_bind. eapply wp_advance; [done|]. intros l2 H2.
  apply wp_bind. eapply wp_chars_left; [done|]. apply wp_bind. eapply wp_mono; [apply wp_byte_string_loop; [done|lia]|].
  intros v l3 (body & rest' & -> & H3). eapply wp_make_good; [done|by simpl; rewrite <-(assoc_L app)|done|by exists body|done].
Qed.

(** *** Identifiers and numbers *)

Lemma keyword_text text k : keyword_from_str text = Some k -> kind_text k text /\ k <> Tok.Eof.
Proof.
  unfold keyword_from_str. intros Hk. destruct (List.find _ keywords) as [[s k']|] eqn:E; [|done]. injection Hk as ->.
  apply List.find_some in E as [Hin Hs]. apply bool_decide_eq_true in Hs as <-. unfold keywords in Hin.
  repeat (destruct Hin as [[= <- <-]|Hin]; [split; [reflexivity|done]|]). done.
Qed.

Lemma identifier_good `{!UnicodeOk U} before c rest l :
  is_ident_start c = true -> at_text before [] (c :: rest) l -> wp lex_identifier (good before (c :: rest)) l.
Proof.
  intros Hc H. unfold lex_identifier. apply wp_bind. eapply wp_eat_while; [done|]. intros t rest' l' Ht Hall Hstop H'.
  assert (Hne : t <> []).
  { intros ->. simpl in Ht. subst rest'. specialize (Hstop c eq_refl). unfold is_ident_start, in_chars in Hc.
    apply orb_false_iff in Hstop as [Ha Hu]. rewrite Hu, orb_false_r in Hc.
    rewrite ascii_alphanumeric in Ha; [done|]. apply orb_true_iff in Hc as [Hc|Hc]; apply andb_true_iff in Hc as [?%Z.leb_le ?%Z.leb_le]; lia. }
  apply wp_bind. eapply wp_token_text; [done|]. simpl. destruct (keyword_from_str t) as [k|] eqn:Ek; simpl.
  - apply keyword_text in Ek as [Hk He]. by eapply wp_make_good.
  - by eapply wp_make_good.
Qed.

(** A number: reading goes on from a non-empty text. *)
Lemma number_done before input text rest l k :
  at_text before text rest l -> input = text ++ rest -> text <> [] ->
  (forall s, kind_text (k s) s) -> (forall s, k s <> Tok.Eof) -> wp (let! text := token_text in make_token (k text)) (good before input) l.
Proof. intros H Hi Hn Hk He. apply wp_bind. eapply wp_token_text; [done|]. by eapply wp_make_good. Qed.

Lemma wp_exponent before text rest l :
  at_text before text rest l -> rest <> [] -> wp lex_exponent (fun _ => moved before text rest) l.
Proof.
  intros H Hne. unfold lex_exponent. destruct rest as [|c rest]; [done|]. apply wp_bind. eapply wp_advance; [done|]. intros l1 H1.
  apply wp_bind. eapply wp_peek; [done|]. apply wp_bind. destruct (bool_decide _ || bool_decide _) eqn:E.
  - destruct rest as [|d rest]; [done|]. eapply wp_advance; [done|]. intros l2 H2. eapply wp_eat_while; [done|].
    intros t rest' l' -> _ _ H'. exists (c :: d :: t), rest'. split; [done|]. by rewrite <-!(assoc_L app) in H'.
  - apply wp_ret. eapply wp_eat_while; [done|]. intros t rest' l' -> _ _ H'. exists (c :: t), rest'. split; [done|].
    by rewrite <-!(assoc_L app) in H'.
Qed.

Lemma wp_at_exponent before text rest l (Q : bool -> Lexer -> Prop) :
  at_text before text rest l -> (forall b, (b = true -> rest <> []) -> Q b l) -> wp at_exponent Q l.
Proof.
  intros H HQ. unfold at_exponent. apply wp_bind. eapply wp_peek; [done|]. apply wp_ret, HQ. by destruct rest.
Qed.

Lemma float_done before input text rest l :
  at_text before text rest l -> input = text ++ rest -> text <> [] ->
  wp (let! text := token_text in make_token (Tok.FloatLiteral (remove_underscores text))) (good before input) l.
Proof. intros H Hi Hn. eapply (number_done _ _ _ _ _ (fun s => Tok.FloatLiteral (remove_underscores s))); try done. by right. Qed.

Lemma decimal_good before c rest l :
  is_ascii_digit c = true -> at_text before [] (c :: rest) l -> wp lex_decimal_number (good before (c :: rest)) l.
Proof.
  intros Hc H. unfold lex_decimal_number. apply wp_bind. eapply wp_eat_while; [done|]. intros t r1 l1 Ht _ Hstop H1. simpl in H1.
  assert (Hne : t <> []).
  { intros ->. simpl in Ht. subst r1. specialize (Hstop c eq_refl). unfold is_digit_or_underscore in Hstop. by rewrite Hc in Hstop. }
  apply wp_bind. eapply wp_peek; [done|]. apply wp_bind. eapply (wp_mono _ (fun b l => l = l1 /\ (b = true -> r1 <> []))).
  { case_bool_decide as Hd; [|by apply wp_ret]. apply wp_bind. eapply wp_peek_nth; [done|]. apply wp_ret. by destruct r1. }
  intros fraction l2 [-> Hf]. destruct fraction.
  - destruct r1 as [|d r1]; [by specialize (Hf eq_refl)|]. apply wp_bind. eapply wp_advance; [done|]. intros l2 H2.
    apply wp_bind. eapply wp_eat_while; [done|]. intros t2 r2 l3 -> _ _ H3. apply wp_bind. eapply wp_at_exponent; [done|].
    intros e He. apply wp_bind. eapply (wp_mono _ (fun _ => moved before ((t ++ [d]) ++ t2) r2)).
    { destruct e; [by eapply wp_exponent; [|apply He]|by apply wp_ret, moved_refl]. }
    intros ? l4 (t3 & r3 & -> & H4). eapply float_done; [done|by rewrite Ht, <-!(assoc_L app)|by destruct t].
  - apply wp_bind. eapply wp_at_exponent; [done|]. intros e He. destruct e.
    + apply wp_bind. eapply wp_mono; [by eapply wp_exponent; [|apply He]|]. intros ? l4 (t3 & r3 & -> & H4).
      eapply float_done; [done|by rewrite Ht, <-!(assoc_L app)|by destruct t].
    + eapply (number_done _ _ _ _ _ (fun s => Tok.IntLiteral (remove_underscores s))); try done. by right.
Qed.

Lemma radix_good p before a b rest l :
  at_text before [] (a :: b :: rest) l ->
  wp (advance ;; advance ;; eat_while p ;; let! text := token_text in make_token (Tok.IntLiteral text)) (good before (a :: b :: rest)) l.
Proof.
  intros H. apply wp_bind. eapply wp_advance; [done|]. intros l1 H1. apply wp_bind. eapply wp_advance; [done|]. intros l2 H2.
  apply wp_bind. eapply wp_eat_while; [done|]. intros t r l3 -> _ _ H3.
  eapply (number_done _ _ _ _ _ Tok.IntLiteral); try done. by left.
Qed.

Lemma hex_good before a b rest l :
  at_text before [] (a :: b :: rest) l -> wp lex_hex_number (good before (a :: b :: rest)) l.
Proof.
  intros H. unfold lex_hex_number. apply wp_bind. eapply wp_advance; [done|]. intros l1 H1. apply wp_bind. eapply wp_advance; [done|].
  intros l2 H2. apply wp_bind, wp_gets, wp_bind. eapply wp_eat_while; [done|]. intros t r l3 -> _ _ H3.
  apply wp_bind, wp_gets, wp_bind. eapply wp_or_panic.
  { unfold id. rewrite (at_pos _ _ _ _ H2), (at_pos _ _ _ _ H3), (at_source _ _ _ _ H3).
    pose proof (str_slice_app (before ++ [a] ++ [b]) t r) as Hs. rewrite <-!(assoc_L app) in Hs |- *. exact Hs. }
  apply wp_bind. eapply wp_token_text; [done|]. destruct (_ =? 40); (eapply wp_make_good; [done|done|done| |done]); [done|by left].
Qed.

Lemma number_good before c rest l :
  is_ascii_digit c = true -> at_text before [] (c :: rest) l -> wp lex_number (good before (c :: rest)) l.
Proof.
  intros Hc H. unfold lex_number. apply wp_bind. eapply wp_peek; [done|]. pose proof (decimal_good before c rest l Hc H) as Hdec.
  case_bool_decide as H0; [|done]. apply wp_bind. eapply wp_peek_nth; [done|].
  destruct rest as [|d rest]; [done|]. simpl lookup.
  destruct (bool_decide _ || bool_decide _); [by apply hex_good|].
  destruct (bool_decide _ || bool_decide _); [by apply radix_good|].
  destruct (bool_decide _ || bool_decide _); [by apply radix_good|done].
Qed.

(** ** The whole lexer *)

Lemma wp_mark (Q : unit -> Lexer -> Prop) before text rest l :
  at_text before text rest l -> (forall l', at_text (before ++ text) [] rest l' -> Q tt l') -> wp mark_token_start Q l.
Proof.
  intros [] HQ. apply wp_modify, HQ. split; simpl; rewrite ?app_nil_r; try done. by rewrite at_source0, (assoc_L app).
Qed.

Definition next_ok (before rest : chars) (tok : Token) (l : Lexer) : Prop :=
  exists triv rest', rest = triv ++ rest' /\ trivia triv /\
    ((rest' = [] /\ tok = mkToken Tok.Eof (span_of (before ++ triv) []) /\ at_text (before ++ triv) [] [] l) \/
     good (before ++ triv) rest' tok l).

Lemma next_token_ok `{!UnicodeOk U} before text rest l :
  at_text before text rest l -> wp next_token (next_ok (before ++ text) rest) l.
Proof.
  intros H. unfold next_token. apply wp_bind. unfold skip_whitespace_and_comments. apply wp_bind. eapply wp_chars_left; [done|].
  eapply wp_skip_loop; [done|lia|]. intros triv rest' l1 -> Ht H1. apply wp_bind. eapply wp_mark; [done|]. intros l2 H2.
  rewrite (assoc_L app) in H2. apply wp_bind. eapply wp_peek; [done|]. destruct rest' as [|c rest']; simpl head.
  { eapply wp_make_token; [done|]. exists triv, []. split_and!; [done..|]. by left. }
  eapply (wp_mono _ (good ((before ++ text) ++ triv) (c :: rest')));
    [|by intros tok l' Hg; exists triv, (c :: rest'); split_and!; [done..|]; right].
  apply wp_bind. eapply (wp_mono _ (fun b l => l = l2 /\ (b = true -> c = ch "b" /\ head rest' = Some QUOTE))).
  { destruct (Z.eqb_spec c (ch "b")); [|by apply wp_ret]. apply wp_bind. eapply wp_peek_nth; [done|]. apply wp_ret.
    split; [done|]. intros Hb%bool_decide_eq_true. split; [done|]. by destruct rest'. }
  intros byte l3 [-> Hb]. destruct byte.
  { destruct (Hb eq_refl) as [-> Hq]. destruct rest' as [|q rest']; [done|]. injection Hq as ->. by apply byte_string_good. }
  destruct (is_ident_start c) eqn:Ei; [by apply identifier_good|]. destruct (is_ascii_digit c) eqn:Ed; [by apply number_good|].
  destruct (Z.eqb_spec c QUOTE) as [->|]; [by apply string_good|]. destruct (operator c) eqn:Eo; [by eapply operator_good|apply wp_fail_here].
Qed.

(** The tokens of a text: [before] has been cut already. *)
Inductive tokens_of : chars -> chars -> list Token -> Prop :=
| tokens_eof before triv :
    trivia triv -> tokens_of before triv [mkToken Tok.Eof (span_of (before ++ triv) [])]
| tokens_cons before triv text rest tok toks :
    trivia triv -> text <> [] -> kind_text (tk_kind tok) text -> tk_kind tok <> Tok.Eof ->
    tk_span tok = span_of (before ++ triv) text -> tokens_of (before ++ triv ++ text) rest toks ->
    tokens_of before (triv ++ text ++ rest) (tok :: toks).

Lemma tokenize_loop_ok `{!UnicodeOk U} n acc before text rest l :
  at_text before text rest l -> (length rest < n)%nat ->
  wp (tokenize_loop n acc) (fun toks _ => exists new, toks = acc ++ new /\ tokens_of (before ++ text) rest new) l.
Proof.
  revert acc before text rest l. induction n as [|n IH]; intros acc before text rest l H Hn; [lia|]. simpl.
  apply wp_bind. eapply wp_mono; [by apply next_token_ok|]. intros tok l1 (triv & rest' & -> & Ht & [(-> & -> & H1)|Hg]).
  - simpl. apply wp_ret. eexists. split; [done|]. rewrite app_nil_r. by constructor.
  - destruct Hg as (t & rest2 & -> & Hne & H1 & Hs & Hk & He). rewrite bool_decide_eq_false_2 by done.
    eapply wp_mono; [apply (IH (acc ++ [tok]) _ _ _ _ H1)|].
    + rewrite !length_app in Hn. destruct t; [done|]. simpl in Hn. lia.
    + intros toks l2 (new & -> & Hnew). exists (tok :: new). split; [by rewrite <-(assoc_L app)|].
      constructor; try done. by rewrite (assoc_L app).
Qed.

Lemma new_at source : at_text [] [] source (lexer_new source).
Proof. by split. Qed.
End lexer_rules.
