(* ===== verification/QscParserTheory.v ===== *)
(** * Theory of the parser: progress

    Every nonterminal returns: it neither panics nor runs out of fuel on tokens
    that end with the end of file, it consumes the tokens it must, and it does
    not change the list of the tokens. *)

From stdpp Require Import strings.
From S2P Require Import Prelude QscTokens QscAst QscParser Wp.

(** ** States *)

Section progress.
Context (toks : list Token).

Definition ends_eof (tokens : list Token) : Prop := exists t, last tokens = Some t /\ tk_kind t = Tok.Eof.
Record wf (p : Parser) : Prop := {
  wf_pos : (ps_pos p < length (ps_tokens p))%nat;
  wf_eof : ends_eof (ps_tokens p);
  wf_tokens : ps_tokens p = toks;
}.
(** The tokens from the current one on. *)
Definition left (p : Parser) : nat := length (ps_tokens p) - ps_pos p.
Definition at_kind (p : Parser) (k : TokenKind) : Prop := exists t, ps_tokens p !! ps_pos p = Some t /\ tk_kind t = k.
Definition solid (k : TokenKind) : Prop := discriminant k <> discriminant Tok.Eof.

(** [m] returns when at most [n] tokens are left, and eats at least [k] of them. *)
Definition eats {A} (n k : nat) (m : PR A) : Prop :=
  forall p, wf p -> (left p <= n)%nat -> wp m (fun _ p' => wf p' /\ (left p' + k <= left p)%nat) p.

Lemma left_pos p : wf p -> (1 <= left p)%nat.
Proof. intros []. unfold left. lia. Qed.

Lemma eats_mono {A} n k n' k' (m : PR A) : eats n k m -> (n' <= n)%nat -> (k' <= k)%nat -> eats n' k' m.
Proof. intros H Hn Hk p Hw Hl. eapply wp_mono; [apply H; [done|lia]|]. intros ? p' [? ?]. split; [done|lia]. Qed.

Lemma wp_eats {A} n k (m : PR A) (Q : A -> Parser -> Prop) p :
  eats n k m -> wf p -> (left p <= n)%nat ->
  (forall a p', wf p' -> (left p' + k <= left p)%nat -> Q a p') -> wp m Q p.
Proof. intros H Hw Hl HQ. eapply wp_mono; [by apply H|]. intros a p' [? ?]. by apply HQ. Qed.

(** ** The helpers *)

Lemma wp_current (Q : Token -> Parser -> Prop) p :
  wf p -> (forall t, ps_tokens p !! ps_pos p = Some t -> Q t p) -> wp current Q p.
Proof.
  intros [Hp _ _] HQ. unfold current. apply wp_bind, wp_gets. destruct (lookup_lt_is_Some_2 _ _ Hp) as [t Ht].
  eapply wp_or_panic; [unfold id; by rewrite Ht|by apply HQ].
Qed.

Lemma wp_current_kind (Q : TokenKind -> Parser -> Prop) p :
  wf p -> (forall k, at_kind p k -> Q k p) -> wp current_kind Q p.
Proof. intros Hw HQ. unfold current_kind. apply wp_bind, wp_current; [done|]. intros t Ht. apply wp_ret, HQ. by exists t. Qed.

Lemma wp_current_span (Q : Span -> Parser -> Prop) p : wf p -> (forall s, Q s p) -> wp current_span Q p.
Proof. intros Hw HQ. unfold current_span. apply wp_bind, wp_current; [done|]. intros t Ht. apply wp_ret, HQ. Qed.

Lemma wp_span_from s (Q : Span -> Parser -> Prop) p : wf p -> (forall s, Q s p) -> wp (span_from s) Q p.
Proof. intros Hw HQ. unfold span_from. apply wp_bind, wp_current_span; [done|]. intros s'. by apply wp_ret. Qed.

Lemma wp_next_id (Q : Z -> Parser -> Prop) p :
  wf p -> (forall id p', wf p' -> left p' = left p -> Q id p') -> wp next_id Q p.
Proof. intros [] HQ. unfold next_id. apply wp_bind, wp_gets, wp_bind, wp_modify, wp_ret, HQ; done. Qed.

Lemma wp_tokens_left (Q : nat -> Parser -> Prop) p : Q (S (left p)) p -> wp tokens_left Q p.
Proof. done. Qed.

Lemma wp_fail_at {A} e (Q : A -> Parser -> Prop) p : wf p -> wp (fail_at e) Q p.
Proof. intros Hw. unfold fail_at. apply wp_bind, wp_current_span; [done|]. intros s. apply wp_fail. Qed.

Lemma wp_unexpected {A} e (Q : A -> Parser -> Prop) p : wf p -> wp (unexpected e) Q p.
Proof.
  intros Hw. unfold unexpected. apply wp_bind, wp_current_span; [done|]. intros s.
  apply wp_bind, wp_current_kind; [done|]. intros k _. apply wp_fail.
Qed.

(** The position moves unless it is at the last token, which is the end of file. *)
Lemma wp_advance_token k (Q : Token -> Parser -> Prop) p :
  wf p -> at_kind p k -> solid k -> (forall t p', wf p' -> (left p' + 1 <= left p)%nat -> Q t p') -> wp advance_token Q p.
Proof.
  intros [Hp He Htk] (t & Ht & Hk) Hs HQ. unfold advance_token. apply wp_bind, wp_current; [done|]. intros t' Ht'.
  apply wp_bind, wp_modify, wp_ret, HQ; destruct (Nat.ltb_spec (ps_pos p) (length (ps_tokens p) - 1)) as [Hlt|Hge].
  - split; simpl; [lia|done|done].
  - split; done.
  - unfold left. simpl. lia.
  - exfalso. destruct He as (e & Hl & Hke). rewrite last_lookup in Hl.
    replace (pred (length (ps_tokens p))) with (ps_pos p) in Hl by lia. rewrite Ht in Hl. injection Hl as ->.
    apply Hs. by rewrite <-Hk, Hke.
Qed.

Lemma wp_check k (Q : bool -> Parser -> Prop) p :
  wf p -> solid k -> (forall b, (b = true -> exists k', at_kind p k' /\ solid k') -> Q b p) -> wp (check k) Q p.
Proof.
  intros Hw Hs HQ. unfold check. apply wp_bind, wp_current_kind; [done|]. intros k' Hk. apply wp_ret, HQ.
  intros E%Z.eqb_eq. exists k'. split; [done|]. unfold solid. by rewrite E.
Qed.

Lemma wp_check_keyword k (Q : bool -> Parser -> Prop) p :
  wf p -> (forall b, (b = true -> at_kind p k) -> Q b p) -> wp (check_keyword k) Q p.
Proof.
  intros Hw HQ. unfold check_keyword. apply wp_bind, wp_current_kind; [done|]. intros k' Hk. apply wp_ret, HQ.
  by intros ->%bool_decide_eq_true.
Qed.

Lemma wp_is_eof (Q : bool -> Parser -> Prop) p : wf p -> (forall b, Q b p) -> wp is_eof Q p.
Proof. intros Hw HQ. unfold is_eof. apply wp_bind, wp_current_kind; [done|]. intros k' Hk. by apply wp_ret. Qed.

Lemma wp_eat k (Q : bool -> Parser -> Prop) p :
  wf p -> solid k ->
  (forall p', wf p' -> (left p' + 1 <= left p)%nat -> Q true p') -> Q false p -> wp (eat k) Q p.
Proof.
  intros Hw Hs Hy Hn. unfold eat. apply wp_bind, wp_check; [done|done|]. intros [] Hb; [|by apply wp_ret].
  destruct (Hb eq_refl) as (k' & Hk & Hsk). apply wp_bind. eapply wp_advance_token; [done..|]. intros t p' Hw' Hl.
  by apply wp_ret, Hy.
Qed.

Lemma eats_expect n k : solid k -> eats n 1 (expect k).
Proof.
  intros Hs p Hw _. unfold expect. apply wp_bind, wp_check; [done|done|]. intros [] Hb; [|by apply wp_unexpected].
  destruct (Hb eq_refl) as (k' & Hk & Hsk). by eapply wp_advance_token.
Qed.

Lemma eats_expect_identifier n : eats n 1 expect_identifier.
Proof.
  intros p Hw _. unfold expect_identifier. apply wp_bind, wp_current_kind; [done|]. intros k Hk.
  destruct k; try (by apply wp_fail_at). apply wp_bind, wp_current_span; [done|]. intros s'. apply wp_bind.
  eapply wp_advance_token; [done..|]. intros t p' Hw' Hl. by apply wp_ret.
Qed.

Lemma eats_visibility n : eats n 0 parse_visibility.
Proof.
  intros p Hw _. unfold parse_visibility. apply wp_bind, wp_eat; [done|done| |].
  - intros p' Hw' Hl. apply wp_ret. split; [done|lia].
  - apply wp_ret. split; [done|lia].
Qed.

(** ** Loops *)

Lemma eats_many_eat {A} n k sep (item : PR A) acc : solid sep -> eats n k item -> eats (S n) 0 (many_eat sep item acc).
Proof.
  intros Hs Hi p Hw Hl. unfold many_eat. apply wp_bind, wp_tokens_left.
  enough (forall m acc p, wf p -> (left p <= S n)%nat -> (left p < m)%nat ->
    wp (eat_loop m sep item acc) (fun _ p' => wf p' /\ (left p' + 0 <= left p)%nat) p) as Hm by (apply Hm; [done|lia|lia]).
  clear Hw Hl p. intros m. induction m as [|m IH]; intros acc' p Hw Hl Hm; [lia|]. simpl.
  apply wp_bind, wp_eat; [done|done| |by apply wp_ret; split; [|lia]]. intros p' Hw' Hl'. apply wp_bind.
  eapply wp_eats; [exact Hi|done|lia|]. intros x p'' Hw'' Hl''. eapply wp_mono; [apply IH; try done; lia|].
  intros ? p3 [? ?]. split; [done|lia].
Qed.

Lemma eats_many_trailing {A} n k sep close (item : PR A) acc :
  solid sep -> solid close -> eats n k item -> eats (S n) 0 (many_trailing sep close item acc).
Proof.
  intros Hs Hc Hi p Hw Hl. unfold many_trailing. apply wp_bind, wp_tokens_left.
  enough (forall m acc p, wf p -> (left p <= S n)%nat -> (left p < m)%nat ->
    wp (trailing_loop m sep close item acc) (fun _ p' => wf p' /\ (left p' + 0 <= left p)%nat) p) as Hm by (apply Hm; [done|lia|lia]).
  clear Hw Hl p. intros m. induction m as [|m IH]; intros acc' p Hw Hl Hm; [lia|]. simpl.
  apply wp_bind, wp_eat; [done|done| |by apply wp_ret; split; [|lia]]. intros p' Hw' Hl'. apply wp_bind, wp_check; [done|done|].
  intros [] _; [apply wp_ret; split; [done|lia]|]. apply wp_bind.
  eapply wp_eats; [exact Hi|done|lia|]. intros x p'' Hw'' Hl''. eapply wp_mono; [apply IH; try done; lia|].
  intros ? p3 [? ?]. split; [done|lia].
Qed.

Lemma eats_list_trailing {A} n k sep close (item : PR A) :
  solid sep -> solid close -> eats n k item -> eats n 0 (list_trailing sep close item).
Proof.
  intros Hs Hc Hi p Hw Hl. unfold list_trailing. apply wp_bind, wp_check; [done|done|]. intros [] _; [apply wp_ret; split; [done|lia]|].
  apply wp_bind. eapply wp_eats; [exact Hi|done|lia|]. intros x p' Hw' Hl'.
  eapply wp_eats; [by apply (eats_many_trailing n k)|done|lia|]. intros ? p'' ? ?. split; [done|lia].
Qed.

Lemma eats_until_brace {A} n k (item : PR A) : eats n (S k) item -> eats n 0 (until_brace item).
Proof.
  intros Hi p Hw Hl. unfold until_brace. apply wp_bind, wp_tokens_left.
  enough (forall m acc p, wf p -> (left p <= n)%nat -> (left p < m)%nat ->
    wp (until_brace_loop m item acc) (fun _ p' => wf p' /\ (left p' + 0 <= left p)%nat) p) as Hm by (apply Hm; [done|lia|lia]).
  clear Hw Hl p. intros m. induction m as [|m IH]; intros acc' p Hw Hl Hm; [lia|]. simpl.
  apply wp_bind, wp_check; [done|done|]. intros [] _; [apply wp_ret; split; [done|lia]|].
  apply wp_bind, wp_is_eof; [done|]. intros []; [apply wp_ret; split; [done|lia]|]. apply wp_bind.
  eapply wp_eats; [exact Hi|done|lia|]. intros x p'' Hw'' Hl''. eapply wp_mono; [apply IH; try done; lia|].
  intros ? p3 [? ?]. split; [done|lia].
Qed.

Lemma eats_eat_opt {A} n i k (item : PR A) : solid k -> eats n i item -> eats (S n) 0 (eat_opt k item).
Proof.
  intros Hs Hi p Hw Hl. unfold eat_opt. apply wp_bind, wp_eat; [done|done| |by apply wp_ret; split; [|lia]].
  intros p' Hw' Hl'. apply wp_bind. eapply wp_eats; [exact Hi|done|lia|]. intros x p'' Hw'' Hl''. apply wp_ret. split; [done|lia].
Qed.

(** A loop with fuel for the tokens left. *)
Definition fueled {A} (n fuel k : nat) (m : PR A) : Prop :=
  forall p, wf p -> (left p <= n)%nat -> (left p < fuel)%nat -> wp m (fun _ p' => wf p' /\ (left p' + k <= left p)%nat) p.
Lemma wp_fueled {A} n fuel k (m : PR A) (Q : A -> Parser -> Prop) p :
  fueled n fuel k m -> wf p -> (left p <= n)%nat -> (left p < fuel)%nat ->
  (forall a p', wf p' -> (left p' + k <= left p)%nat -> Q a p') -> wp m Q p.
Proof. intros H Hw Hl Hf HQ. eapply wp_mono; [by apply H|]. intros a p' [? ?]. by apply HQ. Qed.

(** A nonterminal that is called at a token of a known kind. *)
Definition eats_at {A} (n : nat) (k : TokenKind) (m : PR A) : Prop :=
  forall p, wf p -> (left p <= n)%nat -> at_kind p k -> wp m (fun _ p' => wf p' /\ (left p' + 1 <= left p)%nat) p.
Lemma wp_eats_at {A} n k (m : PR A) (Q : A -> Parser -> Prop) p :
  eats_at n k m -> wf p -> (left p <= n)%nat -> at_kind p k ->
  (forall a p', wf p' -> (left p' + 1 <= left p)%nat -> Q a p') -> wp m Q p.
Proof. intros H Hw Hl Hk HQ. eapply wp_mono; [by apply H|]. intros a p' [? ?]. by apply HQ. Qed.

Create HintDb parse.
#[local] Hint Extern 0 (solid _) => done : parse.
#[local] Hint Resolve eats_expect eats_expect_identifier eats_visibility eats_many_eat eats_many_trailing eats_list_trailing
  eats_until_brace eats_eat_opt : parse.

Ltac pleaf := split; [assumption|lia].
(** One step of a parser that does not branch on the kind of a token. *)
Ltac pstep :=
  cbv beta zeta; cbn [orb andb negb];
  lazymatch goal with
  | |- wf _ /\ _ => pleaf
  | |- wp (bind _ _) _ _ => apply wp_bind
  | |- wp (ret _) _ _ => apply wp_ret
  | |- wp (fail _) _ _ => apply wp_fail
  | |- wp (fail_at _) _ _ => apply wp_fail_at; assumption
  | |- wp (unexpected _) _ _ => apply wp_unexpected; assumption
  | |- wp current_span _ _ => apply wp_current_span; [assumption|intros ?]
  | |- wp (span_from _) _ _ => apply wp_span_from; [assumption|intros ?]
  | |- wp current_kind _ _ => apply wp_current_kind; [assumption|intros ? ?]
  | |- wp next_id _ _ => apply wp_next_id; [assumption|intros ? ? ? ?]
  | |- wp is_eof _ _ => apply wp_is_eof; [assumption|intros []]
  | |- wp (check _) _ _ =>
    let Hb := fresh in
    apply wp_check; [assumption|done|intros [] Hb; [destruct (Hb eq_refl) as (? & ? & ?)|clear Hb]]
  | |- wp (check_keyword _) _ _ =>
    let Hb := fresh in
    apply wp_check_keyword; [assumption|intros [] Hb; [specialize (Hb eq_refl)|clear Hb]]
  | |- wp (eat _) _ _ => apply wp_eat; [assumption|done|intros ? ? ?|]
  | |- wp tokens_left _ _ => apply wp_tokens_left
  | |- wp advance_token _ ?p =>
    match goal with
    | H : at_kind p ?k |- _ => apply (wp_advance_token k); [assumption|exact H|first [assumption|done]|intros ? ? ? ?]
    end
  | |- wp (if ?b then _ else _) _ _ => destruct b
  | |- wp _ _ _ =>
    first [eapply wp_eats; [solve [eauto with parse nocore]|assumption|first [apply Nat.le_refl|apply Nat.le_succ_diag_r|lia]|intros ? ? ? ?]
          |match goal with
           | H : at_kind ?p ?k |- wp _ _ ?p =>
             eapply (wp_eats_at _ k); [solve [eauto with parse nocore]|assumption|first [apply Nat.le_refl|lia]|exact H|intros ? ? ? ?]
           end
          |eapply wp_fueled; [solve [eauto with parse nocore]|assumption|first [apply Nat.le_refl|lia]|lia|intros ? ? ? ?]]
  end.
Ltac psteps := repeat pstep.
Ltac pstart := let p := fresh "p" in intros p ? ?.

(** ** The nonterminals *)

Record rec_good (n : nat) (R : Rec) : Prop := {
  good_type : eats n 1 (r_type R);
  good_pattern : eats n 1 (r_pattern R);
  good_expr : forall min_prec, eats n 1 (r_expr R min_prec);
  good_unary : eats n 1 (r_unary R);
  good_if : eats n 1 (r_if R);
}.
#[local] Hint Resolve good_type good_pattern good_expr good_unary good_if : parse.

Section nonterminals.
Context (n : nat) (R : Rec) (HR : rec_good n R).

Lemma eats_path_segment : eats (S n) 1 (parse_path_segment R).
Proof using HR. pstart. unfold parse_path_segment. psteps. Qed.
#[local] Hint Resolve eats_path_segment : parse.
Lemma eats_type_path : eats (S n) 1 (parse_type_path R).
Proof using HR. pstart. unfold parse_type_path. psteps. Qed.
#[local] Hint Resolve eats_type_path : parse.

Ltac pat := let p := fresh "p" in intros p ? ? ?.
Lemma eats_at_mapping k : solid k -> eats_at (S n) k (parse_mapping_type R).
Proof using HR. intros ?. pat. unfold parse_mapping_type. psteps. Qed.
Lemma eats_at_angle k mk : solid k -> eats_at (S n) k (parse_angle_type R mk).
Proof using HR. intros ?. pat. unfold parse_angle_type. psteps. Qed.
Lemma eats_at_result k : solid k -> eats_at (S n) k (parse_result_type R).
Proof using HR. intros ?. pat. unfold parse_result_type. psteps. Qed.
Lemma eats_at_reference k : solid k -> eats_at (S n) k (parse_reference_type R).
Proof using HR. intros ?. pat. unfold parse_reference_type. psteps. Qed.
Lemma eats_at_array k : solid k -> eats_at (S n) k (parse_array_type R).
Proof using HR. intros ?. pat. unfold parse_array_type. psteps. Qed.
Lemma eats_at_tuple k : solid k -> eats_at (S n) k (parse_tuple_type R).
Proof using HR. intros ?. pat. unfold parse_tuple_type. psteps. Qed.
Lemma eats_at_function k : solid k -> eats_at (S n) k (parse_function_type R).
Proof using HR. intros ?. pat. unfold parse_function_type. psteps. Qed.
#[local] Hint Resolve eats_at_mapping eats_at_angle eats_at_result eats_at_reference eats_at_array eats_at_tuple eats_at_function : parse.

(** All the kinds a nonterminal branches on. *)
Ltac pkinds k := destruct k; try (apply wp_fail_at; assumption); try (apply wp_unexpected; assumption); try (apply wp_fail).

Ltac pbranch := match goal with k : TokenKind |- _ => pkinds k end; psteps.

Lemma primitive_solid k pt : primitive_of k = Some pt -> solid k.
Proof using. by destruct k. Qed.
Lemma eats_at_type_kind k : eats_at (S n) k (parse_type_kind R k).
Proof using HR.
  pat. unfold parse_type_kind. destruct (primitive_of k) as [pt|] eqn:E; [apply primitive_solid in E; psteps|].
  pkinds k; try discriminate; psteps.
Qed.
#[local] Hint Resolve eats_at_type_kind : parse.
Lemma eats_type : eats (S n) 1 (parse_type R).
Proof using HR. pstart. unfold parse_type. psteps. Qed.
#[local] Hint Resolve eats_type : parse.

(** *** Patterns *)

Lemma fueled_field_patterns m acc : fueled n m 0 (field_patterns_loop R m acc).
Proof using HR.
  revert acc. induction m as [|m IH]; intros acc p Hw Hl Hm; [lia|]. simpl. psteps.
Qed.
#[local] Hint Resolve fueled_field_patterns : parse.
Lemma eats_field_patterns : eats n 0 (parse_field_patterns R).
Proof using HR. pstart. unfold parse_field_patterns. psteps. Qed.
#[local] Hint Resolve eats_field_patterns : parse.
Lemma eats_at_name_pattern k name start : solid k -> eats_at (S n) k (parse_name_pattern R name start).
Proof using HR. intros ?. pat. unfold parse_name_pattern. psteps. Qed.
Lemma eats_at_tuple_pattern k : solid k -> eats_at (S n) k (parse_tuple_pattern R).
Proof using HR. intros ?. pat. unfold parse_tuple_pattern. psteps. Qed.
#[local] Hint Resolve eats_at_name_pattern eats_at_tuple_pattern : parse.
Lemma eats_at_pattern_kind k start : eats_at (S n) k (parse_pattern_kind R k start).
Proof using HR. pat. unfold parse_pattern_kind. pkinds k; psteps. Qed.
#[local] Hint Resolve eats_at_pattern_kind : parse.
Lemma fueled_alternatives m acc : fueled n m 0 (alternatives_loop R m acc).
Proof using HR. revert acc. induction m as [|m IH]; intros acc p Hw Hl Hm; [lia|]. simpl. psteps. Qed.
#[local] Hint Resolve fueled_alternatives : parse.
Lemma eats_pattern : eats (S n) 1 (parse_pattern R).
Proof using HR. pstart. unfold parse_pattern. psteps. Qed.
#[local] Hint Resolve eats_pattern : parse.

(** *** Statements *)

Lemma eats_local_stmt : eats (S n) 1 (parse_local_stmt R).
Proof using HR. pstart. unfold parse_local_stmt. psteps. Qed.
#[local] Hint Resolve eats_local_stmt : parse.
Lemma eats_stmt : eats n 1 (parse_stmt R).
Proof using HR.
  pstart. unfold parse_stmt. do 5 pstep. pbranch.
Qed.
#[local] Hint Resolve eats_stmt : parse.
Lemma eats_block : eats (S n) 1 (parse_block R).
Proof using HR. pstart. unfold parse_block. psteps. Qed.
#[local] Hint Resolve eats_block : parse.

(** *** Expressions *)

Lemma eats_finish i start kind : eats i 0 (finish start kind).
Proof using. pstart. unfold finish. psteps. Qed.
#[local] Hint Resolve eats_finish : parse.
Lemma eats_call_args : eats (n) 0 (parse_call_args R).
Proof using HR. pstart. unfold parse_call_args. psteps. Qed.
#[local] Hint Resolve eats_call_args : parse.
Lemma fueled_field_inits m (acc : list FieldInit) : fueled (n) m 0 (field_inits_loop R m acc).
Proof using HR. revert acc. induction m as [|m IH]; intros acc p Hw Hl Hm; [lia|]. simpl. psteps. Qed.
#[local] Hint Resolve fueled_field_inits : parse.
Lemma eats_field_inits : eats (n) 0 (parse_field_inits R).
Proof using HR. pstart. unfold parse_field_inits. psteps. Qed.
#[local] Hint Resolve eats_field_inits : parse.
Lemma eats_path_expr : eats (S n) 1 (parse_path_expr R).
Proof using HR. pstart. unfold parse_path_expr. do 5 pstep. pbranch. Qed.
#[local] Hint Resolve eats_path_expr : parse.
Lemma eats_if_expr : eats (S n) 1 (parse_if_expr R).
Proof using HR. pstart. unfold parse_if_expr. psteps. Qed.
#[local] Hint Resolve eats_if_expr : parse.
Lemma eats_match_arm : eats (n) 1 (parse_match_arm R).
Proof using HR. pstart. unfold parse_match_arm. psteps. Qed.
#[local] Hint Resolve eats_match_arm : parse.
Lemma eats_match_expr : eats (S n) 1 (parse_match_expr R).
Proof using HR. pstart. unfold parse_match_expr. psteps. Qed.
#[local] Hint Resolve eats_match_expr : parse.
Lemma eats_for_expr : eats (S n) 1 (parse_for_expr R).
Proof using HR. pstart. unfold parse_for_expr. psteps. Qed.
#[local] Hint Resolve eats_for_expr : parse.
Lemma eats_while_expr : eats (S n) 1 (parse_while_expr R).
Proof using HR. pstart. unfold parse_while_expr. psteps. Qed.
#[local] Hint Resolve eats_while_expr : parse.
Lemma eats_loop_expr : eats (S n) 1 (parse_loop_expr R).
Proof using HR. pstart. unfold parse_loop_expr. psteps. Qed.
#[local] Hint Resolve eats_loop_expr : parse.
Lemma eats_at_literal i k start l : solid k -> eats_at i k (parse_literal start l).
Proof using. intros ?. pat. unfold parse_literal. psteps. Qed.
#[local] Hint Resolve eats_at_literal : parse.
Lemma eats_at_paren_expr k (start : Span) : solid k -> eats_at (S n) k (parse_paren_expr R start).
Proof using HR. intros ?. pat. unfold parse_paren_expr. psteps. Qed.
#[local] Hint Resolve eats_at_paren_expr : parse.
Lemma eats_at_bracket_expr k (start : Span) : solid k -> eats_at (S n) k (parse_bracket_expr R start).
Proof using HR. intros ?. pat. unfold parse_bracket_expr. psteps. Qed.
#[local] Hint Resolve eats_at_bracket_expr : parse.
Lemma eats_at_jump k (start : Span) (stops : list TokenKind) (mk : option Expr -> ExprKind) : solid k -> eats_at (S n) k (parse_jump R start stops mk).
Proof using HR. intros ?. pat. unfold parse_jump. psteps. Qed.
#[local] Hint Resolve eats_at_jump : parse.
Lemma eats_at_emit k (start : Span) (mk : TypePath -> list FieldInit -> ExprKind) : solid k -> eats_at (S n) k (parse_emit R start mk).
Proof using HR. intros ?. pat. unfold parse_emit. psteps. Qed.
#[local] Hint Resolve eats_at_emit : parse.
Lemma eats_primary_expr : eats (S n) 1 (parse_primary_expr R).
Proof using HR. pstart. unfold parse_primary_expr. do 4 pstep. pbranch. Qed.
#[local] Hint Resolve eats_primary_expr : parse.
Lemma fueled_postfix m (expr : Expr) : fueled (S n) m 0 (postfix_loop R m expr).
Proof using HR. revert expr. induction m as [|m IH]; intros expr p Hw Hl Hm; [lia|]. simpl. do 2 pstep. pbranch. Qed.
#[local] Hint Resolve fueled_postfix : parse.
Lemma eats_postfix_expr : eats (S n) 1 (parse_postfix_expr R).
Proof using HR. pstart. unfold parse_postfix_expr. psteps. Qed.
#[local] Hint Resolve eats_postfix_expr : parse.
Lemma eats_prefix start mk : eats n 1 (parse_prefix R start mk).
Proof using HR. pstart. unfold parse_prefix. psteps. Qed.
#[local] Hint Resolve eats_prefix : parse.
Lemma eats_unary_expr : eats (S n) 1 (parse_unary_expr R).
Proof using HR. pstart. unfold parse_unary_expr. do 4 pstep. pbranch. Qed.
#[local] Hint Resolve eats_unary_expr : parse.
Lemma binary_solid k op : binary_op k = Some op -> solid k.
Proof using. by destruct k. Qed.
Lemma fueled_binary m min_prec e : fueled (S n) m 0 (binary_loop R m min_prec e).
Proof using HR.
  revert e. induction m as [|m IH]; intros e p Hw Hl Hm; [lia|]. simpl. do 2 pstep.
  destruct (binary_op _) as [op|] eqn:E; [|psteps]. apply binary_solid in E. destruct (binary_precedence op) as [lp rp]. psteps.
Qed.
#[local] Hint Resolve fueled_binary : parse.
Lemma eats_expr_with_precedence min_prec : eats (S n) 1 (parse_expr_with_precedence R min_prec).
Proof using HR. pstart. unfold parse_expr_with_precedence. psteps. Qed.
#[local] Hint Resolve eats_expr_with_precedence : parse.
Lemma eats_expr : eats (S n) 1 (parse_expr R).
Proof using HR. pstart. unfold parse_expr. psteps. Qed.
#[local] Hint Resolve eats_expr : parse.

(** *** Generics, structs, enums, constants *)

Lemma eats_type_bound : eats (S n) 1 (parse_type_bound R).
Proof using HR. pstart. unfold parse_type_bound. psteps. Qed.
#[local] Hint Resolve eats_type_bound : parse.
Lemma eats_type_bounds : eats (S n) 1 (parse_type_bounds R).
Proof using HR. pstart. unfold parse_type_bounds. psteps. Qed.
#[local] Hint Resolve eats_type_bounds : parse.
Lemma eats_where_predicate : eats (S n) 1 (parse_where_predicate R).
Proof using HR. pstart. unfold parse_where_predicate. psteps. Qed.
#[local] Hint Resolve eats_where_predicate : parse.
Lemma eats_where_clause : eats (S n) 1 (parse_where_clause R).
Proof using HR. pstart. unfold parse_where_clause. psteps. Qed.
#[local] Hint Resolve eats_where_clause : parse.
Lemma eats_generic_param : eats (S n) 1 (parse_generic_param R).
Proof using HR. pstart. unfold parse_generic_param. psteps. Qed.
#[local] Hint Resolve eats_generic_param : parse.
Lemma eats_optional_generics : eats (S n) 0 (parse_optional_generics R).
Proof using HR. pstart. unfold parse_optional_generics. psteps. Qed.
#[local] Hint Resolve eats_optional_generics : parse.
Lemma eats_struct_field : eats (S n) 1 (parse_struct_field R).
Proof using HR. pstart. unfold parse_struct_field. psteps. Qed.
#[local] Hint Resolve eats_struct_field : parse.
Lemma ability_solid k a : ability_of k = Some a -> solid k.
Proof using. by destruct k. Qed.
Lemma fueled_abilities i m acc : fueled i m 0 (abilities_loop m acc).
Proof using.
  revert acc. induction m as [|m IH]; intros acc p Hw Hl Hm; [lia|]. simpl. do 2 pstep.
  destruct (ability_of _) as [a|] eqn:E; [|psteps]. apply ability_solid in E. psteps.
Qed.
#[local] Hint Resolve fueled_abilities : parse.
Lemma eats_abilities : eats (S n) 0 (parse_abilities).
Proof using. pstart. unfold parse_abilities. psteps. Qed.
#[local] Hint Resolve eats_abilities : parse.
Lemma eats_struct (visibility : Visibility) : eats (S n) 1 (parse_struct R visibility).
Proof using HR. pstart. unfold parse_struct. psteps. Qed.
#[local] Hint Resolve eats_struct : parse.
Lemma eats_enum_variant : eats (S n) 1 (parse_enum_variant R).
Proof using HR. pstart. unfold parse_enum_variant. psteps. Qed.
#[local] Hint Resolve eats_enum_variant : parse.
Lemma eats_enum (visibility : Visibility) : eats (S n) 1 (parse_enum R visibility).
Proof using HR. pstart. unfold parse_enum. psteps. Qed.
#[local] Hint Resolve eats_enum : parse.
Lemma eats_type_alias (visibility : Visibility) : eats (S n) 1 (parse_type_alias R visibility).
Proof using HR. pstart. unfold parse_type_alias. psteps. Qed.
#[local] Hint Resolve eats_type_alias : parse.
Lemma eats_const (visibility : Visibility) : eats (S n) 1 (parse_const R visibility).
Proof using HR. pstart. unfold parse_const. psteps. Qed.
#[local] Hint Resolve eats_const : parse.

(** *** Storage, events, errors, specifications *)

Lemma eats_storage_field : eats (S n) 1 (parse_storage_field R).
Proof using HR. pstart. unfold parse_storage_field. psteps. Qed.
#[local] Hint Resolve eats_storage_field : parse.
Lemma eats_storage_block : eats (S n) 1 (parse_storage_block R).
Proof using HR. pstart. unfold parse_storage_block. psteps. Qed.
#[local] Hint Resolve eats_storage_block : parse.
Lemma eats_event_field : eats (S n) 1 (parse_event_field R).
Proof using HR. pstart. unfold parse_event_field. psteps. Qed.
#[local] Hint Resolve eats_event_field : parse.
Lemma eats_event : eats (S n) 1 (parse_event R).
Proof using HR. pstart. unfold parse_event. psteps. Qed.
#[local] Hint Resolve eats_event : parse.
Lemma eats_error_field : eats (S n) 1 (parse_error_field R).
Proof using HR. pstart. unfold parse_error_field. psteps. Qed.
#[local] Hint Resolve eats_error_field : parse.
Lemma eats_error_def : eats (S n) 1 (parse_error_def R).
Proof using HR. pstart. unfold parse_error_def. psteps. Qed.
#[local] Hint Resolve eats_error_def : parse.
Lemma eats_at_spec_clause k mk : solid k -> eats_at (S n) k (parse_spec_clause R mk).
Proof using HR. intros ?. pat. unfold parse_spec_clause. psteps. Qed.
#[local] Hint Resolve eats_at_spec_clause : parse.
Lemma eats_spec_item : eats (S n) 1 (parse_spec_item R).
Proof using HR. pstart. unfold parse_spec_item. do 2 pstep. pbranch. Qed.
#[local] Hint Resolve eats_spec_item : parse.
Lemma eats_spec_block : eats (S n) 1 (parse_spec_block R).
Proof using HR. pstart. unfold parse_spec_block. psteps. Qed.
#[local] Hint Resolve eats_spec_block : parse.

(** *** Functions *)

Lemma fueled_modifiers i m a b c d : fueled i m 0 (modifiers_loop m a b c d).
Proof using. revert a b c d. induction m as [|m IH]; intros a b c d p Hw Hl Hm; [lia|]. simpl. do 2 pstep. pbranch. Qed.
#[local] Hint Resolve fueled_modifiers : parse.
Lemma eats_function_modifiers : eats (S n) 0 (parse_function_modifiers).
Proof using. pstart. unfold parse_function_modifiers. psteps. Qed.
#[local] Hint Resolve eats_function_modifiers : parse.
Lemma eats_param : eats (S n) 1 (parse_param R).
Proof using HR. pstart. unfold parse_param. psteps. Qed.
#[local] Hint Resolve eats_param : parse.
Lemma eats_params : eats (S n) 0 (parse_params R).
Proof using HR. pstart. unfold parse_params. psteps. Qed.
#[local] Hint Resolve eats_params : parse.
Lemma eats_function_sig_with_visibility (visibility : Visibility) : eats (S n) 1 (parse_function_sig_with_visibility R visibility).
Proof using HR. pstart. unfold parse_function_sig_with_visibility. psteps. Qed.
#[local] Hint Resolve eats_function_sig_with_visibility : parse.
Lemma eats_function_sig : eats (S n) 1 (parse_function_sig R).
Proof using HR. pstart. unfold parse_function_sig. psteps. Qed.
#[local] Hint Resolve eats_function_sig : parse.
Lemma fueled_specs m acc : fueled (S n) m 0 (specs_loop R m acc).
Proof using HR. revert acc. induction m as [|m IH]; intros acc p Hw Hl Hm; [lia|]. simpl. psteps. Qed.
#[local] Hint Resolve fueled_specs : parse.
Lemma eats_function (visibility : Visibility) : eats (S n) 1 (parse_function R visibility).
Proof using HR. pstart. unfold parse_function. psteps. Qed.
#[local] Hint Resolve eats_function : parse.
Lemma eats_constructor (visibility : Visibility) : eats (S n) 1 (parse_constructor R visibility).
Proof using HR. pstart. unfold parse_constructor. psteps. Qed.
#[local] Hint Resolve eats_constructor : parse.
Lemma eats_fallback : eats (S n) 1 (parse_fallback R).
Proof using HR. pstart. unfold parse_fallback. psteps. Qed.
#[local] Hint Resolve eats_fallback : parse.
Lemma eats_receive : eats (S n) 1 (parse_receive R).
Proof using HR. pstart. unfold parse_receive. psteps. Qed.
#[local] Hint Resolve eats_receive : parse.
Lemma eats_modifier : eats (S n) 1 (parse_modifier R).
Proof using HR. pstart. unfold parse_modifier. psteps. Qed.
#[local] Hint Resolve eats_modifier : parse.

(** *** Items *)

Lemma eats_map_ok {A B} i k (g : A -> B) m : eats i k m -> eats i k (map_ok g m).
Proof using. intros ?. pstart. unfold map_ok. psteps. Qed.
#[local] Hint Resolve eats_map_ok : parse.
Lemma eats_import_path : eats (S n) 1 (parse_import_path).
Proof using. pstart. unfold parse_import_path. psteps. Qed.
#[local] Hint Resolve eats_import_path : parse.
Lemma eats_import : eats (S n) 1 (parse_import).
Proof using. pstart. unfold parse_import. psteps. Qed.
#[local] Hint Resolve eats_import : parse.
Lemma eats_parents : eats (S n) 0 (parse_parents R).
Proof using HR. pstart. unfold parse_parents. psteps. Qed.
#[local] Hint Resolve eats_parents : parse.
Lemma eats_contract_item : eats (S n) 1 (parse_contract_item R).
Proof using HR. pstart. unfold parse_contract_item. psteps. pbranch. Qed.
#[local] Hint Resolve eats_contract_item : parse.
Lemma eats_contract : eats (S n) 1 (parse_contract R).
Proof using HR. pstart. unfold parse_contract. psteps. Qed.
#[local] Hint Resolve eats_contract : parse.
Lemma eats_interface_item : eats (S n) 1 (parse_interface_item R).
Proof using HR. pstart. unfold parse_interface_item. do 2 pstep. pbranch. Qed.
#[local] Hint Resolve eats_interface_item : parse.
Lemma eats_interface : eats (S n) 1 (parse_interface R).
Proof using HR. pstart. unfold parse_interface. psteps. Qed.
#[local] Hint Resolve eats_interface : parse.
Lemma eats_library_item : eats (S n) 1 (parse_library_item R).
Proof using HR. pstart. unfold parse_library_item. psteps. pbranch. Qed.
#[local] Hint Resolve eats_library_item : parse.
Lemma eats_library : eats (S n) 1 (parse_library R).
Proof using HR. pstart. unfold parse_library. psteps. Qed.
#[local] Hint Resolve eats_library : parse.
Lemma eats_item : eats (S n) 1 (parse_item R).
Proof using HR. pstart. unfold parse_item. psteps. pbranch. Qed.
#[local] Hint Resolve eats_item : parse.
Lemma fueled_items m acc : fueled (S n) m 0 (items_loop R m acc).
Proof using HR. revert acc. induction m as [|m IH]; intros acc p Hw Hl Hm; [lia|]. simpl. psteps. Qed.
#[local] Hint Resolve fueled_items : parse.
Lemma eats_file_body : eats (S n) 0 (parse_file_body R).
Proof using HR. pstart. unfold parse_file_body. psteps. Qed.
#[local] Hint Resolve eats_file_body : parse.

Lemma knot_good : rec_good (S n)
  (mkRec (parse_type R) (parse_pattern R) (parse_expr_with_precedence R) (parse_unary_expr R) (parse_if_expr R)).
Proof using HR. split; simpl; eauto with parse nocore. Qed.
End nonterminals.

(** ** The whole file *)

Lemma left_zero p : wf p -> (left p <= 0)%nat -> False.
Proof. intros Hw. pose proof (left_pos p Hw). lia. Qed.
Lemma rec_parsers_good n : rec_good n (rec_parsers n).
Proof.
  induction n as [|n IH]; [|by apply knot_good].
  split; intros; intros p Hw Hl; destruct (left_zero p Hw Hl).
Qed.

Lemma parse_file_ok p : wf p -> wp parse_file (fun _ p' => wf p') p.
Proof.
  intros Hw. unfold parse_file. apply wp_bind, wp_tokens_left.
  eapply wp_eats; [apply eats_file_body, rec_parsers_good|done|lia|]. intros ? p' ? ?. done.
Qed.
End progress.
