(* ===== verification/QscPrecedence.v ===== *)
(** * Theory of the parser: precedence

    The grammar of the binary operators, written out with its levels and the
    sides they associate to; what trees the precedence climbing builds, that
    they are derived by that grammar from the tokens that were consumed, and
    that the operands and the operators in their order leave only one such
    tree. *)

From stdpp Require Import strings.
From S2P Require Import Prelude QscTokens QscAst QscParser Wp QscParserTheory.

(** ** The grammar *)

(** The levels from the loosest operators to the tightest. *)
Definition level (op : BinaryOp) : nat :=
  match op with
  | OpAssign | OpAddAssign | OpSubAssign | OpMulAssign | OpDivAssign | OpRemAssign
  | OpBitAndAssign | OpBitOrAssign | OpBitXorAssign | OpShlAssign | OpShrAssign => 1
  | OpOr => 2
  | OpAnd => 3
  | OpEq | OpNe | OpLt | OpLe | OpGt | OpGe => 4
  | OpBitOr => 5
  | OpBitXor => 6
  | OpBitAnd => 7
  | OpShl | OpShr => 8
  | OpAdd | OpSub => 9
  | OpMul | OpDiv | OpRem => 10
  | OpPow => 11
  end.
(** Assignments and powers associate to the right, the others to the left. *)
Definition right_assoc (op : BinaryOp) : bool := (level op =? 1)%nat || (level op =? 11)%nat.
(** How an operator is written. *)
Definition sign (op : BinaryOp) : TokenKind :=
  match op with
  | OpAdd => Tok.Plus | OpSub => Tok.Minus | OpMul => Tok.Star | OpDiv => Tok.Slash | OpRem => Tok.Percent
  | OpPow => Tok.StarStar | OpEq => Tok.EqEq | OpNe => Tok.NotEq | OpLt => Tok.Lt | OpLe => Tok.LtEq
  | OpGt => Tok.Gt | OpGe => Tok.GtEq | OpAnd => Tok.And | OpOr => Tok.Or | OpBitAnd => Tok.Ampersand
  | OpBitOr => Tok.Pipe | OpBitXor => Tok.Caret | OpShl => Tok.Shl | OpShr => Tok.Shr | OpAssign => Tok.Eq
  | OpAddAssign => Tok.PlusEq | OpSubAssign => Tok.MinusEq | OpMulAssign => Tok.StarEq | OpDivAssign => Tok.SlashEq
  | OpRemAssign => Tok.PercentEq | OpBitAndAssign => Tok.AmpersandEq | OpBitOrAssign => Tok.PipeEq
  | OpBitXorAssign => Tok.CaretEq | OpShlAssign => Tok.ShlEq | OpShrAssign => Tok.ShrEq
  end.

Definition left_prec (op : BinaryOp) : Z := fst (binary_precedence op).
Definition right_prec (op : BinaryOp) : Z := snd (binary_precedence op).

(** An expression that is not an operator with two operands. *)
Definition operand_kind (k : ExprKind) : Prop := match k with ExBinary _ _ _ => False | _ => True end.
Definition operand (e : Expr) : Prop := let 'mkExpr _ _ k := e in operand_kind k.

(** [E_n ::= operand], and for an operator of level [m >= n], [E_n ::= E_m op
    E_(m+1)] if it associates to the left and [E_n ::= E_(m+1) op E_m] if it
    associates to the right. *)
Inductive nests : nat -> Expr -> Prop :=
| ne_operand n e : operand e -> nests n e
| ne_left n id sp op l r :
    (n <= level op)%nat -> right_assoc op = false -> nests (level op) l -> nests (S (level op)) r ->
    nests n (mkExpr id sp (ExBinary op l r))
| ne_right n id sp op l r :
    (n <= level op)%nat -> right_assoc op = true -> nests (S (level op)) l -> nests (level op) r ->
    nests n (mkExpr id sp (ExBinary op l r)).

(** The tokens from [i] up to [j] spell the tree: an operand is what
    [parse_unary_expr] makes of its tokens, and between the tokens of the two
    sides of an operator is its sign. *)
Inductive spelled (toks : list Token) : nat -> Expr -> nat -> Prop :=
| sd_operand f p e p' :
    ps_tokens p = toks -> operand e -> parse_unary_expr (rec_parsers f) p = (Ok e, p') ->
    spelled toks (ps_pos p) e (ps_pos p')
| sd_binary i l j t op r k id sp :
    spelled toks i l j -> toks !! j = Some t -> tk_kind t = sign op -> spelled toks (S j) r k ->
    spelled toks i (mkExpr id sp (ExBinary op l r)) k.

(** ** The trees of the climbing *)

(** Every operator down the right side of [e] binds its right operand more
    tightly than [b]. *)
Inductive right_above (b : Z) : Expr -> Prop :=
| ra_operand e : operand e -> right_above b e
| ra_binary id sp op l r : b < right_prec op -> right_above b r -> right_above b (mkExpr id sp (ExBinary op l r)).

(** A tree that may stand where operators of precedence at least [m] may. *)
Inductive climbs : Z -> Expr -> Prop :=
| cl_operand m e : operand e -> climbs m e
| cl_binary m id sp op l r :
    m <= left_prec op -> climbs m l -> right_above (left_prec op) l -> climbs (right_prec op) r ->
    climbs m (mkExpr id sp (ExBinary op l r)).

(** ** The result of the climbing *)

Definition now (p : Parser) : option TokenKind :=
  tk_kind <$> match ps_tokens p !! ps_pos p with Some t => Some t | None => last (ps_tokens p) end.
Definition next_op (p : Parser) : option BinaryOp := now p ≫= binary_op.
(** The operator that follows, if any, does not belong to [e]. *)
Definition stops (m : Z) (e : Expr) (p : Parser) : Prop :=
  forall op, next_op p = Some op -> left_prec op < m /\ right_above (left_prec op) e.

Lemma wlp_current_kind (Q : TokenKind -> Parser -> Prop) p : (forall k, now p = Some k -> Q k p) -> wlp current_kind Q p.
Proof.
  intros HQ. unfold current_kind, current. apply wlp_bind, wlp_bind, wlp_gets. unfold id, or_panic, wlp, now in *.
  destruct (match ps_tokens p !! ps_pos p with Some t => Some t | None => last (ps_tokens p) end) as [t|]; [|done].
  by apply HQ.
Qed.
Lemma wlp_next_id (Q : Z -> Parser -> Prop) p : (forall id p', now p' = now p -> Q id p') -> wlp next_id Q p.
Proof. intros HQ. unfold next_id. apply wlp_bind, wlp_gets, wlp_bind, wlp_modify, wlp_ret, HQ. done. Qed.

(** *** Operands *)

Definition yields_operand (m : PR Expr) : Prop := forall p, wlp m (fun e _ => operand e) p.

Lemma yields_bind {A} (m : PR A) k : (forall a, yields_operand (k a)) -> yields_operand (bind m k).
Proof. intros Hk p. apply wlp_bind, wlp_any. intros a p'. apply Hk. Qed.
Lemma yields_ret id sp k : operand_kind k -> yields_operand (ret (mkExpr id sp k)).
Proof. by intros ? p. Qed.
Lemma yields_finish start k : operand_kind k -> yields_operand (finish start k).
Proof. intros ?. unfold finish. do 2 (apply yields_bind; intros ?). by apply yields_ret. Qed.
Lemma yields_fail e : yields_operand (fail e).
Proof. by intros p. Qed.

(** The calls before the last one do not matter. *)
Ltac ystep :=
  cbv beta zeta;
  lazymatch goal with
  | |- yields_operand (bind _ _) => apply yields_bind; intros ?
  | |- yields_operand (ret (mkExpr _ _ _)) => apply yields_ret; done
  | |- yields_operand (finish _ _) => apply yields_finish; done
  | |- yields_operand (fail _) => apply yields_fail
  | |- yields_operand (fail_at _) => unfold fail_at
  | |- yields_operand (if ?b then _ else _) => destruct b
  | |- yields_operand (match ?x with _ => _ end) => destruct x
  end.

Section operands.
Context (R : Rec).

Lemma yields_literal start l : yields_operand (parse_literal start l).
Proof. unfold parse_literal. repeat ystep. Qed.
Lemma yields_paren start : yields_operand (parse_paren_expr R start).
Proof. unfold parse_paren_expr. repeat ystep. Qed.
Lemma yields_bracket start : yields_operand (parse_bracket_expr R start).
Proof. unfold parse_bracket_expr. repeat ystep. Qed.
Lemma yields_if : yields_operand (parse_if_expr R).
Proof. unfold parse_if_expr. repeat ystep. Qed.
Lemma yields_match : yields_operand (parse_match_expr R).
Proof. unfold parse_match_expr. repeat ystep. Qed.
Lemma yields_for : yields_operand (parse_for_expr R).
Proof. unfold parse_for_expr. repeat ystep. Qed.
Lemma yields_while : yields_operand (parse_while_expr R).
Proof. unfold parse_while_expr. repeat ystep. Qed.
Lemma yields_loop : yields_operand (parse_loop_expr R).
Proof. unfold parse_loop_expr. repeat ystep. Qed.
Lemma yields_jump start stops mk : (forall v, operand_kind (mk v)) -> yields_operand (parse_jump R start stops mk).
Proof. intros Hk. unfold parse_jump. do 3 ystep. by apply yields_finish. Qed.
Lemma yields_emit start mk : (forall p f, operand_kind (mk p f)) -> yields_operand (parse_emit R start mk).
Proof. intros Hk. unfold parse_emit. do 5 ystep. by apply yields_finish. Qed.
Lemma yields_path : yields_operand (parse_path_expr R).
Proof. unfold parse_path_expr. repeat ystep. Qed.

Lemma yields_primary : yields_operand (parse_primary_expr R).
Proof.
  unfold parse_primary_expr. do 2 ystep.
  match goal with k : TokenKind |- _ => destruct k end;
    first [apply yields_literal|apply yields_paren|apply yields_bracket|apply yields_if|apply yields_match|apply yields_for
          |apply yields_while|apply yields_loop|by apply yields_jump|by apply yields_emit|apply yields_path|repeat ystep].
Qed.

Lemma yields_postfix_loop fuel e : operand e -> yields_operand (postfix_loop R fuel e).
Proof.
  revert e. induction fuel as [|fuel IH]; intros e He; [by intros p|]. simpl. ystep.
  assert (Hf : forall start k, operand_kind k -> yields_operand (let! e := finish start k in postfix_loop R fuel e)).
  { intros start k Hk p. apply wlp_bind. eapply wlp_mono; [by apply yields_finish|]. intros e' p' He'. by apply IH. }
  match goal with k : TokenKind |- _ => destruct k end;
    try (by intros p; apply wlp_ret); repeat first [by apply Hf|ystep].
Qed.
Lemma yields_postfix : yields_operand (parse_postfix_expr R).
Proof.
  intros p. unfold parse_postfix_expr. apply wlp_bind. eapply wlp_mono; [apply yields_primary|]. intros e p' He.
  apply wlp_bind, wlp_gets. by apply yields_postfix_loop.
Qed.
Lemma yields_unary : yields_operand (parse_unary_expr R).
Proof.
  unfold parse_unary_expr. do 2 ystep.
  match goal with k : TokenKind |- _ => destruct k end; try apply yields_postfix; unfold parse_prefix; repeat ystep.
Qed.
End operands.

(** *** Operators *)

Lemma climbs_operand_stops m e p : operand e -> climbs m e /\ (forall op, next_op p = Some op -> right_above (left_prec op) e).
Proof. intros He. split; [by constructor|]. intros op _. by constructor. Qed.

Definition rec_climbs (R : Rec) : Prop := forall m p, wlp (r_expr R m) (fun e p' => climbs m e /\ stops m e p') p.

Section climbing.
Context (R : Rec) (HR : rec_climbs R).

Lemma binary_loop_climbs fuel m e p :
  climbs m e -> (forall op, next_op p = Some op -> right_above (left_prec op) e) ->
  wlp (binary_loop R fuel m e) (fun e' p' => climbs m e' /\ stops m e' p') p.
Proof using HR.
  revert e p. induction fuel as [|fuel IH]; intros e p He Hs; [done|]. simpl.
  apply wlp_bind, wlp_current_kind. intros k Hk.
  assert (Hn : next_op p = binary_op k) by (unfold next_op; by rewrite Hk).
  destruct (binary_op k) as [op|] eqn:E.
  2:{ apply wlp_ret. split; [done|]. intros op. by rewrite Hn. }
  specialize (Hs _ Hn). destruct (binary_precedence op) as [lp rp] eqn:Ep.
  assert (lp = left_prec op) as -> by (unfold left_prec; by rewrite Ep).
  assert (rp = right_prec op) as -> by (unfold right_prec; by rewrite Ep).
  destruct (Z.ltb_spec (left_prec op) m) as [Hlt|Hge].
  { apply wlp_ret. split; [done|]. intros op'. rewrite Hn. by intros [= <-]. }
  apply wlp_bind, wlp_any. intros ? p1. apply wlp_bind. eapply wlp_mono; [apply HR|]. intros r p2 [Hr Hst].
  apply wlp_bind, wlp_next_id. intros id p3 Hnow. apply IH; [by constructor|]. intros op'. unfold next_op. rewrite Hnow. intros Ho.
  destruct (Hst op' Ho) as [? ?]. by constructor.
Qed.

Lemma expr_climbs m p : wlp (parse_expr_with_precedence R m) (fun e p' => climbs m e /\ stops m e p') p.
Proof using HR.
  unfold parse_expr_with_precedence. apply wlp_bind. eapply wlp_mono; [apply yields_unary|]. intros e p' He.
  apply wlp_bind, wlp_gets. destruct (climbs_operand_stops m e p' He). by apply binary_loop_climbs.
Qed.
End climbing.

Lemma rec_parsers_climbs n : rec_climbs (rec_parsers n).
Proof. induction n as [|n IH]; intros m p; [done|]. by apply expr_climbs. Qed.

(** ** Only one tree *)

(** The operands and the operators from left to right. *)
Fixpoint flat (e : Expr) : Expr * list (BinaryOp * Expr) :=
  match e with
  | mkExpr _ _ (ExBinary op l r) => (fst (flat l), snd (flat l) ++ (op, fst (flat r)) :: snd (flat r))
  | _ => (e, [])
  end.
(** A tree without the numbers and the spans of its operators. *)
Inductive Tree := Leaf (e : Expr) | Node (op : BinaryOp) (l r : Tree).
Fixpoint shape (e : Expr) : Tree :=
  match e with
  | mkExpr _ _ (ExBinary op l r) => Node op (shape l) (shape r)
  | _ => Leaf e
  end.

Lemma flat_operand e : operand e -> flat e = (e, []).
Proof. destruct e as [? ? []]; done. Qed.
Lemma shape_operand e : operand e -> shape e = Leaf e.
Proof. destruct e as [? ? []]; done. Qed.

(** The two facts on the table of precedences that make the order total. *)
Lemma prec_right op op' : right_prec op <= left_prec op' -> left_prec op <= left_prec op'.
Proof. unfold right_prec, left_prec. destruct op, op'; simpl; lia. Qed.
Lemma prec_step op : right_prec op <= left_prec op + 1.
Proof. unfold right_prec, left_prec. destruct op; simpl; lia. Qed.

Definition ops (e : Expr) : list BinaryOp := fst <$> snd (flat e).

Lemma climbs_ops m e : climbs m e -> Forall (fun op => m <= left_prec op) (ops e).
Proof.
  unfold ops. induction 1 as [m e He|m id sp op l r Hm Hl IHl Ha Hr IHr]; [by rewrite flat_operand|]. simpl.
  rewrite fmap_app. apply Forall_app. split; [done|]. constructor; [done|]. eapply Forall_impl; [exact IHr|].
  intros op' H%prec_right. lia.
Qed.
Lemma above_ops m b e : climbs m e -> right_above b e -> Forall (fun op => b < right_prec op) (ops e).
Proof.
  unfold ops. intros Hc. revert b. induction Hc as [m e He|m id sp op l r Hm Hl IHl Ha Hr IHr]; intros b Hb; [by rewrite flat_operand|].
  inversion Hb as [|? ? ? ? ? Hop Hbr]; subst; [done|]. simpl. rewrite fmap_app. apply Forall_app. split.
  - eapply Forall_impl; [apply IHl, Ha|]. intros op' Hlt. pose proof (prec_step op). simpl in *. lia.
  - constructor; [done|]. by apply IHr.
Qed.

Lemma climbs_inv m e : climbs m e -> operand e \/ exists id sp op l r,
  e = mkExpr id sp (ExBinary op l r) /\ climbs m l /\ climbs (right_prec op) r /\
  Forall (fun o => left_prec op < right_prec o) (ops l) /\ Forall (fun o => right_prec op <= left_prec o) (ops r).
Proof.
  inversion 1 as [|? ? ? ? ? ? Hm Hl Ha Hr]; subst; [by left|]. right. do 5 eexists. split; [done|]. split_and!; try done.
  - by eapply above_ops.
  - by apply climbs_ops.
Qed.

(** A position before the root of one tree and after the root of the other. *)
Lemma roots_agree {A} (op op' : BinaryOp) (b b' : A) xs ys xs' ys' :
  Forall (fun x => left_prec op' < right_prec x.1) xs' -> Forall (fun x => right_prec op <= left_prec x.1) ys ->
  xs ++ (op, b) :: ys = xs' ++ (op', b') :: ys' -> (length xs' <= length xs)%nat.
Proof.
  intros H1 H2 E. apply Nat.nlt_ge. intros Hlt.
  assert ((op, b) ∈ xs') as Hin.
  { apply (list_elem_of_lookup_2 _ (length xs)). rewrite <-(lookup_app_l _ ((op', b') :: ys')) by done. rewrite <-E.
    by rewrite list_lookup_middle. }
  assert ((op', b') ∈ ys) as Hin'.
  { apply (list_elem_of_lookup_2 _ (length xs' - S (length xs))).
    assert (Hl : (xs ++ (op, b) :: ys) !! length xs' = Some (op', b')) by (rewrite E; by apply list_lookup_middle).
    rewrite lookup_app_r in Hl by lia. by rewrite lookup_cons_ne_0, <-Nat.sub_succ_r in Hl by lia. }
  rewrite Forall_forall in H1, H2. specialize (H1 _ Hin). specialize (H2 _ Hin'). simpl in *. lia.
Qed.

Lemma ops_forall (P : BinaryOp -> Prop) e : Forall P (ops e) -> Forall (fun x => P x.1) (snd (flat e)).
Proof. unfold ops. by rewrite Forall_fmap. Qed.

Lemma binary_not_operand id sp op l r e :
  flat e = flat (mkExpr id sp (ExBinary op l r)) -> ~ operand e.
Proof. intros E He. rewrite flat_operand in E by done. injection E as _ E. by destruct (snd (flat l)). Qed.

Lemma climbs_unique m e m' e' : climbs m e -> climbs m' e' -> flat e = flat e' -> shape e = shape e'.
Proof.
  intros Hc. revert m' e'. induction Hc as [m e He|m id sp op l r Hm Hl IHl Ha Hr IHr]; intros m' e' Hc' E.
  - destruct (climbs_inv _ _ Hc') as [He'|(? & ? & ? & ? & ? & -> & _)].
    + rewrite !flat_operand in E by done. rewrite !shape_operand by done. by injection E as ->.
    + exfalso. by eapply binary_not_operand; [exact E|].
  - destruct (climbs_inv _ _ Hc') as [He'|(id' & sp' & op' & l' & r' & -> & Hl' & Hr' & Hlo' & Hro')].
    { exfalso. by eapply binary_not_operand; [symmetry; exact E|]. }
    injection E as E1 E2.
    pose proof (ops_forall _ _ (above_ops _ _ _ Hl Ha)) as Hlo. pose proof (ops_forall _ _ (climbs_ops _ _ Hr)) as Hro.
    apply ops_forall in Hlo', Hro'.
    pose proof (roots_agree _ _ _ _ _ _ _ _ Hlo' Hro E2) as L1. pose proof (roots_agree _ _ _ _ _ _ _ _ Hlo Hro' (eq_sym E2)) as L2.
    apply app_inj_1 in E2 as [E2 E3]; [|lia]. injection E3 as -> E3 E4. simpl.
    rewrite (IHl m' l'), (IHr (right_prec op') r'); try done; by apply injective_projections.
Qed.

(** ** The climbing follows the grammar *)

Lemma binary_op_sign k op : binary_op k = Some op <-> k = sign op.
Proof. split; [destruct k; by intros [= <-]|]. intros ->. by destruct op. Qed.

(** The two numbers of an operator in terms of its level. *)
Lemma prec_left_side op o :
  left_prec op < right_prec o <-> ((if right_assoc op then S (level op) else level op) <= level o)%nat.
Proof. unfold left_prec, right_prec. destruct op, o; vm_compute; split; intros; (done || lia). Qed.
Lemma prec_right_side op o :
  right_prec op <= left_prec o <-> ((if right_assoc op then level op else S (level op)) <= level o)%nat.
Proof. unfold left_prec, right_prec. destruct op, o; vm_compute; split; intros; (done || lia). Qed.

Lemma climbs_nests m e : climbs m e -> forall n, Forall (fun o => n <= level o)%nat (ops e) -> nests n e.
Proof.
  induction 1 as [m e He|m id sp op l r Hm Hl IHl Ha Hr IHr]; intros n Hn; [by constructor|].
  assert (n <= level op)%nat as Hop.
  { unfold ops in Hn. simpl in Hn. rewrite fmap_app in Hn. by apply Forall_app in Hn as [_ [Hn _]%Forall_cons]. }
  assert (Forall (fun o => (if right_assoc op then S (level op) else level op) <= level o)%nat (ops l)) as H1.
  { eapply Forall_impl; [by apply (above_ops m)|]. intros o. apply prec_left_side. }
  assert (Forall (fun o => (if right_assoc op then level op else S (level op)) <= level o)%nat (ops r)) as H2.
  { eapply Forall_impl; [by apply climbs_ops|]. intros o. apply prec_right_side. }
  destruct (right_assoc op) eqn:Ea; [apply ne_right|apply ne_left]; auto.
Qed.

Lemma nests_ops n e : nests n e -> Forall (fun o => n <= level o)%nat (ops e).
Proof.
  unfold ops. induction 1 as [n e He|n id sp op l r Hn Ha Hl IHl Hr IHr|n id sp op l r Hn Ha Hl IHl Hr IHr];
    [by rewrite flat_operand|..]; simpl; rewrite fmap_app; apply Forall_app; (split; [|constructor; [done|]]);
    (eapply Forall_impl; [eassumption|]; simpl; lia).
Qed.

Lemma nests_above n e : nests n e -> forall b, Forall (fun o => b < right_prec o) (ops e) -> right_above b e.
Proof.
  unfold ops. induction 1 as [n e He|n id sp op l r Hn Ha Hl IHl Hr IHr|n id sp op l r Hn Ha Hl IHl Hr IHr];
    intros b Hb; [by constructor|..]; simpl in Hb; rewrite fmap_app in Hb; apply Forall_app in Hb as [_ [Hb Hr']%Forall_cons];
    apply ra_binary; auto.
Qed.

Lemma nests_climbs n e : nests n e -> forall m, Forall (fun o => m <= left_prec o) (ops e) -> climbs m e.
Proof.
  assert (Hbin : forall m id sp op l r,
    nests (if right_assoc op then S (level op) else level op) l ->
    nests (if right_assoc op then level op else S (level op)) r ->
    (forall m, Forall (fun o => m <= left_prec o) (ops l) -> climbs m l) ->
    (forall m, Forall (fun o => m <= left_prec o) (ops r) -> climbs m r) ->
    Forall (fun o => m <= left_prec o) (ops (mkExpr id sp (ExBinary op l r))) -> climbs m (mkExpr id sp (ExBinary op l r))).
  { clear n e. intros m id sp op l r Hl Hr IHl IHr Hm. unfold ops in Hm. simpl in Hm.
    rewrite fmap_app in Hm. apply Forall_app in Hm as [Hml [Hmo Hmr]%Forall_cons]. apply cl_binary; [done|by apply IHl| |].
    - eapply nests_above; [done|]. eapply Forall_impl; [by apply nests_ops|]. intros o Ho. by apply prec_left_side.
    - apply IHr. eapply Forall_impl; [by apply nests_ops|]. intros o Ho. by apply prec_right_side. }
  induction 1 as [n e He|n id sp op l r Hn Ha Hl IHl Hr IHr|n id sp op l r Hn Ha Hl IHl Hr IHr]; intros m Hm; [by constructor|..].
  all: eapply Hbin; rewrite ?Ha; try done.
Qed.

(** ** The climbing reads the tokens *)

Section reading.
Context (toks : list Token).

Lemma wp_advance_exact k (Q : Token -> Parser -> Prop) p :
  wf toks p -> at_kind p k -> solid k ->
  (forall t p', wf toks p' -> ps_pos p' = S (ps_pos p) -> (left p' + 1 <= left p)%nat -> Q t p') -> wp advance_token Q p.
Proof.
  intros Hw (t & Ht & Hk) Hs HQ. pose proof Hw as [Hp He Htk].
  unfold advance_token. apply wp_bind, (wp_current toks); [done|]. intros t' Ht'.
  apply wp_bind, wp_modify, wp_ret. destruct (Nat.ltb_spec (ps_pos p) (length (ps_tokens p) - 1)) as [Hlt|Hge].
  - apply HQ; [split; simpl; [lia|done|done]|done|]. unfold left. simpl. lia.
  - exfalso. destruct He as (e & Hl & Hke). rewrite last_lookup in Hl.
    replace (pred (length (ps_tokens p))) with (ps_pos p) in Hl by lia. rewrite Ht in Hl. injection Hl as ->.
    apply Hs. by rewrite <- Hk, Hke.
Qed.

Lemma sign_solid op : solid (sign op).
Proof. by destruct op. Qed.

(** What an expression parser reads. *)
Definition reads (p : Parser) (e : Expr) (p' : Parser) : Prop :=
  spelled toks (ps_pos p) e (ps_pos p') /\ wf toks p' /\ (left p' + 1 <= left p)%nat.

Lemma wp_unary n p :
  wf toks p -> (left p <= S n)%nat -> wp (parse_unary_expr (rec_parsers n)) (fun e p' => reads p e p') p.
Proof.
  intros Hw Hl. pose proof (eats_unary_expr toks n _ (rec_parsers_good toks n) p Hw Hl) as H.
  pose proof (yields_unary (rec_parsers n) p) as Ho. unfold wp, wlp in *.
  destruct (parse_unary_expr (rec_parsers n) p) as [[e| | |] p'] eqn:E; try done. destruct H as [Hw' Hl'].
  split; [|done]. eapply sd_operand; [apply Hw|done|done].
Qed.

Lemma wp_binary_loop n :
  (forall m p, wf toks p -> (left p <= n)%nat -> wp (r_expr (rec_parsers n) m) (fun e p' => reads p e p') p) ->
  forall p0 fuel m e p, reads p0 e p -> (left p0 <= S n)%nat -> (left p < fuel)%nat ->
  wp (binary_loop (rec_parsers n) fuel m e) (fun e' p' => reads p0 e' p') p.
Proof.
  intros IHn p0 fuel m. induction fuel as [|fuel IH]; intros e p Hr Hl Hf; [lia|]. simpl.
  pose proof Hr as (Hsp & Hw & Hl'). apply wp_bind, (wp_current_kind toks); [done|]. intros k Hk.
  destruct (binary_op k) as [op|] eqn:E; [|by apply wp_ret]. apply binary_op_sign in E as ->.
  destruct (binary_precedence op) as [lp rp]. destruct (lp <? m); [by apply wp_ret|].
  apply wp_bind. eapply wp_advance_exact; [done|done|apply sign_solid|]. intros t p1 Hw1 Hp1 Hl1.
  apply wp_bind. eapply wp_mono; [apply IHn; [done|lia]|]. intros r p2 (Hsp2 & Hw2 & Hl2).
  apply wp_bind. unfold next_id. apply wp_bind, wp_gets, wp_bind, wp_modify, wp_ret.
  destruct Hw2 as [Hw21 Hw22 Hw23]. apply IH; [|done|unfold left in *; simpl; lia].
  split_and!; [|split; done|unfold left in *; simpl; lia]. simpl. destruct Hk as (tk & Htk & Hsign).
  destruct Hw as [_ _ Htoks]. rewrite Htoks in Htk. rewrite Hp1 in Hsp2. by eapply sd_binary.
Qed.

Lemma expr_reads n m p :
  wf toks p -> (left p <= S n)%nat ->
  wp (parse_expr_with_precedence (rec_parsers n) m) (fun e p' => reads p e p') p.
Proof.
  revert m p. induction n as [|n IH]; intros m p Hw Hl.
  all: unfold parse_expr_with_precedence; apply wp_bind; eapply wp_mono; [by apply wp_unary|]; intros e p1 Hr;
    apply wp_bind, wp_tokens_left, wp_binary_loop; try done; try lia.
  intros m' p' Hw' Hl'. pose proof (left_pos toks p' Hw'). lia.
Qed.
End reading.
