(* ===== verification/QscCodegen.v ===== *)
(** * The code generator of QuantumScript
      (src/crates/qfc-qsc/src/codegen/mod.rs)

    One pass over the syntax tree that appends instructions of the QVM to the
    function at hand. Jumps are emitted with a zero target and patched at the end
    of the function. The maps of the source are finite maps; a label
    [format!("{}_{}", prefix, counter)] is the pair of its parts, which it
    determines. The table [functions] of the source is never used. *)

From stdpp Require Import strings.
From S2P Require Import Prelude Externals Genesis QscTokens QscLexer QvmMemory QvmGas QscAst.

(** ** Errors and outputs *)

(** The text of an unsupported feature; an expression is named by its discriminant. *)
Inductive Feature :=
| FComplexPaths | FOperator (op : BinaryOp) | FComplexCall | FAssignmentTarget | FExpression (discriminant : Z).
Inductive CodegenError :=
| UndefinedSymbol (name : chars) (line column : Z)
| UnsupportedFeature (what : Feature) (line column : Z)
| CodegenStackOverflow (line column : Z)
| InternalError (message : chars).

Record FunctionBytecode := mkFunctionBytecode {
  fb_name : chars;
  fb_selector : bytes;
  fb_param_count : Z;
  fb_local_count : Z;
  fb_code : list Instruction;
  fb_is_payable : bool;
  fb_is_view : bool;
}.
(** The source lists the storage layout in the order of a hash map. *)
Record ContractBytecode := mkContractBytecode {
  cb_name : chars;
  cb_functions : list FunctionBytecode;
  cb_storage_layout : gmap chars Z;
  cb_init_code : list Instruction;
  cb_runtime_code : bytes;
}.

(** ** State *)

Record LocalVar := mkLocalVar { lv_name : chars; lv_index : Z; lv_mutable : bool }.
Abbreviation Label := (chars * Z)%type.
Record Codegen := mkCodegen {
  cg_instructions : list Instruction;
  cg_locals : gmap chars LocalVar;
  cg_local_count : Z;
  cg_storage_slots : gmap chars Z;
  cg_next_storage_slot : Z;
  cg_label_counter : Z;
  cg_labels : gmap Label nat;
  cg_unresolved_jumps : list (nat * Label);
  cg_loop_stack : list (Label * Label);
  cg_contract_name : option chars;
}.
Definition codegen_new : Codegen := mkCodegen [] ∅ 0 ∅ 0 0 ∅ [] [] None.

Abbreviation CG A := (ST Codegen CodegenError A).

Definition set_instructions (code : list Instruction) (c : Codegen) : Codegen :=
  mkCodegen code (cg_locals c) (cg_local_count c) (cg_storage_slots c) (cg_next_storage_slot c) (cg_label_counter c) (cg_labels c)
    (cg_unresolved_jumps c) (cg_loop_stack c) (cg_contract_name c).
Definition set_scope (ls : gmap chars LocalVar) (n : Z) (c : Codegen) : Codegen :=
  mkCodegen (cg_instructions c) ls n (cg_storage_slots c) (cg_next_storage_slot c) (cg_label_counter c) (cg_labels c)
    (cg_unresolved_jumps c) (cg_loop_stack c) (cg_contract_name c).
Definition set_slots (ss : gmap chars Z) (n : Z) (c : Codegen) : Codegen :=
  mkCodegen (cg_instructions c) (cg_locals c) (cg_local_count c) ss n (cg_label_counter c) (cg_labels c)
    (cg_unresolved_jumps c) (cg_loop_stack c) (cg_contract_name c).
Definition set_labels (n : Z) (ls : gmap Label nat) (c : Codegen) : Codegen :=
  mkCodegen (cg_instructions c) (cg_locals c) (cg_local_count c) (cg_storage_slots c) (cg_next_storage_slot c) n ls
    (cg_unresolved_jumps c) (cg_loop_stack c) (cg_contract_name c).
Definition set_jumps (js : list (nat * Label)) (c : Codegen) : Codegen :=
  mkCodegen (cg_instructions c) (cg_locals c) (cg_local_count c) (cg_storage_slots c) (cg_next_storage_slot c) (cg_label_counter c)
    (cg_labels c) js (cg_loop_stack c) (cg_contract_name c).
Definition set_loops (ls : list (Label * Label)) (c : Codegen) : Codegen :=
  mkCodegen (cg_instructions c) (cg_locals c) (cg_local_count c) (cg_storage_slots c) (cg_next_storage_slot c) (cg_label_counter c)
    (cg_labels c) (cg_unresolved_jumps c) ls (cg_contract_name c).
Definition set_contract_name (n : option chars) (c : Codegen) : Codegen :=
  mkCodegen (cg_instructions c) (cg_locals c) (cg_local_count c) (cg_storage_slots c) (cg_next_storage_slot c) (cg_label_counter c)
    (cg_labels c) (cg_unresolved_jumps c) (cg_loop_stack c) n.

Definition reset_function (c : Codegen) : Codegen :=
  mkCodegen [] ∅ 0 (cg_storage_slots c) (cg_next_storage_slot c) (cg_label_counter c) ∅ [] (cg_loop_stack c) (cg_contract_name c).

(** ** Helpers *)

Definition emit (i : Instruction) : CG unit := modify (fun c => set_instructions (cg_instructions c ++ [i]) c).
Definition emit_op (o : Opcode) : CG unit := emit (mkInstruction o None).
Definition emit_push_u256 (value : bytes) : CG unit := emit (mkInstruction OpPush (Some value)).
Definition emit_push_u32 (value : Z) : CG unit := emit_push_u256 (replicate 28 0 ++ to_be 4 value).
Definition emit_load_local (index : Z) : CG unit := emit (mkInstruction OpLoadLocal (Some (to_be 2 index))).
Definition emit_store_local (index : Z) : CG unit := emit (mkInstruction OpStoreLocal (Some (to_be 2 index))).
Definition fresh_label (prefix : string) : CG Label :=
  let! n := gets cg_label_counter in
  modify (fun c => set_labels (wrap 32 (n + 1)) (cg_labels c) c) ;;
  ret (str prefix, n).
Definition set_label (l : Label) : CG unit :=
  modify (fun c => set_labels (cg_label_counter c) (<[l := length (cg_instructions c)]> (cg_labels c)) c).
Definition emit_branch (o : Opcode) (l : Label) : CG unit :=
  modify (fun c => set_jumps (cg_unresolved_jumps c ++ [(length (cg_instructions c), l)]) c) ;;
  emit (mkInstruction o (Some [0; 0])).
Definition emit_jump (l : Label) : CG unit := emit_branch OpJump l.
Definition emit_jump_if_not (l : Label) : CG unit := emit_branch OpJumpIfNot l.

(** The two bytes of the target are written over the operand, which must have them. *)
Definition patch (target : nat) (i : Instruction) : option Instruction :=
  match operand i with
  | Some (_ :: _ :: r) => Some (mkInstruction (opcode i) (Some (to_be 2 (Z.of_nat target) ++ r)))
  | Some _ => None
  | None => Some i
  end.
Definition resolve_jump (j : nat * Label) : CG unit :=
  let '(idx, l) := j in
  let! labels := gets cg_labels in
  match labels !! l with
  | Some target =>
    let! code := gets cg_instructions in
    let! i := or_panic (code !! idx) in
    let! i' := or_panic (patch target i) in
    modify (set_instructions (<[idx := i']> code))
  | None => ret tt
  end.
(** [for x in l { f(x)?; }] *)
Definition for_each {S E A} (f : A -> ST S E unit) : list A -> ST S E unit :=
  fix go l := match l with [] => ret tt | x :: l => f x ;; go l end.
Definition resolve_jumps : CG unit :=
  let! js := gets cg_unresolved_jumps in
  for_each resolve_jump js ;;
  modify (set_jumps []).

(** A new local variable with the next index. *)
Definition declare (name : chars) (mutable : bool) : CG Z :=
  let! n := gets cg_local_count in
  modify (fun c => set_scope (<[name := mkLocalVar name n mutable]> (cg_locals c)) (wrap 16 (n + 1)) c) ;;
  ret n.
Definition fresh_local : CG Z :=
  let! n := gets cg_local_count in
  modify (fun c => set_scope (cg_locals c) (wrap 16 (n + 1)) c) ;;
  ret n.

Definition unsupported {A} (what : Feature) (span : Span) : CG A := fail (UnsupportedFeature what (sp_line span) (sp_column span)).

(** ** Literals *)

(** [as_bytes] of a string: its UTF-8 encoding. *)
Definition utf8_char (c : Z) : bytes :=
  if c <? 128 then [c]
  else if c <? 2048 then [192 + c / 64; 128 + c mod 64]
  else if c <? 65536 then [224 + c / 4096; 128 + (c / 64) mod 64; 128 + c mod 64]
  else [240 + c / 262144; 128 + (c / 4096) mod 64; 128 + (c / 64) mod 64; 128 + c mod 64].
Definition utf8 (s : chars) : bytes := concat (map utf8_char s).

(** [u128::from_str_radix]: an optional plus sign, then at least one digit, no overflow. *)
Fixpoint radix_digits (radix : Z) (s : chars) (acc : Z) : option Z :=
  match s with
  | [] => Some acc
  | c :: s =>
    let d := c - ch "0" in
    if (0 <=? d) && (d <? radix) then
      let acc := acc * radix + d in
      if acc <? 2 ^ 128 then radix_digits radix s acc else None
    else None
  end.
Definition u128_from_str_radix (radix : Z) (s : chars) : option Z :=
  match s with
  | [] => None
  | c :: r => if c =? ch "+" then match r with [] => None | _ => radix_digits radix r 0 end else radix_digits radix s 0
  end.

(** [[0u8; 32]] with [bs] at its end. *)
Definition right_aligned (bs : bytes) : bytes := replicate (32 - length bs) 0 ++ bs.
Definition padded (bs : bytes) : bytes := bs ++ replicate (32 - length bs) 0.
Definition u128_word (v : option Z) : bytes := match v with Some v => right_aligned (to_be 16 v) | None => H256_zero end.
Definition prefixed (a b : string) (s : chars) : bool :=
  match s with c :: d :: _ => (c =? ch "0") && ((d =? ch a) || (d =? ch b)) | _ => false end.

(** [bytes.chunks(32)] *)
Fixpoint chunks (fuel : nat) (bs : bytes) : list bytes :=
  match fuel, bs with
  | S fuel, _ :: _ => take 32 bs :: chunks fuel (drop 32 bs)
  | _, _ => []
  end.

Section codegen.
Context `{B : Blake3, HD : HexDecode}.

Definition parse_int_literal (s : chars) : bytes :=
  let s := remove_underscores s in
  if prefixed "x" "X" s then
    match hex_decode (utf8 (drop 2 s)) with Some decoded => right_aligned (take 32 decoded) | None => H256_zero end
  else if prefixed "b" "B" s then u128_word (u128_from_str_radix 2 (drop 2 s))
  else if prefixed "o" "O" s then u128_word (u128_from_str_radix 8 (drop 2 s))
  else u128_word (u128_from_str_radix 10 s).

Definition generate_literal (lit : Literal) : CG unit :=
  match lit with
  | LitInt s _ => emit_push_u256 (parse_int_literal s)
  | LitBool b => emit_push_u256 (right_aligned [if b then 1 else 0])
  | LitAddress s =>
    let s := match s with a :: b :: r => if (a =? ch "0") && (b =? ch "x") then r else s | _ => s end in
    emit_push_u256 (match hex_decode (utf8 s) with Some decoded => right_aligned (take 20 decoded) | None => H256_zero end)
  | LitString s =>
    let bs := utf8 s in
    for_each (fun chunk => emit_push_u256 (padded chunk)) (chunks (length bs) bs)
  | _ => emit_push_u256 H256_zero
  end.

(** ** Expressions *)

Definition expr_discriminant (k : ExprKind) : Z :=
  match k with
  | ExLiteral _ => 0 | ExPath _ => 1 | ExBinary _ _ _ => 2 | ExUnary _ _ => 3 | ExCall _ _ => 4 | ExMethodCall _ _ _ => 5
  | ExField _ _ => 6 | ExIndex _ _ => 7 | ExCast _ _ => 8 | ExReference _ _ => 9 | ExDeref _ => 10 | ExBlock _ => 11
  | ExIf _ _ _ => 12 | ExMatch _ _ => 13 | ExFor _ _ _ => 14 | ExWhile _ _ => 15 | ExLoop _ => 16 | ExBreak _ => 17
  | ExContinue => 18 | ExReturn _ => 19 | ExTuple _ => 20 | ExArray _ => 21 | ExArrayRepeat _ _ => 22 | ExStruct _ _ => 23
  | ExRange _ _ _ => 24 | ExClosure _ _ => 25 | ExMove _ => 26 | ExEmit _ _ => 27 | ExRevert _ _ => 28 | ExAssert _ _ => 29
  | ExTry _ => 30 | ExParen _ => 31 | ExAwait _ => 32
  end.

Definition binary_opcode (op : BinaryOp) : option Opcode :=
  match op with
  | OpAdd => Some QvmGas.OpAdd | OpSub => Some QvmGas.OpSub | OpMul => Some QvmGas.OpMul | OpDiv => Some QvmGas.OpDiv
  | OpRem => Some QvmGas.OpMod | OpPow => Some QvmGas.OpPow | OpEq => Some QvmGas.OpEq | OpNe => Some QvmGas.OpNe
  | OpLt => Some QvmGas.OpLt | OpLe => Some QvmGas.OpLe | OpGt => Some QvmGas.OpGt | OpGe => Some QvmGas.OpGe
  | OpAnd => Some QvmGas.OpAnd | OpOr => Some QvmGas.OpOr | OpBitAnd => Some QvmGas.OpBitAnd | OpBitOr => Some QvmGas.OpBitOr
  | OpBitXor => Some QvmGas.OpBitXor | OpShl => Some QvmGas.OpShl | OpShr => Some QvmGas.OpShr
  | _ => None
  end.
Definition unary_opcode (op : UnaryOp) : Opcode :=
  match op with OpNeg => QvmGas.OpNeg | OpNot => QvmGas.OpNot | OpBitNot => QvmGas.OpBitNot end.

Definition generate_path (path : ExprPath) (span : Span) : CG unit :=
  match ep_segments path with
  | [ident] =>
    let name := id_name ident in
    let! c := gets id in
    match cg_locals c !! name with
    | Some local => emit_load_local (lv_index local)
    | None =>
      match cg_storage_slots c !! name with
      | Some slot => emit_push_u32 slot ;; emit_op OpSLoad
      | None => fail (UndefinedSymbol name (sp_line span) (sp_column span))
      end
    end
  | _ => unsupported FComplexPaths span
  end.

(** The address of an element: base and index are on the stack. *)
Definition emit_element : CG unit := emit_push_u32 32 ;; emit_op QvmGas.OpMul ;; emit_op QvmGas.OpAdd.

(** The cases that recurse take the generators of their parts. *)
Section open.
Context (generate_expr : Expr -> CG unit) (generate_block : Block -> CG unit).

Definition generate_assignment (left right : Expr) : CG unit :=
  generate_expr right ;;
  let '(mkExpr _ span kind) := left in
  match kind with
  | ExPath path =>
    match ep_segments path with
    | [ident] =>
      let! c := gets id in
      match cg_locals c !! id_name ident with
      | Some local => emit_store_local (lv_index local)
      | None =>
        match cg_storage_slots c !! id_name ident with
        | Some slot => emit_push_u32 slot ;; emit_op OpSStore
        | None => unsupported FAssignmentTarget span
        end
      end
    | _ => unsupported FAssignmentTarget span
    end
  | ExField obj _ => generate_expr obj ;; emit_op OpStore
  | ExIndex array index => generate_expr array ;; generate_expr index ;; emit_element ;; emit_op OpStore
  | _ => unsupported FAssignmentTarget span
  end.

Definition generate_binary (op : BinaryOp) (left right : Expr) (span : Span) : CG unit :=
  generate_expr left ;;
  generate_expr right ;;
  match binary_opcode op with
  | Some o => emit_op o
  | None =>
    match op with
    | OpAssign => generate_assignment left right
    | _ => unsupported (FOperator op) span
    end
  end.

Definition generate_call (callee : Expr) (args : list Expr) (span : Span) : CG unit :=
  for_each generate_expr args ;;
  match callee with
  | mkExpr _ _ (ExPath path) =>
    match ep_segments path with
    | [ident] => emit (mkInstruction OpCall (Some (utf8 (id_name ident))))
    | _ => unsupported FComplexCall span
    end
  | _ => unsupported FComplexCall span
  end.

Definition generate_fields (fields : list FieldInit) : CG unit :=
  for_each (fun f => let '(mkFieldInit _ value _) := f in match value with Some v => generate_expr v | None => ret tt end) fields.

Definition generate_if (cond : Expr) (then_block : Block) (else_branch : option Expr) : CG unit :=
  let! else_label := fresh_label "else" in
  let! end_label := fresh_label "endif" in
  generate_expr cond ;;
  emit_jump_if_not else_label ;;
  generate_block then_block ;;
  emit_jump end_label ;;
  set_label else_label ;;
  match else_branch with Some e => generate_expr e | None => ret tt end ;;
  set_label end_label.

Definition push_loop (break_label continue_label : Label) : CG unit :=
  modify (fun c => set_loops ((break_label, continue_label) :: cg_loop_stack c) c).
Definition pop_loop : CG unit := modify (fun c => set_loops (tail (cg_loop_stack c)) c).

Definition generate_for (pattern : Pattern) (iter : Expr) (body : Block) : CG unit :=
  let! loop_label := fresh_label "for" in
  let! break_label := fresh_label "for_end" in
  let! continue_label := fresh_label "for_continue" in
  push_loop break_label continue_label ;;
  generate_expr iter ;;
  let! iter_local := fresh_local in
  emit_store_local iter_local ;;
  emit_push_u32 0 ;;
  let! index_local := fresh_local in
  emit_store_local index_local ;;
  set_label loop_label ;;
  emit_load_local index_local ;;
  emit_push_u32 100 ;;
  emit_op QvmGas.OpLt ;;
  emit_jump_if_not break_label ;;
  match pattern with
  | mkPattern _ _ (PaIdent ident _) =>
    emit_load_local iter_local ;;
    emit_load_local index_local ;;
    emit_element ;;
    emit_op OpLoad ;;
    let! elem_local := declare (id_name ident) false in
    emit_store_local elem_local
  | _ => ret tt
  end ;;
  generate_block body ;;
  set_label continue_label ;;
  emit_load_local index_local ;;
  emit_push_u32 1 ;;
  emit_op QvmGas.OpAdd ;;
  emit_store_local index_local ;;
  emit_jump loop_label ;;
  set_label break_label ;;
  pop_loop.

Definition generate_while (cond : Expr) (body : Block) : CG unit :=
  let! loop_label := fresh_label "while" in
  let! break_label := fresh_label "while_end" in
  push_loop break_label loop_label ;;
  set_label loop_label ;;
  generate_expr cond ;;
  emit_jump_if_not break_label ;;
  generate_block body ;;
  emit_jump loop_label ;;
  set_label break_label ;;
  pop_loop.

Definition generate_loop (body : Block) : CG unit :=
  let! loop_label := fresh_label "loop" in
  let! break_label := fresh_label "loop_end" in
  push_loop break_label loop_label ;;
  set_label loop_label ;;
  generate_block body ;;
  emit_jump loop_label ;;
  set_label break_label ;;
  pop_loop.

Definition generate_local (local : LocalStmt) : CG unit :=
  let '(mkLocalStmt _ _ pattern _ init is_mutable) := local in
  match init with Some e => generate_expr e | None => emit_push_u256 H256_zero end ;;
  match pattern with
  | mkPattern _ _ (PaIdent ident mutable) =>
    let! index := declare (id_name ident) (is_mutable || mutable) in
    emit_store_local index
  | _ => ret tt
  end.
End open.

(** A jump to a label of the innermost loop, if there is one. *)
Definition jump_out (pick : Label * Label -> Label) : CG unit :=
  let! loops := gets cg_loop_stack in
  match loops with l :: _ => emit_jump (pick l) | [] => ret tt end.
Definition log_opcode (topics : nat) : Opcode :=
  match topics with O => OpLog0 | 1 => OpLog1 | 2 => OpLog2 | 3 => OpLog3 | _ => OpLog4 end%nat.
Definition topic_count (fields : list FieldInit) : nat :=
  length (List.filter (fun f => let '(mkFieldInit _ value _) := f in match value with Some _ => true | None => false end) fields).

Fixpoint generate_expr (expr : Expr) : CG unit :=
  let '(mkExpr _ span kind) := expr in
  match kind with
  | ExLiteral lit => generate_literal lit
  | ExPath path => generate_path path span
  | ExBinary op l r => generate_binary generate_expr op l r span
  | ExUnary op operand => generate_expr operand ;; emit_op (unary_opcode op)
  | ExCall callee args => generate_call generate_expr callee args span
  | ExMethodCall receiver method args =>
    generate_expr receiver ;;
    for_each generate_expr args ;;
    emit (mkInstruction OpCall (Some (utf8 (id_name method))))
  | ExField obj _ => generate_expr obj ;; emit_push_u32 0 ;; emit_op QvmGas.OpAdd ;; emit_op OpLoad
  | ExIndex array index => generate_expr array ;; generate_expr index ;; emit_element ;; emit_op OpLoad
  | ExBlock block => generate_block block
  | ExIf cond then_block else_branch => generate_if generate_expr generate_block cond then_block else_branch
  | ExFor pattern iter body => generate_for generate_expr generate_block pattern iter body
  | ExWhile cond body => generate_while generate_expr generate_block cond body
  | ExLoop body => generate_loop generate_block body
  | ExBreak _ => jump_out fst
  | ExContinue => jump_out snd
  | ExReturn value => match value with Some v => generate_expr v | None => ret tt end ;; emit_op OpReturn
  | ExTuple elements | ExArray elements => for_each generate_expr elements
  | ExStruct _ fields => generate_fields generate_expr fields
  | ExEmit _ fields => generate_fields generate_expr fields ;; emit_op (log_opcode (topic_count fields))
  | ExRevert _ fields => generate_fields generate_expr fields ;; emit_op OpRevert
  | ExParen inner => generate_expr inner
  | _ => unsupported (FExpression (expr_discriminant kind)) span
  end
with generate_block (block : Block) : CG unit :=
  let '(mkBlock _ _ stmts) := block in
  for_each generate_stmt stmts
with generate_stmt (stmt : Stmt) : CG unit :=
  let '(mkStmt _ _ kind) := stmt in
  match kind with
  | StLocal local => generate_local generate_expr local
  | StExpr expr => generate_expr expr
  | StSemi expr => generate_expr expr ;; emit_op OpPop
  | StEmpty => ret tt
  | StItem _ => ret tt
  end.

(** ** Functions and contracts *)

Definition declare_param (p : Param) : CG unit :=
  let '(mkParam _ _ pattern _) := p in
  match pattern with
  | mkPattern _ _ (PaIdent ident mutable) => declare (id_name ident) mutable ;; ret tt
  | _ => ret tt
  end.

Definition compute_selector (name : chars) (param_types : list chars) : bytes :=
  let types := match param_types with [] => [] | t :: ts => t ++ concat (map (fun t => str "," ++ t) ts) end in
  take 4 (blake3 (utf8 (name ++ str "(" ++ types ++ str ")"))).
Definition type_to_abi_string (ty : Ty) : chars := str "uint256".
Definition param_ty (p : Param) : Ty := let '(mkParam _ _ _ ty) := p in ty.

Definition ends_function (code : list Instruction) : bool :=
  match last code with Some i => bool_decide (opcode i = OpReturn) || bool_decide (opcode i = OpRevert) | None => false end.
Definition generate_function (func : FunctionDef) : CG FunctionBytecode :=
  let '(mkFunctionDef _ _ (mkFunctionSig _ _ _ modifiers name _ params _) body _) := func in
  let '(mkFunctionModifiers _ is_view is_payable _ _) := modifiers in
  for_each declare_param params ;;
  generate_block body ;;
  let! code := gets cg_instructions in
  (if ends_function code then ret tt else emit_op OpReturn) ;;
  resolve_jumps ;;
  let! c := gets id in
  ret (mkFunctionBytecode (id_name name)
         (compute_selector (id_name name) (map (fun p => type_to_abi_string (param_ty p)) params))
         (wrap 8 (Z.of_nat (length params))) (wrap 8 (cg_local_count c)) (cg_instructions c) is_payable is_view).

Definition generate_constructor (ctor : ConstructorDef) : CG unit :=
  let '(mkConstructorDef _ _ _ _ params body) := ctor in
  for_each declare_param params ;;
  generate_block body ;;
  emit_op OpReturn ;;
  resolve_jumps.

Definition generate_runtime_dispatcher (functions : list FunctionBytecode) : bytes :=
  concat (map (fun f => opcode_byte OpPush :: replicate 28 0 ++ fb_selector f ++ [opcode_byte OpJumpIf; 0; 0]) functions)
    ++ [opcode_byte OpRevert].

(** The three passes over the items of a contract. *)
Definition layout_item (item : ContractItem) : CG unit :=
  match item with
  | CiStorage (mkStorageBlock _ _ fields) =>
    for_each (fun f => let '(mkStorageField _ _ _ name _ _) := f in
      modify (fun c => set_slots (<[id_name name := cg_next_storage_slot c]> (cg_storage_slots c))
                         (wrap 32 (cg_next_storage_slot c + 1)) c)) fields
  | _ => ret tt
  end.
Fixpoint constructor_items (items : list ContractItem) (init_code : list Instruction) : CG (list Instruction) :=
  match items with
  | [] => ret init_code
  | CiConstructor ctor :: items =>
    modify reset_function ;;
    generate_constructor ctor ;;
    let! code := gets cg_instructions in
    constructor_items items code
  | _ :: items => constructor_items items init_code
  end.
Fixpoint function_items (items : list ContractItem) (functions : list FunctionBytecode) : CG (list FunctionBytecode) :=
  match items with
  | [] => ret functions
  | CiFunction func :: items =>
    modify reset_function ;;
    let! bytecode := generate_function func in
    function_items items (functions ++ [bytecode])
  | _ :: items => function_items items functions
  end.

Definition generate_contract (contract : ContractDef) : CG ContractBytecode :=
  let '(mkContractDef _ _ name _ _ items) := contract in
  modify (fun c => set_contract_name (Some (id_name name)) (set_slots ∅ 0 c)) ;;
  for_each layout_item items ;;
  let! init_code := constructor_items items [] in
  let! functions := function_items items [] in
  let! storage_layout := gets cg_storage_slots in
  modify (set_contract_name None) ;;
  ret (mkContractBytecode (id_name name) functions storage_layout init_code (generate_runtime_dispatcher functions)).

Fixpoint generate_items (items : list Item) (contracts : list ContractBytecode) : CG (list ContractBytecode) :=
  match items with
  | [] => ret contracts
  | ItContract contract :: items =>
    let! c := generate_contract contract in
    generate_items items (contracts ++ [c])
  | ItFunction func :: items => generate_function func ;; generate_items items contracts
  | _ :: items => generate_items items contracts
  end.
Definition generate (file : SourceFile) : Result CodegenError (list ContractBytecode) :=
  fst (generate_items (sf_items file) [] codegen_new).
End codegen.
