(* ===== verification/QscCompile.v ===== *)
(** * Compiled expressions on the machine

    The meaning of the expressions built from integers, booleans, variables and
    operators, the instructions the generator emits for them, and what the QVM
    does when it runs those instructions. *)

From stdpp Require Import strings.
From S2P Require Import Prelude Externals Genesis QscTokens QscLexer QvmMemory QvmGas Qvm QvmTheory QvmSafety QvmProps QscAst QscCodegen.

(** ** Meaning *)

Section meaning.
Context `{B : Blake3, HD : HexDecode}.

Definition with_u256 (f : Z -> Z -> Value) (a b : Value) : option Value := x ← as_u256 a; y ← as_u256 b; Some (f x y).
Definition with_bool (f : bool -> bool -> bool) (a b : Value) : option Value := x ← as_bool a; y ← as_bool b; Some (VBool (f x y)).

Definition eval_binary (op : BinaryOp) (a b : Value) : option Value :=
  match op with
  | OpAdd => with_u256 (fun x y => VU256 ((x + y) mod 2 ^ 256)) a b
  | OpSub => with_u256 (fun x y => VU256 ((x - y) mod 2 ^ 256)) a b
  | OpMul => with_u256 (fun x y => VU256 ((x * y) mod 2 ^ 256)) a b
  | OpDiv => with_u256 (fun x y => VU256 (if y =? 0 then 0 else x / y)) a b
  | OpRem => with_u256 (fun x y => VU256 (if y =? 0 then 0 else x mod y)) a b
  | OpPow => with_u256 (fun x y => VU256 (x ^ y mod 2 ^ 256)) a b
  | OpEq => Some (VBool (bool_decide (a = b)))
  | OpNe => Some (VBool (bool_decide (a <> b)))
  | OpLt => with_u256 (fun x y => VBool (bool_decide (x < y))) a b
  | OpLe => with_u256 (fun x y => VBool (bool_decide (x <= y))) a b
  | OpGt => with_u256 (fun x y => VBool (bool_decide (x > y))) a b
  | OpGe => with_u256 (fun x y => VBool (bool_decide (x >= y))) a b
  | OpAnd => with_bool andb a b
  | OpOr => with_bool orb a b
  | OpBitAnd => with_u256 (fun x y => VU256 (Z.land x y)) a b
  | OpBitOr => with_u256 (fun x y => VU256 (Z.lor x y)) a b
  | OpBitXor => with_u256 (fun x y => VU256 (Z.lxor x y)) a b
  | OpShl => with_u256 (fun x y => VU256 ((x * 2 ^ y) mod 2 ^ 256)) a b
  | OpShr => with_u256 (fun x y => VU256 (x / 2 ^ y)) a b
  | _ => None
  end.
Definition eval_unary (op : UnaryOp) (a : Value) : option Value :=
  match op with
  | OpNeg => x ← as_u256 a; Some (VU256 ((- x) mod 2 ^ 256))
  | OpNot => x ← as_bool a; Some (VBool (negb x))
  | OpBitNot => x ← as_u256 a; Some (VU256 (2 ^ 256 - 1 - x))
  end.

Fixpoint eval (env : chars -> option Value) (e : Expr) : option Value :=
  let '(mkExpr _ _ kind) := e in
  match kind with
  | ExLiteral (LitInt s _) => Some (VU256 (from_be (parse_int_literal s)))
  | ExLiteral (LitBool b) => Some (VU256 (if b then 1 else 0))
  | ExPath path => match ep_segments path with [ident] => env (id_name ident) | _ => None end
  | ExBinary op l r => a ← eval env l; b ← eval env r; eval_binary op a b
  | ExUnary op operand => a ← eval env operand; eval_unary op a
  | ExParen inner => eval env inner
  | _ => None
  end.

(** What a name stands for: a local of the frame before a slot of storage. *)
Definition env_of (c : Codegen) (locals : list Value) (storage : Slots.t) (name : chars) : option Value :=
  match cg_locals c !! name with
  | Some local => locals !! Z.to_nat (lv_index local)
  | None => slot ← cg_storage_slots c !! name; Some (VU256 (from_be (Slots.load (to_be 32 slot) storage)))
  end.

(** ** Code *)

Definition push_of (w : bytes) : Instruction := mkInstruction OpPush (Some w).
Definition op_of (o : Opcode) : Instruction := mkInstruction o None.
Definition code_of_path (c : Codegen) (name : chars) : option (list Instruction) :=
  match cg_locals c !! name with
  | Some local => Some [mkInstruction OpLoadLocal (Some (to_be 2 (lv_index local)))]
  | None => slot ← cg_storage_slots c !! name; Some [push_of (replicate 28 0 ++ to_be 4 slot); op_of OpSLoad]
  end.
Fixpoint code_of (c : Codegen) (e : Expr) : option (list Instruction) :=
  let '(mkExpr _ _ kind) := e in
  match kind with
  | ExLiteral (LitInt s _) => Some [push_of (parse_int_literal s)]
  | ExLiteral (LitBool b) => Some [push_of (right_aligned [if b then 1 else 0])]
  | ExPath path => match ep_segments path with [ident] => code_of_path c (id_name ident) | _ => None end
  | ExBinary op l r => cl ← code_of c l; cr ← code_of c r; o ← binary_opcode op; Some (cl ++ cr ++ [op_of o])
  | ExUnary op operand => co ← code_of c operand; Some (co ++ [op_of (unary_opcode op)])
  | ExParen inner => code_of c inner
  | _ => None
  end.
(** The slots of the stack an expression needs. *)
Fixpoint depth (e : Expr) : nat :=
  let '(mkExpr _ _ kind) := e in
  match kind with
  | ExBinary _ l r => Nat.max (depth l) (S (depth r))
  | ExUnary _ operand => depth operand
  | ExParen inner => depth inner
  | _ => 1
  end.

Definition same_tables (c c' : Codegen) : Prop := cg_locals c' = cg_locals c /\ cg_storage_slots c' = cg_storage_slots c.
Definition add_code (code : list Instruction) (c : Codegen) : Codegen := set_instructions (cg_instructions c ++ code) c.

Lemma add_code_app code code' c : add_code code' (add_code code c) = add_code (code ++ code') c.
Proof. unfold add_code, set_instructions. simpl. by rewrite <-(assoc_L app). Qed.
Lemma same_tables_add c c' code : same_tables c c' -> same_tables c (add_code code c').
Proof. done. Qed.
Lemma emit_add i c : emit i c = (Ok tt, add_code [i] c).
Proof. done. Qed.

Lemma generate_path_code c c' path sp code :
  same_tables c c' -> (match ep_segments path with [ident] => code_of_path c (id_name ident) | _ => None end) = Some code ->
  generate_path path sp c' = (Ok tt, add_code code c').
Proof.
  intros [El Es] Hc. unfold generate_path. destruct (ep_segments path) as [|ident [|]]; [done| |done].
  unfold code_of_path in Hc. unfold bind at 1, gets. simpl. rewrite El, Es.
  destruct (cg_locals c !! id_name ident) as [local|]; [by injection Hc as <-|].
  destruct (cg_storage_slots c !! id_name ident) as [slot|]; [|done]. injection Hc as <-.
  unfold emit_push_u32, emit_push_u256, emit_op, bind. by rewrite !emit_add, add_code_app.
Qed.

Lemma code_of_generates c e : forall c' code,
  same_tables c c' -> code_of c e = Some code -> generate_expr e c' = (Ok tt, add_code code c').
Proof.
  revert e. fix IH 1. intros [id sp kind] c' code Ht Hc. destruct kind; try done; simpl in Hc |- *.
  - destruct l; try done; by injection Hc as <-.
  - by eapply generate_path_code.
  - destruct (code_of c a) as [ca|] eqn:Ea; [|done]. destruct (code_of c b) as [cb|] eqn:Eb; [|done]. simpl in Hc.
    destruct (binary_opcode op) as [o|] eqn:Eo; [|done]. injection Hc as <-. unfold generate_binary, bind at 1.
    rewrite (IH a _ _ Ht Ea). unfold bind at 1. rewrite (IH b _ _ (same_tables_add _ _ _ Ht) Eb), Eo.
    unfold emit_op. by rewrite emit_add, !add_code_app.
  - destruct (code_of c e) as [ce|] eqn:Ee; [|done]. injection Hc as <-. unfold bind at 1. rewrite (IH e _ _ Ht Ee).
    unfold emit_op. by rewrite emit_add, add_code_app.
  - by apply IH.
Qed.
End meaning.

(** ** The machine *)

(** The machine with its stack, the program counter of its frame and its gas replaced. *)
Definition put (st : list Value) (pc : Z) (g : Gas.t) (v : Vm) : Vm :=
  set_gas g (set_stack (Stack.mk st (Stack.max_depth (vstack v))) (jump_to pc v)).

Lemma jump_to_twice p q v : jump_to p (jump_to q v) = jump_to p v.
Proof. unfold jump_to. destruct v as [? ? ? ? [|f fs] ? ? ? ? ? ?]; done. Qed.
Lemma frames_put st pc g v f fs : vframes v = f :: fs -> vframes (put st pc g v) = Frame.set_pc pc f :: fs.
Proof. intros E. unfold put, jump_to. by rewrite E. Qed.
Lemma put_put st pc g st' pc' g' v : put st pc g (put st' pc' g' v) = put st pc g v.
Proof. unfold put, jump_to. destruct v as [? ? ? ? [|f fs] ? ? ? ? ? ?]; done. Qed.
Lemma put_self v f fs : vframes v = f :: fs -> v = put (Stack.values (vstack v)) (Frame.pc f) (vgas v) v.
Proof. destruct v as [[] ? ? ? ? ? ? ? ? ? ?]. simpl. intros ->. by destruct f. Qed.

(** *** Gas *)

(** At least [n] units are left. *)
Definition gas_has (g : Gas.t) (n : Z) : Prop :=
  Gas.costs g = gas_costs_default /\ 0 <= Gas.used g /\ 0 <= n /\ Gas.used g + n <= Gas.limit g /\ Gas.limit g < u_max 64.

Lemma consume_has c n g : gas_has g (c + n) -> 0 <= c -> 0 <= n -> exists g', Gas.consume c g = (Ok tt, g') /\ gas_has g' n.
Proof.
  intros (Hc & Hu & _ & Hl & Hm) H0 Hn. unfold Gas.consume, sat_add. rewrite Z.min_l by lia.
  destruct (Z.ltb_spec (Gas.limit g) (Gas.used g + c)); [lia|]. eexists. split; [done|].
  unfold gas_has. simpl. split_and!; (done || lia).
Qed.

(** What an instruction may cost: a slot is read at the price of a cold one, and written at that of a new one. *)
Definition instr_cost (i : Instruction) : Z :=
  opcode_cost gas_costs_default (opcode i) +
  match opcode i with OpSLoad => sload_cold gas_costs_default | OpSStore => sstore_set gas_costs_default | _ => 0 end.
Definition budget (code : list Instruction) : Z := foldr (fun i n => instr_cost i + n) 0 code.

Lemma instr_cost_nonneg i : 0 <= instr_cost i.
Proof. by destruct i as [[] w]. Qed.
Lemma budget_nonneg code : 0 <= budget code.
Proof. induction code as [|i code IH]; simpl; [done|]. pose proof (instr_cost_nonneg i). lia. Qed.
Lemma budget_app a b : budget (a ++ b) = budget a + budget b.
Proof. induction a as [|i a IH]; simpl; [done|]. rewrite IH. lia. Qed.

Section machine.
Context `{B : Blake3, HD : HexDecode}.

(** *** Runs *)

Definition steps (whole : list Instruction) (n : nat) (v v' : Vm) : Prop :=
  forall fuel, vm_run (n + fuel) whole v = vm_run fuel whole v'.
Lemma steps_trans whole n m v1 v2 v3 : steps whole n v1 v2 -> steps whole m v2 v3 -> steps whole (n + m) v1 v3.
Proof. intros H1 H2 fuel. rewrite <-Nat.add_assoc, H1. apply H2. Qed.

Lemma on_gas_put (m : ST Gas.t GasError unit) p st pc g v g1 :
  m g = (Ok tt, g1) -> on_gas m (jump_to p (put st pc g v)) = (Ok tt, put st p g1 v).
Proof.
  intros Hm. destruct v as [? ? ? ? [|f fs] ? ? ? ? ? ?]; unfold on_gas, zoom, put, jump_to; simpl; by rewrite Hm.
Qed.
Lemma steps_instr whole i st pc g v f fs g1 w :
  vframes v = f :: fs -> 0 <= pc < 2 ^ 63 -> whole !! Z.to_nat pc = Some i -> Gas.consume_opcode (opcode i) g = (Ok tt, g1) ->
  execute_instruction i (put st (pc + 1) g1 v) = (Ok Continue, w) -> steps whole 1 (put st pc g v) w.
Proof.
  intros Hf Hpc Hi Hg Hx fuel. change (1 + fuel)%nat with (S fuel).
  eapply vm_run_continue; [by apply frames_put|done| |exact Hx].
  assert (Eu : u64_add pc 1 = pc + 1) by (apply wrap_small; split; lia).
  change (Frame.pc (Frame.set_pc pc f)) with pc. rewrite Eu.
  by apply on_gas_put.
Qed.

(** *** Instructions *)

Lemma push_put x st pc g v :
  (length st < Stack.max_depth (vstack v))%nat -> push x (put st pc g v) = (Ok tt, put (x :: st) pc g v).
Proof.
  intros Hl. unfold push, on_stack, zoom, update, Stack.push. 
  change (Stack.max_depth (vstack (put st pc g v))) with (Stack.max_depth (vstack v)).
  change (Stack.values (vstack (put st pc g v))) with st. destruct (Nat.leb_spec (Stack.max_depth (vstack v)) (length st)); [lia|].
  unfold put, jump_to. by destruct v as [? ? ? ? [|f fs] ? ? ? ? ? ?].
Qed.
Lemma pop_put x st pc g v : pop (put (x :: st) pc g v) = (Ok x, put st pc g v).
Proof.
  unfold pop, on_stack, zoom, Stack.pop. change (Stack.values (vstack (put (x :: st) pc g v))) with (x :: st).
  unfold put, jump_to. by destruct v as [? ? ? ? [|f fs] ? ? ? ? ? ?].
Qed.
Lemma pop_u256_put x n st pc g v : as_u256 x = Some n -> pop_u256 (put (x :: st) pc g v) = (Ok n, put st pc g v).
Proof. intros Hn. unfold pop_u256. rewrite (bind_ok _ _ _ _ _ (pop_put x st pc g v)). by rewrite Hn. Qed.
Lemma pop_bool_put x b st pc g v : as_bool x = Some b -> pop_bool (put (x :: st) pc g v) = (Ok b, put st pc g v).
Proof. intros Hn. unfold pop_bool. rewrite (bind_ok _ _ _ _ _ (pop_put x st pc g v)). by rewrite Hn. Qed.

Lemma as_u256_ok a x : value_ok a -> as_u256 a = Some x -> in_u 256 x.
Proof. intros Ha. destruct a; simpl; intros [= <-]; [done|]. by destruct b. Qed.

Section room.
Context (st : list Value) (pc : Z) (g : Gas.t) (v : Vm) (Hroom : (length st < Stack.max_depth (vstack v))%nat).

Lemma binop_put f a b r :
  with_u256 f a b = Some r -> binop f (put (b :: a :: st) pc g v) = (Ok tt, put (r :: st) pc g v).
Proof using Hroom.
  unfold with_u256. destruct (as_u256 a) as [x|] eqn:Ea; [|done]. destruct (as_u256 b) as [y|] eqn:Eb; [|done]. intros [= <-].
  unfold binop. rewrite (bind_ok _ _ _ _ _ (pop_u256_put _ _ _ _ _ _ Eb)), (bind_ok _ _ _ _ _ (pop_u256_put _ _ _ _ _ _ Ea)).
  by apply push_put.
Qed.
Lemma logic_put f a b r :
  with_bool f a b = Some r ->
  (let! b := pop_bool in let! a := pop_bool in push (VBool (f a b))) (put (b :: a :: st) pc g v) = (Ok tt, put (r :: st) pc g v).
Proof using Hroom.
  unfold with_bool. destruct (as_bool a) as [x|] eqn:Ea; [|done]. destruct (as_bool b) as [y|] eqn:Eb; [|done]. intros [= <-].
  rewrite (bind_ok _ _ _ _ _ (pop_bool_put _ _ _ _ _ _ Eb)), (bind_ok _ _ _ _ _ (pop_bool_put _ _ _ _ _ _ Ea)).
  by apply push_put.
Qed.
Lemma compare_put f a b :
  (let! b := pop in let! a := pop in push (VBool (f a b))) (put (b :: a :: st) pc g v) = (Ok tt, put (VBool (f a b) :: st) pc g v).
Proof using Hroom.
  rewrite (bind_ok _ _ _ _ _ (pop_put _ _ _ _ _)), (bind_ok _ _ _ _ _ (pop_put _ _ _ _ _)). by apply push_put.
Qed.

Lemma with_u256_ext f f' a b :
  value_ok a -> value_ok b -> (forall x y, in_u 256 x -> in_u 256 y -> f x y = f' x y) -> with_u256 f a b = with_u256 f' a b.
Proof using.
  intros Ha Hb Hf. unfold with_u256. destruct (as_u256 a) as [x|] eqn:Ea; [|done]. destruct (as_u256 b) as [y|] eqn:Eb; [|done].
  simpl. f_equal. apply Hf; [by apply (as_u256_ok a)|by apply (as_u256_ok b)].
Qed.

Lemma continue_put (m : VM unit) w w' : m w = (Ok tt, w') -> (m ;; ret Continue : VM ControlFlow) w = (Ok Continue, w').
Proof using. intros Hm. by rewrite (bind_ok _ _ _ _ _ Hm). Qed.

Lemma exec_arith_put o op a b r :
  binary_opcode op = Some o -> op ∈ [OpAdd; OpSub; OpMul; OpDiv; OpRem; OpPow] ->
  value_ok a -> value_ok b -> eval_binary op a b = Some r ->
  exec_arith o (put (b :: a :: st) pc g v) = (Ok tt, put (r :: st) pc g v).
Proof using Hroom.
  intros Ho Hop Ha Hb Hr. rewrite !elem_of_cons in Hop.
  destruct Hop as [->|[->|[->|[->|[->|[->|Hop]]]]]]; try (injection Ho as <-); cbn [exec_arith];
    try (apply binop_put; rewrite <-Hr; cbn [eval_binary]; apply with_u256_ext; try done; intros x y Hx Hy; by destruct (y =? 0)).
  - cbn [eval_binary] in Hr. unfold with_u256 in Hr. destruct (as_u256 a) as [x|] eqn:Ea; [|done]. destruct (as_u256 b) as [y|] eqn:Eb; [|done].
    injection Hr as <-. rewrite (bind_ok _ _ _ _ _ (pop_u256_put _ _ _ _ _ _ Eb)), (bind_ok _ _ _ _ _ (pop_u256_put _ _ _ _ _ _ Ea)).
    rewrite (bind_ok _ _ _ _ _ (pow_u256_exact _ _ _ (as_u256_ok _ _ Ha Ea) (as_u256_ok _ _ Hb Eb))). by apply push_put.
  - by apply elem_of_nil in Hop.
Qed.
Lemma exec_compare_put o op a b r :
  binary_opcode op = Some o -> op ∈ [OpEq; OpNe; OpLt; OpLe; OpGt; OpGe] ->
  value_ok a -> value_ok b -> eval_binary op a b = Some r ->
  exec_compare o (put (b :: a :: st) pc g v) = (Ok tt, put (r :: st) pc g v).
Proof using Hroom.
  assert (He : value_eqb a b = bool_decide (a = b)) by (apply eq_bool_prop_intro; rewrite bool_decide_spec, <-value_eqb_eq; apply Is_true_true).
  intros Ho Hop Ha Hb Hr. rewrite !elem_of_cons in Hop.
  destruct Hop as [->|[->|[->|[->|[->|[->|Hop]]]]]]; try (injection Ho as <-); cbn [exec_compare]; cbn [eval_binary] in Hr.
  - injection Hr as <-. rewrite <-He. apply (compare_put value_eqb).
  - injection Hr as <-. rewrite bool_decide_not, <-He. apply (compare_put (fun a b => negb (value_eqb a b))).
  - apply binop_put. rewrite <-Hr. apply with_u256_ext; try done. clear He. intros x y _ _. f_equal. destruct (Z.ltb_spec x y); case_bool_decide; (done || lia).
  - apply binop_put. rewrite <-Hr. apply with_u256_ext; try done. clear He. intros x y _ _. f_equal. destruct (Z.leb_spec x y); case_bool_decide; (done || lia).
  - apply binop_put. rewrite <-Hr. apply with_u256_ext; try done. clear He. intros x y _ _. f_equal. destruct (Z.ltb_spec y x); case_bool_decide; (done || lia).
  - apply binop_put. rewrite <-Hr. apply with_u256_ext; try done. clear He. intros x y _ _. f_equal. destruct (Z.leb_spec y x); case_bool_decide; (done || lia).
  - by apply elem_of_nil in Hop.
Qed.
Lemma exec_bitwise_put o op a b r :
  binary_opcode op = Some o -> op ∈ [OpBitAnd; OpBitOr; OpBitXor; OpShl; OpShr] ->
  value_ok a -> value_ok b -> eval_binary op a b = Some r ->
  exec_bitwise o (put (b :: a :: st) pc g v) = (Ok tt, put (r :: st) pc g v).
Proof using Hroom.
  intros Ho Hop Ha Hb Hr. rewrite !elem_of_cons in Hop.
  destruct Hop as [->|[->|[->|[->|[->|Hop]]]]]; try (injection Ho as <-); cbn [exec_bitwise]; cbn [eval_binary] in Hr;
    try (by apply elem_of_nil in Hop); apply binop_put; rewrite <-Hr; apply with_u256_ext; try done; intros x y Hx Hy;
    destruct (Z.leb_spec 256 y) as [Hge|Hlt]; unfold value_zero; f_equal.
  - symmetry. apply Z.mod_divide; [done|]. apply Z.divide_mul_r. exists (2 ^ (y - 256)). rewrite <-Z.pow_add_r by lia. f_equal. lia.
  - by rewrite Z.shiftl_mul_pow2 by apply Hy.
  - symmetry. apply Z.div_small. split; [apply Hx|]. eapply Z.lt_le_trans; [apply Hx|]. apply Z.pow_le_mono_r; lia.
  - by rewrite Z.shiftr_div_pow2 by apply Hy.
Qed.

Lemma execute_binary o op a b r :
  binary_opcode op = Some o -> value_ok a -> value_ok b -> eval_binary op a b = Some r ->
  execute_instruction (op_of o) (put (b :: a :: st) pc g v) = (Ok Continue, put (r :: st) pc g v).
Proof using Hroom.
  intros Ho Ha Hb Hr. destruct op; try discriminate Ho; injection Ho as Ho; subst o; unfold execute_instruction, op_of; cbn [opcode];
    apply continue_put;
    first [eapply exec_arith_put; [| |exact Ha|exact Hb|exact Hr]; [reflexivity|rewrite !elem_of_cons; tauto]
          |eapply exec_compare_put; [| |exact Ha|exact Hb|exact Hr]; [reflexivity|rewrite !elem_of_cons; tauto]
          |eapply exec_bitwise_put; [| |exact Ha|exact Hb|exact Hr]; [reflexivity|rewrite !elem_of_cons; tauto]
          |apply (logic_put andb); exact Hr|apply (logic_put orb); exact Hr].
Qed.
Lemma execute_unary op a r :
  value_ok a -> eval_unary op a = Some r ->
  execute_instruction (op_of (unary_opcode op)) (put (a :: st) pc g v) = (Ok Continue, put (r :: st) pc g v).
Proof using Hroom.
  intros Ha Hr. destruct op; unfold execute_instruction, op_of; cbn [opcode unary_opcode]; apply continue_put; cbn [eval_unary] in Hr.
  - destruct (as_u256 a) as [x|] eqn:Ea; [|done]. injection Hr as <-. cbn [exec_arith].
    rewrite (bind_ok _ _ _ _ _ (pop_u256_put _ _ _ _ _ _ Ea)). by apply push_put.
  - destruct (as_bool a) as [x|] eqn:Ea; [|done]. injection Hr as <-. cbn [exec_logic].
    rewrite (bind_ok _ _ _ _ _ (pop_bool_put _ _ _ _ _ _ Ea)). by apply push_put.
  - destruct (as_u256 a) as [x|] eqn:Ea; [|done]. injection Hr as <-. cbn [exec_bitwise].
    rewrite (bind_ok _ _ _ _ _ (pop_u256_put _ _ _ _ _ _ Ea)). by apply push_put.
Qed.
End room.

Lemma execute_push_put w st pc g v :
  length w = 32%nat -> (length st < Stack.max_depth (vstack v))%nat ->
  execute_instruction (push_of w) (put st pc g v) = (Ok Continue, put (VU256 (from_be w) :: st) pc g v).
Proof.
  intros Hw Hl. unfold execute_instruction, push_of. cbn [opcode]. apply continue_put. unfold exec_stack. cbn [opcode].
  unfold decode_push_value. cbn [operand]. rewrite Hw. cbn [Nat.eqb]. unfold bind, ret. by apply push_put.
Qed.
Lemma current_frame_put st pc g v f fs :
  vframes v = f :: fs -> current_frame (put st pc g v) = (Ok (Frame.set_pc pc f), put st pc g v).
Proof. intros Hf. unfold current_frame. rewrite bind_gets. by rewrite (frames_put _ _ _ _ _ _ Hf). Qed.
Lemma execute_load_local idx x st pc g v f fs :
  vframes v = f :: fs -> in_u 16 idx -> Frame.locals f !! Z.to_nat idx = Some x -> (length st < Stack.max_depth (vstack v))%nat ->
  execute_instruction (mkInstruction OpLoadLocal (Some (to_be 2 idx))) (put st pc g v) = (Ok Continue, put (x :: st) pc g v).
Proof.
  intros Hf Hi Hx Hl. unfold execute_instruction. cbn [opcode]. apply continue_put. unfold exec_memory. cbn [opcode].
  assert (Hd : decode_u16 (mkInstruction OpLoadLocal (Some (to_be 2 idx))) (put st pc g v) = (Ok idx, put st pc g v)).
  { unfold decode_u16. cbn [operand]. pose proof (length_to_be 2 idx) as Hlen. pose proof (from_to_be 2 idx) as Hft.
    destruct (to_be 2 idx) as [|a [|b [|]]]; try done. rewrite Hft. unfold ret. do 2 f_equal. by apply Z.mod_small. }
  rewrite (bind_ok _ _ _ _ _ Hd), (bind_ok _ _ _ _ _ (current_frame_put st pc g v f fs Hf)).
  unfold bind, map_err, query, Frame.get_local. cbn [Frame.locals Frame.set_pc]. rewrite Hx. by apply push_put.
Qed.
Lemma execute_sload n st pc g v g' :
  Gas.consume_sload (to_be 32 n) g = (Ok tt, g') -> (length st < Stack.max_depth (vstack v))%nat ->
  execute_instruction (op_of OpSLoad) (put (VU256 n :: st) pc g v) =
    (Ok Continue, put (VU256 (from_be (Slots.load (to_be 32 n) (vstorage v))) :: st) pc g' v).
Proof.
  intros Hg Hl. unfold execute_instruction, op_of. cbn [opcode]. apply continue_put. unfold exec_storage.
  assert (Hp : pop_h256 (put (VU256 n :: st) pc g v) = (Ok (to_be 32 n), put st pc g v)).
  { unfold pop_h256. by rewrite (bind_ok _ _ _ _ _ (pop_put _ _ _ _ _)). }
  rewrite (bind_ok _ _ _ _ _ Hp).
  assert (Hc : on_gas (Gas.consume_sload (to_be 32 n)) (put st pc g v) = (Ok tt, put st pc g' v)).
  { unfold on_gas, zoom. change (vgas (put st pc g v)) with g. by rewrite Hg. }
  rewrite (bind_ok _ _ _ _ _ Hc), bind_gets. replace (vstorage (put st pc g' v)) with (vstorage v); [by apply push_put|].
  unfold put, jump_to. by destruct v as [? ? ? ? [|f fs] ? ? ? ? ? ?].
Qed.
End machine.

(** ** Values *)

(** [hex::decode] returns bytes, and an error for an odd number of digits. *)
Class HexOk (HD : HexDecode) : Prop := {
  hex_bytes s bs : hex_decode s = Some bs -> bytes_ok bs;
  hex_odd s : Nat.Odd (length s) -> hex_decode s = None;
}.

Lemma zeros_ok n : bytes_ok (replicate n 0).
Proof. apply Forall_replicate. by split. Qed.
Lemma right_aligned_ok bs : (length bs <= 32)%nat -> bytes_ok bs -> word_ok (right_aligned bs).
Proof.
  intros Hl Hb. unfold right_aligned. split; [rewrite length_app, length_replicate; lia|]. apply Forall_app. split; [apply zeros_ok|done].
Qed.
Lemma u128_word_ok v : word_ok (u128_word v).
Proof.
  destruct v as [v|]; [|split; [done|apply zeros_ok]]. apply right_aligned_ok; [by rewrite length_to_be; lia|apply to_be_ok].
Qed.

Section values.
Context `{B : Blake3, HD : HexDecode, HO : !HexOk HD}.

Lemma parse_int_literal_ok s : word_ok (parse_int_literal s).
Proof using HO.
  unfold parse_int_literal. repeat case_match; try apply u128_word_ok; [|split; [done|apply zeros_ok]].
  apply right_aligned_ok; [rewrite length_take; lia|]. apply Forall_take. by eapply hex_bytes.
Qed.

Lemma in_u_mod x : in_u 256 (x mod 2 ^ 256).
Proof using. apply Z.mod_pos_bound. done. Qed.
Lemma eval_binary_ok op a b r : value_ok a -> value_ok b -> eval_binary op a b = Some r -> value_ok r.
Proof using.
  intros Ha Hb Hr. assert (Hw : forall f, with_u256 f a b = Some r -> (forall x y, in_u 256 x -> in_u 256 y -> value_ok (f x y)) -> value_ok r).
  { intros f. unfold with_u256. destruct (as_u256 a) as [x|] eqn:Ea; [|done]. destruct (as_u256 b) as [y|] eqn:Eb; [|done].
    intros [= <-] Hf. apply Hf; [by apply (as_u256_ok a)|by apply (as_u256_ok b)]. }
  assert (Hd : forall x n, in_u 256 x -> 0 < n -> in_u 256 (x / n)).
  { intros x n [? ?] ?. split; [apply Z.div_pos; lia|]. apply Z.le_lt_trans with x; [|done]. apply Z.div_le_upper_bound; nia. }
  destruct op; cbn [eval_binary] in Hr; try done; try (by injection Hr as <-);
    try (by apply (Hw _ Hr); intros; apply in_u_mod); try (by apply (Hw _ Hr)).
  - apply (Hw _ Hr). intros x y Hx Hy. simpl. destruct (Z.eqb_spec y 0); [done|]. apply Hd; [done|destruct Hy; lia].
  - apply (Hw _ Hr). intros x y Hx Hy. simpl. destruct (Z.eqb_spec y 0); [done|].
    destruct Hx, Hy. split; [apply Z.mod_pos_bound; lia|]. pose proof (Z.mod_pos_bound x y). lia.
  - unfold with_bool in Hr. destruct (as_bool a), (as_bool b); try done. by injection Hr as <-.
  - unfold with_bool in Hr. destruct (as_bool a), (as_bool b); try done. by injection Hr as <-.
  - apply (Hw _ Hr). apply land_in_u.
  - apply (Hw _ Hr). apply lor_in_u.
  - apply (Hw _ Hr). apply lxor_in_u.
  - apply (Hw _ Hr). intros x y Hx Hy. apply Hd; [done|]. apply Z.pow_pos_nonneg; [lia|apply Hy].
Qed.
Lemma eval_unary_ok op a r : value_ok a -> eval_unary op a = Some r -> value_ok r.
Proof using.
  intros Ha Hr. destruct op; cbn [eval_unary] in Hr.
  - destruct (as_u256 a); [|done]. injection Hr as <-. apply in_u_mod.
  - destruct (as_bool a); [|done]. by injection Hr as <-.
  - destruct (as_u256 a) as [x|] eqn:Ea; [|done]. injection Hr as <-. apply as_u256_ok in Ea as [? ?]; [|done]. split; lia.
Qed.

Lemma eval_ok env e : (forall name x, env name = Some x -> value_ok x) -> forall val, eval env e = Some val -> value_ok val.
Proof using HO.
  intros Henv. revert e. fix IH 1. intros [id sp kind] val Hv. destruct kind; try done; simpl in Hv.
  - destruct l; try done; injection Hv as <-; [|by destruct b]. destruct (parse_int_literal_ok s) as [Hl Hb]. apply from_be_word; [done|lia].
  - destruct (ep_segments p) as [|ident [|]]; try done. by eapply Henv.
  - destruct (eval env a) as [x|] eqn:Ea; [|done]. destruct (eval env b) as [y|] eqn:Eb; [|done].
    apply (eval_binary_ok op x y); [by apply (IH a)|by apply (IH b)|done].
  - destruct (eval env e) as [x|] eqn:Ee; [|done]. apply (eval_unary_ok op x); [by apply (IH e)|done].
  - by apply (IH e).
Qed.
End values.

(** ** Running the code of an expression *)

(** Indices of locals are 16 bits wide, slots 32. *)
Definition tables_ok (c : Codegen) : Prop :=
  map_Forall (fun _ local => in_u 16 (lv_index local)) (cg_locals c) /\ map_Forall (fun _ slot => in_u 32 slot) (cg_storage_slots c).

Lemma sload_gas key g n :
  gas_has g (sload_cold gas_costs_default + n) -> 0 <= n -> exists g', Gas.consume_sload key g = (Ok tt, g') /\ gas_has g' n.
Proof.
  intros (Hc & Hu & Hp & Hl & Hm) Hn. unfold Gas.consume_sload, Gas.warm_slot. cbn [Gas.costs]. rewrite Hc.
  case_match; (apply consume_has; [|done..]); unfold gas_has; simpl in *; split_and!; (done || lia).
Qed.
Lemma from_be_zeros n bs : from_be (replicate n 0 ++ bs) = from_be bs.
Proof. induction n as [|n IH]; [done|]. cbn [replicate app]. by rewrite from_be_cons, IH. Qed.
Lemma slot_word slot : in_u 32 slot -> word_ok (replicate 28 0 ++ to_be 4 slot) /\ from_be (replicate 28 0 ++ to_be 4 slot) = slot.
Proof.
  intros Hs. split.
  - split; [by rewrite length_app, length_to_be, length_replicate|]. apply Forall_app. split; [apply zeros_ok|apply to_be_ok].
  - rewrite from_be_zeros, from_to_be. by apply Z.mod_small.
Qed.

Lemma depth_pos e : (1 <= depth e)%nat.
Proof. revert e. fix IH 1. intros [? ? []]; simpl; try apply Nat.le_refl; try apply IH. lia. Qed.

Section runs.
Context `{B : Blake3, HD : HexDecode, HO : !HexOk HD}.
Context (c : Codegen) (v : Vm) (f : Frame.t) (fs : list Frame.t) (whole : list Instruction).
Context (Htab : tables_ok c) (Hf : vframes v = f :: fs) (Hwhole : Z.of_nat (length whole) < 2 ^ 63).
Context (Hlocals : Forall value_ok (Frame.locals f)) (Hslots : slots_ok (vstorage v)).
Let env : chars -> option Value := env_of c (Frame.locals f) (vstorage v).

(** [code] at [pre] pushes [val], given room and gas. *)
Definition pushes (code : list Instruction) (val : Value) (d : nat) : Prop :=
  forall pre post st g n, whole = pre ++ code ++ post -> (length st + d <= Stack.max_depth (vstack v))%nat ->
    gas_has g (budget code + n) -> 0 <= n ->
    exists g', steps whole (length code) (put st (Z.of_nat (length pre)) g v)
                 (put (val :: st) (Z.of_nat (length (pre ++ code))) g' v) /\ gas_has g' n.

(** One instruction that leaves [st'] for [st], and [v'] for the machine. *)
Lemma one_step_to v' i pre post st st' g n :
  whole = pre ++ [i] ++ post -> gas_has g (instr_cost i + n) -> 0 <= n ->
  (forall pc g1 m, gas_has g1 (m + n) -> 0 <= m -> instr_cost i = opcode_cost gas_costs_default (opcode i) + m ->
     exists g', execute_instruction i (put st pc g1 v) = (Ok Continue, put st' pc g' v') /\ gas_has g' n) ->
  exists g', steps whole 1 (put st (Z.of_nat (length pre)) g v) (put st' (Z.of_nat (length (pre ++ [i]))) g' v') /\ gas_has g' n.
Proof using Hf Hwhole.
  intros Hw Hg Hn Hx. set (m := instr_cost i - opcode_cost gas_costs_default (opcode i)).
  assert (Hm : 0 <= m) by (unfold m, instr_cost; destruct (opcode i); simpl; lia).
  destruct (consume_has (opcode_cost gas_costs_default (opcode i)) (m + n) g) as (g1 & Eg & Hg1); [by replace (_ + (m + n)) with (instr_cost i + n) by (unfold m; lia)|apply opcode_cost_nonneg|lia|].
  destruct (Hx (Z.of_nat (length pre) + 1) g1 m Hg1 Hm ltac:(unfold m; lia)) as (g' & Ex & Hg'). exists g'. split; [|done].
  rewrite length_app, Nat2Z.inj_add. change (Z.of_nat (length [i])) with 1. eapply steps_instr; [done| | | |exact Ex].
  - subst whole. rewrite !length_app in Hwhole. lia.
  - rewrite Nat2Z.id, Hw. by apply list_lookup_middle.
  - unfold Gas.consume_opcode. destruct Hg as [-> _]. done.
Qed.

Lemma one_step i pre post st st' g n :
  whole = pre ++ [i] ++ post -> gas_has g (instr_cost i + n) -> 0 <= n ->
  (forall pc g1 m, gas_has g1 (m + n) -> 0 <= m -> instr_cost i = opcode_cost gas_costs_default (opcode i) + m ->
     exists g', execute_instruction i (put st pc g1 v) = (Ok Continue, put st' pc g' v) /\ gas_has g' n) ->
  exists g', steps whole 1 (put st (Z.of_nat (length pre)) g v) (put st' (Z.of_nat (length (pre ++ [i]))) g' v) /\ gas_has g' n.
Proof using Hf Hwhole. apply one_step_to. Qed.

Lemma pushes_push w : word_ok w -> pushes [push_of w] (VU256 (from_be w)) 1.
Proof using Hf Hwhole.
  intros [Hl _] pre post st g n Hw Hr Hg Hn. eapply one_step; [done| |done|].
  { by rewrite <-(Z.add_0_r (instr_cost _)). }
  intros pc g1 m Hg1 Hm Hc. exists g1. split; [|by replace n with (m + n) by (unfold instr_cost in Hc; simpl in Hc; lia)].
  apply execute_push_put; [done|lia].
Qed.
Lemma pushes_local idx x :
  in_u 16 idx -> Frame.locals f !! Z.to_nat idx = Some x -> pushes [mkInstruction OpLoadLocal (Some (to_be 2 idx))] x 1.
Proof using Hf Hwhole.
  intros Hi Hx pre post st g n Hw Hr Hg Hn. eapply one_step; [done| |done|].
  { by rewrite <-(Z.add_0_r (instr_cost _)). }
  intros pc g1 m Hg1 Hm Hc. exists g1. split; [|by replace n with (m + n) by (unfold instr_cost in Hc; simpl in Hc; lia)].
  eapply execute_load_local; [done|done|done|lia].
Qed.


(** Two runs in sequence. *)
Lemma pushes_then code code' val val' d d' : 
  pushes code val d ->
  (forall pre post st g n, whole = pre ++ code' ++ post -> (length (val :: st) + d' <= Stack.max_depth (vstack v))%nat ->
    gas_has g (budget code' + n) -> 0 <= n ->
    exists g', steps whole (length code') (put (val :: st) (Z.of_nat (length pre)) g v)
                 (put (val' :: st) (Z.of_nat (length (pre ++ code'))) g' v) /\ gas_has g' n) ->
  pushes (code ++ code') val' (Nat.max d (S d')).
Proof using Hwhole.
  intros H1 H2 pre post st g n Hw Hr Hg Hn. rewrite budget_app, <-Z.add_assoc in Hg. rewrite <-(assoc_L app) in Hw.
  destruct (H1 pre (code' ++ post) st g (budget code' + n)) as (g1 & S1 & Hg1); [done|lia|done|pose proof (budget_nonneg code'); lia|].
  destruct (H2 (pre ++ code) post st g1 n) as (g2 & S2 & Hg2); [by rewrite Hw, <-(assoc_L app)|simpl; lia|done|done|].
  exists g2. split; [|done]. rewrite length_app, (assoc_L app). by eapply steps_trans.
Qed.

Lemma pushes_slot slot :
  in_u 32 slot ->
  pushes [push_of (replicate 28 0 ++ to_be 4 slot); op_of OpSLoad] (VU256 (from_be (Slots.load (to_be 32 slot) (vstorage v)))) 1.
Proof using Hf Hwhole.
  intros Hs. destruct (slot_word slot Hs) as [Hw Hv].
  apply (pushes_then [_] [_] (VU256 slot) _ 1 0); [rewrite <-Hv at 2; by apply pushes_push|].
  intros pre post st g n Hwh Hr Hg Hn. eapply one_step; [done| |done|].
  { by rewrite <-(Z.add_0_r (instr_cost _)). }
  intros pc g1 m Hg1 Hm Hc. destruct (sload_gas (to_be 32 slot) g1 n) as (g' & Eg & Hg'); [|done|].
  { by replace (sload_cold _) with m by (unfold instr_cost in Hc; simpl in Hc |- *; lia). }
  exists g'. split; [|done]. apply execute_sload; [done|simpl in Hr; lia].
Qed.

Lemma env_ok name x : env name = Some x -> value_ok x.
Proof using Hlocals Hslots Hwhole.
  unfold env, env_of. destruct (cg_locals c !! name) as [local|].
  - intros Hx. eapply Forall_lookup_1; [exact Hlocals|done].
  - destruct (cg_storage_slots c !! name) as [slot|]; [|done]. intros [= <-]. destruct Hslots as [Hs _]. unfold Slots.load.
    destruct (Slots.slots (vstorage v) !! to_be 32 slot) as [h|] eqn:E; simpl.
    + destruct (Hs _ _ E) as [? ?]. apply from_be_word; [done|lia].
    + apply from_be_word; [apply zeros_ok|done].
Qed.


(** The right operand and the operator, the left one on the stack. *)
Lemma pushes_operator b cb o op x y r :
  pushes cb y (depth b) -> binary_opcode op = Some o -> value_ok x -> value_ok y -> eval_binary op x y = Some r ->
  forall pre post st g n, whole = pre ++ (cb ++ [op_of o]) ++ post -> (length (x :: st) + depth b <= Stack.max_depth (vstack v))%nat ->
    gas_has g (budget (cb ++ [op_of o]) + n) -> 0 <= n ->
    exists g', steps whole (length (cb ++ [op_of o])) (put (x :: st) (Z.of_nat (length pre)) g v)
                 (put (r :: st) (Z.of_nat (length (pre ++ cb ++ [op_of o]))) g' v) /\ gas_has g' n.
Proof using Hf Hwhole.
  intros Hb Ho Hx Hy Hr pre post st g n Hw Hroom Hg Hn. rewrite budget_app, <-Z.add_assoc in Hg. rewrite <-(assoc_L app) in Hw.
  assert (Hone : budget [op_of o] = instr_cost (op_of o)) by apply Z.add_0_r. pose proof (instr_cost_nonneg (op_of o)).
  destruct (Hb pre ([op_of o] ++ post) (x :: st) g (instr_cost (op_of o) + n)) as (g1 & S1 & Hg1); [done|done|by rewrite <-Hone|lia|].
  destruct (one_step (op_of o) (pre ++ cb) post (y :: x :: st) (r :: st) g1 n) as (g2 & S2 & Hg2); [by rewrite Hw, <-(assoc_L app)|done|done| |].
  { intros pc g2 m Hg2 Hm Hc. exists g2. split; [|by replace n with (m + n) by (unfold instr_cost in Hc; simpl in Hc; destruct op; try discriminate Ho; injection Ho as <-; simpl in Hc; lia)].
    apply (execute_binary st pc g2 v) with op; try done. simpl in Hroom. pose proof (depth_pos b). lia. }
  exists g2. split; [|done]. rewrite length_app, (assoc_L app). by eapply steps_trans.
Qed.
Lemma pushes_unary op x r :
  value_ok x -> eval_unary op x = Some r ->
  forall pre post st g n, whole = pre ++ [op_of (unary_opcode op)] ++ post -> (length (x :: st) + 0 <= Stack.max_depth (vstack v))%nat ->
    gas_has g (budget [op_of (unary_opcode op)] + n) -> 0 <= n ->
    exists g', steps whole 1 (put (x :: st) (Z.of_nat (length pre)) g v)
                 (put (r :: st) (Z.of_nat (length (pre ++ [op_of (unary_opcode op)]))) g' v) /\ gas_has g' n.
Proof using Hf Hwhole.
  intros Hx Hr pre post st g n Hw Hroom Hg Hn. eapply one_step; [done| |done|].
  { by rewrite <-(Z.add_0_r (instr_cost _)). }
  intros pc g1 m Hg1 Hm Hc. exists g1. split; [|by replace n with (m + n) by (unfold instr_cost in Hc; destruct op; simpl in Hc; lia)].
  apply execute_unary; [simpl in Hroom; lia|done|done].
Qed.

Lemma run_expr e : forall code val, code_of c e = Some code -> eval env e = Some val -> pushes code val (depth e).
Proof using Htab Hf Hwhole Hlocals Hslots HO.
  revert e. fix IH 1. intros [id sp kind] code val Hc He. destruct kind; try done; simpl in Hc, He; cbn [depth].
  - destruct l; try done; injection Hc as <-; injection He as <-; [apply pushes_push, parse_int_literal_ok|].
    replace (VU256 (if b then 1 else 0)) with (VU256 (from_be (right_aligned [if b then 1 else 0]))) by (by destruct b).
    apply pushes_push, right_aligned_ok; [simpl; lia|]. apply Forall_singleton. by destruct b.
  - destruct (ep_segments p) as [|ident [|]]; try done. unfold env, env_of in He. unfold code_of_path in Hc. destruct Htab as [Hl Hs].
    destruct (cg_locals c !! id_name ident) as [local|] eqn:El.
    + injection Hc as <-. apply pushes_local; [by apply (Hl _ _ El)|done].
    + destruct (cg_storage_slots c !! id_name ident) as [slot|] eqn:Es; [|done]. injection Hc as <-. injection He as <-.
      apply pushes_slot. by apply (Hs _ _ Es).
  - destruct (code_of c a) as [ca|] eqn:Ca; [|done]. destruct (code_of c b) as [cb|] eqn:Cb; [|done]. simpl in Hc.
    destruct (binary_opcode op) as [o|] eqn:Eo; [|done]. injection Hc as <-.
    destruct (eval env a) as [x|] eqn:Ea; [|done]. destruct (eval env b) as [y|] eqn:Eb; [|done]. simpl in He.
    pose proof (eval_ok _ _ env_ok _ Ea) as Hx. pose proof (eval_ok _ _ env_ok _ Eb) as Hy.
    apply (pushes_then ca (cb ++ [op_of o]) x); [by apply (IH a)|]. by apply (pushes_operator b cb o op x y); [apply (IH b)|..].
  - destruct (code_of c e) as [ce|] eqn:Ce; [|done]. injection Hc as <-. destruct (eval env e) as [x|] eqn:Ee; [|done]. simpl in He.
    rewrite <-(Nat.max_l (depth e) 1) by apply depth_pos. apply (pushes_then ce [_] x); [by apply (IH e)|].
    by apply pushes_unary; [apply (eval_ok _ _ env_ok _ Ee)|].
  - by apply (IH e).
Qed.
End runs.

(** ** Functions *)

(** A machine that has run nothing, over a storage. *)
Definition machine (s : Slots.t) (ctx : ExecutionContext) (gas : Z) : Vm := set_storage s (with_context ctx (vm_new gas)).

Section functions.
Context `{B : Blake3, HD : HexDecode, HO : !HexOk HD}.

Lemma eval_code c locals s e : forall val, eval (env_of c locals s) e = Some val -> exists code, code_of c e = Some code.
Proof.
  revert e. fix IH 1. intros [id sp kind] val He. destruct kind; try done; simpl in He |- *.
  - destruct l; try done; eauto.
  - destruct (ep_segments p) as [|ident [|]]; try done. unfold env_of in He. unfold code_of_path.
    destruct (cg_locals c !! id_name ident); [eauto|]. destruct (cg_storage_slots c !! id_name ident); [|done]. simpl. eauto.
  - destruct (eval _ a) as [x|] eqn:Ea; [|done]. destruct (eval _ b) as [y|] eqn:Eb; [|done].
    destruct (IH a _ Ea) as [ca ->]. destruct (IH b _ Eb) as [cb ->]. simpl in He |- *. destruct op; try done; simpl; eauto.
  - destruct (eval _ e) as [x|] eqn:Ee; [|done]. destruct (IH e _ Ee) as [ce ->]. simpl. eauto.
  - by eapply IH.
Qed.

(** The last frame returns. *)
Lemma run_return fuel whole st pc g v f :
  vframes v = [f] -> vresources v = Tracker.new -> whole !! Z.to_nat pc = Some (op_of OpReturn) -> gas_has g 0 ->
  exists g', vm_run (S fuel) whole (put st pc g v) = (Ok tt, set_frames [] (put st pc g' v)).
Proof.
  intros Hf Hr Hi Hg. destruct (consume_has 0 0 g) as (g' & Eg & _); [done..|]. exists g'.
  assert (Hp : forall p, vframes (put st p g' v) = [Frame.set_pc p f]) by (intros; by apply frames_put).
  assert (Hres : forall p, vresources (put st p g' v) = Tracker.new).
  { intros p. unfold put, jump_to. by destruct v as [? ? ? ? [|? ?] ? ? ? ? ? ?]. }
  erewrite (vm_run_round _ _ _ _ _ (op_of OpReturn) _ Return); [|by apply frames_put|done| |].
  2:{ apply on_gas_put. unfold Gas.consume_opcode. destruct Hg as [-> _]. exact Eg. }
  2:{ unfold execute_instruction, op_of. cbn [opcode]. unfold exec_control. cbn [opcode]. unfold frame_index.
      unfold bind, gets, ret. rewrite Hp. unfold on_resources, zoom, query. rewrite Hres. reflexivity. }
  cbn [follow]. rewrite bind_modify. unfold set_resources. 
  destruct v as [? ? ? ? fr ? ? ? ? rs ?]. simpl in Hf, Hr. subst fr rs. destruct fuel; reflexivity.
Qed.
Lemma execute_value fuel code v v1 x st :
  vm_run fuel code (entered v) = (Ok tt, v1) -> Stack.values (vstack v1) = x :: st ->
  exists out v', vm_execute fuel code v = (Ok out, v') /\ out_success out = true /\ out_value out = Some x /\
    vstorage v' = vstorage v1 /\ out_storage_changes out = Slots.get_modified (vstorage v1).
Proof.
  intros Hr Hs. unfold vm_execute. rewrite bind_modify. fold (entered v). unfold bind at 1. unfold attempt at 1. rewrite Hr.
  unfold collect, bind, attempt, pop, on_stack, zoom, Stack.pop. rewrite Hs. simpl. eexists _, _. split_and!; done.
Qed.

Definition func_params (func : FunctionDef) : list Param :=
  let '(mkFunctionDef _ _ (mkFunctionSig _ _ _ _ _ _ params _) _ _) := func in params.
Definition func_stmts (func : FunctionDef) : list Stmt :=
  let '(mkFunctionDef _ _ _ (mkBlock _ _ stmts) _) := func in stmts.

(** A function without parameters whose body emits [code] and no jumps. *)
Lemma generate_thunk func c code :
  func_params func = [] -> for_each generate_stmt (func_stmts func) (reset_function c) = (Ok tt, add_code code (reset_function c)) ->
  ends_function code = false ->
  exists fb c', generate_function func (reset_function c) = (Ok fb, c') /\ fb_code fb = code ++ [op_of OpReturn].
Proof.
  destruct func as [? ? [? ? ? [] ? ? params ?] [i3 s3 stmts] ?]. cbn [func_params func_stmts]. intros -> Hb He. unfold generate_function.
  rewrite (bind_ok (for_each declare_param []) _ _ tt (reset_function c)) by done.
  rewrite (bind_ok (generate_block (mkBlock i3 s3 stmts)) _ _ _ _ Hb), bind_gets. unfold add_code at 1. cbn [cg_instructions set_instructions reset_function app].
  rewrite He. unfold emit_op. rewrite (bind_ok _ _ _ _ _ (emit_add _ _)). eexists _, _. split; reflexivity.
Qed.

Lemma generate_return_stmt i sp i' sp' e c code :
  code_of c e = Some code ->
  for_each generate_stmt [mkStmt i sp (StSemi (mkExpr i' sp' (ExReturn (Some e))))] c =
    (Ok tt, add_code (code ++ [op_of OpReturn; op_of OpPop]) c).
Proof.
  intros Hc. cbn [for_each generate_stmt generate_expr]. unfold emit_op, bind, ret.
  rewrite (code_of_generates c e c code) by done. rewrite emit_add, add_code_app, emit_add, add_code_app, <-(assoc_L app). done.
Qed.

(** [x = e;] with [x] in storage: the read of [x], [e] twice, the slot, the write. *)
Definition assign_code (slot : Z) (code : list Instruction) : list Instruction :=
  [push_of (replicate 28 0 ++ to_be 4 slot); op_of OpSLoad] ++ code ++ code ++
  [push_of (replicate 28 0 ++ to_be 4 slot); op_of OpSStore; op_of OpPop].
Lemma generate_assign_stmt i sp i1 sp1 i2 sp2 ident esp e c code slot :
  code_of c e = Some code -> cg_locals c !! id_name ident = None -> cg_storage_slots c !! id_name ident = Some slot ->
  for_each generate_stmt
    [mkStmt i sp (StSemi (mkExpr i1 sp1 (ExBinary OpAssign (mkExpr i2 sp2 (ExPath (mkExprPath [ident] esp))) e)))] c =
    (Ok tt, add_code (assign_code slot code) c).
Proof.
  intros Hc Hl Hs. cbn [for_each generate_stmt generate_expr]. unfold generate_binary, generate_assignment.
  assert (Hp : forall c', same_tables c c' -> generate_path (mkExprPath [ident] esp) sp2 c' =
    (Ok tt, add_code [push_of (replicate 28 0 ++ to_be 4 slot); op_of OpSLoad] c')).
  { intros c' Ht. apply (generate_path_code c); [done|]. simpl. unfold code_of_path. by rewrite Hl, Hs. }
  assert (He : forall cs, generate_expr e (add_code cs c) = (Ok tt, add_code code (add_code cs c))).
  { intros cs. by apply (code_of_generates c). }
  unfold bind, gets, ret. cbn [generate_expr]. rewrite Hp by done. rewrite He, add_code_app. cbn [binary_opcode]. rewrite He, add_code_app.
  cbn [ep_segments]. unfold add_code at 1 2. cbn [cg_locals cg_storage_slots set_instructions id]. unfold id. rewrite Hl, Hs.
  unfold emit_push_u32, emit_push_u256, emit_op. rewrite !emit_add, !add_code_app. unfold assign_code. by rewrite <-!(assoc_L app).
Qed.

Lemma sstore_gas key a b d g n :
  gas_has g (sstore_set gas_costs_default + n) -> 0 <= n -> exists g', Gas.consume_sstore key a b d g = (Ok tt, g') /\ gas_has g' n.
Proof.
  intros (Hc & Hu & Hp & Hl & Hm) Hn. unfold Gas.consume_sstore, Gas.warm_slot. cbn [Gas.costs]. rewrite Hc.
  destruct (sstore_cost gas_costs_default a b d) as [cost refund] eqn:Ec.
  assert (0 <= cost <= sstore_set gas_costs_default) by (unfold sstore_cost in Ec; repeat case_match; injection Ec as <- _; simpl; lia).
  edestruct (consume_has cost n) as (g1 & Eg & Hg1); [|lia|done|rewrite (bind_ok _ _ _ _ _ Eg)].
  { unfold gas_has. simpl. split_and!; (done || lia). }
  eexists. split; [done|]. destruct Hg1 as (? & ? & ? & ? & ?). unfold gas_has. simpl. split_and!; (done || lia).
Qed.
Lemma set_storage_put s st pc g v : set_storage s (put st pc g v) = put st pc g (set_storage s v).
Proof. unfold put, jump_to. by destruct v as [? ? ? ? [|? ?] ? ? ? ? ? ?]. Qed.
Lemma storage_put st pc g v : vstorage (put st pc g v) = vstorage v.
Proof. unfold put, jump_to. by destruct v as [? ? ? ? [|? ?] ? ? ? ? ? ?]. Qed.
Lemma context_put st pc g v : vcontext (put st pc g v) = vcontext v.
Proof. unfold put, jump_to. by destruct v as [? ? ? ? [|? ?] ? ? ? ? ? ?]. Qed.

(** The machine takes the top of the stack as the value and the next word as the key. *)
Lemma execute_sstore_put top key st pc g v n :
  cx_is_static (vcontext v) = false -> gas_has g (sstore_set gas_costs_default + n) -> 0 <= n ->
  exists g', execute_instruction (op_of OpSStore) (put (VU256 top :: VU256 key :: st) pc g v) =
    (Ok Continue, put st pc g' (set_storage (Slots.store (to_be 32 key) (to_be 32 top) (vstorage v)) v)) /\ gas_has g' n.
Proof.
  intros Hs Hg Hn. set (w := put (VU256 top :: VU256 key :: st) pc g v).
  destruct (sstore_gas (to_be 32 key) (is_zero_slot (Slots.original_value (to_be 32 key) (vstorage w)))
    (is_zero_slot (Slots.load (to_be 32 key) (vstorage w))) (top =? 0) g n Hg Hn) as (g' & Eg & Hg').
  exists g'. split; [|done]. rewrite (execute_sstore (set_stack (Stack.mk st (Stack.max_depth (vstack w))) w) w top key st g'); try done.
  - f_equal. unfold w. by rewrite storage_put, <-set_storage_put.
  - unfold w. by rewrite context_put.
Qed.
Lemma execute_pop_put x st pc g v : execute_instruction (op_of OpPop) (put (x :: st) pc g v) = (Ok Continue, put st pc g v).
Proof. unfold execute_instruction, op_of. cbn [opcode]. apply continue_put. unfold exec_stack. cbn [opcode]. by rewrite (bind_ok _ _ _ _ _ (pop_put _ _ _ _ _)). Qed.

(** The write: the machine stores the slot at the value. *)
Lemma run_sstore v f fs whole slot n st pre post g m :
  vframes v = f :: fs -> Z.of_nat (length whole) < 2 ^ 63 -> cx_is_static (vcontext v) = false -> in_u 32 slot ->
  let write := [push_of (replicate 28 0 ++ to_be 4 slot); op_of OpSStore; op_of OpPop] in
  whole = pre ++ write ++ post -> (length st + 3 <= Stack.max_depth (vstack v))%nat -> gas_has g (budget write + m) -> 0 <= m ->
  exists g', steps whole 3 (put (VU256 n :: VU256 n :: st) (Z.of_nat (length pre)) g v)
    (put st (Z.of_nat (length (pre ++ write))) g' (set_storage (Slots.store (to_be 32 n) (to_be 32 slot) (vstorage v)) v)) /\ gas_has g' m.
Proof.
  intros Hf Hlen Hst Hs write Hw Hroom Hg Hm. destruct (slot_word slot Hs) as [Hword Hval].
  set (p := push_of (replicate 28 0 ++ to_be 4 slot)) in *. set (v2 := set_storage _ v).
  assert (Hb : budget write = budget [p] + (instr_cost (op_of OpSStore) + (instr_cost (op_of OpPop) + 0))) by (simpl; lia).
  rewrite Hb in Hg. pose proof (instr_cost_nonneg (op_of OpSStore)). pose proof (instr_cost_nonneg (op_of OpPop)).
  destruct (pushes_push v f fs whole Hf Hlen _ Hword pre ([op_of OpSStore; op_of OpPop] ++ post) (VU256 n :: VU256 n :: st) g
    (instr_cost (op_of OpSStore) + (instr_cost (op_of OpPop) + m))) as (g1 & S1 & Hg1); [done|simpl; lia| |lia|].
  { by replace (budget [p] + _) with (budget [p] + (instr_cost (op_of OpSStore) + (instr_cost (op_of OpPop) + 0)) + m) by lia. }
  rewrite Hval in S1.
  destruct (one_step_to v f fs whole Hf Hlen v2 (op_of OpSStore) (pre ++ [p]) ([op_of OpPop] ++ post) (VU256 slot :: VU256 n :: VU256 n :: st)
    (VU256 n :: st) g1 (instr_cost (op_of OpPop) + m)) as (g2 & S2 & Hg2); [by rewrite Hw, <-(assoc_L app)|done|lia| |].
  { intros pc g3 k Hg3 Hk Hc. apply execute_sstore_put; [done| |lia].
    by replace (sstore_set gas_costs_default) with k by (unfold instr_cost in Hc; simpl in Hc |- *; lia). }
  assert (Hf2 : vframes v2 = f :: fs) by done.
  destruct (one_step v2 f fs whole Hf2 Hlen (op_of OpPop) ((pre ++ [p]) ++ [op_of OpSStore]) post (VU256 n :: st) st g2 m) as (g4 & S3 & Hg4);
    [by rewrite Hw, <-!(assoc_L app)|done|done| |].
  { intros pc g3 k Hg3 Hk Hc. exists g3. split; [apply execute_pop_put|].
    by replace m with (k + m) by (unfold instr_cost in Hc; simpl in Hc; lia). }
  exists g4. split; [|done]. replace (pre ++ write) with (((pre ++ [p]) ++ [op_of OpSStore]) ++ [op_of OpPop]) by (by rewrite <-!(assoc_L app)).
  change 3%nat with (1 + (1 + 1))%nat.
  eapply steps_trans; [exact S1|]. eapply steps_trans; [exact S2|exact S3].
Qed.

(** The whole statement [x = e;]. *)
Lemma run_assign c v f fs whole e code slot n post g m :
  tables_ok c -> vframes v = f :: fs -> Z.of_nat (length whole) < 2 ^ 63 -> Forall value_ok (Frame.locals f) -> slots_ok (vstorage v) ->
  cx_is_static (vcontext v) = false -> in_u 32 slot -> code_of c e = Some code ->
  eval (env_of c (Frame.locals f) (vstorage v)) e = Some (VU256 n) ->
  whole = assign_code slot code ++ post -> (Nat.max 4 (depth e + 2) <= Stack.max_depth (vstack v))%nat ->
  gas_has g (budget (assign_code slot code) + m) -> 0 <= m ->
  exists g', steps whole (length (assign_code slot code)) (put [] 0 g v)
    (put [VU256 (from_be (Slots.load (to_be 32 slot) (vstorage v)))] (Z.of_nat (length (assign_code slot code))) g'
       (set_storage (Slots.store (to_be 32 n) (to_be 32 slot) (vstorage v)) v)) /\ gas_has g' m.
Proof.
  intros Htab Hf Hlen Hloc Hslots Hst Hs Hc Hev Hw Hroom Hg Hm. set (old := VU256 (from_be (Slots.load _ _))).
  pose proof (run_expr c v f fs whole Htab Hf Hlen Hloc Hslots e code _ Hc Hev) as Hrun.
  unfold assign_code in *. set (cx := [push_of (replicate 28 0 ++ to_be 4 slot); op_of OpSLoad]) in *.
  set (write := [push_of (replicate 28 0 ++ to_be 4 slot); op_of OpSStore; op_of OpPop]) in *. rewrite !budget_app in Hg.
  pose proof (budget_nonneg cx). pose proof (budget_nonneg code). pose proof (budget_nonneg write).
  destruct (pushes_slot v f fs whole Hf Hlen slot Hs [] (code ++ code ++ write ++ post) [] g (budget code + budget code + budget write + m))
    as (g1 & S1 & Hg1); [by rewrite Hw, <-!(assoc_L app)|simpl; lia| |lia|].
  { fold cx. by replace (budget cx + _) with (budget cx + (budget code + (budget code + budget write)) + m) by lia. }
  destruct (Hrun cx (code ++ write ++ post) [old] g1 (budget code + budget write + m)) as (g2 & S2 & Hg2);
    [by rewrite Hw, <-!(assoc_L app)|simpl; lia|by replace (budget code + _) with (budget code + budget code + budget write + m) by lia|lia|].
  destruct (Hrun (cx ++ code) (write ++ post) [VU256 n; old] g2 (budget write + m)) as (g3 & S3 & Hg3);
    [by rewrite Hw, <-!(assoc_L app)|simpl; lia|by replace (budget code + _) with (budget code + budget write + m) by lia|lia|].
  destruct (run_sstore v f fs whole slot n [old] ((cx ++ code) ++ code) post g3 m Hf Hlen Hst Hs) as (g4 & S4 & Hg4);
    [by rewrite Hw, <-!(assoc_L app)|simpl; lia|done|done|].
  exists g4. split; [|done]. replace (cx ++ code ++ code ++ write) with (((cx ++ code) ++ code) ++ write) by (by rewrite <-!(assoc_L app)).
  assert (Hl : length (((cx ++ code) ++ code) ++ write) = (length cx + (length code + (length code + length write)))%nat) by (rewrite !length_app; lia).
  rewrite Hl at 1.
  eapply steps_trans; [exact S1|]. eapply steps_trans; [exact S2|]. eapply steps_trans; [exact S3|exact S4].
Qed.
End functions.
