(* ===== verification/QscMeaning.v ===== *)
(** * The meaning of source expressions

    What an expression over integer literals, storage variables and operators
    means, written apart from the generator and the machine: literals by their
    digits, integers modulo 2^256 and booleans kept apart. The fragment leaves
    out what the compiler does not treat as its source says: decimal, binary and
    octal literals from 2^128 on, hexadecimal ones with an odd number of digits
    or more than 64, boolean literals (compiled to the integers 1 and 0) and
    operands of the wrong kind. [mean_eval] shows that the compiler's reading,
    [eval], agrees on the fragment. *)

From stdpp Require Import strings.
From S2P Require Import Prelude Externals Genesis QscTokens QscLexer QvmMemory QvmGas Qvm QvmTheory QvmSafety QvmProps QscAst QscCodegen QscCompile.

(** ** Literals *)

Definition digit (base c : Z) : option Z :=
  let d := if (48 <=? c) && (c <=? 57) then c - 48
           else if (97 <=? c) && (c <=? 102) then c - 87
           else if (65 <=? c) && (c <=? 70) then c - 55 else base in
  if d <? base then Some d else None.
(** The number that digits write, underscores between them ignored. *)
Fixpoint positional (base : Z) (s : chars) (acc : Z) : option Z :=
  match s with
  | [] => Some acc
  | c :: s => if c =? 95 then positional base s acc else d ← digit base c; positional base s (acc * base + d)
  end.
Definition digits (s : chars) : nat := length (filter (fun c => c <> 95) s).
Definition marked (lower upper : Z) (s : chars) : bool :=
  match s with z :: x :: _ => (z =? 48) && ((x =? lower) || (x =? upper)) | _ => false end.

Definition short_number (base : Z) (s : chars) : option Z :=
  n ← positional base s 0; if (n <? 2 ^ 128) && (0 <? digits s)%nat then Some n else None.
Definition literal (s : chars) : option Z :=
  if marked 120 88 s then
    if Nat.even (digits (drop 2 s)) && (digits (drop 2 s) <=? 64)%nat then positional 16 (drop 2 s) 0 else None
  else if marked 98 66 s then short_number 2 (drop 2 s)
  else if marked 111 79 s then short_number 8 (drop 2 s)
  else short_number 10 s.

(** ** Expressions *)

Inductive Meaning := MInt (n : Z) | MBool (b : bool).

Definition int_op (op : BinaryOp) (x y : Z) : option Meaning :=
  match op with
  | OpAdd => Some (MInt ((x + y) mod 2 ^ 256))
  | OpSub => Some (MInt ((x - y) mod 2 ^ 256))
  | OpMul => Some (MInt ((x * y) mod 2 ^ 256))
  | OpDiv => Some (MInt (if y =? 0 then 0 else x / y))
  | OpRem => Some (MInt (if y =? 0 then 0 else x mod y))
  | OpPow => Some (MInt (x ^ y mod 2 ^ 256))
  | OpBitAnd => Some (MInt (Z.land x y))
  | OpBitOr => Some (MInt (Z.lor x y))
  | OpBitXor => Some (MInt (Z.lxor x y))
  | OpShl => Some (MInt ((x * 2 ^ y) mod 2 ^ 256))
  | OpShr => Some (MInt (x / 2 ^ y))
  | OpEq => Some (MBool (x =? y))
  | OpNe => Some (MBool (negb (x =? y)))
  | OpLt => Some (MBool (x <? y))
  | OpLe => Some (MBool (x <=? y))
  | OpGt => Some (MBool (y <? x))
  | OpGe => Some (MBool (y <=? x))
  | _ => None
  end.
Definition bool_op (op : BinaryOp) (p q : bool) : option Meaning :=
  match op with
  | OpAnd => Some (MBool (p && q))
  | OpOr => Some (MBool (p || q))
  | OpEq => Some (MBool (eqb p q))
  | OpNe => Some (MBool (xorb p q))
  | _ => None
  end.

(** [vars] gives the values of the storage variables. *)
Fixpoint mean (vars : chars -> option Z) (e : Expr) : option Meaning :=
  let '(mkExpr _ _ kind) := e in
  match kind with
  | ExLiteral (LitInt s _) => n ← literal s; Some (MInt n)
  | ExPath path => match ep_segments path with [ident] => n ← vars (id_name ident); Some (MInt n) | _ => None end
  | ExBinary op l r =>
    match mean vars l, mean vars r with
    | Some (MInt x), Some (MInt y) => int_op op x y
    | Some (MBool p), Some (MBool q) => bool_op op p q
    | _, _ => None
    end
  | ExUnary op operand =>
    match op, mean vars operand with
    | OpNeg, Some (MInt x) => Some (MInt ((- x) mod 2 ^ 256))
    | OpBitNot, Some (MInt x) => Some (MInt (2 ^ 256 - 1 - x))
    | OpNot, Some (MBool p) => Some (MBool (negb p))
    | _, _ => None
    end
  | ExParen inner => mean vars inner
  | _ => None
  end.
Definition value_of (m : Meaning) : Value := match m with MInt n => VU256 n | MBool b => VBool b end.

(** The storage variables of a contract: the word at the slot of the name. *)
Definition stored_in (c : Codegen) (s : Slots.t) (name : chars) : option Z :=
  slot ← cg_storage_slots c !! name; Some (from_be (Slots.load (to_be 32 slot) s)).

(** [hex::decode] reads an even number of hexadecimal digits as the bytes they write. *)
Class HexReads (HD : HexDecode) : Prop :=
  hex_reads s n : 95 ∉ s -> Nat.Even (length s) -> positional 16 s 0 = Some n ->
    exists bs, hex_decode s = Some bs /\ from_be bs = n /\ (2 * length bs)%nat = length s.

(** ** The generator reads literals so *)

Lemma digit_inv base c d : digit base c = Some d -> 0 <= d < base /\ 48 <= c <= 102 /\ (base <= 10 -> d = c - 48 /\ c <= 57).
Proof.
  unfold digit. intros H. repeat case_match; simplify_eq; lia.
Qed.

Lemma remove_digits s : length (remove_underscores s) = digits s.
Proof. done. Qed.

Lemma remove_cons c s : remove_underscores (c :: s) = if c =? 95 then remove_underscores s else c :: remove_underscores s.
Proof.
  unfold remove_underscores. rewrite filter_cons. change (ch "_") with 95.
  destruct (Z.eqb_spec c 95), (decide (c <> 95)); done || lia.
Qed.

Lemma positional_chars base s acc n :
  base <= 16 -> positional base s acc = Some n ->
  Forall (fun c => 48 <= c <= 102 /\ c <> 95 /\ (base <= 10 -> c <= 57)) (remove_underscores s) /\
  positional base (remove_underscores s) acc = Some n.
Proof.
  intros Hb. revert acc. induction s as [|c s IH]; intros acc; simpl; [done|]. rewrite remove_cons.
  destruct (Z.eqb_spec c 95) as [|Hne]; [apply IH|]. destruct (digit base c) as [d|] eqn:Ed; [|done]. simpl. intros H.
  destruct (IH _ H) as [H1 H2]. apply digit_inv in Ed as Hd. split; [constructor; [lia|done]|].
  destruct (Z.eqb_spec c 95); [done|]. by rewrite Ed.
Qed.

Lemma positional_radix base s acc n :
  2 <= base <= 10 -> 0 <= acc -> positional base s acc = Some n ->
  acc <= n /\ (n < 2 ^ 128 -> radix_digits base (remove_underscores s) acc = Some n).
Proof.
  intros Hb. revert acc. induction s as [|c s IH]; intros acc Ha; cbn [positional].
  { intros [= ->]. split; [lia|done]. }
  rewrite remove_cons. destruct (Z.eqb_spec c 95) as [|Hne]; [by apply IH|].
  destruct (digit base c) as [d|] eqn:Ed; [|done]. simpl. intros H. apply digit_inv in Ed as (Hd & _ & Hc).
  destruct (Hc ltac:(lia)) as [-> Hc']. destruct (IH (acc * base + (c - 48)) ltac:(nia) H) as [H1 H2]. split; [nia|].
  intros Hn. cbn [radix_digits]. change (ch "0") with 48. rewrite (proj2 (Z.leb_le _ _)), (proj2 (Z.ltb_lt _ base)) by lia.
  cbn [andb]. rewrite (proj2 (Z.ltb_lt _ (2 ^ 128))) by lia. by apply H2.
Qed.

Lemma short_number_word base s n :
  2 <= base <= 10 -> short_number base s = Some n ->
  from_be (u128_word (u128_from_str_radix base (remove_underscores s))) = n /\
  Forall (fun c => c <= 57) (remove_underscores s) /\ remove_underscores s <> [].
Proof.
  intros Hb. unfold short_number. destruct (positional base s 0) as [m|] eqn:Em; [|done]. simpl.
  destruct (Z.ltb_spec m (2 ^ 128)) as [Hm|]; [|done]. destruct (Nat.ltb_spec 0 (digits s)) as [Hd|]; [|done]. intros [= <-].
  destruct (positional_radix base s 0 m Hb ltac:(lia) Em) as [H0 H1].
  destruct (positional_chars base s 0 m ltac:(lia) Em) as [Hc _]. rewrite <- remove_digits in Hd.
  assert (u128_from_str_radix base (remove_underscores s) = Some m) as ->.
  { destruct (remove_underscores s) as [|c r] eqn:Er; [simpl in Hd; lia|]. apply Forall_cons in Hc as [Hc _].
    cbn [u128_from_str_radix]. change (ch "+") with 43. rewrite (proj2 (Z.eqb_neq c 43)) by lia. by apply H1. }
  split_and!.
  - cbn [u128_word]. unfold right_aligned. rewrite from_be_zeros, from_to_be. apply Z.mod_small.
    change (256 ^ Z.of_nat 16) with (2 ^ 128). lia.
  - eapply Forall_impl; [exact Hc|]. simpl. lia.
  - intros E. rewrite E in Hd. simpl in Hd. lia.
Qed.

(** A literal with a prefix, without its underscores. *)
Lemma marked_remove a b s :
  marked a b s = true -> a <> 95 -> b <> 95 ->
  exists m, (m = a \/ m = b) /\ remove_underscores s = 48 :: m :: remove_underscores (drop 2 s).
Proof.
  intros Hm Ha Hb. destruct s as [|z [|m r]]; try done. cbn [marked] in Hm. apply andb_true_iff in Hm as [Hz Hm].
  apply Z.eqb_eq in Hz as ->. apply orb_true_iff in Hm. rewrite !Z.eqb_eq in Hm. exists m. split; [done|].
  rewrite !remove_cons. simpl drop. rewrite drop_0. rewrite (proj2 (Z.eqb_neq m 95)) by (destruct Hm; lia). done.
Qed.

Lemma low_not_prefixed a b s :
  57 < ch a -> 57 < ch b -> Forall (fun c => c <= 57) s -> prefixed a b s = false.
Proof.
  intros Ha Hb Hs. destruct s as [|c [|d s]]; try done. apply Forall_cons in Hs as [_ [Hd _]%Forall_cons]. cbn [prefixed].
  apply andb_false_iff. right. apply orb_false_iff. split; apply Z.eqb_neq; lia.
Qed.

Lemma utf8_ascii s : Forall (fun c => c < 128) s -> utf8 s = s.
Proof.
  unfold utf8. induction 1 as [|c s Hc _ IH]; [done|]. cbn [map concat]. rewrite IH. unfold utf8_char.
  by rewrite (proj2 (Z.ltb_lt _ _)).
Qed.

Lemma literal_parsed `{HD : HexDecode} s n : HexReads HD -> literal s = Some n -> from_be (parse_int_literal s) = n.
Proof.
  intros HR. unfold literal, parse_int_literal. destruct (marked 120 88 s) eqn:Ex; [|destruct (marked 98 66 s) eqn:Eb; [|destruct (marked 111 79 s) eqn:Eo]].
  - destruct (Nat.even (digits (drop 2 s))) eqn:Ee; [|done]. destruct (Nat.leb_spec (digits (drop 2 s)) 64) as [Hl|]; [|done].
    cbn [andb]. intros Hp. destruct (marked_remove 120 88 s Ex) as (m & Hm & ->); [done..|].
    assert (forall r, prefixed "x" "X" (48 :: m :: r) = true) as -> by (intros r; by destruct Hm as [->| ->]).
    cbn [drop]. rewrite drop_0. destruct (positional_chars 16 _ 0 n ltac:(lia) Hp) as [Hc Hp'].
    rewrite utf8_ascii by (eapply Forall_impl; [exact Hc|]; simpl; lia).
    destruct (hex_reads (remove_underscores (drop 2 s)) n) as (bs & -> & Hn & Hlen); [|by apply Nat.even_spec|done|].
    { intros Hin. rewrite Forall_forall in Hc. by apply Hc in Hin as (_ & ? & _). }
    rewrite remove_digits in Hlen. rewrite take_ge by lia. unfold right_aligned. by rewrite from_be_zeros.
  - intros Hp. destruct (short_number_word 2 _ n ltac:(lia) Hp) as (Hn & _).
    destruct (marked_remove 98 66 s Eb) as (m & Hm & ->); [done..|].
    assert (forall r, prefixed "x" "X" (48 :: m :: r) = false /\ prefixed "b" "B" (48 :: m :: r) = true) as Hpre
      by (intros r; by destruct Hm as [->| ->]).
    destruct (Hpre (remove_underscores (drop 2 s))) as [-> ->]. cbn [drop]. by rewrite drop_0.
  - intros Hp. destruct (short_number_word 8 _ n ltac:(lia) Hp) as (Hn & _).
    destruct (marked_remove 111 79 s Eo) as (m & Hm & ->); [done..|].
    assert (forall r, prefixed "x" "X" (48 :: m :: r) = false /\ prefixed "b" "B" (48 :: m :: r) = false /\
      prefixed "o" "O" (48 :: m :: r) = true) as Hpre by (intros r; by destruct Hm as [->| ->]).
    destruct (Hpre (remove_underscores (drop 2 s))) as (-> & -> & ->). cbn [drop]. by rewrite drop_0.
  - intros Hp. destruct (short_number_word 10 _ n ltac:(lia) Hp) as (Hn & Hc & _).
    by rewrite !low_not_prefixed by done.
Qed.

(** ** The compiler's reading agrees *)

Lemma mean_binary `{B : Blake3, HD : HexDecode} op x y m :
  match x, y with
  | MInt x, MInt y => int_op op x y
  | MBool p, MBool q => bool_op op p q
  | _, _ => None
  end = Some m ->
  eval_binary op (value_of x) (value_of y) = Some (value_of m).
Proof.
  destruct x as [x|p], y as [y|q]; try done.
  - destruct op; intros [= <-]; simpl; try done; unfold with_u256; simpl; do 2 f_equal; case_bool_decide; simplify_eq; try lia.
    + destruct (Z.eqb_spec x y); congruence.
    + destruct (Z.eqb_spec x y); simpl; congruence.
  - destruct op; intros [= <-]; simpl; try done; do 2 f_equal; destruct p, q; by case_bool_decide.
Qed.

Lemma mean_eval `{B : Blake3, HD : HexDecode} (vars : chars -> option Z) env e :
  HexReads HD -> (forall name n, vars name = Some n -> env name = Some (VU256 n)) ->
  forall m, mean vars e = Some m -> eval env e = Some (value_of m).
Proof.
  intros HR Hvars. revert e. fix IH 1. intros [id sp kind] m Hm. destruct kind; try done; simpl in Hm |- *.
  - destruct l; try done. destruct (literal s) as [n|] eqn:El; [|done]. injection Hm as <-. by rewrite (literal_parsed s n HR El).
  - destruct (ep_segments p) as [|ident [|]]; try done. destruct (vars (id_name ident)) as [n|] eqn:Ev; [|done].
    injection Hm as <-. by apply Hvars.
  - destruct (mean vars a) as [x|] eqn:Ea; [|done]. destruct (mean vars b) as [y|] eqn:Eb; [|by destruct x].
    rewrite (IH a x Ea), (IH b y Eb). simpl. by apply mean_binary.
  - destruct (mean vars e) as [x|] eqn:Ee; [|by destruct op]. rewrite (IH e x Ee). simpl.
    destruct op, x; try done; by injection Hm as <-.
  - by apply IH.
Qed.

Lemma stored_env `{B : Blake3, HD : HexDecode} c s name n :
  stored_in c s name = Some n -> env_of (reset_function c) [] s name = Some (VU256 n).
Proof.
  unfold stored_in, env_of. cbn [cg_locals reset_function cg_storage_slots]. rewrite lookup_empty.
  destruct (cg_storage_slots c !! name); [|done]. simpl. by intros [= <-].
Qed.
