(* ===== verification/QscTypeck.v ===== *)
(** * The type checker of QuantumScript
      (src/crates/qfc-qsc/src/typeck/mod.rs)

    Two passes over the items: one collects the definitions, one checks the
    bodies. Errors are collected and the first one is the answer. *)

From stdpp Require Import strings pretty.
From S2P Require Import Prelude Externals QscTokens QscAst QscCodegen.

Inductive TypeError :=
| UndefinedVariable (name : chars) (line column : Z)
| UndefinedType (name : chars) (line column : Z)
| UndefinedFunction (name : chars) (line column : Z)
| TypeMismatch (expected found : chars) (line column : Z)
| ImmutableAssignment (name : chars) (line column : Z)
| MoveOutOfBorrow (line column : Z)
| MissingAbility (name ability : chars) (line column : Z)
| DuplicateDefinition (name : chars) (line column : Z)
| ArgumentCountMismatch (expected found : nat) (line column : Z)
| NotCallable (line column : Z)
| NotIndexable (line column : Z)
| FieldNotFound (field ty : chars) (line column : Z)
| PureFunctionModifiesState (line column : Z)
| ViewFunctionModifiesState (line column : Z)
| InvalidReturnType (line column : Z)
| MissingReturnValue (line column : Z)
| SelfOutsideContract (line column : Z)
| ParallelStateConflict (line column : Z).

(** ** Types *)

#[local] Unset Elimination Schemes.
Inductive ResolvedType :=
| RtPrimitive (p : PrimitiveType)
| RtStruct (name : chars)
| RtEnum (name : chars)
| RtArray (elem : ResolvedType) (size : nat)
| RtSlice (elem : ResolvedType)
| RtTuple (elems : list ResolvedType)
| RtMapping (key value : ResolvedType)
| RtOption (inner : ResolvedType)
| RtResult (ok err : ResolvedType)
| RtReference (inner : ResolvedType) (mutable : bool)
| RtFunction (params : list ResolvedType) (return_type : ResolvedType)
| RtResource (inner : ResolvedType) (abilities : list ResourceAbility)
| RtUnit
| RtNever
| RtError
| RtUnknown (id : Z).
#[local] Set Elimination Schemes.

#[export] Instance PrimitiveType_eq_dec : EqDecision PrimitiveType.
Proof. solve_decision. Defined.
#[export] Instance QscAbility_eq_dec : EqDecision ResourceAbility.
Proof. solve_decision. Defined.

(** The derived [PartialEq]. *)
Fixpoint type_eqb (a b : ResolvedType) {struct a} : bool :=
  let list_eqb := fix go (l l' : list ResolvedType) {struct l} : bool :=
    match l, l' with
    | [], [] => true
    | x :: l, y :: l' => type_eqb x y && go l l'
    | _, _ => false
    end in
  match a, b with
  | RtPrimitive p, RtPrimitive q => bool_decide (p = q)
  | RtStruct n, RtStruct m | RtEnum n, RtEnum m => bool_decide (n = m)
  | RtArray e n, RtArray e' m => type_eqb e e' && (n =? m)%nat
  | RtSlice e, RtSlice e' | RtOption e, RtOption e' => type_eqb e e'
  | RtTuple l, RtTuple l' => list_eqb l l'
  | RtMapping k v, RtMapping k' v' | RtResult k v, RtResult k' v' => type_eqb k k' && type_eqb v v'
  | RtReference e m, RtReference e' m' => type_eqb e e' && Bool.eqb m m'
  | RtFunction l r, RtFunction l' r' => list_eqb l l' && type_eqb r r'
  | RtResource e l, RtResource e' l' => type_eqb e e' && bool_decide (l = l')
  | RtUnit, RtUnit | RtNever, RtNever | RtError, RtError => true
  | RtUnknown n, RtUnknown m => n =? m
  | _, _ => false
  end.

Definition is_numeric (t : ResolvedType) : bool :=
  match t with
  | RtPrimitive (PtU8 | PtU16 | PtU32 | PtU64 | PtU128 | PtU256 | PtI8 | PtI16 | PtI32 | PtI64 | PtI128 | PtI256) => true
  | _ => false
  end.
Definition is_integer (t : ResolvedType) : bool := is_numeric t.
Definition is_bool (t : ResolvedType) : bool := match t with RtPrimitive PtBool => true | _ => false end.
Definition is_error (t : ResolvedType) : bool := match t with RtError => true | _ => false end.
Definition is_never (t : ResolvedType) : bool := match t with RtNever => true | _ => false end.

Definition decimal (n : Z) : chars := str (pretty (Z.to_N n)).
Definition join (sep : string) (names : list chars) : chars :=
  match names with [] => [] | n :: ns => n ++ concat (map (fun n => str sep ++ n) ns) end.
Definition primitive_name (p : PrimitiveType) : chars :=
  str match p with
      | PtBool => "bool" | PtU8 => "u8" | PtU16 => "u16" | PtU32 => "u32" | PtU64 => "u64" | PtU128 => "u128" | PtU256 => "u256"
      | PtI8 => "i8" | PtI16 => "i16" | PtI32 => "i32" | PtI64 => "i64" | PtI128 => "i128" | PtI256 => "i256"
      | PtAddress => "address" | PtBytes => "bytes" | PtString => "string"
      end.
Definition ability_name (a : ResourceAbility) : chars :=
  str match a with AbCopy => "copy" | AbDrop => "drop" | AbStore => "store" | AbKey => "key" end.
Fixpoint display_name (t : ResolvedType) : chars :=
  match t with
  | RtPrimitive p => primitive_name p
  | RtStruct name | RtEnum name => name
  | RtArray elem size => str "[" ++ display_name elem ++ str "; " ++ decimal (Z.of_nat size) ++ str "]"
  | RtSlice elem => str "Vec<" ++ display_name elem ++ str ">"
  | RtTuple elems => str "(" ++ join ", " (map display_name elems) ++ str ")"
  | RtMapping k v => str "mapping(" ++ display_name k ++ str " => " ++ display_name v ++ str ")"
  | RtOption inner => str "Option<" ++ display_name inner ++ str ">"
  | RtResult ok err => str "Result<" ++ display_name ok ++ str ", " ++ display_name err ++ str ">"
  | RtReference inner mutable => str (if mutable then "&mut " else "&") ++ display_name inner
  | RtFunction params r => str "fn(" ++ join ", " (map display_name params) ++ str ") -> " ++ display_name r
  | RtResource inner abilities => str "resource " ++ display_name inner ++ str " : " ++ join " + " (map ability_name abilities)
  | RtUnit => str "()"
  | RtNever => str "!"
  | RtError => str "<error>"
  | RtUnknown id => str "?" ++ decimal id
  end.

(** ** State *)

Record Symbol := mkSymbol { sy_name : chars; sy_ty : ResolvedType; sy_mutable : bool; sy_span : Span }.
Inductive VariantDef := VdUnit | VdTuple (types : list ResolvedType) | VdStruct (fields : list (chars * ResolvedType)).
Inductive TypeDefKind :=
| TdStruct (fields : list (chars * ResolvedType)) | TdEnum (variants : list (chars * VariantDef)) | TdAlias (ty : ResolvedType).
Record TypeDef := mkTypeDef { td_name : chars; td_kind : TypeDefKind; td_abilities : list ResourceAbility }.
Record FunctionType := mkFunctionType {
  ft_name : chars;
  ft_params : list (chars * ResolvedType);
  ft_return_type : ResolvedType;
  ft_is_pure : bool;
  ft_is_view : bool;
  ft_is_payable : bool;
  ft_is_parallel : bool;
}.

(** A scope and its parents, the innermost first. *)
Abbreviation Scope := (list (gmap chars Symbol)).
Fixpoint scope_lookup (s : Scope) (name : chars) : option Symbol :=
  match s with [] => None | m :: s => match m !! name with Some x => Some x | None => scope_lookup s name end end.
Definition scope_define (name : chars) (x : Symbol) (s : Scope) : Scope :=
  match s with [] => [] | m :: s => <[name := x]> m :: s end.
(** [if let Some(parent) = self.scope.parent.take() { self.scope = *parent }] *)
Definition scope_leave (s : Scope) : Scope := match s with _ :: (_ :: _) as parent => parent | _ => s end.

Record TypeChecker := mkTypeChecker {
  tc_types : gmap chars TypeDef;
  tc_functions : gmap chars FunctionType;
  tc_scope : Scope;
  tc_contract_context : option chars;
  tc_storage_fields : gmap chars ResolvedType;
  tc_current_function : option FunctionType;
  tc_inference_counter : Z;
  tc_errors : list TypeError;
}.
Definition type_checker_new : TypeChecker := mkTypeChecker ∅ ∅ [∅] None ∅ None 0 [].

Abbreviation TC A := (ST TypeChecker TypeError A).

Definition set_types (x : gmap chars TypeDef) (t : TypeChecker) : TypeChecker :=
  mkTypeChecker x (tc_functions t) (tc_scope t) (tc_contract_context t) (tc_storage_fields t) (tc_current_function t)
    (tc_inference_counter t) (tc_errors t).
Definition set_functions (x : gmap chars FunctionType) (t : TypeChecker) : TypeChecker :=
  mkTypeChecker (tc_types t) x (tc_scope t) (tc_contract_context t) (tc_storage_fields t) (tc_current_function t)
    (tc_inference_counter t) (tc_errors t).
Definition set_tc_scope (x : Scope) (t : TypeChecker) : TypeChecker :=
  mkTypeChecker (tc_types t) (tc_functions t) x (tc_contract_context t) (tc_storage_fields t) (tc_current_function t)
    (tc_inference_counter t) (tc_errors t).
Definition set_contract_context (x : option chars) (t : TypeChecker) : TypeChecker :=
  mkTypeChecker (tc_types t) (tc_functions t) (tc_scope t) x (tc_storage_fields t) (tc_current_function t)
    (tc_inference_counter t) (tc_errors t).
Definition set_storage_fields (x : gmap chars ResolvedType) (t : TypeChecker) : TypeChecker :=
  mkTypeChecker (tc_types t) (tc_functions t) (tc_scope t) (tc_contract_context t) x (tc_current_function t)
    (tc_inference_counter t) (tc_errors t).
Definition set_current_function (x : option FunctionType) (t : TypeChecker) : TypeChecker :=
  mkTypeChecker (tc_types t) (tc_functions t) (tc_scope t) (tc_contract_context t) (tc_storage_fields t) x
    (tc_inference_counter t) (tc_errors t).
Definition set_counter (x : Z) (t : TypeChecker) : TypeChecker :=
  mkTypeChecker (tc_types t) (tc_functions t) (tc_scope t) (tc_contract_context t) (tc_storage_fields t) (tc_current_function t)
    x (tc_errors t).

Definition push_error (e : TypeError) : TC unit :=
  modify (fun t => mkTypeChecker (tc_types t) (tc_functions t) (tc_scope t) (tc_contract_context t) (tc_storage_fields t)
                     (tc_current_function t) (tc_inference_counter t) (tc_errors t ++ [e])).
Definition mismatch (expected found : chars) (span : Span) : TC unit :=
  push_error (TypeMismatch expected found (sp_line span) (sp_column span)).
(** An error if [bad]. *)
Definition expect_type (bad : bool) (expected found : ResolvedType) (span : Span) : TC unit :=
  if bad then mismatch (display_name expected) (display_name found) span else ret tt.
Definition fresh_type_var : TC Z :=
  let! n := gets tc_inference_counter in modify (set_counter (wrap 32 (n + 1))) ;; ret n.
Definition define (name : chars) (ty : ResolvedType) (mutable : bool) (span : Span) : TC unit :=
  modify (fun t => set_tc_scope (scope_define name (mkSymbol name ty mutable span) (tc_scope t)) t).
Definition enter_scope : TC unit := modify (fun t => set_tc_scope (∅ :: tc_scope t) t).
Definition leave_scope : TC unit := modify (fun t => set_tc_scope (scope_leave (tc_scope t)) t).

(** [iter().map(f).collect::<TypeResult<Vec<_>>>()?] *)
Definition map_each {S E A B} (f : A -> ST S E B) : list A -> ST S E (list B) :=
  fix go l := match l with [] => ret [] | x :: l => let! y := f x in let! ys := go l in ret (y :: ys) end.
(** [unwrap_or(ResolvedType::Error)] *)
Definition or_error (m : TC ResolvedType) : TC ResolvedType :=
  let! r := attempt m in ret (match r with inl t => t | inr _ => RtError end).

(** ** Types of the source *)

Definition last_name (path : TypePath) : chars :=
  let '(mkTypePath segments _) := path in
  match last segments with Some (mkPathSegment ident _ _) => id_name ident | None => [] end.

Definition resolve_path (path : TypePath) (span : Span) : TC ResolvedType :=
  let name := last_name path in
  let! types := gets tc_types in
  match types !! name with
  | Some d => ret (match td_kind d with TdStruct _ => RtStruct name | TdEnum _ => RtEnum name | TdAlias resolved => resolved end)
  | None => push_error (UndefinedType name (sp_line span) (sp_column span)) ;; ret RtError
  end.
Definition resolve_self (span : Span) : TC ResolvedType :=
  let! c := gets tc_contract_context in
  match c with
  | Some contract => ret (RtStruct contract)
  | None => push_error (SelfOutsideContract (sp_line span) (sp_column span)) ;; ret RtError
  end.

Fixpoint resolve_type (ty : Ty) : TC ResolvedType :=
  let '(mkTy _ span kind) := ty in
  match kind with
  | TyPrimitive p => ret (RtPrimitive p)
  | TyPath path => resolve_path path span
  | TyArray elem _ => let! e := resolve_type elem in ret (RtArray e 0)
  | TySlice elem => let! e := resolve_type elem in ret (RtSlice e)
  | TyTuple types => let! ts := map_each resolve_type types in ret (RtTuple ts)
  | TyMapping key value => let! k := resolve_type key in let! v := resolve_type value in ret (RtMapping k v)
  | TyOption inner => let! t := resolve_type inner in ret (RtOption t)
  | TyResult ok err => let! o := resolve_type ok in let! e := resolve_type err in ret (RtResult o e)
  | TyReference inner mutable => let! t := resolve_type inner in ret (RtReference t mutable)
  | TyFunction params r =>
    let! ps := map_each resolve_type params in
    let! rt := match r with Some t => resolve_type t | None => ret RtUnit end in
    ret (RtFunction ps rt)
  | TyResource inner abilities => let! t := resolve_type inner in ret (RtResource t abilities)
  | TyInfer => let! n := fresh_type_var in ret (RtUnknown n)
  | TyNever => ret RtNever
  | TySelfType => resolve_self span
  end.

(** ** The first pass *)

Definition insert_type (name : chars) (kind : TypeDefKind) (abilities : list ResourceAbility) : TC unit :=
  modify (fun t => set_types (<[name := mkTypeDef name kind abilities]> (tc_types t)) t).
Definition resolve_field (f : StructField) : TC (chars * ResolvedType) :=
  let '(mkStructField _ _ _ name ty) := f in
  let! t := or_error (resolve_type ty) in
  ret (id_name name, t).

Definition collect_struct_def (s : StructDef) : TC unit :=
  let '(mkStructDef _ _ _ name _ abilities fields) := s in
  let! fields := map_each resolve_field fields in
  insert_type (id_name name) (TdStruct fields) abilities.

Definition collect_variant (v : EnumVariant) : TC (chars * VariantDef) :=
  let '(mkEnumVariant _ _ name fields) := v in
  let! def :=
    (match fields with
     | VfUnit => ret VdUnit
     | VfTuple types => let! ts := map_each (fun t => or_error (resolve_type t)) types in ret (VdTuple ts)
     | VfStruct fields => let! fs := map_each resolve_field fields in ret (VdStruct fs)
     end) in
  ret (id_name name, def).
Definition collect_enum_def (e : EnumDef) : TC unit :=
  let '(mkEnumDef _ _ _ name _ variants) := e in
  let! variants := map_each collect_variant variants in
  insert_type (id_name name) (TdEnum variants) [].

Definition collect_type_alias (a : TypeAlias) : TC unit :=
  let '(mkTypeAlias _ _ _ name _ ty) := a in
  let! t := resolve_type ty in
  insert_type (id_name name) (TdAlias t) [].

Definition collect_param (p : Param) : TC (chars * ResolvedType) :=
  let '(mkParam _ _ pattern ty) := p in
  let name := match pattern with mkPattern _ _ (PaIdent ident _) => id_name ident | _ => str "_" end in
  let! t := or_error (resolve_type ty) in
  ret (name, t).
Definition collect_function_def (sig : FunctionSig) : TC unit :=
  let '(mkFunctionSig _ _ _ (mkFunctionModifiers is_pure is_view is_payable is_parallel _) name _ params return_type) := sig in
  let! params := map_each collect_param params in
  let! r := match return_type with Some t => or_error (resolve_type t) | None => ret RtUnit end in
  modify (fun t => set_functions
    (<[id_name name := mkFunctionType (id_name name) params r is_pure is_view is_payable is_parallel]> (tc_functions t)) t).
Definition func_sig (f : FunctionDef) : FunctionSig := let '(mkFunctionDef _ _ sig _ _) := f in sig.

Definition collect_storage_field (f : StorageField) : TC unit :=
  let '(mkStorageField _ _ _ name ty _) := f in
  let! t := resolve_type ty in
  modify (fun c => set_storage_fields (<[id_name name := t]> (tc_storage_fields c)) c).
Definition collect_contract_item (item : ContractItem) : TC unit :=
  match item with
  | CiStorage (mkStorageBlock _ _ fields) => for_each collect_storage_field fields
  | CiFunction f => collect_function_def (func_sig f)
  | CiStruct s => collect_struct_def s
  | CiEnum e => collect_enum_def e
  | _ => ret tt
  end.
Definition collect_contract_definitions (c : ContractDef) : TC unit :=
  let '(mkContractDef _ _ _ _ _ items) := c in for_each collect_contract_item items.
Definition collect_definitions (item : Item) : TC unit :=
  match item with
  | ItContract c => collect_contract_definitions c
  | ItStruct s => collect_struct_def s
  | ItEnum e => collect_enum_def e
  | ItTypeAlias a => collect_type_alias a
  | ItFunction f => collect_function_def (func_sig f)
  | _ => ret tt
  end.

(** ** Operators *)

Definition check_literal (lit : Literal) : ResolvedType :=
  RtPrimitive
    match lit with
    | LitInt _ (Some ty) => ty
    | LitInt _ None => PtU256
    | LitFloat _ => PtU256
    | LitString _ => PtString
    | LitByteString _ => PtBytes
    | LitBool _ => PtBool
    | LitAddress _ => PtAddress
    end.

Definition both (l r : ResolvedType) : chars := display_name l ++ str " and " ++ display_name r.
Definition check_binary_op (op : BinaryOp) (l r : ResolvedType) (span : Span) : TC ResolvedType :=
  match op with
  | OpAdd | OpSub | OpMul | OpDiv | OpRem | OpPow =>
    if negb (is_numeric l) || negb (is_numeric r) then mismatch (str "numeric type") (both l r) span ;; ret RtError
    else expect_type (negb (type_eqb l r)) l r span ;; ret l
  | OpEq | OpNe | OpLt | OpLe | OpGt | OpGe =>
    expect_type (negb (type_eqb l r) && negb (is_error l || is_error r)) l r span ;; ret (RtPrimitive PtBool)
  | OpAnd | OpOr =>
    (if negb (is_bool l) || negb (is_bool r) then mismatch (str "bool") (both l r) span else ret tt) ;; ret (RtPrimitive PtBool)
  | OpBitAnd | OpBitOr | OpBitXor | OpShl | OpShr =>
    if negb (is_integer l) || negb (is_integer r) then mismatch (str "integer type") (both l r) span ;; ret RtError
    else ret l
  | OpAssign | OpAddAssign | OpSubAssign | OpMulAssign | OpDivAssign | OpRemAssign | OpBitAndAssign | OpBitOrAssign
  | OpBitXorAssign | OpShlAssign | OpShrAssign =>
    expect_type (negb (type_eqb l r) && negb (is_error l || is_error r)) l r span ;; ret RtUnit
  end.
Definition check_unary_op (op : UnaryOp) (operand : ResolvedType) (span : Span) : TC ResolvedType :=
  match op with
  | OpNeg => if is_numeric operand then ret operand else mismatch (str "numeric type") (display_name operand) span ;; ret RtError
  | OpNot => if is_bool operand then ret (RtPrimitive PtBool) else mismatch (str "bool") (display_name operand) span ;; ret RtError
  | OpBitNot => if is_integer operand then ret operand else mismatch (str "integer type") (display_name operand) span ;; ret RtError
  end.

(** [parse::<usize>()] *)
Definition parse_usize (s : chars) : option Z := v ← u128_from_str_radix 10 s; if v <? 2 ^ 64 then Some v else None.
Definition find_field (name : chars) (fields : list (chars * ResolvedType)) : option ResolvedType :=
  snd <$> List.find (fun f => bool_decide (fst f = name)) fields.
Definition field_not_found (field ty : chars) (span : Span) : TC ResolvedType :=
  push_error (FieldNotFound field ty (sp_line span) (sp_column span)) ;; ret RtError.
Definition check_field_access (ty : ResolvedType) (field : Ident) (span : Span) : TC ResolvedType :=
  match ty with
  | RtStruct name =>
    let! types := gets tc_types in
    match types !! name with
    | Some (mkTypeDef _ (TdStruct fields) _) =>
      match find_field (id_name field) fields with Some t => ret t | None => field_not_found (id_name field) name span end
    | _ => field_not_found (id_name field) name span
    end
  | RtTuple elements =>
    match (i ← parse_usize (id_name field); elements !! Z.to_nat i) with
    | Some t => ret t
    | None => field_not_found (id_name field) (str "tuple") span
    end
  | RtError => ret RtError
  | _ => field_not_found (id_name field) (display_name ty) span
  end.
Definition check_index (array index : ResolvedType) (span : Span) : TC ResolvedType :=
  (if negb (is_integer index) && negb (is_error index) then mismatch (str "integer") (display_name index) span else ret tt) ;;
  match array with
  | RtArray elem _ | RtSlice elem => ret elem
  | RtMapping _ value => ret value
  | RtError => ret RtError
  | _ => push_error (NotIndexable (sp_line span) (sp_column span)) ;; ret RtError
  end.

(** [for (a, b) in l.iter().zip(l'.iter())], recursive on the first list. *)
Definition zip_each {S E A B} (f : A -> B -> ST S E unit) : list A -> list B -> ST S E unit :=
  fix go l l' := match l, l' with x :: l, y :: l' => f x y ;; go l l' | _, _ => ret tt end.
Definition tuple_of (n : nat) : chars := str "tuple of " ++ decimal (Z.of_nat n) ++ str " elements".
Fixpoint check_pattern (pattern : Pattern) (expected : ResolvedType) : TC unit :=
  let '(mkPattern _ span kind) := pattern in
  match kind with
  | PaIdent ident mutable => define (id_name ident) expected mutable span
  | PaTuple patterns =>
    match expected with
    | RtTuple types =>
      (if (length patterns =? length types)%nat then ret tt else mismatch (tuple_of (length types)) (tuple_of (length patterns)) span) ;;
      zip_each check_pattern patterns types
    | _ => ret tt
    end
  | _ => ret tt
  end.

(** ** Expressions *)

Definition check_path (path : ExprPath) (span : Span) : TC ResolvedType :=
  match ep_segments path with
  | [ident] =>
    let name := id_name ident in
    let! t := gets id in
    match scope_lookup (tc_scope t) name with
    | Some x => ret (sy_ty x)
    | None =>
      match tc_storage_fields t !! name with
      | Some ty => ret ty
      | None =>
        match tc_functions t !! name with
        | Some f => ret (RtFunction (map snd (ft_params f)) (ft_return_type f))
        | None => push_error (UndefinedVariable name (sp_line span) (sp_column span)) ;; ret RtError
        end
      end
    end
  | _ => ret RtError
  end.

(** The cases that recurse take the checkers of their parts. *)
Section open.
Context (check_expr : Expr -> TC ResolvedType) (check_block : Block -> TC ResolvedType).

Definition check_call (callee : ResolvedType) (args : list Expr) (span : Span) : TC ResolvedType :=
  match callee with
  | RtFunction params r =>
    (if (length params =? length args)%nat then
       zip_each (fun arg param_ty =>
         let! arg_ty := check_expr arg in
         expect_type (negb (type_eqb param_ty arg_ty) && negb (is_error arg_ty)) param_ty arg_ty (expr_span arg)) args params
     else push_error (ArgumentCountMismatch (length params) (length args) (sp_line span) (sp_column span))) ;;
    ret r
  | RtError => ret RtError
  | _ => push_error (NotCallable (sp_line span) (sp_column span)) ;; ret RtError
  end.
Definition check_method_call (args : list Expr) : TC ResolvedType :=
  for_each (fun a => check_expr a ;; ret tt) args ;;
  let! n := fresh_type_var in
  ret (RtUnknown n).

Definition check_condition (cond : Expr) : TC unit :=
  let! ty := check_expr cond in
  if negb (is_bool ty) && negb (is_error ty) then mismatch (str "bool") (display_name ty) (expr_span cond) else ret tt.
Definition check_if (cond : Expr) (then_block : Block) (else_branch : option Expr) : TC ResolvedType :=
  check_condition cond ;;
  let! then_ty := check_block then_block in
  match else_branch with
  | Some else_expr =>
    let! else_ty := check_expr else_expr in
    expect_type (negb (type_eqb then_ty else_ty) && negb (is_error then_ty || is_never then_ty)) then_ty else_ty (expr_span else_expr) ;;
    ret then_ty
  | None => ret RtUnit
  end.

Fixpoint check_arms (scrutinee_ty : ResolvedType) (arms : list MatchArm) (result : option ResolvedType) : TC ResolvedType :=
  match arms with
  | [] => ret (default RtNever result)
  | mkMatchArm pattern _ body _ :: arms =>
    check_pattern pattern scrutinee_ty ;;
    let! arm_ty := check_expr body in
    match result with
    | Some expected =>
      expect_type (negb (type_eqb expected arm_ty) && negb (is_never arm_ty)) expected arm_ty (expr_span body) ;;
      check_arms scrutinee_ty arms result
    | None => check_arms scrutinee_ty arms (Some arm_ty)
    end
  end.

Definition check_for (pattern : Pattern) (iter : Expr) (body : Block) : TC ResolvedType :=
  let! iter_ty := check_expr iter in
  let elem_ty := match iter_ty with RtSlice inner | RtArray inner _ => inner | _ => RtError end in
  enter_scope ;;
  check_pattern pattern elem_ty ;;
  check_block body ;;
  leave_scope ;;
  ret RtUnit.

Definition check_return (value : option Expr) (span : Span) : TC ResolvedType :=
  let! ret_ty := match value with Some v => check_expr v | None => ret RtUnit end in
  let! current := gets tc_current_function in
  match current with
  | Some f => expect_type (negb (type_eqb (ft_return_type f) ret_ty) && negb (is_error ret_ty)) (ft_return_type f) ret_ty span
  | None => ret tt
  end ;;
  ret RtNever.

Definition check_array (elements : list Expr) : TC ResolvedType :=
  match elements with
  | [] => let! n := fresh_type_var in ret (RtSlice (RtUnknown n))
  | first :: rest =>
    let! first_ty := check_expr first in
    for_each (fun elem =>
      let! ty := check_expr elem in
      expect_type (negb (type_eqb ty first_ty) && negb (is_error ty)) first_ty ty (expr_span elem)) rest ;;
    ret (RtArray first_ty (length elements))
  end.

Definition check_field_init (expected : list (chars * ResolvedType)) (f : FieldInit) : TC unit :=
  let '(mkFieldInit name value _) := f in
  match value with
  | Some v =>
    let! value_ty := check_expr v in
    match find_field (id_name name) expected with
    | Some t => expect_type (negb (type_eqb t value_ty) && negb (is_error value_ty)) t value_ty (expr_span v)
    | None => ret tt
    end
  | None => ret tt
  end.
Definition check_struct (path : TypePath) (fields : list FieldInit) (span : Span) : TC ResolvedType :=
  let name := last_name path in
  let! types := gets tc_types in
  match types !! name with
  | Some d =>
    match td_kind d with TdStruct expected => for_each (check_field_init expected) fields | _ => ret tt end ;;
    ret (RtStruct name)
  | None => push_error (UndefinedType name (sp_line span) (sp_column span)) ;; ret RtError
  end.

Definition check_local (local : LocalStmt) : TC unit :=
  let '(mkLocalStmt _ span pattern ty init is_mutable) := local in
  let! init_ty := match init with Some e => check_expr e | None => ret RtUnit end in
  let! declared_ty :=
    (match ty with
     | Some t =>
       let! resolved := resolve_type t in
       expect_type (negb (type_eqb init_ty RtUnit) && negb (type_eqb resolved init_ty)) resolved init_ty span ;;
       ret resolved
     | None => ret init_ty
     end) in
  match pattern with
  | mkPattern _ _ (PaIdent ident _) => define (id_name ident) declared_ty is_mutable span
  | _ => ret tt
  end.

Definition add_param_to_scope (p : Param) : TC unit :=
  let '(mkParam _ span pattern ty) := p in
  let! t := resolve_type ty in
  match pattern with
  | mkPattern _ _ (PaIdent ident mutable) => define (id_name ident) t mutable span
  | _ => ret tt
  end.

(** The body ends with a [return]. *)
Definition has_return (stmts : list Stmt) : bool :=
  match last stmts with
  | Some (mkStmt _ _ (StExpr (mkExpr _ _ (ExReturn _)))) | Some (mkStmt _ _ (StSemi (mkExpr _ _ (ExReturn _)))) => true
  | _ => false
  end.
Definition block_stmts (b : Block) : list Stmt := let '(mkBlock _ _ stmts) := b in stmts.
Definition sig_name (s : FunctionSig) : chars := let '(mkFunctionSig _ _ _ _ name _ _ _) := s in id_name name.
Definition sig_params (s : FunctionSig) : list Param := let '(mkFunctionSig _ _ _ _ _ _ params _) := s in params.

Definition check_function (f : FunctionDef) : TC unit :=
  let '(mkFunctionDef _ _ sig body _) := f in
  let! functions := gets tc_functions in
  let func_type := functions !! sig_name sig in
  modify (set_current_function func_type) ;;
  enter_scope ;;
  for_each add_param_to_scope (sig_params sig) ;;
  let! body_type := check_block body in
  match func_type with
  | Some func =>
    if negb (type_eqb (ft_return_type func) RtUnit) && negb (type_eqb body_type (ft_return_type func)) then
      expect_type (negb (has_return (block_stmts body)) && negb (is_never body_type)) (ft_return_type func) body_type (block_span body)
    else ret tt
  | None => ret tt
  end ;;
  leave_scope ;;
  modify (set_current_function None).
Definition check_constructor (c : ConstructorDef) : TC unit :=
  let '(mkConstructorDef _ _ _ _ params body) := c in
  enter_scope ;;
  for_each add_param_to_scope params ;;
  check_block body ;;
  leave_scope.
Definition check_const (c : ConstItem) : TC unit :=
  let '(mkConstItem _ _ _ _ ty value) := c in
  let! declared_ty := resolve_type ty in
  let! value_ty := check_expr value in
  expect_type (negb (type_eqb declared_ty value_ty) && negb (is_error value_ty)) declared_ty value_ty (expr_span value).
Definition check_contract (c : ContractDef) : TC unit :=
  let '(mkContractDef _ _ name _ _ items) := c in
  modify (set_contract_context (Some (id_name name))) ;;
  for_each (fun item =>
    match item with
    | CiFunction f => check_function f
    | CiConstructor c => check_constructor c
    | _ => ret tt
    end) items ;;
  modify (set_contract_context None).
End open.

(** [for stmt in &block.stmts { last_type = self.check_stmt(stmt)? }] *)
Definition check_stmts (check_stmt : Stmt -> TC ResolvedType) : list Stmt -> ResolvedType -> TC ResolvedType :=
  fix go l last_type := match l with [] => ret last_type | s :: l => let! t := check_stmt s in go l t end.

Fixpoint check_expr (expr : Expr) : TC ResolvedType :=
  let '(mkExpr _ span kind) := expr in
  match kind with
  | ExLiteral lit => ret (check_literal lit)
  | ExPath path => check_path path span
  | ExBinary op l r =>
    let! left_ty := check_expr l in
    let! right_ty := check_expr r in
    check_binary_op op left_ty right_ty span
  | ExUnary op operand => let! t := check_expr operand in check_unary_op op t span
  | ExCall callee args => let! t := check_expr callee in check_call check_expr t args span
  | ExMethodCall receiver _ args => check_expr receiver ;; check_method_call check_expr args
  | ExField inner field => let! t := check_expr inner in check_field_access t field span
  | ExIndex array index => let! a := check_expr array in let! i := check_expr index in check_index a i span
  | ExCast inner ty => check_expr inner ;; resolve_type ty
  | ExReference inner mutable => let! t := check_expr inner in ret (RtReference t mutable)
  | ExDeref inner =>
    let! t := check_expr inner in
    match t with
    | RtReference inner _ => ret inner
    | _ => mismatch (str "reference") (display_name t) span ;; ret RtError
    end
  | ExBlock block => check_block block
  | ExIf cond then_block else_branch => check_if check_expr check_block cond then_block else_branch
  | ExMatch scrutinee arms => let! t := check_expr scrutinee in check_arms check_expr t arms None
  | ExFor pattern iter body => check_for check_expr check_block pattern iter body
  | ExWhile cond body => check_condition check_expr cond ;; check_block body ;; ret RtUnit
  | ExLoop body => check_block body ;; ret RtNever
  | ExBreak value => match value with Some v => check_expr v ;; ret tt | None => ret tt end ;; ret RtNever
  | ExContinue => ret RtNever
  | ExReturn value => check_return check_expr value span
  | ExTuple elements => let! ts := map_each check_expr elements in ret (RtTuple ts)
  | ExArray elements => check_array check_expr elements
  | ExArrayRepeat elem count => let! t := check_expr elem in check_expr count ;; ret (RtSlice t)
  | ExStruct path fields => check_struct check_expr path fields span
  | ExParen inner => check_expr inner
  | ExTry inner =>
    let! t := check_expr inner in
    match t with
    | RtResult ok _ | RtOption ok => ret ok
    | _ => mismatch (str "Result or Option") (display_name t) span ;; ret RtError
    end
  | _ => ret RtUnit
  end
with check_block (block : Block) : TC ResolvedType :=
  let '(mkBlock _ _ stmts) := block in
  check_stmts check_stmt stmts RtUnit
with check_stmt (stmt : Stmt) : TC ResolvedType :=
  let '(mkStmt _ _ kind) := stmt in
  match kind with
  | StLocal local => check_local check_expr local ;; ret RtUnit
  | StExpr expr => check_expr expr
  | StSemi expr => check_expr expr ;; ret RtUnit
  | StEmpty => ret RtUnit
  | StItem item => check_item item ;; ret RtUnit
  end
with check_item (item : Item) : TC unit :=
  match item with
  | ItContract c => check_contract check_block c
  | ItFunction f => check_function check_block f
  | ItConst c => check_const check_expr c
  | _ => ret tt
  end.

Definition check_file (file : SourceFile) : TC unit :=
  for_each collect_definitions (sf_items file) ;;
  for_each check_item (sf_items file) ;;
  let! errors := gets tc_errors in
  match errors with [] => ret tt | e :: _ => fail e end.
