(* ===== verification/QscCompiler.v ===== *)
(** * The compiler of QuantumScript (src/crates/qfc-qsc/src/lib.rs)

    Lexing, parsing, type checking and code generation in sequence. *)

From S2P Require Import Prelude Externals Genesis QscTokens QscLexer QscAst QscParser QscTypeck QscCodegen.

Inductive CompilerError :=
| CeLexer (e : LexerError)
| CeParse (e : ParseError)
| CeType (e : TypeError)
| CeCodegen (e : CodegenError).

(** The [?] of a result whose error is converted by [From]. *)
Definition and_then {E E' A B} (conv : E -> E') (r : Result E A) (k : A -> Result E' B) : Result E' B :=
  match r with Ok a => k a | Err e => Err (conv e) | Panic => Panic | NoFuel => NoFuel end.

Section compiler.
Context `{U : UnicodeTables, B : Blake3, HD : HexDecode}.

Definition parse_only (source : chars) : Result CompilerError SourceFile :=
  and_then CeLexer (tokenize source) (fun tokens => and_then CeParse (parse_tokens tokens) Ok).
Definition check_types (ast : SourceFile) : Result TypeError unit := fst (check_file ast type_checker_new).
Definition check_only (source : chars) : Result CompilerError unit :=
  and_then CeLexer (tokenize source) (fun tokens =>
    and_then CeParse (parse_tokens tokens) (fun ast => and_then CeType (check_types ast) Ok)).
Definition compile (source : chars) : Result CompilerError (list ContractBytecode) :=
  and_then CeLexer (tokenize source) (fun tokens =>
    and_then CeParse (parse_tokens tokens) (fun ast =>
      and_then CeType (check_types ast) (fun _ => and_then CeCodegen (generate ast) Ok))).
End compiler.
