(* ===== verification/QscTypeckTheory.v ===== *)
(** * Theory of the type checker

    The checker always finishes its passes, and it reports only some of its
    kinds of errors. *)

From stdpp Require Import strings.
From S2P Require Import Prelude Externals QscTokens QscAst QscCodegen QscTypeck.

(** The kinds of errors that are ever reported. *)
Definition reported (e : TypeError) : Prop :=
  match e with
  | UndefinedVariable _ _ _ | UndefinedType _ _ _ | TypeMismatch _ _ _ _ | ArgumentCountMismatch _ _ _ _ | NotCallable _ _
  | NotIndexable _ _ | FieldNotFound _ _ _ _ | SelfOutsideContract _ _ => True
  | _ => False
  end.

(** [m] returns, and the errors it adds are of those kinds. *)
Definition quiet {A} (m : TC A) : Prop :=
  forall t, exists a t', m t = (Ok a, t') /\ (Forall reported (tc_errors t) -> Forall reported (tc_errors t')).

Lemma quiet_ret {A} (a : A) : quiet (ret a).
Proof. intros t. by exists a, t. Qed.
Lemma quiet_bind {A B} (m : TC A) (k : A -> TC B) : quiet m -> (forall a, quiet (k a)) -> quiet (bind m k).
Proof.
  intros Hm Hk t. destruct (Hm t) as (a & t1 & E1 & H1). destruct (Hk a t1) as (b & t2 & E2 & H2). exists b, t2.
  rewrite (bind_ok _ _ _ _ _ E1). auto.
Qed.
Lemma quiet_gets {A} (f : TypeChecker -> A) : quiet (gets f).
Proof. intros t. by exists (f t), t. Qed.
Lemma quiet_modify f : (forall t, tc_errors (f t) = tc_errors t) -> quiet (modify f).
Proof. intros Hf t. exists tt, (f t). by rewrite Hf. Qed.
Lemma quiet_push e : reported e -> quiet (push_error e).
Proof. intros He t. eexists tt, _. split; [done|]. intros Ht. simpl. by apply Forall_app, conj, Forall_singleton. Qed.
Lemma quiet_mismatch a b s : quiet (mismatch a b s).
Proof. by apply quiet_push. Qed.
Lemma quiet_expect b e f s : quiet (expect_type b e f s).
Proof. destruct b; [apply quiet_mismatch|apply quiet_ret]. Qed.
Lemma quiet_or_error m : quiet m -> quiet (or_error m).
Proof. intros Hm t. destruct (Hm t) as (a & t' & E & H). exists a, t'. unfold or_error, bind, attempt. by rewrite E. Qed.
Lemma quiet_for_each {A} (f : A -> TC unit) l : Forall (fun x => quiet (f x)) l -> quiet (for_each f l).
Proof. induction 1; simpl; [apply quiet_ret|]. by apply quiet_bind. Qed.
Lemma quiet_map_each {A B} (f : A -> TC B) l : Forall (fun x => quiet (f x)) l -> quiet (map_each f l).
Proof.
  induction 1; simpl; [apply quiet_ret|]. apply quiet_bind; [done|]. intros ?. apply quiet_bind; [done|]. intros ?. apply quiet_ret.
Qed.
Lemma quiet_zip_each {A B} (f : A -> B -> TC unit) l l' : Forall (fun x => forall y, quiet (f x y)) l -> quiet (zip_each f l l').
Proof. intros Hl. revert l'. induction Hl; intros [|y l']; simpl; try apply quiet_ret. by apply quiet_bind. Qed.
Lemma quiet_stmts f l t : Forall (fun x => quiet (f x)) l -> quiet (check_stmts f l t).
Proof. intros Hl. revert t. induction Hl; intros t; simpl; [apply quiet_ret|]. apply quiet_bind; [done|auto]. Qed.

Create HintDb quiet.
#[export] Hint Resolve quiet_ret quiet_gets quiet_mismatch quiet_expect : quiet.
#[export] Hint Extern 1 (quiet (push_error _)) => apply quiet_push; exact I : quiet.
#[export] Hint Extern 1 (quiet (modify _)) => apply quiet_modify; intros; reflexivity : quiet.

(** One step; the recursive calls are left to [done_by]. *)
Ltac qstep done_by :=
  cbv beta zeta;
  lazymatch goal with
  | |- quiet (bind _ _) => apply quiet_bind; [|intros ?]
  | |- quiet (for_each _ _) => first [solve [eauto 1 with quiet nocore]|apply quiet_for_each]
  | |- quiet (map_each _ _) => apply quiet_map_each
  | |- quiet (zip_each _ _ _) => apply quiet_zip_each
  | |- quiet (check_stmts _ _ _) => apply quiet_stmts
  | |- quiet (or_error _) => apply quiet_or_error
  | |- Forall _ ?l => let x := fresh "x" in let IHl := fresh in induction l as [|x l IHl]; constructor; [|exact IHl]
  | |- forall _, _ => intros ?
  | |- quiet (if ?b then _ else _) => destruct b
  | |- quiet (match ?x with _ => _ end) => destruct x
  | |- quiet _ => first [solve [eauto 1 with quiet nocore]|done_by]
  end.

Lemma quiet_fresh : quiet fresh_type_var.
Proof. unfold fresh_type_var. repeat qstep ltac:(fail). Qed.
Lemma quiet_define n t m s : quiet (define n t m s).
Proof. apply quiet_modify. by intros. Qed.
Lemma quiet_resolve_path p s : quiet (resolve_path p s).
Proof. unfold resolve_path. repeat qstep ltac:(fail). Qed.
Lemma quiet_resolve_self s : quiet (resolve_self s).
Proof. unfold resolve_self. repeat qstep ltac:(fail). Qed.
#[export] Hint Resolve quiet_fresh quiet_define quiet_resolve_path quiet_resolve_self : quiet.

Lemma quiet_resolve_type ty : quiet (resolve_type ty).
Proof. revert ty. fix IH 1. intros [id span kind]. destruct kind; simpl; repeat qstep ltac:(apply IH). Qed.
#[export] Hint Resolve quiet_resolve_type : quiet.
Lemma quiet_resolve_field f : quiet (resolve_field f).
Proof. destruct f. simpl. repeat qstep ltac:(fail). Qed.
#[export] Hint Resolve quiet_resolve_field : quiet.

(** ** The first pass *)

Lemma quiet_struct_def s : quiet (collect_struct_def s).
Proof. destruct s. simpl. unfold insert_type. repeat qstep ltac:(fail). Qed.
Lemma quiet_enum_def e : quiet (collect_enum_def e).
Proof. destruct e. simpl. unfold insert_type. repeat qstep ltac:(fail). destruct x. simpl. repeat qstep ltac:(fail). Qed.
Lemma quiet_type_alias a : quiet (collect_type_alias a).
Proof. destruct a. simpl. unfold insert_type. repeat qstep ltac:(fail). Qed.
Lemma quiet_function_def s : quiet (collect_function_def s).
Proof. destruct s as [? ? ? [] ? ? ? ?]. simpl. repeat qstep ltac:(fail). destruct x. simpl. repeat qstep ltac:(fail). Qed.
#[export] Hint Resolve quiet_struct_def quiet_enum_def quiet_type_alias quiet_function_def : quiet.
Lemma quiet_collect item : quiet (collect_definitions item).
Proof.
  destruct item; simpl; repeat qstep ltac:(fail). destruct c. simpl. repeat qstep ltac:(fail). destruct x; simpl; repeat qstep ltac:(fail).
  match goal with |- quiet (collect_storage_field ?f) => destruct f end. simpl. repeat qstep ltac:(fail).
Qed.
#[export] Hint Resolve quiet_collect : quiet.

(** ** The second pass *)

Lemma quiet_binary_op op l r s : quiet (check_binary_op op l r s).
Proof. destruct op; simpl; repeat qstep ltac:(fail). Qed.
Lemma quiet_unary_op op t s : quiet (check_unary_op op t s).
Proof. destruct op; simpl; repeat qstep ltac:(fail). Qed.
Lemma quiet_not_found f t s : quiet (field_not_found f t s).
Proof. unfold field_not_found. repeat qstep ltac:(fail). Qed.
#[export] Hint Resolve quiet_binary_op quiet_unary_op quiet_not_found : quiet.
Lemma quiet_field_access t f s : quiet (check_field_access t f s).
Proof. destruct t; simpl; repeat qstep ltac:(fail). Qed.
Lemma quiet_index a i s : quiet (check_index a i s).
Proof. unfold check_index. repeat qstep ltac:(fail). Qed.
Lemma quiet_path p s : quiet (check_path p s).
Proof. unfold check_path. repeat qstep ltac:(fail). Qed.
#[export] Hint Resolve quiet_field_access quiet_index quiet_path : quiet.
Lemma quiet_pattern p t : quiet (check_pattern p t).
Proof. revert p t. fix IH 1. intros [id span kind] t. destruct kind; simpl; repeat qstep ltac:(apply IH). Qed.
#[export] Hint Resolve quiet_pattern : quiet.
Lemma quiet_add_param p : quiet (add_param_to_scope p).
Proof. destruct p. simpl. repeat qstep ltac:(fail). Qed.
#[export] Hint Resolve quiet_add_param : quiet.
Lemma quiet_params l : quiet (for_each add_param_to_scope l).
Proof. repeat qstep ltac:(fail). Qed.
#[export] Hint Resolve quiet_params : quiet.

(** The helpers of the recursive cases, opened. *)
Ltac qopen := unfold check_call, check_method_call, check_if, check_condition, check_for, check_return, check_array, check_struct,
  check_field_init, check_local, enter_scope, leave_scope.

Lemma quiet_arms f t arms r :
  Forall (fun arm => let '(mkMatchArm _ _ body _) := arm in quiet (f body)) arms -> quiet (check_arms f t arms r).
Proof.
  intros Ha. revert r. induction Ha as [|[pattern guard body span] arms Hb _ IH]; intros r; simpl; repeat qstep ltac:(first [exact Hb|apply IH]).
Qed.

Fixpoint quiet_expr (e : Expr) : quiet (check_expr e)
with quiet_block (b : Block) : quiet (check_block b)
with quiet_stmt (s : Stmt) : quiet (check_stmt s)
with quiet_item (i : Item) : quiet (check_item i).
Proof.
  - destruct e as [id span kind]. destruct kind; simpl; qopen; repeat qstep ltac:(first [apply quiet_expr|apply quiet_block]).
    apply quiet_arms. induction arms as [|[pattern guard body s] arms IHarms]; constructor; [apply quiet_expr|exact IHarms].
  - destruct b as [id span stmts]. simpl. repeat qstep ltac:(apply quiet_stmt).
  - destruct s as [id span kind]. destruct kind; simpl; qopen; repeat qstep ltac:(first [apply quiet_expr|apply quiet_item]).
  - destruct i; simpl; unfold check_contract, check_function, check_constructor, check_const, enter_scope, leave_scope;
      repeat qstep ltac:(first [apply quiet_expr|apply quiet_block]).
Qed.

Lemma check_file_reports file t :
  tc_errors t = [] -> exists t', (check_file file t = (Ok tt, t') /\ tc_errors t' = []) \/
    (exists e, check_file file t = (Err e, t') /\ reported e).
Proof.
  intros Ht. unfold check_file.
  destruct (quiet_for_each collect_definitions (sf_items file)) with t as (u1 & t1 & E1 & H1).
  { apply Forall_forall. intros. apply quiet_collect. }
  destruct (quiet_for_each check_item (sf_items file)) with t1 as (u2 & t2 & E2 & H2).
  { apply Forall_forall. intros. apply quiet_item. }
  rewrite (bind_ok _ _ _ _ _ E1), (bind_ok _ _ _ _ _ E2), bind_gets. rewrite Ht in H1. specialize (H2 (H1 (Forall_nil_2 _))).
  exists t2. destruct (tc_errors t2) as [|e es]; [by left|right]. exists e. split; [done|]. by inversion H2.
Qed.
