(* ===== verification/QscCodegenTheory.v ===== *)
(** * Theory of the code generator

    It never panics: every jump that is patched at the end of a function is an
    instruction of the function with room for its target. *)

From stdpp Require Import strings.
From S2P Require Import Prelude Externals Genesis Wp QscTokens QvmMemory QvmGas QscAst QscCodegen.

Definition patchable (i : Instruction) : Prop := exists a b r, operand i = Some (a :: b :: r).
Definition jumps_ok (c : Codegen) : Prop :=
  Forall (fun j => exists i, cg_instructions c !! fst j = Some i /\ patchable i) (cg_unresolved_jumps c).

(** [m] keeps the jumps patchable, and does not panic. *)
Definition steady {A} (m : CG A) : Prop := forall c, jumps_ok c -> wp m (fun _ c' => jumps_ok c') c.

Lemma steady_ret {A} (a : A) : steady (ret a).
Proof. intros c Hc. by apply wp_ret. Qed.
Lemma steady_fail {A} e : steady (fail e : CG A).
Proof. intros c Hc. apply wp_fail. Qed.
Lemma steady_unsupported {A} w s : steady (unsupported w s : CG A).
Proof. apply steady_fail. Qed.
Lemma steady_bind {A B} (m : CG A) (k : A -> CG B) : steady m -> (forall a, steady (k a)) -> steady (bind m k).
Proof. intros Hm Hk c Hc. apply wp_bind. eapply wp_mono; [by apply Hm|]. intros a c' Hc'. by apply Hk. Qed.
Lemma steady_gets {A} (f : Codegen -> A) : steady (gets f).
Proof. intros c Hc. by apply wp_gets. Qed.
Lemma steady_modify f :
  (forall c, cg_instructions (f c) = cg_instructions c /\ cg_unresolved_jumps (f c) = cg_unresolved_jumps c) -> steady (modify f).
Proof. intros Hf c Hc. apply wp_modify. unfold jumps_ok. destruct (Hf c) as [-> ->]. done. Qed.
Lemma steady_for_each {A} (f : A -> CG unit) l : Forall (fun x => steady (f x)) l -> steady (for_each f l).
Proof. induction 1; simpl; [apply steady_ret|]. by apply steady_bind. Qed.

Lemma jumps_ok_app c i : jumps_ok c -> jumps_ok (set_instructions (cg_instructions c ++ [i]) c).
Proof. intros Hc. eapply Forall_impl; [exact Hc|]. intros [idx l] (j & Hj & Hp). exists j. split; [|done]. by apply lookup_app_l_Some. Qed.
Lemma steady_emit i : steady (emit i).
Proof. intros c Hc. by apply wp_modify, jumps_ok_app. Qed.
Lemma steady_branch o l : steady (emit_branch o l).
Proof.
  intros c Hc. unfold emit_branch. apply wp_bind, wp_modify. apply wp_modify. unfold jumps_ok. simpl. apply Forall_app. split.
  - eapply Forall_impl; [exact Hc|]. intros [idx l'] (j & Hj & Hp). exists j. split; [|done]. by apply lookup_app_l_Some.
  - apply Forall_singleton. simpl. eexists. split; [by apply list_lookup_middle|]. by eexists _, _, _.
Qed.

Create HintDb steady.
#[export] Hint Resolve steady_ret steady_fail steady_unsupported steady_gets steady_emit steady_branch : steady.
#[export] Hint Extern 1 (steady (modify _)) => apply steady_modify; intros; split; reflexivity : steady.
#[export] Hint Extern 1 (steady (emit_op _)) => apply steady_emit : steady.
#[export] Hint Extern 1 (steady (emit_push_u256 _)) => apply steady_emit : steady.
#[export] Hint Extern 1 (steady (emit_push_u32 _)) => apply steady_emit : steady.
#[export] Hint Extern 1 (steady (emit_load_local _)) => apply steady_emit : steady.
#[export] Hint Extern 1 (steady (emit_store_local _)) => apply steady_emit : steady.
#[export] Hint Extern 1 (steady (emit_jump _)) => apply steady_branch : steady.
#[export] Hint Extern 1 (steady (emit_jump_if_not _)) => apply steady_branch : steady.

Ltac sstep done_by :=
  cbv beta zeta;
  lazymatch goal with
  | |- steady (bind _ _) => apply steady_bind; [|intros ?]
  | |- steady (for_each _ _) => first [solve [eauto 1 with steady nocore]|apply steady_for_each]
  | |- Forall _ ?l => let x := fresh "x" in let IHl := fresh in induction l as [|x l IHl]; constructor; [|exact IHl]
  | |- forall _, _ => intros ?
  | |- steady (if ?b then _ else _) => destruct b
  | |- steady (match ?x with _ => _ end) => destruct x
  | |- steady _ => first [solve [eauto 1 with steady nocore]|done_by]
  end.

Lemma steady_fresh_label p : steady (fresh_label p).
Proof. unfold fresh_label. repeat sstep ltac:(fail). Qed.
Lemma steady_set_label l : steady (set_label l).
Proof. unfold set_label. repeat sstep ltac:(fail). Qed.
Lemma steady_declare n m : steady (declare n m).
Proof. unfold declare. repeat sstep ltac:(fail). Qed.
Lemma steady_fresh_local : steady fresh_local.
Proof. unfold fresh_local. repeat sstep ltac:(fail). Qed.
Lemma steady_element : steady emit_element.
Proof. unfold emit_element. repeat sstep ltac:(fail). Qed.
Lemma steady_path p s : steady (generate_path p s).
Proof. unfold generate_path. repeat sstep ltac:(fail). Qed.
Lemma steady_jump_out pick : steady (jump_out pick).
Proof. unfold jump_out. repeat sstep ltac:(fail). Qed.
Lemma steady_push_loop a b : steady (push_loop a b).
Proof. unfold push_loop. repeat sstep ltac:(fail). Qed.
Lemma steady_pop_loop : steady pop_loop.
Proof. unfold pop_loop. repeat sstep ltac:(fail). Qed.
Lemma steady_param p : steady (declare_param p).
Proof. destruct p as [? ? [? ? []] ?]; simpl; repeat sstep ltac:(apply steady_declare). Qed.
#[export] Hint Resolve steady_fresh_label steady_set_label steady_declare steady_fresh_local steady_element steady_path steady_jump_out
  steady_push_loop steady_pop_loop steady_param : steady.

(** ** Patching *)

Lemma resolve_steady js c :
  Forall (fun j => exists i, cg_instructions c !! fst j = Some i /\ patchable i) js ->
  wp (for_each resolve_jump js) (fun _ _ => True) c.
Proof.
  revert c. induction js as [|[idx l] js IH]; intros c Hj; [done|]. inversion Hj as [|? ? (i & Hi & (a & b & r & Hr)) Hjs]; subst.
  cbn [for_each]. apply wp_bind. unfold resolve_jump. apply wp_bind, wp_gets.
  destruct (cg_labels c !! l) as [target|]; [|by apply wp_ret, IH]. apply wp_bind, wp_gets, wp_bind. eapply wp_or_panic; [exact Hi|].
  apply wp_bind. eapply wp_or_panic; [by unfold patch; rewrite Hr|]. apply wp_modify, IH. simpl in Hi |- *.
  eapply Forall_impl; [exact Hjs|]. intros [idx' l'] (i' & Hi' & Hp). simpl in Hi' |- *. destruct (decide (idx' = idx)) as [->|].
  - eexists. rewrite list_lookup_insert_eq by (by eapply lookup_lt_Some). split; [done|]. 
    pose proof (length_to_be 2 (Z.of_nat target)). unfold patchable. simpl. destruct (to_be 2 (Z.of_nat target)) as [|x [|y [|]]]; try done. by eexists _, _, _.
  - exists i'. by rewrite list_lookup_insert_ne.
Qed.
Lemma steady_resolve : steady resolve_jumps.
Proof.
  intros c Hc. unfold resolve_jumps. apply wp_bind, wp_gets, wp_bind. eapply wp_mono; [by apply resolve_steady|]. intros ? c' _.
  apply wp_modify. constructor.
Qed.
Lemma steady_reset : steady (modify reset_function).
Proof. intros c _. apply wp_modify. constructor. Qed.
#[export] Hint Resolve steady_resolve steady_reset : steady.

(** ** Generation *)

Section generation.
Context `{B : Blake3, HD : HexDecode}.

Lemma steady_literal l : steady (generate_literal l).
Proof.
  destruct l; cbn [generate_literal]; try apply steady_emit. apply steady_for_each, Forall_forall. intros x _. apply steady_emit.
Qed.
#[local] Hint Resolve steady_literal : steady.

Ltac sopen := unfold generate_binary, generate_assignment, generate_call, generate_fields, generate_if, generate_for, generate_while,
  generate_loop, generate_local.

Fixpoint steady_expr (e : Expr) : steady (generate_expr e)
with steady_block (b : Block) : steady (generate_block b)
with steady_stmt (s : Stmt) : steady (generate_stmt s).
Proof.
  - destruct e as [id span kind]. destruct kind; simpl; sopen; repeat sstep ltac:(first [apply steady_expr|apply steady_block]).
  - destruct b as [id span stmts]. simpl. repeat sstep ltac:(apply steady_stmt).
  - destruct s as [id span kind]. destruct kind; simpl; sopen; repeat sstep ltac:(apply steady_expr).
Qed.
#[local] Hint Resolve steady_block : steady.

Lemma steady_function f : steady (generate_function f).
Proof. destruct f as [? ? [? ? ? [] ? ? params ?] body ?]. simpl. repeat sstep ltac:(fail). Qed.
Lemma steady_constructor f : steady (generate_constructor f).
Proof. destruct f. simpl. repeat sstep ltac:(fail). Qed.
#[local] Hint Resolve steady_function steady_constructor : steady.
Lemma steady_constructors items code : steady (constructor_items items code).
Proof. revert code. induction items as [|[] items IH]; intros code; simpl; repeat sstep ltac:(apply IH). Qed.
Lemma steady_functions items fs : steady (function_items items fs).
Proof. revert fs. induction items as [|[] items IH]; intros fs; simpl; repeat sstep ltac:(apply IH). Qed.
#[local] Hint Resolve steady_constructors steady_functions : steady.
Lemma steady_contract c : steady (generate_contract c).
Proof.
  destruct c. simpl. repeat sstep ltac:(fail). unfold layout_item. repeat sstep ltac:(fail).
Qed.
#[local] Hint Resolve steady_contract : steady.
Lemma steady_items items cs : steady (generate_items items cs).
Proof. revert cs. induction items as [|[] items IH]; intros cs; simpl; repeat sstep ltac:(apply IH). Qed.

Lemma generate_total file : match generate file with Ok _ | Err _ => True | _ => False end.
Proof.
  unfold generate. pose proof (steady_items (sf_items file) [] codegen_new) as Hs. unfold wp in Hs.
  specialize (Hs (Forall_nil_2 _)). destruct (generate_items _ _ _) as [[]]; done.
Qed.
End generation.
