(* ===== verification/QscProps.v ===== *)
(** * Properties of the compiler of QuantumScript *)

From stdpp Require Import strings.
From S2P Require Import Prelude Externals Genesis Wp QscTokens QscLexer QscLexerTheory QvmMemory QvmGas Qvm QvmTheory QvmProps QscAst QscParser QscParserTheory QscPrecedence QscCodegen QscCodegenTheory QscTypeck QscTypeckTheory QscCompiler QscCompile QscMeaning.

(** ** The front end *)

Lemma tokenize_ok `{U : UnicodeTables, HU : !UnicodeOk U} source :
  match tokenize source with Ok toks => tokens_of [] source toks | Err _ => True | _ => False end.
Proof.
  pose proof (tokenize_loop_ok (S (length source)) [] [] [] source (lexer_new source) (new_at source) ltac:(lia)) as Hw.
  unfold wp in Hw. unfold tokenize. destruct (tokenize_loop _ _ _) as [[toks|e| |] l]; simpl; try done.
  by destruct Hw as (new & -> & Hn).
Qed.
Lemma tokens_of_ends before source toks : tokens_of before source toks -> ends_eof toks.
Proof.
  induction 1 as [before triv Ht|before triv text rest tok toks Ht Hne Hk He Hs H (t & Hl & Hkt)].
  - by eexists.
  - exists t. split; [|done]. by destruct toks.
Qed.
Lemma parse_tokens_ok toks : ends_eof toks -> match parse_tokens toks with Ok _ | Err _ => True | _ => False end.
Proof.
  intros He. pose proof (parse_file_ok toks (parser_new toks)) as Hw. unfold wp in Hw. unfold parse_tokens.
  assert (Hwf : wf toks (parser_new toks)).
  { split; [|done|done]. destruct He as (t & Hl & _). destruct toks; [done|simpl; lia]. }
  specialize (Hw Hwf). by destruct (parse_file (parser_new toks)) as [[]].
Qed.

(** C13 (roundtrip): the lexer loses nothing. Whatever the source, [tokenize]
    neither panics nor loops, and the tokens it returns tile the source: it is
    cut, in order, into white space and complete comments (nested ones
    included) and the texts of the tokens, with the end of file last. Each text
    is what its kind denotes (a keyword or operator its own spelling, an
    identifier its name, and no keyword), and each span holds the byte offsets
    and the line and column of the text. *)
Theorem tokenize_lossless `{U : UnicodeTables} source :
  UnicodeOk U -> match tokenize source with Ok toks => tokens_of [] source toks | Err _ => True | _ => False end.
Proof. intros HU. apply tokenize_ok. Qed.

(** C12 (termination): the compiler always answers. For every source text,
    [compile] returns contracts or an error of one of its four phases: lexing
    and parsing end however the tokens nest, the type checker finishes both
    passes, and the generator only patches jumps that are there. No index is out
    of range in any phase. *)
Theorem compile_total `{U : UnicodeTables, B : Blake3, HD : HexDecode} source :
  UnicodeOk U -> match compile source with Ok _ | Err _ => True | _ => False end.
Proof.
  intros HU. unfold compile. pose proof (tokenize_ok source) as Ht. destruct (tokenize source) as [toks|e| |]; simpl; try done.
  pose proof (parse_tokens_ok toks (tokens_of_ends _ _ _ Ht)) as Hp. destruct (parse_tokens toks) as [ast|e| |]; simpl; try done.
  unfold check_types. destruct (check_file_reports ast type_checker_new eq_refl) as (t' & [[E _]|(e & E & _)]); rewrite E; simpl; [|done].
  pose proof (generate_total ast) as Hg. by destruct (generate ast).
Qed.

(** C14 (functional): expressions follow the grammar of the operators. On tokens
    that end with the end of file, [parse_expr] with fuel for the tokens left
    returns an error or a tree. The tokens it consumed spell the tree: the
    operands are what [parse_unary_expr] makes of their tokens, and each
    operator stands between its sides in the order of the source, with none
    dropped, added or exchanged. The tree nests by the eleven levels of [level],
    assignments and [**] to the right and the others to the left. No operator
    follows. And the operands and operators in their order leave no other tree
    that nests so. *)
Theorem parser_precedence n toks p :
  wf toks p -> (left p <= S n)%nat ->
  match parse_expr (rec_parsers n) p with
  | (Ok e, p') =>
    spelled toks (ps_pos p) e (ps_pos p') /\ nests 1 e /\ (forall op, ~ at_kind p' (sign op)) /\
    (forall e', nests 1 e' -> flat e' = flat e -> shape e' = shape e)
  | (Err _, _) => True
  | _ => False
  end.
Proof.
  intros Hw Hl. pose proof (expr_reads toks n 0 p Hw Hl) as Hr.
  pose proof (expr_climbs _ (rec_parsers_climbs n) 0 p) as Hc. unfold parse_expr, wp, wlp in *.
  destruct (parse_expr_with_precedence (rec_parsers n) 0 p) as [[e| | |] p']; try done.
  destruct Hr as (Hsp & _), Hc as [Hc Hst]. split_and!; [done| | |].
  - apply (climbs_nests 0); [done|]. apply Forall_forall. intros op _. destruct op; simpl; lia.
  - intros op (t & Ht & Hk). destruct (Hst op) as [Hlt _]; [|by destruct op].
    unfold next_op, now. rewrite Ht. simpl. by apply binary_op_sign.
  - intros e' Hn Hf. eapply climbs_unique; [|done|done]. apply (nests_climbs 1 e' Hn 0).
    apply Forall_forall. intros op _. destruct op; by vm_compute.
Qed.

(** ** Code on the machine *)

Section on_the_machine.
Context `{B : Blake3, HD : HexDecode}.

Lemma gas_new gas n : 0 <= n <= gas -> gas < u_max 64 -> gas_has (Gas.new gas) n.
Proof. intros ? ?. unfold gas_has. simpl. split_and!; (done || lia). Qed.
Lemma ends_pop code : ends_function (code ++ [op_of OpReturn; op_of OpPop]) = false.
Proof. unfold ends_function. by rewrite last_app. Qed.

(** C11 (refinement): compiled expressions mean what the source says. For a
    function without parameters whose body is the return of an expression over
    integer literals (decimal, binary and octal below 2^128, hexadecimal with an
    even number of digits up to 64), storage variables, parentheses and the
    operators on operands of their kind, the generator succeeds, and the QVM,
    started on its code with enough gas, ends with success, returns the meaning
    of the expression in the storage it was given (arithmetic modulo 2^256,
    division by zero being zero, comparisons giving booleans, operands in source
    order) and leaves that storage alone. The stack suffices when the expression
    nests to the depth of the stack at most. *)
Theorem compiled_return_correct c func i sp i' sp' e m s ctx gas :
  HexOk HD -> HexReads HD -> tables_ok (reset_function c) -> slots_ok s -> (depth e <= MAX_STACK_DEPTH)%nat ->
  func_params func = [] -> func_stmts func = [mkStmt i sp (StSemi (mkExpr i' sp' (ExReturn (Some e))))] ->
  mean (stored_in c s) e = Some m ->
  exists fb c', generate_function func (reset_function c) = (Ok fb, c') /\
    (Z.of_nat (length (fb_code fb)) < 2 ^ 63 -> budget (fb_code fb) <= gas < u_max 64 ->
     forall fuel, (length (fb_code fb) <= fuel)%nat ->
     exists out v', vm_execute fuel (fb_code fb) (machine s ctx gas) = (Ok out, v') /\
       out_success out = true /\ out_value out = Some (value_of m) /\ vstorage v' = s).
Proof.
  intros HO HR Htab Hs Hd Hp Hst Hm. set (val := value_of m).
  assert (eval (env_of (reset_function c) [] s) e = Some val) as Hev
    by (eapply mean_eval; [done|intros name n; apply stored_env|done]).
  destruct (eval_code _ _ _ _ _ Hev) as [code Hc].
  destruct (generate_thunk func c (code ++ [op_of OpReturn; op_of OpPop])) as (fb & c' & Eg & Ec); [done| |apply ends_pop|].
  { rewrite Hst. by apply generate_return_stmt. }
  exists fb, c'. split; [done|]. rewrite Ec, <-(assoc_L app). set (post := [op_of OpReturn; op_of OpPop] ++ [op_of OpReturn]). intros Hlen Hgas fuel Hfuel.
  set (v := entered (machine s ctx gas)). pose proof (budget_nonneg post). rewrite budget_app in Hgas.
  destruct (run_expr (reset_function c) v (Frame.new main 0) [] (code ++ post) Htab eq_refl Hlen (Forall_nil_2 _) Hs e code val Hc Hev
    [] post [] (Gas.new gas) 0) as (g' & S1 & Hg'); [done|done|apply gas_new; pose proof (budget_nonneg code); lia|done|].
  rewrite length_app in Hfuel. destruct fuel as [|fuel]; [simpl in Hfuel; lia|].
  destruct (run_return (fuel - length code) (code ++ post) [val] (Z.of_nat (length ([] ++ code))) g' v (Frame.new main 0)) as (g2 & Er);
    [done|done| |done|].
  { rewrite Nat2Z.id. by apply list_lookup_middle. }
  destruct (execute_value (S fuel) (code ++ post) (machine s ctx gas) (set_frames [] (put [val] (Z.of_nat (length ([] ++ code))) g2 v)) val []) as (out & v' & Ex & H1 & H2 & H3 & H4).
  { replace (S fuel) with (length code + S (fuel - length code))%nat by (simpl in Hfuel; lia).
    etransitivity; [exact (S1 (S (fuel - length code))%nat)|exact Er]. }
  { done. }
  exists out, v'. by split_and!.
Qed.


End on_the_machine.

(** ** Integer literals *)

Definition is_digit (c : Z) : Prop := 48 <= c <= 57.
Definition decimal_value (s : chars) (acc : Z) : Z := foldl (fun acc c => acc * 10 + (c - 48)) acc s.

Lemma decimal_value_ge s acc : Forall is_digit s -> 0 <= acc -> acc <= decimal_value s acc.
Proof.
  intros Hs. revert acc. induction Hs as [|c s [? ?] _ IH]; intros acc Ha; [done|]. change (acc <= decimal_value s (acc * 10 + (c - 48))).
  specialize (IH (acc * 10 + (c - 48))). lia.
Qed.
Lemma radix_digits_value s acc :
  Forall is_digit s -> 0 <= acc < 2 ^ 128 ->
  radix_digits 10 s acc = if decimal_value s acc <? 2 ^ 128 then Some (decimal_value s acc) else None.
Proof.
  intros Hs. revert acc. induction Hs as [|c s [? ?] Hs IH]; intros acc Ha.
  { simpl. change (decimal_value [] acc) with acc. destruct (Z.ltb_spec acc (2 ^ 128)); [done|lia]. }
  cbn [radix_digits]. change (ch "0") with 48. change (decimal_value (c :: s) acc) with (decimal_value s (acc * 10 + (c - 48))).
  destruct (Z.leb_spec 0 (c - 48)); [|lia]. destruct (Z.ltb_spec (c - 48) 10); [|lia]. cbn [andb].
  destruct (Z.ltb_spec (acc * 10 + (c - 48)) (2 ^ 128)) as [Hlt|Hge]; [apply IH; lia|].
  pose proof (decimal_value_ge s (acc * 10 + (c - 48)) Hs). destruct (Z.ltb_spec (decimal_value s (acc * 10 + (c - 48))) (2 ^ 128)); [lia|done].
Qed.
Lemma digits_no_underscore s : Forall is_digit s -> remove_underscores s = s.
Proof.
  unfold remove_underscores. induction 1 as [|c s [? ?] _ IH]; [done|]. rewrite filter_cons_True; [by rewrite IH|]. change (ch "_") with 95. lia.
Qed.
Lemma utf8_digits s : Forall is_digit s -> utf8 s = s.
Proof.
  unfold utf8. induction 1 as [|c s [? ?] _ IH]; [done|]. cbn [map concat]. rewrite IH. unfold utf8_char. by destruct (Z.ltb_spec c 128); [|lia].
Qed.
Lemma digits_prefixed a b s : ~ is_digit (ch a) -> ~ is_digit (ch b) -> Forall is_digit s -> prefixed a b s = false.
Proof.
  intros Ha Hb Hs. destruct s as [|c [|d s]]; try done. inversion Hs as [|? ? _ Hs']. inversion Hs' as [|? ? Hd _]; subst. cbn [prefixed].
  apply andb_false_iff. right. apply orb_false_iff. split; apply Z.eqb_neq; by intros ->.
Qed.

(** Integer literals out of range compile to zero. A decimal
    literal stands for its value only below 2^128, although the type of a literal
    is u256; from there on the generator pushes 0 without an error. A
    hexadecimal literal with an odd number of digits, such as 0xF, is always 0. *)
Theorem literals_become_zero `{HD : HexDecode} s h :
  HexOk HD -> Forall is_digit s -> s <> [] -> Nat.Odd (length h) -> Forall is_digit h ->
  from_be (parse_int_literal s) = (if decimal_value s 0 <? 2 ^ 128 then decimal_value s 0 else 0) /\
  from_be (parse_int_literal (str "0x" ++ h)) = 0.
Proof.
  intros HO Hs Hne Hodd Hh. split.
  - unfold parse_int_literal. rewrite (digits_no_underscore s Hs), !digits_prefixed by (done || (intros [? ?]; done)).
    assert (Hr : u128_from_str_radix 10 s = radix_digits 10 s 0).
    { destruct s as [|c s]; [done|]. cbn [u128_from_str_radix]. inversion Hs as [|? ? [? ?] _]. change (ch "+") with 43.
      destruct (Z.eqb_spec c 43); [lia|done]. }
    rewrite Hr, radix_digits_value by (done || lia). destruct (Z.ltb_spec (decimal_value s 0) (2 ^ 128)); [|done].
    cbn [u128_word]. unfold right_aligned. rewrite from_be_zeros, from_to_be. apply Z.mod_small.
    pose proof (decimal_value_ge s 0 Hs). change (256 ^ Z.of_nat 16) with (2 ^ 128). lia.
  - unfold parse_int_literal. assert (Hu : remove_underscores (str "0x" ++ h) = str "0x" ++ h).
    { unfold remove_underscores. rewrite filter_app. change (filter _ h) with (remove_underscores h). by rewrite (digits_no_underscore h Hh). }
    rewrite Hu. change (prefixed "x" "X" (str "0x" ++ h)) with true. change (drop 2 (str "0x" ++ h)) with h. cbn iota.
    by rewrite (utf8_digits h Hh), (hex_odd h Hodd).
Qed.

(** ** Conditions *)

(** The tokens from the current one on. *)
Definition ahead (p : Parser) (ts : list Token) : Prop := drop (ps_pos p) (ps_tokens p) = ts.
Definition fails {A} (e : ParseError) (m : PR A) (p : Parser) : Prop := exists p', m p = (Err e, p').

Lemma fails_first {A B} e (m : PR A) (k : A -> PR B) p : fails e m p -> fails e (bind m k) p.
Proof. intros [p' E]. exists p'. unfold bind. by rewrite E. Qed.
Lemma fails_then {A B} e (m : PR A) (k : A -> PR B) p a p1 : m p = (Ok a, p1) -> fails e (k a) p1 -> fails e (bind m k) p.
Proof. intros E [p' E']. exists p'. by rewrite (bind_ok _ _ _ _ _ E). Qed.

Lemma ahead_lookup p t ts : ahead p (t :: ts) -> ps_tokens p !! ps_pos p = Some t.
Proof. intros Ha. rewrite <-(Nat.add_0_r (ps_pos p)), <-lookup_drop. unfold ahead in Ha. by rewrite Ha. Qed.
Lemma run_current p t ts : ahead p (t :: ts) -> current p = (Ok t, p).
Proof. intros Ha. unfold current. rewrite bind_gets. unfold id. by rewrite (ahead_lookup _ _ _ Ha). Qed.
Lemma run_kind p t ts : ahead p (t :: ts) -> current_kind p = (Ok (tk_kind t), p).
Proof. intros Ha. unfold current_kind. by rewrite (bind_ok _ _ _ _ _ (run_current _ _ _ Ha)). Qed.
Lemma run_span p t ts : ahead p (t :: ts) -> current_span p = (Ok (tk_span t), p).
Proof. intros Ha. unfold current_span. by rewrite (bind_ok _ _ _ _ _ (run_current _ _ _ Ha)). Qed.
Lemma run_span_from s p t ts : ahead p (t :: ts) -> exists s', span_from s p = (Ok s', p).
Proof. intros Ha. unfold span_from. rewrite (bind_ok _ _ _ _ _ (run_span _ _ _ Ha)). by eexists. Qed.
Lemma run_check k p t ts : ahead p (t :: ts) -> check k p = (Ok (discriminant (tk_kind t) =? discriminant k), p).
Proof. intros Ha. unfold check. by rewrite (bind_ok _ _ _ _ _ (run_kind _ _ _ Ha)). Qed.
Lemma run_advance p t u ts : ahead p (t :: u :: ts) -> exists p', advance_token p = (Ok t, p') /\ ahead p' (u :: ts).
Proof.
  intros Ha. unfold advance_token. rewrite (bind_ok _ _ _ _ _ (run_current _ _ _ Ha)), bind_modify.
  assert (Hl : length (drop (ps_pos p) (ps_tokens p)) = S (S (length ts))) by (unfold ahead in Ha; by rewrite Ha). rewrite length_drop in Hl.
  destruct (Nat.ltb_spec (ps_pos p) (length (ps_tokens p) - 1)); [|lia]. eexists. split; [done|]. unfold ahead in *. simpl.
  replace (S (ps_pos p)) with (ps_pos p + 1)%nat by lia. by rewrite <-drop_drop, Ha.
Qed.

Section conditions.
Context (t2 t3 t4 : Token) (name : chars) (rest : list Token).
Context (H2 : tk_kind t2 = Tok.Identifier name) (H3 : tk_kind t3 = Tok.LBrace).
Context (Hname : forall x, tk_kind t4 <> Tok.Identifier x) (Hbrace : tk_kind t4 <> Tok.RBrace) (Heof : tk_kind t4 <> Tok.Eof).
Let error : ParseError := ExpectedIdentifier (sp_line (tk_span t4)) (sp_column (tk_span t4)).

Lemma field_inits_fail R p : ahead p (t4 :: rest) -> fails error (parse_field_inits R) p.
Proof using Hname Hbrace Heof.
  intros Ha. unfold parse_field_inits. eapply fails_then; [done|]. cbn [field_inits_loop].
  eapply fails_then; [by eapply run_check|]. destruct (Z.eqb_spec (discriminant (tk_kind t4)) (discriminant Tok.RBrace)) as [E|_].
  { exfalso. apply Hbrace. by destruct (tk_kind t4). }
  unfold is_eof. eapply fails_then; [by rewrite (bind_ok _ _ _ _ _ (run_kind _ _ _ Ha))|]. rewrite bool_decide_eq_false_2 by done.
  eapply fails_then; [by eapply run_span|]. apply fails_first. unfold expect_identifier. eapply fails_then; [by eapply run_kind|].
  assert (Hf : fails error (fail_at ExpectedIdentifier : PR Ident) p).
  { unfold fail_at. eapply fails_then; [by eapply run_span|]. by eexists. }
  destruct (tk_kind t4); try exact Hf. by destruct (Hname s).
Qed.
Lemma path_fails R p : ahead p (t2 :: t3 :: t4 :: rest) -> fails error (parse_path_expr R) p.
Proof using H2 H3 Hname Hbrace Heof.
  intros Ha. unfold parse_path_expr. eapply fails_then; [by eapply run_span|]. eapply fails_then; [by eapply run_kind|]. rewrite H2.
  destruct (run_advance _ _ _ _ Ha) as (p1 & E1 & Ha1).
  eapply fails_then; [by rewrite (bind_ok _ _ _ _ _ (run_span _ _ _ Ha)), (bind_ok _ _ _ _ _ E1)|].
  assert (Hm : many_eat Tok.ColonColon expect_identifier [mkIdent name (tk_span t2)] p1 = (Ok [mkIdent name (tk_span t2)], p1)).
  { unfold many_eat. rewrite (bind_ok _ _ _ _ _ (eq_refl : tokens_left p1 = _)). cbn [eat_loop]. unfold eat.
    assert (Hb : (let! b := check Tok.ColonColon in if (b : bool) then advance_token ;; ret true else ret false) p1 = (Ok false, p1)).
    { rewrite (bind_ok _ _ _ _ _ (run_check Tok.ColonColon _ _ _ Ha1)). by rewrite H3. }
    by rewrite (bind_ok _ _ _ _ _ Hb). }
  eapply fails_then; [exact Hm|]. eapply fails_then; [by eapply run_check|]. rewrite H3. cbn [length Nat.leb andb].
  rewrite Z.eqb_refl. cbn [andb]. destruct (run_span_from (tk_span t2) _ _ _ Ha1) as (s' & Es). eapply fails_then; [exact Es|]. cbv zeta.
  destruct (run_advance _ _ _ _ Ha1) as (p2 & E2 & Ha2). eapply fails_then; [exact E2|]. by apply fails_first, field_inits_fail.
Qed.
Lemma expr_fails n p : ahead p (t2 :: t3 :: t4 :: rest) -> fails error (r_expr (rec_parsers (S n)) 0) p.
Proof using H2 H3 Hname Hbrace Heof.
  intros Ha. cbn [rec_parsers r_expr]. unfold parse_expr_with_precedence. apply fails_first. unfold parse_unary_expr.
  eapply fails_then; [by eapply run_span|]. eapply fails_then; [by eapply run_kind|]. rewrite H2. unfold parse_postfix_expr.
  apply fails_first. unfold parse_primary_expr. eapply fails_then; [by eapply run_span|]. eapply fails_then; [by eapply run_kind|].
  rewrite H2. by apply path_fails.
Qed.
End conditions.

(** A condition cannot end with a name. In an if whose condition is
    an identifier, the parser takes the identifier and the opening brace of the
    block for the beginning of a struct value: it fails on the first token of
    the block, unless that is an identifier or the block is empty. So is
    rejected, for instance, the statement [if a { return; }]. *)
Theorem if_identifier_fails n p t1 t2 t3 t4 rest name :
  drop (ps_pos p) (ps_tokens p) = t1 :: t2 :: t3 :: t4 :: rest ->
  tk_kind t1 = Tok.If -> tk_kind t2 = Tok.Identifier name -> tk_kind t3 = Tok.LBrace ->
  (forall x, tk_kind t4 <> Tok.Identifier x) -> tk_kind t4 <> Tok.RBrace -> tk_kind t4 <> Tok.Eof ->
  exists p', parse_if_expr (rec_parsers (S n)) p =
    (Err (ExpectedIdentifier (sp_line (tk_span t4)) (sp_column (tk_span t4))), p').
Proof.
  intros Ha H1 H2 H3 Hn Hb He. change (ahead p (t1 :: t2 :: t3 :: t4 :: rest)) in Ha.
  enough (fails (ExpectedIdentifier (sp_line (tk_span t4)) (sp_column (tk_span t4))) (parse_if_expr (rec_parsers (S n))) p) by done.
  unfold parse_if_expr. eapply fails_then; [by eapply run_span|]. destruct (run_advance _ _ _ _ Ha) as (p1 & E1 & Ha1).
  eapply fails_then; [|by eapply fails_first, expr_fails].
  unfold expect. rewrite (bind_ok _ _ _ _ _ (run_check Tok.If _ _ _ Ha)), H1. by rewrite Z.eqb_refl.
Qed.

(** ** Witnesses *)

Section witnesses.

(** Letters and digits of ASCII only. *)
Definition ascii_tables : UnicodeTables := fun c =>
  ((48 <=? c) && (c <=? 57)) || ((65 <=? c) && (c <=? 90)) || ((97 <=? c) && (c <=? 122)).
Lemma ascii_tables_ok : UnicodeOk ascii_tables.
Proof.
  intros c Hc. unfold is_alphanumeric, ascii_tables. change (ch "a") with 97 in Hc. change (ch "z") with 122 in Hc.
  change (ch "A") with 65 in Hc. change (ch "Z") with 90 in Hc.
  rewrite !orb_true_iff, !andb_true_iff, !Z.leb_le. lia.
Qed.
(** Pairs of hexadecimal digits. *)
Definition hex_digit (c : Z) : option Z :=
  if (48 <=? c) && (c <=? 57) then Some (c - 48) else if (97 <=? c) && (c <=? 102) then Some (c - 87)
  else if (65 <=? c) && (c <=? 70) then Some (c - 55) else None.
Fixpoint pair_hex (s : bytes) : option bytes :=
  match s with
  | [] => Some []
  | a :: b :: r => x ← hex_digit a; y ← hex_digit b; bs ← pair_hex r; Some (16 * x + y :: bs)
  | _ => None
  end.
Definition plain_hex : HexDecode := pair_hex.
Lemma hex_digit_range c x : hex_digit c = Some x -> 0 <= x < 16.
Proof.
  unfold hex_digit. destruct (Z.leb_spec 48 c), (Z.leb_spec c 57), (Z.leb_spec 65 c), (Z.leb_spec c 70), (Z.leb_spec 97 c), (Z.leb_spec c 102);
    simpl; intros [= <-]; lia.
Qed.
Lemma plain_hex_ok : HexOk plain_hex.
Proof.
  split.
  - fix IH 1. intros [|a [|b r]] bs; unfold hex_decode, plain_hex; cbn [pair_hex]; [intros [= <-]; constructor|done|].
    destruct (hex_digit a) as [x|] eqn:Ea; [|done]. destruct (hex_digit b) as [y|] eqn:Eb; [|done].
    destruct (pair_hex r) as [l|] eqn:Er; [|done]. intros [= <-]. constructor; [|by apply (IH r)].
    apply hex_digit_range in Ea, Eb. unfold is_byte. lia.
  - fix IH 1. intros [|a [|b r]] Ho; [by destruct Ho as [k Hk]; simpl in Hk; lia|done|]. unfold hex_decode, plain_hex. cbn [pair_hex].
    assert (Hr : pair_hex r = None) by (apply (IH r); destruct Ho as [k Hk]; exists (k - 1)%nat; simpl in Hk; lia).
    rewrite Hr. by destruct (hex_digit a), (hex_digit b).
Qed.
Lemma pair_hex_reads s : forall acc n, 95 ∉ s -> Nat.Even (length s) -> positional 16 s acc = Some n ->
  exists bs, pair_hex s = Some bs /\ n = acc * 256 ^ Z.of_nat (length bs) + from_be bs /\ (2 * length bs)%nat = length s.
Proof.
  revert s. fix IH 1. intros [|a [|b r]] acc n Hn [k Hk] Hp; [|simpl in Hk; lia|].
  { injection Hp as <-. exists []. split_and!; [done| |done]. change (from_be []) with 0. simpl. lia. }
  apply not_elem_of_cons in Hn as [Ha [Hb Hr]%not_elem_of_cons]. cbn [positional] in Hp.
  rewrite (proj2 (Z.eqb_neq a 95)), (proj2 (Z.eqb_neq b 95)) in Hp by done.
  assert (forall c, digit 16 c = hex_digit c) as Hdig
    by (intros c; unfold digit, hex_digit; repeat case_match; try done; simplify_eq; try lia; f_equal; lia).
  rewrite !Hdig in Hp. cbn [pair_hex]. destruct (hex_digit a) as [x|] eqn:Ex; [|done]. destruct (hex_digit b) as [y|] eqn:Ey; [|done].
  simpl in Hp. destruct (IH r ((acc * 16 + x) * 16 + y) n Hr) as (bs & -> & -> & Hl); [exists (k - 1)%nat; simpl in Hk; lia|exact Hp|].
  exists (16 * x + y :: bs). split_and!; [done| |simpl; lia]. rewrite from_be_cons. cbn [length].
  rewrite Nat2Z.inj_succ, Z.pow_succ_r by lia. lia.
Qed.
Lemma plain_hex_reads : HexReads plain_hex.
Proof.
  intros s n Hn He Hp. destruct (pair_hex_reads s 0 n Hn He Hp) as (bs & Hd & -> & Hl). exists bs. by split_and!.
Qed.
#[local] Existing Instance ascii_tables.
#[local] Existing Instance cut_blake3.
#[local] Existing Instance plain_hex.

Definition ex_source : chars := str "contract C { storage { x: u256, } pub fn f() -> u256 { return 1 + x * 2; } }".

Lemma tokenize_lossless_witness :
  match tokenize ex_source with Ok toks => tokens_of [] ex_source toks | Err _ => True | _ => False end.
Proof. apply (tokenize_lossless ex_source). exact ascii_tables_ok. Defined.

Lemma compile_total_witness : match compile ex_source with Ok _ | Err _ => True | _ => False end.
Proof. apply (compile_total ex_source). exact ascii_tables_ok. Defined.

Definition ex_parser : Parser :=
  match tokenize (str "1 + 2 * 3;") with Ok toks => parser_new toks | _ => parser_new [] end.
Lemma ex_parser_wf : wf (ps_tokens ex_parser) ex_parser.
Proof. split; [apply Nat.ltb_lt; vm_compute; reflexivity|eexists; split; vm_compute; reflexivity|done]. Qed.
Lemma parser_precedence_witness :
  exists e p', parse_expr (rec_parsers 10) ex_parser = (Ok e, p') /\ nests 1 e /\
    spelled (ps_tokens ex_parser) 0 e (ps_pos p') /\ ps_pos p' = 5%nat.
Proof.
  pose proof (parser_precedence 10 (ps_tokens ex_parser) ex_parser ex_parser_wf) as H.
  assert (left ex_parser <= 11)%nat as Hl by (apply Nat.leb_le; vm_compute; reflexivity). specialize (H Hl).
  destruct (parse_expr (rec_parsers 10) ex_parser) as [r p'] eqn:E.
  assert (ps_pos p' = 5%nat) as Hp by (apply (f_equal (fun x => ps_pos (snd x))) in E; vm_compute in E; by symmetry).
  destruct r as [e|er| |]; [|exfalso|destruct H..].
  - destruct H as (Hs & Hn & _). exists e, p'. split_and!; [reflexivity|exact Hn|exact Hs|exact Hp].
  - apply (f_equal (fun x => match fst x with Ok _ => true | _ => false end)) in E. vm_compute in E. discriminate E.
Defined.

Definition num (s : string) : Expr := mkExpr 0 span_default (ExLiteral (LitInt (str s) None)).
Definition var (s : string) : Expr := mkExpr 0 span_default (ExPath (mkExprPath [mkIdent (str s) span_default] span_default)).
Definition bin (op : BinaryOp) (a b : Expr) : Expr := mkExpr 0 span_default (ExBinary op a b).
Definition thunk (stmt : Expr) : FunctionDef :=
  mkFunctionDef 0 span_default
    (mkFunctionSig 0 span_default VisPublic (mkFunctionModifiers false false false false []) (mkIdent (str "f") span_default) None [] None)
    (mkBlock 0 span_default [mkStmt 0 span_default (StSemi stmt)]) [].
(** [x] is slot 3 and holds 5. *)
Definition ex_codegen : Codegen := set_slots {[str "x" := 3]} 4 codegen_new.
Definition ex_slots : Slots.t := Slots.mk {[to_be 32 3 := to_be 32 5]} ∅ ∅.
Lemma ex_tables_ok : tables_ok (reset_function ex_codegen).
Proof. split; [apply map_Forall_empty|]. by apply map_Forall_singleton. Qed.
Lemma ex_slots_ok : slots_ok ex_slots.
Proof. split; [|apply map_Forall_empty]. apply map_Forall_singleton. apply to_be_word. Qed.

Definition ex_expr : Expr := bin OpAdd (num "0x01") (bin OpMul (var "x") (num "2")).
Definition ex_return : FunctionDef := thunk (mkExpr 0 span_default (ExReturn (Some ex_expr))).
Lemma compiled_return_correct_witness :
  exists fb c', generate_function ex_return (reset_function ex_codegen) = (Ok fb, c') /\
    (Z.of_nat (length (fb_code fb)) < 2 ^ 63 -> budget (fb_code fb) <= 10000 < u_max 64 ->
     forall fuel, (length (fb_code fb) <= fuel)%nat ->
     exists out v', vm_execute fuel (fb_code fb) (machine ex_slots context_default 10000) = (Ok out, v') /\
       out_success out = true /\ out_value out = Some (VU256 11) /\ vstorage v' = ex_slots).
Proof.
  apply (compiled_return_correct ex_codegen ex_return 0 span_default 0 span_default ex_expr (MInt 11)).
  - exact plain_hex_ok.
  - exact plain_hex_reads.
  - exact ex_tables_ok.
  - exact ex_slots_ok.
  - vm_compute. lia.
  - reflexivity.
  - reflexivity.
  - vm_compute. reflexivity.
Defined.


Lemma literals_become_zero_witness :
  from_be (parse_int_literal (str "340282366920938463463374607431768211456")) = 0 /\ from_be (parse_int_literal (str "0x" ++ str "7")) = 0.
Proof.
  apply (literals_become_zero (str "340282366920938463463374607431768211456") (str "7") plain_hex_ok).
  - vm_compute. repeat (apply Forall_cons_2; [split; discriminate|]). apply Forall_nil_2.
  - done.
  - by exists 0%nat.
  - apply Forall_singleton. vm_compute. split; discriminate.
Defined.

Definition ex_if : Parser :=
  match tokenize (str "if a { return; }") with Ok toks => parser_new toks | _ => parser_new [] end.
Lemma if_identifier_fails_witness : exists p', parse_if_expr (rec_parsers 10) ex_if = (Err (ExpectedIdentifier 1 8), p').
Proof.
  eapply (if_identifier_fails 9 ex_if (mkToken Tok.If (mkSpan 0 2 1 1)) (mkToken (Tok.Identifier (str "a")) (mkSpan 3 4 1 4))
    (mkToken Tok.LBrace (mkSpan 5 6 1 6)) (mkToken Tok.Return (mkSpan 7 13 1 8))); [vm_compute; reflexivity|done..].
Defined.
End witnesses.

(** ** Sources from text to value *)

Section sources.
#[local] Existing Instance ascii_tables.
#[local] Existing Instance cut_blake3.
#[local] Existing Instance plain_hex.

(** The value the first function of the first contract returns. *)
Definition run_source (source : chars) : option Value :=
  match compile source with
  | Ok (c :: _) =>
    match cb_functions c with
    | f :: _ => match fst (vm_execute 1000 (fb_code f) (vm_new 100000)) with Ok out => out_value out | _ => None end
    | [] => None
    end
  | _ => None
  end.

Example source_arithmetic : run_source (str "contract C { pub fn f() -> u256 { return 1 + 2 * 3 ** 2; } }") = Some (VU256 19).
Proof. vm_compute. reflexivity. Qed.
(** A boolean literal is a number for the machine, and no number equals the outcome of a comparison. *)
Example source_true_is_not_true : run_source (str "contract C { pub fn f() -> bool { return (1 < 2) == true; } }") = Some (VBool false).
Proof. vm_compute. reflexivity. Qed.
(** The checker knows the storage of every contract everywhere, the generator only that of the contract at hand. *)
Example source_foreign_storage :
  let source := str "contract A { storage { x: u256, } } contract B { pub fn f() -> u256 { return x; } }" in
  check_only source = Ok tt /\ compile source = Err (CeCodegen (UndefinedSymbol (str "x") 1 78)).
Proof. split; vm_compute; reflexivity. Qed.
(** Two closing brackets in a row are one token, which no type takes; with a space between them the type parses. *)
Example source_nested_generics :
  (exists e, parse_only (str "contract C { storage { x: Vec<Vec<u8>>, } }") = Err (CeParse e)) /\
  (exists file, parse_only (str "contract C { storage { x: Vec<Vec<u8> >, } }") = Ok file).
Proof. split; eexists; vm_compute; reflexivity. Qed.
(** An underscore is an identifier: the lexer has no way to the token of the wildcard pattern. *)
Example source_underscore : option_map tk_kind (match tokenize (str "_") with Ok toks => head toks | _ => None end) = Some (Tok.Identifier (str "_")).
Proof. vm_compute. reflexivity. Qed.
End sources.
