(* ===== verification/Governance.v ===== *)
(** * Governance (src/crates/qfc-ai-coordinator/src: treasury.rs,
      param_governance.rs, governance.rs)

    Holders of stake vote on spending the treasury and on protocol parameters,
    validators on models. A passed spending or parameter proposal waits for a
    timelock and is then executed. The first two files have the same text for
    votes, their tally and the timelock; it is the section on ballots here. The
    loops over a [HashMap] take the order in which it lists its keys as an
    argument. Errors carry numbers where the source has their decimal text. *)

From S2P Require Import Prelude Externals.

Definition u128_add (a b : Z) : Z := wrap 128 (a + b).
Definition u128_mul (a b : Z) : Z := wrap 128 (a * b).

Definition SUPERMAJORITY_NUMERATOR : Z := 2.
Definition SUPERMAJORITY_DENOMINATOR : Z := 3.
Definition MIN_PROPOSAL_STAKE : Z := 10 ^ 22.

(** ** Ballots *)

Inductive Status :=
| Active
| Queued (execute_after : Z)
| Executed
| Rejected
| Expired
| Cancelled.
#[export] Instance Status_eq_dec : EqDecision Status.
Proof. solve_decision. Defined.

(** The part of a proposal that voting is about: the votes with their stakes,
    the status and the deadline. *)
Record Ballot := mkBallot { votes : gmap Address (bool * Z); status : Status; voting_deadline : Z }.
Definition set_status (s : Status) (b : Ballot) : Ballot := mkBallot (votes b) s (voting_deadline b).

Definition stake_for (b : Ballot) : Z :=
  map_fold (fun _ '(approve, stake) acc => if (approve : bool) then u128_add acc stake else acc) 0 (votes b).
Definition stake_against (b : Ballot) : Z :=
  map_fold (fun _ '(approve, stake) acc => if (approve : bool) then acc else u128_add acc stake) 0 (votes b).

Inductive VoteError := NotActive | PeriodExpired | Voted (voter : Address).
Definition cast (voter : Address) (approve : bool) (stake now : Z) (b : Ballot) : VoteError + Ballot :=
  if negb (bool_decide (status b = Active)) then inl NotActive
  else if voting_deadline b <? now then inl PeriodExpired
  else if bool_decide (is_Some (votes b !! voter)) then inl (Voted voter)
  else inr (mkBallot (<[voter := (approve, stake)]> (votes b)) (status b) (voting_deadline b)).

Definition supermajority (stake total_stake : Z) : bool :=
  u128_mul total_stake SUPERMAJORITY_NUMERATOR <? u128_mul stake SUPERMAJORITY_DENOMINATOR.

(** One round of the loop of [tally]: the new status of a ballot. *)
Definition tally_status (total_stake now timelock_ms : Z) (b : Ballot) : Status :=
  if negb (bool_decide (status b = Active)) then status b
  else
    let total_voted := u128_add (stake_for b) (stake_against b) in
    let passed := supermajority (stake_for b) total_stake in
    if voting_deadline b <? now then
      if passed then Queued (u64_add now timelock_ms) else Expired
    else if passed then Queued (u64_add now timelock_ms)
    else
      let remaining := sat_sub total_stake total_voted in
      if supermajority (u128_add (stake_for b) remaining) total_stake then Active else Rejected.
Definition newly_queued (before after : Status) : bool :=
  match before, after with Active, Queued _ => true | _, _ => false end.

Inductive Maturity := MNotQueued | MLocked (execute_after : Z) | MMature.
Definition maturity (now : Z) (b : Ballot) : Maturity :=
  match status b with
  | Queued execute_after => if now <? execute_after then MLocked execute_after else MMature
  | _ => MNotQueued
  end.

(** The identifier of a proposal. *)
Definition proposal_hash `{Blake3} (proposer : Address) (counter : Z) (tag : bytes) : Hash :=
  blake3 (proposer ++ to_le 8 counter ++ tag).

(** ** The treasury (treasury.rs) *)

Module Treasury.

Definition DEFAULT_VOTING_PERIOD_MS : Z := 5 * 86400000.
Definition DEFAULT_TIMELOCK_MS : Z := 72 * 3600000.
Definition MAX_SPEND_PERCENT : Z := 25.
(** [b"treasury"] *)
Definition tag : bytes := [116; 114; 101; 97; 115; 117; 114; 121].

Inductive TreasuryError :=
| ProposalNotFound (id : Hash)
| ProposalNotActive
| VotingPeriodExpired
| AlreadyVoted (voter : Address)
| InsufficientStake (need have : Z)
| SpendTooLarge (max : Z)
| TimelockNotExpired
| NotQueued
| InsufficientBalance.

Record SpendProposal := mkSpend {
  proposal_id : Hash;
  proposer : Address;
  recipient : Address;
  amount : Z;
  description : bytes;
  ballot : Ballot;
  created_at : Z;
}.
Definition set_ballot (b : Ballot) (p : SpendProposal) : SpendProposal :=
  mkSpend (proposal_id p) (proposer p) (recipient p) (amount p) (description p) b (created_at p).

Record Treasury := mkTreasury {
  proposals : gmap Hash SpendProposal;
  total_disbursed : Z;
  voting_period_ms : Z;
  timelock_ms : Z;
  proposal_counter : Z;
}.
Definition set_proposals (ps : gmap Hash SpendProposal) (t : Treasury) : Treasury :=
  mkTreasury ps (total_disbursed t) (voting_period_ms t) (timelock_ms t) (proposal_counter t).
Definition update (id : Hash) (p : SpendProposal) (t : Treasury) : Treasury :=
  set_proposals (<[id := p]> (proposals t)) t.

Definition new : Treasury := mkTreasury ∅ 0 DEFAULT_VOTING_PERIOD_MS DEFAULT_TIMELOCK_MS 0.
Definition with_config (voting timelock : Z) (t : Treasury) : Treasury :=
  mkTreasury (proposals t) (total_disbursed t) voting timelock (proposal_counter t).

Abbreviation TR := (ST Treasury TreasuryError).

Definition propose_spend `{Blake3} (proposer recipient : Address) (amount : Z) (description : bytes)
    (proposer_stake treasury_balance now : Z) : TR Hash :=
  if proposer_stake <? MIN_PROPOSAL_STAKE then fail (InsufficientStake MIN_PROPOSAL_STAKE proposer_stake)
  else if treasury_balance <? amount then fail InsufficientBalance
  else if (0 <? treasury_balance) && (u128_mul treasury_balance MAX_SPEND_PERCENT / 100 <? amount)
  then fail (SpendTooLarge MAX_SPEND_PERCENT)
  else
    let! t := gets id in
    let counter := u64_add (proposal_counter t) 1 in
    let id := proposal_hash proposer counter tag in
    let p := mkSpend id proposer recipient amount description
      (mkBallot ∅ Active (u64_add now (voting_period_ms t))) now in
    modify (fun t => mkTreasury (<[id := p]> (proposals t)) (total_disbursed t) (voting_period_ms t) (timelock_ms t) counter) ;;
    ret id.

Definition vote_error (e : VoteError) : TreasuryError :=
  match e with
  | NotActive => ProposalNotActive
  | PeriodExpired => VotingPeriodExpired
  | Voted v => AlreadyVoted v
  end.
Definition vote (proposal_id : Hash) (voter : Address) (approve : bool) (voter_stake now : Z) : TR unit :=
  let! ps := gets proposals in
  let! p := ok_or (ps !! proposal_id) (ProposalNotFound proposal_id) in
  match cast voter approve voter_stake now (ballot p) with
  | inl e => fail (vote_error e)
  | inr b => modify (update proposal_id (set_ballot b p))
  end.

Definition tally_one (total_stake now timelock : Z) (acc : gmap Hash SpendProposal * list Hash) (key : Hash) :
    gmap Hash SpendProposal * list Hash :=
  let '(ps, queued) := acc in
  match ps !! key with
  | None => acc
  | Some p =>
    let s := tally_status total_stake now timelock (ballot p) in
    (<[key := set_ballot (set_status s (ballot p)) p]> ps,
     if newly_queued (status (ballot p)) s then queued ++ [proposal_id p] else queued)
  end.
Definition tally (order : list Hash) (total_stake now : Z) : TR (list Hash) :=
  let! t := gets id in
  let '(ps, queued) := foldl (tally_one total_stake now (timelock_ms t)) (proposals t, []) order in
  modify (set_proposals ps) ;;
  ret queued.

Definition execute (proposal_id : Hash) (now : Z) : TR (Address * Z) :=
  let! t := gets id in
  let! p := ok_or (proposals t !! proposal_id) (ProposalNotFound proposal_id) in
  match maturity now (ballot p) with
  | MLocked _ => fail TimelockNotExpired
  | MNotQueued => fail NotQueued
  | MMature =>
    modify (fun t => mkTreasury (<[proposal_id := set_ballot (set_status Executed (ballot p)) p]> (proposals t))
      (u128_add (total_disbursed t) (amount p)) (voting_period_ms t) (timelock_ms t) (proposal_counter t)) ;;
    ret (recipient p, amount p)
  end.

End Treasury.

(** ** Protocol parameters (param_governance.rs) *)

Module Params.

Inductive ParameterKey :=
| BlockReward | MinValidatorStake | BlockGasLimit | MinGasPrice | FeeProducerPercent | FeeVotersPercent | FeeBurnPercent
| FeeTreasuryPercent | ProducerRewardPercent | VotersRewardPercent | InferenceMinersRewardPercent | InferenceFeeMinerPercent
| InferenceFeeValidatorsPercent | InferenceFeeBurnPercent | SlashDoubleSignPercent | SlashOfflinePercent | UnstakeDelaySecs
| MinDelegation | MaxTransactionsPerBlock.
#[export] Instance ParameterKey_eq_dec : EqDecision ParameterKey.
Proof. solve_decision. Defined.

Definition all_keys : list ParameterKey :=
  [BlockReward; MinValidatorStake; BlockGasLimit; MinGasPrice; FeeProducerPercent; FeeVotersPercent; FeeBurnPercent;
   FeeTreasuryPercent; ProducerRewardPercent; VotersRewardPercent; InferenceMinersRewardPercent; InferenceFeeMinerPercent;
   InferenceFeeValidatorsPercent; InferenceFeeBurnPercent; SlashDoubleSignPercent; SlashOfflinePercent; UnstakeDelaySecs;
   MinDelegation; MaxTransactionsPerBlock].
Definition key_index (k : ParameterKey) : nat := default O (fst <$> list_find (fun k' => k' = k) all_keys).
#[export] Instance ParameterKey_countable : Countable ParameterKey.
Proof.
  refine (inj_countable key_index (fun i => all_keys !! i) _). intros k. by destruct k.
Defined.

Definition DEFAULT_VOTING_PERIOD_MS : Z := 3 * 86400000.
Definition DEFAULT_TIMELOCK_MS : Z := 48 * 3600000.
Definition MAX_CHANGE_PERCENT : Z := 50.
(** [b"param"] *)
Definition tag : bytes := [112; 97; 114; 97; 109].

Inductive ParamGovernanceError :=
| ProposalNotFound (id : Hash)
| ProposalNotActive
| VotingPeriodExpired
| AlreadyVoted (voter : Address)
| InsufficientStake (need have : Z)
| ChangeTooLarge (percent max : Z)
| TimelockNotExpired (execute_after : Z)
| NotQueued
| InvalidFeeSum
| Paused.

Record ParameterProposal := mkParam {
  proposal_id : Hash;
  proposer : Address;
  parameter : ParameterKey;
  current_value : Z;
  proposed_value : Z;
  description : bytes;
  ballot : Ballot;
  created_at : Z;
}.
Definition set_ballot (b : Ballot) (p : ParameterProposal) : ParameterProposal :=
  mkParam (proposal_id p) (proposer p) (parameter p) (current_value p) (proposed_value p) (description p) b (created_at p).

Record ParameterGovernance := mkGovernance {
  proposals : gmap Hash ParameterProposal;
  overrides : gmap ParameterKey Z;
  voting_period_ms : Z;
  timelock_ms : Z;
  proposal_counter : Z;
  paused : bool;
}.
Definition set_proposals (ps : gmap Hash ParameterProposal) (g : ParameterGovernance) : ParameterGovernance :=
  mkGovernance ps (overrides g) (voting_period_ms g) (timelock_ms g) (proposal_counter g) (paused g).
Definition update (id : Hash) (p : ParameterProposal) (g : ParameterGovernance) : ParameterGovernance :=
  set_proposals (<[id := p]> (proposals g)) g.

Definition new : ParameterGovernance := mkGovernance ∅ ∅ DEFAULT_VOTING_PERIOD_MS DEFAULT_TIMELOCK_MS 0 false.
Definition with_config (voting timelock : Z) (g : ParameterGovernance) : ParameterGovernance :=
  mkGovernance (proposals g) (overrides g) voting timelock (proposal_counter g) (paused g).

Abbreviation PG := (ST ParameterGovernance ParamGovernanceError).

(** The change in percent of the current value, which must be positive. *)
Definition change_percent (current proposed : Z) : Z :=
  let change := if current <? proposed then proposed - current else current - proposed in
  u128_mul change 100 / current.

Definition propose `{Blake3} (proposer : Address) (parameter : ParameterKey) (current proposed : Z) (description : bytes)
    (proposer_stake now : Z) : PG Hash :=
  let! g := gets id in
  if paused g then fail Paused
  else if proposer_stake <? MIN_PROPOSAL_STAKE then fail (InsufficientStake MIN_PROPOSAL_STAKE proposer_stake)
  else if (0 <? current) && (MAX_CHANGE_PERCENT <? change_percent current proposed)
  then fail (ChangeTooLarge (wrap 64 (change_percent current proposed)) MAX_CHANGE_PERCENT)
  else
    let counter := u64_add (proposal_counter g) 1 in
    let id := proposal_hash proposer counter tag in
    let p := mkParam id proposer parameter current proposed description
      (mkBallot ∅ Active (u64_add now (voting_period_ms g))) now in
    modify (fun g => mkGovernance (<[id := p]> (proposals g)) (overrides g) (voting_period_ms g) (timelock_ms g) counter
      (paused g)) ;;
    ret id.

Definition vote_error (e : VoteError) : ParamGovernanceError :=
  match e with
  | NotActive => ProposalNotActive
  | PeriodExpired => VotingPeriodExpired
  | Voted v => AlreadyVoted v
  end.
Definition vote (proposal_id : Hash) (voter : Address) (approve : bool) (voter_stake now : Z) : PG unit :=
  let! g := gets id in
  if paused g then fail Paused
  else
    let! p := ok_or (proposals g !! proposal_id) (ProposalNotFound proposal_id) in
    match cast voter approve voter_stake now (ballot p) with
    | inl e => fail (vote_error e)
    | inr b => modify (update proposal_id (set_ballot b p))
    end.

Definition tally_one (total_stake now timelock : Z) (acc : gmap Hash ParameterProposal * list Hash) (key : Hash) :
    gmap Hash ParameterProposal * list Hash :=
  let '(ps, queued) := acc in
  match ps !! key with
  | None => acc
  | Some p =>
    let s := tally_status total_stake now timelock (ballot p) in
    (<[key := set_ballot (set_status s (ballot p)) p]> ps,
     if newly_queued (status (ballot p)) s then queued ++ [proposal_id p] else queued)
  end.
Definition tally (order : list Hash) (total_stake now : Z) : PG (list Hash) :=
  let! g := gets id in
  let '(ps, queued) := foldl (tally_one total_stake now (timelock_ms g)) (proposals g, []) order in
  modify (set_proposals ps) ;;
  ret queued.

Definition execute (proposal_id : Hash) (now : Z) : PG (ParameterKey * Z) :=
  let! g := gets id in
  let! p := ok_or (proposals g !! proposal_id) (ProposalNotFound proposal_id) in
  match maturity now (ballot p) with
  | MLocked execute_after => fail (TimelockNotExpired execute_after)
  | MNotQueued => fail NotQueued
  | MMature =>
    modify (fun g => mkGovernance (<[proposal_id := set_ballot (set_status Executed (ballot p)) p]> (proposals g))
      (<[parameter p := proposed_value p]> (overrides g)) (voting_period_ms g) (timelock_ms g) (proposal_counter g)
      (paused g)) ;;
    ret (parameter p, proposed_value p)
  end.

Definition is_mature (now : Z) (p : ParameterProposal) : bool :=
  match maturity now (ballot p) with MMature => true | _ => false end.
Fixpoint execute_each (ids : list Hash) (now : Z) : PG (list (ParameterKey * Z)) :=
  match ids with
  | [] => ret []
  | id :: ids =>
    let! r := attempt (execute id now) in
    let! rest := execute_each ids now in
    ret (match r with inl kv => kv :: rest | inr _ => rest end)
  end.
Definition execute_mature (order : list Hash) (now : Z) : PG (list (ParameterKey * Z)) :=
  let! ps := gets proposals in
  let mature := omap (fun key => p ← ps !! key; if is_mature now p then Some (proposal_id p) else None) order in
  execute_each mature now.

Definition cancel (proposal_id : Hash) (caller : Address) : PG unit :=
  let! ps := gets proposals in
  let! p := ok_or (ps !! proposal_id) (ProposalNotFound proposal_id) in
  if negb (bool_decide (proposer p = caller)) then fail ProposalNotActive
  else if negb (bool_decide (status (ballot p) = Active)) then fail ProposalNotActive
  else modify (update proposal_id (set_ballot (set_status Cancelled (ballot p)) p)).

Definition set_paused (b : bool) (g : ParameterGovernance) : ParameterGovernance :=
  mkGovernance (proposals g) (overrides g) (voting_period_ms g) (timelock_ms g) (proposal_counter g) b.
Definition pause : PG unit := modify (set_paused true).
Definition unpause : PG unit := modify (set_paused false).
Definition get_override (k : ParameterKey) (g : ParameterGovernance) : option Z := overrides g !! k.

End Params.

(** ** Models (governance.rs)

    A vote counts one, whatever the stake. What is known of a model is passed on
    as it is. *)

Module Models.

Definition DEFAULT_VOTING_PERIOD_MS : Z := 86400000.

Inductive ProposalStatus := MActive | MPassed | MRejected | MExpired.
#[export] Instance ProposalStatus_eq_dec : EqDecision ProposalStatus.
Proof. solve_decision. Defined.

Inductive GovernanceError :=
| ProposalNotFound (id : Hash)
| ProposalNotActive
| VotingPeriodExpired
| AlreadyVoted (voter : Address).

Section models.
Context {ModelInfo : Type}.

Record ModelProposal := mkModel {
  proposal_id : Hash;
  proposer : Address;
  model_info : ModelInfo;
  votes_for : gmap Address Z;
  votes_against : gmap Address Z;
  model_status : ProposalStatus;
  created_at : Z;
  model_deadline : Z;
}.
Definition set_votes (f a : gmap Address Z) (p : ModelProposal) : ModelProposal :=
  mkModel (proposal_id p) (proposer p) (model_info p) f a (model_status p) (created_at p) (model_deadline p).
Definition set_model_status (s : ProposalStatus) (p : ModelProposal) : ModelProposal :=
  mkModel (proposal_id p) (proposer p) (model_info p) (votes_for p) (votes_against p) s (created_at p) (model_deadline p).

Record ModelGovernance := mkModelGovernance {
  proposals : gmap Hash ModelProposal;
  voting_period_ms : Z;
  proposal_counter : Z;
}.
Definition new : ModelGovernance := mkModelGovernance ∅ DEFAULT_VOTING_PERIOD_MS 0.
Definition with_voting_period (period : Z) (g : ModelGovernance) : ModelGovernance :=
  mkModelGovernance (proposals g) period (proposal_counter g).
Definition set_proposals (ps : gmap Hash ModelProposal) (g : ModelGovernance) : ModelGovernance :=
  mkModelGovernance ps (voting_period_ms g) (proposal_counter g).

Abbreviation MG := (ST ModelGovernance GovernanceError).

Definition propose_model `{Blake3} (proposer : Address) (info : ModelInfo) (now : Z) (g : ModelGovernance) :
    Hash * ModelGovernance :=
  let counter := u64_add (proposal_counter g) 1 in
  let id := proposal_hash proposer counter [] in
  let p := mkModel id proposer info ∅ ∅ MActive now (u64_add now (voting_period_ms g)) in
  (id, mkModelGovernance (<[id := p]> (proposals g)) (voting_period_ms g) counter).

Definition vote (proposal_id : Hash) (voter : Address) (approve : bool) (now : Z) : MG unit :=
  let! ps := gets proposals in
  let! p := ok_or (ps !! proposal_id) (ProposalNotFound proposal_id) in
  if negb (bool_decide (model_status p = MActive)) then fail ProposalNotActive
  else if model_deadline p <? now then fail VotingPeriodExpired
  else if bool_decide (is_Some (votes_for p !! voter)) || bool_decide (is_Some (votes_against p !! voter))
  then fail (AlreadyVoted voter)
  else
    let p' :=
      if approve then set_votes (<[voter := 1]> (votes_for p)) (votes_against p) p
      else set_votes (votes_for p) (<[voter := 1]> (votes_against p)) p in
    modify (set_proposals (<[proposal_id := p']> ps)).

Definition two_thirds (votes count : Z) : bool :=
  u64_mul count SUPERMAJORITY_NUMERATOR <? u64_mul votes SUPERMAJORITY_DENOMINATOR.

(** One round of the loop: the proposal afterwards, and whether its model is
    approved. Approval before the deadline goes on to the test for rejection. *)
Definition tally_model (count now : Z) (p : ModelProposal) : ModelProposal * bool :=
  if negb (bool_decide (model_status p = MActive)) then (p, false)
  else
    let for_ := Z.of_nat (size (votes_for p)) in
    let passed := two_thirds for_ count in
    if model_deadline p <? now then (set_model_status (if passed then MPassed else MExpired) p, passed)
    else
      let p := if passed then set_model_status MPassed p else p in
      let total_voted := u64_add for_ (Z.of_nat (size (votes_against p))) in
      let remaining := sat_sub count total_voted in
      (if two_thirds (u64_add for_ remaining) count then p else set_model_status MRejected p, passed).
Definition tally_one (count now : Z) (acc : gmap Hash ModelProposal * list ModelInfo) (key : Hash) :
    gmap Hash ModelProposal * list ModelInfo :=
  let '(ps, approved) := acc in
  match ps !! key with
  | None => acc
  | Some p =>
    let '(p', yes) := tally_model count now p in
    (<[key := p']> ps, if (yes : bool) then approved ++ [model_info p] else approved)
  end.
Definition tally (order : list Hash) (count now : Z) (g : ModelGovernance) : list ModelInfo * ModelGovernance :=
  let '(ps, approved) := foldl (tally_one count now) (proposals g, []) order in
  (approved, set_proposals ps g).

End models.
End Models.
