(* ===== verification/GovernanceProps.v ===== *)
(** * Theorems about governance

    The fate of a proposal depends on the calls that concern it: its ballot is
    the result of the events since it was proposed, whatever else happens
    ([since]). What an executed ballot tells about its events is proved once and
    serves the treasury and the parameters. *)

From S2P Require Import Prelude Externals Governance.

(** ** Sums of stakes *)

(** The stake that approves, without a bound on its size. *)
Definition approved_stake (b : Ballot) : Z :=
  map_fold (fun _ '(approve, stake) acc => if (approve : bool) then acc + stake else acc) 0 (votes b).

Lemma stake_for_exact b : stake_for b = wrap 128 (approved_stake b).
Proof.
  unfold stake_for, approved_stake. rewrite !map_fold_foldr. induction (map_to_list (votes b)) as [|[v [[] s]] l IH]; [done| |done].
  simpl. unfold uncurry in *. simpl. rewrite IH. unfold u128_add, wrap. by rewrite Zplus_mod_idemp_l.
Qed.

Lemma supermajority_exact s total :
  0 <= s < 2 ^ 126 -> 0 <= total < 2 ^ 126 -> supermajority s total = true <-> 2 * total < 3 * s.
Proof.
  intros Hs Ht. unfold supermajority, u128_mul, wrap, SUPERMAJORITY_NUMERATOR, SUPERMAJORITY_DENOMINATOR.
  rewrite !Z.mod_small by lia. rewrite Z.ltb_lt. lia.
Qed.

(** ** The events of a ballot *)

Inductive BallotEvent :=
| BCast (voter : Address) (approve : bool) (stake now : Z)
| BTally (total_stake now : Z)
| BExecute (now : Z)
| BCancel.

Definition ballot_step (timelock : Z) (b : Ballot) (e : BallotEvent) : Ballot :=
  match e with
  | BCast voter approve stake now => match cast voter approve stake now b with inl _ => b | inr b => b end
  | BTally total now => set_status (tally_status total now timelock b) b
  | BExecute now => match maturity now b with MMature => set_status Executed b | _ => b end
  | BCancel => if bool_decide (status b = Active) then set_status Cancelled b else b
  end.
Definition ballot_run (timelock deadline : Z) (es : list BallotEvent) : Ballot :=
  foldl (ballot_step timelock) (mkBallot ∅ Active deadline) es.

Lemma set_status_id b : set_status (status b) b = b.
Proof. by destruct b. Qed.

(** What the status of a ballot tells about its events. *)
Definition votes_in (deadline : Z) (es : list BallotEvent) (b : Ballot) : Prop :=
  map_Forall (fun v '(ap, st) => exists now, BCast v ap st now ∈ es /\ now <= deadline) (votes b).
Definition passed_in (timelock deadline : Z) (b : Ballot) (ea : Z) (es : list BallotEvent) : Prop :=
  exists e1 total t0 e2, es = e1 ++ BTally total t0 :: e2 /\ ea = u64_add t0 timelock /\
    supermajority (stake_for b) total = true /\ votes_in deadline e1 b.
Definition executed_in (timelock deadline : Z) (b : Ballot) (es : list BallotEvent) : Prop :=
  exists e1 total t0 e2 t1, es = e1 ++ BTally total t0 :: e2 /\ BExecute t1 ∈ e2 /\ u64_add t0 timelock <= t1 /\
    supermajority (stake_for b) total = true /\ votes_in deadline e1 b.
Record explained (timelock deadline : Z) (es : list BallotEvent) (b : Ballot) : Prop := {
  ex_deadline : voting_deadline b = deadline;
  ex_votes : votes_in deadline es b;
  ex_queued : forall ea, status b = Queued ea -> passed_in timelock deadline b ea es;
  ex_executed : status b = Executed -> executed_in timelock deadline b es;
}.

Lemma passed_in_snoc tl dl b ea es e : passed_in tl dl b ea es -> passed_in tl dl b ea (es ++ [e]).
Proof. intros (e1 & total & t0 & e2 & -> & H). exists e1, total, t0, (e2 ++ [e]). split; [|done]. by rewrite <-app_assoc. Qed.
Lemma executed_in_snoc tl dl b es e : executed_in tl dl b es -> executed_in tl dl b (es ++ [e]).
Proof.
  intros (e1 & total & t0 & e2 & t1 & -> & Hin & H). exists e1, total, t0, (e2 ++ [e]), t1. split_and!; try apply H.
  - by rewrite <-app_assoc.
  - apply elem_of_app. by left.
Qed.
Lemma explained_snoc tl dl es b e : explained tl dl es b -> explained tl dl (es ++ [e]) b.
Proof.
  intros [Hd Hv Hq He]. split; [done| | |].
  - eapply map_Forall_impl; [exact Hv|]. intros v [ap st] (now & Hin & Hle). exists now. split; [|done]. apply elem_of_app. by left.
  - intros ea E. by apply passed_in_snoc, Hq.
  - intros E. by apply executed_in_snoc, He.
Qed.

Lemma tally_status_queued total now tl b ea :
  tally_status total now tl b = Queued ea ->
  status b = Queued ea \/ (ea = u64_add now tl /\ supermajority (stake_for b) total = true).
Proof.
  unfold tally_status. case_bool_decide; simpl; [|by left].
  destruct (voting_deadline b <? now), (supermajority (stake_for b) total); try (intros [= <-]; by right); try done.
  by destruct (supermajority (u128_add _ _) _).
Qed.
Lemma tally_status_executed total now tl b : tally_status total now tl b = Executed -> status b = Executed.
Proof.
  unfold tally_status. case_bool_decide; simpl; [|done].
  destruct (voting_deadline b <? now), (supermajority (stake_for b) total); try done. by destruct (supermajority (u128_add _ _) _).
Qed.

Lemma explained_step tl dl es b e : explained tl dl es b -> explained tl dl (es ++ [e]) (ballot_step tl b e).
Proof.
  intros Hx. pose proof (explained_snoc _ _ _ _ e Hx) as Hx'. destruct e as [v ap st now|total now|now|]; simpl.
  - unfold cast. case_bool_decide as Ha; simpl; [|done]. destruct (Z.ltb_spec (voting_deadline b) now) as [|Hle]; [done|].
    case_bool_decide; [done|]. destruct Hx' as [Hd Hv _ _]. split; simpl; [done| |by rewrite Ha..].
    apply map_Forall_insert_2; [|done]. exists now. split; [apply elem_of_app; right; by left|lia].
  - destruct Hx' as [Hd Hv Hq He]. split; simpl; [done|done| |].
    + intros ea E. destruct (tally_status_queued _ _ _ _ _ E) as [E'|[-> Hs]]; [by apply Hq|].
      exists es, total, now, []. split_and!; try done. exact (ex_votes _ _ _ _ Hx).
    + intros E. apply He. by eapply tally_status_executed.
  - unfold maturity. destruct (status b) as [|ea| | | |] eqn:Es; try done. destruct (Z.ltb_spec now ea) as [|Hle]; [done|].
    destruct Hx' as [Hd Hv _ _]. split; simpl; [done|done|done|]. intros _.
    destruct (ex_queued _ _ _ _ Hx _ Es) as (e1 & total & t0 & e2 & -> & -> & Hs & Hv').
    exists e1, total, t0, (e2 ++ [BExecute now]), now. split_and!; [by rewrite <-app_assoc|apply elem_of_app; right; by left|done..].
  - case_bool_decide; [|done]. destruct Hx' as [Hd Hv _ _]. by split.
Qed.
Lemma ballot_run_explained tl dl es : explained tl dl es (ballot_run tl dl es).
Proof.
  induction es as [|e es IH] using rev_ind.
  - split; simpl; [done|apply map_Forall_empty|done|done].
  - unfold ballot_run in *. rewrite foldl_app. by apply explained_step.
Qed.

(** A tally or an execution repeated at once changes nothing more. *)
Lemma tally_idem total now tl b : ballot_step tl (ballot_step tl b (BTally total now)) (BTally total now) = ballot_step tl b (BTally total now).
Proof.
  simpl. set (s := tally_status total now tl b). unfold set_status. simpl. f_equal.
  destruct (decide (s = Active)) as [E|E].
  - assert (Ha : status b = Active).
    { unfold s, tally_status in E. by case_bool_decide; simpl in E. }
    assert (Hb : set_status s b = b) by (rewrite E, <-Ha; apply set_status_id). unfold set_status in Hb. by rewrite Hb.
  - unfold tally_status. simpl. by rewrite bool_decide_eq_false_2.
Qed.
Lemma execute_idem now tl b : ballot_step tl (ballot_step tl b (BExecute now)) (BExecute now) = ballot_step tl b (BExecute now).
Proof. simpl. destruct (maturity now b) eqn:E; rewrite ?E; done. Qed.

(** Only an execution that finds the ballot mature makes it executed. *)
Lemma step_executed tl b e :
  (forall now, e <> BExecute now) -> status (ballot_step tl b e) = Executed <-> status b = Executed.
Proof.
  intros He. destruct e as [v ap st now|total now|now|]; simpl.
  - unfold cast. case_bool_decide as Ha; simpl; [|done]. destruct (voting_deadline b <? now); [done|]. by case_bool_decide.
  - split; [apply tally_status_executed|]. intros E. unfold tally_status. by rewrite E.
  - by destruct (He now).
  - case_bool_decide as Ha; [|done]. by rewrite Ha.
Qed.

(** ** Proposals and the calls since *)

(** The ballot [b] is what the events of the calls after the one that made it
    lead to. *)
Definition since {C} (timelock deadline : Z) (made : C -> Prop) (event : C -> option BallotEvent) (cs : list C) (b : Ballot) : Prop :=
  exists c1 c c2, cs = c1 ++ c :: c2 /\ made c /\ b = ballot_run timelock deadline (omap event c2).
Definition opt_step (timelock : Z) (b : Ballot) (e : option BallotEvent) : Ballot :=
  match e with Some e => ballot_step timelock b e | None => b end.

Lemma since_snoc {C} tl dl made event (cs : list C) b c :
  since tl dl made event cs b -> since tl dl made event (cs ++ [c]) (opt_step tl b (event c)).
Proof.
  intros (c1 & c0 & c2 & -> & Hm & ->). exists c1, c0, (c2 ++ [c]). split_and!; [by rewrite <-app_assoc|done|].
  rewrite omap_app. simpl. destruct (event c); simpl; [|by rewrite app_nil_r]. unfold ballot_run. by rewrite foldl_app.
Qed.
Lemma since_new {C} tl dl made event (cs : list C) (c : C) :
  made c -> since tl dl made event (cs ++ [c]) (mkBallot ∅ Active dl).
Proof. intros Hm. exists cs, c, []. by split_and!. Qed.

Lemma omap_split {C E} (f : C -> option E) cs e1 x e2 :
  omap f cs = e1 ++ x :: e2 -> exists c1 c c2, cs = c1 ++ c :: c2 /\ f c = Some x /\ omap f c1 = e1 /\ omap f c2 = e2.
Proof.
  revert e1. induction cs as [|c cs IH]; intros e1 H; [by destruct e1|]. cbn [omap list_omap] in H. destruct (f c) as [y|] eqn:Ef.
  - destruct e1 as [|z e1]; injection H as -> H.
    + exists [], c, cs. by split_and!.
    + destruct (IH _ H) as (c1 & c' & c2 & -> & ? & <- & ?). exists (c :: c1), c', c2. split_and!; try done. simpl. by rewrite Ef.
  - destruct (IH _ H) as (c1 & c' & c2 & -> & ? & <- & ?). exists (c :: c1), c', c2. split_and!; try done. simpl. by rewrite Ef.
Qed.

(** The calls behind an executed proposal, in their order: it was made, then
    tallied with a supermajority of votes cast in between, then executed, no
    earlier than the timelock allows. *)
Lemma since_executed {C} tl dl made event (cs : list C) b :
  since tl dl made event cs b -> status b = Executed -> 0 <= approved_stake b < 2 ^ 126 ->
  exists c0 cm c1 ct c2 ce total t0 t1,
    cs = c0 ++ cm :: c1 ++ ct :: c2 /\ made cm /\ event ct = Some (BTally total t0) /\
    ce ∈ c2 /\ event ce = Some (BExecute t1) /\ u64_add t0 tl <= t1 /\
    (0 <= total < 2 ^ 126 -> 2 * total < 3 * approved_stake b) /\
    map_Forall (fun v '(ap, st) => exists c now, c ∈ c1 /\ event c = Some (BCast v ap st now) /\ now <= dl) (votes b).
Proof.
  intros (c0 & cm & cs' & -> & Hm & Hb) Hx Ha. pose proof (ballot_run_explained tl dl (omap event cs')) as Hex. rewrite <-Hb in Hex.
  destruct (ex_executed _ _ _ _ Hex Hx) as (e1 & total & t0 & e2 & t1 & E & Hin & Hle & Hs & Hv).
  destruct (omap_split _ _ _ _ _ E) as (c1 & ct & c2 & -> & Ht & <- & <-). apply list_elem_of_omap in Hin as (ce & Hin & He).
  exists c0, cm, c1, ct, c2, ce, total, t0, t1. split_and!; try done.
  - intros Htot. apply supermajority_exact; [lia|done|]. rewrite stake_for_exact in Hs. unfold wrap in Hs.
    by rewrite Z.mod_small in Hs by lia.
  - eapply map_Forall_impl; [exact Hv|]. intros v [ap st] (now & Hi & Hn). apply list_elem_of_omap in Hi as (c & Hc & Ec).
    exists c, now. by split_and!.
Qed.

Section identifiers.
Context `{B : Blake3}.

(** The identifier was handed out with one of the first [counter] numbers. *)
Definition born (tag : bytes) (counter : Z) (id : Hash) : Prop :=
  exists a k, length a = 20%nat /\ 1 <= k <= counter /\ id = proposal_hash a k tag.

Lemma born_mono tag n m id : n <= m -> born tag n id -> born tag m id.
Proof. intros ? (a & k & ? & ? & ?). exists a, k. split_and!; (done || lia). Qed.
Lemma born_next tag n a : 0 <= n < 2 ^ 64 - 1 -> length a = 20%nat -> born tag (n + 1) (proposal_hash a (u64_add n 1) tag).
Proof. intros ? ?. exists a, (n + 1). unfold u64_add, wrap. rewrite Z.mod_small by lia. split_and!; (done || lia). Qed.
Lemma born_fresh `{!CollisionFree B} tag n a :
  0 <= n < 2 ^ 64 - 1 -> length a = 20%nat -> ~ born tag n (proposal_hash a (u64_add n 1) tag).
Proof.
  intros Hn Ha (a' & k & Ha' & Hk & E). unfold proposal_hash in E. apply blake3_inj in E. apply app_inj_1 in E as [_ E]; [|congruence].
  apply app_inj_1 in E as [E _]; [|by rewrite !length_to_le]. apply (f_equal from_le) in E. rewrite !from_to_le in E.
  unfold u64_add, wrap in E. rewrite (Z.mod_small (n + 1)) in E by lia. change (256 ^ Z.of_nat 8) with (2 ^ 64) in E.
  rewrite !Z.mod_small in E by lia. lia.
Qed.
End identifiers.

(** ** The treasury *)

Module TreasuryRuns.
Import Treasury.

Inductive TreasuryCall :=
| TPropose (proposer recipient : Address) (amount : Z) (description : bytes) (stake balance now : Z)
| TVote (id : Hash) (voter : Address) (approve : bool) (stake now : Z)
| TTally (order : list Hash) (total_stake now : Z)
| TExecute (id : Hash) (now : Z).

(** Payments: what [execute] returned, with the proposal. *)
Abbreviation Payments := (list (Hash * (Address * Z))).
Definition paid (id : Hash) (pays : Payments) : list (Address * Z) := map snd (filter (fun x => fst x = id) pays).
Definition total_paid (pays : Payments) : Z := foldl (fun acc x => acc + snd (snd x)) 0 pays.

Section runs.
Context `{B : Blake3}.

Definition treasury_step (s : Treasury * Payments) (c : TreasuryCall) : Treasury * Payments :=
  let '(t, pays) := s in
  match c with
  | TPropose p r a d st b n => (snd (propose_spend p r a d st b n t), pays)
  | TVote id v ap st n => (snd (vote id v ap st n t), pays)
  | TTally order total n => (snd (tally order total n t), pays)
  | TExecute id n =>
    match execute id n t with
    | (Ok pay, t') => (t', pays ++ [(id, pay)])
    | (_, t') => (t', pays)
    end
  end.
Definition treasury_run (t : Treasury) (cs : list TreasuryCall) : Treasury * Payments := foldl treasury_step (t, []) cs.

Definition event (id : Hash) (c : TreasuryCall) : option BallotEvent :=
  match c with
  | TPropose _ _ _ _ _ _ _ => None
  | TVote id' v ap st n => if decide (id' = id) then Some (BCast v ap st n) else None
  | TTally order total n => if decide (id ∈ order) then Some (BTally total n) else None
  | TExecute id' n => if decide (id' = id) then Some (BExecute n) else None
  end.

(** The call that made [p], and what it was checked for. *)
Definition proposes (p : SpendProposal) (c : TreasuryCall) : Prop :=
  exists stake balance, c = TPropose (proposer p) (recipient p) (amount p) (description p) stake balance (created_at p) /\
    MIN_PROPOSAL_STAKE <= stake /\ amount p <= balance /\ (0 < balance -> amount p <= u128_mul balance MAX_SPEND_PERCENT / 100).

Definition proper_call (c : TreasuryCall) : Prop :=
  match c with TPropose p _ _ _ _ _ _ => length p = 20%nat | _ => True end.

Definition proposal_ok (vp tl counter : Z) (cs : list TreasuryCall) (pays : Payments) (id : Hash) (p : SpendProposal) : Prop :=
  proposal_id p = id /\ born tag counter id /\
  since tl (u64_add (created_at p) vp) (proposes p) (event id) cs (ballot p) /\
  paid id pays = if decide (status (ballot p) = Executed) then [(recipient p, amount p)] else [].

Record treasury_inv (vp tl : Z) (cs : list TreasuryCall) (s : Treasury * Payments) : Prop := {
  ti_counter : 0 <= proposal_counter (fst s) <= Z.of_nat (length cs);
  ti_config : voting_period_ms (fst s) = vp /\ timelock_ms (fst s) = tl;
  ti_known : map_Forall (proposal_ok vp tl (proposal_counter (fst s)) cs (snd s)) (proposals (fst s));
  ti_unknown : forall id, proposals (fst s) !! id = None -> paid id (snd s) = [];
  ti_total : total_disbursed (fst s) = wrap 128 (total_paid (snd s));
}.

Lemma paid_snoc id id' pay pays : paid id (pays ++ [(id', pay)]) = paid id pays ++ if decide (id' = id) then [pay] else [].
Proof. unfold paid. rewrite filter_app, map_app. f_equal. rewrite filter_cons. simpl. by destruct (decide (id' = id)). Qed.

Lemma set_ballot_id p : set_ballot (ballot p) p = p.
Proof. by destruct p. Qed.

(** [tally] updates the ballot of each proposal listed. *)
Lemma tally_lookup total now tl order ps queued id :
  fst (foldl (tally_one total now tl) (ps, queued) order) !! id =
    (fun p => if decide (id ∈ order) then set_ballot (ballot_step tl (ballot p) (BTally total now)) p else p) <$> ps !! id.
Proof.
  revert ps queued. induction order as [|key order IH]; intros ps queued; [simpl; by destruct (ps !! id)|].
  cbn [foldl]. unfold tally_one at 2. destruct (ps !! key) as [pk|] eqn:Ek; rewrite IH; clear IH.
  - destruct (decide (key = id)) as [->|Hne].
    + rewrite lookup_insert_eq, Ek. simpl. rewrite (decide_True (P := id ∈ id :: order)) by left. f_equal.
      destruct (decide (id ∈ order)); [|done]. pose proof (tally_idem total now tl (ballot pk)) as Hi. simpl in Hi.
      unfold set_ballot. simpl. by rewrite Hi.
    + rewrite lookup_insert_ne by done. destruct (ps !! id); [|done]. simpl. f_equal.
      destruct (decide (id ∈ order)), (decide (id ∈ key :: order)) as [H|H]; try done; exfalso; set_solver.
  - destruct (ps !! id) eqn:Ei; [|done]. simpl. f_equal. assert (key <> id) by congruence.
    destruct (decide (id ∈ order)), (decide (id ∈ key :: order)) as [H'|H']; try done; exfalso; set_solver.
Qed.

Lemma proposal_ok_step vp tl n n' cs pays pays' id p c b' :
  proposal_ok vp tl n cs pays id p -> n <= n' -> b' = opt_step tl (ballot p) (event id c) ->
  (paid id pays' = if decide (status b' = Executed) then [(recipient p, amount p)] else []) ->
  proposal_ok vp tl n' (cs ++ [c]) pays' id (set_ballot b' p).
Proof.
  intros (Hid & Hb & Hs & _) Hn -> Hp. split_and!; [done|by eapply born_mono| |done].
  apply (since_snoc _ _ _ _ _ _ c) in Hs. exact Hs.
Qed.

(** A call that pays nothing and is no execution of [id]. *)
Lemma proposal_ok_quiet vp tl n n' cs pays id p c b' :
  proposal_ok vp tl n cs pays id p -> n <= n' -> b' = opt_step tl (ballot p) (event id c) ->
  (forall now, event id c <> Some (BExecute now)) ->
  proposal_ok vp tl n' (cs ++ [c]) pays id (set_ballot b' p).
Proof.
  intros Hok Hn -> Hne. eapply proposal_ok_step; [done..|]. destruct Hok as (_ & _ & _ & ->).
  apply decide_ext. destruct (event id c) as [e|]; simpl; [|done]. symmetry. apply step_executed. intros now ->. by apply (Hne now).
Qed.
Lemma proposal_ok_other vp tl n n' cs pays id p c :
  proposal_ok vp tl n cs pays id p -> n <= n' -> event id c = None -> proposal_ok vp tl n' (cs ++ [c]) pays id p.
Proof.
  intros Hok Hn He. rewrite <-(set_ballot_id p). eapply proposal_ok_quiet; rewrite ?He; done.
Qed.

Lemma propose_inv `{!CollisionFree B} vp tl cs t pays p r a d st b n :
  Z.of_nat (length cs) < 2 ^ 64 - 1 -> length p = 20%nat -> treasury_inv vp tl cs (t, pays) ->
  treasury_inv vp tl (cs ++ [TPropose p r a d st b n]) (treasury_step (t, pays) (TPropose p r a d st b n)).
Proof.
  intros Hlen Hp [Hc [Hvp Htl] Hk Hu Ht]. simpl in *. set (c := TPropose _ _ _ _ _ _ _).
  assert (Hsame : treasury_inv vp tl (cs ++ [c]) (t, pays)).
  { split; simpl; [rewrite length_app; simpl; lia|done| |done|done]. eapply map_Forall_impl; [exact Hk|]. intros id q Hq.
    by eapply proposal_ok_other. }
  unfold propose_spend. destruct (Z.ltb_spec st MIN_PROPOSAL_STAKE) as [|Hst]; [exact Hsame|].
  destruct (Z.ltb_spec b a) as [|Hb]; [exact Hsame|]. destruct ((0 <? b) && _) eqn:Em; [exact Hsame|]. clear Hsame.
  simpl. unfold id. set (i := proposal_hash p _ tag).
  assert (Hnew : proposals t !! i = None).
  { destruct (proposals t !! i) as [q|] eqn:E; [|done]. destruct (Hk _ _ E) as (_ & Hb' & _). by apply born_fresh in Hb'; [|lia|]. }
  assert (Hn1 : u64_add (proposal_counter t) 1 = proposal_counter t + 1) by (unfold u64_add, wrap; apply Z.mod_small; lia).
  split; simpl; [rewrite Hn1, length_app; simpl; lia|done| | |done].
  - rewrite Hn1. apply map_Forall_insert_2.
    + split_and!; simpl; [done|apply born_next; [lia|done]| |by apply Hu]. rewrite Hvp. apply since_new. exists st, b.
      split_and!; [done|done|done|]. intros Hpos. simpl. apply andb_false_iff in Em as [Em|Em]; [|by apply Z.ltb_ge].
      apply Z.ltb_ge in Em. lia.
    + eapply map_Forall_impl; [exact Hk|]. intros id q Hq. eapply proposal_ok_other; [done|lia|done].
  - intros id E. apply lookup_insert_None in E as [E _]. by apply Hu.
Qed.

(** Calls that replace ballots and touch nothing else. *)
Lemma ballots_inv vp tl cs t pays ps c :
  treasury_inv vp tl cs (t, pays) -> (forall id now, event id c <> Some (BExecute now)) ->
  (forall id, ps !! id = (fun p => set_ballot (opt_step tl (ballot p) (event id c)) p) <$> proposals t !! id) ->
  treasury_inv vp tl (cs ++ [c]) (set_proposals ps t, pays).
Proof.
  intros [Hc Hcfg Hk Hu Ht] Hne Hps. simpl in *. split; simpl; [rewrite length_app; simpl; lia|done| | |done].
  - intros id q E. rewrite Hps in E. destruct (proposals t !! id) as [p|] eqn:Ep; [|done]. injection E as <-.
    eapply proposal_ok_quiet; [by apply Hk|done|done|done].
  - intros id E. rewrite Hps in E. apply Hu. by destruct (proposals t !! id).
Qed.
Lemma set_proposals_id t : set_proposals (proposals t) t = t.
Proof. by destruct t. Qed.

Lemma vote_inv vp tl cs t pays id v ap st n :
  treasury_inv vp tl cs (t, pays) -> treasury_inv vp tl (cs ++ [TVote id v ap st n]) (treasury_step (t, pays) (TVote id v ap st n)).
Proof.
  intros Hi. set (c := TVote id v ap st n).
  assert (Hps : exists ps, snd (vote id v ap st n t) = set_proposals ps t /\
    forall i, ps !! i = (fun p => set_ballot (opt_step tl (ballot p) (event i c)) p) <$> proposals t !! i).
  { unfold vote, bind, gets, ok_or. destruct (proposals t !! id) as [p|] eqn:Ep; simpl.
    - destruct (cast v ap st n (ballot p)) as [e|b] eqn:Ec; simpl.
      + exists (proposals t). rewrite set_proposals_id. split; [done|]. intros i. destruct (decide (id = i)) as [->|]; simpl.
        * rewrite Ep. simpl. rewrite Ec. by rewrite set_ballot_id.
        * destruct (proposals t !! i); simpl; by rewrite ?set_ballot_id.
      + exists (<[id := set_ballot b p]> (proposals t)). split; [done|]. intros i. destruct (decide (id = i)) as [->|]; simpl.
        * rewrite lookup_insert_eq, Ep. simpl. by rewrite Ec.
        * rewrite lookup_insert_ne by done. destruct (proposals t !! i); simpl; by rewrite ?set_ballot_id.
    - exists (proposals t). rewrite set_proposals_id. split; [done|]. intros i. destruct (decide (id = i)) as [->|]; simpl;
        [by rewrite Ep|destruct (proposals t !! i); simpl; by rewrite ?set_ballot_id]. }
  destruct Hps as (ps & E & Hps). simpl. rewrite E. apply ballots_inv; [done| |done].
  intros i now. simpl. by destruct (decide (id = i)).
Qed.

Lemma tally_inv vp tl cs t pays order total n :
  treasury_inv vp tl cs (t, pays) ->
  treasury_inv vp tl (cs ++ [TTally order total n]) (treasury_step (t, pays) (TTally order total n)).
Proof.
  intros Hi. simpl. unfold tally, bind, gets, id, modify, ret. pose proof (tally_lookup total n (timelock_ms t) order (proposals t) []) as Hl.
  destruct (foldl _ _ _) as [ps queued]. simpl in *. pose proof (proj2 (ti_config _ _ _ _ Hi)) as Htl. simpl in Htl. rewrite Htl in Hl. apply ballots_inv; [done| |].
  - intros i now. simpl. by destruct (decide (i ∈ order)).
  - intros i. rewrite Hl. destruct (proposals t !! i); [|done]. simpl. f_equal.
    destruct (decide (i ∈ order)); [done|]. simpl. by rewrite set_ballot_id.
Qed.

Lemma total_paid_snoc pays x : total_paid (pays ++ [x]) = total_paid pays + snd (snd x).
Proof. unfold total_paid. by rewrite foldl_app. Qed.

(** An execution that changes nothing. *)
Lemma execute_fails_inv vp tl cs t pays id n :
  treasury_inv vp tl cs (t, pays) -> (forall p, proposals t !! id = Some p -> maturity n (ballot p) <> MMature) ->
  treasury_inv vp tl (cs ++ [TExecute id n]) (t, pays).
Proof.
  intros [Hc Hcfg Hk Hu Ht] Hm. simpl in *. split; simpl; [rewrite length_app; simpl; lia|done| |done|done].
  intros i p Ep. pose proof (Hk _ _ Ep) as Hok. destruct (decide (id = i)) as [->|Hne].
  - rewrite <-(set_ballot_id p). eapply proposal_ok_step; [done|done| |apply Hok]. simpl. rewrite decide_True by done. simpl.
    specialize (Hm _ Ep). by destruct (maturity n (ballot p)).
  - eapply proposal_ok_other; [done|done|]. simpl. by rewrite decide_False.
Qed.

Lemma execute_inv vp tl cs t pays id n :
  treasury_inv vp tl cs (t, pays) -> treasury_inv vp tl (cs ++ [TExecute id n]) (treasury_step (t, pays) (TExecute id n)).
Proof.
  intros Hi. simpl. unfold execute, bind, gets, ok_or. unfold Datatypes.id. destruct (proposals t !! id) as [p|] eqn:Ep; simpl.
  2: { apply execute_fails_inv; [done|]. by rewrite Ep. }
  destruct (maturity n (ballot p)) eqn:Em; simpl; [apply execute_fails_inv; [done|]; intros q; rewrite Ep; congruence..|].
  destruct Hi as [Hc Hcfg Hk Hu Ht]. simpl in *. split; simpl; [rewrite length_app; simpl; lia|done| | |].
  - intros i q. destruct (decide (id = i)) as [->|Hne].
    + rewrite lookup_insert_eq. intros [= <-]. pose proof (Hk _ _ Ep) as Hok. eapply proposal_ok_step; [done|done| |].
      * simpl. rewrite decide_True by done. simpl. by rewrite Em.
      * rewrite paid_snoc, decide_True by done. destruct Hok as (_ & _ & _ & ->). unfold maturity in Em.
        rewrite decide_False; [done|]. intros E. by rewrite E in Em.
    + rewrite lookup_insert_ne by done. intros Eq. destruct (Hk _ _ Eq) as (H1 & H2 & H3 & H4).
      assert (Hok : proposal_ok vp tl (proposal_counter t) cs (pays ++ [(id, (recipient p, amount p))]) i q).
      { split_and!; try done. by rewrite paid_snoc, decide_False, app_nil_r. }
      eapply proposal_ok_other; [done|done|]. simpl. by rewrite decide_False.
  - intros i E. apply lookup_insert_None in E as [E Hne]. rewrite paid_snoc, decide_False, app_nil_r by congruence. by apply Hu.
  - rewrite total_paid_snoc, Ht. unfold u128_add, wrap. by rewrite Zplus_mod_idemp_l.
Qed.

Lemma treasury_run_inv `{!CollisionFree B} vp tl cs :
  Forall proper_call cs -> Z.of_nat (length cs) < 2 ^ 64 ->
  treasury_inv vp tl cs (treasury_run (with_config vp tl new) cs).
Proof.
  induction cs as [|c cs IH] using rev_ind; intros Hp Hlen.
  - split; simpl; [lia|done|apply map_Forall_empty|done|done].
  - apply Forall_app in Hp as [Hp Hc]. apply Forall_cons in Hc as [Hc _]. rewrite length_app in Hlen. simpl in Hlen.
    specialize (IH Hp ltac:(lia)). unfold treasury_run in *. rewrite foldl_app. cbn [foldl].
    destruct (foldl treasury_step _ cs) as [t pays].
    destruct c; [apply propose_inv; [lia|exact Hc|done]|by apply vote_inv|by apply tally_inv|by apply execute_inv].
Qed.

(** C29 (safety): the treasury pays only what was decided, and once. Take any
    sequence of calls on a new treasury, whether they succeed or fail. If
    [execute] ever paid for a proposal, it paid exactly once, its amount to its
    recipient. And the calls contain, in this order: the proposal, by an account
    with the minimum stake and for at most a quarter of the balance it was
    checked against; votes of distinct accounts before the deadline; a tally in
    which the approving stake exceeded two thirds of the total; and the
    execution, not before the timelock. The counter of disbursed funds is the sum
    of the payments modulo 2^128. *)
Theorem treasury_spends_authorised `{!CollisionFree B} vp tl cs t pays id :
  Forall proper_call cs -> Z.of_nat (length cs) < 2 ^ 64 -> treasury_run (with_config vp tl new) cs = (t, pays) ->
  paid id pays <> [] ->
  total_disbursed t = wrap 128 (total_paid pays) /\
  exists p, proposals t !! id = Some p /\ status (ballot p) = Executed /\ paid id pays = [(recipient p, amount p)] /\
    (0 <= approved_stake (ballot p) < 2 ^ 126 ->
     exists c0 cm c1 order total t0 c2 t1,
       cs = c0 ++ cm :: c1 ++ TTally order total t0 :: c2 /\ proposes p cm /\ id ∈ order /\
       TExecute id t1 ∈ c2 /\ u64_add t0 tl <= t1 /\
       (0 <= total < 2 ^ 126 -> 2 * total < 3 * approved_stake (ballot p)) /\
       map_Forall (fun v '(ap, st) => exists now, TVote id v ap st now ∈ c1 /\ now <= u64_add (created_at p) vp) (votes (ballot p))).
Proof.
  intros Hp Hlen Hrun Hpaid. pose proof (treasury_run_inv vp tl cs Hp Hlen) as [_ _ Hk Hu Ht]. rewrite Hrun in *. simpl in *.
  split; [done|]. destruct (proposals t !! id) as [p|] eqn:Ep; [|by destruct Hpaid; apply Hu]. exists p.
  destruct (Hk _ _ Ep) as (_ & _ & Hs & Hpd). destruct (decide (status (ballot p) = Executed)) as [Hx|]; [|done].
  split_and!; try done. intros Ha.
  destruct (since_executed _ _ _ _ _ _ Hs Hx Ha) as (c0 & cm & c1 & ct & c2 & ce & total & t0 & t1 & E & Hm & Ht0 & Hin & He & Hle & Hs3 & Hv).
  destruct ct as [|i|order tot n|i]; simpl in Ht0; try case_decide; simplify_eq.
  destruct ce as [|i|o|i n]; simpl in He; try case_decide; simplify_eq.
  exists c0, cm, c1, order, total, t0, c2, t1. split_and!; try done.
  eapply map_Forall_impl; [exact Hv|]. intros v [ap st] (c & now & Hc & Ec & Hn). exists now. split; [|done].
  destruct c as [|i|o|i]; simpl in Ec; try case_decide; by simplify_eq.
Qed.
End runs.
End TreasuryRuns.

Definition ex_addr (n : Z) : Address := replicate 20 n.
Definition ex_spend_id : Hash := proposal_hash (H := tagged_blake3) (ex_addr 1) 1 Treasury.tag.
Definition ex_treasury_calls : list TreasuryRuns.TreasuryCall :=
  [TreasuryRuns.TPropose (ex_addr 1) (ex_addr 2) 25 [] (10 ^ 22) 100 0; TreasuryRuns.TVote ex_spend_id (ex_addr 3) true 7 5;
   TreasuryRuns.TTally [ex_spend_id] 10 6; TreasuryRuns.TExecute ex_spend_id 16; TreasuryRuns.TExecute ex_spend_id 17].
Lemma treasury_spends_authorised_witness :
  let s := TreasuryRuns.treasury_run (B := tagged_blake3) (Treasury.with_config 10 10 Treasury.new) ex_treasury_calls in
  Treasury.total_disbursed (fst s) = wrap 128 (TreasuryRuns.total_paid (snd s)) /\
  exists p, Treasury.proposals (fst s) !! ex_spend_id = Some p /\ status (Treasury.ballot p) = Executed /\
    TreasuryRuns.paid ex_spend_id (snd s) = [(Treasury.recipient p, Treasury.amount p)].
Proof.
  intros s.
  destruct (TreasuryRuns.treasury_spends_authorised (B := tagged_blake3) (CollisionFree0 := tagged_blake3_ok) 10 10 ex_treasury_calls
    (fst s) (snd s) ex_spend_id) as (Ht & p & Hp & Hx & Hd & _).
  - repeat constructor.
  - vm_compute. reflexivity.
  - apply surjective_pairing.
  - vm_compute. discriminate.
  - split; [exact Ht|]. exists p. split; [exact Hp|]. split; [exact Hx|exact Hd].
Defined.

(** The limit of a quarter is per proposal: five of them pay more than the balance each was checked against. *)
Example spends_exceed_balance :
  let ids := map (fun k => proposal_hash (H := tagged_blake3) (ex_addr 1) k Treasury.tag) [1; 2; 3; 4; 5] in
  let calls := replicate 5 (TreasuryRuns.TPropose (ex_addr 1) (ex_addr 2) 25 [] (10 ^ 22) 100 0)
    ++ map (fun id => TreasuryRuns.TVote id (ex_addr 3) true 7 5) ids ++ [TreasuryRuns.TTally ids 10 6]
    ++ map (fun id => TreasuryRuns.TExecute id 16) ids in
  Treasury.total_disbursed (fst (TreasuryRuns.treasury_run (B := tagged_blake3) (Treasury.with_config 10 10 Treasury.new) calls)) = 125.
Proof. vm_compute. reflexivity. Qed.

(** ** Protocol parameters *)

Module ParamRuns.
Import Params.

Inductive ParamCall :=
| PPropose (proposer : Address) (parameter : ParameterKey) (current proposed : Z) (description : bytes) (stake now : Z)
| PVote (id : Hash) (voter : Address) (approve : bool) (stake now : Z)
| PTally (order : list Hash) (total_stake now : Z)
| PExecute (id : Hash) (now : Z)
| PMature (order : list Hash) (now : Z)
| PCancel (id : Hash) (caller : Address)
| PPause
| PUnpause.

Section runs.
Context `{B : Blake3}.

Definition param_call (c : ParamCall) (g : ParameterGovernance) : ParameterGovernance :=
  match c with
  | PPropose p k cur pr d st n => snd (propose p k cur pr d st n g)
  | PVote id v ap st n => snd (vote id v ap st n g)
  | PTally order total n => snd (tally order total n g)
  | PExecute id n => snd (execute id n g)
  | PMature order n => snd (execute_mature order n g)
  | PCancel id caller => snd (cancel id caller g)
  | PPause => snd (pause g)
  | PUnpause => snd (unpause g)
  end.

(** A run, with its calls and whether governance was paused when each was made. *)
Abbreviation Log := (list (bool * ParamCall)).
Definition param_step (s : ParameterGovernance * Log) (c : ParamCall) : ParameterGovernance * Log :=
  (param_call c (fst s), snd s ++ [(paused (fst s), c)]).
Definition param_run (g : ParameterGovernance) (cs : list ParamCall) : ParameterGovernance * Log := foldl param_step (g, []) cs.

Definition event (id : Hash) (proposer : Address) (x : bool * ParamCall) : option BallotEvent :=
  match x with
  | (false, PVote id' v ap st n) => if decide (id' = id) then Some (BCast v ap st n) else None
  | (_, PTally order total n) => if decide (id ∈ order) then Some (BTally total n) else None
  | (_, PExecute id' n) => if decide (id' = id) then Some (BExecute n) else None
  | (_, PMature order n) => if decide (id ∈ order) then Some (BExecute n) else None
  | (_, PCancel id' caller) => if decide (id' = id /\ proposer = caller) then Some BCancel else None
  | _ => None
  end.

Definition proposes (p : ParameterProposal) (x : bool * ParamCall) : Prop :=
  exists stake, x = (false, PPropose (proposer p) (parameter p) (current_value p) (proposed_value p) (description p) stake (created_at p)) /\
    MIN_PROPOSAL_STAKE <= stake /\ (0 < current_value p -> change_percent (current_value p) (proposed_value p) <= MAX_CHANGE_PERCENT).

Definition proper_call (c : ParamCall) : Prop :=
  match c with PPropose p _ _ _ _ _ _ => length p = 20%nat | _ => True end.

Definition proposal_ok (vp tl counter : Z) (h : Log) (id : Hash) (p : ParameterProposal) : Prop :=
  proposal_id p = id /\ born tag counter id /\ since tl (u64_add (created_at p) vp) (proposes p) (event id (proposer p)) h (ballot p).

(** Every override comes from an executed proposal. *)
Definition overrides_ok (g : ParameterGovernance) : Prop :=
  map_Forall (fun k v => exists id p, proposals g !! id = Some p /\ status (ballot p) = Executed /\ parameter p = k /\
    proposed_value p = v) (overrides g).

Record param_inv (vp tl : Z) (s : ParameterGovernance * Log) : Prop := {
  pi_counter : 0 <= proposal_counter (fst s) <= Z.of_nat (length (snd s));
  pi_config : voting_period_ms (fst s) = vp /\ timelock_ms (fst s) = tl;
  pi_known : map_Forall (proposal_ok vp tl (proposal_counter (fst s)) (snd s)) (proposals (fst s));
  pi_overrides : overrides_ok (fst s);
}.

Lemma param_set_ballot_id p : set_ballot (ballot p) p = p.
Proof. by destruct p. Qed.
Lemma param_set_proposals_id g : set_proposals (proposals g) g = g.
Proof. by destruct g. Qed.

(** The proposals [ps] after one event each. *)
Definition stepped (tl : Z) (ev : Hash -> ParameterProposal -> option BallotEvent) (ps ps' : gmap Hash ParameterProposal) : Prop :=
  forall id, ps' !! id = (fun p => set_ballot (opt_step tl (ballot p) (ev id p)) p) <$> ps !! id.

Lemma stepped_none tl ev ps : (forall id p, ps !! id = Some p -> opt_step tl (ballot p) (ev id p) = ballot p) -> stepped tl ev ps ps.
Proof. intros H id. destruct (ps !! id) as [p|] eqn:E; [|done]. simpl. by rewrite (H _ _ E), param_set_ballot_id. Qed.
(** One proposal changes, and the event of the others is void. *)
Lemma stepped_one tl ev ps id p b :
  ps !! id = Some p -> b = opt_step tl (ballot p) (ev id p) -> (forall i q, i <> id -> ev i q = None) ->
  stepped tl ev ps (<[id := set_ballot b p]> ps).
Proof.
  intros Ep -> Hn i. destruct (decide (i = id)) as [->|Hne].
  - by rewrite lookup_insert_eq, Ep.
  - rewrite lookup_insert_ne by done. destruct (ps !! i); [|done]. simpl. rewrite Hn by done. simpl. by rewrite param_set_ballot_id.
Qed.

Lemma step_stays_executed tl b e : status b = Executed -> status (opt_step tl b e) = Executed.
Proof.
  intros E. destruct e as [[v ap st n|total n|n|]|]; simpl; [| | | |done].
  - unfold cast. by rewrite bool_decide_eq_false_2 by (rewrite E; done).
  - unfold tally_status. by rewrite E.
  - unfold maturity. by rewrite E.
  - by rewrite bool_decide_eq_false_2 by (rewrite E; done).
Qed.

Lemma stepped_overrides tl ev g ps' :
  stepped tl ev (proposals g) ps' -> overrides_ok g -> overrides_ok (set_proposals ps' g).
Proof.
  intros Hs Ho k v E. destruct (Ho k v E) as (id & p & Ep & Hx & Hk & Hv).
  exists id, (set_ballot (opt_step tl (ballot p) (ev id p)) p). simpl. rewrite Hs, Ep. split_and!; try done.
  by apply step_stays_executed.
Qed.

(** What a call other than [propose] does. *)
Record steps_to (tl : Z) (ev : Hash -> ParameterProposal -> option BallotEvent) (g g' : ParameterGovernance) : Prop := {
  st_stepped : stepped tl ev (proposals g) (proposals g');
  st_counter : proposal_counter g' = proposal_counter g;
  st_config : voting_period_ms g' = voting_period_ms g /\ timelock_ms g' = timelock_ms g;
  st_overrides : overrides_ok g -> overrides_ok g';
}.
Lemma steps_to_same tl ev g :
  (forall id p, proposals g !! id = Some p -> opt_step tl (ballot p) (ev id p) = ballot p) -> steps_to tl ev g g.
Proof. intros H. split; [by apply stepped_none|done..]. Qed.
Lemma steps_to_set tl ev g ps : stepped tl ev (proposals g) ps -> steps_to tl ev g (set_proposals ps g).
Proof. intros H. split; [done..|]. by apply (stepped_overrides tl ev). Qed.
Lemma steps_to_one tl ev g id p b :
  proposals g !! id = Some p -> b = opt_step tl (ballot p) (ev id p) -> (forall i q, i <> id -> ev i q = None) ->
  steps_to tl ev g (update id (set_ballot b p) g).
Proof. intros ? ? ?. apply steps_to_set. by apply stepped_one. Qed.

(** The events of a single proposal. *)
Definition only (id : Hash) (e : ParameterProposal -> option BallotEvent) (i : Hash) (p : ParameterProposal) : option BallotEvent :=
  if decide (id = i) then e p else None.
Lemma only_ne id e i p : i <> id -> only id e i p = None.
Proof. intros ?. unfold only. by rewrite decide_False. Qed.
Lemma only_eq id e p : only id e id p = e p.
Proof. unfold only. by rewrite decide_True. Qed.
(** Nothing happens when the proposal is unknown or its event void. *)
Lemma steps_to_void tl id e g :
  (forall p, proposals g !! id = Some p -> opt_step tl (ballot p) (e p) = ballot p) -> steps_to tl (only id e) g g.
Proof.
  intros H. apply steps_to_same. intros i p Ep. destruct (decide (i = id)) as [->|Hne].
  - rewrite only_eq. by apply H.
  - by rewrite only_ne.
Qed.

Lemma vote_steps tl id v ap st n g :
  paused g = false -> steps_to tl (only id (fun _ => Some (BCast v ap st n))) g (snd (vote id v ap st n g)).
Proof.
  intros Hp. unfold vote, bind, gets, Datatypes.id. rewrite Hp. unfold ok_or. destruct (proposals g !! id) as [p|] eqn:Ep; simpl.
  - destruct (cast v ap st n (ballot p)) as [e|b] eqn:Ec; simpl.
    + apply steps_to_void. intros q. rewrite Ep. intros [= <-]. simpl. by rewrite Ec.
    + apply steps_to_one; [done| |apply only_ne]. rewrite only_eq. simpl. by rewrite Ec.
  - apply steps_to_void. by rewrite Ep.
Qed.

Lemma execute_steps tl id n g : steps_to tl (only id (fun _ => Some (BExecute n))) g (snd (execute id n g)).
Proof.
  unfold execute, bind, gets, Datatypes.id, ok_or. destruct (proposals g !! id) as [p|] eqn:Ep; simpl.
  2: { apply steps_to_void. by rewrite Ep. }
  destruct (maturity n (ballot p)) eqn:Em; simpl; [apply steps_to_void; rewrite Ep; intros q [= <-]; simpl; by rewrite Em..|].
  destruct (steps_to_one tl (only id (fun _ => Some (BExecute n))) g id p (set_status Executed (ballot p))) as [H1 H2 H3 H4];
    [done|rewrite only_eq; simpl; by rewrite Em|apply only_ne|].
  split; [done..|]. intros Ho. specialize (H4 Ho). unfold overrides_ok in *. simpl in *. apply map_Forall_insert_2; [|done].
  exists id, (set_ballot (set_status Executed (ballot p)) p). by rewrite lookup_insert_eq.
Qed.

Lemma cancel_steps tl id caller g :
  steps_to tl (only id (fun p => if decide (proposer p = caller) then Some BCancel else None)) g (snd (cancel id caller g)).
Proof.
  unfold cancel, bind, gets, ok_or. destruct (proposals g !! id) as [p|] eqn:Ep; simpl; [|apply steps_to_void; by rewrite Ep].
  case_bool_decide as Hc; simpl.
  - case_bool_decide as Ha; simpl.
    + apply steps_to_one; [done| |apply only_ne]. rewrite only_eq, decide_True by done. simpl. by rewrite bool_decide_eq_true_2.
    + apply steps_to_void. rewrite Ep. intros q [= <-]. rewrite decide_True by done. simpl. by rewrite bool_decide_eq_false_2.
  - apply steps_to_void. rewrite Ep. intros q [= <-]. by rewrite decide_False.
Qed.

(** [e] for the proposals of [l]. *)
Definition among (l : list Hash) (e : BallotEvent) (i : Hash) (p : ParameterProposal) : option BallotEvent :=
  if decide (i ∈ l) then Some e else None.

Lemma execute_answers id n g : match fst (execute id n g) with Ok _ | Err _ => True | _ => False end.
Proof.
  unfold execute, bind, gets, Datatypes.id, ok_or. destruct (proposals g !! id) as [p|]; [|done]. simpl. by destruct (maturity n (ballot p)).
Qed.
Lemma execute_each_ok ids n g : exists l, fst (execute_each ids n g) = Ok l.
Proof.
  revert g. induction ids as [|id ids IH]; intros g; [by eexists|]. cbn [execute_each]. unfold bind, attempt.
  pose proof (execute_answers id n g) as Hr.
  destruct (execute id n g) as [[]] eqn:E; try done; simpl;
    match goal with |- context [execute_each ids n ?x] => destruct (IH x) as [l Hl]; destruct (execute_each ids n x) as [r y]; simpl in *; subst r end;
    by eexists.
Qed.
Lemma execute_each_fold ids n g : snd (execute_each ids n g) = foldl (fun g id => snd (execute id n g)) g ids.
Proof.
  revert g. induction ids as [|id ids IH]; intros g; [done|]. cbn [execute_each foldl]. rewrite <-IH. clear IH.
  pose proof (execute_each_ok ids n (snd (execute id n g))) as [l Hl].
  pose proof (execute_answers id n g) as Hr.
  unfold bind, attempt. destruct (execute id n g) as [[] g']; try done; simpl in *; destruct (execute_each ids n g'); simpl in *; by subst.
Qed.

Lemma steps_to_trans tl ev1 ev2 ev g g1 g2 :
  steps_to tl ev1 g g1 -> steps_to tl ev2 g1 g2 ->
  (forall id p, opt_step tl (opt_step tl (ballot p) (ev1 id p)) (ev2 id (set_ballot (opt_step tl (ballot p) (ev1 id p)) p)) =
     opt_step tl (ballot p) (ev id p)) ->
  steps_to tl ev g g2.
Proof.
  intros [H1 C1 [V1 T1] O1] [H2 C2 [V2 T2] O2] He. split; [|congruence|split; congruence|tauto].
  intros id. rewrite H2, H1. destruct (proposals g !! id) as [p|]; [|done]. simpl. f_equal. by rewrite <-He.
Qed.

Lemma execute_each_steps tl ids n g : steps_to tl (among ids (BExecute n)) g (snd (execute_each ids n g)).
Proof.
  rewrite execute_each_fold. revert g. induction ids as [|id ids IH]; intros g; simpl.
  { apply steps_to_same. intros i p _. unfold among. rewrite decide_False; [done|]. by apply not_elem_of_nil. }
  eapply steps_to_trans; [apply execute_steps|apply IH|]. intros i p. unfold among, only.
  destruct (decide (id = i)) as [->|Hne].
  - rewrite (decide_True (P := i ∈ i :: ids)) by left. destruct (decide (i ∈ ids)); [|done]. apply execute_idem.
  - destruct (decide (i ∈ ids)), (decide (i ∈ id :: ids)) as [H|H]; try done; exfalso; set_solver.
Qed.

(** Executing the mature ones among [order] is an execution for each of [order]. *)
Lemma mature_steps tl order n g :
  map_Forall (fun id p => proposal_id p = id) (proposals g) ->
  steps_to tl (among order (BExecute n)) g (snd (execute_mature order n g)).
Proof.
  intros Hid. unfold execute_mature, bind, gets. set (mature := omap _ order).
  destruct (execute_each_steps tl mature n g) as [H1 H2 H3 H4]. split; [|done..]. intros i. rewrite H1.
  destruct (proposals g !! i) as [p|] eqn:Ep; [|done]. simpl. f_equal. f_equal. unfold among.
  assert (Hm : i ∈ mature <-> i ∈ order /\ maturity n (ballot p) = MMature).
  { unfold mature. rewrite list_elem_of_omap. split.
    - intros (key & Hin & E). destruct (proposals g !! key) as [q|] eqn:Eq; [|done]. simpl in E. unfold is_mature in E.
      destruct (maturity n (ballot q)) eqn:Em; try done. injection E as E. rewrite (Hid _ _ Eq) in E. subst key.
      rewrite Ep in Eq. by injection Eq as ->.
    - intros [Hin Em]. exists i. split; [done|]. rewrite Ep. simpl. unfold is_mature. rewrite Em. by rewrite (Hid _ _ Ep). }
  destruct (decide (i ∈ mature)) as [Hi|Hi], (decide (i ∈ order)) as [Ho|Ho]; try done; simpl; [tauto|].
  destruct (maturity n (ballot p)) eqn:Em; try done. tauto.
Qed.

Lemma param_tally_lookup total now tl order ps queued :
  stepped tl (among order (BTally total now)) ps (fst (foldl (tally_one total now tl) (ps, queued) order)).
Proof.
  revert ps queued. induction order as [|key order IH]; intros ps queued id.
  { unfold among. rewrite decide_False by apply not_elem_of_nil. simpl. destruct (ps !! id); simpl; by rewrite ?param_set_ballot_id. }
  cbn [foldl]. unfold tally_one at 2. unfold among in *. destruct (ps !! key) as [pk|] eqn:Ek; rewrite IH; clear IH.
  - destruct (decide (key = id)) as [->|Hne].
    + rewrite lookup_insert_eq, Ek. simpl. rewrite (decide_True (P := id ∈ id :: order)) by left. f_equal.
      destruct (decide (id ∈ order)); [|done]. pose proof (tally_idem total now tl (ballot pk)) as Hi. simpl in Hi.
      unfold set_ballot. simpl. by rewrite Hi.
    + rewrite lookup_insert_ne by done. destruct (ps !! id); [|done]. simpl. f_equal.
      destruct (decide (id ∈ order)), (decide (id ∈ key :: order)) as [H|H]; try done; exfalso; set_solver.
  - destruct (ps !! id) eqn:Ei; [|done]. simpl. f_equal. assert (key <> id) by congruence.
    destruct (decide (id ∈ order)), (decide (id ∈ key :: order)) as [H'|H']; try done; exfalso; set_solver.
Qed.
Lemma tally_steps order total n g : steps_to (timelock_ms g) (among order (BTally total n)) g (snd (tally order total n g)).
Proof.
  unfold tally, bind, gets, Datatypes.id, modify, ret. pose proof (param_tally_lookup total n (timelock_ms g) order (proposals g) []) as Hl.
  destruct (foldl _ _ _) as [ps queued]. by apply steps_to_set.
Qed.

(** ** Runs *)

Lemma proposal_ok_snoc vp tl n n' h id p x :
  proposal_ok vp tl n h id p -> n <= n' ->
  proposal_ok vp tl n' (h ++ [x]) id (set_ballot (opt_step tl (ballot p) (event id (proposer p) x)) p).
Proof.
  intros (Hid & Hb & Hs) Hn. split_and!; [done|by eapply born_mono|]. apply (since_snoc _ _ _ _ _ _ x) in Hs. exact Hs.
Qed.

Lemma steps_to_inv vp tl g h c ev :
  param_inv vp tl (g, h) -> steps_to tl ev g (param_call c g) ->
  (forall id p, ev id p = event id (proposer p) (paused g, c)) -> param_inv vp tl (param_step (g, h) c).
Proof.
  intros [Hc [Hvp Htl] Hk Ho] [H1 H2 [H3 H4] H5] He. simpl in *. split; simpl.
  - rewrite H2, length_app. simpl. lia.
  - split; congruence.
  - intros id q E. rewrite H1 in E. destruct (proposals g !! id) as [p|] eqn:Ep; [|done]. injection E as <-. rewrite He.
    apply (proposal_ok_snoc _ _ (proposal_counter g)); [by apply Hk|lia].
  - by apply H5.
Qed.

Lemma propose_param_inv `{!CollisionFree B} vp tl g h p k cur pr d st n :
  Z.of_nat (length h) < 2 ^ 64 - 1 -> length p = 20%nat -> param_inv vp tl (g, h) ->
  param_inv vp tl (param_step (g, h) (PPropose p k cur pr d st n)).
Proof.
  intros Hlen Hp Hi. set (c := PPropose p k cur pr d st n).
  assert (Hsame : snd (propose p k cur pr d st n g) = g -> param_inv vp tl (param_step (g, h) c)).
  { intros E. apply (steps_to_inv _ _ _ _ _ (fun _ _ => None)); [done| |by destruct (paused g)]. simpl. rewrite E.
    by apply steps_to_same. }
  unfold propose, bind, gets, Datatypes.id in Hsame. destruct (paused g) eqn:Epa; [by apply Hsame|].
  destruct (Z.ltb_spec st MIN_PROPOSAL_STAKE) as [|Hst]; [by apply Hsame|]. destruct ((0 <? cur) && _) eqn:Em; [by apply Hsame|].
  clear Hsame. destruct Hi as [Hc [Hvp Htl] Hk Ho]. unfold param_step. simpl in *.
  unfold propose, bind, gets, Datatypes.id. rewrite Epa, (proj2 (Z.ltb_ge _ _) Hst), Em. simpl. set (i := proposal_hash p _ tag).
  assert (Hnew : proposals g !! i = None).
  { destruct (proposals g !! i) as [q|] eqn:E; [|done]. destruct (Hk _ _ E) as (_ & Hb' & _). by apply born_fresh in Hb'; [|lia|]. }
  assert (Hn1 : u64_add (proposal_counter g) 1 = proposal_counter g + 1) by (unfold u64_add, wrap; apply Z.mod_small; lia).
  split; simpl; [rewrite Hn1, length_app; simpl; lia|done| |].
  - rewrite Hn1. apply map_Forall_insert_2.
    + split_and!; simpl; [done|apply born_next; [lia|done]|]. rewrite Hvp. apply since_new. exists st. split_and!; [done|done|].
      intros Hpos. simpl in *. apply andb_false_iff in Em as [Em|Em]; apply Z.ltb_ge in Em; lia.
    + intros id q E. rewrite <-(param_set_ballot_id q). eapply proposal_ok_snoc; [by apply Hk|lia].
  - intros k' v E. destruct (Ho k' v E) as (id & q & Eq & Hq). exists id, q. simpl. rewrite lookup_insert_ne; [done|congruence].
Qed.

Lemma param_run_inv `{!CollisionFree B} vp tl cs :
  Forall proper_call cs -> Z.of_nat (length cs) < 2 ^ 64 -> param_inv vp tl (param_run (with_config vp tl new) cs) /\
  length (snd (param_run (with_config vp tl new) cs)) = length cs.
Proof.
  induction cs as [|c cs IH] using rev_ind; intros Hp Hlen.
  - split; [|done]. split; simpl; [lia|done|apply map_Forall_empty|apply map_Forall_empty].
  - apply Forall_app in Hp as [Hp Hc]. apply Forall_cons in Hc as [Hc _]. rewrite length_app in *. simpl in Hlen.
    destruct (IH Hp ltac:(lia)) as [Hi Hl]. unfold param_run in *. rewrite foldl_app. cbn [foldl].
    destruct (foldl param_step _ cs) as [g h]. simpl in Hl. split; [|simpl; rewrite length_app; simpl; lia].
    assert (Hid : map_Forall (fun id p => proposal_id p = id) (proposals g)).
    { eapply map_Forall_impl; [exact (pi_known _ _ _ Hi)|]. by intros id p (? & _). }
    pose proof (proj2 (pi_config _ _ _ Hi)) as Htl. simpl in Htl.
    destruct c as [p k cur pr d st n|id v ap st n|order total n|id n|order n|id caller| |].
    + apply propose_param_inv; [lia|exact Hc|done].
    + destruct (paused g) eqn:Epa.
      * apply (steps_to_inv _ _ _ _ _ (fun _ _ => None)); [done| |by rewrite Epa]. simpl. unfold vote, bind, gets, Datatypes.id. rewrite Epa.
        by apply steps_to_same.
      * eapply steps_to_inv; [done|by apply vote_steps|]. by rewrite Epa.
    + eapply steps_to_inv; [done|rewrite <-Htl; apply tally_steps|]. by destruct (paused g).
    + eapply steps_to_inv; [done|apply execute_steps|]. by destruct (paused g).
    + eapply steps_to_inv; [done|by apply mature_steps|]. by destruct (paused g).
    + eapply steps_to_inv; [done|apply cancel_steps|]. intros i q. unfold only. simpl.
      destruct (paused g), (decide (id = i)), (decide (proposer q = caller)), (decide (id = i /\ proposer q = caller)); tauto.
    + apply (steps_to_inv _ _ _ _ _ (fun _ _ => None)); [done| |by destruct (paused g)]. split; [by apply stepped_none|done..].
    + apply (steps_to_inv _ _ _ _ _ (fun _ _ => None)); [done| |by destruct (paused g)]. split; [by apply stepped_none|done..].
Qed.

(** C30 (safety): a protocol parameter changes only by decision. Take any sequence
    of calls on new parameter governance, pauses and cancellations included. If a
    parameter has an override, it is the value of an executed proposal for that
    parameter, and the calls contain, in this order: the proposal, made while not
    paused by an account with the minimum stake and within the limit on the
    change; votes of distinct accounts before the deadline, none of them during a
    pause; a tally in which the approving stake exceeded two thirds of the total;
    and an execution, by [execute] or [execute_mature], not before the timelock. *)
Theorem param_changes_authorised `{!CollisionFree B} vp tl cs g h k v :
  Forall proper_call cs -> Z.of_nat (length cs) < 2 ^ 64 -> param_run (with_config vp tl new) cs = (g, h) ->
  get_override k g = Some v ->
  exists id p, proposals g !! id = Some p /\ status (ballot p) = Executed /\ parameter p = k /\ proposed_value p = v /\
    (0 <= approved_stake (ballot p) < 2 ^ 126 ->
     exists h0 hm h1 b order total t0 h2 b' ce t1,
       h = h0 ++ hm :: h1 ++ (b, PTally order total t0) :: h2 /\ proposes p hm /\ id ∈ order /\
       (b', ce) ∈ h2 /\ (ce = PExecute id t1 \/ exists order', ce = PMature order' t1 /\ id ∈ order') /\ u64_add t0 tl <= t1 /\
       (0 <= total < 2 ^ 126 -> 2 * total < 3 * approved_stake (ballot p)) /\
       map_Forall (fun v '(ap, st) => exists now, (false, PVote id v ap st now) ∈ h1 /\ now <= u64_add (created_at p) vp) (votes (ballot p))).
Proof.
  intros Hp Hlen Hrun Hk. destruct (param_run_inv vp tl cs Hp Hlen) as [[_ _ Hok Ho] _]. rewrite Hrun in *. simpl in *.
  destruct (Ho _ _ Hk) as (id & p & Ep & Hx & Hpk & Hpv). exists id, p. split_and!; try done. intros Ha.
  destruct (Hok _ _ Ep) as (_ & _ & Hs).
  destruct (since_executed _ _ _ _ _ _ Hs Hx Ha) as (h0 & hm & h1 & [b ct] & h2 & [b' ce] & total & t0 & t1 & E & Hm & Ht0 & Hin & He & Hle & Hs3 & Hv).
  destruct b, ct as [| |order tot n| | | | |]; simpl in Ht0; try case_decide; simplify_eq.
  all: exists h0, hm, h1; eexists _, order, total, t0, h2, b', ce, t1; split_and!; try done;
    [destruct b', ce as [| | |i n|o n| | |]; simpl in He; try case_decide; simplify_eq; eauto|].
  all: eapply map_Forall_impl; [exact Hv|]; intros w [ap st] ([b c] & now & Hc & Ec & Hn); exists now; split; [|done];
    destruct b, c; simpl in Ec; try case_decide; by simplify_eq.
Qed.

(** C38 (bounds): the limit on the size of a change wraps. The change in percent is
    computed in 128 bits without a check, so a proposal to raise any positive
    parameter by 2^126, or by a multiple of it that fits, counts as no change at
    all: [propose] accepts it from every account with the minimum stake. *)
Theorem change_limit_wraps g p k cur m d st n :
  paused g = false -> MIN_PROPOSAL_STAKE <= st -> 0 < cur -> 0 < m -> cur + m * 2 ^ 126 < 2 ^ 128 ->
  change_percent cur (cur + m * 2 ^ 126) = 0 /\
  exists id g' q, propose p k cur (cur + m * 2 ^ 126) d st n g = (Ok id, g') /\ proposals g' !! id = Some q /\
    status (ballot q) = Active /\ parameter q = k /\ proposed_value q = cur + m * 2 ^ 126.
Proof.
  intros Hp Hst Hc Hm Hmax.
  assert (Hz : change_percent cur (cur + m * 2 ^ 126) = 0).
  { unfold change_percent. destruct (Z.ltb_spec cur (cur + m * 2 ^ 126)); [|lia]. unfold u128_mul, wrap.
    replace ((cur + m * 2 ^ 126 - cur) * 100) with (25 * m * 2 ^ 128) by lia. rewrite Z.mod_mul by lia. by apply Z.div_0_l; lia. }
  split; [done|]. unfold propose, bind, gets, Datatypes.id. rewrite Hp, Hz. destruct (Z.ltb_spec st MIN_PROPOSAL_STAKE); [lia|].
  rewrite andb_false_r. simpl. eexists _, _, _. split_and!; [done|apply lookup_insert_eq|done..].
Qed.
End runs.
End ParamRuns.

Definition ex_param_id : Hash := proposal_hash (H := tagged_blake3) (ex_addr 1) 1 Params.tag.
Definition ex_param_calls : list ParamRuns.ParamCall :=
  [ParamRuns.PPropose (ex_addr 1) Params.BlockReward 10 8 [] (10 ^ 22) 0; ParamRuns.PPause; ParamRuns.PVote ex_param_id (ex_addr 4) false 9 1;
   ParamRuns.PUnpause; ParamRuns.PVote ex_param_id (ex_addr 3) true 7 5; ParamRuns.PTally [ex_param_id] 10 6; ParamRuns.PMature [ex_param_id] 16].
Lemma param_changes_authorised_witness :
  let s := ParamRuns.param_run (B := tagged_blake3) (Params.with_config 10 10 Params.new) ex_param_calls in
  exists id p, Params.proposals (fst s) !! id = Some p /\ status (Params.ballot p) = Executed /\
    Params.parameter p = Params.BlockReward /\ Params.proposed_value p = 8.
Proof.
  intros s.
  destruct (ParamRuns.param_changes_authorised (B := tagged_blake3) (CollisionFree0 := tagged_blake3_ok) 10 10 ex_param_calls
    (fst s) (snd s) Params.BlockReward 8) as (id & p & Hp & Hx & Hk & Hv & _).
  - repeat constructor.
  - vm_compute. reflexivity.
  - apply surjective_pairing.
  - vm_compute. reflexivity.
  - exists id, p. split; [exact Hp|]. split; [exact Hx|]. split; [exact Hk|exact Hv].
Defined.
Lemma change_limit_wraps_witness :
  Params.change_percent 30 (30 + 1 * 2 ^ 126) = 0 /\
  exists id g' q, Params.propose (H := tagged_blake3) (ex_addr 1) Params.BlockGasLimit 30 (30 + 1 * 2 ^ 126) [] (10 ^ 22) 0 Params.new = (Ok id, g') /\
    Params.proposals g' !! id = Some q /\ status (Params.ballot q) = Active /\ Params.parameter q = Params.BlockGasLimit /\
    Params.proposed_value q = 30 + 1 * 2 ^ 126.
Proof. apply (ParamRuns.change_limit_wraps (B := tagged_blake3)); vm_compute; (reflexivity || discriminate). Defined.

(** ** Models *)

(** What a tally decides about an active proposal, without rounding or overflow:
    the supermajority of validators, and rejection only when the validators that
    have not voted could no longer reach it. A model that is approved is never
    rejected in the same round. *)
Lemma tally_model_exact {ModelInfo} count now (p : Models.ModelProposal (ModelInfo := ModelInfo)) :
  let f := Z.of_nat (size (Models.votes_for p)) in
  let a := Z.of_nat (size (Models.votes_against p)) in
  Models.model_status p = Models.MActive -> 0 <= count < 2 ^ 61 -> f < 2 ^ 61 -> a < 2 ^ 61 ->
  let '(p', approved) := Models.tally_model count now p in
  (approved = true <-> 2 * count < 3 * f) /\
  Models.model_status p' =
    if bool_decide (2 * count < 3 * f) then Models.MPassed
    else if bool_decide (Models.model_deadline p < now) then Models.MExpired
    else if bool_decide (2 * count < 3 * (f + Z.max 0 (count - (f + a)))) then Models.MActive else Models.MRejected.
Proof.
  intros f a Ha Hc Hf Hga. assert (0 <= f /\ 0 <= a) as [Hf0 Ha0] by (unfold f, a; lia).
  assert (H3 : forall x, 0 <= x < 2 ^ 62 -> Models.two_thirds x count = bool_decide (2 * count < 3 * x)).
  { intros x Hx. unfold Models.two_thirds, u64_mul, wrap, SUPERMAJORITY_NUMERATOR, SUPERMAJORITY_DENOMINATOR.
    rewrite !Z.mod_small by lia. apply eq_true_iff_eq. rewrite Z.ltb_lt, bool_decide_eq_true. lia. }
  unfold Models.tally_model. rewrite bool_decide_eq_true_2 by done. cbn [negb]. fold f. rewrite (H3 f) by lia.
  assert (Hd : (Models.model_deadline p <? now) = bool_decide (Models.model_deadline p < now)).
  { apply eq_true_iff_eq. by rewrite Z.ltb_lt, bool_decide_eq_true. }
  rewrite Hd. case_bool_decide as H1; case_bool_decide as H2; simpl; try (split; [split; (done || lia)|done]).
  all: fold a; unfold u64_add, wrap, sat_sub; rewrite (Z.mod_small (f + a)) by lia; rewrite Z.mod_small by lia; rewrite H3 by lia.
  - rewrite bool_decide_eq_true_2 by lia. split; [split; (done || lia)|done].
  - split; [split; (done || lia)|]. by case_bool_decide.
Qed.
